(* ===== verification/_CoqProject ===== *)
-Q . S2P
Overview.v
Prelude.v
Endian.v
Intset.v
Util.v
Lzf.v
Glob.v
Crc.v
Cluster.v
ClusterSpec.v
ClusterSteps.v
Dict.v
DictSpec.v
DictMap.v
DictScan.v
Adlist.v
Object.v
Skiplist.v
SkiplistSpec.v
SkiplistOps.v
SkiplistRep.v
SkiplistRange.v
SkiplistQuery.v
SkiplistRefine.v
Sds.v
SdsText.v
SdsArgs.v
SdsRefine.v
Rio.v
Rdb.v
RdbFormat.v
RdbDump.v
RdbParse.v
RdbSafe.v
RdbCorrect.v
Ziplist.v
ZiplistSpec.v
ZiplistOps.v
ZiplistUpdate.v
ZiplistQuery.v
ZiplistRefine.v
HashType.v
HashNumber.v
HashTypeSpec.v
HashTypeRefine.v
HashCommands.v
SetType.v
SetKeys.v
SetTypeSpec.v
SetAlgebra.v
SetCommands.v
SetRandom.v
