(* ===== verification/Overview.v ===== *)
(** * The C core of the Redis 3.0 server of this repository

    The repository holds card game servers in C++ ([src/] with Chinese directory
    names) and the Redis server they store their state in, with its Windows port
    ([src/Redis-3.0]).  This development models the algorithmic core of the C
    program, [src/Redis-3.0/src/*.c], and proves that it does what the rest of the
    server relies on.

    ** How the parts of the program fit together

    A Redis server keeps every database as a dictionary ([dict.c]) from keys to
    objects ([object.c]); a set of small integers is an integer set ([intset.c]),
    a sorted set a dictionary together with a skip list ([t_zset.c]), a list and
    most of the server's own bookkeeping a doubly linked list ([adlist.c]).
    A hash ([t_hash.c]) is one block of fields and values in turn ([ziplist.c])
    while it is small, and a dictionary from then on.  A set ([t_set.c]) is an
    integer set while it is small and has only integers, and a dictionary else.
    Numbers are kept as text and read back by [util.c], whose glob matcher also
    selects keys and channels.  Texts are dynamic strings ([sds.c]).  The
    databases are saved to and loaded from a dump ([rdb.c]) over a stream
    ([rio.c]): strings are compressed with LZF ([lzf_c.c], [lzf_d.c]) where this
    pays, and the checksum of [crc64.c], made independent of the byte order by
    [endianconv.c], ends the dump.  In a cluster, [cluster.c] maps keys to slots by the
    checksum of [crc16.c], keeps the table of nodes, detects failures, votes, and
    reconfigures the owners of the slots as packets arrive.

    ** Conventions ([Prelude])

    - A C function is a Rocq function with the name of the C function, where it
      is not taken; the state it reads and writes is an argument and a result.
      [option] is the monad of undefined behaviour: [None] is an access outside
      a buffer, a read of a released or a null pointer, a failed [redisAssert],
      or a loop that ran out of fuel.  A theorem whose conclusion is [... = Some
      _] excludes them all, and says that the C function returns.
    - A loop is [loop fuel body state]; the fuel is a bound computed from the
      arguments, and each functional theorem proves that it is enough.
    - Machine integers are [Z], wrapped explicitly: [u8], [u32], [s64] and so on.
    - A buffer is a list of bytes, each a [Z] from 0 to 255; [rd] and [wr] read
      and write inside of it.  [zmalloc] never fails ([zmalloc] aborts the
      process when out of memory) and its contents are arbitrary: a parameter
      [Allocator].
    - Linked structures live in a heap, a finite map from locations; the
      locations given out are a parameter ([EntryAllocator]) known only to be
      fresh.  Random numbers are an arbitrary sequence.

    ** The files

    - [Endian]: [endianconv.c].  Byte reversals on buffers and integers.
    - [Intset]: [intset.c].  Sorted arrays of 16, 32 or 64 bit integers,
      [Module]-free; [intset_rep] relates the buffer to a sorted list of distinct
      integers, and the operations refine those of finite sets ([gset Z]).
    - [Util]: [digits10], [ll2string], [string2ll] of [util.c].
    - [Lzf]: [lzf_c.c], [lzf_d.c], [lzfP.h]: both directions of the compression
      over buffers, against the expansion of a sequence of tokens.
    - [Glob]: [stringmatchlen] of [util.c] against a semantics of patterns as
      lists of tokens.
    - [Crc]: [crc16.c], [crc64.c] against bit by bit polynomial division.
    - [Cluster]: the node table, slots, epochs, failure reports, votes, roles
      and packet handlers of [cluster.c], [cluster.h] as functions in a state and
      error monad over a heap of nodes.  [ClusterSpec]: the invariant and the
      behaviour of each operation.  [ClusterSteps]: the handlers as a step
      relation, safety of every reachable state, and the theorems on each part.
    - [Dict]: [dict.c], [dict.h] over a heap of chained entries, iterators and
      [dictScan] included.  [DictSpec]: representation and behaviour of the
      single operations.  [DictMap]: refinement of a finite map by sequences of
      operations, progress of the incremental rehash, hash functions.
      [DictScan]: iterators, sampling, and the guarantees of the scan.
    - [Adlist]: [adlist.c], [adlist.h], lists over a heap and iterators.
    - [Object]: comparison of string objects of [object.c]; the type class
      [StringObject] with its laws is what a skip list needs of them.
    - [Skiplist]: the skip list of [t_zset.c] over a heap of nodes with levels
      and spans.  [SkiplistSpec]: levels as functions of the list of entries, and
      the searches.  [SkiplistOps], [SkiplistRep]: insertion and deletion keep
      the representation.  [SkiplistRange], [SkiplistQuery]: range deletions, range
      and rank queries.  [SkiplistRefine]: the property theorems.
    - [Sds]: [sds.c], [sds.h]: strings with their header over memory blocks.
      [SdsText]: what each operation does to the text ([sds_is]).  [SdsArgs]:
      splitting, joining, comparing, quoting and the grammar of argument lines.
      [SdsRefine]: sequences of operations refine byte strings.
    - [Rio]: the streams of [rio.h], over any device (class [Device], with its
      laws in [DeviceLaws]), and the buffer in memory of [rio.c] as a device.
    - [Rdb]: [rdb.c]: lengths, strings, keys, databases and whole dumps, as
      functions over streams in two small monads, one that returns a number of
      bytes and one that may end the process ([death]); values other than strings
      are behind the class [Value].  [RdbFormat]: what is written and read, as
      composable relations between functions and bytes ([writes], [reads]).
      [RdbDump]: keys, databases and the dump (interface [ValueLaws]).
      [RdbParse]: whatever is accepted was read from the front of the stream
      ([parses]).  [RdbSafe]: behaviour on arbitrary bytes ([safe]).
      [RdbCorrect]: the property theorems.
    - [Ziplist]: [ziplist.c], [ziplist.h]: every operation on the bytes of a
      block.  [ZiplistSpec]: the block as the layout of a list of entries
      ([zl_rep]), and what reading and writing one entry does.  [ZiplistOps]: the
      cascade of updates.  [ZiplistUpdate]: insertion and deletion.
      [ZiplistQuery]: indexes, walking, reading, searching, counting.
      [ZiplistRefine]: sequences of operations refine lists of texts, and the
      other property theorems.
    - [HashType]: the hash objects of [t_hash.c] with what they use of [object.c]
      and [redis.c]; it composes [Ziplist], [Dict] and [Object].  [HashNumber]:
      which texts the commands take for numbers.  [HashTypeSpec]: the operations on
      each encoding, as updates of a list of pairs or of a map.
      [HashTypeRefine]: iteration, the conversion, and each command on a hash that
      stands for a map ([hash_is]).  [HashCommands]: sequences of commands.
    - [SetType]: the set objects of [t_set.c] over [Intset] and [Dict], with the
      loops of the commands on several sets over a heap of sets ([qsort] is the
      class [Qsort]).  [SetKeys]: the commands on a map from keys to sets.
      [SetTypeSpec]: the operations on each encoding, as operations on a finite
      set of texts ([set_is]).  [SetAlgebra]: iterating over a set in memory,
      intersections, unions, differences.  [SetCommands]: sequences of commands as
      operations on a map from keys to finite sets, and the encoding.
      [SetRandom]: SPOP and SRANDMEMBER for all values of [random].

    ** What the theorems show

    - Refinement of an abstract data type: [intsetAdd_refines],
      [intsetRemove_refines] (finite sets), [dict_refines_map] (finite maps, over
      sequences of operations with rehashing in between), [list_ops_refine]
      (sequences), [skiplist_refines] (sorted lists), [sds_ops_refine] (byte
      strings), [ziplist_refines] (lists of texts), [hash_refines]
      (maps of texts over two encodings), [set_refines] (keys with finite sets of
      texts over two encodings, with intersections, unions and differences).
    - Safety and invariants: [cluster_reachable_safe] (no dangling pointer, no
      failed assertion, consistent slot ownership in every reachable state),
      [one_vote_per_epoch], [dictScan_complete] (no element present throughout a
      scan is missed, under resizing), [ziplist_updates_wf] (the chain of previous
      lengths through every cascade).
    - Termination and progress: [dictScan_static], [rehash_completes]; besides,
      every theorem about a function with loops proves that it returns.
    - Encodings: when a hash changes its encoding ([hash_encoding_correct]), and
      that this does not show ([hash_encodings_agree]); when a set does
      ([set_encoding_correct]).
    - Random choice: what [spop_correct] and [srandmember_correct] state holds for
      all values of [random], and there are values for which the loop over random
      elements ends.
    - Equivalence with a reference: the glob matcher, the two checksums, the
      byte reversals, the lines of arguments; round trips: numbers and text,
      compression ([lzf_roundtrip]), quoting ([sdscatrepr_splitargs_roundtrip]),
      string objects and dumps ([rdb_string_roundtrip], [rdb_save_load]).
    - Arbitrary input: the loader of dumps is safe ([rdb_load_safe]), what it
      accepts is well formed ([rdb_loaded_wf]) and has the right checksum
      ([rdb_load_checked]), and it takes no part of a dump for the whole
      ([rdb_load_truncated]).
    - Functional behaviour of the other operations, on every branch.
    - Error behaviour: theorems named after a defect exhibit it on the model.

    ** Fuel and bounds

    The fuel of a loop is the length of the structure it walks plus one or two
    (chains, lists, skip lists: the number of elements; buffers: the number of
    bytes; [stringmatchlen]: a function of both lengths; the loader of dumps: one
    round per byte of the dump; loops over random numbers: one round per number);
    the theorems assume of
    the sizes only that they fit the machine integers that hold them, as a
    structure in memory does.

    ** Not modelled

    In the dump, lists, sets, sorted sets and hashes; of the commands, those of
    strings, lists and sorted sets, and the scans of sets and hashes and the
    floating point increments of hashes; of the database behind the set commands,
    only which key has which set.  The zipmap of old dumps,
    and scores, which go through [strtod].  Sockets, the event loop, files, forking, the clock (a parameter where it is
    read), commands and replies, [vsnprintf], and whatever is only input and output
    around the structures above; the Windows port; the bundled third-party
    libraries (jemalloc, Lua, hiredis, linenoise); and the C++ game servers, which
    are built on MFC, ADO and Windows services, use classes with virtual
    dispatch throughout, and share no code with the Redis server. *)
