(* ===== verification/Prelude.v ===== *)
(** * Verification of the C core of the bundled Redis 3.0 server (placeholder header) *)

From stdpp Require Export base list list_numbers numbers gmap option sorting.
From Stdlib Require Export ZArith Lia ZifyBool Btauto.

#[global] Open Scope Z_scope.

(** ** Tactics *)

(** Linear arithmetic with division and remainder by constants. *)
Ltac dlia := Z.to_euclidean_division_equations; lia.

(** Run the option monad one step. *)
Ltac mrun := cbn [mbind option_bind mret option_ret fmap option_fmap option_map].

(** ** Options as the error monad of undefined behaviour

    [None] is undefined behaviour of the C program: an access outside a buffer,
    a division by zero, a failed assertion, or a loop that ran out of the fuel
    it was given.  A theorem with [= Some _] in its conclusion therefore rules
    all of these out. *)

(** [assert_c b k]: continue with [k] when [b] holds, undefined otherwise. *)
Notation "'check' b ;; k" := (if (b)%Z then k else None)
  (at level 100, b at level 99, k at level 200, right associativity, only parsing) : stdpp_scope.

(** ** Loops *)

(** A C loop whose body either continues with a new state ([inl]), leaves the
    loop with a result ([inr]), or is undefined ([None]). *)
Fixpoint loop {St R : Type} (fuel : nat) (body : St → option (St + R)) (s : St) : option R :=
  match fuel with
  | O => None
  | S n =>
    match body s with
    | Some (inl s') => loop n body s'
    | Some (inr r) => Some r
    | None => None
    end
  end.

Section loop_rules.
Context {St R : Type} (body : St → option (St + R)).
Context (Inv : St → Prop) (measure : St → nat) (Post : R → Prop).
Context (Hstep : ∀ s, Inv s →
  (∃ s', body s = Some (inl s') ∧ Inv s' ∧ (measure s' < measure s)%nat) ∨
  (∃ r, body s = Some (inr r) ∧ Post r)).

(** Total correctness: an invariant, a decreasing measure bounded by the fuel. *)
Lemma loop_total (fuel : nat) (s : St) :
  Inv s → (measure s < fuel)%nat → ∃ r, loop fuel body s = Some r ∧ Post r.
Proof using Hstep.
  revert s. induction fuel as [|fuel IH]; intros s HI Hm; [lia|]. simpl.
  destruct (Hstep s HI) as [(s' & -> & HI' & Hlt)|(r & -> & HP)]; [|by eauto].
  apply IH; [done|lia].
Qed.
End loop_rules.

(** More fuel never changes a result. *)
Lemma loop_fuel_mono {St R} (body : St → option (St + R)) (n m : nat) (s : St) (r : R) :
  loop n body s = Some r → (n ≤ m)%nat → loop m body s = Some r.
Proof.
  revert m s. induction n as [|n IH]; intros m s; simpl; [done|].
  destruct m as [|m]; [lia|]. simpl.
  destruct (body s) as [[s'|r']|]; try done. intros. apply IH; [done|lia].
Qed.

(** [cbn] on the binds would leave the kernel with long conversions. *)
Lemma bind_Some_eq {A B} (f : A → option B) (a : A) : (Some a ≫= f) = f a.
Proof. done. Qed.

Lemma loop_S {St R} (body : St → option (St + R)) n s :
  loop (S n) body s =
  match body s with Some (inl s') => loop n body s' | Some (inr r) => Some r | None => None end.
Proof. done. Qed.

(** ** Machine integers *)

(** The [w]-bit unsigned value of [z]. *)
Definition wrap (w z : Z) : Z := z mod 2 ^ w.
(** The [w]-bit two's complement value of [z]. *)
Definition swrap (w z : Z) : Z := (z + 2 ^ (w - 1)) mod 2 ^ w - 2 ^ (w - 1).

Definition in_u (w z : Z) : Prop := 0 ≤ z < 2 ^ w.
Definition in_s (w z : Z) : Prop := - 2 ^ (w - 1) ≤ z < 2 ^ (w - 1).

(** Arithmetic on machine integers: unfold the range predicates and decide. *)
Ltac rlia := unfold in_u, in_s in *; lia.

#[export] Instance in_u_dec w z : Decision (in_u w z).
Proof. unfold in_u. apply _. Defined.
#[export] Instance in_s_dec w z : Decision (in_s w z).
Proof. unfold in_s. apply _. Defined.

Abbreviation u8 := (wrap 8).
Abbreviation u16 := (wrap 16).
Abbreviation u32 := (wrap 32).
Abbreviation u64 := (wrap 64).
Abbreviation s8 := (swrap 8).
Abbreviation s16 := (swrap 16).
Abbreviation s32 := (swrap 32).
Abbreviation s64 := (swrap 64).

Lemma wrap_small w z : in_u w z → wrap w z = z.
Proof. apply Z.mod_small. Qed.

Lemma wrap_range w z : 0 ≤ w → in_u w (wrap w z).
Proof. intros. apply Z.mod_pos_bound. lia. Qed.

Lemma pow2_half w : 0 < w → 2 ^ w = 2 * 2 ^ (w - 1).
Proof. intros. replace w with (Z.succ (w - 1)) at 1 by lia. apply Z.pow_succ_r. lia. Qed.

Lemma swrap_small w z : 0 < w → in_s w z → swrap w z = z.
Proof.
  intros Hw [? ?]. unfold swrap. pose proof (pow2_half w Hw).
  rewrite Z.mod_small by lia. lia.
Qed.

Lemma swrap_range w z : 0 < w → in_s w (swrap w z).
Proof.
  intros Hw. unfold swrap, in_s. pose proof (pow2_half w Hw).
  pose proof (Z.mod_pos_bound (z + 2 ^ (w - 1)) (2 ^ w)). lia.
Qed.

Lemma swrap_wrap w z : 0 < w → swrap w (wrap w z) = swrap w z.
Proof.
  intros. unfold swrap, wrap. by rewrite Zplus_mod_idemp_l.
Qed.

Lemma wrap_swrap w z : 0 < w → wrap w (swrap w z) = wrap w z.
Proof.
  intros. unfold swrap, wrap.
  rewrite <-Zminus_mod_idemp_r, Zminus_mod_idemp_l, Zminus_mod_idemp_r.
  f_equal. lia.
Qed.

Lemma swrap_wrap_small w z : 0 < w → in_s w z → swrap w (wrap w z) = z.
Proof. intros. rewrite swrap_wrap by done. by apply swrap_small. Qed.

(** ** Bytes and little-endian integers *)

Abbreviation bytes := (list Z).
Abbreviation is_bytes := (Forall (in_u 8)).

(** [le_enc n z]: the [n] low bytes of [z], least significant first. *)
Fixpoint le_enc (n : nat) (z : Z) : bytes :=
  match n with
  | O => []
  | S n => z mod 256 :: le_enc n (z / 256)
  end.

Fixpoint le_dec (bs : bytes) : Z :=
  match bs with
  | [] => 0
  | b :: bs => b + 256 * le_dec bs
  end.

Lemma pow256_S (n : nat) : 256 ^ Z.of_nat (S n) = 256 * 256 ^ Z.of_nat n.
Proof. rewrite Nat2Z.inj_succ. apply Z.pow_succ_r. lia. Qed.

Lemma pow256_pos (n : nat) : 0 < 256 ^ Z.of_nat n.
Proof. apply Z.pow_pos_nonneg; lia. Qed.

Lemma length_le_enc n z : length (le_enc n z) = n.
Proof. revert z. induction n; intros; simpl; auto. Qed.

Lemma le_enc_bytes n z : is_bytes (le_enc n z).
Proof.
  revert z. induction n; intros z; simpl; constructor; auto.
  apply Z.mod_pos_bound. lia.
Qed.

Lemma le_dec_range bs : is_bytes bs → 0 ≤ le_dec bs < 256 ^ Z.of_nat (length bs).
Proof.
  induction 1 as [|b bs [Hb1 Hb2] _ IH]; cbn [le_dec length]; [lia|].
  rewrite pow256_S. change (2 ^ 8) with 256 in Hb2. nia.
Qed.

Lemma le_dec_enc n z : le_dec (le_enc n z) = z mod 256 ^ Z.of_nat n.
Proof.
  revert z. induction n as [|n IH]; intros z; cbn [le_enc le_dec].
  { by rewrite Z.mod_1_r. }
  rewrite IH, pow256_S, Z.rem_mul_r by (pose proof (pow256_pos n); lia). done.
Qed.

Lemma le_enc_dec bs : is_bytes bs → le_enc (length bs) (le_dec bs) = bs.
Proof.
  induction 1 as [|b bs [Hb1 Hb2] Hbs IH]; [done|]. cbn [le_dec length le_enc].
  change (2 ^ 8) with 256 in Hb2.
  rewrite <-Z.add_mod_idemp_r, (Z.mul_comm 256), Z.mod_mul, Z.add_0_r by lia.
  rewrite (Z.mod_small b), Z.div_add, (Z.div_small b) by lia.
  by rewrite Z.add_0_l, IH.
Qed.

Lemma le_dec_inj bs1 bs2 :
  is_bytes bs1 → is_bytes bs2 → length bs1 = length bs2 → le_dec bs1 = le_dec bs2 → bs1 = bs2.
Proof.
  intros H1 H2 Hl Hd. rewrite <-(le_enc_dec bs1), <-(le_enc_dec bs2) by done. congruence.
Qed.

Lemma le_enc_mod n z : le_enc n (z mod 256 ^ Z.of_nat n) = le_enc n z.
Proof.
  apply le_dec_inj; auto using le_enc_bytes; rewrite ?length_le_enc, ?le_dec_enc; auto.
  rewrite Z.mod_mod; [done|]. pose proof (pow256_pos n). lia.
Qed.

Lemma pow256_pow2 (n : nat) : 256 ^ Z.of_nat n = 2 ^ (8 * Z.of_nat n).
Proof. rewrite Z.pow_mul_r by lia. done. Qed.

(** The integer a [w]-bit load reads back after a [w]-bit store. *)
Lemma wrap_le_dec_enc n z : le_dec (le_enc n z) = wrap (8 * Z.of_nat n) z.
Proof. by rewrite le_dec_enc, pow256_pow2. Qed.

Lemma swrap_le_dec_enc (n : nat) z :
  (0 < n)%nat → in_s (8 * Z.of_nat n) z → swrap (8 * Z.of_nat n) (le_dec (le_enc n z)) = z.
Proof. intros. rewrite wrap_le_dec_enc. apply swrap_wrap_small; [lia|done]. Qed.

(** ** Buffers

    A block of memory is the list of its bytes; an address in it is an offset
    in [Z].  [rd], [wr] and [memmove] are undefined outside the block. *)
Abbreviation zlen l := (Z.of_nat (length l)).

Definition rd {A} (b : list A) (off n : Z) : option (list A) :=
  if (0 <=? off) && (0 <=? n) && (off + n <=? zlen b)
  then Some (take (Z.to_nat n) (drop (Z.to_nat off) b)) else None.

Definition wr {A} (b : list A) (off : Z) (bs : list A) : option (list A) :=
  if (0 <=? off) && (off + zlen bs <=? zlen b)
  then Some (take (Z.to_nat off) b ++ bs ++ drop (Z.to_nat off + length bs) b) else None.

Definition rd1 {A} (b : list A) (off : Z) : option A :=
  if 0 <=? off then b !! Z.to_nat off else None.

Definition wr1 {A} (b : list A) (off : Z) (x : A) : option (list A) := wr b off [x].

(** [memmove(b+dst, b+src, n)]; [memcpy] between two blocks is [rd] then [wr]. *)
Definition memmove {A} (b : list A) (dst src n : Z) : option (list A) :=
  bs ← rd b src n; wr b dst bs.

(** Fresh memory has unspecified contents: whatever the allocator returns. *)
Class Allocator := {
  fresh : nat → bytes;
  length_fresh n : length (fresh n) = n;
  fresh_bytes n : is_bytes (fresh n);
}.

(** [zmalloc], and [zrealloc]: the prefix is kept, new bytes are unspecified. *)
Definition zmalloc `{Allocator} (n : Z) : bytes := fresh (Z.to_nat n).
Definition zrealloc `{Allocator} (b : bytes) (n : Z) : bytes :=
  take (Z.to_nat n) b ++ fresh (Z.to_nat n - length b).

(** A concrete allocator, for evaluating the definitions. *)
Program Definition poison_allocator : Allocator := {| fresh n := replicate n 165 |}.
Next Obligation. intros. apply length_replicate. Qed.
Next Obligation. intros. by apply Forall_replicate. Qed.

Section buffers.
Context {A : Type}.
Implicit Types (b bs pre mid post : list A) (off n : Z).

Lemma rd_app pre mid post off n :
  off = zlen pre → n = zlen mid → rd (pre ++ mid ++ post) off n = Some mid.
Proof.
  intros -> ->. unfold rd. rewrite !length_app.
  destruct (_ && _) eqn:E; [|lia].
  rewrite !Nat2Z.id, drop_app_length, take_app_length. done.
Qed.

Lemma rd_prefix mid post n : n = zlen mid → rd (mid ++ post) 0 n = Some mid.
Proof. intros. by apply (rd_app [] mid post). Qed.

Lemma wr_app pre mid post off bs :
  off = zlen pre → length bs = length mid →
  wr (pre ++ mid ++ post) off bs = Some (pre ++ bs ++ post).
Proof.
  intros -> Hl. unfold wr. rewrite !length_app.
  destruct (_ && _) eqn:E; [|lia].
  rewrite Nat2Z.id, take_app_length, Hl, <-drop_drop, drop_app_length, drop_app_length. done.
Qed.

Lemma rd_Some b off n bs :
  rd b off n = Some bs →
  0 ≤ off ∧ 0 ≤ n ∧ off + n ≤ zlen b ∧ zlen bs = n ∧
  ∃ pre post, b = pre ++ bs ++ post ∧ zlen pre = off.
Proof.
  unfold rd. destruct (_ && _) eqn:E; [|done]. intros [= <-].
  rewrite length_take, length_drop.
  split; [lia|]. split; [lia|]. split; [lia|]. split; [lia|].
  exists (take (Z.to_nat off) b), (drop (Z.to_nat n) (drop (Z.to_nat off) b)).
  rewrite take_drop, take_drop, length_take. split; [done|lia].
Qed.

Lemma rd_total b off n :
  0 ≤ off → 0 ≤ n → off + n ≤ zlen b → ∃ bs, rd b off n = Some bs.
Proof. intros. unfold rd. destruct (_ && _) eqn:E; [by eexists|lia]. Qed.

Lemma rd1_lookup b off : 0 ≤ off → rd1 b off = b !! Z.to_nat off.
Proof. intros. unfold rd1. destruct (0 <=? off) eqn:E; [done|lia]. Qed.

Lemma rd1_app pre x post off : off = zlen pre → rd1 (pre ++ x :: post) off = Some x.
Proof. intros ->. rewrite rd1_lookup by lia. rewrite Nat2Z.id. apply list_lookup_middle. done. Qed.

Lemma wr1_app pre x y post off : off = zlen pre → wr1 (pre ++ x :: post) off y = Some (pre ++ y :: post).
Proof. intros. unfold wr1. by apply (wr_app pre [x] post). Qed.

Lemma wr1_insert b off x :
  0 ≤ off < zlen b → wr1 b off x = Some (<[Z.to_nat off := x]> b).
Proof.
  intros. unfold wr1, wr. simpl. destruct (_ && _) eqn:E; [|lia]. f_equal.
  rewrite insert_take_drop by lia. simpl. do 3 f_equal. lia.
Qed.

Lemma length_wr b off bs b' : wr b off bs = Some b' → length b' = length b.
Proof.
  unfold wr. destruct (_ && _) eqn:E; [|done]. intros [= <-].
  rewrite !length_app, length_take, length_drop. lia.
Qed.

Lemma wr_total b off bs : 0 ≤ off → off + zlen bs ≤ zlen b → ∃ b', wr b off bs = Some b'.
Proof. intros. unfold wr. destruct (_ && _) eqn:E; [by eexists|lia]. Qed.

Lemma memmove_app pre mid post l1 l2 dst src n :
  (* source block [mid], destination a block of the same size *)
  (∃ p q, pre ++ mid ++ post = p ++ l1 ++ q ∧ zlen p = dst ∧ l2 = p ++ mid ++ q) →
  length l1 = length mid → src = zlen pre → n = zlen mid →
  memmove (pre ++ mid ++ post) dst src n = Some l2.
Proof.
  intros (p & q & Heq & Hp & ->) Hl Hsrc Hn. unfold memmove.
  rewrite (rd_app _ _ _ _ _ Hsrc Hn). simpl. rewrite Heq. by apply wr_app.
Qed.
End buffers.

Lemma length_zrealloc `{Allocator} b n : 0 ≤ n → zlen (zrealloc b n) = n.
Proof. intros. unfold zrealloc. rewrite length_app, length_take, length_fresh. lia. Qed.

Lemma zrealloc_grow `{Allocator} b n :
  zlen b ≤ n → zrealloc b n = b ++ fresh (Z.to_nat n - length b).
Proof. intros. unfold zrealloc. rewrite take_ge by lia. done. Qed.

Lemma zrealloc_shrink `{Allocator} b n : n ≤ zlen b → zrealloc b n = take (Z.to_nat n) b.
Proof.
  intros. unfold zrealloc.
  replace (Z.to_nat n - length b)%nat with 0%nat by lia.
  assert (fresh 0 = []) as -> by (apply nil_length_inv, length_fresh). by rewrite app_nil_r.
Qed.

(** ** Arrays of [n]-byte integers *)

Definition pack (n : nat) (l : list Z) : bytes := mjoin (le_enc n <$> l).

Section pack.
Context (n : nat).

Lemma pack_cons x l : pack n (x :: l) = le_enc n x ++ pack n l.
Proof. done. Qed.

Lemma pack_app l1 l2 : pack n (l1 ++ l2) = pack n l1 ++ pack n l2.
Proof. unfold pack. by rewrite fmap_app, join_app. Qed.

Lemma length_pack l : length (pack n l) = (length l * n)%nat.
Proof.
  induction l as [|x l IH]; [done|]. rewrite pack_cons, length_app, length_le_enc, IH. simpl. lia.
Qed.

Lemma pack_middle l1 x l2 : pack n (l1 ++ x :: l2) = pack n l1 ++ le_enc n x ++ pack n l2.
Proof. by rewrite pack_app, pack_cons. Qed.

Lemma pack_bytes l : is_bytes (pack n l).
Proof.
  induction l as [|x l IH]; [constructor|]. rewrite pack_cons. apply Forall_app.
  split; [apply le_enc_bytes|done].
Qed.
End pack.

(** ** Strictly increasing lists *)

Lemma sorted_lookup_lt (l : list Z) (i j : nat) x y :
  StronglySorted Z.lt l → l !! i = Some x → l !! j = Some y → (i < j)%nat → x < y.
Proof.
  intros Hs. revert i j. induction Hs as [|a l Hs IH Hall]; intros i j Hi Hj Hlt; [done|].
  destruct j as [|j]; [lia|]. destruct i as [|i]; simpl in *.
  - injection Hi as <-. by eapply Forall_lookup_1.
  - apply (IH i j); auto. lia.
Qed.

Lemma sorted_lookup_lt_inv (l : list Z) (i j : nat) x y :
  StronglySorted Z.lt l → l !! i = Some x → l !! j = Some y → x < y → (i < j)%nat.
Proof.
  intros Hs Hi Hj Hxy. destruct (decide (i < j)%nat) as [|Hn]; [done|].
  destruct (decide (i = j)) as [->|]; [by simplify_eq; lia|].
  assert (y < x) by (apply (sorted_lookup_lt l j i); auto; lia). lia.
Qed.

(** Splitting a sorted list at the place of [v]. *)
Lemma sorted_split (l : list Z) (v : Z) (i : nat) :
  (i ≤ length l)%nat →
  (∀ j x, l !! j = Some x → (j < i)%nat → x < v) →
  (∀ j x, l !! j = Some x → (i ≤ j)%nat → v < x) →
  ∃ l1 l2, l = l1 ++ l2 ∧ length l1 = i ∧ Forall (λ x, x < v) l1 ∧ Forall (λ x, v < x) l2.
Proof.
  intros Hi H1 H2. exists (take i l), (drop i l).
  rewrite take_drop, length_take. split; [done|]. split; [lia|]. split.
  - apply Forall_lookup. intros j x [Hj ?]%lookup_take_Some. eauto.
  - apply Forall_lookup. intros j x Hj. rewrite lookup_drop in Hj. apply (H2 (i + j)%nat); [done|lia].
Qed.

Lemma StronglySorted_insert (l1 l2 : list Z) v :
  StronglySorted Z.lt (l1 ++ l2) → Forall (λ x, x < v) l1 → Forall (λ x, v < x) l2 →
  StronglySorted Z.lt (l1 ++ v :: l2).
Proof.
  intros Hs H1 H2. induction H1 as [|x l1 Hx H1 IH]; simpl in *.
  - by constructor.
  - apply StronglySorted_inv in Hs as [Hs Hall]. constructor; [auto|].
    apply Forall_app in Hall as [? ?]. apply Forall_app. split; [done|].
    constructor; [done|]. eapply Forall_impl; [exact H2|]. simpl. lia.
Qed.

Lemma StronglySorted_remove (l1 l2 : list Z) v :
  StronglySorted Z.lt (l1 ++ v :: l2) → StronglySorted Z.lt (l1 ++ l2).
Proof.
  induction l1 as [|x l1 IH]; simpl; intros [Hs Hall]%StronglySorted_inv; [done|].
  constructor; [auto|]. apply Forall_app in Hall as [? Hall].
  apply Forall_cons in Hall as [_ ?]. by apply Forall_app.
Qed.

Lemma StronglySorted_lt_NoDup (l : list Z) : StronglySorted Z.lt l → NoDup l.
Proof.
  induction 1 as [|x l Hs IH Hall]; constructor; [|done].
  intros Hin. rewrite Forall_forall in Hall. pose proof (Hall x Hin). lia.
Qed.

(** ** Bits *)

Lemma wrap_testbit w z i :
  0 ≤ w → 0 ≤ i → Z.testbit (wrap w z) i = (i <? w) && Z.testbit z i.
Proof.
  intros Hw Hi. unfold wrap. destruct (i <? w) eqn:E.
  - rewrite Z.mod_pow2_bits_low by lia. done.
  - rewrite Z.mod_pow2_bits_high by lia. done.
Qed.

Lemma in_u_wrap w z : 0 ≤ w → in_u w z ↔ wrap w z = z.
Proof. intros. split; [by apply wrap_small|]. intros <-. by apply wrap_range. Qed.

(** Equality of integers bit by bit. *)
Ltac bitwise :=
  apply Z.bits_inj'; intros ?i ?;
  repeat (rewrite ?Z.lxor_spec, ?Z.land_spec, ?Z.lor_spec; try
    first [rewrite Z.shiftr_spec by lia | rewrite Z.shiftl_spec by lia
          | rewrite wrap_testbit by lia]).

Lemma in_u_testbit w z i : 0 ≤ w → in_u w z → w ≤ i → Z.testbit z i = false.
Proof.
  intros ? Hz%in_u_wrap ?; [|done]. rewrite <-Hz, wrap_testbit by lia.
  destruct (i <? w) eqn:?; [lia|done].
Qed.

Lemma wrap_lxor w x y : 0 ≤ w → wrap w (Z.lxor x y) = Z.lxor (wrap w x) (wrap w y).
Proof. intros. bitwise. destruct (i <? w); [done|]. by destruct (Z.testbit x i), (Z.testbit y i). Qed.

Lemma lxor_in_u w x y : 0 ≤ w → in_u w x → in_u w y → in_u w (Z.lxor x y).
Proof. intros Hw. rewrite !in_u_wrap, wrap_lxor by done. congruence. Qed.

Lemma lor_in_u w x y : 0 ≤ w → in_u w x → in_u w y → in_u w (Z.lor x y).
Proof.
  intros Hw. rewrite !in_u_wrap by done. intros Hx Hy. rewrite <-Hx, <-Hy. bitwise.
  by destruct (i <? w).
Qed.

Lemma land_in_u w x y : 0 ≤ w → in_u w x → in_u w (Z.land x y).
Proof.
  intros Hw. rewrite !in_u_wrap by done. intros Hx. rewrite <-Hx. bitwise. by destruct (i <? w).
Qed.

Lemma shiftr_in_u w k x : 0 ≤ k ≤ w → in_u w x → in_u (w - k) (Z.shiftr x k).
Proof.
  intros Hk Hx. rewrite in_u_wrap by lia. bitwise. destruct (i <? w - k) eqn:?; [done|].
  symmetry. apply (in_u_testbit w); [lia|done|lia].
Qed.

(** ** Random numbers *)

(** [rnd] holds the values [random()] is going to return. *)
Definition random (rnd : list Z) : option (Z * list Z) :=
  match rnd with r :: rnd => Some (r, rnd) | [] => None end.

(** ** Heaps of linked cells *)

(** A pointer is a key of the heap; [NULL] is [None] where a pointer may be null. *)
Abbreviation loc := positive.

(** A fresh address for an entry, given the ones in use. *)
Class EntryAllocator := {
  new_entry : gset loc → loc;
  new_entry_fresh X : new_entry X ∉ X;
}.

(** A concrete one, for evaluating the definitions. *)
Program Definition next_entry_allocator : EntryAllocator := {| new_entry X := base.fresh X |}.
Next Obligation. intros. apply is_fresh. Qed.

(** A property of the numbers below a bound, by evaluation. *)
Lemma check_range (P : Z → bool) (n : Z) :
  forallb P (seqZ 0 n) = true → ∀ x, 0 ≤ x < n → P x = true.
Proof. intros H x Hx. rewrite forallb_forall in H. apply H, list_elem_of_In, elem_of_seqZ. lia. Qed.

Lemma land_255 z : Z.land z 255 = z mod 256.
Proof. change 255 with (Z.ones 8). by rewrite Z.land_ones. Qed.

Lemma lor_add a b k : 0 ≤ k → 0 ≤ b < 2 ^ k → Z.lor (a * 2 ^ k) b = a * 2 ^ k + b.
Proof.
  intros Hk Hb. rewrite <-Z.add_nocarry_lor; [done|]. bitwise. rewrite Z.bits_0. destruct (decide (i < k)).
  - by rewrite Z.mul_pow2_bits_low by lia.
  - rewrite (in_u_testbit k b i) by (done || lia). apply andb_false_r.
Qed.
