(* ===== verification/Endian.v ===== *)
(** * Byte order conversion: [endianconv.c], [endianconv.h]

    The byte order of the host is an instance of [Host]; everything Redis keeps
    in a serialized form goes through the [...ifbe] macros, and the theorems
    below say that the bytes in memory are then the same on every host. *)

From S2P Require Import Prelude.

Class Host := { big_endian : bool }.

(** How the host stores an [n]-byte integer, and reads it back. *)
Definition host_enc `{Host} (n : nat) (v : Z) : bytes :=
  if big_endian then reverse (le_enc n v) else le_enc n v.
Definition host_dec `{Host} (bs : bytes) : Z :=
  if big_endian then le_dec (reverse bs) else le_dec bs.

(** [t = x[i]; x[i] = x[j]; x[j] = t], at address [p]. *)
Definition swap_bytes (b : bytes) (p i j : Z) : option bytes :=
  t ← rd1 b (p + i);
  u ← rd1 b (p + j);
  b ← wr1 b (p + i) u;
  wr1 b (p + j) t.

Definition memrev16 (b : bytes) (p : Z) : option bytes := swap_bytes b p 0 1.

Definition memrev32 (b : bytes) (p : Z) : option bytes :=
  b ← swap_bytes b p 0 3;
  swap_bytes b p 1 2.

Definition memrev64 (b : bytes) (p : Z) : option bytes :=
  b ← swap_bytes b p 0 7;
  b ← swap_bytes b p 1 6;
  b ← swap_bytes b p 2 5;
  swap_bytes b p 3 4.

Definition intrev16 `{Host} (v : Z) : option Z := host_dec <$> memrev16 (host_enc 2 v) 0.
Definition intrev32 `{Host} (v : Z) : option Z := host_dec <$> memrev32 (host_enc 4 v) 0.
Definition intrev64 `{Host} (v : Z) : option Z := host_dec <$> memrev64 (host_enc 8 v) 0.

Definition memrev16ifbe `{Host} (b : bytes) (p : Z) : option bytes :=
  if big_endian then memrev16 b p else Some b.
Definition memrev32ifbe `{Host} (b : bytes) (p : Z) : option bytes :=
  if big_endian then memrev32 b p else Some b.
Definition memrev64ifbe `{Host} (b : bytes) (p : Z) : option bytes :=
  if big_endian then memrev64 b p else Some b.

Definition intrev16ifbe `{Host} (v : Z) : option Z := if big_endian then intrev16 v else Some v.
Definition intrev32ifbe `{Host} (v : Z) : option Z := if big_endian then intrev32 v else Some v.
Definition intrev64ifbe `{Host} (v : Z) : option Z := if big_endian then intrev64 v else Some v.

Definition htonu64 `{Host} (v : Z) : option Z := if big_endian then Some v else intrev64 v.
Definition ntohu64 `{Host} (v : Z) : option Z := if big_endian then Some v else intrev64 v.

(** ** The window at [p] is reversed, the rest of the block is untouched *)

Lemma swap_bytes_app pre x mid y post p i j :
  p + i = zlen pre → p + j = zlen pre + 1 + zlen mid →
  swap_bytes (pre ++ x :: mid ++ y :: post) p i j = Some (pre ++ y :: mid ++ x :: post).
Proof.
  intros Hi Hj. unfold swap_bytes.
  assert (Hy : ∀ z, pre ++ z :: mid ++ y :: post = (pre ++ z :: mid) ++ y :: post)
    by (intros; by rewrite <-app_assoc).
  rewrite (rd1_app pre x _ (p + i)) by done. cbn [mbind option_bind].
  rewrite Hy, (rd1_app (pre ++ x :: mid) _ _ (p + j)) by (rewrite length_app; cbn [length]; lia).
  cbn [mbind option_bind]. rewrite <-Hy, (wr1_app pre x y _ (p + i)) by done. cbn [mbind option_bind].
  rewrite Hy, (wr1_app (pre ++ y :: mid)) by (rewrite length_app; cbn [length]; lia).
  by rewrite <-app_assoc.
Qed.

Ltac swap_step pre x mid y post :=
  match goal with
  | |- context [swap_bytes ?b ?p ?i ?j] =>
    replace b with (pre ++ x :: mid ++ y :: post) by (cbn; rewrite <-?app_assoc; done);
    rewrite (swap_bytes_app pre x mid y post p i j)
      by (rewrite ?length_app; cbn [length app]; lia); cbn [mbind option_bind]
  end.

Lemma memrev16_app pre x0 x1 post :
  memrev16 (pre ++ [x0; x1] ++ post) (zlen pre) = Some (pre ++ [x1; x0] ++ post).
Proof. unfold memrev16. swap_step pre x0 (@nil Z) x1 post. done. Qed.

Lemma memrev32_app pre x0 x1 x2 x3 post :
  memrev32 (pre ++ [x0; x1; x2; x3] ++ post) (zlen pre)
  = Some (pre ++ [x3; x2; x1; x0] ++ post).
Proof.
  unfold memrev32. swap_step pre x0 [x1; x2] x3 post.
  swap_step (pre ++ [x3]) x1 (@nil Z) x2 (x0 :: post). by rewrite <-app_assoc.
Qed.

Lemma memrev64_app pre x0 x1 x2 x3 x4 x5 x6 x7 post :
  memrev64 (pre ++ [x0; x1; x2; x3; x4; x5; x6; x7] ++ post) (zlen pre)
  = Some (pre ++ [x7; x6; x5; x4; x3; x2; x1; x0] ++ post).
Proof.
  unfold memrev64. swap_step pre x0 [x1; x2; x3; x4; x5; x6] x7 post.
  swap_step (pre ++ [x7]) x1 [x2; x3; x4; x5] x6 (x0 :: post).
  swap_step (pre ++ [x7; x6]) x2 [x3; x4] x5 (x1 :: x0 :: post).
  swap_step (pre ++ [x7; x6; x5]) x3 (@nil Z) x4 (x2 :: x1 :: x0 :: post).
  by rewrite <-app_assoc.
Qed.

(** The reversal by width, for the clients. *)
Definition memrev (n : nat) : bytes → Z → option bytes :=
  match n with 2%nat => memrev16 | 4%nat => memrev32 | _ => memrev64 end.
Definition memrev_ifbe `{Host} (n : nat) : bytes → Z → option bytes :=
  match n with 2%nat => memrev16ifbe | 4%nat => memrev32ifbe | _ => memrev64ifbe end.

Definition int_width (n : nat) : Prop := n = 2%nat ∨ n = 4%nat ∨ n = 8%nat.

Lemma memrev_reverse n pre mid post :
  int_width n → length mid = n →
  memrev n (pre ++ mid ++ post) (zlen pre) = Some (pre ++ reverse mid ++ post).
Proof.
  intros [->|[->| ->]] Hl; cbn [memrev].
  - destruct mid as [|x0 [|x1 [|]]]; try discriminate. apply memrev16_app.
  - destruct mid as [|x0 [|x1 [|x2 [|x3 [|]]]]]; try discriminate. apply memrev32_app.
  - destruct mid as [|x0 [|x1 [|x2 [|x3 [|x4 [|x5 [|x6 [|x7 [|]]]]]]]]]; try discriminate.
    apply memrev64_app.
Qed.

Lemma memrev_ifbe_spec `{Host} n pre mid post :
  int_width n → length mid = n →
  memrev_ifbe n (pre ++ mid ++ post) (zlen pre)
  = Some (pre ++ (if big_endian then reverse mid else mid) ++ post).
Proof.
  intros Hn Hl. pose proof (memrev_reverse n pre mid post Hn Hl) as Hrev.
  destruct Hn as [->|[->| ->]]; cbn in *;
    unfold memrev16ifbe, memrev32ifbe, memrev64ifbe; by destruct big_endian.
Qed.

(** Storing in host order and reversing on big-endian hosts gives the
    little-endian bytes; reversing them back and loading gives the value. *)
Lemma store_le `{Host} n pre post v :
  int_width n →
  memrev_ifbe n (pre ++ host_enc n v ++ post) (zlen pre) = Some (pre ++ le_enc n v ++ post).
Proof.
  intros Hn. rewrite memrev_ifbe_spec; [|done|].
  - unfold host_enc. destruct big_endian; [|done]. by rewrite reverse_involutive.
  - unfold host_enc. destruct big_endian; by rewrite ?length_reverse, length_le_enc.
Qed.

Lemma load_le `{Host} n v :
  int_width n →
  host_dec <$> memrev_ifbe n (le_enc n v) 0 = Some (wrap (8 * Z.of_nat n) v).
Proof.
  intros Hn. rewrite <-(app_nil_r (le_enc n v)), <-(app_nil_l (le_enc n v ++ [])).
  change 0 with (zlen (@nil Z)).
  rewrite memrev_ifbe_spec by (done || apply length_le_enc). simpl. f_equal.
  rewrite app_nil_r. unfold host_dec.
  destruct big_endian; rewrite ?reverse_involutive; apply wrap_le_dec_enc.
Qed.

Lemma rev_endian_ifbe_rd `{Host} n pre v post :
  int_width n →
  (bs ← rd (pre ++ le_enc n v ++ post) (zlen pre) (Z.of_nat n);
   host_dec <$> memrev_ifbe n bs 0) = Some (wrap (8 * Z.of_nat n) v).
Proof.
  intros Hn. rewrite (rd_app pre (le_enc n v)) by (rewrite ?length_le_enc; done).
  by apply load_le.
Qed.

(** ** Whole integers *)

Lemma host_dec_enc `{Host} n v : host_dec (host_enc n v) = wrap (8 * Z.of_nat n) v.
Proof.
  unfold host_dec, host_enc.
  destruct big_endian; rewrite ?reverse_involutive; apply wrap_le_dec_enc.
Qed.

Definition intrev `{Host} (n : nat) : Z → option Z :=
  match n with 2%nat => intrev16 | 4%nat => intrev32 | _ => intrev64 end.
Definition intrev_ifbe `{Host} (n : nat) : Z → option Z :=
  match n with 2%nat => intrev16ifbe | 4%nat => intrev32ifbe | _ => intrev64ifbe end.

Lemma intrev_spec `{Host} n v :
  int_width n → intrev n v = Some (le_dec (reverse (le_enc n v))).
Proof.
  intros Hn.
  assert (host_dec <$> memrev n (host_enc n v) 0 = Some (le_dec (reverse (le_enc n v)))) as Hr.
  { rewrite <-(app_nil_r (host_enc n v)). change 0 with (zlen (@nil Z)).
    rewrite <-(app_nil_l (host_enc n v ++ [])), memrev_reverse; [|done|].
    - simpl. rewrite app_nil_r. unfold host_dec, host_enc.
      destruct big_endian; by rewrite ?reverse_involutive.
    - unfold host_enc. destruct big_endian; by rewrite ?length_reverse, length_le_enc. }
  by destruct Hn as [->|[->| ->]].
Qed.

Lemma rev_le_dec_range n v : in_u (8 * Z.of_nat n) (le_dec (reverse (le_enc n v))).
Proof.
  unfold in_u. rewrite <-pow256_pow2.
  assert (length (reverse (le_enc n v)) = n) as Hl by (by rewrite length_reverse, length_le_enc).
  rewrite <-Hl at 3. apply le_dec_range, Forall_reverse, le_enc_bytes.
Qed.

Lemma rev_le_dec_involutive n v :
  in_u (8 * Z.of_nat n) v → le_dec (reverse (le_enc n (le_dec (reverse (le_enc n v))))) = v.
Proof.
  intros Hv. set (bs := reverse (le_enc n v)).
  assert (length bs = n) as Hl by (unfold bs; by rewrite length_reverse, length_le_enc).
  rewrite <-Hl at 1. rewrite le_enc_dec by apply Forall_reverse, le_enc_bytes.
  unfold bs. rewrite reverse_involutive, wrap_le_dec_enc. by apply wrap_small.
Qed.

Lemma intrev_ifbe_Some `{Host} n v :
  int_width n → in_u (8 * Z.of_nat n) v →
  ∃ v', intrev_ifbe n v = Some v' ∧ in_u (8 * Z.of_nat n) v' ∧ intrev_ifbe n v' = Some v.
Proof.
  intros Hn Hv. destruct (big_endian) eqn:Hbe.
  - assert (∀ x, intrev_ifbe n x = intrev n x) as Heq.
    { intros x. destruct Hn as [->|[->| ->]]; cbn;
        unfold intrev16ifbe, intrev32ifbe, intrev64ifbe; by rewrite Hbe. }
    rewrite Heq, intrev_spec by done. eexists. split; [done|].
    split; [apply rev_le_dec_range|].
    rewrite Heq, intrev_spec by done. f_equal. by apply rev_le_dec_involutive.
  - exists v. destruct Hn as [->|[->| ->]]; cbn;
      unfold intrev16ifbe, intrev32ifbe, intrev64ifbe; by rewrite Hbe.
Qed.

(** The two kinds of host, for evaluating the definitions. *)
Definition le_host : Host := {| big_endian := false |}.
Definition be_host : Host := {| big_endian := true |}.

(** ** Properties *)

(** an integer stored on one host and converted with the [ifbe] macros has the
    same little-endian bytes in memory as on any other host, and every host reads
    the value back from them. *)
Theorem stored_bytes_host_independent (h1 h2 : Host) n pre old post v :
  int_width n → length old = n → in_u (8 * Z.of_nat n) v →
  (b ← wr (pre ++ old ++ post) (zlen pre) (@host_enc h1 n v);
   @memrev_ifbe h1 n b (zlen pre)) = Some (pre ++ le_enc n v ++ post) ∧
  (bs ← rd (pre ++ le_enc n v ++ post) (zlen pre) (Z.of_nat n);
   @host_dec h2 <$> @memrev_ifbe h2 n bs 0) = Some v.
Proof.
  intros Hn Hl Hv. split.
  - rewrite wr_app; [mrun; by apply store_le|done|].
    unfold host_enc. destruct big_endian; by rewrite ?length_reverse, length_le_enc.
  - rewrite rev_endian_ifbe_rd by done. by rewrite wrap_small.
Qed.

Lemma stored_bytes_host_independent_witness :
  (b ← wr [9; 0; 0; 0; 0; 7] 1 (@host_enc be_host 4 305419896); @memrev_ifbe be_host 4 b 1)
  = Some [9; 120; 86; 52; 18; 7].
Proof.
  exact (proj1 (stored_bytes_host_independent be_host le_host 4 [9] [0; 0; 0; 0] [7] 305419896
    (or_intror (or_introl eq_refl)) eq_refl ltac:(unfold in_u; lia))).
Defined.

(** [intrev16/32/64] reverse the bytes of the value on every host and are
    involutions on the unsigned range; [htonu64] then [ntohu64] is the identity and
    the bytes [htonu64] leaves in memory are in network (big-endian) order. *)
Theorem intrev_involution `{Host} n v :
  int_width n → in_u (8 * Z.of_nat n) v →
  (∃ r, intrev n v = Some r ∧ le_enc n r = reverse (le_enc n v) ∧ intrev n r = Some v) ∧
  (n = 8%nat → ∃ r, htonu64 v = Some r ∧ host_enc 8 r = reverse (le_enc 8 v) ∧ ntohu64 r = Some v).
Proof.
  intros Hn Hv.
  assert (le_enc n (le_dec (reverse (le_enc n v))) = reverse (le_enc n v)) as Henc.
  { assert (length (reverse (le_enc n v)) = n) as Hl by (by rewrite length_reverse, length_le_enc).
    rewrite <-Hl at 1. apply le_enc_dec, Forall_reverse, le_enc_bytes. }
  split.
  - rewrite intrev_spec by done. eexists. split; [done|]. split; [done|].
    rewrite intrev_spec by done. f_equal. by apply rev_le_dec_involutive.
  - intros ->. unfold htonu64, ntohu64, host_enc. destruct big_endian.
    + by exists v.
    + change intrev64 with (intrev 8). rewrite intrev_spec by done. eexists. split; [done|].
      split; [done|]. rewrite intrev_spec by done. f_equal. by apply rev_le_dec_involutive.
Qed.

Lemma intrev_involution_witness :
  ∃ r, @intrev le_host 2 258 = Some r ∧ le_enc 2 r = reverse (le_enc 2 258) ∧
    @intrev le_host 2 r = Some 258.
Proof.
  exact (proj1 (@intrev_involution le_host 2 258 (or_introl eq_refl) ltac:(unfold in_u; lia))).
Defined.
