(* ===== verification/Intset.v ===== *)
(** * Sorted integer sets: [intset.c], [intset.h] *)

From S2P Require Import Prelude Endian.

#[local] Open Scope Z_scope.

(** ** Constants of the encodings and of the C types *)
Definition INTSET_ENC_INT16 : Z := 2.
Definition INTSET_ENC_INT32 : Z := 4.
Definition INTSET_ENC_INT64 : Z := 8.
Definition INT16_MIN : Z := - 2 ^ 15.
Definition INT16_MAX : Z := 2 ^ 15 - 1.
Definition INT32_MIN : Z := - 2 ^ 31.
Definition INT32_MAX : Z := 2 ^ 31 - 1.

(** [sizeof(intset)]: the two [uint32_t] fields. *)
Definition sizeof_intset : Z := 8.

(** [encoding] and [length] hold what the C fields hold, which is the
    byte-reversed value on a big-endian host. *)
Record intset := mk_intset {
  is_encoding : Z;
  is_length : Z;
  is_contents : bytes;
}.

Definition _intsetValueEncoding (v : Z) : Z :=
  if (v <? INT32_MIN) || (INT32_MAX <? v) then INTSET_ENC_INT64
  else if (v <? INT16_MIN) || (INT16_MAX <? v) then INTSET_ENC_INT32
  else INTSET_ENC_INT16.

Section code.
Context `{Host} `{Allocator}.

Definition _intsetGetEncoded (iset : intset) (pos enc : Z) : option Z :=
  if enc =? INTSET_ENC_INT64 then
    v64 ← rd (is_contents iset) (pos * 8) 8;
    v64 ← memrev64ifbe v64 0;
    Some (s64 (host_dec v64))
  else if enc =? INTSET_ENC_INT32 then
    v32 ← rd (is_contents iset) (pos * 4) 4;
    v32 ← memrev32ifbe v32 0;
    Some (s32 (host_dec v32))
  else
    v16 ← rd (is_contents iset) (pos * 2) 2;
    v16 ← memrev16ifbe v16 0;
    Some (s16 (host_dec v16)).

Definition _intsetGet (iset : intset) (pos : Z) : option Z :=
  enc ← intrev32ifbe (is_encoding iset);
  _intsetGetEncoded iset (s32 pos) (u8 enc).

Definition _intsetSet (iset : intset) (pos value : Z) : option intset :=
  let pos := s32 pos in
  encoding ← intrev32ifbe (is_encoding iset);
  c ← (if encoding =? INTSET_ENC_INT64 then
         c ← wr (is_contents iset) (pos * 8) (host_enc 8 value);
         memrev64ifbe c (pos * 8)
       else if encoding =? INTSET_ENC_INT32 then
         c ← wr (is_contents iset) (pos * 4) (host_enc 4 (s32 value));
         memrev32ifbe c (pos * 4)
       else
         c ← wr (is_contents iset) (pos * 2) (host_enc 2 (s16 value));
         memrev16ifbe c (pos * 2));
  Some (mk_intset (is_encoding iset) (is_length iset) c).

Definition intsetNew : option intset :=
  enc ← intrev32ifbe INTSET_ENC_INT16;
  Some (mk_intset enc 0 []).

(** [size = len*encoding] is computed in [uint32_t]. *)
Definition intsetResize (iset : intset) (len : Z) : option intset :=
  enc ← intrev32ifbe (is_encoding iset);
  let size := u32 (len * enc) in
  Some (mk_intset (is_encoding iset) (is_length iset) (zrealloc (is_contents iset) size)).

(** The state of the binary search: [min], [max], [mid], [cur]. *)
Definition search_body (iset : intset) (value : Z) (st : Z * Z * Z * Z)
  : option ((Z * Z * Z * Z) + (Z * Z * Z)) :=
  let '(min, max, mid, cur) := st in
  if min <=? max then
    let mid := Z.shiftr (u32 (u32 min + u32 max)) 1 in
    cur ← _intsetGet iset mid;
    if cur <? value then Some (inl (mid + 1, max, mid, cur))
    else if value <? cur then Some (inl (min, mid - 1, mid, cur))
    else Some (inr (min, mid, cur))
  else Some (inr (min, mid, cur)).

(** Returns the answer and the value stored through [pos]. *)
Definition intsetSearch (iset : intset) (value : Z) : option (bool * Z) :=
  len ← intrev32ifbe (is_length iset);
  if len =? 0 then Some (false, 0)
  else
    last ← _intsetGet iset (u32 (len - 1));
    if last <? value then Some (false, len)
    else
      first ← _intsetGet iset 0;
      if value <? first then Some (false, 0)
      else
        r ← loop (S (Z.to_nat len)) (search_body iset value) (0, s32 (u32 (len - 1)), -1, -1);
        let '(min, mid, cur) := r in
        Some (if value =? cur then (true, u32 mid) else (false, u32 min)).

(** [while(length--) _intsetSet(is,length+prepend,_intsetGetEncoded(is,length,curenc))] *)
Fixpoint upgrade_loop (length : nat) (iset : intset) (prepend curenc : Z) : option intset :=
  match length with
  | O => Some iset
  | S length =>
    v ← _intsetGetEncoded iset (Z.of_nat length) curenc;
    iset ← _intsetSet iset (Z.of_nat length + prepend) v;
    upgrade_loop length iset prepend curenc
  end.

Definition intsetUpgradeAndAdd (iset : intset) (value : Z) : option intset :=
  curenc ← u8 <$> intrev32ifbe (is_encoding iset);
  let newenc := _intsetValueEncoding value in
  length ← s32 <$> intrev32ifbe (is_length iset);
  let prepend := if value <? 0 then 1 else 0 in
  enc ← intrev32ifbe newenc;
  let iset := mk_intset enc (is_length iset) (is_contents iset) in
  len ← intrev32ifbe (is_length iset);
  iset ← intsetResize iset (u32 (len + 1));
  check (0 <=? length);;
  iset ← upgrade_loop (Z.to_nat length) iset prepend curenc;
  iset ← (if prepend =? 1 then _intsetSet iset 0 value
        else len ← intrev32ifbe (is_length iset); _intsetSet iset len value);
  len ← intrev32ifbe (is_length iset);
  len' ← intrev32ifbe (u32 (len + 1));
  Some (mk_intset (is_encoding iset) len' (is_contents iset)).

Definition intsetMoveTail (iset : intset) (from to : Z) : option intset :=
  len ← intrev32ifbe (is_length iset);
  let bytes := u32 (len - from) in
  encoding ← intrev32ifbe (is_encoding iset);
  c ← (if encoding =? INTSET_ENC_INT64 then
         memmove (is_contents iset) (to * 8) (from * 8) (u32 (bytes * 8))
       else if encoding =? INTSET_ENC_INT32 then
         memmove (is_contents iset) (to * 4) (from * 4) (u32 (bytes * 4))
       else
         memmove (is_contents iset) (to * 2) (from * 2) (u32 (bytes * 2)));
  Some (mk_intset (is_encoding iset) (is_length iset) c).

(** Returns the set and [*success]. *)
Definition intsetAdd (iset : intset) (value : Z) : option (intset * bool) :=
  let valenc := _intsetValueEncoding value in
  enc ← intrev32ifbe (is_encoding iset);
  if enc <? valenc then
    iset ← intsetUpgradeAndAdd iset value;
    Some (iset, true)
  else
    found ← intsetSearch iset value;
    let '(b, pos) := found in
    if (b : bool) then Some (iset, false)
    else
      len ← intrev32ifbe (is_length iset);
      iset ← intsetResize iset (u32 (len + 1));
      iset ← (if pos <? len then intsetMoveTail iset pos (u32 (pos + 1)) else Some iset);
      iset ← _intsetSet iset pos value;
      len ← intrev32ifbe (is_length iset);
      len' ← intrev32ifbe (u32 (len + 1));
      Some (mk_intset (is_encoding iset) len' (is_contents iset), true).

Definition intsetRemove (iset : intset) (value : Z) : option (intset * bool) :=
  let valenc := _intsetValueEncoding value in
  enc ← intrev32ifbe (is_encoding iset);
  if valenc <=? enc then
    found ← intsetSearch iset value;
    let '(b, pos) := found in
    if (b : bool) then
      len ← intrev32ifbe (is_length iset);
      iset ← (if pos <? u32 (len - 1) then intsetMoveTail iset (u32 (pos + 1)) pos else Some iset);
      iset ← intsetResize iset (u32 (len - 1));
      len' ← intrev32ifbe (u32 (len - 1));
      Some (mk_intset (is_encoding iset) len' (is_contents iset), true)
    else Some (iset, false)
  else Some (iset, false).

Definition intsetFind (iset : intset) (value : Z) : option bool :=
  let valenc := _intsetValueEncoding value in
  enc ← intrev32ifbe (is_encoding iset);
  if valenc <=? enc then fst <$> intsetSearch iset value else Some false.

(** [rnd] is the value [rand()] returns; the remainder by zero is undefined. *)
Definition intsetRandom (iset : intset) (rnd : Z) : option Z :=
  len ← intrev32ifbe (is_length iset);
  if len =? 0 then None else _intsetGet iset (u32 rnd mod len).

Definition intsetGet (iset : intset) (pos : Z) : option (option Z) :=
  len ← intrev32ifbe (is_length iset);
  if pos <? len then Some <$> _intsetGet iset pos else Some None.

Definition intsetLen (iset : intset) : option Z := intrev32ifbe (is_length iset).

(** The product of the two [uint32_t] wraps; [sizeof] is a [size_t]. *)
Definition intsetBlobLen (iset : intset) : option Z :=
  len ← intrev32ifbe (is_length iset);
  enc ← intrev32ifbe (is_encoding iset);
  Some (u64 (sizeof_intset + u32 (len * enc))).
End code.

(** ** Representation: the strictly increasing list of the members *)

Record rep `{Host} (n : nat) (iset : intset) (l : list Z) : Prop := {
  rep_width : int_width n;
  rep_encoding : intrev32ifbe (is_encoding iset) = Some (Z.of_nat n);
  rep_length : intrev32ifbe (is_length iset) = Some (zlen l);
  rep_contents : is_contents iset = pack n l;
  rep_fits : Forall (in_s (8 * Z.of_nat n)) l;
  rep_sorted : StronglySorted Z.lt l;
  rep_small : zlen l < 2 ^ 28;
}.

Section representation.
Context `{Host} `{Allocator}.
Implicit Types (l : list Z) (v : Z) (iset : intset).

Lemma host_enc_swrap n v :
  (0 < n)%nat → host_enc n (swrap (8 * Z.of_nat n) v) = host_enc n v.
Proof.
  intros. unfold host_enc.
  assert (le_enc n (swrap (8 * Z.of_nat n) v) = le_enc n v) as ->; [|done].
  rewrite <-le_enc_mod, <-(le_enc_mod n v), !pow256_pow2.
  f_equal. apply wrap_swrap. lia.
Qed.

Lemma getEncoded_width n iset pos :
  int_width n →
  _intsetGetEncoded iset pos (Z.of_nat n) =
    (bs ← rd (is_contents iset) (pos * Z.of_nat n) (Z.of_nat n);
     x ← memrev_ifbe n bs 0;
     Some (swrap (8 * Z.of_nat n) (host_dec x))).
Proof. by intros [->|[->| ->]]. Qed.

Lemma getEncoded_spec n iset pos pre v post :
  int_width n → is_contents iset = pre ++ le_enc n v ++ post →
  zlen pre = pos * Z.of_nat n → in_s (8 * Z.of_nat n) v →
  _intsetGetEncoded iset pos (Z.of_nat n) = Some v.
Proof.
  intros Hn Hc Hp Hv. rewrite getEncoded_width, Hc, <-Hp by done.
  pose proof (rev_endian_ifbe_rd n pre v post Hn) as Hl.
  destruct (rd _ _ _) as [bs|]; [|done]. simpl in *.
  destruct (memrev_ifbe n bs 0) as [x|]; [|done]. simpl in *.
  injection Hl as ->. f_equal. apply swrap_wrap_small; [|done].
  unfold int_width in Hn. lia.
Qed.

Lemma host_enc_length n v : length (host_enc n v) = n.
Proof. unfold host_enc. destruct big_endian; by rewrite ?length_reverse, length_le_enc. Qed.

Lemma set_width n iset pos v :
  int_width n → intrev32ifbe (is_encoding iset) = Some (Z.of_nat n) →
  _intsetSet iset pos v =
    (c ← (c ← wr (is_contents iset) (s32 pos * Z.of_nat n) (host_enc n v);
          memrev_ifbe n c (s32 pos * Z.of_nat n));
     Some (mk_intset (is_encoding iset) (is_length iset) c)).
Proof.
  intros Hn He. unfold _intsetSet. rewrite He.
  destruct Hn as [->|[->| ->]]; [| |done].
  - rewrite <-(host_enc_swrap 2 v) by lia. done.
  - rewrite <-(host_enc_swrap 4 v) by lia. done.
Qed.

Lemma set_spec n iset pos pre mid post v :
  int_width n → intrev32ifbe (is_encoding iset) = Some (Z.of_nat n) →
  is_contents iset = pre ++ mid ++ post →
  zlen pre = pos * Z.of_nat n → length mid = n → 0 ≤ pos < 2 ^ 31 →
  _intsetSet iset pos v =
    Some (mk_intset (is_encoding iset) (is_length iset) (pre ++ le_enc n v ++ post)).
Proof.
  intros Hn He Hc Hp Hm Hpos. rewrite (set_width n), Hc by done.
  rewrite swrap_small by rlia.
  rewrite wr_app by (rewrite ?host_enc_length; done). mrun.
  by rewrite <-Hp, store_le.
Qed.

Lemma get_spec n iset l pos v :
  rep n iset l → 0 ≤ pos → l !! Z.to_nat pos = Some v → _intsetGet iset pos = Some v.
Proof.
  intros R Hpos Hl. pose proof (lookup_lt_Some _ _ _ Hl) as Hlt.
  pose proof (rep_small _ _ _ R). pose proof (rep_width _ _ _ R) as Hn.
  unfold _intsetGet. rewrite (rep_encoding _ _ _ R). mrun.
  rewrite swrap_small by rlia.
  rewrite wrap_small by (unfold in_u, int_width in *; lia).
  apply (getEncoded_spec n _ _ (pack n (take (Z.to_nat pos) l)) v
           (pack n (drop (S (Z.to_nat pos)) l))); [done| | |].
  - rewrite (rep_contents _ _ _ R), <-pack_middle. by rewrite take_drop_middle.
  - rewrite length_pack, length_take. lia.
  - eapply (Forall_lookup_1 _ _ _ _ (rep_fits _ _ _ R)), Hl.
Qed.
(** *** Binary search *)

(** What [intsetSearch] promises about the position it reports. *)
Definition search_post l v (b : bool) (pos : Z) : Prop :=
  ∃ l1 l2, zlen l1 = pos ∧
    if b then l = l1 ++ v :: l2
    else l = l1 ++ l2 ∧ Forall (λ x, x < v) l1 ∧ Forall (λ x, v < x) l2.

Definition search_inv l v (st : Z * Z * Z * Z) : Prop :=
  let '(min, max, mid, cur) := st in
  0 ≤ min ∧ min ≤ max + 1 ∧ max < zlen l ∧ (cur ≠ v ∨ min ≤ max) ∧
  (∀ j x, l !! j = Some x → Z.of_nat j < min → x < v) ∧
  (∀ j x, l !! j = Some x → max < Z.of_nat j → v < x).

Definition search_result l v (r : Z * Z * Z) : Prop :=
  let '(min, mid, cur) := r in
  if v =? cur then 0 ≤ mid ∧ l !! Z.to_nat mid = Some v
  else 0 ≤ min ≤ zlen l ∧
    (∀ j x, l !! j = Some x → Z.of_nat j < min → x < v) ∧
    (∀ j x, l !! j = Some x → min ≤ Z.of_nat j → v < x).

Lemma search_step n iset l v st :
  rep n iset l → search_inv l v st →
  (∃ st', search_body iset v st = Some (inl st') ∧ search_inv l v st' ∧
     (Z.to_nat (st'.1.1.2 - st'.1.1.1 + 1) < Z.to_nat (st.1.1.2 - st.1.1.1 + 1))%nat) ∨
  (∃ r, search_body iset v st = Some (inr r) ∧ search_result l v r).
Proof.
  destruct st as [[[min max] mid] cur]. intros R (Hmin & Hmm & Hmax & Hcur & Hlo & Hhi).
  pose proof (rep_small _ _ _ R). unfold search_body. cbn [fst snd].
  destruct (min <=? max) eqn:E; cycle 1.
  { right. eexists. split; [done|]. unfold search_result.
    destruct (v =? cur) eqn:?; [lia|]. split; [lia|]. split; [done|].
    intros. eapply Hhi; [done|lia]. }
  rewrite (wrap_small _ min), (wrap_small _ max), wrap_small by rlia.
  rewrite Z.shiftr_div_pow2 by lia. change (2 ^ 1) with 2.
  set (m := (min + max) / 2). assert (min ≤ m ≤ max) by (unfold m; dlia).
  destruct (lookup_lt_is_Some_2 l (Z.to_nat m)) as [x Hx]; [lia|].
  rewrite (get_spec n iset l m x) by (done || lia). mrun.
  destruct (x <? v) eqn:?; [|destruct (v <? x) eqn:?].
  - left. eexists. split; [done|]. cbn. split; [|lia].
    split_and!; try lia; [|by auto]. intros j y Hj Hlt.
    destruct (decide (j = Z.to_nat m)) as [->|]; [by simplify_eq; lia|].
    assert (y < x) by (apply (sorted_lookup_lt l j (Z.to_nat m));
      [apply (rep_sorted _ _ _ R)|done|done|lia]). lia.
  - left. eexists. split; [done|]. cbn. split; [|lia].
    split_and!; try lia; [by auto|]. intros j y Hj Hlt.
    destruct (decide (j = Z.to_nat m)) as [->|]; [by simplify_eq; lia|].
    assert (x < y) by (apply (sorted_lookup_lt l (Z.to_nat m) j);
      [apply (rep_sorted _ _ _ R)|done|done|lia]). lia.
  - right. eexists. split; [done|]. unfold search_result. assert (x = v) as -> by lia.
    rewrite Z.eqb_refl. split; [lia|done].
Qed.

Lemma search_loop n iset l v :
  rep n iset l → l ≠ [] →
  ∃ r, loop (S (length l)) (search_body iset v) (0, zlen l - 1, -1, -1) = Some r ∧
       search_result l v r.
Proof.
  intros R Hne. assert (0 < length l)%nat by (destruct l; simpl; [done|lia]).
  apply (loop_total _ (search_inv l v) (λ st, Z.to_nat (st.1.1.2 - st.1.1.1 + 1))).
  - intros. by apply (search_step n).
  - cbn. split_and!; try lia.
    intros j x Hj%lookup_lt_Some. lia.
  - cbn. lia.
Qed.

Lemma intsetSearch_spec n iset l v :
  rep n iset l → ∃ b pos, intsetSearch iset v = Some (b, pos) ∧ search_post l v b pos.
Proof.
  intros R. pose proof (rep_small _ _ _ R) as Hsm. pose proof (rep_sorted _ _ _ R) as Hs.
  unfold intsetSearch. rewrite (rep_length _ _ _ R). mrun.
  destruct (zlen l =? 0) eqn:E0.
  { exists false, 0. split; [done|]. exists [], []. destruct l; [by auto|cbn in *; lia]. }
  destruct (lookup_lt_is_Some_2 l (length l - 1)) as [last Hlast]; [lia|].
  destruct (lookup_lt_is_Some_2 l 0) as [first Hfirst]; [lia|].
  rewrite wrap_small by rlia.
  rewrite (get_spec n iset l (zlen l - 1) last) by (done || lia ||
    (replace (Z.to_nat _) with (length l - 1)%nat by lia; done)). mrun.
  destruct (last <? v) eqn:E1.
  { exists false, (zlen l). split; [done|]. exists l, []. rewrite app_nil_r. split_and!; auto.
    apply Forall_lookup. intros j x Hj. pose proof (lookup_lt_Some _ _ _ Hj).
    destruct (decide (j = length l - 1)%nat) as [->|]; [simplify_eq; lia|].
    pose proof (sorted_lookup_lt l j (length l - 1) x last Hs Hj Hlast). lia. }
  rewrite (get_spec n iset l 0 first) by done. mrun.
  destruct (v <? first) eqn:E2.
  { exists false, 0. split; [done|]. exists [], l. split_and!; auto.
    apply Forall_lookup. intros j x Hj.
    destruct (decide (j = 0%nat)) as [->|]; [simplify_eq; lia|].
    pose proof (sorted_lookup_lt l 0 j first x Hs Hfirst Hj). lia. }
  rewrite swrap_small, Nat2Z.id by rlia.
  destruct (search_loop n iset l v R) as ([[min mid] cur] & -> & Hr).
  { intros ->. done. }
  mrun. unfold search_result in Hr. destruct (v =? cur).
  - destruct Hr as [Hmid Hl]. pose proof (lookup_lt_Some _ _ _ Hl).
    exists true, mid. rewrite wrap_small by rlia. split; [done|].
    exists (take (Z.to_nat mid) l), (drop (S (Z.to_nat mid)) l).
    rewrite length_take, take_drop_middle by done. split; [lia|done].
  - destruct Hr as (Hmin & Hlo & Hhi).
    exists false, min. rewrite wrap_small by rlia. split; [done|].
    destruct (sorted_split l v (Z.to_nat min)) as (l1 & l2 & ? & ? & ? & ?); [lia| | |].
    + intros; eapply Hlo; [done|lia].
    + intros; eapply Hhi; [done|lia].
    + exists l1, l2. split; [lia|done].
Qed.
(** *** Encodings *)

Lemma valueEncoding_width v : int_width (Z.to_nat (_intsetValueEncoding v)).
Proof.
  unfold _intsetValueEncoding, int_width. repeat case_match; auto.
Qed.

Lemma valueEncoding_fits v :
  in_s 64 v → in_s (8 * _intsetValueEncoding v) v.
Proof.
  unfold _intsetValueEncoding, in_s, INT32_MIN, INT32_MAX, INT16_MIN, INT16_MAX,
    INTSET_ENC_INT64, INTSET_ENC_INT32, INTSET_ENC_INT16.
  intros. repeat case_match; simpl; lia.
Qed.

Lemma valueEncoding_le n v :
  int_width n → in_s 64 v →
  _intsetValueEncoding v ≤ Z.of_nat n ↔ in_s (8 * Z.of_nat n) v.
Proof.
  unfold _intsetValueEncoding, in_s, INT32_MIN, INT32_MAX, INT16_MIN, INT16_MAX,
    INTSET_ENC_INT64, INTSET_ENC_INT32, INTSET_ENC_INT16.
  intros [->|[->| ->]] ?; repeat case_match; simpl; lia.
Qed.

Lemma in_s_mono (n m : nat) v :
  int_width n → int_width m → (n ≤ m)%nat → in_s (8 * Z.of_nat n) v → in_s (8 * Z.of_nat m) v.
Proof.
  unfold in_s. intros [->|[->| ->]] [->|[->| ->]] ?; simpl; lia.
Qed.

(** *** Upgrading the encoding back to front *)

Lemma take_pack_prefix n l k (x : bytes) :
  (length l * n ≤ k)%nat → take k (pack n l ++ x) = pack n l ++ take (k - length l * n) x.
Proof.
  intros. rewrite take_app, length_pack, take_ge by (rewrite length_pack; lia). done.
Qed.

Lemma upgrade_loop_spec (cur new : nat) l (p : nat) tail j gap iset :
  int_width cur → int_width new → (cur ≤ new)%nat → (p ≤ 1)%nat → (j ≤ length l)%nat →
  zlen l < 2 ^ 28 → Forall (in_s (8 * Z.of_nat cur)) l →
  intrev32ifbe (is_encoding iset) = Some (Z.of_nat new) →
  is_contents iset = (pack cur (take j l) ++ gap) ++ pack new (drop j l) ++ tail →
  length (pack cur (take j l) ++ gap) = ((j + p) * new)%nat →
  ∃ gap', upgrade_loop j iset (Z.of_nat p) (Z.of_nat cur)
    = Some (mk_intset (is_encoding iset) (is_length iset) (gap' ++ pack new l ++ tail)) ∧
    length gap' = (p * new)%nat.
Proof.
  intros Hc Hn Hle Hp Hj Hlen Hfits. revert gap iset.
  induction j as [|j IH]; intros gap iset He Hcont Hgap; cbn [upgrade_loop].
  { exists gap. split; [|done]. destruct iset. cbn in *. by rewrite Hcont. }
  destruct (lookup_lt_is_Some_2 l j) as [v Hv]; [lia|].
  assert (in_s (8 * Z.of_nat cur) v) by (by eapply Forall_lookup_1 in Hv).
  assert (length (take j l) = j) as Htj by (rewrite length_take; lia).
  rewrite (take_S_r _ _ _ Hv), pack_app in Hcont, Hgap.
  change (pack cur [v]) with (le_enc cur v ++ []) in Hcont, Hgap.
  rewrite app_nil_r, <-app_assoc in Hcont, Hgap.
  rewrite (getEncoded_spec cur _ _ (pack cur (take j l)) v
             (gap ++ pack new (drop (S j) l) ++ tail));
    [|done|by rewrite Hcont, <-!app_assoc|rewrite length_pack; lia|done].
  mrun. set (X := pack cur (take j l) ++ le_enc cur v ++ gap) in *.
  rewrite (set_spec new iset _ (take ((j + p) * new) X) (drop ((j + p) * new) X)
             (pack new (drop (S j) l) ++ tail));
    [|done|done| | | |unfold int_width in *; lia].
  - mrun. destruct (IH ltac:(lia) (take ((j + p) * new - j * cur) (le_enc cur v ++ gap))
        (mk_intset (is_encoding iset) (is_length iset)
           (take ((j + p) * new) X ++ le_enc new v ++ pack new (drop (S j) l) ++ tail)))
      as (gap' & -> & ?); [done| | |by exists gap'].
    + cbn. unfold X. rewrite take_pack_prefix by (rewrite Htj; unfold int_width in *; nia).
      rewrite Htj. f_equal. rewrite app_assoc. f_equal.
      by rewrite (drop_S _ _ _ Hv).
    + cbn. rewrite <-Htj at 3. rewrite <-take_pack_prefix by (rewrite Htj; nia).
      rewrite length_take. fold X. nia.
  - rewrite (app_assoc (take _ _)), take_drop, Hcont. unfold X. by rewrite <-!app_assoc.
  - rewrite length_take. nia.
  - rewrite length_drop. nia.
Qed.

(** *** Moving the tail *)

Lemma moveTail_width n iset from to len :
  int_width n → intrev32ifbe (is_encoding iset) = Some (Z.of_nat n) →
  intrev32ifbe (is_length iset) = Some len →
  intsetMoveTail iset from to =
    (c ← memmove (is_contents iset) (to * Z.of_nat n) (from * Z.of_nat n)
           (u32 (u32 (len - from) * Z.of_nat n));
     Some (mk_intset (is_encoding iset) (is_length iset) c)).
Proof.
  intros Hn He Hl. unfold intsetMoveTail. rewrite He, Hl. by destruct Hn as [->|[->| ->]].
Qed.

Lemma moveTail_spec n iset from to len pre mid post p l1 q :
  int_width n → intrev32ifbe (is_encoding iset) = Some (Z.of_nat n) →
  intrev32ifbe (is_length iset) = Some len →
  is_contents iset = pre ++ mid ++ post → is_contents iset = p ++ l1 ++ q →
  zlen pre = from * Z.of_nat n → zlen p = to * Z.of_nat n → length l1 = length mid →
  zlen mid = (len - from) * Z.of_nat n → 0 ≤ len - from → len < 2 ^ 28 → 0 ≤ from →
  intsetMoveTail iset from to =
    Some (mk_intset (is_encoding iset) (is_length iset) (p ++ mid ++ q)).
Proof.
  intros Hn He Hl Hc Hc' Hpre Hp Hlm Hmid ? ? ?. rewrite (moveTail_width n _ _ _ len) by done.
  rewrite (wrap_small _ (len - from)), wrap_small by (unfold int_width in *; rlia).
  rewrite Hc. rewrite (memmove_app pre mid post l1 (p ++ mid ++ q)); [done| |done|done|done].
  exists p, q. by rewrite <-Hc, Hc'.
Qed.
(** *** Updates of the header *)

Lemma intrev32_inv v :
  in_u 32 v → ∃ v', intrev32ifbe v = Some v' ∧ intrev32ifbe v' = Some v.
Proof.
  intros Hv. destruct (intrev_ifbe_Some 4 v) as (v' & ? & _ & ?);
    [by right; left|done|by exists v'].
Qed.

Lemma resize_spec n iset len :
  int_width n → intrev32ifbe (is_encoding iset) = Some (Z.of_nat n) → 0 ≤ len ≤ 2 ^ 28 →
  intsetResize iset len = Some (mk_intset (is_encoding iset) (is_length iset)
    (zrealloc (is_contents iset) (len * Z.of_nat n))).
Proof.
  intros Hn He Hl. unfold intsetResize. rewrite He. mrun.
  rewrite wrap_small by (unfold int_width in *; rlia). done.
Qed.

Lemma intsetNew_spec : ∃ iset, intsetNew = Some iset ∧ rep 2 iset [].
Proof.
  unfold intsetNew. destruct (intrev32_inv INTSET_ENC_INT16) as (e & -> & He); [done|].
  eexists. split; [done|].
  assert (intrev32ifbe 0 = Some 0) as H00.
  { unfold intrev32ifbe. destruct big_endian; [|done].
    change intrev32 with (intrev 4). rewrite intrev_spec by (by right; left). done. }
  split; cbn; try done; [by left|constructor].
Qed.

(** *** Insertion *)

Lemma upgradeAndAdd_spec n iset l v :
  rep n iset l → in_s 64 v → Z.of_nat n < _intsetValueEncoding v → zlen l + 1 < 2 ^ 28 →
  ∃ iset', intsetUpgradeAndAdd iset v = Some iset' ∧
    rep (Z.to_nat (_intsetValueEncoding v)) iset' (if v <? 0 then v :: l else l ++ [v]).
Proof.
  intros R Hv Hlt Hlen. pose proof (rep_width _ _ _ R) as Hn.
  pose proof (valueEncoding_width v) as Hm. pose proof (valueEncoding_fits v Hv) as Hfit.
  assert (¬ in_s (8 * Z.of_nat n) v) as Hout
    by (rewrite <-valueEncoding_le by done; lia).
  unfold intsetUpgradeAndAdd. rewrite (rep_encoding _ _ _ R), (rep_length _ _ _ R). mrun.
  rewrite swrap_small, (wrap_small 8) by (unfold int_width in *; rlia).
  set (m := Z.to_nat (_intsetValueEncoding v)) in *.
  assert (_intsetValueEncoding v = Z.of_nat m) as Hmz by (unfold int_width, m in *; lia).
  rewrite Hmz in *.
  destruct (intrev32_inv (Z.of_nat m)) as (e & -> & He); [unfold int_width in *; rlia|]. mrun.
  cbn. rewrite ?(rep_length _ _ _ R). mrun.
  rewrite (wrap_small 32) by rlia. rewrite (resize_spec m) by (cbn; done || lia). mrun. cbn.
  rewrite (rep_contents _ _ _ R), zrealloc_grow
    by (rewrite length_pack; unfold int_width in *; lia).
  destruct (0 <=? zlen l) eqn:?; [|lia]. rewrite Nat2Z.id.
  set (F := fresh _). assert (length F = (length l + 1) * m - length l * n)%nat as HF.
  { unfold F. rewrite length_fresh, length_pack. lia. }
  assert (n < m)%nat by lia.
  destruct (upgrade_loop_spec n m l (if v <? 0 then 1 else 0)
      (if v <? 0 then [] else drop (length F - m) F) (length l)
      (if v <? 0 then F else take (length F - m) F)
      (mk_intset e (is_length iset) (pack n l ++ F)))
    as (gap' & Hup & Hgap'); try done; try (case_match; lia).
  { lia. }
  { pose proof (rep_small _ _ _ R). lia. }
  { apply R. }
  { cbn. rewrite take_ge, drop_ge by done. cbn. rewrite <-app_assoc. f_equal.
    case_match; cbn; by rewrite ?app_nil_r, ?take_drop. }
  { rewrite length_app, length_pack, take_ge by done.
    case_match; rewrite ?length_take; nia. }
  replace (if v <? 0 then 1 else 0) with (Z.of_nat (if v <? 0 then 1%nat else 0%nat))
    by (by case_match).
  rewrite Hup. mrun. cbn.
  destruct (intrev32_inv (zlen l + 1)) as (len' & Hlen' & Hlen''); [rlia|].
  destruct (v <? 0) eqn:Hneg; cbn.
  - change (Z.of_nat 1 =? 1) with true. cbv iota.
    rewrite (set_spec m _ 0 [] gap' (pack m l)); cbn; try done; [|by rewrite app_nil_r|lia].
    mrun. cbn. rewrite ?(rep_length _ _ _ R). mrun. rewrite wrap_small, Hlen' by rlia. mrun.
    eexists. split; [done|]. split; cbn; try done.
    + rewrite Hlen''. f_equal. lia.
    + constructor; [done|]. eapply Forall_impl; [apply R|]. intros x Hx.
      apply (in_s_mono n); auto. lia.
    + constructor; [apply R|]. eapply Forall_impl; [apply R|]. intros x Hx. rlia.
    + lia.
  - change (Z.of_nat 0 =? 1) with false. cbv iota. destruct gap'; [|cbn in *; lia].
    rewrite ?(rep_length _ _ _ R). mrun. pose proof (rep_small _ _ _ R).
    rewrite (set_spec m _ _ (pack m l) (drop (length F - m) F) []);
      cbn; try done; [| | | |lia]; cycle 1.
    { by rewrite app_nil_r. } { rewrite length_pack. lia. } { rewrite length_drop. nia. }
    mrun. cbn. rewrite ?(rep_length _ _ _ R). mrun. rewrite wrap_small, Hlen' by rlia. mrun.
    eexists. split; [done|]. split; cbn; try done.
    + rewrite length_app. cbn. rewrite Hlen''. f_equal. lia.
    + by rewrite pack_app.
    + apply Forall_app. split; [|by apply Forall_singleton].
      eapply Forall_impl; [apply R|]. intros x Hx. apply (in_s_mono n); auto. lia.
    + apply StronglySorted_app_2; [|apply R|by repeat constructor].
      intros x y Hx ->%list_elem_of_singleton.
      pose proof (proj1 (Forall_forall _ _) (rep_fits _ _ _ R) x Hx). rlia.
    + rewrite length_app. cbn. lia.
Qed.
Lemma rep_insert n iset l1 l2 v len' :
  rep n iset (l1 ++ l2) → in_s (8 * Z.of_nat n) v → zlen (l1 ++ l2) + 1 < 2 ^ 28 →
  Forall (λ x, x < v) l1 → Forall (λ x, v < x) l2 →
  intrev32ifbe len' = Some (zlen (l1 ++ l2) + 1) →
  rep n (mk_intset (is_encoding iset) len' (pack n (l1 ++ v :: l2))) (l1 ++ v :: l2).
Proof.
  intros R Hv Hlen H1 H2 Hl'. split; cbn; try done; try apply R.
  - rewrite Hl', !length_app. cbn. f_equal. lia.
  - pose proof (rep_fits _ _ _ R) as [? ?]%Forall_app. apply Forall_app. split; [done|].
    by constructor.
  - by apply StronglySorted_insert; [apply R| |].
  - rewrite length_app in *. cbn. lia.
Qed.

Lemma intsetAdd_new n iset l1 l2 v :
  rep n iset (l1 ++ l2) → in_s (8 * Z.of_nat n) v → zlen (l1 ++ l2) + 1 < 2 ^ 28 →
  Forall (λ x, x < v) l1 → Forall (λ x, v < x) l2 →
  intsetSearch iset v = Some (false, zlen l1) →
  ∃ iset', intsetAdd iset v = Some (iset', true) ∧ rep n iset' (l1 ++ v :: l2).
Proof.
  intros R Hv Hlen H1 H2 Hs. pose proof (rep_width _ _ _ R) as Hn.
  pose proof (rep_small _ _ _ R) as Hsm.
  assert (in_s 64 v) as Hv64.
  { revert Hv. unfold in_s. destruct Hn as [->|[->| ->]]; simpl; lia. }
  unfold intsetAdd. rewrite (rep_encoding _ _ _ R). mrun.
  apply valueEncoding_le in Hv as Hle; [|done|done].
  destruct (Z.of_nat n <? _) eqn:?; [lia|]. rewrite Hs. mrun.
  rewrite (rep_length _ _ _ R). mrun. rewrite (wrap_small 32 (zlen (l1 ++ l2) + 1)) by rlia.
  rewrite (resize_spec n) by (apply R || lia). mrun.
  rewrite (rep_contents _ _ _ R), zrealloc_grow by (rewrite length_pack; nia).
  set (F := fresh _). assert (length F = n) as HF.
  { unfold F. rewrite length_fresh, length_pack. nia. }
  rewrite pack_app, <-app_assoc.
  assert (∃ mid, length mid = n ∧
    (if zlen l1 <? zlen (l1 ++ l2)
     then intsetMoveTail (mk_intset (is_encoding iset) (is_length iset)
            (pack n l1 ++ pack n l2 ++ F)) (zlen l1) (u32 (zlen l1 + 1))
     else Some (mk_intset (is_encoding iset) (is_length iset) (pack n l1 ++ pack n l2 ++ F)))
    = Some (mk_intset (is_encoding iset) (is_length iset)
        (pack n l1 ++ mid ++ pack n l2))) as (mid & Hmid & ->).
  { rewrite length_app in *. destruct (zlen l1 <? _) eqn:?.
    - rewrite wrap_small by rlia. set (x := pack n l2 ++ F). exists (take n x).
      assert (length x = (length l2 * n + n)%nat) as Hx
        by (unfold x; rewrite length_app, length_pack; lia).
      split; [rewrite length_take; lia|].
      rewrite (moveTail_spec n _ _ _ (zlen l1 + zlen l2) (pack n l1) (pack n l2) F
        (pack n l1 ++ take n x) (drop n x) []);
        cbn; rewrite ?length_app, ?length_take, ?length_drop, ?length_pack; try done; try nia.
      + by rewrite <-app_assoc, app_nil_r.
      + apply R.
      + rewrite (rep_length _ _ _ R), length_app. f_equal. lia.
      + rewrite app_nil_r, <-app_assoc. f_equal. by rewrite take_drop.
    - exists F. split; [done|]. destruct l2; [|cbn in *; lia]. cbn. by rewrite app_nil_r. }
  mrun. rewrite (set_spec n _ _ (pack n l1) mid (pack n l2));
    cbn; rewrite ?length_pack; try done; try nia; [|by apply R|rewrite length_app in *; lia].
  mrun. cbn. rewrite (rep_length _ _ _ R). mrun. rewrite wrap_small by rlia.
  destruct (intrev32_inv (zlen (l1 ++ l2) + 1)) as (len' & -> & Hlen'); [rlia|].
  eexists. split; [done|]. rewrite <-pack_middle. by apply rep_insert.
Qed.

Lemma intsetAdd_spec n iset l v :
  rep n iset l → in_s 64 v → zlen l + 1 < 2 ^ 28 →
  ∃ iset' n' l', intsetAdd iset v = Some (iset', bool_decide (v ∉ l)) ∧ rep n' iset' l' ∧
    (n ≤ n')%nat ∧ (∀ x, x ∈ l' ↔ x = v ∨ x ∈ l).
Proof.
  intros R Hv Hlen. pose proof (rep_width _ _ _ R) as Hn.
  destruct (decide (in_s (8 * Z.of_nat n) v)) as [Hfit|Hout].
  - destruct (intsetSearch_spec n iset l v R) as ([] & pos & Hs & l1 & l2 & <- & Hl).
    + exists iset, n, l. unfold intsetAdd. rewrite (rep_encoding _ _ _ R). mrun.
      apply valueEncoding_le in Hfit as Hle; [|done|done].
      destruct (Z.of_nat n <? _) eqn:?; [lia|]. rewrite Hs. mrun.
      rewrite bool_decide_eq_false_2 by (rewrite Hl; set_solver).
      split_and!; [done..|]. rewrite Hl. set_solver.
    + destruct Hl as (-> & H1 & H2).
      destruct (intsetAdd_new n iset l1 l2 v) as (iset' & -> & R'); try done.
      exists iset', n, (l1 ++ v :: l2). rewrite bool_decide_eq_true_2.
      { split_and!; [done..|]. set_solver. }
      rewrite Forall_forall in H1, H2. intros [Hx|Hx]%elem_of_app;
        [specialize (H1 _ Hx)|specialize (H2 _ Hx)]; simpl in *; lia.
  - assert (Z.of_nat n < _intsetValueEncoding v)
      by (rewrite <-valueEncoding_le in Hout by done; lia).
    destruct (upgradeAndAdd_spec n iset l v) as (iset' & Hup & R'); try done.
    eexists iset', _, _. unfold intsetAdd. rewrite (rep_encoding _ _ _ R). mrun.
    destruct (Z.of_nat n <? _) eqn:?; [|lia]. rewrite Hup. mrun.
    rewrite bool_decide_eq_true_2.
    { split_and!; [done|done|lia|]. intros x. case_match; set_solver. }
    intros Hin. by pose proof (proj1 (Forall_forall _ _) (rep_fits _ _ _ R) v Hin).
Qed.

(** *** Removal *)

Lemma rep_remove n iset l1 l2 v len' :
  rep n iset (l1 ++ v :: l2) → intrev32ifbe len' = Some (zlen (l1 ++ l2)) →
  rep n (mk_intset (is_encoding iset) len' (pack n (l1 ++ l2))) (l1 ++ l2).
Proof.
  intros R Hl'. split; cbn; try done; try apply R.
  - pose proof (rep_fits _ _ _ R) as [? [_ ?]%Forall_cons]%Forall_app. by apply Forall_app.
  - eapply StronglySorted_remove, R.
  - pose proof (rep_small _ _ _ R). rewrite !length_app in *. cbn in *. lia.
Qed.

Lemma intsetRemove_found n iset l1 l2 v :
  rep n iset (l1 ++ v :: l2) → in_s (8 * Z.of_nat n) v →
  intsetSearch iset v = Some (true, zlen l1) →
  ∃ iset', intsetRemove iset v = Some (iset', true) ∧ rep n iset' (l1 ++ l2).
Proof.
  intros R Hv Hs. pose proof (rep_width _ _ _ R) as Hn.
  pose proof (rep_small _ _ _ R) as Hsm.
  assert (in_s 64 v) as Hv64.
  { revert Hv. unfold in_s. destruct Hn as [->|[->| ->]]; simpl; lia. }
  assert (zlen (l1 ++ v :: l2) = zlen l1 + zlen l2 + 1) as Hlen
    by (rewrite length_app; cbn; lia).
  unfold intsetRemove. rewrite (rep_encoding _ _ _ R). mrun.
  apply valueEncoding_le in Hv as Hle; [|done|done].
  destruct (_ <=? Z.of_nat n) eqn:?; [|lia]. rewrite Hs. mrun.
  rewrite (rep_length _ _ _ R). mrun. rewrite Hlen, !(wrap_small 32) by rlia.
  assert (∃ junk,
    (if zlen l1 <? zlen l1 + zlen l2 + 1 - 1
     then intsetMoveTail iset (zlen l1 + 1) (zlen l1) else Some iset)
    = Some (mk_intset (is_encoding iset) (is_length iset) (pack n (l1 ++ l2) ++ junk)))
    as (junk & ->).
  { rewrite pack_app. destruct (zlen l1 <? _) eqn:?.
    - exists (drop (length l2 * n) (le_enc n v ++ pack n l2)).
      rewrite (moveTail_spec n _ _ _ (zlen l1 + zlen l2 + 1) (pack n (l1 ++ [v])) (pack n l2) []
        (pack n l1) (take (length l2 * n) (le_enc n v ++ pack n l2))
        (drop (length l2 * n) (le_enc n v ++ pack n l2)));
        rewrite ?length_pack, ?length_take, ?length_app, ?length_pack, ?length_le_enc; cbn;
        try done; try nia; try apply R.
      + by rewrite <-app_assoc.
      + by rewrite (rep_length _ _ _ R), Hlen.
      + rewrite (rep_contents _ _ _ R), app_nil_r, <-pack_app. by rewrite <-app_assoc.
      + by rewrite (rep_contents _ _ _ R), pack_middle, take_drop.
    - exists (pack n [v]). destruct l2; [|cbn in *; lia]. destruct iset. f_equal. f_equal.
      rewrite app_nil_r, <-pack_app. apply (rep_contents _ _ _ R). }
  mrun. rewrite (resize_spec n) by (apply R || lia). mrun. cbn [is_contents is_encoding].
  destruct (intrev32_inv (zlen l1 + zlen l2 + 1 - 1)) as (len' & -> & Hlen'); [rlia|]. mrun.
  eexists. split; [done|].
  rewrite zrealloc_shrink, take_app_length' by (rewrite ?length_app, length_pack, length_app; nia).
  apply (rep_remove n iset l1 l2 v); [done|]. rewrite Hlen', length_app. f_equal. lia.
Qed.

Lemma intsetRemove_spec n iset l v :
  rep n iset l → in_s 64 v →
  ∃ iset' l', intsetRemove iset v = Some (iset', bool_decide (v ∈ l)) ∧ rep n iset' l' ∧
    (∀ x, x ∈ l' ↔ x ≠ v ∧ x ∈ l).
Proof.
  intros R Hv. pose proof (rep_width _ _ _ R) as Hn.
  assert (v ∉ l → ∀ x, x ∈ l ↔ x ≠ v ∧ x ∈ l) as Hsame by set_solver.
  destruct (decide (in_s (8 * Z.of_nat n) v)) as [Hfit|Hout].
  - destruct (intsetSearch_spec n iset l v R) as ([] & pos & Hs & l1 & l2 & <- & Hl).
    + subst l. destruct (intsetRemove_found n iset l1 l2 v) as (iset' & -> & R'); try done.
      exists iset', (l1 ++ l2). rewrite bool_decide_eq_true_2 by set_solver.
      split_and!; [done..|]. intros x.
      pose proof (StronglySorted_lt_NoDup _ (rep_sorted _ _ _ R)) as Hnd.
      apply NoDup_app in Hnd as (? & Hd & [? ?]%NoDup_cons).
      assert (v ∉ l1) by (intros Hx; apply (Hd _ Hx); set_solver). set_solver.
    + destruct Hl as (-> & H1 & H2). exists iset, (l1 ++ l2).
      assert (v ∉ l1 ++ l2).
      { rewrite Forall_forall in H1, H2. intros [Hx|Hx]%elem_of_app;
          [specialize (H1 _ Hx)|specialize (H2 _ Hx)]; simpl in *; lia. }
      unfold intsetRemove. rewrite (rep_encoding _ _ _ R). mrun.
      rewrite bool_decide_eq_false_2 by done.
      destruct (_ <=? Z.of_nat n); [rewrite Hs; mrun|]; by auto.
  - assert (v ∉ l).
    { intros Hin. by pose proof (proj1 (Forall_forall _ _) (rep_fits _ _ _ R) v Hin). }
    exists iset, l. unfold intsetRemove. rewrite (rep_encoding _ _ _ R). mrun.
    rewrite <-valueEncoding_le in Hout by done.
    destruct (_ <=? Z.of_nat n) eqn:?; [lia|]. rewrite bool_decide_eq_false_2 by done. auto.
Qed.

Lemma intsetFind_spec n iset l v :
  rep n iset l → in_s 64 v → intsetFind iset v = Some (bool_decide (v ∈ l)).
Proof.
  intros R Hv. pose proof (rep_width _ _ _ R) as Hn.
  unfold intsetFind. rewrite (rep_encoding _ _ _ R). mrun.
  destruct (_ <=? Z.of_nat n) eqn:Hle.
  - destruct (intsetSearch_spec n iset l v R) as (b & pos & -> & l1 & l2 & <- & Hl).
    mrun. cbn. f_equal. symmetry. destruct b.
    + apply bool_decide_eq_true_2. rewrite Hl. set_solver.
    + destruct Hl as (-> & H1 & H2). apply bool_decide_eq_false_2.
      rewrite Forall_forall in H1, H2. intros [Hx|Hx]%elem_of_app;
        [specialize (H1 _ Hx)|specialize (H2 _ Hx)]; simpl in *; lia.
  - f_equal. symmetry. apply bool_decide_eq_false_2. intros Hin.
    pose proof (proj1 (Forall_forall _ _) (rep_fits _ _ _ R) v Hin) as Hin'.
    apply valueEncoding_le in Hin'; [lia|done|done].
Qed.
End representation.

(** ** Refinement: an intset denotes a finite set of 64-bit integers *)

Definition denotes `{Host} (iset : intset) (X : gset Z) : Prop :=
  ∃ n l, rep n iset l ∧ ∀ x, x ∈ X ↔ x ∈ l.

Section refinement.
Context `{Host} `{Allocator}.
Implicit Types (X : gset Z) (iset : intset).

Lemma rep_size n iset l X : rep n iset l → (∀ x, x ∈ X ↔ x ∈ l) → size X = length l.
Proof.
  intros R HX. pose proof (StronglySorted_lt_NoDup _ (rep_sorted _ _ _ R)).
  assert (X = list_to_set l) as -> by set_solver. by apply size_list_to_set.
Qed.

(** The members in increasing order are what [intsetGet] enumerates. *)
Lemma rep_elements n iset l X :
  rep n iset l → (∀ x, x ∈ X ↔ x ∈ l) → l = merge_sort Z.le (elements X).
Proof.
  intros R HX. apply (StronglySorted_unique Z.le).
  - pose proof (rep_sorted _ _ _ R) as Hs. clear -Hs.
    induction Hs as [|x l ? ? Hall]; constructor; [done|].
    eapply Forall_impl; [exact Hall|]. simpl. lia.
  - apply StronglySorted_merge_sort; apply _.
  - rewrite merge_sort_Permutation. apply NoDup_Permutation.
    + eapply StronglySorted_lt_NoDup, R.
    + apply NoDup_elements.
    + intros x. by rewrite elem_of_elements, HX.
Qed.

(** C13: [intsetAdd] implements set insertion on every host and whatever the
    allocator hands out: it never leaves the buffer, reports whether the value
    was new, and upgrades the encoding when the value needs it. *)
Theorem intsetAdd_refines iset X v :
  denotes iset X → in_s 64 v → Z.of_nat (size X) + 1 < 2 ^ 28 →
  ∃ iset', intsetAdd iset v = Some (iset', bool_decide (v ∉ X)) ∧ denotes iset' ({[v]} ∪ X).
Proof.
  intros (n & l & R & HX) Hv Hlen. rewrite (rep_size _ _ _ _ R HX) in Hlen.
  destruct (intsetAdd_spec n iset l v R Hv Hlen) as (iset' & n' & l' & -> & R' & _ & Hl').
  exists iset'. split; [by rewrite (bool_decide_ext _ _ (not_iff_compat (HX v)))|].
  exists n', l'. split; [done|]. set_solver.
Qed.

(** [intsetRemove] implements set difference and reports membership. *)
Theorem intsetRemove_refines iset X v :
  denotes iset X → in_s 64 v →
  ∃ iset', intsetRemove iset v = Some (iset', bool_decide (v ∈ X)) ∧ denotes iset' (X ∖ {[v]}).
Proof.
  intros (n & l & R & HX) Hv.
  destruct (intsetRemove_spec n iset l v R Hv) as (iset' & l' & -> & R' & Hl').
  exists iset'. split; [by rewrite (bool_decide_ext _ _ (HX v))|].
  exists n, l'. split; [done|]. set_solver.
Qed.

(** the queries. *)
Theorem intset_queries iset X v pos rnd :
  denotes iset X → in_s 64 v → 0 ≤ pos →
  intsetFind iset v = Some (bool_decide (v ∈ X)) ∧
  intsetLen iset = Some (Z.of_nat (size X)) ∧
  intsetGet iset pos = Some (merge_sort Z.le (elements X) !! Z.to_nat pos) ∧
  (X ≠ ∅ → ∃ x, intsetRandom iset rnd = Some x ∧ x ∈ X).
Proof.
  intros (n & l & R & HX) Hv Hpos. pose proof (rep_small _ _ _ R).
  rewrite (intsetFind_spec n iset l v R Hv), (rep_size _ _ _ _ R HX),
    <-(rep_elements _ _ _ _ R HX).
  unfold intsetLen, intsetGet, intsetRandom. rewrite (rep_length _ _ _ R). mrun. split_and!.
  - by rewrite (bool_decide_ext _ _ (HX v)).
  - done.
  - destruct (pos <? zlen l) eqn:?.
    + destruct (lookup_lt_is_Some_2 l (Z.to_nat pos)) as [x Hx]; [lia|].
      by rewrite (get_spec n iset l pos x), Hx.
    + by rewrite lookup_ge_None_2 by lia.
  - intros Hne. assert (0 < zlen l).
    { destruct l; cbn; [|lia]. destruct Hne. apply set_eq. set_solver. }
    destruct (zlen l =? 0) eqn:?; [lia|].
    pose proof (wrap_range 32 rnd). pose proof (Z.mod_pos_bound (u32 rnd) (zlen l)).
    destruct (lookup_lt_is_Some_2 l (Z.to_nat (u32 rnd mod zlen l))) as [x Hx]; [lia|].
    exists x. rewrite (get_spec n iset l _ x) by (done || lia). split; [done|].
    apply HX. eapply list_elem_of_lookup_2, Hx.
Qed.
End refinement.

(** ** Witnesses: the set [{5}] on a big-endian host *)

Definition sample : intset := mk_intset 33554432 16777216 [5; 0].

Lemma sample_denotes : @denotes be_host sample {[5]}.
Proof.
  exists 2%nat, [5]. split; [|set_solver].
  split; try (vm_compute; reflexivity); [by left| |repeat constructor].
  by apply Forall_singleton.
Qed.

Lemma intsetAdd_refines_witness :
  ∃ iset' b, @intsetAdd be_host poison_allocator sample 70000 = Some (iset', b) ∧
    @denotes be_host iset' ({[70000]} ∪ {[5]}).
Proof.
  destruct (@intsetAdd_refines be_host poison_allocator sample {[5]} 70000)
    as (iset' & H & D);
    [apply sample_denotes|unfold in_s; lia|rewrite size_singleton; lia|].
  eexists iset', _. split; [exact H|exact D].
Defined.

Lemma intsetRemove_refines_witness :
  ∃ iset' b, @intsetRemove be_host poison_allocator sample 5 = Some (iset', b) ∧
    @denotes be_host iset' ({[5]} ∖ {[5]}).
Proof.
  destruct (@intsetRemove_refines be_host poison_allocator sample {[5]} 5)
    as (iset' & H & D); [apply sample_denotes|unfold in_s; lia|].
  eexists iset', _. split; [exact H|exact D].
Defined.

Lemma intset_queries_witness :
  @intsetLen be_host sample = Some (Z.of_nat (size ({[5]} : gset Z))).
Proof.
  apply (@intset_queries be_host sample {[5]} 7 0 0);
    [apply sample_denotes|unfold in_s; lia|lia].
Defined.

Example sample_upgraded :
  fst <$> @intsetAdd be_host poison_allocator sample 70000
  = Some (mk_intset 67108864 33554432 [5; 0; 0; 0; 112; 17; 1; 0]).
Proof. vm_compute. reflexivity. Qed.
