(* ===== verification/Util.v ===== *)
(** * Numbers as text and glob patterns: [util.c] *)

From S2P Require Import Prelude.

#[local] Open Scope Z_scope.

(** ** Decimal text *)

Abbreviation ch_minus := 45.
Abbreviation ch_0 := 48.
Abbreviation ch_1 := 49.
Abbreviation ch_9 := 57.

Definition ULLONG_MAX : Z := 2 ^ 64 - 1.
Definition LLONG_MAX : Z := 2 ^ 63 - 1.
Definition LLONG_MIN : Z := - 2 ^ 63.

(** [digits10], with the recursion depth bounded: each call divides by 10^12. *)
Fixpoint digits10_fuel (fuel : nat) (v : Z) : Z :=
  match fuel with
  | O => 0
  | S fuel =>
    if v <? 10 then 1
    else if v <? 100 then 2
    else if v <? 1000 then 3
    else if v <? 1000000000000 then
      if v <? 100000000 then
        if v <? 1000000 then
          if v <? 10000 then 4 else 5 + (if 100000 <=? v then 1 else 0)
        else 7 + (if 10000000 <=? v then 1 else 0)
      else if v <? 10000000000 then 9 + (if 1000000000 <=? v then 1 else 0)
      else 11 + (if 100000000000 <=? v then 1 else 0)
    else u32 (12 + digits10_fuel fuel (v / 1000000000000))
  end.

(** Two calls cover every [uint64_t]: the second argument is below 2^64/10^12. *)
Definition digits10 (v : Z) : Z := digits10_fuel 2 v.

(** The table [digits]: "00", "01", ..., "99". *)
Definition digits_tab (i : Z) : Z := if Z.even i then ch_0 + i / 2 / 10 else ch_0 + i / 2 mod 10.

(** The loop [while (value >= 100)]: state [dst], [next], [value]. *)
Definition ll2string_body (st : bytes * Z * Z) : option ((bytes * Z * Z) + (bytes * Z * Z)) :=
  let '(dst, next, value) := st in
  if 100 <=? value then
    let i := value mod 100 * 2 in
    let value := value / 100 in
    dst ← wr1 dst next (digits_tab (i + 1));
    dst ← wr1 dst (u32 (next - 1)) (digits_tab i);
    Some (inl (dst, u32 (next - 2), value))
  else Some (inr (dst, next, value)).

(** Returns the length and the buffer; [dstlen] is the size the caller passes. *)
Definition ll2string (dst : bytes) (dstlen svalue : Z) : option (Z * bytes) :=
  let '(value, negative) :=
    if svalue <? 0 then
      ((if negb (svalue =? LLONG_MIN) then - svalue else u64 (LLONG_MAX + 1)), 1)
    else (svalue, 0) in
  let length := u32 (digits10 value + negative) in
  if dstlen <=? length then Some (0, dst)
  else
    let next := length in
    dst ← wr1 dst next 0;
    let next := u32 (next - 1) in
    r ← loop 11 ll2string_body (dst, next, value);
    let '(dst, next, value) := r in
    dst ← (if value <? 10 then wr1 dst next (ch_0 + u32 value)
           else
             let i := u32 value * 2 in
             dst ← wr1 dst next (digits_tab (i + 1));
             wr1 dst (u32 (next - 1)) (digits_tab i));
    dst ← (if negative =? 1 then wr1 dst 0 ch_minus else Some dst);
    Some (length, dst).

(** The digit loop of [string2ll]; [inr None] is an early [return 0]. *)
Definition string2ll_body (s : bytes) (slen : Z) (st : Z * Z)
  : option ((Z * Z) + option (Z * Z)) :=
  let '(plen, v) := st in
  if plen <? slen then
    c ← rd1 s plen;
    if (ch_0 <=? c) && (c <=? ch_9) then
      if ULLONG_MAX / 10 <? v then Some (inr None)
      else
        let v := u64 (v * 10) in
        if ULLONG_MAX - (c - ch_0) <? v then Some (inr None)
        else Some (inl (plen + 1, u64 (v + (c - ch_0))))
    else Some (inr (Some (plen, v)))
  else Some (inr (Some (plen, v))).

(** [Some (Some v)]: returns 1 and stores [v]; [Some None]: returns 0. *)
Definition string2ll (s : bytes) (slen : Z) : option (option Z) :=
  if 0 =? slen then Some None
  else
    c0 ← rd1 s 0;
    if (slen =? 1) && (c0 =? ch_0) then Some (Some 0)
    else
      let negative := c0 =? ch_minus in
      let plen := if negative then 1 else 0 in
      if plen =? slen then Some None
      else
        c ← rd1 s plen;
        if (ch_1 <=? c) && (c <=? ch_9) then
          r ← loop (S (Z.to_nat slen)) (string2ll_body s slen) (plen + 1, c - ch_0);
          match r with
          | None => Some None
          | Some (plen, v) =>
            if plen <? slen then Some None
            else if negative then
              if u64 (- (LLONG_MIN + 1)) + 1 <? v then Some None
              else Some (Some (s64 (u64 (- v))))
            else if LLONG_MAX <? v then Some None
            else Some (Some v)
          end
        else if (c =? ch_0) && (slen =? 1) then Some (Some 0)
        else Some None.

Definition PORT_LONG_MIN : Z := - 2 ^ 63.
Definition PORT_LONG_MAX : Z := 2 ^ 63 - 1.

Definition string2l (s : bytes) (slen : Z) : option (option Z) :=
  r ← string2ll s slen;
  match r with
  | None => Some None
  | Some llval =>
    if (llval <? PORT_LONG_MIN) || (PORT_LONG_MAX <? llval) then Some None
    else Some (Some llval)
  end.

(** ** Reference: decimal notation *)

(** The decimal digits of [n ≥ 0], most significant first. *)
Fixpoint dec_fuel (fuel : nat) (n : Z) : bytes :=
  match fuel with
  | O => []
  | S fuel => if n <? 10 then [ch_0 + n] else dec_fuel fuel (n / 10) ++ [ch_0 + n mod 10]
  end.

Definition dec (n : Z) : bytes := dec_fuel (S (Z.to_nat (Z.log2 n))) n.

#[global] Arguments dec : simpl never.

(** The text of a signed number. *)
Definition dec_signed (v : Z) : bytes := if v <? 0 then ch_minus :: dec (- v) else dec v.

Lemma dec_fuel_indep f1 f2 m :
  0 ≤ m < 2 ^ Z.of_nat f1 → 0 ≤ m < 2 ^ Z.of_nat f2 → (0 < f1)%nat → (0 < f2)%nat →
  dec_fuel f1 m = dec_fuel f2 m.
Proof.
  revert f2 m. induction f1 as [|f1 IH]; intros f2 m H1 H2 ? ?; [lia|].
  destruct f2 as [|f2]; [lia|]. cbn [dec_fuel]. destruct (m <? 10) eqn:Hm; [done|]. f_equal.
  rewrite Nat2Z.inj_succ, Z.pow_succ_r in H1, H2 by lia.
  assert (f1 ≠ 0%nat) by (intros ->; cbn in *; lia).
  assert (f2 ≠ 0%nat) by (intros ->; cbn in *; lia).
  apply IH; [| |lia|lia]; dlia.
Qed.

Lemma dec_bound n : 0 ≤ n → n < 2 ^ Z.of_nat (S (Z.to_nat (Z.log2 n))).
Proof.
  intros. rewrite Nat2Z.inj_succ, Z2Nat.id by apply Z.log2_nonneg.
  destruct (decide (n = 0)) as [->|]; [done|]. pose proof (Z.log2_spec n). lia.
Qed.

Lemma dec_fuel_enough fuel n :
  0 ≤ n < 2 ^ Z.of_nat fuel → (0 < fuel)%nat → dec_fuel fuel n = dec n.
Proof.
  intros Hn ?. apply dec_fuel_indep; [done| |done|lia]. split; [lia|apply dec_bound; lia].
Qed.

(** The recursion equation of decimal notation. *)
Lemma dec_eq n : 0 ≤ n → dec n = if n <? 10 then [ch_0 + n] else dec (n / 10) ++ [ch_0 + n mod 10].
Proof.
  intros Hn. unfold dec at 1. cbn [dec_fuel]. destruct (n <? 10) eqn:E; [done|]. f_equal.
  pose proof (dec_bound n Hn) as Hb. rewrite Nat2Z.inj_succ, Z.pow_succ_r in Hb by lia.
  apply dec_fuel_enough; [dlia|].
  assert (0 < Z.log2 n) by (apply Z.log2_pos; lia). lia.
Qed.

Lemma dec_small n : 0 ≤ n < 10 → dec n = [ch_0 + n].
Proof. intros. rewrite dec_eq by lia. destruct (n <? 10) eqn:?; [done|lia]. Qed.

Lemma dec_step n : 10 ≤ n → dec n = dec (n / 10) ++ [ch_0 + n mod 10].
Proof. intros. rewrite dec_eq by lia. destruct (n <? 10) eqn:?; [lia|done]. Qed.

Lemma digits_tab_even m : digits_tab (m * 2) = ch_0 + m / 10.
Proof. unfold digits_tab. rewrite Z.even_mul, orb_true_r. by rewrite Z.div_mul. Qed.

Lemma digits_tab_odd m : digits_tab (m * 2 + 1) = ch_0 + m mod 10.
Proof.
  unfold digits_tab. rewrite Z.even_add, Z.even_mul, orb_true_r. cbn.
  replace ((m * 2 + 1) / 2) with m by dlia. done.
Qed.

(** Two digits at a time, as [ll2string] writes them. *)
Lemma dec_step2 n :
  100 ≤ n → dec n = dec (n / 100) ++ [digits_tab (n mod 100 * 2); digits_tab (n mod 100 * 2 + 1)].
Proof.
  intros. rewrite dec_step, (dec_step (n / 10)) by dlia.
  rewrite Z.div_div by lia. change (10 * 10) with 100. rewrite <-app_assoc.
  rewrite digits_tab_even, digits_tab_odd.
  assert (n / 10 mod 10 = n mod 100 / 10) as -> by dlia.
  by assert (n mod 10 = (n mod 100) mod 10) as -> by dlia.
Qed.

Lemma dec_two n : 10 ≤ n < 100 → dec n = [digits_tab (n * 2); digits_tab (n * 2 + 1)].
Proof.
  intros. rewrite dec_step, dec_small by dlia. by rewrite digits_tab_even, digits_tab_odd.
Qed.

Lemma dec_length_pos n : 0 ≤ n → (0 < length (dec n))%nat.
Proof.
  intros. rewrite dec_eq by lia. case_match; [cbn; lia|]. rewrite length_app. cbn. lia.
Qed.

Lemma length_dec (k : nat) n :
  (0 < k)%nat → 10 ^ (Z.of_nat k - 1) ≤ n < 10 ^ Z.of_nat k ∨ k = 1%nat ∧ n = 0 →
  length (dec n) = k.
Proof.
  revert n. induction k as [|k IH]; intros n Hk Hn; [lia|].
  destruct (decide (k = 0%nat)) as [->|Hk0]; [rewrite dec_small by (cbn in *; lia); done|].
  replace (Z.of_nat (S k) - 1) with (Z.of_nat k) in Hn by lia.
  rewrite Nat2Z.inj_succ, Z.pow_succ_r in Hn by lia.
  assert (10 ^ Z.of_nat k = 10 * 10 ^ (Z.of_nat k - 1)) as Hp.
  { rewrite <-Z.pow_succ_r by lia. f_equal. lia. }
  assert (0 < 10 ^ (Z.of_nat k - 1)) by (apply Z.pow_pos_nonneg; lia).
  rewrite dec_step, length_app, (IH (n / 10)); cbn; [lia|lia| |lia].
  left. dlia.
Qed.

Lemma digits10_length v : in_u 64 v → digits10 v = zlen (dec v).
Proof.
  intros [H0 H1]. unfold digits10. cbn [digits10_fuel].
  assert (∀ k : nat, (0 < k)%nat → 10 ^ (Z.of_nat k - 1) ≤ v < 10 ^ Z.of_nat k →
    zlen (dec v) = Z.of_nat k) as Hlen by (intros; f_equal; apply length_dec; auto).
  destruct (v <? 10) eqn:?; [by rewrite dec_small by lia|].
  repeat match goal with |- context [if ?b then _ else _] => destruct b eqn:? end;
    try (exfalso; dlia);
    (* one case per number of digits *)
    match goal with
    | |- ?d = _ => let k := eval vm_compute in (Z.to_nat d) in
      let lo := eval vm_compute in (10 ^ (Z.of_nat k - 1)) in
      let hi := eval vm_compute in (10 ^ Z.of_nat k) in
      rewrite (Hlen k); [done|lia|];
      change (10 ^ (Z.of_nat k - 1)) with lo; change (10 ^ Z.of_nat k) with hi; dlia
    end.
Qed.

(** ** Shape of decimal notation *)

Definition is_digit (c : Z) : Prop := ch_0 ≤ c ≤ ch_9.

Lemma dec_ind (P : Z → Prop) :
  (∀ n, 0 ≤ n < 10 → P n) → (∀ n, 10 ≤ n → P (n / 10) → P n) → ∀ n, 0 ≤ n → P n.
Proof.
  intros Hs Hr. apply Zlt_0_ind. intros n IH Hn.
  destruct (decide (n < 10)); [apply Hs; lia|]. apply Hr; [lia|]. apply IH. dlia.
Qed.

Lemma dec_digits n : 0 ≤ n → Forall is_digit (dec n).
Proof.
  revert n. apply dec_ind; intros n Hn.
  - rewrite dec_small by done. apply Forall_singleton. unfold is_digit. lia.
  - intros IH. rewrite dec_step by done. apply Forall_app. split; [done|].
    apply Forall_singleton. unfold is_digit. dlia.
Qed.

(** A positive number starts with a non-zero digit. *)
Lemma dec_head n : 0 < n → ∃ d r, dec n = d :: r ∧ ch_1 ≤ d ≤ ch_9.
Proof.
  intros Hn. assert (0 ≤ n) as H0 by lia. revert Hn. pattern n. revert n H0.
  apply dec_ind; intros n Hn; [intros ?|intros IH _].
  - rewrite dec_small by done. eexists _, _. split; [done|]. lia.
  - destruct IH as (d & r & Hd & ?); [apply Z.div_str_pos; lia|]. exists d, (r ++ [ch_0 + n mod 10]).
    rewrite dec_step, Hd by done. done.
Qed.

Lemma dec_prefix_le v w r : 0 ≤ v → 0 ≤ w → dec w = dec v ++ r → v ≤ w.
Proof.
  revert w. induction r as [|c r IH] using rev_ind; intros w Hv Hw Heq.
  - rewrite app_nil_r in Heq. revert w Hw Heq. pattern v. revert v Hv.
    apply dec_ind; intros v Hv.
    + intros w Hw. rewrite (dec_small v) by done. rewrite (dec_eq w) by done.
      case_match; [intros [=]; lia|]. intros Hl%(f_equal length). rewrite length_app in Hl.
      assert (0 < length (dec (w / 10)))%nat by (apply dec_length_pos; dlia). cbn in Hl. lia.
    + intros IH w Hw. rewrite (dec_step v) by done. rewrite (dec_eq w) by done. case_match.
      * intros Hl%(f_equal length). rewrite length_app in Hl.
        assert (0 < length (dec (v / 10)))%nat by (apply dec_length_pos; dlia). cbn in Hl. lia.
      * intros [Hl Hc]%app_inj_tail. apply IH in Hl; [|dlia]. dlia.
  - rewrite app_assoc, (dec_eq w) in Heq by done. case_match.
    + apply (f_equal length) in Heq. rewrite !length_app in Heq.
      pose proof (dec_length_pos v Hv). cbn in Heq. lia.
    + apply app_inj_tail in Heq as [Heq _]. apply IH in Heq; dlia.
Qed.

Lemma dec_inj v w : 0 ≤ v → 0 ≤ w → dec v = dec w → v = w.
Proof.
  intros Hv Hw Heq. apply Z.le_antisymm.
  - apply (dec_prefix_le v w []); [done..|]. by rewrite app_nil_r.
  - apply (dec_prefix_le w v []); [done..|]. by rewrite app_nil_r.
Qed.

Lemma dec_signed_inj v w : dec_signed v = dec_signed w → v = w.
Proof.
  unfold dec_signed.
  assert (∀ n r, 0 ≤ n → dec n ≠ ch_minus :: r) as Hne.
  { intros n r Hn Heq. pose proof (dec_digits n Hn) as Hd. rewrite Heq in Hd.
    apply Forall_cons in Hd as [Hd _]. unfold is_digit in Hd. lia. }
  repeat case_match; intros Heq.
  - injection Heq as Heq. apply dec_inj in Heq; lia.
  - by destruct (Hne w (dec (- v))); [lia|].
  - by destruct (Hne v (dec (- w))); [lia|].
  - apply dec_inj in Heq; lia.
Qed.

(** ** [ll2string] writes the decimal text *)

Lemma length_dec_le20 v : in_u 64 v → (length (dec v) ≤ 20)%nat.
Proof.
  intros Hv. pose proof (digits10_length v Hv) as H. destruct Hv. revert H.
  unfold digits10. cbn [digits10_fuel].
  repeat match goal with |- context [if ?b then _ else _] => destruct b eqn:? end;
    try (exfalso; dlia); intros Hl;
    match type of Hl with ?d = _ => let k := eval vm_compute in d in change d with k in Hl end; lia.
Qed.

(** Splitting the last bytes off a prefix. *)
Lemma snoc_split (l : bytes) (n : nat) :
  length l = S n → ∃ l' x, l = l' ++ [x] ∧ length l' = n.
Proof.
  destruct l as [|x l _] using rev_ind; [done|]. rewrite length_app. cbn. intros.
  exists l, x. split; [done|lia].
Qed.

Lemma write_two (l : bytes) (x y : Z) post next a b :
  zlen l + 1 = next →
  (dst ← wr1 (l ++ [x; y] ++ post) next a; wr1 dst (next - 1) b) = Some (l ++ [b; a] ++ post).
Proof.
  intros Hn. replace (l ++ [x; y] ++ post) with ((l ++ [x]) ++ y :: post) by (by rewrite <-app_assoc).
  rewrite wr1_app by (rewrite length_app; cbn; lia). mrun.
  rewrite <-app_assoc. cbn [app]. by rewrite wr1_app by lia.
Qed.

Section ll2string.
Context (neg : nat) (full : bytes) (Hneg : (neg ≤ 1)%nat).

Definition ll_inv (st : bytes * Z * Z) : Prop :=
  let '(dst, next, value) := st in
  ∃ pre post, dst = pre ++ post ∧ next = zlen pre - 1 ∧
    length pre = (neg + length (dec value))%nat ∧ dec value ++ post = full ∧ in_u 64 value.

Lemma ll2string_step st :
  ll_inv st →
  (∃ st', ll2string_body st = Some (inl st') ∧ ll_inv st' ∧
     (length (dec st'.2) / 2 < length (dec st.2) / 2)%nat) ∨
  (∃ r, ll2string_body st = Some (inr r) ∧ ll_inv r ∧ r.2 < 100).
Proof using Hneg.
  destruct st as [[dst next] value]. intros (pre & post & -> & -> & Hpre & Hfull & Hv).
  unfold ll2string_body. destruct (100 <=? value) eqn:Hge; cycle 1.
  { right. eexists. split; [done|]. cbn. split; [|lia]. by exists pre, post. }
  left. pose proof (length_dec_le20 _ Hv). rewrite dec_step2 in Hpre, Hfull by lia.
  rewrite length_app in Hpre. cbn in Hpre.
  assert (0 < length (dec (value / 100)))%nat by (apply dec_length_pos; dlia).
  destruct (snoc_split pre (neg + length (dec (value / 100)) + 1)) as (pre1 & y & -> & Hl1); [lia|].
  destruct (snoc_split pre1 (neg + length (dec (value / 100)))) as (l & x & -> & Hl); [lia|].
  rewrite !length_app, <-!app_assoc. cbn [length app].
  rewrite dec_step2, length_app in H by lia. cbn in H.
  rewrite (wrap_small 32), (wrap_small 32) by rlia.
  match goal with |- context [wr1 (l ++ x :: y :: post) ?n ?a] =>
    pose proof (write_two l x y post n a (digits_tab (value mod 100 * 2))) as Hw end.
  cbn [app] in Hw. specialize (Hw ltac:(lia)).
  destruct (wr1 (l ++ x :: y :: post) _ _) as [d|] eqn:Hd; [|done]. revert Hw. mrun. intros ->. mrun.
  eexists. split; [done|]. split.
  - exists l, (digits_tab (value mod 100 * 2) :: digits_tab (value mod 100 * 2 + 1) :: post).
    rewrite <-app_assoc in Hfull. cbn in Hfull. split_and!; [done|lia|done|done|]. unfold in_u in *. dlia.
  - cbn [snd]. rewrite (dec_step2 value), length_app by lia. cbn [length].
    pose proof (Nat.div_add (length (dec (value / 100))) 1 2 ltac:(lia)) as Hdiv.
    change (1 * 2)%nat with 2%nat in Hdiv. rewrite Hdiv. lia.
Qed.
End ll2string.

Lemma ll2string_loop (neg : nat) full pre post value :
  (neg ≤ 1)%nat → length pre = (neg + length (dec value))%nat → dec value ++ post = full →
  in_u 64 value →
  ∃ r, loop 11 ll2string_body (pre ++ post, zlen pre - 1, value) = Some r ∧
    ll_inv neg full r ∧ r.2 < 100.
Proof.
  intros Hneg Hpre Hfull Hv.
  apply (loop_total _ (ll_inv neg full) (λ st, length (dec st.2) / 2)%nat).
  - intros st Hst. destruct (ll2string_step neg full Hneg st Hst) as [|(r & ? & ?)]; [by left|].
    right. by exists r.
  - by exists pre, post.
  - cbn [snd]. pose proof (length_dec_le20 _ Hv).
    assert (length (dec value) / 2 ≤ 20 / 2)%nat by (by apply Nat.Div0.div_le_mono).
    change (20 / 2)%nat with 10%nat in *. lia.
Qed.

(** The whole conversion of a value that fits. *)
Lemma ll2string_fits dst dstlen v :
  in_s 64 v → zlen (dec_signed v) < dstlen ≤ zlen dst →
  ll2string dst dstlen v =
    Some (zlen (dec_signed v), dec_signed v ++ 0 :: drop (S (length (dec_signed v))) dst).
Proof.
  intros Hv Hlen. unfold ll2string.
  set (value := if v <? 0 then - v else v).
  set (neg := if v <? 0 then 1%nat else 0%nat).
  assert (in_u 64 value) as Hval by (unfold value; case_match; rlia).
  assert ((if v <? 0 then (if negb (v =? LLONG_MIN) then - v else u64 (LLONG_MAX + 1), 1)
           else (v, 0)) = (value, Z.of_nat neg)) as ->.
  { unfold value, neg. destruct (v <? 0); [|done]. f_equal. destruct (v =? LLONG_MIN) eqn:E; [|done].
    cbn. assert (v = LLONG_MIN) as -> by lia. done. }
  assert (dec_signed v = replicate neg ch_minus ++ dec value) as Hds
    by (unfold dec_signed, neg, value; by case_match).
  pose proof (length_dec_le20 _ Hval).
  assert (neg ≤ 1)%nat as Hneg by (unfold neg; case_match; lia).
  rewrite digits10_length, Hds in * by done. rewrite length_app, length_replicate in *.
  rewrite (wrap_small 32) by rlia. destruct (dstlen <=? _) eqn:?; [lia|].
  destruct (lookup_lt_is_Some_2 dst (neg + length (dec value))) as [z Hz]; [lia|].
  rewrite <-(take_drop_middle _ _ _ Hz), wr1_app by (rewrite length_take; lia). mrun.
  pose proof (dec_length_pos value ltac:(rlia)).
  rewrite (wrap_small 32) by rlia.
  set (pre := take (neg + length (dec value)) dst).
  assert (length pre = neg + length (dec value))%nat as Hpre by (unfold pre; rewrite length_take; lia).
  set (tail := 0 :: drop (S (neg + length (dec value))) dst).
  destruct (ll2string_loop neg (dec value ++ tail) pre tail value) as ([[d next] w] & Hl & Hinv & Hw);
    [done..|].
  replace (zlen (dec value) + Z.of_nat neg - 1) with (zlen pre - 1) by lia.
  rewrite Hl. mrun. destruct Hinv as (p & q & -> & -> & Hp & Hfull & Hwu). cbn [snd] in Hw.
  assert ((if w <? 10 then wr1 (p ++ q) (zlen p - 1) (ch_0 + u32 w)
    else dst0 ← wr1 (p ++ q) (zlen p - 1) (digits_tab (u32 w * 2 + 1));
         wr1 dst0 (u32 (zlen p - 1 - 1)) (digits_tab (u32 w * 2)))
    = Some (take neg p ++ dec value ++ tail)) as Hlast.
  { rewrite (wrap_small 32 w), <-Hfull by rlia. destruct (w <? 10) eqn:Hw10.
    - rewrite dec_small in * by rlia. cbn in Hp.
      destruct (snoc_split p neg) as (l & x & -> & Hl'); [lia|].
      rewrite <-app_assoc. cbn [app]. rewrite wr1_app by (rewrite length_app; cbn; lia).
      by rewrite take_app_length'.
    - rewrite dec_two in * by rlia. cbn in Hp.
      destruct (snoc_split p (S neg)) as (p1 & y & -> & Hl1); [lia|].
      destruct (snoc_split p1 neg) as (l & x & -> & Hl'); [lia|].
      rewrite !length_app, <-!app_assoc. cbn [length app]. rewrite (wrap_small 32) by rlia.
      rewrite take_app_length' by done. apply (write_two l x y q). lia. }
  rewrite Hlast. mrun. unfold neg in *. destruct (v <? 0) eqn:Hv0; cbn [replicate app] in *.
  - change (Z.of_nat 1 =? 1) with true. cbv iota.
    destruct p as [|x p]; [cbn in *; lia|]. cbn [take app].
    pose proof (wr1_app (@nil Z) x ch_minus (dec value ++ tail) 0 eq_refl) as Hsign.
    cbn [app] in Hsign. rewrite take_0. cbn [app]. rewrite Hsign. mrun. unfold tail, pre.
    rewrite take_drop_middle by done. f_equal. f_equal. lia.
  - change (Z.of_nat 0 =? 1) with false. cbv iota. mrun. unfold tail, pre.
    rewrite take_drop_middle by done. f_equal. f_equal. lia.
Qed.

(** ** [string2ll] accepts exactly the canonical decimal texts *)

Section string2ll.
Context (sign text rest0 : bytes).

(** [v] has been read from [text]; [rest] is left. *)
Definition s2l_inv (st : Z * Z) : Prop :=
  let '(plen, v) := st in
  ∃ rest, text = sign ++ dec v ++ rest ∧ plen = zlen (sign ++ dec v) ∧ 0 < v ≤ ULLONG_MAX.

Definition s2l_post (r : option (Z * Z)) : Prop :=
  match r with
  | None => ∃ v rest, text = sign ++ dec v ++ rest ∧ ULLONG_MAX < v
  | Some (plen, v) =>
    ∃ rest, text = sign ++ dec v ++ rest ∧ plen = zlen (sign ++ dec v) ∧ 0 < v ≤ ULLONG_MAX ∧
      (∀ c r, rest = c :: r → ¬ is_digit c)
  end.

Lemma dec_extend v c : 0 < v → is_digit c → dec (v * 10 + (c - ch_0)) = dec v ++ [c].
Proof.
  intros Hv Hc. unfold is_digit in Hc. rewrite dec_step by lia.
  assert ((v * 10 + (c - ch_0)) / 10 = v) as -> by dlia.
  assert ((v * 10 + (c - ch_0)) mod 10 = c - ch_0) as -> by dlia.
  do 2 f_equal. lia.
Qed.

Lemma string2ll_step st :
  s2l_inv st →
  (∃ st', string2ll_body (text ++ rest0) (zlen text) st = Some (inl st') ∧ s2l_inv st' ∧
     (Z.to_nat (zlen text - st'.1) < Z.to_nat (zlen text - st.1))%nat) ∨
  (∃ r, string2ll_body (text ++ rest0) (zlen text) st = Some (inr r) ∧ s2l_post r).
Proof.
  destruct st as [plen v]. intros (rest & Ht & -> & Hv). unfold string2ll_body.
  destruct rest as [|c rest].
  { right. assert (zlen text = zlen (sign ++ dec v)) as Hl by (by rewrite Ht, app_nil_r).
    destruct (_ <? _) eqn:E; [lia|]. eexists. split; [done|]. exists [].
    split_and!; (done || lia). }
  assert (text ++ rest0 = (sign ++ dec v) ++ c :: rest ++ rest0) as Hsplit
    by (rewrite Ht; by rewrite <-!app_assoc).
  rewrite Hsplit, (rd1_app (sign ++ dec v)) by done. mrun.
  assert (zlen text = zlen (sign ++ dec v) + 1 + zlen rest) as Hlen.
  { rewrite Ht, !length_app. cbn. lia. }
  destruct (_ <? zlen text) eqn:?; [|lia].
  destruct ((ch_0 <=? c) && (c <=? ch_9)) eqn:Hc; cycle 1.
  { right. eexists. split; [done|]. exists (c :: rest). split_and!; [done|done|lia|lia|].
    intros ? ? [= <- <-]. unfold is_digit. lia. }
  assert (is_digit c) as Hd by (unfold is_digit; lia).
  assert (text = sign ++ dec (v * 10 + (c - ch_0)) ++ rest) as Hnext.
  { rewrite dec_extend by (done || lia). rewrite Ht. by rewrite <-!app_assoc. }
  unfold is_digit, ULLONG_MAX in *.
  destruct (_ <? v) eqn:Hov.
  { right. eexists. split; [done|]. exists (v * 10 + (c - ch_0)), rest. split; [done|].
    unfold ULLONG_MAX. dlia. }
  rewrite (wrap_small 64 (v * 10)) by (unfold in_u; dlia).
  destruct (_ <? v * 10) eqn:Hov2.
  { right. eexists. split; [done|]. exists (v * 10 + (c - ch_0)), rest. split; [done|].
    unfold ULLONG_MAX. lia. }
  left. rewrite wrap_small by rlia. eexists. split; [done|]. split.
  - exists rest. split_and!; [done| |lia|unfold ULLONG_MAX; lia].
    rewrite dec_extend by (done || lia). rewrite !length_app. cbn. lia.
  - cbn [fst]. lia.
Qed.

Lemma string2ll_loop c rest :
  text = sign ++ c :: rest → ch_1 ≤ c ≤ ch_9 →
  ∃ r, loop (S (length text)) (string2ll_body (text ++ rest0) (zlen text)) (zlen sign + 1, c - ch_0)
    = Some r ∧ s2l_post r.
Proof.
  intros Ht Hc. assert (dec (c - ch_0) = [c]) as Hd by (rewrite dec_small by lia; f_equal; lia).
  apply (loop_total _ s2l_inv (λ st, Z.to_nat (zlen text - st.1))).
  - apply string2ll_step.
  - exists rest. rewrite Hd. split_and!; [done| |lia|unfold ULLONG_MAX; lia].
    rewrite length_app. cbn. lia.
  - cbn [fst]. rewrite Ht, length_app. cbn. lia.
Qed.

(** The number at the front decides. *)
Lemma s2l_post_dec r w :
  s2l_post r → 0 ≤ w ≤ ULLONG_MAX → text = sign ++ dec w → r = Some (zlen text, w).
Proof.
  intros Hr Hw Ht. destruct r as [[plen v]|]; cbn in Hr.
  - destruct Hr as (rest & Ht' & -> & Hv & Hstop). rewrite Ht in Ht'. apply app_inv_head in Ht'.
    destruct rest as [|c rest].
    + rewrite app_nil_r in Ht'. apply dec_inj in Ht' as ->; [|lia|lia]. by rewrite Ht.
    + pose proof (dec_digits w) as Hdig. rewrite Ht' in Hdig. destruct (Hstop c rest eq_refl).
      apply (proj1 (Forall_app _ _ _)) in Hdig as [_ Hdig]; [|lia]. by apply Forall_cons in Hdig as [? _].
  - destruct Hr as (v & rest & Ht' & Hv). rewrite Ht in Ht'. apply app_inv_head in Ht'.
    apply dec_prefix_le in Ht'; lia.
Qed.
End string2ll.

Definition sign_of (neg : bool) : bytes := if neg then [ch_minus] else [].

Lemma dec_signed_sign (neg : bool) n : 0 < n → dec_signed (if neg then - n else n) = sign_of neg ++ dec n.
Proof.
  intros. unfold dec_signed. destruct neg; case_match; try lia; [|done].
  by rewrite Z.opp_involutive.
Qed.

(** A canonical text other than "0" is a sign and a positive number. *)
Lemma dec_signed_shape (neg : bool) body v :
  (neg = false → ∀ r, body ≠ ch_minus :: r) → sign_of neg ++ body ≠ [ch_0] →
  sign_of neg ++ body = dec_signed v ↔ ∃ n, 0 < n ∧ body = dec n ∧ v = if neg then - n else n.
Proof.
  intros Hminus Hzero. split.
  - intros Heq. assert (v ≠ 0) by (intros ->; by destruct Hzero).
    assert (∃ (b : bool) n, 0 < n ∧ v = if b then - n else n) as (b & n & Hn & ->).
    { destruct (decide (v < 0)); [exists true, (- v)|exists false, v]; lia. }
    rewrite dec_signed_sign in Heq by done. exists n.
    destruct (dec_head n Hn) as (d & r & Hd & ?).
    destruct neg, b; cbn in Heq; rewrite Hd in Heq |- *; simplify_eq; try done; try lia.
    by destruct (Hminus eq_refl (d :: r)).
  - intros (n & Hn & -> & ->). by rewrite dec_signed_sign.
Qed.

Section string2ll_spec.
Context (neg : bool) (body rest0 : bytes).
Context (Hminus : neg = false → ∀ r, body ≠ ch_minus :: r) (Hzero : sign_of neg ++ body ≠ [ch_0]).

Let text := sign_of neg ++ body.

(** The end of [string2ll], after the digit loop. *)
Definition s2l_finish (r : option (Z * Z)) : option Z :=
  match r with
  | None => None
  | Some (plen, v) =>
    if plen <? zlen text then None
    else if neg then
      if u64 (- (LLONG_MIN + 1)) + 1 <? v then None else Some (s64 (u64 (- v)))
    else if LLONG_MAX <? v then None else Some v
  end.

Lemma s2l_finish_spec r v :
  s2l_post (sign_of neg) text r → s2l_finish r = Some v ↔ in_s 64 v ∧ text = dec_signed v.
Proof using Hminus Hzero.
  intros Hr. unfold text in *. rewrite dec_signed_shape by done.
  unfold s2l_finish. change (u64 (- (LLONG_MIN + 1)) + 1) with (2 ^ 63). unfold LLONG_MAX. split.
  - destruct r as [[plen w]|]; [|done]. cbn in Hr.
    destruct Hr as (rest & Ht & -> & Hw & _). destruct (_ <? zlen _) eqn:Hl; [done|].
    assert (rest = []) as ->.
    { apply (f_equal length) in Ht. unfold text in Hl. rewrite !length_app in *.
      destruct rest; [done|]. cbn in *. lia. }
    rewrite app_nil_r in Ht. apply app_inv_head in Ht. unfold ULLONG_MAX in Hw.
    destruct neg; case_match; try done; intros [= <-].
    + assert (s64 (u64 (- w)) = - w) as ->
        by (rewrite swrap_wrap by lia; apply swrap_small; rlia).
      split; [rlia|]. exists w. by split_and!; try lia.
    + split; [rlia|]. exists w. by split_and!; try lia.
  - intros (Hv & n & Hn & -> & ->).
    apply (s2l_post_dec _ _ _ n) in Hr as ->;
      [|unfold ULLONG_MAX; destruct neg; rlia|done].
    rewrite Z.ltb_irrefl.
    destruct neg; (destruct (_ <? n) eqn:?; [rlia|]); [|done].
    f_equal. rewrite swrap_wrap by lia. by apply swrap_small.
Qed.
End string2ll_spec.

Lemma string2ll_spec text rest0 :
  ∃ r, string2ll (text ++ rest0) (zlen text) = Some r ∧
    ∀ v, r = Some v ↔ in_s 64 v ∧ text = dec_signed v.
Proof.
  assert (∀ v, text = dec_signed v → text ≠ []) as Hne.
  { intros v ->. unfold dec_signed. case_match; [done|]. intros Hd.
    pose proof (dec_length_pos v ltac:(lia)) as Hp. rewrite Hd in Hp. cbn in Hp. lia. }
  unfold string2ll. destruct text as [|c0 text0] eqn:Htext.
  { exists None. split; [done|]. intros v. split; [done|]. intros [_ Hv]. by destruct (Hne v). }
  destruct (0 =? zlen _) eqn:E0; [cbn [length] in E0; lia|]. cbn [app]. cbn [rd1]. mrun.
  change (rd1 (c0 :: text0 ++ rest0) 0) with (Some c0). mrun.
  destruct ((zlen (c0 :: text0) =? 1) && (c0 =? ch_0)) eqn:Ezero.
  { assert (text0 = [] ∧ c0 = ch_0) as [-> ->] by (destruct text0; cbn in *; [split; [done|lia]|lia]).
    exists (Some 0). split; [done|]. intros v. change [ch_0] with (dec_signed 0). split.
    - intros [= <-]. split; [unfold in_s; lia|done].
    - by intros [_ ->%dec_signed_inj]. }
  set (neg := c0 =? ch_minus) in *. set (body := if neg then text0 else c0 :: text0).
  assert (c0 :: text0 = sign_of neg ++ body) as Hsb.
  { unfold body. destruct neg eqn:Hn; [|done]. cbn. f_equal. unfold neg in Hn. lia. }
  assert (neg = false → ∀ r, body ≠ ch_minus :: r) as Hminus.
  { intros Hn r. unfold body. rewrite Hn. intros [= ? _]. unfold neg in Hn. lia. }
  assert (sign_of neg ++ body ≠ [ch_0]) as Hzero.
  { rewrite <-Hsb. intros [= -> ->]. cbn in Ezero. done. }
  change (c0 :: text0 ++ rest0) with ((c0 :: text0) ++ rest0). rewrite Hsb in *. clear Hsb Hne.
  assert ((if neg then 1 else 0) = zlen (sign_of neg)) as -> by (by destruct neg).
  destruct body as [|c body'].
  { rewrite app_nil_r, Z.eqb_refl. exists None. split; [done|]. intros v. split; [done|].
    intros [_ Hv]. rewrite <-(app_nil_r (sign_of neg)) in Hv.
    apply dec_signed_shape in Hv as (n & ? & Hd & _); [|done|done].
    destruct (dec_head n) as (? & ? & Hd' & _); [done|]. congruence. }
  destruct (zlen (sign_of neg) =? _) eqn:Hl; [rewrite length_app in Hl; cbn in Hl; lia|].
  rewrite <-app_assoc. cbn [app]. rewrite rd1_app by done. mrun.
  destruct ((ch_1 <=? c) && (c <=? ch_9)) eqn:Hc.
  - rewrite Nat2Z.id.
    destruct (string2ll_loop (sign_of neg) (sign_of neg ++ c :: body') rest0 c body')
      as (r & Hr & Hpost); [done|lia|].
    rewrite <-app_assoc in Hr. cbn [app] in Hr. rewrite Hr. mrun.
    exists (s2l_finish neg (c :: body') r). split.
    + unfold s2l_finish. destruct r as [[plen v]|]; [|done].
      destruct (plen <? _); [done|]. destruct neg; by destruct (_ <? v).
    + intros v. by apply s2l_finish_spec.
  - destruct ((c =? ch_0) && _) eqn:Hc0.
    { exfalso. apply andb_true_iff in Hc0 as [? Hl1]. rewrite length_app in Hl1.
      destruct neg; cbn [sign_of length app] in *; [lia|].
      destruct body'; [|cbn [length] in *; lia]. apply Hzero. f_equal. lia. }
    exists None. split; [done|]. intros v. split; [done|]. intros [_ Hv].
    apply dec_signed_shape in Hv as (n & ? & Hd & _); [|done|done].
    destruct (dec_head n) as (? & ? & Hd' & ?); [done|]. rewrite <-Hd in Hd'. injection Hd' as <- _. lia.
Qed.

(** ** Properties of the number conversions *)

Lemma string2l_run text rest :
  ∃ r, string2l (text ++ rest) (zlen text) = Some r ∧ ∀ v, r = Some v ↔ in_s 64 v ∧ text = dec_signed v.
Proof.
  destruct (string2ll_spec text rest) as (r & Hr & Hspec). unfold string2l. rewrite Hr. mrun.
  destruct r as [w|]; [|by exists None]. pose proof (proj1 (Hspec w) eq_refl) as [Hw _].
  unfold PORT_LONG_MIN, PORT_LONG_MAX. destruct ((w <? _) || _) eqn:E; [rlia|]. by exists (Some w).
Qed.

(** [string2ll] and [string2l] read only the [slen] bytes given, never
    overflow, and accept exactly the canonical decimal texts of 64-bit integers. *)
Theorem string2ll_canonical text rest v :
  (string2ll (text ++ rest) (zlen text) = Some (Some v) ↔ in_s 64 v ∧ text = dec_signed v) ∧
  (string2l (text ++ rest) (zlen text) = Some (Some v) ↔ in_s 64 v ∧ text = dec_signed v) ∧
  is_Some (string2ll (text ++ rest) (zlen text)).
Proof.
  destruct (string2ll_spec text rest) as (r & -> & Hr). destruct (string2l_run text rest) as (r' & -> & Hr').
  by rewrite !(inj_iff Some), Hr, Hr'.
Qed.

(** [ll2string] writes the decimal text and its terminating NUL when they fit in
    [dstlen] bytes, and otherwise returns 0 and leaves the buffer alone; what it
    writes is what [string2ll] reads back, and [digits10] is the number of digits. *)
Theorem ll2string_roundtrip dst dstlen v :
  in_s 64 v → dstlen ≤ zlen dst →
  (zlen (dec_signed v) < dstlen →
    ∃ dst', ll2string dst dstlen v = Some (zlen (dec_signed v), dst') ∧
      take (S (length (dec_signed v))) dst' = dec_signed v ++ [0] ∧
      drop (S (length (dec_signed v))) dst' = drop (S (length (dec_signed v))) dst ∧
      string2ll dst' (zlen (dec_signed v)) = Some (Some v)) ∧
  (dstlen ≤ zlen (dec_signed v) → ll2string dst dstlen v = Some (0, dst)) ∧
  digits10 (Z.abs v) = zlen (dec (Z.abs v)).
Proof.
  intros Hv Hdst. assert (digits10 (Z.abs v) = zlen (dec (Z.abs v))) as Hdig
    by (apply digits10_length; rlia).
  split_and!; [intros Hlen|intros Hlen|done].
  - eexists. split; [by apply ll2string_fits|]. rewrite <-(Nat.add_1_r (length _)).
    change (0 :: ?l) with ([0] ++ l). rewrite app_assoc.
    split_and!; [by rewrite take_app_length' by (rewrite length_app; done)
                |by rewrite drop_app_length' by (rewrite length_app; done)|].
    rewrite <-app_assoc.
    destruct (string2ll_spec (dec_signed v) ([0] ++ drop (length (dec_signed v) + 1) dst))
      as (r & -> & Hr). f_equal. by apply Hr.
  - assert (digits10 (if v <? 0 then - v else v) = zlen (dec (if v <? 0 then - v else v))) as Hd
      by (apply digits10_length; case_match; rlia).
    unfold ll2string. unfold dec_signed in Hlen. pose proof (length_dec_le20 (Z.abs v)) as H20.
    destruct (v <? 0) eqn:Hneg.
    + assert ((if negb (v =? LLONG_MIN) then - v else u64 (LLONG_MAX + 1)) = - v) as ->.
      { destruct (v =? LLONG_MIN) eqn:?; [|done]. by assert (v = LLONG_MIN) as -> by lia. }
      rewrite Hd. replace (Z.abs v) with (- v) in H20 by lia. cbn [length] in Hlen.
      rewrite wrap_small by (specialize (H20 ltac:(rlia)); rlia).
      by destruct (dstlen <=? _) eqn:?; [|lia].
    + rewrite Hd. replace (Z.abs v) with v in H20 by lia.
      rewrite wrap_small by (specialize (H20 ltac:(rlia)); rlia).
      by destruct (dstlen <=? _) eqn:?; [|lia].
Qed.

Lemma ll2string_roundtrip_witness :
  ∃ dst', ll2string (replicate 8 1) 8 (-1200) = Some (5, dst') ∧
    take 6 dst' = [45; 49; 50; 48; 48; 0] ∧
    string2ll dst' 5 = Some (Some (-1200)).
Proof.
  destruct (ll2string_roundtrip (replicate 8 1) 8 (-1200)) as [H _];
    [unfold in_s; lia|vm_compute; discriminate|].
  destruct H as (dst' & H1 & H2 & _ & H3); [vm_compute; reflexivity|].
  exists dst'. split; [exact H1|]. split; [exact H2|exact H3].
Defined.
