(* ===== verification/Lzf.v ===== *)
(** * LZF compression: [lzf_c.c], [lzf_d.c], [lzfP.h]

    Pointers into the input and output are offsets from their starts.  The hash
    table of the compressor is not initialised: it holds arbitrary addresses. *)

From S2P Require Import Prelude.

#[local] Open Scope Z_scope.

Definition HLOG : Z := 16.
Definition HSIZE : Z := Z.shiftl 1 HLOG.
Definition MAX_LIT : Z := Z.shiftl 1 5.
Definition MAX_OFF : Z := Z.shiftl 1 13.
Definition MAX_REF : Z := Z.shiftl 1 8 + Z.shiftl 1 3.

(** ** The compressor *)

(** [FRST(p)]: the first two bytes; [NEXT(v,p)]: shift in the third. *)
Definition FRST (b : bytes) (p : Z) : option Z :=
  x ← rd1 b p; y ← rd1 b (p + 1); Some (Z.lor (Z.shiftl x 8) y).
Definition NEXT (b : bytes) (v p : Z) : option Z :=
  z ← rd1 b (p + 2); Some (Z.lor (u32 (Z.shiftl v 8)) z).
(** [IDX(h)] with [VERY_FAST]. *)
Definition IDX (h : Z) : Z := Z.land (u32 (Z.shiftr h (3 * 8 - HLOG) - u32 (h * 5))) (HSIZE - 1).

(** The table of addresses; undefined outside its [HSIZE] slots. *)
Definition LZF_STATE := Z → Z.
Definition hslot_get (htab : LZF_STATE) (i : Z) : option Z :=
  check (0 <=? i) && (i <? HSIZE) ;; Some (htab i).
Definition hslot_set (htab : LZF_STATE) (i v : Z) : option LZF_STATE :=
  check (0 <=? i) && (i <? HSIZE) ;; Some (λ j, if j =? i then v else htab j).

Record lzf_state := LzfState {
  ip : Z;
  op : Z;
  lit : Z;
  hval : Z;
  htab : LZF_STATE;
  out : bytes;
}.

Section compress.
(** The input: its address, its contents, and its length; the length of the output. *)
Context (in_data : Z) (b : bytes) (in_len out_len : Z).

(** The condition of the match: the distance [off] when [ref] is one. *)
Definition match_at (ip ref : Z) : option (option Z) :=
  let off := u64 (in_data + ip - ref - 1) in
  if (off <? MAX_OFF) && (ip + 4 <? in_len) && (ref >? in_data) then
    let r := ref - in_data in
    x ← rd b r 2; y ← rd b ip 2;
    if bool_decide (x = y) then
      r2 ← rd1 b (r + 2); i2 ← rd1 b (ip + 2);
      Some (if r2 =? i2 then Some off else None)
    else Some None
  else Some None.

(** [len++; if (ref [len] != ip [len]) break;], [n] times; the flag tells of a break. *)
Fixpoint unrolled (r ip : Z) (n : nat) (len : Z) : option (bool * Z) :=
  match n with
  | O => Some (false, len)
  | S n =>
    let len := len + 1 in
    x ← rd1 b (r + len); y ← rd1 b (ip + len);
    if x =? y then unrolled r ip n len else Some (true, len)
  end.

(** [do len++; while (len < maxlen && ref[len] == ip[len]);] *)
Definition match_body (r ip maxlen len : Z) : option (Z + Z) :=
  let len := len + 1 in
  if len <? maxlen then
    x ← rd1 b (r + len); y ← rd1 b (ip + len);
    Some (if x =? y then inl len else inr len)
  else Some (inr len).

Definition match_len (r ip : Z) : option Z :=
  let len := 2 in
  let maxlen := u32 (in_len - ip - len) in
  let maxlen := if maxlen >? MAX_REF then MAX_REF else maxlen in
  '(stop, len) ← (if maxlen >? 16 then unrolled r ip 16 len else Some (false, len));
  if (stop : bool) then Some len else loop (Z.to_nat in_len) (match_body r ip maxlen) len.

(** [op [- lit - 1] = lit - 1;] *)
Definition stop_run (st : lzf_state) : option bytes :=
  wr1 (out st) (op st - lit st - 1) (u8 (lit st - 1)).

(** The rehashing of the last two positions of a match. *)
Definition rehash_match (ip : Z) (htab : LZF_STATE) : option (Z * Z * LZF_STATE) :=
  let ip := ip - 2 in
  hval ← FRST b ip;
  hval ← NEXT b hval ip;
  htab ← hslot_set htab (IDX hval) (in_data + ip);
  let ip := ip + 1 in
  hval ← NEXT b hval ip;
  htab ← hslot_set htab (IDX hval) (in_data + ip);
  Some (ip + 1, hval, htab).

(** A match found: [inl] with the new state, [inr (inl _)] to leave the loop,
    [inr (inr _)] to return 0. *)
Definition match_step (st : lzf_state) (off : Z) : option (lzf_state + (lzf_state + bytes)) :=
  out ← stop_run st;
  let op := op st - (if lit st =? 0 then 1 else 0) in
  if op + 3 + 1 >=? out_len then Some (inr (inr out))
  else
    len ← match_len (ip st - off - 1) (ip st);
    let len := len - 2 in
    let ip := ip st + 1 in
    '(out, op) ← (if len <? 7 then
                    out ← wr1 out op (u8 (Z.shiftr off 8 + Z.shiftl len 5)); Some (out, op + 1)
                  else
                    out ← wr1 out op (u8 (Z.shiftr off 8 + Z.shiftl 7 5));
                    out ← wr1 out (op + 1) (u8 (len - 7)); Some (out, op + 2));
    out ← wr1 out op (u8 off);
    let op := op + 1 + 1 in
    let ip := ip + (len + 1) in
    if ip >=? in_len - 2 then Some (inr (inl (LzfState ip op 0 (hval st) (htab st) out)))
    else
      '(ip, hval, htab) ← rehash_match ip (htab st);
      Some (inl (LzfState ip op 0 hval htab out)).

(** [lit++; *op++ = *ip++;] and the end of a full run. *)
Definition literal (st : lzf_state) : option lzf_state :=
  x ← rd1 b (ip st);
  out ← wr1 (out st) (op st) x;
  let st := LzfState (ip st + 1) (op st + 1) (lit st + 1) (hval st) (htab st) out in
  if lit st =? MAX_LIT then
    out ← stop_run st;
    Some (LzfState (ip st) (op st + 1) 0 (hval st) (htab st) out)
  else Some st.

Definition compress_body (st : lzf_state) : option (lzf_state + (lzf_state + bytes)) :=
  if ip st <? in_len - 2 then
    hval ← NEXT b (hval st) (ip st);
    ref ← hslot_get (htab st) (IDX hval);
    htab ← hslot_set (htab st) (IDX hval) (in_data + ip st);
    let st := LzfState (ip st) (op st) (lit st) hval htab (out st) in
    m ← match_at (ip st) ref;
    match m with
    | Some off => match_step st off
    | None =>
      if op st >=? out_len then Some (inr (inr (out st)))
      else st ← literal st; Some (inl st)
    end
  else Some (inr (inl st)).

(** [while (ip < in_end) ...] *)
Definition rest_body (st : lzf_state) : option (lzf_state + lzf_state) :=
  if ip st <? in_len then st ← literal st; Some (inl st) else Some (inr st).

(** The length of the output, 0 when it does not fit, and the output buffer. *)
Definition lzf_compress (htab0 : LZF_STATE) (out0 : bytes) : option (Z * bytes) :=
  if (in_len =? 0) || (out_len =? 0) then Some (0, out0)
  else
    hval ← FRST b 0;
    r ← loop (S (Z.to_nat in_len)) compress_body (LzfState 0 1 0 hval htab0 out0);
    match r with
    | inr out => Some (0, out)
    | inl st =>
      if op st + 3 >? out_len then Some (0, out st)
      else
        st ← loop (S (Z.to_nat in_len)) rest_body st;
        out ← stop_run st;
        Some (op st - (if lit st =? 0 then 1 else 0), out)
    end.
End compress.

(** ** The decompressor *)

Inductive errno := E2BIG | EINVAL.

(** [*op++ = *ref++;], [n] times *)
Fixpoint copy_ref (n : nat) (out : bytes) (op ref : Z) : option bytes :=
  match n with
  | O => Some out
  | S n => x ← rd1 out ref; out ← wr1 out op x; copy_ref n out (op + 1) (ref + 1)
  end.

Section decompress.
Context (b : bytes) (in_len out_len : Z).

(** One iteration, without the test of the loop: the new [ip], [op] and output,
    or the error that makes the function return 0. *)
Definition literal_run (ctrl ip op : Z) (out : bytes) : option (Z * Z * bytes + errno) :=
  let ctrl := ctrl + 1 in
  if op + ctrl >? out_len then Some (inr E2BIG)
  else if ip + ctrl >? in_len then Some (inr EINVAL)
  else
    xs ← rd b ip ctrl;
    out ← wr out op xs;
    Some (inl (ip + ctrl, op + ctrl, out)).

Definition back_reference (ctrl ip op : Z) (out : bytes) : option (Z * Z * bytes + errno) :=
  let len := Z.shiftr ctrl 5 in
  let ref := op - Z.shiftl (Z.land ctrl 0x1f) 8 - 1 in
  if ip >=? in_len then Some (inr EINVAL)
  else
    r ← (if len =? 7 then
           x ← rd1 b ip;
           Some (if ip + 1 >=? in_len then inr EINVAL else inl (len + x, ip + 1))
         else Some (inl (len, ip)));
    match r with
    | inr e => Some (inr e)
    | inl (len, ip) =>
      x ← rd1 b ip;
      let ref := ref - x in
      let ip := ip + 1 in
      if op + len + 2 >? out_len then Some (inr E2BIG)
      else if ref <? 0 then Some (inr EINVAL)
      else
        out ← copy_ref (Z.to_nat (2 + len)) out op ref;
        Some (inl (ip, op + (2 + len), out))
    end.

Definition decompress_body (st : Z * Z * bytes) : option (Z * Z * bytes + (Z * bytes + errno)) :=
  let '(ip, op, out) := st in
  ctrl ← rd1 b ip;
  let ip := ip + 1 in
  r ← (if ctrl <? Z.shiftl 1 5 then literal_run ctrl ip op out else back_reference ctrl ip op out);
  match r with
  | inr e => Some (inr (inr e))
  | inl (ip, op, out) => Some (if ip <? in_len then inl (ip, op, out) else inr (inl (op, out)))
  end.

(** The length and the output, or 0 with [errno] set. *)
Definition lzf_decompress (out : bytes) : option (Z * bytes + errno) :=
  loop (S (Z.to_nat in_len)) decompress_body (0, 0, out).
End decompress.

(** ** The format: what a sequence of runs and back references stands for *)

Inductive token :=
  | Lit (l : bytes)
  | Ref (off len : Z).

(** 000LLLLL <L+1>; LLLooooo oooooooo; 111ooooo LLLLLLLL oooooooo *)
Definition encode (t : token) : bytes :=
  match t with
  | Lit l => (zlen l - 1) :: l
  | Ref off len =>
    if len <? 7 then [off / 256 + 32 * len; off mod 256]
    else [off / 256 + 224; len - 7; off mod 256]
  end.

(** [n] more bytes, each the one at distance [off + 1]. *)
Fixpoint repeat_from (n : nat) (off : Z) (o : bytes) : bytes :=
  match n with
  | O => o
  | S n => repeat_from n off (o ++ [nth (length o - Z.to_nat (off + 1)) o 0])
  end.

Definition expand1 (o : bytes) (t : token) : bytes :=
  match t with
  | Lit l => o ++ l
  | Ref off len => repeat_from (Z.to_nat (len + 2)) off o
  end.

Definition token_ok (o : bytes) (t : token) : Prop :=
  match t with
  | Lit l => (1 ≤ length l ≤ 32)%nat
  | Ref off len => 0 ≤ off < MAX_OFF ∧ off < zlen o ∧ 1 ≤ len < 263
  end.

Definition expand (ts : list token) : bytes := foldl expand1 [] ts.
Definition encodes (ts : list token) : bytes := mjoin (encode <$> ts).

(** Each token fits the output of those before it. *)
Inductive tokens_ok : list token → Prop :=
  | tokens_nil : tokens_ok []
  | tokens_snoc ts t : tokens_ok ts → token_ok (expand ts) t → tokens_ok (ts ++ [t]).

Lemma expand_snoc ts t : expand (ts ++ [t]) = expand1 (expand ts) t.
Proof. apply foldl_snoc. Qed.

Lemma encodes_snoc ts t : encodes (ts ++ [t]) = encodes ts ++ encode t.
Proof. unfold encodes. rewrite fmap_app, join_app. simpl. by rewrite app_nil_r. Qed.

Lemma encode_pos t : (1 ≤ length (encode t))%nat.
Proof. destruct t; simpl; [lia|]. destruct (_ <? 7); simpl; lia. Qed.

(** A stretch of [b] that repeats what is [off + 1] bytes before it. *)
Lemma repeat_from_take b off n p :
  (p + n ≤ length b)%nat → 0 ≤ off < Z.of_nat p →
  (∀ j, (j < n)%nat → b !! (p - Z.to_nat (off + 1) + j)%nat = b !! (p + j)%nat) →
  repeat_from n off (take p b) = take (p + n) b.
Proof.
  revert p. induction n as [|n IH]; intros p Hl Hoff Hj; simpl.
  { by rewrite Nat.add_0_r. }
  destruct (lookup_lt_is_Some_2 b p) as [x Hx]; [lia|].
  assert (nth (length (take p b) - Z.to_nat (off + 1)) (take p b) 0 = x) as ->.
  { rewrite length_take_le by lia. apply nth_lookup_Some. rewrite lookup_take_lt by lia.
    rewrite <-(Nat.add_0_r (p - _)), Hj by lia. by rewrite Nat.add_0_r. }
  rewrite <-take_S_r by done. rewrite IH; [f_equal; lia|lia|lia|].
  intros j Hlt. specialize (Hj (S j)). rewrite <-!plus_n_Sm in Hj.
  replace (S p - Z.to_nat (off + 1) + j)%nat with (S (p - Z.to_nat (off + 1) + j))%nat by lia.
  apply Hj. lia.
Qed.

Lemma length_repeat_from n off o : length (repeat_from n off o) = (length o + n)%nat.
Proof. revert o. induction n as [|n IH]; intros o; simpl; [lia|]. rewrite IH, length_app. simpl. lia. Qed.

(** ** Matches *)

Lemma rd1_total (c : bytes) i : 0 ≤ i < zlen c → ∃ x, rd1 c i = Some x.
Proof. intros. rewrite rd1_lookup by lia. apply lookup_lt_is_Some_2. lia. Qed.

Lemma rd_rd1 (c : bytes) i n xs j : rd c i n = Some xs → 0 ≤ j < n → rd1 c (i + j) = rd1 xs j.
Proof.
  intros (H1 & H2 & H3 & H4 & pre & post & -> & Hp)%rd_Some Hj. rewrite !rd1_lookup by lia.
  rewrite lookup_app_r, lookup_app_l by lia. f_equal. lia.
Qed.

Section matches.
Context (in_data : Z) (b : bytes).
Context (Haddr : MAX_OFF ≤ in_data) (Hend : in_data + zlen b < 2 ^ 64).

(** The first [n] bytes at [r] and [ip] agree. *)
Definition agree (r ip n : Z) : Prop := ∀ j, 0 ≤ j < n → rd1 b (r + j) = rd1 b (ip + j).

Lemma agree_S r ip n : agree r ip n → rd1 b (r + n) = rd1 b (ip + n) → agree r ip (n + 1).
Proof. intros Ha Hn j Hj. destruct (decide (j = n)) as [->|]; [done|]. apply Ha. lia. Qed.

(** The test on a pair of bytes inside of the input. *)
Lemma pair_run r ip n :
  0 ≤ r < ip → 0 ≤ n → ip + n < zlen b → agree r ip n →
  ∃ x y, rd1 b (r + n) = Some x ∧ rd1 b (ip + n) = Some y ∧ ((x =? y) = true → agree r ip (n + 1)).
Proof.
  intros Hr Hn Hl Ha. destruct (rd1_total b (r + n)) as [x Hx]; [lia|].
  destruct (rd1_total b (ip + n)) as [y Hy]; [lia|]. exists x, y.
  split; [done|]. split; [done|]. intros Hxy. apply agree_S; [done|]. rewrite Hx, Hy. f_equal. lia.
Qed.

Lemma unrolled_run r ip n len :
  0 ≤ r < ip → 0 ≤ len → ip + len + Z.of_nat n < zlen b → agree r ip (len + 1) →
  ∃ stop len', unrolled b r ip n len = Some (stop, len') ∧ len ≤ len' ≤ len + Z.of_nat n ∧
    (if (stop : bool) then len < len' ∧ agree r ip len'
     else len' = len + Z.of_nat n ∧ agree r ip (len' + 1)).
Proof.
  intros Hr. revert len. induction n as [|n IH]; intros len Hlen Hl Ha; simpl.
  { exists false, len. split; [done|]. split; [lia|]. split; [lia|done]. }
  destruct (pair_run r ip (len + 1)) as (x & y & -> & -> & Hxy); [lia..|done|]. simpl.
  destruct (x =? y) eqn:E.
  - destruct (IH (len + 1)) as (stop & len' & -> & Hb & H); [lia|lia|by apply Hxy|].
    exists stop, len'. split; [done|]. split; [lia|]. destruct stop; [split; [lia|tauto]|]. split; [lia|tauto].
  - exists true, (len + 1). split; [done|]. split; [lia|]. split; [lia|done].
Qed.

Lemma match_loop_run r ip maxlen len fuel :
  0 ≤ r < ip → 0 ≤ len → ip + maxlen ≤ zlen b → ip + len + 1 ≤ zlen b → maxlen - len < Z.of_nat fuel →
  (0 < fuel)%nat → agree r ip (len + 1) →
  ∃ len', loop fuel (match_body b r ip maxlen) len = Some len' ∧
    len < len' ≤ Z.max maxlen (len + 1) ∧ agree r ip len'.
Proof.
  intros Hr Hlen Hm Hl Hf Hf0 Ha.
  destruct (loop_total (match_body b r ip maxlen)
    (λ l, len ≤ l ∧ (l = len ∨ l < maxlen) ∧ agree r ip (l + 1)) (λ l, Z.to_nat (maxlen - l))
    (λ l, len < l ≤ Z.max maxlen (len + 1) ∧ agree r ip l)) with (fuel := fuel) (s := len)
    as (l' & H & ? & ?); [|split; [lia|]; split; [by left|done]|lia|by exists l'].
  intros l (Hge & Hlt & Hag). unfold match_body. destruct (l + 1 <? maxlen) eqn:E.
  2: { right. eexists. split; [done|]. split; [lia|done]. }
  destruct (pair_run r ip (l + 1)) as (x & y & -> & -> & Hxy); [lia..|done|]. simpl.
  destruct (x =? y) eqn:E2.
  - left. eexists. split; [done|]. split; [|lia]. split; [lia|]. split; [right; lia|]. by apply Hxy.
  - right. eexists. split; [done|]. split; [lia|done].
Qed.

Lemma match_len_run r ip :
  0 ≤ r < ip → ip + 4 < zlen b → zlen b < 2 ^ 32 → agree r ip 3 →
  ∃ len, match_len b (zlen b) r ip = Some len ∧ 3 ≤ len ≤ MAX_REF ∧ ip + len ≤ zlen b ∧ agree r ip len.
Proof.
  intros Hr Hip Hb Ha. unfold match_len.
  rewrite wrap_small by (split; lia). set (m := if _ >? MAX_REF then _ else _).
  assert (3 ≤ m ≤ MAX_REF ∧ ip + m + 2 ≤ zlen b) as [Hm Hmb].
  { unfold m. change MAX_REF with 264. destruct (_ >? 264) eqn:?; lia. }
  destruct (m >? 16) eqn:E.
  - destruct (unrolled_run r ip 16 2) as (stop & len & -> & Hlen & H); [lia|lia|lia|done|]. simpl.
    change MAX_REF with 264 in *. destruct stop.
    + exists len. split; [done|]. split; [lia|]. split; [lia|tauto].
    + destruct H as [-> H].
      destruct (match_loop_run r ip m (2 + Z.of_nat 16) (Z.to_nat (zlen b)))
        as (l & -> & Hl & Hag); [lia..|done|].
      exists l. split; [done|]. split; [lia|]. split; [lia|done].
  - simpl. destruct (match_loop_run r ip m 2 (Z.to_nat (zlen b))) as (l & -> & Hl & Hag); [lia..|done|].
    exists l. split; [done|]. split; [lia|]. split; [lia|done].
Qed.

(** A match is an earlier place of the input with the same first three bytes,
    whatever address the table held. *)
Lemma match_at_run ip ref :
  0 ≤ ip → ip + 2 < zlen b → in_u 64 ref →
  ∃ m, match_at in_data b (zlen b) ip ref = Some m ∧
    (∀ off, m = Some off → 0 ≤ off < MAX_OFF ∧ off < ip ∧ ip + 4 < zlen b ∧ agree (ip - off - 1) ip 3).
Proof.
  intros Hip Hl [Hr0 Hr]. unfold match_at. set (off := u64 _).
  change MAX_OFF with 8192 in *. destruct ((off <? 8192) && _ && _) eqn:E; [|by eexists].
  assert (off = in_data + ip - ref - 1) as Hoff.
  { unfold off, wrap in *. pose proof (Z.div_mod (in_data + ip - ref - 1) (2 ^ 64)).
    pose proof (Z.mod_pos_bound (in_data + ip - ref - 1) (2 ^ 64)). lia. }
  assert (0 ≤ off) by (apply Z.mod_pos_bound; lia).
  destruct (rd_total b (ref - in_data) 2) as [x Hx]; [lia..|].
  destruct (rd_total b ip 2) as [y Hy]; [lia..|]. rewrite Hx, Hy. cbn [mbind option_bind].
  case_bool_decide as Hxy; [|by eexists].
  destruct (rd1_total b (ref - in_data + 2)) as [r2 Hr2]; [lia|].
  destruct (rd1_total b (ip + 2)) as [i2 Hi2]; [lia|]. rewrite Hr2, Hi2. simpl.
  eexists. split; [done|]. intros o. destruct (r2 =? i2) eqn:E2; [|done]. intros [= <-].
  split; [lia|]. split; [lia|]. split; [lia|].
  replace (ip - off - 1) with (ref - in_data) by lia. subst y. change 3 with (2 + 1). apply agree_S.
  - intros j Hj. by rewrite (rd_rd1 _ _ _ _ _ Hx Hj), (rd_rd1 _ _ _ _ _ Hy Hj).
  - rewrite Hr2, Hi2. f_equal. lia.
Qed.
End matches.

(** ** The compressor writes a sequence of tokens that expands to its input *)

Section compressor.
Context (in_data : Z) (b : bytes) (out_len : Z).
Context (Haddr : MAX_OFF ≤ in_data) (Hend : in_data + zlen b < 2 ^ 64).
Context (Hlen2 : 2 ≤ zlen b) (Hlen : zlen b < 2 ^ 32) (Hout : 0 ≤ out_len).

Implicit Types (st : lzf_state) (ts : list token).

Definition slice (i n : Z) : bytes := take (Z.to_nat n) (drop (Z.to_nat i) b).

Lemma length_slice i n : 0 ≤ i → 0 ≤ n → i + n ≤ zlen b → zlen (slice i n) = n.
Proof. intros. unfold slice. rewrite length_take, length_drop. lia. Qed.

(** The tokens written, the slot of the control byte of the open run, its bytes. *)
Record lz_inv st ts : Prop := LzInv {
  li_lit : 0 ≤ lit st ≤ MAX_LIT;
  li_ip : lit st ≤ ip st ≤ zlen b;
  li_op : op st = zlen (encodes ts) + 1 + lit st;
  li_ok : tokens_ok ts;
  li_expand : expand ts = take (Z.to_nat (ip st - lit st)) b;
  li_out : ∃ c rest, out st = encodes ts ++ c :: slice (ip st - lit st) (lit st) ++ rest;
  li_len : zlen (out st) = out_len + 1;
  li_htab : ∀ i, in_u 64 (htab st i);
}.

Lemma lz_op_range st ts : lz_inv st ts → 0 < op st ≤ out_len + 1.
Proof.
  intros [Hl Hip Ho _ _ (c & rest & Hr) Hlo _]. rewrite Hr in Hlo.
  rewrite length_app, length_cons, length_app in Hlo.
  pose proof (length_slice (ip st - lit st) (lit st)). lia.
Qed.

(** Closing the run: an empty one is undone. *)
Lemma stop_run_run st ts :
  lz_inv st ts →
  ∃ ts' out' rest, stop_run st = Some out' ∧
    op st - (if lit st =? 0 then 1 else 0) = zlen (encodes ts') ∧ tokens_ok ts' ∧
    expand ts' = take (Z.to_nat (ip st)) b ∧ out' = encodes ts' ++ rest ∧ zlen out' = out_len + 1.
Proof.
  intros [Hl Hip Ho Hok He (c & rest & Hr) Hlo _]. unfold stop_run. rewrite Hr in *.
  rewrite (wr1_app _ _ (u8 (lit st - 1))) by lia.
  pose proof (length_slice (ip st - lit st) (lit st)) as Hs.
  change MAX_LIT with 32 in Hl. destruct (lit st =? 0) eqn:E.
  - exists ts. eexists. exists (u8 (lit st - 1) :: slice (ip st - lit st) (lit st) ++ rest).
    split; [done|]. split; [lia|]. split; [done|].
    split; [rewrite He; do 2 f_equal; lia|]. split; [done|].
    rewrite <-Hlo, !length_app. done.
  - exists (ts ++ [Lit (slice (ip st - lit st) (lit st))]). eexists. exists rest.
    split; [done|]. rewrite encodes_snoc. split.
    { rewrite length_app. simpl. lia. }
    split; [constructor; [done|]; simpl; lia|].
    split.
    { rewrite expand_snoc. simpl. rewrite He. unfold slice.
      rewrite take_take_drop. f_equal. lia. }
    split.
    { rewrite <-app_assoc. simpl. do 2 f_equal. rewrite Hs, wrap_small by (try split; lia). lia. }
    rewrite <-Hlo, !length_app. done.
Qed.

(** A new run is opened behind complete tokens. *)
Lemma open_run ts out' rest ip' hval' htab' :
  tokens_ok ts → out' = encodes ts ++ rest → zlen out' = out_len + 1 → zlen (encodes ts) ≤ out_len →
  expand ts = take (Z.to_nat ip') b → 0 ≤ ip' ≤ zlen b → (∀ i, in_u 64 (htab' i)) →
  lz_inv (LzfState ip' (zlen (encodes ts) + 1) 0 hval' htab' out') ts.
Proof.
  intros Hok Ho Hl Hle He Hip Ht. destruct rest as [|c rest].
  { rewrite app_nil_r in Ho. subst out'. lia. }
  constructor; simpl; try done; [lia|rewrite He; do 2 f_equal; lia|by exists c, rest].
Qed.

Lemma literal_step st ts :
  lz_inv st ts → lit st < MAX_LIT → ip st < zlen b → op st < out_len →
  ∃ st' ts', literal b st = Some st' ∧ lz_inv st' ts' ∧ lit st' < MAX_LIT ∧ ip st' = ip st + 1 ∧
    (op st' = op st + 1 ∨ op st' = op st + 2 ∧ lit st' = 0).
Proof.
  intros Hinv Hlit Hip Hop. pose proof Hinv as [Hl Hi Ho Hok He (c & rest & Hr) Hlo Ht].
  change MAX_LIT with 32 in *. unfold literal.
  destruct (rd1_total b (ip st)) as [x Hx]; [lia|]. rewrite Hx, bind_Some_eq.
  pose proof (length_slice (ip st - lit st) (lit st)) as Hs.
  destruct rest as [|y rest].
  { rewrite Hr, length_app, length_cons, app_nil_r in Hlo. lia. }
  assert (wr1 (out st) (op st) x =
    Some (encodes ts ++ c :: slice (ip st - lit st) (lit st + 1) ++ rest)) as Hw.
  { rewrite Hr. rewrite app_comm_cons, app_assoc. rewrite (wr1_app _ _ x).
    2:{ rewrite !length_app, length_cons. lia. }
    rewrite <-app_assoc. f_equal. simpl. do 2 f_equal. unfold slice.
    replace (Z.to_nat (lit st + 1)) with (S (Z.to_nat (lit st))) by lia.
    rewrite (take_S_r _ _ x); [by rewrite <-app_assoc|]. rewrite lookup_drop.
    rewrite rd1_lookup in Hx by lia. rewrite <-Hx. f_equal. lia. }
  rewrite Hw, bind_Some_eq. cbv zeta. set (st1 := LzfState _ _ _ _ _ _).
  assert (lz_inv st1 ts) as Hinv1.
  { constructor; unfold st1; simpl; try done; [change MAX_LIT with 32; lia|lia|lia| | |].
    - rewrite He. do 2 f_equal. lia.
    - exists c, rest. do 4 f_equal; lia.
    - rewrite <-Hlo, Hr, !length_app, !length_cons, !length_app, !length_cons.
      pose proof (length_slice (ip st - lit st) (lit st + 1)). lia. }
  change (lit st1) with (lit st + 1). change MAX_LIT with 32. destruct (lit st + 1 =? 32) eqn:E.
  - destruct (stop_run_run _ _ Hinv1) as (ts' & out' & rest' & -> & Hop' & Hok' & He' & Ho' & Hl').
    rewrite bind_Some_eq. do 2 eexists. split; [done|].
    change (lit st1) with (lit st + 1) in Hop'. change (op st1) with (op st + 1) in *.
    destruct (lit st + 1 =? 0) eqn:E0; [lia|].
    replace (op st + 1 + 1) with (zlen (encodes ts') + 1) by lia.
    split; [eapply open_run; try done; unfold st1 in *; simpl in *; lia|].
    simpl. split; [lia|]. split; [done|]. right. lia.
  - exists st1, ts. split; [done|]. split; [done|]. unfold st1. simpl. split; [lia|]. split; [done|]. by left.
Qed.

Lemma IDX_range h : (0 <=? IDX h) && (IDX h <? HSIZE) = true.
Proof.
  unfold IDX. change (HSIZE - 1) with (Z.ones 16). rewrite Z.land_ones by lia.
  pose proof (Z.mod_pos_bound (u32 (Z.shiftr h (3 * 8 - HLOG) - u32 (h * 5))) (2 ^ 16)).
  change HSIZE with (2 ^ 16). lia.
Qed.

Lemma hslot_set_run ht h v :
  (∀ i, in_u 64 (ht i)) → in_u 64 v → ∃ ht', hslot_set ht (IDX h) v = Some ht' ∧ ∀ i, in_u 64 (ht' i).
Proof.
  intros Ht Hv. unfold hslot_set. rewrite IDX_range. eexists. split; [done|].
  intros i. simpl. by destruct (i =? IDX h).
Qed.

Lemma NEXT_run v p : 0 ≤ p → p + 2 < zlen b → ∃ h, NEXT b v p = Some h.
Proof.
  intros. unfold NEXT. destruct (rd1_total b (p + 2)) as [x ->]; [lia|]. by eexists.
Qed.

Lemma FRST_run p : 0 ≤ p → p + 1 < zlen b → ∃ h, FRST b p = Some h.
Proof.
  intros. unfold FRST. destruct (rd1_total b p) as [x ->]; [lia|].
  destruct (rd1_total b (p + 1)) as [y ->]; [lia|]. by eexists.
Qed.

Lemma address_in_u p : 0 ≤ p ≤ zlen b → in_u 64 (in_data + p).
Proof. change MAX_OFF with 8192 in Haddr. split; lia. Qed.

Lemma rehash_match_run p ht :
  2 ≤ p → p + 2 < zlen b → (∀ i, in_u 64 (ht i)) →
  ∃ h ht', rehash_match in_data b p ht = Some (p, h, ht') ∧ ∀ i, in_u 64 (ht' i).
Proof.
  intros Hp Hl Ht. unfold rehash_match.
  destruct (FRST_run (p - 2)) as [h1 ->]; [lia..|]. rewrite bind_Some_eq.
  destruct (NEXT_run h1 (p - 2)) as [h2 ->]; [lia..|]. rewrite bind_Some_eq.
  destruct (hslot_set_run ht h2 (in_data + (p - 2)) Ht) as (ht1 & -> & Ht1); [apply address_in_u; lia|].
  rewrite bind_Some_eq. cbv zeta. destruct (NEXT_run h2 (p - 2 + 1)) as [h3 ->]; [lia..|]. rewrite bind_Some_eq.
  destruct (hslot_set_run ht1 h3 (in_data + (p - 2 + 1)) Ht1) as (ht2 & -> & Ht2); [apply address_in_u; lia|].
  rewrite bind_Some_eq. exists h3, ht2. split; [|done]. do 2 f_equal. f_equal. lia.
Qed.

Lemma length_wr1 (c : bytes) i x : 0 ≤ i < zlen c → ∃ c', wr1 c i x = Some c' ∧ length c' = length c.
Proof. intros. rewrite wr1_insert by done. eexists. split; [done|]. apply length_insert. Qed.

(** Writing behind a known prefix. *)
Lemma wr1_extend (pre : bytes) y rest x : wr1 (pre ++ y :: rest) (zlen pre) x = Some ((pre ++ [x]) ++ rest).
Proof. rewrite (wr1_app pre y x rest) by done. by rewrite <-app_assoc. Qed.

(** The bytes of a back reference. *)
Lemma write_ref pre rest off len :
  0 ≤ off < MAX_OFF → 1 ≤ len < 263 → (3 ≤ length rest)%nat →
  ∃ out1, (if len <? 7 then
             out ← wr1 (pre ++ rest) (zlen pre) (u8 (Z.shiftr off 8 + Z.shiftl len 5)); Some (out, zlen pre + 1)
           else
             out ← wr1 (pre ++ rest) (zlen pre) (u8 (Z.shiftr off 8 + Z.shiftl 7 5));
             out ← wr1 out (zlen pre + 1) (u8 (len - 7)); Some (out, zlen pre + 2)) =
      Some (out1, zlen pre + (if len <? 7 then 1 else 2)) ∧
    wr1 out1 (zlen pre + (if len <? 7 then 1 else 2)) (u8 off) =
      Some (pre ++ encode (Ref off len) ++ drop (if len <? 7 then 2 else 3) rest).
Proof.
  intros Ho Hl Hr. change MAX_OFF with 8192 in Ho.
  destruct rest as [|y1 [|y2 [|y3 rest]]]; simpl in Hr; try lia.
  rewrite !Z.shiftr_div_pow2, !Z.shiftl_mul_pow2 by lia. change (2 ^ 8) with 256. change (2 ^ 5) with 32.
  cbn [encode].
  destruct (len <? 7) eqn:E.
  - rewrite wr1_extend, bind_Some_eq. eexists. split; [done|].
    replace (zlen pre + 1) with (zlen (pre ++ [u8 (off / 256 + len * 32)]))
      by (rewrite length_app; simpl; lia).
    rewrite wr1_extend, <-!app_assoc. change (u8 off) with (off mod 256).
    replace (u8 (off / 256 + len * 32)) with (off / 256 + 32 * len) by (rewrite wrap_small by (split; dlia); lia).
    done.
  - rewrite wr1_extend, bind_Some_eq.
    replace (zlen pre + 1) with (zlen (pre ++ [u8 (off / 256 + 7 * 32)]))
      by (rewrite length_app; simpl; lia).
    rewrite wr1_extend, bind_Some_eq. eexists. split; [done|].
    replace (zlen pre + 2) with (zlen ((pre ++ [u8 (off / 256 + 7 * 32)]) ++ [u8 (len - 7)]))
      by (rewrite !length_app; simpl; lia).
    rewrite wr1_extend, <-!app_assoc. change (u8 off) with (off mod 256).
    replace (u8 (off / 256 + 7 * 32)) with (off / 256 + 224) by (rewrite wrap_small by (split; dlia); lia).
    rewrite (wrap_small 8 (len - 7)) by (split; lia). done.
Qed.

(** The tokens of the output extended by a match. *)
Lemma match_expand ts p off k :
  expand ts = take (Z.to_nat p) b → tokens_ok ts → 0 ≤ off < MAX_OFF → off < p → 3 ≤ k ≤ MAX_REF →
  p + k ≤ zlen b → agree b (p - off - 1) p k →
  tokens_ok (ts ++ [Ref off (k - 2)]) ∧ expand (ts ++ [Ref off (k - 2)]) = take (Z.to_nat (p + k)) b.
Proof.
  intros He Hok Ho Hop Hk Hl Ha. change MAX_REF with 264 in Hk. split.
  - constructor; [done|]. rewrite He. simpl. rewrite length_take. lia.
  - rewrite expand_snoc. simpl. rewrite He, repeat_from_take; [f_equal; lia|lia|lia|].
    intros j Hj. specialize (Ha (Z.of_nat j)). rewrite !rd1_lookup in Ha by lia.
    replace (Z.to_nat (p - off - 1 + Z.of_nat j)) with (Z.to_nat p - Z.to_nat (off + 1) + j)%nat in Ha by lia.
    replace (Z.to_nat (p + Z.of_nat j)) with (Z.to_nat p + j)%nat in Ha by lia. apply Ha. lia.
Qed.

(** What a step leads to: a state from which the loop goes on, or behind it, or
    the end of the function, with an output buffer of the same size. *)
Definition stepped st (r : lzf_state + (lzf_state + bytes)) : Prop :=
  match r with
  | inl st' => ∃ ts', lz_inv st' ts' ∧ lit st' < MAX_LIT ∧ ip st < ip st'
  | inr (inl st') => ∃ ts', lz_inv st' ts' ∧ lit st' < MAX_LIT ∧ zlen b - 2 ≤ ip st'
  | inr (inr out') => zlen out' = out_len + 1
  end.

Lemma match_step_run st ts off :
  lz_inv st ts → 0 ≤ off < MAX_OFF → off < ip st → ip st + 4 < zlen b →
  agree b (ip st - off - 1) (ip st) 3 →
  ∃ r, match_step in_data b (zlen b) out_len st off = Some r ∧ stepped st r.
Proof.
  intros Hinv Ho Hoi Hip Ha. unfold match_step.
  destruct (stop_run_run _ _ Hinv) as (ts' & out' & rest & -> & Hop & Hok & He & Hout' & Hl).
  rewrite bind_Some_eq, Hop. destruct (zlen (encodes ts') + 3 + 1 >=? out_len) eqn:E.
  { eexists. split; [done|]. exact Hl. }
  destruct (match_len_run b (ip st - off - 1) (ip st)) as (k & -> & Hk & Hkb & Hag); [lia..|done|].
  rewrite bind_Some_eq. change MAX_REF with 264 in Hk. change MAX_OFF with 8192 in Ho.
  assert (3 ≤ length rest)%nat by (subst out'; rewrite length_app in Hl; lia).
  destruct (write_ref (encodes ts') rest off (k - 2)) as (out1 & Hw1 & Hw2);
    [change MAX_OFF with 8192; lia|lia|done|].
  cbv zeta. subst out'. rewrite Hw1, bind_Some_eq. cbv beta iota. rewrite Hw2, bind_Some_eq.
  destruct (match_expand ts' (ip st) off k He Hok) as [Hok2 He2];
    [done|done|change MAX_REF with 264; lia|done|done|].
  assert (zlen (encodes ts') + (if k - 2 <? 7 then 1 else 2) + 1 = zlen (encodes (ts' ++ [Ref off (k - 2)]))) as ->.
  { rewrite encodes_snoc, length_app. simpl. destruct (k - 2 <? 7); simpl; lia. }
  replace (ip st + 1 + (k - 2 + 1)) with (ip st + k) by lia.
  rewrite app_assoc, <-encodes_snoc. set (ts2 := ts' ++ [Ref off (k - 2)]) in *.
  set (rest2 := drop _ rest).
  assert (zlen (encodes ts2 ++ rest2) = out_len + 1) as Hl2.
  { unfold ts2, rest2. rewrite encodes_snoc, !length_app, length_drop, <-Hl, length_app.
    simpl. destruct (k - 2 <? 7); simpl; lia. }
  assert (zlen (encodes ts2) ≤ out_len).
  { unfold ts2. rewrite encodes_snoc, length_app. simpl. destruct (k - 2 <? 7); simpl; lia. }
  destruct (ip st + k >=? zlen b - 2) eqn:E2.
  - eexists. split; [done|]. exists ts2. simpl. split; [|change MAX_LIT with 32; lia].
    eapply open_run; try done; [lia|apply Hinv].
  - destruct (rehash_match_run (ip st + k) (htab st)) as (h & ht & -> & Ht); [lia|lia|apply Hinv|].
    rewrite bind_Some_eq. eexists. split; [done|]. exists ts2. simpl. split; [|change MAX_LIT with 32; lia].
    eapply open_run; try done. lia.
Qed.

Lemma lz_inv_htab st ts h ht :
  lz_inv st ts → (∀ i, in_u 64 (ht i)) → lz_inv (LzfState (ip st) (op st) (lit st) h ht (out st)) ts.
Proof. intros [] Ht. by constructor. Qed.

Lemma compress_body_run st ts :
  lz_inv st ts → lit st < MAX_LIT →
  ∃ r, compress_body in_data b (zlen b) out_len st = Some r ∧ stepped st r.
Proof.
  intros Hinv Hlit. pose proof (li_ip _ _ Hinv) as Hip. pose proof (li_lit _ _ Hinv) as Hl0. unfold compress_body.
  destruct (ip st <? zlen b - 2) eqn:E.
  2:{ eexists. split; [done|]. exists ts. split; [done|]. split; [done|lia]. }
  destruct (NEXT_run (hval st) (ip st)) as [h ->]; [lia..|]. rewrite bind_Some_eq.
  unfold hslot_get. rewrite IDX_range, bind_Some_eq.
  destruct (hslot_set_run (htab st) h (in_data + ip st)) as (ht & -> & Ht);
    [apply Hinv|apply address_in_u; lia|]. rewrite bind_Some_eq. cbv zeta.
  destruct (match_at_run in_data b Haddr Hend (ip st) (htab st (IDX h))) as (m & Hm & Hoff);
    [lia|lia|apply Hinv|].
  cbn [ip op lit]. rewrite Hm, bind_Some_eq.
  pose proof (lz_inv_htab st ts h ht Hinv Ht) as Hinv'. destruct m as [off|].
  - destruct (Hoff off eq_refl) as (H1 & H2 & H3 & H4). exact (match_step_run _ ts off Hinv' H1 H2 H3 H4).
  - cbn [op out]. destruct (op st >=? out_len) eqn:E2.
    + eexists. split; [done|]. apply Hinv.
    + destruct (literal_step _ ts Hinv') as (st' & ts' & -> & Hi & Hli & Hipp & _); [done|simpl; lia|simpl; lia|].
      rewrite bind_Some_eq. eexists. split; [done|]. exists ts'. split; [done|]. split; [done|].
      simpl in Hipp. lia.
Qed.

(** The last two bytes at most are left, and there is room for them. *)
Lemma rest_run st ts :
  lz_inv st ts → lit st < MAX_LIT → zlen b - 2 ≤ ip st → op st + 3 ≤ out_len →
  ∃ st' ts', loop (S (Z.to_nat (zlen b))) (rest_body b (zlen b)) st = Some st' ∧ lz_inv st' ts' ∧
    ip st' = zlen b ∧ (lit st' ≠ 0 → op st' ≤ out_len).
Proof.
  intros Hinv Hlit Hip Hop. pose proof (li_ip _ _ Hinv) as Hle. pose proof (li_lit _ _ Hinv) as Hge.
  destruct (loop_total (rest_body b (zlen b))
    (λ s, ∃ ts', lz_inv s ts' ∧ lit s < MAX_LIT ∧ op s + 2 * (zlen b - ip s) ≤ out_len + 1 ∧
       (ip s = zlen b → lit s ≠ 0 → op s ≤ out_len))
    (λ s, Z.to_nat (zlen b - ip s))
    (λ s, ∃ ts', lz_inv s ts' ∧ ip s = zlen b ∧ (lit s ≠ 0 → op s ≤ out_len)))
    with (fuel := S (Z.to_nat (zlen b))) (s := st) as (st' & H & ts' & Hst').
  - intros s (ts' & Hi & Hl & Ho & Hend'). unfold rest_body. pose proof (li_ip _ _ Hi) as Hs.
    pose proof (lz_op_range _ _ Hi). destruct (ip s <? zlen b) eqn:E.
    + destruct (literal_step s ts' Hi Hl) as (s' & ts2 & -> & Hi2 & Hl2 & Hip2 & Hop2); [lia|lia|].
      left. eexists. split; [done|]. split; [|lia]. exists ts2. split; [done|]. split; [done|].
      split; [lia|]. intros. destruct Hop2 as [->|[-> ?]]; lia.
    + right. eexists. split; [done|]. exists ts'. split; [done|]. split; [lia|]. apply Hend'. lia.
  - exists ts. split; [done|]. split; [done|]. lia.
  - lia.
  - exists st', ts'. by split.
Qed.

(** The initial state. *)
Lemma lz_start htab0 out0 h :
  zlen out0 = out_len + 1 → (∀ i, in_u 64 (htab0 i)) → lz_inv (LzfState 0 1 0 h htab0 out0) [].
Proof. intros Ho Ht. apply (open_run [] out0 out0); simpl; try done; [constructor|lia]. Qed.

Lemma lzf_compress_run htab0 out0 :
  out_len ≠ 0 → zlen out0 = out_len + 1 → (∀ i, in_u 64 (htab0 i)) →
  ∃ n out', lzf_compress in_data b (zlen b) out_len htab0 out0 = Some (n, out') ∧
    zlen out' = out_len + 1 ∧ 0 ≤ n ≤ out_len ∧
    (n = 0 ∨ ∃ ts, take (Z.to_nat n) out' = encodes ts ∧ tokens_ok ts ∧ expand ts = b).
Proof.
  intros Hne Ho Ht. unfold lzf_compress.
  destruct ((zlen b =? 0) || (out_len =? 0)) eqn:E; [lia|].
  destruct (FRST_run 0) as [h ->]; [lia..|]. rewrite bind_Some_eq.
  destruct (loop_total (compress_body in_data b (zlen b) out_len)
    (λ s, ∃ ts, lz_inv s ts ∧ lit s < MAX_LIT) (λ s, Z.to_nat (zlen b - ip s))
    (λ r, stepped (LzfState 0 1 0 0 htab0 out0) (inr r)))
    with (fuel := S (Z.to_nat (zlen b))) (s := LzfState 0 1 0 h htab0 out0) as (r & -> & Hr).
  - intros s (ts & Hi & Hl). destruct (compress_body_run s ts Hi Hl) as (r & -> & Hr).
    destruct r as [s'|r]; [left|right; by eexists].
    destruct Hr as (ts' & Hi' & Hl' & Hlt). eexists. split; [done|]. split; [by exists ts'|].
    pose proof (li_ip _ _ Hi'). lia.
  - exists []. split; [by apply lz_start|]. simpl. change MAX_LIT with 32. lia.
  - simpl. lia.
  - rewrite bind_Some_eq. destruct r as [st|out'].
    2:{ exists 0, out'. split; [done|]. split; [done|]. split; [lia|by left]. }
    destruct Hr as (ts & Hi & Hl & Hip). pose proof (li_ip _ _ Hi) as Hb.
    destruct (op st + 3 >? out_len) eqn:E2.
    { exists 0, (out st). split; [done|]. split; [apply Hi|]. split; [lia|by left]. }
    destruct (rest_run st ts Hi Hl) as (st' & ts' & -> & Hi' & Hip' & Hop'); [lia|lia|].
    rewrite bind_Some_eq.
    destruct (stop_run_run _ _ Hi') as (ts2 & out' & rest & -> & Hop2 & Hok2 & He2 & Ho2 & Hl2).
    rewrite bind_Some_eq, Hop2. exists (zlen (encodes ts2)), out'. split; [done|]. split; [done|].
    pose proof (lz_op_range _ _ Hi'). destruct (lit st' =? 0) eqn:E3.
    all: split; [lia|]; right; exists ts2; rewrite Ho2, Nat2Z.id, take_app_length;
      split; [done|]; split; [done|]; rewrite He2, Hip', Nat2Z.id; apply take_ge; done.
Qed.
End compressor.

(** ** The decompressor *)

Lemma length_expand1 o t :
  length (expand1 o t) = (length o + match t with Lit l => length l | Ref _ len => Z.to_nat (len + 2) end)%nat.
Proof. destruct t; simpl; [apply length_app|apply length_repeat_from]. Qed.

Lemma expand_app_length ts1 ts2 : (length (expand ts1) ≤ length (expand (ts1 ++ ts2)))%nat.
Proof.
  induction ts2 as [|t ts2 IH] using rev_ind; [by rewrite app_nil_r|].
  rewrite app_assoc, expand_snoc, length_expand1. lia.
Qed.

Lemma tokens_ok_snoc_inv ts t : tokens_ok (ts ++ [t]) → tokens_ok ts ∧ token_ok (expand ts) t.
Proof.
  intros H. inversion H as [Heq|ts' t' H1 H2 Heq]; [by apply app_cons_not_nil in Heq|].
  by apply app_inj_tail in Heq as [-> ->].
Qed.

Lemma tokens_ok_middle ts1 t ts2 : tokens_ok (ts1 ++ t :: ts2) → token_ok (expand ts1) t.
Proof.
  induction ts2 as [|t' ts2 IH] using rev_ind; intros H; [by apply tokens_ok_snoc_inv in H as [_ ?]|].
  rewrite app_comm_cons, app_assoc in H. apply IH. by apply tokens_ok_snoc_inv in H as [? _].
Qed.

Lemma encodes_middle ts1 t ts2 : encodes (ts1 ++ t :: ts2) = encodes ts1 ++ encode t ++ encodes ts2.
Proof. unfold encodes. by rewrite fmap_app, join_app. Qed.

Lemma copy_ref_run n off o rest :
  0 ≤ off < zlen o → (n ≤ length rest)%nat →
  copy_ref n (o ++ rest) (zlen o) (zlen o - off - 1) = Some (repeat_from n off o ++ drop n rest).
Proof.
  revert o rest. induction n as [|n IH]; intros o rest Ho Hn; [done|].
  destruct rest as [|y rest]; simpl in Hn; [lia|]. cbn [copy_ref repeat_from].
  set (x := nth (length o - Z.to_nat (off + 1)) o 0).
  assert (rd1 (o ++ y :: rest) (zlen o - off - 1) = Some x) as ->.
  { rewrite rd1_lookup by lia. rewrite lookup_app_l by lia.
    destruct (lookup_lt_is_Some_2 o (Z.to_nat (zlen o - off - 1))) as [z Hz]; [lia|]. rewrite Hz. f_equal.
    symmetry. apply nth_lookup_Some. rewrite <-Hz. f_equal. lia. }
  rewrite bind_Some_eq, wr1_extend, bind_Some_eq.
  replace (zlen o + 1) with (zlen (o ++ [x])) by (rewrite length_app; simpl; lia).
  replace (zlen o - off - 1 + 1) with (zlen (o ++ [x]) - off - 1) by (rewrite length_app; simpl; lia).
  rewrite IH; [done|rewrite length_app; simpl; lia|lia].
Qed.

Section decompressor.
Context (b : bytes) (out_len : Z) (Hb : is_bytes b).

(** Reading back one token. *)
Definition decoded pre t o rest : Z * Z * bytes :=
  (zlen (pre ++ encode t), zlen (expand1 o t), expand1 o t ++ drop (length (expand1 o t) - length o) rest).

Lemma literal_run_ok pre l post o rest :
  b = pre ++ encode (Lit l) ++ post → token_ok o (Lit l) → zlen (expand1 o (Lit l)) ≤ out_len →
  out_len ≤ zlen (o ++ rest) →
  literal_run b (zlen b) out_len (zlen l - 1) (zlen pre + 1) (zlen o) (o ++ rest) =
    Some (inl (decoded pre (Lit l) o rest)).
Proof.
  intros Hbe Hok Hl Hol. unfold literal_run, decoded. rewrite length_expand1 in Hl. rewrite length_app in Hol.
  replace (zlen l - 1 + 1) with (zlen l) by lia.
  destruct (zlen o + zlen l >? out_len) eqn:E; [lia|].
  assert (zlen b = zlen pre + 1 + zlen l + zlen post) by (rewrite Hbe, !length_app; simpl; lia).
  destruct (zlen pre + 1 + zlen l >? zlen b) eqn:E2; [lia|].
  assert (rd b (zlen pre + 1) (zlen l) = Some l) as ->.
  { rewrite Hbe. simpl. rewrite cons_middle, app_assoc. apply (rd_app (pre ++ [zlen l - 1]) l post); [|done].
    rewrite length_app. simpl. lia. }
  rewrite bind_Some_eq. rewrite <-(take_drop (length l) rest) at 1.
  rewrite (wr_app o (take (length l) rest)) by (rewrite ?length_take; lia). rewrite bind_Some_eq.
  rewrite length_expand1. simpl. rewrite !length_app. simpl. rewrite app_assoc.
  repeat f_equal; lia.
Qed.

Lemma back_reference_ok pre off len post o rest :
  b = pre ++ encode (Ref off len) ++ post → token_ok o (Ref off len) →
  zlen (expand1 o (Ref off len)) ≤ out_len → out_len ≤ zlen (o ++ rest) →
  back_reference b (zlen b) out_len (if len <? 7 then off / 256 + 32 * len else off / 256 + 224)
    (zlen pre + 1) (zlen o) (o ++ rest) = Some (inl (decoded pre (Ref off len) o rest)).
Proof.
  intros Hbe (Ho & Hoo & Hlen) Hl Hol. unfold back_reference, decoded. change MAX_OFF with 8192 in Ho.
  rewrite length_expand1 in Hl. rewrite length_app in Hol.
  assert (zlen b = zlen pre + (if len <? 7 then 2 else 3) + zlen post) as Hzb.
  { rewrite Hbe, !length_app. simpl. destruct (len <? 7); simpl; lia. }
  set (ctrl := if len <? 7 then _ else _).
  assert (Z.shiftr ctrl 5 = Z.min len 7 ∧ Z.land ctrl 31 = off / 256) as [-> ->].
  { change 31 with (Z.ones 5). rewrite Z.land_ones, Z.shiftr_div_pow2 by lia. change (2 ^ 5) with 32.
    unfold ctrl. destruct (len <? 7) eqn:E; dlia. }
  rewrite Z.shiftl_mul_pow2 by lia. change (2 ^ 8) with 256.
  destruct (zlen pre + 1 >=? zlen b) eqn:E1; [destruct (len <? 7); lia|].
  assert (rd1 b (zlen pre + (if len <? 7 then 1 else 2)) = Some (off mod 256)) as Hlow.
  { rewrite Hbe. cbn [encode]. destruct (len <? 7).
    - simpl. rewrite cons_middle, app_assoc. apply rd1_app. rewrite length_app. simpl. lia.
    - simpl. rewrite !(cons_middle _ pre), !(cons_middle (len - 7)), !app_assoc. apply rd1_app.
      rewrite !length_app. simpl. lia. }
  assert ((if Z.min len 7 =? 7 then
             x ← rd1 b (zlen pre + 1);
             Some (if zlen pre + 1 + 1 >=? zlen b then inr EINVAL else inl (Z.min len 7 + x, zlen pre + 1 + 1))
           else Some (inl (Z.min len 7, zlen pre + 1))) =
    Some (inl (len, zlen pre + (if len <? 7 then 1 else 2)) : _ + errno)) as ->.
  { destruct (len <? 7) eqn:E.
    - destruct (Z.min len 7 =? 7) eqn:E2; [lia|]. do 3 f_equal. lia.
    - destruct (Z.min len 7 =? 7) eqn:E2; [|lia].
      assert (rd1 b (zlen pre + 1) = Some (len - 7)) as ->.
      { rewrite Hbe. cbn [encode]. rewrite E. simpl. rewrite cons_middle, app_assoc. apply rd1_app.
        rewrite length_app. simpl. lia. }
      rewrite bind_Some_eq. destruct (zlen pre + 1 + 1 >=? zlen b) eqn:E3; [lia|]. do 3 f_equal; lia. }
  rewrite bind_Some_eq, Hlow, bind_Some_eq. cbv zeta.
  destruct (zlen o + len + 2 >? out_len) eqn:E4; [lia|].
  replace (zlen o - off / 256 * 256 - 1 - off mod 256) with (zlen o - off - 1) by dlia.
  destruct (zlen o - off - 1 <? 0) eqn:E5; [lia|].
  rewrite copy_ref_run, bind_Some_eq by lia. rewrite length_expand1, length_app. cbn [expand1].
  do 3 f_equal; [f_equal|].
  - cbn [encode]. destruct (len <? 7); simpl; lia.
  - lia.
  - f_equal; [f_equal; lia|]. f_equal. lia.
Qed.

Lemma decompress_token pre t post o rest :
  b = pre ++ encode t ++ post → token_ok o t → zlen (expand1 o t) ≤ out_len → out_len ≤ zlen (o ++ rest) →
  decompress_body b (zlen b) out_len (zlen pre, zlen o, o ++ rest) =
    Some (let '(i, p, out) := decoded pre t o rest in
          if i <? zlen b then inl (i, p, out) else inr (inl (p, out))).
Proof.
  intros Hbe Hok Hl Hol. unfold decompress_body.
  assert (rd1 b (zlen pre) = Some match t with Lit l => zlen l - 1
    | Ref off len => if len <? 7 then off / 256 + 32 * len else off / 256 + 224 end) as ->.
  { rewrite Hbe. destruct t as [l|off len]; cbn [encode]; [by apply rd1_app|].
    destruct (len <? 7); by apply rd1_app. }
  rewrite bind_Some_eq. change (Z.shiftl 1 5) with 32. destruct t as [l|off len].
  - destruct (zlen l - 1 <? 32) eqn:E; [|simpl in Hok; lia].
    by rewrite (literal_run_ok pre l post).
  - destruct Hok as (Ho & Hoo & Hlen). change MAX_OFF with 8192 in Ho.
    destruct ((if len <? 7 then off / 256 + 32 * len else off / 256 + 224) <? 32) eqn:E.
    { destruct (len <? 7); dlia. }
    by rewrite (back_reference_ok pre off len post).
Qed.
End decompressor.

Lemma decompress_tokens ts out_len ts1 ts2 rest fuel :
  tokens_ok ts → zlen (expand ts) ≤ out_len → ts = ts1 ++ ts2 → ts2 ≠ [] →
  out_len ≤ zlen (expand ts1 ++ rest) → (length ts2 ≤ fuel)%nat →
  ∃ rest', loop fuel (decompress_body (encodes ts) (zlen (encodes ts)) out_len)
    (zlen (encodes ts1), zlen (expand ts1), expand ts1 ++ rest) =
    Some (inl (zlen (expand ts), expand ts ++ rest')).
Proof.
  intros Hok Hl. revert ts1 rest fuel. induction ts2 as [|t ts2 IH]; intros ts1 rest fuel Hts Hne Hr Hf; [done|].
  destruct fuel as [|fuel]; simpl in Hf; [lia|]. rewrite loop_S.
  assert (zlen (expand (ts1 ++ [t])) ≤ out_len) as Hlt.
  { pose proof (expand_app_length (ts1 ++ [t]) ts2) as H.
    replace ((ts1 ++ [t]) ++ ts2) with ts in H by (by rewrite Hts, <-app_assoc). lia. }
  rewrite (decompress_token _ out_len (encodes ts1) t (encodes ts2)).
  - unfold decoded. rewrite <-encodes_snoc, <-expand_snoc. set (rest1 := drop _ rest).
    destruct (zlen (encodes (ts1 ++ [t])) <? zlen (encodes ts)) eqn:E.
    + apply IH; [by rewrite <-app_assoc|..|lia].
      * intros ->. rewrite Hts in E. lia.
      * rewrite length_app in *. unfold rest1. rewrite length_drop. rewrite expand_snoc, length_expand1 in *. lia.
    + destruct ts2 as [|t' ts2]; [by rewrite Hts; exists rest1|]. exfalso.
      assert (ts = (ts1 ++ [t]) ++ t' :: ts2) as Hts' by (by rewrite Hts, <-app_assoc).
      rewrite Hts', (encodes_middle (ts1 ++ [t]) t' ts2), !length_app in E.
      pose proof (encode_pos t'). lia.
  - by rewrite Hts, encodes_middle.
  - rewrite Hts in Hok. by apply tokens_ok_middle in Hok.
  - by rewrite <-expand_snoc.
  - done.
Qed.

Lemma length_encodes ts : (length ts ≤ length (encodes ts))%nat.
Proof.
  induction ts as [|t ts IH]; [done|]. change (encodes (t :: ts)) with (encode t ++ encodes ts).
  rewrite length_app. simpl. pose proof (encode_pos t). lia.
Qed.

Lemma decompress_encodes ts out :
  tokens_ok ts → ts ≠ [] → zlen (expand ts) ≤ zlen out →
  ∃ rest, lzf_decompress (encodes ts) (zlen (encodes ts)) (zlen out) out =
    Some (inl (zlen (expand ts), expand ts ++ rest)).
Proof.
  intros Hok Hne Hl. unfold lzf_decompress. pose proof (length_encodes ts).
  apply (decompress_tokens ts (zlen out) [] ts out); simpl; try done. lia.
Qed.

(** ** Arbitrary input: a token is read, or an error is reported *)

Lemma decompress_cases b out_len pre post o rest :
  is_bytes b → b = pre ++ post → post ≠ [] →
  (∃ t post', post = encode t ++ post' ∧ token_ok o t ∧ zlen (expand1 o t) ≤ out_len) ∨
  ∃ e, decompress_body b (zlen b) out_len (zlen pre, zlen o, o ++ rest) = Some (inr (inr e)).
Proof.
  intros Hb Hbe Hne. destruct post as [|c post]; [done|]. unfold decompress_body.
  assert (rd1 b (zlen pre) = Some c) as -> by (rewrite Hbe; by apply rd1_app).
  rewrite bind_Some_eq. change (Z.shiftl 1 5) with 32.
  assert (zlen b = zlen pre + 1 + zlen post) as Hlb by (rewrite Hbe, length_app; simpl; lia).
  assert (is_bytes (c :: post)) as [Hc Hpost]%Forall_cons.
  { rewrite Hbe in Hb. by apply Forall_app in Hb as [_ ?]. }
  unfold in_u in Hc. change (2 ^ 8) with 256 in Hc. destruct (c <? 32) eqn:E.
  - unfold literal_run. destruct (zlen o + (c + 1) >? out_len) eqn:E1; [right; by eexists|].
    destruct (zlen pre + 1 + (c + 1) >? zlen b) eqn:E2; [right; by eexists|]. left.
    exists (Lit (take (Z.to_nat (c + 1)) post)), (drop (Z.to_nat (c + 1)) post).
    rewrite length_expand1. simpl. rewrite length_take_le by lia. rewrite take_drop.
    split; [f_equal; lia|]. lia.
  - unfold back_reference. destruct (zlen pre + 1 >=? zlen b) eqn:E1; [right; by eexists|].
    destruct post as [|x post]; [simpl in Hlb; lia|]. apply Forall_cons in Hpost as [Hx Hpost].
    unfold in_u in Hx. change (2 ^ 8) with 256 in Hx.
    assert (rd1 b (zlen pre + 1) = Some x) as Hx1.
    { rewrite Hbe, cons_middle, app_assoc. apply rd1_app. rewrite length_app. simpl. lia. }
    rewrite Hx1, bind_Some_eq. change 31 with (Z.ones 5). rewrite Z.land_ones, Z.shiftr_div_pow2 by lia.
    rewrite Z.shiftl_mul_pow2 by lia. change (2 ^ 5) with 32. change (2 ^ 8) with 256. simpl in Hlb.
    destruct (c / 32 =? 7) eqn:E2.
    + destruct (zlen pre + 1 + 1 >=? zlen b) eqn:E3; [right; by eexists|].
      destruct post as [|y post]; [simpl in Hlb; lia|]. apply Forall_cons in Hpost as [Hy Hpost].
      unfold in_u in Hy. change (2 ^ 8) with 256 in Hy. rewrite bind_Some_eq. cbv beta iota.
      assert (rd1 b (zlen pre + 1 + 1) = Some y) as ->.
      { rewrite Hbe, cons_middle, (cons_middle x), !app_assoc. apply rd1_app. rewrite !length_app. simpl. lia. }
      rewrite bind_Some_eq. cbv zeta.
      destruct (zlen o + (c / 32 + x) + 2 >? out_len) eqn:E4; [right; by eexists|].
      destruct (zlen o - c mod 32 * 256 - 1 - y <? 0) eqn:E5; [right; by eexists|]. left.
      exists (Ref (c mod 32 * 256 + y) (7 + x)), post. rewrite length_expand1. simpl.
      destruct (7 + x <? 7) eqn:E6; [lia|]. change MAX_OFF with 8192. split; [|dlia].
      simpl. f_equal; [dlia|]. f_equal; [lia|]. f_equal. dlia.
    + rewrite bind_Some_eq. cbv beta iota. rewrite Hx1, bind_Some_eq. cbv zeta.
      destruct (zlen o + c / 32 + 2 >? out_len) eqn:E4; [right; by eexists|].
      destruct (zlen o - c mod 32 * 256 - 1 - x <? 0) eqn:E5; [right; by eexists|]. left.
      exists (Ref (c mod 32 * 256 + x) (c / 32)), post. rewrite length_expand1. simpl.
      destruct (c / 32 <? 7) eqn:E6; [|dlia]. change MAX_OFF with 8192. split; [|dlia].
      simpl. f_equal; [dlia|]. f_equal. dlia.
Qed.

Lemma expand1_bytes o t : is_bytes o → is_bytes (encode t) → is_bytes (expand1 o t).
Proof.
  destruct t as [l|off len]; simpl; intros Ho Ht.
  - apply Forall_cons in Ht as [_ Hl]. by apply Forall_app.
  - clear Ht. generalize (Z.to_nat (len + 2)). intros n. revert o Ho. induction n as [|n IH]; intros o Ho; [done|].
    simpl. apply IH, Forall_app. split; [done|]. constructor; [|done].
    destruct (nth_in_or_default (length o - Z.to_nat (off + 1)) o 0) as [Hin| ->]; [|done].
    by eapply Forall_forall, list_elem_of_In.
Qed.

Lemma decompress_run b out :
  is_bytes b → b ≠ [] →
  ∃ r, lzf_decompress b (zlen b) (zlen out) out = Some r ∧
    ∀ n out', r = inl (n, out') →
      ∃ ts rest, b = encodes ts ∧ tokens_ok ts ∧ out' = expand ts ++ rest ∧ n = zlen (expand ts) ∧
        zlen out' = zlen out ∧ (is_bytes out → is_bytes out').
Proof.
  intros Hb Hne. unfold lzf_decompress.
  destruct (loop_total (decompress_body b (zlen b) (zlen out))
    (λ s, ∃ ts post rest, b = encodes ts ++ post ∧ post ≠ [] ∧ tokens_ok ts ∧
       zlen (expand ts ++ rest) = zlen out ∧ (is_bytes out → is_bytes (expand ts ++ rest)) ∧ s = (zlen (encodes ts), zlen (expand ts), expand ts ++ rest))
    (λ s, Z.to_nat (zlen b - s.1.1 - 1))
    (λ r, ∀ n out', r = inl (n, out') →
      ∃ ts rest, b = encodes ts ∧ tokens_ok ts ∧ out' = expand ts ++ rest ∧ n = zlen (expand ts) ∧
        zlen out' = zlen out ∧ (is_bytes out → is_bytes out'))) with (fuel := S (Z.to_nat (zlen b))) (s := (0, 0, out)) as (r & H & Hr).
  - intros s (ts & post & rest & Hbe & Hp & Hok & Hlen & Hob & ->).
    destruct (decompress_cases b (zlen out) (encodes ts) post (expand ts) rest Hb Hbe Hp)
      as [(t & post' & -> & Ht & Hfit)|[e He]]; [|right; eexists; split; [exact He|done]].
    rewrite (decompress_token b (zlen out) (encodes ts) t post') by (done || lia).
    unfold decoded. rewrite <-encodes_snoc, <-expand_snoc. set (rest' := drop _ rest).
    assert (zlen (expand (ts ++ [t]) ++ rest') = zlen out) as Hlen'.
    { unfold rest'. rewrite length_app in Hlen. pose proof (length_expand1 (expand ts) t) as Hx.
      rewrite <-expand_snoc in Hx, Hfit. rewrite length_app, length_drop. lia. }
    assert (b = encodes (ts ++ [t]) ++ post') as Hbe' by (by rewrite encodes_snoc, <-app_assoc).
    assert (tokens_ok (ts ++ [t])) as Hok' by (by constructor).
    assert (is_bytes out → is_bytes (expand (ts ++ [t]) ++ rest')) as Hob'.
    { intros [He Hrest]%Hob%Forall_app. apply Forall_app. split; [|by apply Forall_drop].
      rewrite expand_snoc. apply expand1_bytes; [done|]. rewrite Hbe in Hb. apply Forall_app in Hb as [_ Hb].
      by apply Forall_app in Hb as [? _]. }
    pose proof (f_equal length Hbe') as Hlb. rewrite length_app in Hlb.
    destruct (zlen (encodes (ts ++ [t])) <? zlen b) eqn:E; simpl.
    + left. eexists. split; [done|]. split.
      * exists (ts ++ [t]), post', rest'. split; [done|]. split; [intros ->; simpl in Hlb; lia|done].
      * rewrite encodes_snoc, length_app in *. pose proof (encode_pos t). simpl. lia.
    + right. eexists. split; [done|]. intros n out' [= <- <-]. exists (ts ++ [t]), rest'.
      destruct post' as [|y post']; [|simpl in Hlb; lia]. by rewrite app_nil_r in Hbe'.
  - exists [], b, out. split; [done|]. split; [done|]. split; [constructor|]. done.
  - simpl. destruct b; simpl; [done|lia].
  - by exists r.
Qed.

(** * The properties *)

(** C20: Whatever the hash table of [lzf_compress] held before, the function writes
    only inside a buffer one byte longer than the length it is given, and what it
    reports is either 0 or the length of an output that [lzf_decompress] turns
    back into the input.  The addresses are those of a real process: the input
    is not in the first 8 kilobytes and does not reach the end of memory. *)
Theorem lzf_roundtrip in_data b htab0 out :
  MAX_OFF ≤ in_data → in_data + zlen b < 2 ^ 64 → 2 ≤ zlen b < 2 ^ 32 → 1 < zlen out →
  (∀ i, in_u 64 (htab0 i)) →
  ∃ n out', lzf_compress in_data b (zlen b) (zlen out - 1) htab0 out = Some (n, out') ∧
    zlen out' = zlen out ∧ 0 ≤ n < zlen out ∧
    (n = 0 ∨ ∀ dst, zlen b ≤ zlen dst →
       ∃ rest, lzf_decompress (take (Z.to_nat n) out') n (zlen dst) dst = Some (inl (zlen b, b ++ rest))).
Proof.
  intros Ha He [Hl2 Hl] Ho Ht.
  destruct (lzf_compress_run in_data b (zlen out - 1) Ha He Hl2 Hl ltac:(lia) htab0 out)
    as (n & out' & -> & Hl' & Hn & Hr); [lia|lia|done|].
  exists n, out'. split; [done|]. split; [lia|]. split; [lia|].
  destruct Hr as [->|(ts & Hts & Hok & <-)]; [by left|right]. intros dst Hd.
  assert (n = zlen (encodes ts)) as -> by (rewrite <-Hts, length_take; lia).
  rewrite Nat2Z.id in Hts |- *. rewrite Hts. apply decompress_encodes; [done| |lia].
  intros ->. simpl in Hl2. lia.
Qed.


(** 32 bytes that fill a run up to the end of the output, then a match. *)
Definition overrun_input : bytes := (Z.of_nat <$> seq 0 32) ++ [1; 2; 3; 4; 5].

(** With a buffer of exactly the length it is given, [lzf_compress] may write
    one byte past the end: it closes the empty run it has opened behind the last
    byte before it tests whether there is room for a back reference. *)
Theorem lzf_compress_overrun :
  lzf_compress 65536 overrun_input 37 33 (λ _, 0) (replicate 33 0) = None ∧
  ∃ out, lzf_compress 65536 overrun_input 37 33 (λ _, 0) (replicate 34 0) = Some (0, out) ∧
    rd1 out 33 = Some 255.
Proof. split; [by vm_compute|]. eexists. by split; vm_compute. Qed.

Definition lz_text : bytes := [97;98;99;97;98;99;97;98;99;97;98;99;100].

Lemma lzf_roundtrip_witness :
  ∃ out', lzf_compress 65536 lz_text 13 13 (λ _, 0) (replicate 14 0) = Some (10, out') ∧
    ∃ rest, lzf_decompress (take 10 out') 10 13 (replicate 13 0) = Some (inl (13, lz_text ++ rest)).
Proof.
  destruct (lzf_roundtrip 65536 lz_text (λ _, 0) (replicate 14 0)) as (n & out' & H & _ & _ & Hr);
    [done|done|done|done|intros; split; done|].
  assert (∃ o, lzf_compress 65536 lz_text 13 13 (λ _, 0) (replicate 14 0) = Some (10, o)) as [o Ho].
  { eexists. vm_compute. reflexivity. }
  change (lzf_compress 65536 lz_text 13 13 (λ _, 0) (replicate 14 0) = Some (n, out')) in H.
  assert (n = 10) as -> by congruence.
  exists out'. split; [exact H|]. destruct Hr as [Hz|Hr]; [lia|]. apply (Hr (replicate 13 0)). simpl. lia.
Defined.

