(* ===== verification/Glob.v ===== *)
(** * Glob-style pattern matching: [stringmatchlen] and [stringmatch] of [util.c] *)

From S2P Require Import Prelude.

#[local] Open Scope Z_scope.

Abbreviation ch_star := 42.
Abbreviation ch_dash := 45.
Abbreviation ch_quest := 63.
Abbreviation ch_open := 91.
Abbreviation ch_bslash := 92.
Abbreviation ch_close := 93.
Abbreviation ch_caret := 94.

(** [tolower] of the C locale. *)
Definition tolower (c : Z) : Z := if (65 <=? c) && (c <=? 90) then c + 32 else c.

(** Two characters compared as [stringmatchlen] compares them. *)
Definition ch_eq (nocase : bool) (a b : Z) : bool :=
  if negb nocase then a =? b else tolower (s8 a) =? tolower (s8 b).

(** ** The code

    [P] and [S] are the memory blocks the two pointers point into; [p] and [s]
    are the pointers, [plen] and [slen] the lengths left. *)

(** One turn of the [while(1)] of a character class: the state is the pattern
    pointer, its length and [match]. *)
Definition class_body (P S : bytes) (nocase : bool) (s : Z) (st : Z * Z * bool)
  : option ((Z * Z * bool) + (Z * Z * bool)) :=
  let '(p, plen, m) := st in
  c ← rd1 P p;
  if c =? ch_bslash then
    c ← rd1 P (p + 1);
    s0 ← rd1 S s;
    Some (inl (p + 2, plen - 2, m || (c =? s0)))
  else if c =? ch_close then Some (inr (p, plen, m))
  else if plen =? 0 then Some (inr (p - 1, plen + 1, m))
  else
    c1 ← rd1 P (p + 1);
    if (c1 =? ch_dash) && (3 <=? plen) then
      c2 ← rd1 P (p + 2);
      s0 ← rd1 S s;
      let '(start, end_) := if s8 c2 <? s8 c then (s8 c2, s8 c) else (s8 c, s8 c2) in
      let c := s8 s0 in
      let '(start, end_, c) :=
        if nocase then (tolower start, tolower end_, tolower c) else (start, end_, c) in
      Some (inl (p + 3, plen - 3, m || ((start <=? c) && (c <=? end_))))
    else
      s0 ← rd1 S s;
      Some (inl (p + 1, plen - 1, m || ch_eq nocase c s0)).

(** The body of the [switch] other than ['*']: [Some None] is [return 0], and
    otherwise the pattern pointer is left on the last character consumed. *)
Definition switch_body (P S : bytes) (nocase : bool) (p plen s slen c : Z)
  : option (option (Z * Z * Z * Z)) :=
  if c =? ch_quest then
    if slen =? 0 then Some None else Some (Some (p, plen, s + 1, slen - 1))
  else if c =? ch_open then
    let p := p + 1 in
    let plen := plen - 1 in
    c ← rd1 P p;
    let not := c =? ch_caret in
    let '(p, plen) := if (not : bool) then (p + 1, plen - 1) else (p, plen) in
    r ← loop (1 + length P) (class_body P S nocase s) (p, plen, false);
    let '(p, plen, m) := r in
    let m := if (not : bool) then negb m else m in
    if negb m then Some None else Some (Some (p, plen, s + 1, slen - 1))
  else
    let '(p, plen) := if (c =? ch_bslash) && (2 <=? plen) then (p + 1, plen - 1) else (p, plen) in
    c ← rd1 P p;
    s0 ← rd1 S s;
    if negb (ch_eq nocase c s0) then Some None else Some (Some (p, plen, s + 1, slen - 1)).

(** [while (pattern[k] == '*') { pattern++; patternLen--; }] *)
Definition skip_stars (P : bytes) (k p plen : Z) : option (Z * Z) :=
  loop (1 + length P)
    (λ st : Z * Z, let '(p, plen) := st in
       c ← rd1 P (p + k);
       Some (if c =? ch_star then inl (p + 1, plen - 1) else inr (p, plen)))
    (p, plen).

(** One fuel unit per recursive call and per turn of the main loop. *)
Fixpoint stringmatch_fuel (fuel : nat) (P S : bytes) (nocase : bool) (p plen s slen : Z)
  : option bool :=
  match fuel with
  | O => None
  | S fuel =>
    if plen =? 0 then Some ((plen =? 0) && (slen =? 0))
    else
      c ← rd1 P p;
      if c =? ch_star then
        st ← skip_stars P 1 p plen;
        let '(p, plen) := st in
        if plen =? 1 then Some true
        else
          loop (1 + Z.to_nat slen)
            (λ st : Z * Z, let '(s, slen) := st in
               if slen =? 0 then Some (inr false)
               else
                 r ← stringmatch_fuel fuel P S nocase (p + 1) (plen - 1) s slen;
                 Some (if (r : bool) then inr true else inl (s + 1, slen - 1)))
            (s, slen)
      else
        st ← switch_body P S nocase p plen s slen c;
        match st with
        | None => Some false
        | Some (p, plen, s, slen) =>
          let p := p + 1 in
          let plen := plen - 1 in
          if slen =? 0 then
            st ← skip_stars P 0 p plen;
            let '(p, plen) := st in
            Some ((plen =? 0) && (slen =? 0))
          else stringmatch_fuel fuel P S nocase p plen s slen
        end
  end.

(** The pattern length bounds the depth: every call and turn consumes a character. *)
Definition stringmatchlen (P : bytes) (patternLen : Z) (S : bytes) (stringLen : Z) (nocase : bool)
  : option bool :=
  stringmatch_fuel (1 + Z.to_nat patternLen) P S nocase 0 patternLen 0 stringLen.

(** [strlen]: undefined when the block has no NUL. *)
Fixpoint strlen (b : bytes) : option Z :=
  match b with
  | [] => None
  | c :: b => if c =? 0 then Some 0 else n ← strlen b; Some (n + 1)
  end.

Definition stringmatch (P S : bytes) (nocase : bool) : option bool :=
  plen ← strlen P;
  slen ← strlen S;
  stringmatchlen P (s32 plen) S (s32 slen) nocase.

(** ** Reference semantics

    A pattern is a list of tokens, and a token list matches a text. *)
Inductive class_item :=
  | CEscaped (c : Z)
  | CRange (a b : Z)
  | CChar (c : Z).

Inductive token :=
  | TStar
  | TAny
  | TClass (neg : bool) (items : list class_item)
  | TLit (c : Z).

Definition item_match (nocase : bool) (it : class_item) (s0 : Z) : bool :=
  match it with
  | CEscaped c => c =? s0
  | CRange a b =>
    let lo := Z.min (s8 a) (s8 b) in
    let hi := Z.max (s8 a) (s8 b) in
    if nocase then (tolower lo <=? tolower (s8 s0)) && (tolower (s8 s0) <=? tolower hi)
    else (lo <=? s8 s0) && (s8 s0 <=? hi)
  | CChar c => ch_eq nocase c s0
  end.

(** The items of a class and what follows it; a class may be left open by the end
    of the pattern, but not in the middle of an escape. *)
Fixpoint parse_class (l : bytes) : option (list class_item * bytes) :=
  match l with
  | [] => Some ([], [])
  | c :: l' =>
    if c =? ch_bslash then
      match l' with
      | [] => None
      | c' :: r => '(items, rest) ← parse_class r; Some (CEscaped c' :: items, rest)
      end
    else if c =? ch_close then Some ([], l')
    else
      match l' with
      | c1 :: c2 :: r =>
        if c1 =? ch_dash then '(items, rest) ← parse_class r; Some (CRange c c2 :: items, rest)
        else '(items, rest) ← parse_class l'; Some (CChar c :: items, rest)
      | _ => '(items, rest) ← parse_class l'; Some (CChar c :: items, rest)
      end
  end.

(** The [fuel] is a bound on the length. *)
Fixpoint parse (fuel : nat) (l : bytes) : option (list token) :=
  match fuel with
  | O => Some []
  | S fuel =>
    match l with
    | [] => Some []
    | c :: r =>
      if c =? ch_star then toks ← parse fuel r; Some (TStar :: toks)
      else if c =? ch_quest then toks ← parse fuel r; Some (TAny :: toks)
      else if c =? ch_open then
        let '(neg, r) := match r with
                         | c' :: r' => if c' =? ch_caret then (true, r') else (false, r)
                         | [] => (false, r)
                         end in
        '(items, rest) ← parse_class r;
        toks ← parse fuel rest;
        Some (TClass neg items :: toks)
      else if c =? ch_bslash then
        match r with
        | [] => Some [TLit ch_bslash]
        | c' :: r' => toks ← parse fuel r'; Some (TLit c' :: toks)
        end
      else toks ← parse fuel r; Some (TLit c :: toks)
    end
  end.

Fixpoint suffixes (t : bytes) : list bytes :=
  t :: match t with [] => [] | _ :: t' => suffixes t' end.

Definition token_match (nocase : bool) (tok : token) (s0 : Z) : bool :=
  match tok with
  | TStar | TAny => true
  | TClass neg items => xorb neg (existsb (λ it, item_match nocase it s0) items)
  | TLit c => ch_eq nocase c s0
  end.

(** A star stands for any text, every other token for one character. *)
Fixpoint glob_match (nocase : bool) (toks : list token) (t : bytes) : bool :=
  match toks with
  | [] => match t with [] => true | _ => false end
  | TStar :: toks => existsb (glob_match nocase toks) (suffixes t)
  | tok :: toks =>
    match t with
    | [] => false
    | s0 :: t => token_match nocase tok s0 && glob_match nocase toks t
    end
  end.

(** ** The class loop computes [parse_class] *)

Lemma parse_class_length l items rest :
  parse_class l = Some (items, rest) → (length rest ≤ length l)%nat.
Proof.
  revert items rest. induction l as [l IH] using (induction_ltof1 _ (@length Z)).
  unfold ltof in IH. intros items rest. destruct l as [|c l']; cbn [parse_class]; [by intros [= <- <-]|].
  assert (∀ r f, (length r < length (c :: l'))%nat →
    (x ← parse_class r; Some (f x.1, x.2)) = Some (items, rest) →
    (length rest ≤ length (c :: l'))%nat) as Hrec.
  { intros r f Hr Heq. destruct (parse_class r) as [[i0 r0]|] eqn:E; [|done].
    apply IH in E; [|done]. injection Heq as _ <-. lia. }
  repeat case_match; subst; intros Heq; try done;
    try (injection Heq as <- <-; cbn; lia);
    match type of Heq with (parse_class ?r ≫= ?k) = _ =>
      destruct (parse_class r) as [[i0 r0]|] eqn:E; [|done];
      apply IH in E; [injection Heq as <- <-; cbn in *; lia|cbn; lia] end.
Qed.

Lemma existsb_cons_orb {A} (f : A → bool) x l m :
  m || existsb f (x :: l) = (m || f x) || existsb f l.
Proof. cbn. by rewrite orb_assoc. Qed.

Section class_loop.
Context (P S : bytes) (nocase : bool) (s s0 : Z) (rP : bytes).
Context (Hs0 : rd1 S s = Some s0).

Lemma rd1_suffix (pre l r : bytes) k c :
  P = pre ++ l ++ r → (l ++ r) !! k = Some c → rd1 P (zlen pre + Z.of_nat k) = Some c.
Proof using.
  intros -> Hk. rewrite rd1_lookup by lia.
  replace (Z.to_nat _) with (length pre + k)%nat by lia.
  by rewrite lookup_app_r, Nat.add_comm, Nat.add_sub by lia.
Qed.

Lemma class_loop_spec l pre m items rest fuel :
  P = pre ++ l ++ 0 :: rP → parse_class l = Some (items, rest) → (length l < fuel)%nat →
  ∃ pre' p' plen', loop fuel (class_body P S nocase s) (zlen pre, zlen l, m)
    = Some (p', plen', m || existsb (λ it, item_match nocase it s0) items) ∧
    P = pre' ++ rest ++ 0 :: rP ∧ p' + 1 = zlen pre' ∧ plen' - 1 = zlen rest.
Proof using Hs0.
  revert pre m items rest fuel.
  induction l as [l IH] using (induction_ltof1 _ (@length Z)). unfold ltof in IH.
  intros pre m items rest fuel HP Hparse Hfuel.
  destruct fuel as [|fuel]; [lia|]. cbn [loop]. unfold class_body at 1.
  (* continue after the characters [used] with one more item [it] *)
  assert (∀ used l1 it items1, l = used ++ l1 → used ≠ [] → parse_class l1 = Some (items1, rest) →
    items = it :: items1 →
    ∃ pre' p' plen', loop fuel (class_body P S nocase s)
        (zlen pre + zlen used, zlen l - zlen used, m || item_match nocase it s0)
      = Some (p', plen', m || existsb (λ it, item_match nocase it s0) items) ∧
      P = pre' ++ rest ++ 0 :: rP ∧ p' + 1 = zlen pre' ∧ plen' - 1 = zlen rest) as Hnext.
  { intros used l1 it items1 -> Hused Hp ->. rewrite existsb_cons_orb.
    assert (0 < length used)%nat by (destruct used; cbn; [done|lia]).
    rewrite length_app in *.
    destruct (IH l1 ltac:(lia) (pre ++ used) (m || item_match nocase it s0) items1 rest fuel)
      as (pre' & p' & plen' & H1 & H2); [by rewrite HP, <-!app_assoc|done|lia|].
    exists pre', p', plen'. split; [|done]. rewrite <-H1. rewrite length_app. do 3 f_equal; lia. }
  assert (∀ k c, (l ++ 0 :: rP) !! k = Some c → rd1 P (zlen pre + Z.of_nat k) = Some c) as Hrd
    by (intros; by eapply rd1_suffix).
  assert (∀ c, (l ++ 0 :: rP) !! 0%nat = Some c → rd1 P (zlen pre) = Some c) as Hrd0
    by (intros c Hc; rewrite <-(Hrd 0%nat c Hc); f_equal; lia).
  pose proof (Hrd 1%nat) as Hrd1. change (Z.of_nat 1) with 1 in Hrd1.
  pose proof (Hrd 2%nat) as Hrd2. change (Z.of_nat 2) with 2 in Hrd2. clear Hrd.
  destruct l as [|c l].
  { injection Hparse as <- <-. rewrite (Hrd0 0) by done. mrun. cbn.
    rewrite orb_false_r. eexists pre, _, _. split; [done|]. split; [done|]. cbn. lia. }
  rewrite (Hrd0 c) by done. mrun.
  cbn [parse_class] in Hparse. destruct (c =? ch_bslash) eqn:Hbs.
  { destruct l as [|c' l]; [done|]. rewrite (Hrd1 c'), Hs0 by done. mrun.
    destruct (parse_class l) as [[i0 r0]|] eqn:Hp; [|done]. injection Hparse as <- <-.
    destruct (Hnext [c; c'] l (CEscaped c') i0) as (pre' & p' & plen' & H1 & H2); try done.
    by exists pre', p', plen'. }
  destruct (c =? ch_close) eqn:Hcl.
  { injection Hparse as <- <-. cbn. rewrite orb_false_r. exists (pre ++ [c]). eexists _, _.
    split; [done|]. rewrite HP, <-app_assoc. split; [done|]. rewrite length_app. cbn. lia. }
  destruct (zlen (c :: l) =? 0) eqn:Hz; [cbn [length] in Hz; lia|].
  destruct l as [|c1 l].
  { rewrite (Hrd1 0) by done. mrun. cbn [length]. rewrite andb_false_r. rewrite Hs0. mrun.
    injection Hparse as <- <-.
    destruct (Hnext [c] [] (CChar c) []) as (pre' & p' & plen' & H1 & H2); try done.
    by exists pre', p', plen'. }
  rewrite (Hrd1 c1) by done. mrun.
  destruct l as [|c2 l].
  { cbn [length]. rewrite andb_false_r. rewrite Hs0. mrun.
    change (match [c1] with _ :: _ :: _ => _ | _ => ?x end) with x in Hparse.
    destruct (parse_class [c1]) as [[i0 r0]|] eqn:Hp; [|done]. injection Hparse as <- <-.
    destruct (Hnext [c] [c1] (CChar c) i0) as (pre' & p' & plen' & H1 & H2); try done.
    by exists pre', p', plen'. }
  destruct (c1 =? ch_dash) eqn:Hd.
  - destruct (3 <=? zlen (c :: c1 :: c2 :: l)) eqn:H3; [|cbn [length] in H3; lia]. cbn [andb].
    rewrite (Hrd2 c2), Hs0 by done. mrun.
    destruct (parse_class l) as [[i0 r0]|] eqn:Hp; [|done]. injection Hparse as <- <-.
    destruct (Hnext [c; c1; c2] l (CRange c c2) i0) as (pre' & p' & plen' & H1 & H2); try done.
    exists pre', p', plen'. split; [|done]. rewrite <-H1. unfold item_match.
    destruct (s8 c2 <? s8 c) eqn:Hlt.
    + rewrite Z.min_r, Z.max_l by lia. by destruct nocase.
    + rewrite Z.min_l, Z.max_r by lia. by destruct nocase.
  - cbn [andb]. rewrite Hs0. mrun.
    destruct (parse_class (c1 :: c2 :: l)) as [[i0 r0]|] eqn:Hp; [|done]. injection Hparse as <- <-.
    destruct (Hnext [c] (c1 :: c2 :: l) (CChar c) i0) as (pre' & p' & plen' & H1 & H2); try done.
    by exists pre', p', plen'.
Qed.
End class_loop.

(** ** Patterns: fuel independence and equations of [parse] *)

Lemma parse_fuel_indep f1 f2 l :
  (length l ≤ f1)%nat → (length l ≤ f2)%nat → parse f1 l = parse f2 l.
Proof.
  revert f2 l. induction f1 as [|f1 IH]; intros f2 l H1 H2.
  { destruct l; [by destruct f2|cbn in *; lia]. }
  destruct f2 as [|f2]; [destruct l; [done|cbn in *; lia]|].
  destruct l as [|c r]; [done|]. cbn [length] in *. cbn [parse].
  assert (∀ r', (length r' ≤ length r)%nat → parse f1 r' = parse f2 r') as Hr
    by (intros; apply IH; lia).
  repeat case_match; subst; cbn [length] in *; try done; try (by rewrite Hr by lia).
  all: match goal with |- context [parse_class ?q] =>
      destruct (parse_class q) as [[i0 r0]|] eqn:E; [|done]; mrun;
      apply parse_class_length in E; simplify_eq; rewrite (Hr r0); [done|cbn in *; lia] end.
Qed.

Definition parse_pattern (l : bytes) : option (list token) := parse (length l) l.

(** The head token of a pattern that does not start with a star, and the rest. *)
Definition head_token (l : bytes) : option (token * bytes) :=
  match l with
  | [] => None
  | c :: r =>
    if c =? ch_quest then Some (TAny, r)
    else if c =? ch_open then
      let '(neg, r) := match r with
                       | c' :: r' => if c' =? ch_caret then (true, r') else (false, r)
                       | [] => (false, r)
                       end in
      '(items, rest) ← parse_class r;
      Some (TClass neg items, rest)
    else if c =? ch_bslash then
      match r with
      | [] => Some (TLit ch_bslash, [])
      | c' :: r' => Some (TLit c', r')
      end
    else Some (TLit c, r)
  end.

Lemma head_token_length l tok rest : head_token l = Some (tok, rest) → (length rest < length l)%nat.
Proof.
  destruct l as [|c r]; [done|]. cbn [head_token].
  repeat case_match; simplify_eq; intros Heq; try (injection Heq as <- <-; cbn; lia);
    match type of Heq with context [parse_class ?q] =>
      destruct (parse_class q) as [[i0 r0]|] eqn:E; [|done] end;
    apply parse_class_length in E; injection Heq as <- <-; cbn in *; lia.
Qed.

Lemma parse_pattern_star l :
  parse_pattern (ch_star :: l) = (toks ← parse_pattern l; Some (TStar :: toks)).
Proof. done. Qed.

Lemma parse_pattern_head c r :
  c ≠ ch_star →
  parse_pattern (c :: r) =
    ('(tok, rest) ← head_token (c :: r); toks ← parse_pattern rest; Some (tok :: toks)).
Proof.
  intros Hc. unfold parse_pattern. cbn [length parse head_token].
  destruct (c =? ch_star) eqn:?; [lia|].
  assert (∀ r', (length r' ≤ length r)%nat → parse (length r) r' = parse (length r') r') as Hr
    by (intros; by apply parse_fuel_indep).
  destruct (c =? ch_quest) eqn:?; [done|].
  destruct (c =? ch_open) eqn:?.
  - assert (∀ neg q, (length q ≤ length r)%nat →
      ('(items, rest) ← parse_class q; toks ← parse (length r) rest; Some (TClass neg items :: toks)) =
      ('(tok, rest) ← ('(items, rest) ← parse_class q; Some (TClass neg items, rest));
       toks ← parse (length rest) rest; Some (tok :: toks))) as Hcl.
    { intros neg q Hq. destruct (parse_class q) as [[i0 r0]|] eqn:E; [|done]. mrun.
      apply parse_class_length in E. rewrite Hr by lia. done. }
    destruct r as [|c' r]; [by apply Hcl|].
    destruct (c' =? ch_caret); apply Hcl; cbn; lia.
  - destruct (c =? ch_bslash) eqn:?; [|done].
    destruct r as [|c' r]; [done|]. mrun. rewrite Hr by (cbn; lia). done.
Qed.

Lemma star_split (l : bytes) :
  ∃ n l', l = replicate n ch_star ++ l' ∧ ∀ r, l' ≠ ch_star :: r.
Proof.
  induction l as [|c l (n & l' & -> & Hl')]; [by exists 0%nat, []|].
  destruct (decide (c = ch_star)) as [->|]; [by exists (S n), l'|].
  exists 0%nat, (c :: replicate n ch_star ++ l'). split; [done|]. congruence.
Qed.

Lemma parse_pattern_stars n l :
  parse_pattern (replicate n ch_star ++ l)
  = (toks ← parse_pattern l; Some (replicate n TStar ++ toks)).
Proof.
  induction n as [|n IH]; cbn [replicate app]; [by destruct (parse_pattern l)|].
  rewrite parse_pattern_star, IH. by destruct (parse_pattern l).
Qed.

(** ** Facts about the reference semantics *)

Lemma suffixes_spec t t2 : t2 ∈ suffixes t ↔ ∃ t1, t = t1 ++ t2.
Proof.
  induction t as [|c t IH]; cbn [suffixes].
  - rewrite list_elem_of_singleton. split; [intros ->; by exists []|].
    intros [t1 [_ ->]%eq_sym%app_nil]. done.
  - rewrite elem_of_cons, IH. split.
    + intros [->|[t1 ->]]; [by exists []|by exists (c :: t1)].
    + intros [[|c' t1] Heq]; [by left|]. injection Heq as -> ->. right. by exists t1.
Qed.

Lemma existsb_elem {A} (f : A → bool) l : existsb f l = true ↔ ∃ x, x ∈ l ∧ f x = true.
Proof. rewrite existsb_exists. by setoid_rewrite list_elem_of_In. Qed.

Lemma glob_star nocase toks t :
  glob_match nocase (TStar :: toks) t = true ↔
  ∃ t1 t2, t = t1 ++ t2 ∧ glob_match nocase toks t2 = true.
Proof.
  cbn [glob_match]. rewrite existsb_elem. setoid_rewrite suffixes_spec. naive_solver.
Qed.

Lemma glob_star_stars nocase n toks t :
  glob_match nocase (TStar :: replicate n TStar ++ toks) t = glob_match nocase (TStar :: toks) t.
Proof.
  induction n as [|n IH]; [done|]. rewrite <-IH. cbn [replicate app].
  apply Bool.eq_iff_eq_true. rewrite !(glob_star nocase (TStar :: _)), glob_star. split.
  - intros (t1 & t2 & -> & (t3 & t4 & -> & H)%glob_star). exists (t1 ++ t3), t4.
    by rewrite <-app_assoc.
  - intros (t1 & t2 & -> & H). exists t1, t2. split; [done|]. apply glob_star. by exists [], t2.
Qed.

Lemma glob_stars_nil nocase n toks :
  glob_match nocase (replicate n TStar ++ toks) [] = glob_match nocase toks [].
Proof.
  induction n as [|n IH]; [done|]. cbn [replicate app glob_match suffixes existsb].
  by rewrite IH, orb_false_r.
Qed.

Lemma head_token_not_star l tok rest : head_token l = Some (tok, rest) → tok ≠ TStar.
Proof.
  destruct l as [|c r]; [done|]. cbn [head_token].
  repeat case_match; subst; intros Heq; try congruence;
    match type of Heq with context [parse_class ?q] =>
      destruct (parse_class q) as [[i0 r0]|]; [|done] end;
    injection Heq as <- <-; done.
Qed.

Lemma glob_not_star nocase tok toks t :
  tok ≠ TStar → glob_match nocase (tok :: toks) t =
  match t with [] => false | s0 :: t => token_match nocase tok s0 && glob_match nocase toks t end.
Proof. by destruct tok. Qed.

Lemma glob_head_nil nocase l toks :
  parse_pattern l = Some toks → (∀ r, l ≠ ch_star :: r) → l ≠ [] → glob_match nocase toks [] = false.
Proof.
  intros Hp Hs Hne. destruct l as [|c r]; [done|].
  rewrite parse_pattern_head in Hp by congruence.
  destruct (head_token (c :: r)) as [[tok rest]|] eqn:Ht; [|done].
  apply head_token_not_star in Ht. revert Hp. mrun.
  destruct (parse_pattern rest); [|done]. intros [= <-]. by rewrite glob_not_star.
Qed.

(** ** The matcher *)

Section matcher.
Context (P S : bytes) (nocase : bool) (rP rS : bytes).

Lemma skip_stars_spec (a pre l : bytes) n l' :
  P = pre ++ a ++ l ++ 0 :: rP → l = replicate n ch_star ++ l' → (∀ r, l' ≠ ch_star :: r) →
  skip_stars P (zlen a) (zlen pre) (zlen a + zlen l)
  = Some (zlen pre + Z.of_nat n, zlen a + zlen l').
Proof using.
  unfold skip_stars. intros HP Hl Hl'.
  assert (length l < 1 + length P)%nat as Hf by (rewrite HP, !length_app; cbn; lia).
  revert pre l Hl HP Hf. generalize (1 + length P)%nat as fuel. revert a.
  induction n as [|n IH]; intros a fuel pre l Hl HP Hf; (destruct fuel as [|fuel]; [lia|]); cbn [loop].
  - cbn [replicate app] in Hl. subst l. rewrite Z.add_0_r.
    assert (∃ c, rd1 P (zlen pre + zlen a) = Some c ∧ c ≠ ch_star) as (c & -> & Hc).
    { rewrite HP. rewrite app_assoc. destruct l' as [|c l'].
      - exists 0. split; [|done]. apply rd1_app. rewrite length_app. lia.
      - exists c. cbn [app]. split; [|congruence]. apply rd1_app. rewrite length_app. lia. }
    mrun. by destruct (c =? ch_star) eqn:?; [lia|].
  - subst l. cbn [replicate app length] in HP, Hf |- *.
    assert (rd1 P (zlen pre + zlen a) = Some ch_star) as ->.
    { rewrite HP, app_assoc. apply rd1_app. rewrite length_app. lia. }
    mrun. rewrite Z.eqb_refl.
    destruct (a ++ [ch_star]) as [|x a'] eqn:Ha; [by destruct a|].
    assert (length a' = length a) as Hla.
    { apply (f_equal length) in Ha. rewrite length_app in Ha. cbn in Ha. lia. }
    assert (P = (pre ++ [x]) ++ a' ++ (replicate n ch_star ++ l') ++ 0 :: rP) as HP'.
    { rewrite HP, <-(app_assoc pre). f_equal.
      change ([x] ++ a' ++ ?z) with ((x :: a') ++ z). by rewrite <-Ha, <-!app_assoc. }
    specialize (IH a' fuel (pre ++ [x]) (replicate n ch_star ++ l') eq_refl HP' ltac:(lia)).
    rewrite Hla, !length_app in IH. cbn [length] in IH. rewrite !length_app.
    replace (zlen pre + 1) with (Z.of_nat (length pre + 1)) by lia.
    match goal with |- loop _ _ (_, ?y) = _ =>
      replace y with (zlen a + Z.of_nat (length (replicate n ch_star) + length l')) by lia end.
    rewrite IH. f_equal. f_equal; lia.
Qed.

(** Where an empty text would make the code look at the byte after the text. *)
Definition start_ok (toks : list token) (t : bytes) : Prop :=
  t = [] → match toks with
           | TClass _ _ :: _ => False
           | TLit c :: _ => ch_eq nocase c 0 = false
           | _ => True
           end.

Lemma switch_body_spec c r tok rest toks pre pres t :
  P = pre ++ (c :: r) ++ 0 :: rP → S = pres ++ t ++ 0 :: rS → c ≠ ch_star →
  head_token (c :: r) = Some (tok, rest) → start_ok (tok :: toks) t →
  match t with
  | [] => switch_body P S nocase (zlen pre) (zlen (c :: r)) (zlen pres) 0 c = Some None
  | s0 :: t' =>
    if token_match nocase tok s0 then
      ∃ pre' p' plen',
        switch_body P S nocase (zlen pre) (zlen (c :: r)) (zlen pres) (zlen t) c
        = Some (Some (p', plen', zlen pres + 1, zlen t')) ∧
        P = pre' ++ rest ++ 0 :: rP ∧ p' + 1 = zlen pre' ∧ plen' - 1 = zlen rest
    else switch_body P S nocase (zlen pre) (zlen (c :: r)) (zlen pres) (zlen t) c = Some None
  end.
Proof using.
  intros HP HS Hc Htok Hstart. unfold switch_body. cbn [head_token] in Htok.
  assert (∃ s0, rd1 S (zlen pres) = Some s0 ∧ s0 = match t with [] => 0 | s0 :: _ => s0 end)
    as (s0 & Hs0 & Hs0eq).
  { rewrite HS. destruct t; cbn [app]; eexists; (split; [by apply rd1_app|done]). }
  assert (∀ (pre' : bytes) (p' plen' s' : Z) (t' : bytes), s' = zlen pres + 1 → t = s0 :: t' →
    Some (Some (p', plen', s', zlen t - 1)) = Some (Some (p', plen', zlen pres + 1, zlen t'))) as Hok.
  { intros _ p' plen' s' t' -> ->. cbn [length]. do 3 f_equal. lia. }
  destruct (c =? ch_quest) eqn:Hq.
  { injection Htok as <- <-. destruct t as [|s1 t]; [done|]. subst s0.
    destruct (zlen (s1 :: t) =? 0) eqn:E; [cbn [length] in E; lia|]. cbn [token_match].
    eexists (pre ++ [c]), _, _. split; [by apply (Hok pre)|].
    split; [by rewrite HP, <-app_assoc|]. rewrite length_app. cbn [length]. lia. }
  destruct (c =? ch_open) eqn:Ho.
  { destruct t as [|s1 t].
    { exfalso. repeat case_match; simplify_eq; try (revert Htok; mrun; intros);
        match type of Htok with context [parse_class ?q] =>
          destruct (parse_class q) as [[i0 r0]|]; [|done] end;
        injection Htok as <- <-; by apply Hstart. }
    assert (∃ c1, rd1 P (zlen pre + 1) = Some c1 ∧ c1 = match r with [] => 0 | c1 :: _ => c1 end)
      as (c1 & -> & Hc1).
    { assert (P = (pre ++ [c]) ++ r ++ 0 :: rP) as -> by (by rewrite HP, <-app_assoc).
      destruct r; cbn [app]; eexists; (split; [|done]);
        apply rd1_app; rewrite length_app; cbn; lia. }
    mrun.
    set (neg := c1 =? ch_caret). set (body := if neg then drop 1 r else r).
    assert (∃ used, c :: r = used ++ body ∧ zlen used = 1 + if neg then 1 else 0) as (used & Hused & Hul).
    { unfold body. destruct neg eqn:Hn; [|by exists [c]].
      destruct r as [|c' r]; [unfold neg in Hn; subst c1; done|]. by exists [c; c']. }
    assert (match r with
      | [] => (false, r)
      | c' :: r' => if c' =? ch_caret then (true, r') else (false, r)
      end = (neg, body)) as Hnb.
    { unfold body, neg. rewrite Hc1. destruct r as [|c' r]; [done|]. by destruct (c' =? ch_caret). }
    rewrite Hnb in Htok. destruct (parse_class body) as [[items rest']|] eqn:Hpc; [|done].
    revert Htok. mrun. intros [= <- <-].
    destruct (class_loop_spec P S nocase (zlen pres) s0 rP Hs0 body (pre ++ used) false items rest'
      (1 + length P)) as (pre' & p' & plen' & Hl & HP' & Hp' & Hpl').
    { by rewrite HP, Hused, <-!app_assoc. } { done. }
    { rewrite HP, Hused, !length_app. cbn. lia. }
    assert ((if neg then (zlen pre + 1 + 1, zlen (c :: r) - 1 - 1) else (zlen pre + 1, zlen (c :: r) - 1))
      = (zlen (pre ++ used), zlen body)) as ->.
    { rewrite Hused, !length_app. destruct neg; f_equal; lia. }
    rewrite Hl. mrun. cbn [token_match orb]. subst s0.
    assert ((if neg then negb (existsb (λ it, item_match nocase it s1) items)
      else existsb (λ it, item_match nocase it s1) items)
      = xorb neg (existsb (λ it, item_match nocase it s1) items)) as -> by by destruct neg.
    destruct (xorb _ _); cbn [negb]; [|done]. exists pre', p', plen'.
    split; [by apply (Hok pre)|done]. }
  (* an escaped or plain character *)
  assert (∃ used x, c :: r = used ++ x :: rest ∧ tok = TLit x ∧
    (if (c =? ch_bslash) && (2 <=? zlen (c :: r)) then (zlen pre + 1, zlen (c :: r) - 1)
     else (zlen pre, zlen (c :: r))) = (zlen (pre ++ used), zlen (x :: rest)))
    as (used & x & Hused & -> & ->).
  { destruct (c =? ch_bslash) eqn:Hb; [destruct r as [|c' r]|]; injection Htok as <- <-.
    - exists [], c. split_and!; [done|f_equal; lia|]. rewrite app_nil_r. done.
    - exists [c], c'. split_and!; [done..|]. rewrite length_app. cbn [length].
      destruct (2 <=? _) eqn:?; [|lia]. cbn [andb]. f_equal; lia.
    - exists [], c. rewrite app_nil_r. done. }
  assert (rd1 P (zlen (pre ++ used)) = Some x) as ->.
  { rewrite HP, Hused, <-app_assoc, (app_assoc pre). cbn [app]. by apply rd1_app. }
  mrun. rewrite Hs0. mrun. destruct t as [|s1 t]; subst s0.
  - by rewrite Hstart.
  - cbn [token_match]. destruct (ch_eq nocase x s1); cbn [negb]; [|done].
    eexists (pre ++ used ++ [x]), _, _. split; [by apply (Hok pre)|].
    split; [rewrite HP, Hused, <-!app_assoc; done|]. rewrite !length_app. cbn [length]. lia.
Qed.
End matcher.

Section matcher_main.
Context (P S : bytes) (nocase : bool) (rP rS : bytes).

(** The loop over the text after a star, given that the recursive call is right
    on non-empty texts. *)
Lemma star_loop_spec fuel (pre' l : bytes) toks pres t n :
  S = pres ++ t ++ 0 :: rS → glob_match nocase toks [] = false → (length t < n)%nat →
  (∀ pres t, S = pres ++ t ++ 0 :: rS → t ≠ [] →
     stringmatch_fuel fuel P S nocase (zlen pre') (zlen l) (zlen pres) (zlen t)
     = Some (glob_match nocase toks t)) →
  loop n
    (λ st : Z * Z, let '(s, slen) := st in
       if slen =? 0 then Some (inr false)
       else
         r ← stringmatch_fuel fuel P S nocase (zlen pre') (zlen l) s slen;
         Some (if (r : bool) then inr true else inl (s + 1, slen - 1)))
    (zlen pres, zlen t) = Some (existsb (glob_match nocase toks) (suffixes t)).
Proof using.
  intros HS Hnil Hn Hrec. revert pres n HS Hn.
  induction t as [|c t IH]; intros pres n HS Hn; (destruct n as [|n]; [lia|]); cbn [loop].
  - cbn. by rewrite Hnil.
  - destruct (zlen (c :: t) =? 0) eqn:E; [cbn [length] in E; lia|].
    rewrite Hrec by done. mrun. cbn [suffixes existsb].
    destruct (glob_match nocase toks (c :: t)); [done|]. cbn [orb].
    rewrite <-(IH (pres ++ [c]) n); [|by rewrite HS, <-app_assoc|cbn [length] in Hn; lia].
    f_equal. rewrite length_app. cbn [length]. f_equal; lia.
Qed.

Lemma stringmatch_fuel_spec fuel pre l pres t toks :
  P = pre ++ l ++ 0 :: rP → S = pres ++ t ++ 0 :: rS → parse_pattern l = Some toks →
  start_ok nocase toks t → (length l < fuel)%nat →
  stringmatch_fuel fuel P S nocase (zlen pre) (zlen l) (zlen pres) (zlen t)
  = Some (glob_match nocase toks t).
Proof using.
  revert pre l pres t toks. induction fuel as [|fuel IH]; intros pre l pres t toks HP HS Hp Hok Hf; [lia|].
  assert (∀ t' : bytes, (zlen t' =? 0) = match t' with [] => true | _ => false end) as Hz
    by (by intros []).
  cbn [stringmatch_fuel]. destruct l as [|c r].
  { injection Hp as <-. cbn. f_equal. by destruct t. }
  assert (rd1 P (zlen pre) = Some c) as Hc by (rewrite HP; by apply rd1_app).
  rewrite Hz, Hc. mrun.
  destruct (c =? ch_star) eqn:Hstar.
  - assert (c = ch_star) as -> by lia. rewrite parse_pattern_star in Hp.
    destruct (star_split r) as (n & l' & -> & Hl'). rewrite parse_pattern_stars in Hp.
    destruct (parse_pattern l') as [toks'|] eqn:Hpl; [|done]. injection Hp as <-.
    pose proof (skip_stars_spec P rP [ch_star] pre (replicate n ch_star ++ l') n l' HP eq_refl Hl') as Hsk.
    change (zlen (ch_star :: ?x)) with (zlen ([ch_star] ++ x)). rewrite length_app, Nat2Z.inj_add.
    change (zlen [ch_star]) with 1 in *. rewrite Hsk. mrun. rewrite glob_star_stars.
    destruct l' as [|c' l'].
    { injection Hpl as <-. cbn. symmetry. f_equal. apply existsb_elem. exists []. split; [|done].
      apply suffixes_spec. exists t. by rewrite app_nil_r. }
    destruct (1 + zlen (c' :: l') =? 1) eqn:E; [cbn [length] in E; lia|].
    cbn [glob_match]. rewrite Nat2Z.id.
    assert (P = (pre ++ replicate (Datatypes.S n) ch_star) ++ (c' :: l') ++ 0 :: rP) as HP'.
    { rewrite HP, <-(app_assoc pre). cbn [replicate app]. by rewrite <-!app_assoc. }
    replace (zlen pre + Z.of_nat n + 1) with (zlen (pre ++ replicate (Datatypes.S n) ch_star))
      by (rewrite length_app, length_replicate; lia).
    replace (1 + zlen (c' :: l') - 1) with (zlen (c' :: l')) by lia.
    apply (star_loop_spec fuel _ (c' :: l')); [done|by eapply glob_head_nil|lia|].
    intros pres' t' HS' Hne. apply IH; [done|done|done|by intros ->|].
    cbn [length] in Hf. rewrite length_app in Hf. cbn [length] in *. lia.
  - rewrite parse_pattern_head in Hp by lia.
    destruct (head_token (c :: r)) as [[tok rest]|] eqn:Htok; [|done]. revert Hp. mrun.
    destruct (parse_pattern rest) as [toks'|] eqn:Hrest; [|done]. intros [= <-].
    pose proof (head_token_length _ _ _ Htok) as Hlen.
    pose proof (switch_body_spec P S nocase rP rS c r tok rest toks' pre pres t HP HS ltac:(lia) Htok Hok)
      as Hsw.
    rewrite glob_not_star by (by eapply head_token_not_star).
    destruct t as [|s0 t']; [change (zlen (@nil Z)) with 0; by rewrite Hsw|].
    destruct (token_match nocase tok s0); cbn [andb]; [|by rewrite Hsw].
    destruct Hsw as (pre' & p' & plen' & -> & HP' & Hp' & Hpl'). mrun. rewrite Hp', Hpl', Hz.
    destruct t' as [|s1 t'].
    + destruct (star_split rest) as (n & l' & -> & Hl'). rewrite parse_pattern_stars in Hrest.
      destruct (parse_pattern l') as [toks2|] eqn:Hpl; [|done]. injection Hrest as <-.
      pose proof (skip_stars_spec P rP [] pre' _ n l' HP' eq_refl Hl') as Hsk.
      change (zlen (@nil Z)) with 0 in Hsk. rewrite !Z.add_0_l in Hsk. rewrite Hsk. mrun.
      rewrite glob_stars_nil, Hz. change (0 =? 0) with true. rewrite andb_true_r. f_equal.
      destruct l' as [|c' l']; [by injection Hpl as <-|]. symmetry. by eapply glob_head_nil.
    + replace (zlen pres + 1) with (zlen (pres ++ [s0])) by (rewrite length_app; cbn; lia).
      apply IH; [done|by rewrite HS, <-app_assoc|done|done|cbn [length] in *; lia].
Qed.
End matcher_main.

Lemma strlen_app l rest : Forall (λ c, c ≠ 0) l → strlen (l ++ 0 :: rest) = Some (zlen l).
Proof.
  induction 1 as [|c l Hc _ IH]; [done|]. cbn [app strlen]. destruct (c =? 0) eqn:?; [lia|].
  rewrite IH. mrun. f_equal. cbn [length]. lia.
Qed.

(** ** Properties *)



(** the two inputs the theorem above excludes are real: the class of [[^a]*] is tried
    against the terminator of an empty text, which it then matches, and a class ending in
    a backslash makes the matcher read past the end of the pattern. *)
Theorem stringmatchlen_defects :
  (* "[^a]*" matches the empty text, although the class needs a character *)
  stringmatchlen [91; 94; 97; 93; 42; 0] 5 [0] 0 false = Some true ∧
  glob_match false [TClass true [CChar 97]; TStar] [] = false ∧
  (* "[^a]b" on the empty text reads the byte after the terminator *)
  stringmatchlen [91; 94; 97; 93; 98; 0] 5 [0] 0 false = None ∧
  (* the pattern "[\" reads past its own terminator *)
  stringmatchlen [91; 92; 0] 2 [97; 0] 1 false = None ∧
  parse_pattern [91; 92] = None.
Proof. by vm_compute. Qed.
