(* ===== verification/Cluster.v ===== *)
(** * Redis Cluster, the state machine of a node: [cluster.c], [cluster.h]

    The model: hash slots of keys, the node table and its pointers, the slot
    bitmaps, configuration epochs, failure detection, votes, and the parts of
    [clusterProcessPacket] that change this state.  The theorems about it are in
    [ClusterSpec]. *)

From S2P Require Import Prelude Crc.

#[local] Open Scope Z_scope.

(** ** Constants of [cluster.h] *)
Definition REDIS_CLUSTER_SLOTS : Z := 16384.
Definition REDIS_CLUSTER_OK : Z := 0.
Definition REDIS_CLUSTER_FAIL : Z := 1.
Definition REDIS_CLUSTER_NAMELEN : nat := 40.
Definition REDIS_CLUSTER_FAIL_REPORT_VALIDITY_MULT : Z := 2.
Definition REDIS_CLUSTER_FAIL_UNDO_TIME_MULT : Z := 2.
Definition REDIS_CLUSTER_MF_TIMEOUT : Z := 5000.
Definition REDIS_CLUSTER_MAX_REJOIN_DELAY : Z := 5000.
Definition REDIS_CLUSTER_MIN_REJOIN_DELAY : Z := 500.
Definition REDIS_CLUSTER_WRITABLE_DELAY : Z := 2000.
Definition REDIS_NODE_MASTER : Z := 1.
Definition REDIS_NODE_SLAVE : Z := 2.
Definition REDIS_NODE_PFAIL : Z := 4.
Definition REDIS_NODE_FAIL : Z := 8.
Definition REDIS_NODE_MYSELF : Z := 16.
Definition REDIS_NODE_HANDSHAKE : Z := 32.
Definition CLUSTER_TODO_HANDLE_FAILOVER : Z := 1.
Definition CLUSTER_TODO_UPDATE_STATE : Z := 2.
Definition CLUSTER_TODO_SAVE_CONFIG : Z := 4.
Definition CLUSTER_TODO_FSYNC_CONFIG : Z := 8.
Definition CLUSTERMSG_FLAG0_PAUSED : Z := 1.
Definition CLUSTERMSG_FLAG0_FORCEACK : Z := 2.

(** ** [keyHashSlot] *)

(** [for (i = from; i < len; i++) if (key[i] == ch) break;] *)
Definition find_char (key : bytes) (ch from len : Z) : option Z :=
  loop (1 + Z.to_nat (len - from))
    (λ i : Z, if i <? len then
         c ← rd1 key i;
         Some (if c =? ch then inr i else inl (i + 1))
       else Some (inr i))
    from.

Definition keyHashSlot (key : bytes) (keylen : Z) : option Z :=
  s ← find_char key 123 0 keylen;
  if s =? keylen then h ← crc16 key keylen; Some (Z.land h 0x3FFF)
  else
    e ← find_char key 125 (s + 1) keylen;
    if (e =? keylen) || (e =? s + 1) then h ← crc16 key keylen; Some (Z.land h 0x3FFF)
    else h ← crc16 (drop (Z.to_nat (s + 1)) key) (e - s - 1); Some (Z.land h 0x3FFF).

(** ** Nodes and cluster state

    A pointer to a node is its address, a [positive]; NULL is [None].  Of
    [clusterNode] the fields about the TCP link, the network address and the
    times of pings are left out, except whether there is a link; [numslaves] is
    the length of [slaves]. *)
Abbreviation ptr := positive.

Record clusterNode := mk_node {
  name : bytes;
  flags : Z;
  configEpoch : Z;
  slot_bits : bytes; (* the bitmap [slots] *)
  numslots : Z;
  slaves : list ptr;
  slaveof : option ptr;
  fail_time : Z;
  voted_time : Z;
  repl_offset : Z;
  link : bool; (* has a TCP link *)
  fail_reports : list (ptr * Z);
}.


(** Calls to parts of the server that are not modelled. *)
Inductive event :=
  | clusterSendFail (nodename : bytes)
  | SendFailoverAuthAck (to : ptr) (epoch : Z)
  | clusterSendUpdate (to about : ptr)
  | delKeysInSlot (slot : Z)
  | replicationSetMaster (master : ptr)
  | replicationUnsetMaster
  | clusterBroadcastPong
  | pauseClients (until : Z)
  | unpauseClients
  | clusterSaveConfigOrDie (do_fsync : Z).

Record cluster := mk_cluster {
  heap : gmap ptr clusterNode; (* every node allocated *)
  nodes : gmap bytes ptr; (* the dict from names to nodes *)
  myself : ptr;
  currentEpoch : Z;
  state : Z;
  size_ : Z; (* the field [size] *)
  migrating_slots_to : gmap Z ptr;
  importing_slots_from : gmap Z ptr;
  slots : gmap Z ptr;
  failover_auth_count : Z;
  failover_auth_epoch : Z;
  mf_end : Z;
  mf_slave : option ptr;
  mf_master_offset : Z;
  mf_can_start : Z;
  lastVoteEpoch : Z;
  todo_before_sleep : Z;
  among_minority_time : Z; (* static in [clusterUpdateState] *)
  first_call_time : Z; (* static in [clusterUpdateState] *)
  events : list event; (* calls to other parts, in order *)
}.

(** Field updates. *)
Definition set_name (x : bytes) (n : clusterNode) : clusterNode :=
  mk_node x (flags n) (configEpoch n) (slot_bits n) (numslots n) (slaves n) (slaveof n)
   (fail_time n) (voted_time n) (repl_offset n) (link n) (fail_reports n).
Definition set_flags (x : Z) (n : clusterNode) : clusterNode :=
  mk_node (name n) x (configEpoch n) (slot_bits n) (numslots n) (slaves n) (slaveof n)
   (fail_time n) (voted_time n) (repl_offset n) (link n) (fail_reports n).
Definition set_configEpoch (x : Z) (n : clusterNode) : clusterNode :=
  mk_node (name n) (flags n) x (slot_bits n) (numslots n) (slaves n) (slaveof n) (fail_time n)
   (voted_time n) (repl_offset n) (link n) (fail_reports n).
Definition set_slot_bits (x : bytes) (n : clusterNode) : clusterNode :=
  mk_node (name n) (flags n) (configEpoch n) x (numslots n) (slaves n) (slaveof n) (fail_time n)
   (voted_time n) (repl_offset n) (link n) (fail_reports n).
Definition set_numslots (x : Z) (n : clusterNode) : clusterNode :=
  mk_node (name n) (flags n) (configEpoch n) (slot_bits n) x (slaves n) (slaveof n) (fail_time n)
   (voted_time n) (repl_offset n) (link n) (fail_reports n).
Definition set_slaves (x : list ptr) (n : clusterNode) : clusterNode :=
  mk_node (name n) (flags n) (configEpoch n) (slot_bits n) (numslots n) x (slaveof n)
   (fail_time n) (voted_time n) (repl_offset n) (link n) (fail_reports n).
Definition set_slaveof (x : option ptr) (n : clusterNode) : clusterNode :=
  mk_node (name n) (flags n) (configEpoch n) (slot_bits n) (numslots n) (slaves n) x (fail_time n)
   (voted_time n) (repl_offset n) (link n) (fail_reports n).
Definition set_fail_time (x : Z) (n : clusterNode) : clusterNode :=
  mk_node (name n) (flags n) (configEpoch n) (slot_bits n) (numslots n) (slaves n) (slaveof n) x
   (voted_time n) (repl_offset n) (link n) (fail_reports n).
Definition set_voted_time (x : Z) (n : clusterNode) : clusterNode :=
  mk_node (name n) (flags n) (configEpoch n) (slot_bits n) (numslots n) (slaves n) (slaveof n)
   (fail_time n) x (repl_offset n) (link n) (fail_reports n).
Definition set_repl_offset (x : Z) (n : clusterNode) : clusterNode :=
  mk_node (name n) (flags n) (configEpoch n) (slot_bits n) (numslots n) (slaves n) (slaveof n)
   (fail_time n) (voted_time n) x (link n) (fail_reports n).
Definition set_fail_reports (x : list (ptr * Z)) (n : clusterNode) : clusterNode :=
  mk_node (name n) (flags n) (configEpoch n) (slot_bits n) (numslots n) (slaves n) (slaveof n)
   (fail_time n) (voted_time n) (repl_offset n) (link n) x.

Definition set_heap (x : gmap ptr clusterNode) (c : cluster) : cluster :=
  mk_cluster x (nodes c) (myself c) (currentEpoch c) (state c) (size_ c) (migrating_slots_to c)
   (importing_slots_from c) (slots c) (failover_auth_count c) (failover_auth_epoch c) (mf_end c)
   (mf_slave c) (mf_master_offset c) (mf_can_start c) (lastVoteEpoch c) (todo_before_sleep c)
   (among_minority_time c) (first_call_time c) (events c).
Definition set_nodes (x : gmap bytes ptr) (c : cluster) : cluster :=
  mk_cluster (heap c) x (myself c) (currentEpoch c) (state c) (size_ c) (migrating_slots_to c)
   (importing_slots_from c) (slots c) (failover_auth_count c) (failover_auth_epoch c) (mf_end c)
   (mf_slave c) (mf_master_offset c) (mf_can_start c) (lastVoteEpoch c) (todo_before_sleep c)
   (among_minority_time c) (first_call_time c) (events c).
Definition set_currentEpoch (x : Z) (c : cluster) : cluster :=
  mk_cluster (heap c) (nodes c) (myself c) x (state c) (size_ c) (migrating_slots_to c)
   (importing_slots_from c) (slots c) (failover_auth_count c) (failover_auth_epoch c) (mf_end c)
   (mf_slave c) (mf_master_offset c) (mf_can_start c) (lastVoteEpoch c) (todo_before_sleep c)
   (among_minority_time c) (first_call_time c) (events c).
Definition set_state (x : Z) (c : cluster) : cluster :=
  mk_cluster (heap c) (nodes c) (myself c) (currentEpoch c) x (size_ c) (migrating_slots_to c)
   (importing_slots_from c) (slots c) (failover_auth_count c) (failover_auth_epoch c) (mf_end c)
   (mf_slave c) (mf_master_offset c) (mf_can_start c) (lastVoteEpoch c) (todo_before_sleep c)
   (among_minority_time c) (first_call_time c) (events c).
Definition set_size_ (x : Z) (c : cluster) : cluster :=
  mk_cluster (heap c) (nodes c) (myself c) (currentEpoch c) (state c) x (migrating_slots_to c)
   (importing_slots_from c) (slots c) (failover_auth_count c) (failover_auth_epoch c) (mf_end c)
   (mf_slave c) (mf_master_offset c) (mf_can_start c) (lastVoteEpoch c) (todo_before_sleep c)
   (among_minority_time c) (first_call_time c) (events c).
Definition set_migrating_slots_to (x : gmap Z ptr) (c : cluster) : cluster :=
  mk_cluster (heap c) (nodes c) (myself c) (currentEpoch c) (state c) (size_ c) x
   (importing_slots_from c) (slots c) (failover_auth_count c) (failover_auth_epoch c) (mf_end c)
   (mf_slave c) (mf_master_offset c) (mf_can_start c) (lastVoteEpoch c) (todo_before_sleep c)
   (among_minority_time c) (first_call_time c) (events c).
Definition set_importing_slots_from (x : gmap Z ptr) (c : cluster) : cluster :=
  mk_cluster (heap c) (nodes c) (myself c) (currentEpoch c) (state c) (size_ c)
   (migrating_slots_to c) x (slots c) (failover_auth_count c) (failover_auth_epoch c) (mf_end c)
   (mf_slave c) (mf_master_offset c) (mf_can_start c) (lastVoteEpoch c) (todo_before_sleep c)
   (among_minority_time c) (first_call_time c) (events c).
Definition set_slots (x : gmap Z ptr) (c : cluster) : cluster :=
  mk_cluster (heap c) (nodes c) (myself c) (currentEpoch c) (state c) (size_ c)
   (migrating_slots_to c) (importing_slots_from c) x (failover_auth_count c)
   (failover_auth_epoch c) (mf_end c) (mf_slave c) (mf_master_offset c) (mf_can_start c)
   (lastVoteEpoch c) (todo_before_sleep c) (among_minority_time c) (first_call_time c) (events c).
Definition set_failover_auth_count (x : Z) (c : cluster) : cluster :=
  mk_cluster (heap c) (nodes c) (myself c) (currentEpoch c) (state c) (size_ c)
   (migrating_slots_to c) (importing_slots_from c) (slots c) x (failover_auth_epoch c) (mf_end c)
   (mf_slave c) (mf_master_offset c) (mf_can_start c) (lastVoteEpoch c) (todo_before_sleep c)
   (among_minority_time c) (first_call_time c) (events c).
Definition set_mf_end (x : Z) (c : cluster) : cluster :=
  mk_cluster (heap c) (nodes c) (myself c) (currentEpoch c) (state c) (size_ c)
   (migrating_slots_to c) (importing_slots_from c) (slots c) (failover_auth_count c)
   (failover_auth_epoch c) x (mf_slave c) (mf_master_offset c) (mf_can_start c) (lastVoteEpoch c)
   (todo_before_sleep c) (among_minority_time c) (first_call_time c) (events c).
Definition set_mf_slave (x : option ptr) (c : cluster) : cluster :=
  mk_cluster (heap c) (nodes c) (myself c) (currentEpoch c) (state c) (size_ c)
   (migrating_slots_to c) (importing_slots_from c) (slots c) (failover_auth_count c)
   (failover_auth_epoch c) (mf_end c) x (mf_master_offset c) (mf_can_start c) (lastVoteEpoch c)
   (todo_before_sleep c) (among_minority_time c) (first_call_time c) (events c).
Definition set_mf_master_offset (x : Z) (c : cluster) : cluster :=
  mk_cluster (heap c) (nodes c) (myself c) (currentEpoch c) (state c) (size_ c)
   (migrating_slots_to c) (importing_slots_from c) (slots c) (failover_auth_count c)
   (failover_auth_epoch c) (mf_end c) (mf_slave c) x (mf_can_start c) (lastVoteEpoch c)
   (todo_before_sleep c) (among_minority_time c) (first_call_time c) (events c).
Definition set_mf_can_start (x : Z) (c : cluster) : cluster :=
  mk_cluster (heap c) (nodes c) (myself c) (currentEpoch c) (state c) (size_ c)
   (migrating_slots_to c) (importing_slots_from c) (slots c) (failover_auth_count c)
   (failover_auth_epoch c) (mf_end c) (mf_slave c) (mf_master_offset c) x (lastVoteEpoch c)
   (todo_before_sleep c) (among_minority_time c) (first_call_time c) (events c).
Definition set_lastVoteEpoch (x : Z) (c : cluster) : cluster :=
  mk_cluster (heap c) (nodes c) (myself c) (currentEpoch c) (state c) (size_ c)
   (migrating_slots_to c) (importing_slots_from c) (slots c) (failover_auth_count c)
   (failover_auth_epoch c) (mf_end c) (mf_slave c) (mf_master_offset c) (mf_can_start c) x
   (todo_before_sleep c) (among_minority_time c) (first_call_time c) (events c).
Definition set_todo_before_sleep (x : Z) (c : cluster) : cluster :=
  mk_cluster (heap c) (nodes c) (myself c) (currentEpoch c) (state c) (size_ c)
   (migrating_slots_to c) (importing_slots_from c) (slots c) (failover_auth_count c)
   (failover_auth_epoch c) (mf_end c) (mf_slave c) (mf_master_offset c) (mf_can_start c)
   (lastVoteEpoch c) x (among_minority_time c) (first_call_time c) (events c).
Definition set_among_minority_time (x : Z) (c : cluster) : cluster :=
  mk_cluster (heap c) (nodes c) (myself c) (currentEpoch c) (state c) (size_ c)
   (migrating_slots_to c) (importing_slots_from c) (slots c) (failover_auth_count c)
   (failover_auth_epoch c) (mf_end c) (mf_slave c) (mf_master_offset c) (mf_can_start c)
   (lastVoteEpoch c) (todo_before_sleep c) x (first_call_time c) (events c).
Definition set_first_call_time (x : Z) (c : cluster) : cluster :=
  mk_cluster (heap c) (nodes c) (myself c) (currentEpoch c) (state c) (size_ c)
   (migrating_slots_to c) (importing_slots_from c) (slots c) (failover_auth_count c)
   (failover_auth_epoch c) (mf_end c) (mf_slave c) (mf_master_offset c) (mf_can_start c)
   (lastVoteEpoch c) (todo_before_sleep c) (among_minority_time c) x (events c).
Definition set_events (x : list event) (c : cluster) : cluster :=
  mk_cluster (heap c) (nodes c) (myself c) (currentEpoch c) (state c) (size_ c)
   (migrating_slots_to c) (importing_slots_from c) (slots c) (failover_auth_count c)
   (failover_auth_epoch c) (mf_end c) (mf_slave c) (mf_master_offset c) (mf_can_start c)
   (lastVoteEpoch c) (todo_before_sleep c) (among_minority_time c) (first_call_time c) x.

(** ** The monad of handlers: the cluster state, and undefined behaviour *)
Definition M (A : Type) : Type := cluster → option (A * cluster).

#[export] Instance M_ret : MRet M := λ A a c, Some (a, c).
#[export] Instance M_bind : MBind M := λ A B f m c,
  match m c with Some (a, c') => f a c' | None => None end.

Definition get : M cluster := λ c, Some (c, c).
Definition upd (f : cluster → cluster) : M unit := λ c, Some (tt, f c).
Definition lift {A} (o : option A) : M A := λ c, a ← o; Some (a, c).
(** [*p] is undefined when [p] is dangling. *)
Definition load (p : ptr) : M clusterNode := λ c, n ← heap c !! p; Some (n, c).
Definition store (p : ptr) (f : clusterNode → clusterNode) : M unit := λ c,
  n ← heap c !! p; Some (tt, set_heap (<[p := f n]> (heap c)) c).
Definition redisAssert (b : bool) : M unit := λ c, if b then Some (tt, c) else None.
Definition when (b : bool) (m : M unit) : M unit := if b then m else mret tt.
Definition emit (e : event) : M unit := upd (λ c, set_events (events c ++ [e]) c).

(** [for (...) s = body(x, s)]. *)
Fixpoint foldM {A S} (body : S → A → M S) (l : list A) (s : S) : M S :=
  match l with
  | [] => mret s
  | x :: l => s ← body s x; foldM body l s
  end.

(** [for (...) if (test(x)) break]: whether the loop was left early. *)
Fixpoint existsM {A} (test : A → M bool) (l : list A) : M bool :=
  match l with
  | [] => mret false
  | x :: l => b ← test x; if (b : bool) then mret true else existsM test l
  end.

Definition forM {A} (l : list A) (body : A → M unit) : M unit := foldM (λ _, body) l tt.

(** [for (j = 0; j < REDIS_CLUSTER_SLOTS; j++)]. *)
Definition all_slots : list Z := seqZ 0 REDIS_CLUSTER_SLOTS.

(** An access to one of the arrays of [REDIS_CLUSTER_SLOTS] pointers. *)
Definition slot_get (m : gmap Z ptr) (slot : Z) : M (option ptr) :=
  if (0 <=? slot) && (slot <? REDIS_CLUSTER_SLOTS) then mret (m !! slot) else lift None.

(** The nodes a dict iterator visits; the order is left to [gmap], the loops
    over it do not depend on it. *)
Definition dict_vals (d : gmap bytes ptr) : list ptr := (map_to_list d).*2.

(** ** Flags *)
Definition has_flag (n : clusterNode) (f : Z) : bool := negb (Z.land (flags n) f =? 0).
Definition nodeIsMaster (n : clusterNode) : bool := has_flag n REDIS_NODE_MASTER.
Definition nodeIsSlave (n : clusterNode) : bool := has_flag n REDIS_NODE_SLAVE.
Definition nodeTimedOut (n : clusterNode) : bool := has_flag n REDIS_NODE_PFAIL.
Definition nodeFailed (n : clusterNode) : bool := has_flag n REDIS_NODE_FAIL.
Definition nodeInHandshake (n : clusterNode) : bool := has_flag n REDIS_NODE_HANDSHAKE.
Definition clear_flag (f : Z) (n : clusterNode) : clusterNode := set_flags (Z.land (flags n) (Z.lnot f)) n.
Definition add_flag (f : Z) (n : clusterNode) : clusterNode := set_flags (Z.lor (flags n) f) n.

Definition clusterDoBeforeSleep (fl : Z) : M unit :=
  upd (λ c, set_todo_before_sleep (Z.lor (todo_before_sleep c) fl) c).

(** [server.cluster->currentEpoch++], a [uint64_t]. *)
Definition next_epoch (e : Z) : Z := u64 (e + 1).

(** ** Bitmaps *)

Definition bitmapTestBit (bitmap : bytes) (pos : Z) : option bool :=
  b ← rd1 bitmap (Z.quot pos 8);
  Some (negb (Z.land b (Z.shiftl 1 (Z.land pos 7)) =? 0)).

Definition bitmapSetBit (bitmap : bytes) (pos : Z) : option bytes :=
  b ← rd1 bitmap (Z.quot pos 8);
  wr1 bitmap (Z.quot pos 8) (u8 (Z.lor b (Z.shiftl 1 (Z.land pos 7)))).

Definition bitmapClearBit (bitmap : bytes) (pos : Z) : option bytes :=
  b ← rd1 bitmap (Z.quot pos 8);
  wr1 bitmap (Z.quot pos 8) (u8 (Z.land b (Z.lnot (Z.shiftl 1 (Z.land pos 7))))).

(** ** Slots *)

Definition clusterNodeSetSlotBit (p : ptr) (slot : Z) : M bool :=
  n ← load p;
  old ← lift (bitmapTestBit (slot_bits n) slot);
  b ← lift (bitmapSetBit (slot_bits n) slot);
  store p (set_slot_bits b);;
  when (negb old) (store p (λ n, set_numslots (numslots n + 1) n));;
  mret old.

Definition clusterNodeClearSlotBit (p : ptr) (slot : Z) : M bool :=
  n ← load p;
  old ← lift (bitmapTestBit (slot_bits n) slot);
  b ← lift (bitmapClearBit (slot_bits n) slot);
  store p (set_slot_bits b);;
  when old (store p (λ n, set_numslots (numslots n - 1) n));;
  mret old.

Definition clusterNodeGetSlotBit (p : ptr) (slot : Z) : M bool :=
  n ← load p;
  lift (bitmapTestBit (slot_bits n) slot).

(** [true] is [REDIS_OK], [false] is [REDIS_ERR]. *)
Definition clusterAddSlot (p : ptr) (slot : Z) : M bool :=
  c ← get;
  owner ← slot_get (slots c) slot;
  match owner with
  | Some _ => mret false
  | None =>
    clusterNodeSetSlotBit p slot;;
    upd (λ c, set_slots (<[slot := p]> (slots c)) c);;
    mret true
  end.

Definition clusterDelSlot (slot : Z) : M bool :=
  c ← get;
  owner ← slot_get (slots c) slot;
  match owner with
  | None => mret false
  | Some p =>
    old ← clusterNodeClearSlotBit p slot;
    redisAssert old;;
    upd (λ c, set_slots (delete slot (slots c)) c);;
    mret true
  end.

(** [deleted++] is outside the [if]. *)
Definition clusterDelNodeSlots (p : ptr) : M Z :=
  foldM (λ deleted j,
    bit ← clusterNodeGetSlotBit p j;
    when bit (clusterDelSlot j;; mret tt);;
    mret (deleted + 1)) all_slots 0.

Definition clusterCloseAllSlots : M unit :=
  upd (λ c, set_importing_slots_from ∅ (set_migrating_slots_to ∅ c)).

(** ** The node table *)

(** [memset(node->slots, 0, sizeof(node->slots))]. *)
Definition zero_slots : bytes := replicate 2048 0.

(** [nodename = NULL] asks for a random name, [random]. *)
Definition createClusterNode (nodename : option bytes) (random : bytes) (fl : Z) : M ptr :=
  c ← get;
  let p := base.fresh (dom (heap c)) in
  let n := mk_node (default random nodename) fl 0 zero_slots 0 [] None 0 0 0 false [] in
  upd (λ c, set_heap (<[p := n]> (heap c)) c);;
  mret p.

Fixpoint remove_slave (l : list ptr) (slave : ptr) : option (list ptr) :=
  match l with
  | [] => None
  | x :: l => if decide (x = slave) then Some l else cons x <$> remove_slave l slave
  end.

Definition clusterNodeRemoveSlave (master slave : ptr) : M bool :=
  m ← load master;
  match remove_slave (slaves m) slave with
  | Some l => store master (set_slaves l);; mret true
  | None => mret false
  end.

Definition clusterNodeAddSlave (master slave : ptr) : M bool :=
  m ← load master;
  if decide (slave ∈ slaves m) then mret false
  else store master (set_slaves (slaves m ++ [slave]));; mret true.

Definition clusterNodeResetSlaves (p : ptr) : M unit := store p (set_slaves []).

Definition clusterCountNonFailingSlaves (p : ptr) : M Z :=
  n ← load p;
  foldM (λ okslaves s, sn ← load s; mret (if nodeFailed sn then okslaves else okslaves + 1))
    (slaves n) 0.

Definition clusterAddNode (p : ptr) : M bool :=
  n ← load p;
  c ← get;
  match nodes c !! name n with
  | Some _ => mret false
  | None => upd (λ c, set_nodes (<[name n := p]> (nodes c)) c);; mret true
  end.

Definition clusterLookupNode (nm : bytes) : M (option ptr) :=
  c ← get; mret (nodes c !! nm).

Definition clusterRenameNode (p : ptr) (newname : bytes) : M unit :=
  n ← load p;
  c ← get;
  redisAssert (bool_decide (is_Some (nodes c !! name n)));;
  upd (λ c, set_nodes (delete (name n) (nodes c)) c);;
  store p (set_name newname);;
  clusterAddNode p;;
  mret tt.

(** The link and the other blocks the node owns go with it. *)
Definition freeClusterNode (p : ptr) : M unit :=
  n ← load p;
  when (nodeIsMaster n) (forM (slaves n) (λ s, store s (set_slaveof None)));;
  n ← load p;
  match slaveof n with
  | Some m => when (nodeIsSlave n) (clusterNodeRemoveSlave m p;; mret tt)
  | None => mret tt
  end;;
  n ← load p;
  c ← get;
  redisAssert (bool_decide (is_Some (nodes c !! name n)));;
  upd (λ c, set_nodes (delete (name n) (nodes c)) c);;
  upd (λ c, set_heap (delete p (heap c)) c).

Section handlers.
(** [mstime()] during the handler, [server.cluster_node_timeout],
    [server.cluster_require_full_coverage], [countKeysInSlot] and
    [clientsArePaused()]. *)
Context (now cluster_node_timeout : Z) (cluster_require_full_coverage : bool).
Context (countKeysInSlot : Z → Z) (clientsArePaused : bool).

(** ** Failure reports *)

Fixpoint update_report (l : list (ptr * Z)) (sender : ptr) : option (list (ptr * Z)) :=
  match l with
  | [] => None
  | (q, t) :: l =>
    if decide (q = sender) then Some ((q, now) :: l) else cons (q, t) <$> update_report l sender
  end.

(** [true] when a new report is created. *)
Definition clusterNodeAddFailureReport (failing sender : ptr) : M bool :=
  n ← load failing;
  match update_report (fail_reports n) sender with
  | Some l => store failing (set_fail_reports l);; mret false
  | None => store failing (set_fail_reports (fail_reports n ++ [(sender, now)]));; mret true
  end.

Definition clusterNodeCleanupFailureReports (p : ptr) : M unit :=
  let maxtime := cluster_node_timeout * REDIS_CLUSTER_FAIL_REPORT_VALIDITY_MULT in
  store p (λ n, set_fail_reports
    (filter (λ r : ptr * Z, ¬ (now - r.2 > maxtime)) (fail_reports n)) n).

Fixpoint remove_report (l : list (ptr * Z)) (sender : ptr) : option (list (ptr * Z)) :=
  match l with
  | [] => None
  | (q, t) :: l => if decide (q = sender) then Some l else cons (q, t) <$> remove_report l sender
  end.

Definition clusterNodeDelFailureReport (p sender : ptr) : M bool :=
  n ← load p;
  match remove_report (fail_reports n) sender with
  | None => mret false
  | Some l => store p (set_fail_reports l);; clusterNodeCleanupFailureReports p;; mret true
  end.

Definition clusterNodeFailureReportsCount (p : ptr) : M Z :=
  clusterNodeCleanupFailureReports p;;
  n ← load p;
  mret (zlen (fail_reports n)).

Definition clusterDelNode (delnode : ptr) : M unit :=
  forM all_slots (λ j,
    c ← get;
    when (bool_decide (importing_slots_from c !! j = Some delnode))
      (upd (λ c, set_importing_slots_from (delete j (importing_slots_from c)) c));;
    when (bool_decide (migrating_slots_to c !! j = Some delnode))
      (upd (λ c, set_migrating_slots_to (delete j (migrating_slots_to c)) c));;
    when (bool_decide (slots c !! j = Some delnode)) (clusterDelSlot j;; mret tt));;
  c ← get;
  forM (dict_vals (nodes c)) (λ p,
    when (negb (bool_decide (p = delnode))) (clusterNodeDelFailureReport p delnode;; mret tt));;
  freeClusterNode delnode.

(** ** Configuration epochs *)

Definition clusterGetMaxEpoch : M Z :=
  c ← get;
  max ← foldM (λ max p, n ← load p; mret (if configEpoch n >? max then configEpoch n else max))
    (dict_vals (nodes c)) 0;
  mret (if max <? currentEpoch c then currentEpoch c else max).

(** [server.cluster->currentEpoch++; myself->configEpoch = server.cluster->currentEpoch;] *)
Definition take_next_epoch : M unit :=
  upd (λ c, set_currentEpoch (next_epoch (currentEpoch c)) c);;
  c ← get;
  store (myself c) (set_configEpoch (currentEpoch c)).

Definition clusterBumpConfigEpochWithoutConsensus : M bool :=
  maxEpoch ← clusterGetMaxEpoch;
  c ← get;
  me ← load (myself c);
  if (configEpoch me =? 0) || negb (configEpoch me =? maxEpoch) then
    take_next_epoch;;
    clusterDoBeforeSleep (Z.lor CLUSTER_TODO_SAVE_CONFIG CLUSTER_TODO_FSYNC_CONFIG);;
    mret true
  else mret false.

(** [memcmp(a, b, REDIS_CLUSTER_NAMELEN) <= 0] for names of that length. *)
Fixpoint memcmp_le (a b : bytes) : bool :=
  match a, b with
  | x :: a, y :: b => (x <? y) || ((x =? y) && memcmp_le a b)
  | _, _ => true
  end.

Definition clusterHandleConfigEpochCollision (sender : ptr) : M unit :=
  c ← get;
  s ← load sender;
  me ← load (myself c);
  if negb (configEpoch s =? configEpoch me) || negb (nodeIsMaster s) || negb (nodeIsMaster me)
  then mret tt
  else if memcmp_le (name s) (name me) then mret tt
  else take_next_epoch;; emit (clusterSaveConfigOrDie 1).

(** ** Failure detection *)

Definition markNodeAsFailingIfNeeded (p : ptr) : M unit :=
  c ← get;
  let needed_quorum := Z.quot (size_ c) 2 + 1 in
  n ← load p;
  if negb (nodeTimedOut n) then mret tt
  else if nodeFailed n then mret tt
  else
    failures ← clusterNodeFailureReportsCount p;
    me ← load (myself c);
    let failures := if nodeIsMaster me then failures + 1 else failures in
    if failures <? needed_quorum then mret tt
    else
      store p (clear_flag REDIS_NODE_PFAIL);;
      store p (add_flag REDIS_NODE_FAIL);;
      store p (set_fail_time now);;
      me ← load (myself c);
      n ← load p;
      when (nodeIsMaster me) (emit (clusterSendFail (name n)));;
      clusterDoBeforeSleep (Z.lor CLUSTER_TODO_UPDATE_STATE CLUSTER_TODO_SAVE_CONFIG).

Definition clearNodeFailureIfNeeded (p : ptr) : M unit :=
  n ← load p;
  redisAssert (nodeFailed n);;
  when (nodeIsSlave n || (numslots n =? 0))
    (store p (clear_flag REDIS_NODE_FAIL);;
     clusterDoBeforeSleep (Z.lor CLUSTER_TODO_UPDATE_STATE CLUSTER_TODO_SAVE_CONFIG));;
  n ← load p;
  when (nodeIsMaster n && (numslots n >? 0) &&
        (now - fail_time n >? cluster_node_timeout * REDIS_CLUSTER_FAIL_UNDO_TIME_MULT))
    (store p (clear_flag REDIS_NODE_FAIL);;
     clusterDoBeforeSleep (Z.lor CLUSTER_TODO_UPDATE_STATE CLUSTER_TODO_SAVE_CONFIG)).

(** ** Manual failover, roles *)

Definition resetManualFailover : M unit :=
  c ← get;
  when (negb (mf_end c =? 0) && clientsArePaused) (emit unpauseClients);;
  upd (λ c, set_mf_master_offset 0 (set_mf_slave None (set_mf_can_start 0 (set_mf_end 0 c)))).

Definition clusterSetNodeAsMaster (p : ptr) : M unit :=
  n ← load p;
  if nodeIsMaster n then mret tt
  else
    match slaveof n with
    | Some m => clusterNodeRemoveSlave m p;; mret tt
    | None => mret tt
    end;;
    store p (clear_flag REDIS_NODE_SLAVE);;
    store p (add_flag REDIS_NODE_MASTER);;
    store p (set_slaveof None);;
    clusterDoBeforeSleep (Z.lor CLUSTER_TODO_SAVE_CONFIG CLUSTER_TODO_UPDATE_STATE).

Definition clusterSetMaster (p : ptr) : M unit :=
  c ← get;
  let myself := myself c in
  redisAssert (negb (bool_decide (p = myself)));;
  me ← load myself;
  redisAssert (numslots me =? 0);;
  (if nodeIsMaster me then
     store myself (clear_flag REDIS_NODE_MASTER);;
     store myself (add_flag REDIS_NODE_SLAVE);;
     clusterCloseAllSlots
   else
     match slaveof me with
     | Some m => clusterNodeRemoveSlave m myself;; mret tt
     | None => mret tt
     end);;
  store myself (set_slaveof (Some p));;
  clusterNodeAddSlave p myself;;
  emit (replicationSetMaster p);;
  resetManualFailover.

(** ** Rebinding slots to a node that claims them *)

(** [curmaster->numslots == 0] is evaluated only when [newmaster] is set; the
    pointer [curmaster] may be NULL. *)
Definition load_opt (o : option ptr) : M clusterNode :=
  match o with Some p => load p | None => lift None end.

(** The body of the loop over the slots; the state is whether [newmaster] is
    set, and [dirty_slots]. *)
Definition update_slot (sender : ptr) (senderConfigEpoch : Z) (bitmap : bytes)
    (curmaster : option ptr) (acc : bool * list Z) (j : Z) : M (bool * list Z) :=
  let '(newmaster, dirty_slots) := acc in
  bit ← lift (bitmapTestBit bitmap j);
  if negb bit then mret acc
  else
    c ← get;
    owner ← slot_get (slots c) j;
    importing ← slot_get (importing_slots_from c) j;
    if bool_decide (owner = Some sender) then mret acc
    else if bool_decide (is_Some importing) then mret acc
    else
      rebind ← match owner with
               | None => mret true
               | Some o => n ← load o; mret (configEpoch n <? senderConfigEpoch)
               end;
      if negb rebind then mret acc
      else
        let dirty_slots :=
          if bool_decide (owner = Some (myself c)) && negb (countKeysInSlot j =? 0) &&
             negb (bool_decide (sender = myself c))
          then dirty_slots ++ [j] else dirty_slots in
        let newmaster := newmaster || bool_decide (owner = curmaster) in
        clusterDelSlot j;;
        clusterAddSlot sender j;;
        clusterDoBeforeSleep (Z.lor (Z.lor CLUSTER_TODO_SAVE_CONFIG CLUSTER_TODO_UPDATE_STATE)
                                CLUSTER_TODO_FSYNC_CONFIG);;
        mret (newmaster, dirty_slots).

Definition clusterUpdateSlotsConfigWith (sender : ptr) (senderConfigEpoch : Z) (bitmap : bytes) : M unit :=
  c ← get;
  me ← load (myself c);
  let curmaster := if nodeIsMaster me then Some (myself c) else slaveof me in
  if bool_decide (sender = myself c) then mret tt
  else
    r ← foldM (update_slot sender senderConfigEpoch bitmap curmaster) all_slots (false, []);
    let '(newmaster, dirty_slots) := r : bool * list Z in
    demote ← (if newmaster then n ← load_opt curmaster; mret (numslots n =? 0) else mret false);
    if (demote : bool) then
      clusterSetMaster sender;;
      clusterDoBeforeSleep (Z.lor (Z.lor CLUSTER_TODO_SAVE_CONFIG CLUSTER_TODO_UPDATE_STATE)
                              CLUSTER_TODO_FSYNC_CONFIG)
    else forM dirty_slots (λ j, emit (delKeysInSlot j)).

(** ** Votes *)

Definition clusterSendFailoverAuth (p : ptr) : M unit :=
  n ← load p;
  if negb (link n) then mret tt
  else c ← get; emit (SendFailoverAuthAck p (currentEpoch c)).

(** The fields of the request that are read. *)
Record auth_request := mk_auth_request {
  req_currentEpoch : Z; req_configEpoch : Z; req_myslots : bytes; req_mflags0 : Z }.

(** A slot of the request whose owner has a greater epoch than the request. *)
Definition newer_owner (claimed_slots : bytes) (requestConfigEpoch : Z) (j : Z) : M bool :=
  bit ← lift (bitmapTestBit claimed_slots j);
  if negb bit then mret false
  else
    c ← get;
    owner ← slot_get (slots c) j;
    match owner with
    | None => mret false
    | Some o => n ← load o; mret (negb (configEpoch n <=? requestConfigEpoch))
    end.

Definition clusterSendFailoverAuthIfNeeded (p : ptr) (request : auth_request) : M unit :=
  n ← load p;
  let master := slaveof n in
  let force_ack := negb (Z.land (req_mflags0 request) CLUSTERMSG_FLAG0_FORCEACK =? 0) in
  c ← get;
  me ← load (myself c);
  if nodeIsSlave me || (numslots me =? 0) then mret tt
  else if req_currentEpoch request <? currentEpoch c then mret tt
  else if lastVoteEpoch c =? currentEpoch c then mret tt
  else if nodeIsMaster n then mret tt
  else match master with
  | None => mret tt
  | Some m =>
    mn ← load m;
    if negb (nodeFailed mn) && negb force_ack then mret tt
    else if now - voted_time mn <? cluster_node_timeout * 2 then mret tt
    else
      refuse ← existsM (newer_owner (req_myslots request) (req_configEpoch request)) all_slots;
      if (refuse : bool) then mret tt
      else
        clusterSendFailoverAuth p;;
        upd (λ c, set_lastVoteEpoch (currentEpoch c) c);;
        store m (set_voted_time now)
  end.

Definition clusterGetSlaveRank (replicationGetSlaveOffset : Z) : M Z :=
  c ← get;
  me ← load (myself c);
  redisAssert (nodeIsSlave me);;
  match slaveof me with
  | None => mret 0
  | Some m =>
    mn ← load m;
    foldM (λ rank s,
      if bool_decide (s = myself c) then mret rank
      else sn ← load s;
           mret (if repl_offset sn >? replicationGetSlaveOffset then rank + 1 else rank))
      (slaves mn) 0
  end.

(** ** Cluster state *)

Definition slot_uncovered (j : Z) : M bool :=
  c ← get;
  owner ← slot_get (slots c) j;
  match owner with
  | None => mret true
  | Some o => n ← load o; mret (has_flag n REDIS_NODE_FAIL)
  end.

(** [size] and [reachable_masters]. *)
Definition count_masters (acc : Z * Z) (p : ptr) : M (Z * Z) :=
  let '(size, reachable) := acc in
  n ← load p;
  mret (if nodeIsMaster n && negb (numslots n =? 0) then
          (size + 1,
           if Z.land (flags n) (Z.lor REDIS_NODE_FAIL REDIS_NODE_PFAIL) =? 0
           then reachable + 1 else reachable)
        else (size, reachable)).

Definition clusterUpdateState : M unit :=
  upd (λ c, set_todo_before_sleep (Z.land (todo_before_sleep c) (Z.lnot CLUSTER_TODO_UPDATE_STATE)) c);;
  upd (λ c, if first_call_time c =? 0 then set_first_call_time now c else c);;
  c ← get;
  me ← load (myself c);
  if nodeIsMaster me && (state c =? REDIS_CLUSTER_FAIL) &&
     (now - first_call_time c <? REDIS_CLUSTER_WRITABLE_DELAY)
  then mret tt
  else
    uncovered ← (if cluster_require_full_coverage then existsM slot_uncovered all_slots
                 else mret false);
    let new_state := if (uncovered : bool) then REDIS_CLUSTER_FAIL else REDIS_CLUSTER_OK in
    r ← foldM count_masters (dict_vals (nodes c)) (0, 0);
    let '(size, reachable_masters) := r : Z * Z in
    upd (set_size_ size);;
    let needed_quorum := Z.quot size 2 + 1 in
    let minority := reachable_masters <? needed_quorum in
    when minority (upd (set_among_minority_time now));;
    let new_state := if minority then REDIS_CLUSTER_FAIL else new_state in
    c ← get;
    if new_state =? state c then mret tt
    else
      let rejoin_delay := Z.max (Z.min cluster_node_timeout REDIS_CLUSTER_MAX_REJOIN_DELAY)
                            REDIS_CLUSTER_MIN_REJOIN_DELAY in
      if (new_state =? REDIS_CLUSTER_OK) && nodeIsMaster me &&
         (now - among_minority_time c <? rejoin_delay)
      then mret tt
      else upd (set_state new_state).

(** [dictSize(server.db[j].dict)] for [j >= 1] is [other_dbs]; [true] is
    [REDIS_OK]. *)
Definition verify_slot (update_config : Z) (j : Z) : M Z :=
  if countKeysInSlot j =? 0 then mret update_config
  else
    c ← get;
    owner ← slot_get (slots c) j;
    importing ← slot_get (importing_slots_from c) j;
    if bool_decide (owner = Some (myself c)) || bool_decide (is_Some importing)
    then mret update_config
    else
      match owner with
      | None => clusterAddSlot (myself c) j;; mret tt
      | Some o => upd (λ c, set_importing_slots_from (<[j := o]> (importing_slots_from c)) c)
      end;;
      mret (update_config + 1).

Definition verifyClusterConfigWithData (other_dbs : list Z) : M bool :=
  c ← get;
  me ← load (myself c);
  if nodeIsSlave me then mret true
  else if existsb (λ s, negb (s =? 0)) other_dbs then mret false
  else
    update_config ← foldM verify_slot all_slots 0;
    when (negb (update_config =? 0)) (emit (clusterSaveConfigOrDie 1));;
    mret true.

Definition clusterFailoverReplaceYourMaster : M unit :=
  c ← get;
  let myself := myself c in
  me ← load myself;
  if nodeIsMaster me then mret tt
  else match slaveof me with
  | None => mret tt
  | Some oldmaster =>
    clusterSetNodeAsMaster myself;;
    emit replicationUnsetMaster;;
    forM all_slots (λ j,
      bit ← clusterNodeGetSlotBit oldmaster j;
      when bit (clusterDelSlot j;; clusterAddSlot myself j;; mret tt));;
    clusterUpdateState;;
    emit (clusterSaveConfigOrDie 1);;
    emit clusterBroadcastPong;;
    resetManualFailover
  end.

(** ** Packets

    The parts of [clusterProcessPacket] that change the modelled state, one
    definition per part, for a packet that passed the sanity checks and whose
    sender is a known node. *)

Record packet_header := mk_header {
  hdr_currentEpoch : Z; hdr_configEpoch : Z; hdr_offset : Z;
  hdr_slaveof : option bytes;         (* [None]: REDIS_NODE_NULL_NAME *)
  hdr_myslots : bytes; hdr_mflags0 : Z }.

(** Epochs and replication offset of the sender. *)
Definition packet_epochs (sender : ptr) (h : packet_header) : M unit :=
  s ← load sender;
  if nodeInHandshake s then mret tt
  else
    upd (λ c, if hdr_currentEpoch h >? currentEpoch c then set_currentEpoch (hdr_currentEpoch h) c else c);;
    when (hdr_configEpoch h >? configEpoch s)
      (store sender (set_configEpoch (hdr_configEpoch h));;
       clusterDoBeforeSleep (Z.lor CLUSTER_TODO_SAVE_CONFIG CLUSTER_TODO_FSYNC_CONFIG));;
    store sender (set_repl_offset (hdr_offset h));;
    c ← get;
    me ← load (myself c);
    when (negb (mf_end c =? 0) && nodeIsSlave me && bool_decide (slaveof me = Some sender) &&
          negb (Z.land (hdr_mflags0 h) CLUSTERMSG_FLAG0_PAUSED =? 0) && (mf_master_offset c =? 0))
      (upd (set_mf_master_offset (hdr_offset h))).

(** MEET from an unknown node: it is added under a random name, to be fixed by
    the handshake. *)
Definition packet_meet (random : bytes) : M unit :=
  p ← createClusterNode None random REDIS_NODE_HANDSHAKE;
  clusterAddNode p;;
  clusterDoBeforeSleep CLUSTER_TODO_SAVE_CONFIG.

(** The reply to a handshake: the right name and the role flags. *)
Definition packet_handshake (p : ptr) (sender_name : bytes) (fl : Z) : M unit :=
  clusterRenameNode p sender_name;;
  store p (clear_flag REDIS_NODE_HANDSHAKE);;
  store p (add_flag (Z.land fl (Z.lor REDIS_NODE_MASTER REDIS_NODE_SLAVE)));;
  clusterDoBeforeSleep CLUSTER_TODO_SAVE_CONFIG.

(** PONG: the PFAIL or FAIL flag of the node of the link may be cleared. *)
Definition packet_pong (p : ptr) : M unit :=
  n ← load p;
  if nodeTimedOut n then
    store p (clear_flag REDIS_NODE_PFAIL);;
    clusterDoBeforeSleep (Z.lor CLUSTER_TODO_SAVE_CONFIG CLUSTER_TODO_UPDATE_STATE)
  else when (nodeFailed n) (clearNodeFailureIfNeeded p).

(** Role switch: slave to master or master to slave. *)
Definition packet_role_switch (sender : ptr) (h : packet_header) : M unit :=
  match hdr_slaveof h with
  | None => clusterSetNodeAsMaster sender
  | Some nm =>
    master ← clusterLookupNode nm;
    s ← load sender;
    when (nodeIsMaster s)
      (clusterDelNodeSlots sender;;
       store sender (clear_flag REDIS_NODE_MASTER);;
       store sender (add_flag REDIS_NODE_SLAVE);;
       s ← load sender;
       when (negb (zlen (slaves s) =? 0)) (clusterNodeResetSlaves sender);;
       clusterDoBeforeSleep (Z.lor CLUSTER_TODO_SAVE_CONFIG CLUSTER_TODO_UPDATE_STATE));;
    s ← load sender;
    match master with
    | Some m =>
      when (negb (bool_decide (slaveof s = Some m)))
        (match slaveof s with
         | Some old => clusterNodeRemoveSlave old sender;; mret tt
         | None => mret tt
         end;;
         clusterNodeAddSlave m sender;;
         store sender (set_slaveof (Some m));;
         clusterDoBeforeSleep CLUSTER_TODO_SAVE_CONFIG)
    | None => mret tt
    end
  end.

(** The first claimed slot owned by another node with a greater epoch: that
    owner is advertised to the sender. *)
Definition stale_claim (sender : ptr) (senderConfigEpoch : Z) (bitmap : bytes) (j : Z) : M bool :=
  bit ← lift (bitmapTestBit bitmap j);
  if negb bit then mret false
  else
    c ← get;
    owner ← slot_get (slots c) j;
    match owner with
    | None => mret false
    | Some o =>
      if bool_decide (o = sender) then mret false
      else
        n ← load o;
        if configEpoch n >? senderConfigEpoch then emit (clusterSendUpdate sender o);; mret true
        else mret false
    end.

Definition packet_slots (sender : ptr) (senderConfigEpoch : Z) (h : packet_header) : M unit :=
  s ← load sender;
  let sender_master := if nodeIsMaster s then Some sender else slaveof s in
  dirty_slots ← match sender_master with
                | Some m => mn ← load m; mret (negb (bool_decide (slot_bits mn = hdr_myslots h)))
                | None => mret false
                end;
  when (nodeIsMaster s && dirty_slots)
    (clusterUpdateSlotsConfigWith sender senderConfigEpoch (hdr_myslots h));;
  when dirty_slots
    (existsM (stale_claim sender senderConfigEpoch (hdr_myslots h)) all_slots;; mret tt);;
  c ← get;
  me ← load (myself c);
  s ← load sender;
  when (nodeIsMaster me && nodeIsMaster s && (senderConfigEpoch =? configEpoch me))
    (clusterHandleConfigEpochCollision sender).

(** One entry of the gossip section about a known node: failure reports. *)
Definition gossip_report (sender p : ptr) (fl : Z) : M unit :=
  s ← load sender;
  c ← get;
  when (nodeIsMaster s && negb (bool_decide (p = myself c)))
    (if negb (Z.land fl (Z.lor REDIS_NODE_FAIL REDIS_NODE_PFAIL) =? 0) then
       clusterNodeAddFailureReport p sender;;
       markNodeAsFailingIfNeeded p
     else clusterNodeDelFailureReport p sender;; mret tt).

Definition packet_fail (failing_name : bytes) : M unit :=
  failing ← clusterLookupNode failing_name;
  match failing with
  | None => mret tt
  | Some p =>
    n ← load p;
    when (Z.land (flags n) (Z.lor REDIS_NODE_FAIL REDIS_NODE_MYSELF) =? 0)
      (store p (add_flag REDIS_NODE_FAIL);;
       store p (set_fail_time now);;
       store p (clear_flag REDIS_NODE_PFAIL);;
       clusterDoBeforeSleep (Z.lor CLUSTER_TODO_SAVE_CONFIG CLUSTER_TODO_UPDATE_STATE))
  end.

Definition packet_auth_ack (sender : ptr) (senderCurrentEpoch : Z) : M unit :=
  s ← load sender;
  c ← get;
  when (nodeIsMaster s && (numslots s >? 0) && (senderCurrentEpoch >=? failover_auth_epoch c))
    (upd (λ c, set_failover_auth_count (failover_auth_count c + 1) c);;
     clusterDoBeforeSleep CLUSTER_TODO_HANDLE_FAILOVER).

Definition packet_mfstart (sender : ptr) : M unit :=
  s ← load sender;
  c ← get;
  if negb (bool_decide (slaveof s = Some (myself c))) then mret tt
  else
    resetManualFailover;;
    upd (λ c, set_mf_slave (Some sender) (set_mf_end (now + REDIS_CLUSTER_MF_TIMEOUT) c));;
    emit (pauseClients (now + REDIS_CLUSTER_MF_TIMEOUT * 2)).

Definition packet_update (nodename : bytes) (reportedConfigEpoch : Z) (bitmap : bytes) : M unit :=
  o ← clusterLookupNode nodename;
  match o with
  | None => mret tt
  | Some p =>
    n ← load p;
    if configEpoch n >=? reportedConfigEpoch then mret tt
    else
      when (nodeIsSlave n) (clusterSetNodeAsMaster p);;
      store p (set_configEpoch reportedConfigEpoch);;
      clusterDoBeforeSleep (Z.lor CLUSTER_TODO_SAVE_CONFIG CLUSTER_TODO_FSYNC_CONFIG);;
      clusterUpdateSlotsConfigWith p reportedConfigEpoch bitmap
  end.

(** PING, PONG and MEET from a known sender, after the address of nodes and the
    handshake have been dealt with. *)
Definition packet_ping (sender : ptr) (linknode : option ptr) (is_pong : bool) (h : packet_header)
    (gossip : list (bytes * Z)) : M unit :=
  s ← load sender;
  let senderConfigEpoch := if nodeInHandshake s then 0 else hdr_configEpoch h in
  packet_epochs sender h;;
  match linknode with
  | Some p => when is_pong (packet_pong p)
  | None => mret tt
  end;;
  packet_role_switch sender h;;
  packet_slots sender senderConfigEpoch h;;
  forM gossip (λ '(nm, fl),
    o ← clusterLookupNode nm;
    match o with
    | Some p => gossip_report (default sender linknode) p fl
    | None => mret tt
    end).
End handlers.
