(* ===== verification/ClusterSpec.v ===== *)
(** * The correctness of the cluster state machine

    Bitmaps as sets of slots; a Hoare logic for the handlers of [Cluster]; the
    invariant [ok] of the cluster state (slot ownership, node table, pointers)
    and its preservation by every handler; the functional behaviour of slot
    rebinding, votes, epochs and failure detection. *)

From S2P Require Import Prelude Crc Cluster.

#[local] Open Scope Z_scope.

(** ** Slot bitmaps *)

Definition slot_ok (j : Z) : Prop := 0 ≤ j < REDIS_CLUSTER_SLOTS.

#[export] Instance slot_ok_dec j : Decision (slot_ok j).
Proof. unfold slot_ok. apply _. Defined.

Definition bitmap_ok (b : bytes) : Prop := length b = 2048%nat ∧ is_bytes b.

(** The bit of slot [j] in bitmap [b]. *)
Definition tbit (b : bytes) (j : Z) : bool :=
  Z.testbit (default 0 (b !! Z.to_nat (j / 8))) (j mod 8).

Definition nbits (b : bytes) : Z := zlen (filter (λ j, tbit b j = true) all_slots).

Lemma all_slots_spec j : j ∈ all_slots ↔ slot_ok j.
Proof. unfold all_slots, slot_ok, REDIS_CLUSTER_SLOTS. rewrite elem_of_seqZ. lia. Qed.

Lemma all_slots_NoDup : NoDup all_slots.
Proof. apply NoDup_seqZ. Qed.
Lemma length_all_slots : zlen all_slots = REDIS_CLUSTER_SLOTS.
Proof. unfold all_slots. by rewrite length_seqZ. Qed.
#[local] Opaque all_slots.

Lemma land_pow2_testbit x k : 0 ≤ k → negb (Z.land x (Z.shiftl 1 k) =? 0) = Z.testbit x k.
Proof.
  intros Hk. rewrite Z.shiftl_1_l. destruct (Z.testbit x k) eqn:E.
  - destruct (Z.eqb_spec (Z.land x (2 ^ k)) 0) as [H0|]; [|done].
    assert (Z.testbit (Z.land x (2 ^ k)) k = true) as H.
    { rewrite Z.land_spec, E, Z.pow2_bits_true by done. done. }
    rewrite H0, Z.bits_0 in H. done.
  - replace (Z.land x (2 ^ k)) with 0; [done|]. symmetry. apply Z.bits_inj'. intros i Hi.
    rewrite Z.land_spec, Z.bits_0, Z.pow2_bits_eqb by done.
    destruct (Z.eqb_spec k i) as [<-|]; [by rewrite E|by rewrite andb_false_r].
Qed.

Lemma land_7 j : 0 ≤ j → Z.land j 7 = j mod 8.
Proof. intros. change 7 with (Z.ones 3). by rewrite Z.land_ones. Qed.

Section bitmaps.
Context (b : bytes) (j : Z) (Hb : bitmap_ok b) (Hj : slot_ok j).

Lemma bitmap_byte : ∃ x, rd1 b (Z.quot j 8) = Some x ∧ b !! Z.to_nat (j / 8) = Some x ∧ in_u 8 x.
Proof using Hb Hj.
  destruct Hb as [Hl Hbs], Hj as [Hj1 Hj2]. unfold REDIS_CLUSTER_SLOTS in *.
  rewrite Z.quot_div_nonneg, rd1_lookup by dlia.
  destruct (lookup_lt_is_Some_2 b (Z.to_nat (j / 8))) as [x Hx]; [dlia|].
  exists x. split; [done|]. split; [done|]. by eapply Forall_lookup_1.
Qed.

Lemma bitmapTestBit_ok : bitmapTestBit b j = Some (tbit b j).
Proof using Hb Hj.
  destruct bitmap_byte as (x & Hr & Hl & _). unfold bitmapTestBit, tbit. rewrite Hr, Hl. simpl.
  destruct Hj. rewrite land_7, land_pow2_testbit by dlia. done.
Qed.

(** Replacing the byte of [j] by one that differs in that bit only. *)
Lemma bitmap_update x y v :
  b !! Z.to_nat (j / 8) = Some x → in_u 8 y →
  (∀ i, 0 ≤ i < 8 → Z.testbit y i = if i =? j mod 8 then v else Z.testbit x i) →
  ∃ b', wr1 b (Z.quot j 8) y = Some b' ∧ bitmap_ok b' ∧
    ∀ k, slot_ok k → tbit b' k = if k =? j then v else tbit b k.
Proof using Hb Hj.
  intros Hx Hy Hbits. destruct Hb as [Hl Hbs], Hj as [Hj1 Hj2]. unfold REDIS_CLUSTER_SLOTS in *.
  rewrite Z.quot_div_nonneg, wr1_insert by dlia. eexists. split; [done|]. split.
  { split; [by rewrite length_insert|]. by apply Forall_insert. }
  intros k [Hk1 Hk2]. unfold tbit, REDIS_CLUSTER_SLOTS in *.
  destruct (decide (k / 8 = j / 8)) as [E|E].
  - rewrite E, list_lookup_insert_eq by (apply lookup_lt_Some in Hx; done). rewrite Hx. simpl.
    rewrite Hbits by (apply Z.mod_pos_bound; lia).
    destruct (Z.eqb_spec (k mod 8) (j mod 8)), (Z.eqb_spec k j); try done; dlia.
  - rewrite list_lookup_insert_ne by dlia. destruct (Z.eqb_spec k j); [by subst|done].
Qed.

Lemma bitmapSetBit_ok : ∃ b', bitmapSetBit b j = Some b' ∧ bitmap_ok b' ∧
  ∀ k, slot_ok k → tbit b' k = if k =? j then true else tbit b k.
Proof using Hb Hj.
  destruct bitmap_byte as (x & Hr & Hl & Hx). unfold bitmapSetBit. rewrite Hr. cbn [mbind option_bind].
  destruct Hj. rewrite land_7 by lia.
  apply (bitmap_update x); [done|apply wrap_range; lia|].
  intros i Hi. rewrite wrap_testbit, Z.lor_spec, Z.shiftl_1_l, Z.pow2_bits_eqb by dlia.
  rewrite (Z.eqb_sym (j mod 8)). destruct (i =? j mod 8), (i <? 8) eqn:?, (Z.testbit x i); try done; lia.
Qed.

Lemma bitmapClearBit_ok : ∃ b', bitmapClearBit b j = Some b' ∧ bitmap_ok b' ∧
  ∀ k, slot_ok k → tbit b' k = if k =? j then false else tbit b k.
Proof using Hb Hj.
  destruct bitmap_byte as (x & Hr & Hl & Hx). unfold bitmapClearBit. rewrite Hr. cbn [mbind option_bind].
  destruct Hj. rewrite land_7 by lia.
  apply (bitmap_update x); [done|apply wrap_range; lia|].
  intros i Hi. rewrite wrap_testbit, Z.land_spec, Z.lnot_spec, Z.shiftl_1_l, Z.pow2_bits_eqb by dlia.
  rewrite (Z.eqb_sym (j mod 8)). destruct (i =? j mod 8), (i <? 8) eqn:?, (Z.testbit x i); try done; lia.
Qed.
End bitmaps.

(** Counting after a change of one bit. *)
Lemma filter_same (l : list Z) (f g : Z → bool) :
  (∀ k, k ∈ l → g k = f k) → filter (λ k, g k = true) l = filter (λ k, f k = true) l.
Proof.
  intros H. induction l as [|x l IH]; [done|].
  rewrite !filter_cons, IH, H by (intros; try apply H; set_solver). done.
Qed.

Lemma filter_change (l : list Z) (f g : Z → bool) j v :
  NoDup l → j ∈ l → (∀ k, k ∈ l → g k = if k =? j then v else f k) →
  zlen (filter (λ k, g k = true) l) =
  zlen (filter (λ k, f k = true) l) - (if f j then 1 else 0) + (if v then 1 else 0).
Proof.
  intros Hnd Hj Hg. induction l as [|x l IH]; [by apply not_elem_of_nil in Hj|].
  apply NoDup_cons in Hnd as [Hx Hnd]. rewrite !filter_cons.
  pose proof (Hg x (list_elem_of_here _ _)) as Hgx.
  destruct (Z.eqb_spec x j) as [->|Hne].
  - rewrite (filter_same l f g), Hgx.
    2:{ intros k Hk. rewrite Hg by set_solver. destruct (Z.eqb_spec k j); [by subst|done]. }
    destruct v, (f j); simpl; lia.
  - rewrite Hgx. assert (j ∈ l) by set_solver.
    assert (∀ k, k ∈ l → g k = if k =? j then v else f k) by (intros; apply Hg; set_solver).
    destruct (f x); simpl; rewrite ?Nat2Z.inj_succ; rewrite IH by done; lia.
Qed.

Lemma nbits_change b b' j v :
  slot_ok j → (∀ k, slot_ok k → tbit b' k = if k =? j then v else tbit b k) →
  nbits b' = nbits b - (if tbit b j then 1 else 0) + (if v then 1 else 0).
Proof.
  intros Hj H. apply filter_change; [apply all_slots_NoDup|by apply all_slots_spec|].
  intros k Hk%all_slots_spec. auto.
Qed.

Lemma nbits_0 b : nbits b = 0 ↔ ∀ j, slot_ok j → tbit b j = false.
Proof.
  unfold nbits. split.
  - intros H j Hj. destruct (tbit b j) eqn:E; [|done].
    assert (j ∈ filter (λ j, tbit b j = true) all_slots) as Hin
      by (apply list_elem_of_filter; by rewrite all_slots_spec).
    destruct (filter _ _); [by apply not_elem_of_nil in Hin|simpl in H; lia].
  - intros H. destruct (filter _ _) as [|x l] eqn:E; [done|].
    assert (x ∈ filter (λ j, tbit b j = true) all_slots) as [Hx Hin%all_slots_spec]%list_elem_of_filter
      by (rewrite E; set_solver).
    rewrite H in Hx; done.
Qed.

(** ** Frames: what a handler leaves alone

    [frames R m]: every completed run of [m] relates the states before and after
    by the preorder [R]. *)
Definition frames (R : relation cluster) {A} (m : M A) : Prop :=
  ∀ c a c', m c = Some (a, c') → R c c'.

Section frames.
Context (R : relation cluster) `{!PreOrder R}.

Lemma frames_ret {A} (a : A) : frames R (mret a).
Proof using Type*. by intros c ? c' [= _ <-]. Qed.
Lemma frames_get : frames R get.
Proof using Type*. by intros c ? c' [= _ <-]. Qed.
Lemma frames_lift {A} (o : option A) : frames R (lift o).
Proof using Type*. intros c a c'. unfold lift. destruct o; simpl; [|done]. by intros [= _ <-]. Qed.
Lemma frames_load p : frames R (load p).
Proof using Type*. intros c a c'. unfold load. destruct (heap c !! p); simpl; [|done]. by intros [= _ <-]. Qed.
Lemma frames_assert b : frames R (redisAssert b).
Proof using Type*. intros c a c'. unfold redisAssert. destruct b; [|done]. by intros [= _ <-]. Qed.
Lemma frames_slot_get m j : frames R (slot_get m j).
Proof using Type*. unfold slot_get. destruct (_ && _); [apply frames_ret|apply frames_lift]. Qed.
Lemma frames_bind {A B} (m : M A) (k : A → M B) :
  frames R m → (∀ a, frames R (k a)) → frames R (m ≫= k).
Proof using Type*.
  intros Hm Hk c b c'. unfold mbind, M_bind. destruct (m c) as [[a c1]|] eqn:E; [|done].
  intros H. etrans; [by eapply Hm|by eapply Hk].
Qed.
Lemma frames_when b m : frames R m → frames R (when b m).
Proof using Type*. intros. destruct b; [done|apply frames_ret]. Qed.
Lemma frames_foldM {A S} (body : S → A → M S) l s :
  (∀ s x, frames R (body s x)) → frames R (foldM body l s).
Proof using Type*.
  intros H. revert s. induction l as [|x l IH]; intros s; simpl; [apply frames_ret|].
  apply frames_bind; auto.
Qed.
Lemma frames_forM {A} (l : list A) body : (∀ x, frames R (body x)) → frames R (forM l body).
Proof using Type*. intros. by apply frames_foldM. Qed.
Lemma frames_existsM {A} (test : A → M bool) l :
  (∀ x, frames R (test x)) → frames R (existsM test l).
Proof using Type*.
  intros H. induction l as [|x l IH]; simpl; [apply frames_ret|].
  apply frames_bind; [done|]. intros []; [apply frames_ret|done].
Qed.
Lemma frames_upd f : (∀ c, R c (f c)) → frames R (upd f).
Proof using Type*. intros H c a c' [= _ <-]. apply H. Qed.
Lemma frames_store p f :
  (∀ c n, heap c !! p = Some n → R c (set_heap (<[p := f n]> (heap c)) c)) → frames R (store p f).
Proof using Type*.
  intros H c a c'. unfold store. destruct (heap c !! p) eqn:E; simpl; [|done]. intros [= _ <-]. by apply H.
Qed.
End frames.

Create HintDb frames discriminated.
#[export] Hint Resolve frames_ret frames_get frames_lift frames_load frames_assert frames_slot_get
  frames_bind frames_when frames_foldM frames_forM frames_existsM frames_upd frames_store : frames.

(** Decompose a handler down to its primitive updates. *)
Ltac frame_step :=
  match goal with
  | |- frames _ (mret _) => apply frames_ret; [typeclasses eauto]
  | |- frames _ get => apply frames_get; [typeclasses eauto]
  | |- frames _ (lift _) => apply frames_lift; [typeclasses eauto]
  | |- frames _ (load _) => apply frames_load; [typeclasses eauto]
  | |- frames _ (redisAssert _) => apply frames_assert; [typeclasses eauto]
  | |- frames _ (slot_get _ _) => apply frames_slot_get; [typeclasses eauto]
  | |- frames _ (_ ≫= _) => apply frames_bind; [typeclasses eauto| |intros ?]
  | |- frames _ (when _ _) => apply frames_when; [typeclasses eauto|]
  | |- frames _ (foldM _ _ _) => apply frames_foldM; [typeclasses eauto|intros ? ?]
  | |- frames _ (forM _ _) => apply frames_forM; [typeclasses eauto|intros ?]
  | |- frames _ (existsM _ _) => apply frames_existsM; [typeclasses eauto|intros ?]
  | |- frames _ (upd _) => apply frames_upd; [typeclasses eauto|intros ?]
  | |- frames _ (store _ _) => apply frames_store; [typeclasses eauto|intros ? ? ?]
  | |- frames _ (let '(_, _) := ?x in _) => destruct x
  | |- frames _ (if ?b then _ else _) => destruct b
  | |- frames _ (match ?o with Some _ => _ | None => _ end) => destruct o
  end.
Ltac frame := intros; repeat (frame_step; cbv zeta); try by eauto with frames.

(** ** The invariant of the cluster state *)

Record node_ok (D : gset ptr) (n : clusterNode) : Prop := {
  node_bitmap : bitmap_ok (slot_bits n);
  node_count : numslots n = nbits (slot_bits n);
  node_slaveof : ∀ m, slaveof n = Some m → m ∈ D;
  node_slaves : Forall (.∈ D) (slaves n);
}.

(** The role of [myself]: a master, or a slave that has a master and no slots. *)
Definition role_ok (n : clusterNode) : Prop :=
  nodeIsSlave n = negb (nodeIsMaster n) ∧
  (nodeIsMaster n = false → numslots n = 0 ∧ is_Some (slaveof n)).

(** Every pointer is to an allocated node; the table of slots and the bitmaps of
    the nodes tell the same owner for each slot, and [numslots] counts them. *)
Record ok (D : gset ptr) (me : ptr) (c : cluster) : Prop := {
  ok_dom : dom (heap c) = D;
  ok_me : myself c = me;
  ok_me_in : me ∈ D;
  ok_node : ∀ p n, heap c !! p = Some n → node_ok D n;
  ok_owner : ∀ p n j, heap c !! p = Some n → slot_ok j →
    tbit (slot_bits n) j = true ↔ slots c !! j = Some p;
  ok_slots : ∀ j p, slots c !! j = Some p → slot_ok j ∧ p ∈ D;
  ok_importing : ∀ j p, importing_slots_from c !! j = Some p → slot_ok j ∧ p ∈ D;
  ok_migrating : ∀ j p, migrating_slots_to c !! j = Some p → slot_ok j ∧ p ∈ D;
  ok_dict : ∀ nm p, nodes c !! nm = Some p → ∃ n, heap c !! p = Some n ∧ name n = nm;
  ok_role : ∀ n, heap c !! me = Some n → role_ok n;
}.

(** [m] runs to completion from any [ok] state, keeps it, and returns a value in [Q]. *)
Definition safe (D : gset ptr) (me : ptr) {A} (m : M A) (Q : A → Prop) : Prop :=
  ∀ c, ok D me c → ∃ a c', m c = Some (a, c') ∧ ok D me c' ∧ Q a.

Abbreviation safe_ D me m := (safe D me m (λ _, True)).

(** Replacing node [n] at [p] by [n'] keeps the invariant. *)
Record benign_at (D : gset ptr) (me p : ptr) (n n' : clusterNode) : Prop := {
  benign_bits : slot_bits n' = slot_bits n;
  benign_count : numslots n' = numslots n;
  benign_name : name n' = name n;
  benign_slaveof : ∀ m, slaveof n' = Some m → slaveof n = Some m ∨ m ∈ D;
  benign_slaves : Forall (.∈ D) (slaves n) → Forall (.∈ D) (slaves n');
  benign_role : p = me → role_ok n → role_ok n';
}.

(** An update of a node that the invariant does not see. *)
Definition benign (D : gset ptr) (me p : ptr) (f : clusterNode → clusterNode) : Prop :=
  ∀ n, benign_at D me p n (f n).

Section safe.
Context (D : gset ptr) (me : ptr).

Lemma ok_lookup c p : ok D me c → p ∈ D → ∃ n, heap c !! p = Some n.
Proof. intros H Hp. rewrite <-(ok_dom _ _ _ H) in Hp. by apply elem_of_dom in Hp. Qed.

Lemma ok_lookup_in c p n : ok D me c → heap c !! p = Some n → p ∈ D.
Proof. intros H Hp. rewrite <-(ok_dom _ _ _ H). by eapply elem_of_dom_2. Qed.

Lemma safe_ret {A} (a : A) (Q : A → Prop) : Q a → safe D me (mret a) Q.
Proof. intros ? c Hc. by exists a, c. Qed.

Lemma safe_bind {A B} (m : M A) (k : A → M B) (R : A → Prop) (Q : B → Prop) :
  safe D me m R → (∀ a, R a → safe D me (k a) Q) → safe D me (m ≫= k) Q.
Proof.
  intros Hm Hk c Hc. destruct (Hm c Hc) as (a & c1 & E & Hc1 & Ha).
  unfold mbind, M_bind. rewrite E. by apply Hk.
Qed.

(** A value read from the state is valid in it, and the state can be named. *)
Lemma safe_get {B} (k : cluster → M B) (Q : B → Prop) :
  (∀ c0, ok D me c0 → safe D me (k c0) Q) → safe D me (get ≫= k) Q.
Proof. intros H c Hc. exact (H c Hc c Hc). Qed.

Lemma safe_weaken {A} (m : M A) (Q Q' : A → Prop) :
  safe D me m Q → (∀ a, Q a → Q' a) → safe D me m Q'.
Proof. intros H HQ c Hc. destruct (H c Hc) as (a & c' & ? & ? & ?). exists a, c'. auto. Qed.

Lemma safe_load p : p ∈ D → safe D me (load p) (node_ok D).
Proof.
  intros Hp c Hc. destruct (ok_lookup c p Hc Hp) as [n Hn]. exists n, c. unfold load. rewrite Hn.
  split; [done|]. split; [done|]. by eapply ok_node.
Qed.

Lemma safe_lift {A} (o : option A) (Q : A → Prop) a : o = Some a → Q a → safe D me (lift o) Q.
Proof. intros -> ? c Hc. exists a, c. done. Qed.

Lemma safe_when b m : (b = true → safe_ D me m) → safe_ D me (when b m).
Proof. destruct b; simpl; [auto|]. intros. by apply safe_ret. Qed.

Lemma safe_foldM {A S} (body : S → A → M S) l s (I : S → Prop) :
  I s → (∀ s x, I s → x ∈ l → safe D me (body s x) I) → safe D me (foldM body l s) I.
Proof.
  revert s. induction l as [|x l IH]; intros s Hs H; simpl; [by apply safe_ret|].
  eapply safe_bind; [apply H; [done|set_solver]|]. intros s' Hs'. apply IH; [done|]. set_solver.
Qed.

Lemma safe_forM {A} (l : list A) body : (∀ x, x ∈ l → safe_ D me (body x)) → safe_ D me (forM l body).
Proof. intros H. apply (safe_foldM (λ _ : unit, body) l tt (λ _, True)); auto. Qed.

Lemma safe_existsM {A} (test : A → M bool) l :
  (∀ x, x ∈ l → safe_ D me (test x)) → safe_ D me (existsM test l).
Proof.
  induction l as [|x l IH]; intros H; simpl; [by apply safe_ret|].
  eapply safe_bind; [apply H; set_solver|]. intros [] _; [by apply safe_ret|]. apply IH. set_solver.
Qed.

Lemma safe_slot_get (f : cluster → gmap Z ptr) c0 j :
  slot_ok j → (∀ j p, f c0 !! j = Some p → slot_ok j ∧ p ∈ D) →
  safe D me (slot_get (f c0) j) (λ o, ∀ p, o = Some p → p ∈ D).
Proof.
  intros [? ?] Hin. unfold slot_get. destruct (_ && _) eqn:E; [|lia].
  apply safe_ret. intros p Hp. by eapply Hin.
Qed.

Lemma ok_store c p n n1 :
  ok D me c → heap c !! p = Some n → benign_at D me p n n1 →
  ok D me (set_heap (<[p := n1]> (heap c)) c).
Proof.
  intros Hc Hn [Hf1 Hf2 Hf3 Hf4 Hf5 Hf6]. pose proof (ok_lookup_in c p n Hc Hn) as Hp.
  pose proof (ok_node _ _ _ Hc p n Hn) as Hnok. destruct Hc.
  assert (∀ q n', <[p := n1]> (heap c) !! q = Some n' →
    ∃ n0, heap c !! q = Some n0 ∧ slot_bits n' = slot_bits n0 ∧ name n' = name n0 ∧ node_ok D n' ∧
      (q = me → role_ok n')) as Hq.
  { intros q n' [[<- <-]|[Hne Hq]]%lookup_insert_Some.
    - exists n. split; [done|]. split; [done|]. split; [done|]. split.
      + destruct Hnok. split; [by rewrite Hf1|by rewrite Hf1, Hf2| |by auto].
        intros m [?|?]%Hf4; auto.
      + intros ->. auto.
    - exists n'. split; [done|]. split; [done|]. split; [done|]. split; [by eapply ok_node0|].
      intros ->. auto. }
  split; simpl; auto.
  - rewrite dom_insert_L. set_solver.
  - intros q n' (_ & _ & _ & _ & ? & _)%Hq. done.
  - intros q n' j (n0 & ? & -> & _)%Hq Hj. by apply ok_owner0.
  - intros nm q Hd. destruct (ok_dict0 _ _ Hd) as (n0 & Hn0 & <-).
    destruct (decide (q = p)) as [->|].
    + rewrite lookup_insert_eq. eexists. split; [done|]. congruence.
    + rewrite lookup_insert_ne by done. eauto.
  - intros n' (_ & _ & _ & _ & _ & ?)%Hq. auto.
Qed.

Lemma safe_store p f : p ∈ D → benign D me p f → safe_ D me (store p f).
Proof.
  intros Hp Hf c Hc. destruct (ok_lookup c p Hc Hp) as [n Hn]. exists tt.
  unfold store. rewrite Hn. eexists. split; [done|]. split; [|done]. by eapply ok_store.
Qed.

Lemma safe_upd f : (∀ c, ok D me c → ok D me (f c)) → safe_ D me (upd f).
Proof. intros H c Hc. exists tt, (f c). auto. Qed.
End safe.

(** ** Assigning and releasing one slot *)

(** What is left of a state when the assignment of slots is forgotten. *)
Definition forget_slots (c : cluster) : cluster :=
  set_slots ∅ (set_todo_before_sleep 0
    (set_heap ((λ n, set_numslots 0 (set_slot_bits [] n)) <$> heap c) c)).

(** States that differ in the assignment of slots only. *)
Definition reslot (c c' : cluster) : Prop := forget_slots c' = forget_slots c.

#[export] Instance reslot_preorder : PreOrder reslot.
Proof. split; [done|]. unfold reslot. intros ? ? ?. congruence. Qed.

Lemma reslot_store p f c n :
  (set_numslots 0 (set_slot_bits [] (f n)) = set_numslots 0 (set_slot_bits [] n)) →
  heap c !! p = Some n → reslot c (set_heap (<[p := f n]> (heap c)) c).
Proof.
  intros Hf Hn. unfold reslot, forget_slots. simpl.
  rewrite fmap_insert, Hf, insert_id; [done|]. by rewrite lookup_fmap, Hn.
Qed.

Lemma reslot_lookup c c' p n' :
  reslot c c' → heap c' !! p = Some n' →
  ∃ n, heap c !! p = Some n ∧ set_numslots 0 (set_slot_bits [] n') = set_numslots 0 (set_slot_bits [] n).
Proof.
  intros H Hp. assert (heap (forget_slots c) !! p = heap (forget_slots c') !! p) as E
    by (unfold reslot in H; by rewrite H).
  simpl in E. rewrite !lookup_fmap, Hp in E. destruct (heap c !! p) as [n|]; [|done].
  simpl in E. exists n. split; [done|]. congruence.
Qed.

Lemma reslot_lookup_rev c c' p n :
  reslot c c' → heap c !! p = Some n →
  ∃ n', heap c' !! p = Some n' ∧ set_numslots 0 (set_slot_bits [] n') = set_numslots 0 (set_slot_bits [] n).
Proof.
  intros H Hp. destruct (reslot_lookup c' c p n) as (n' & ? & ?); [by unfold reslot in *|done|]. eauto.
Qed.

Lemma clusterAddSlot_frame p j : frames reslot (clusterAddSlot p j).
Proof. unfold clusterAddSlot, clusterNodeSetSlotBit. frame; by apply reslot_store. Qed.

Lemma clusterDelSlot_frame j : frames reslot (clusterDelSlot j).
Proof. unfold clusterDelSlot, clusterNodeClearSlotBit. frame; by apply reslot_store. Qed.
#[export] Hint Resolve clusterAddSlot_frame clusterDelSlot_frame : frames.

Section slots.
Context (D : gset ptr) (me : ptr).

Lemma ok_setbit c p n j (v : bool) b' :
  ok D me c → heap c !! p = Some n → slot_ok j →
  slots c !! j = (if v then None else Some p) → bitmap_ok b' →
  (∀ k, slot_ok k → tbit b' k = if k =? j then v else tbit (slot_bits n) k) →
  (p = me → nodeIsMaster n = true) →
  ok D me (set_slots (if v then <[j := p]> (slots c) else delete j (slots c))
    (set_heap (<[p := set_numslots (if v then numslots n + 1 else numslots n - 1)
                       (set_slot_bits b' n)]> (heap c)) c)).
Proof.
  intros Hc Hn Hj Hown Hb' Htb Hmaster.
  pose proof (ok_lookup_in _ _ c p n Hc Hn) as Hp. destruct Hc. split; simpl; auto.
  - rewrite dom_insert_L. set_solver.
  - intros q n' [[<- <-]|[Hne Hq]]%lookup_insert_Some; [|by eapply ok_node0].
    destruct (ok_node0 p n Hn). split; simpl; auto.
    rewrite (nbits_change (slot_bits n) b' j v Hj Htb), node_count0.
    destruct (ok_owner0 p n j Hn Hj) as [H1 H2]. destruct v.
    + destruct (tbit (slot_bits n) j); [|lia]. specialize (H1 eq_refl). congruence.
    + rewrite H2 by done. lia.
  - intros q n' k [[<- <-]|[Hne Hq]]%lookup_insert_Some Hk; simpl.
    + rewrite Htb by done. destruct (Z.eqb_spec k j) as [->|].
      * destruct v; [rewrite lookup_insert_eq|rewrite lookup_delete_eq]; naive_solver.
      * rewrite (ok_owner0 p n k Hn Hk). destruct v; [rewrite lookup_insert_ne|rewrite lookup_delete_ne]; done.
    + rewrite (ok_owner0 q n' k Hq Hk). destruct (Z.eq_dec k j) as [->|].
      * destruct v; rewrite Hown; [rewrite lookup_insert_eq|rewrite lookup_delete_eq]; naive_solver.
      * destruct v; [rewrite lookup_insert_ne|rewrite lookup_delete_ne]; done.
  - intros k q. destruct v.
    + intros [[<- <-]|[_ ?]]%lookup_insert_Some; auto.
    + intros [_ ?]%lookup_delete_Some; auto.
  - intros nm q Hd. destruct (ok_dict0 _ _ Hd) as (n0 & Hn0 & <-). destruct (decide (q = p)) as [->|].
    + rewrite lookup_insert_eq. eexists. split; [done|]. simpl. congruence.
    + rewrite lookup_insert_ne by done. eauto.
  - intros n' [[-> <-]|[Hne Hq]]%lookup_insert_Some; [|by auto].
    destruct (ok_role0 n Hn). split; [done|]. unfold nodeIsMaster, has_flag in *. simpl.
    rewrite Hmaster; done.
Qed.

(** A slot that [myself] owns makes it a master. *)
Lemma owner_master c n j :
  ok D me c → heap c !! me = Some n → slots c !! j = Some me → nodeIsMaster n = true.
Proof.
  intros Hc Hn Hj. destruct (nodeIsMaster n) eqn:E; [done|].
  destruct (ok_role _ _ _ Hc n Hn) as [_ Hr]. destruct (Hr E) as [H0 _].
  destruct (ok_slots _ _ _ Hc j me Hj) as [Hok _].
  rewrite (node_count _ _ (ok_node _ _ _ Hc me n Hn)) in H0.
  destruct (nbits_0 (slot_bits n)) as [Hz _]. pose proof (Hz H0 j Hok) as Hf.
  apply (ok_owner _ _ _ Hc me n j Hn Hok) in Hj. congruence.
Qed.

Lemma slot_get_run (m : gmap Z ptr) j c : slot_ok j → slot_get m j c = Some (m !! j, c).
Proof. intros [? ?]. unfold slot_get. destruct (_ && _) eqn:E; [done|lia]. Qed.

Lemma clusterDelSlot_run c j :
  ok D me c → slot_ok j →
  ∃ c', clusterDelSlot j c = Some (bool_decide (is_Some (slots c !! j)), c') ∧ ok D me c' ∧
    slots c' = delete j (slots c) ∧ reslot c c'.
Proof.
  intros Hc Hj.
  assert (∃ c', clusterDelSlot j c = Some (bool_decide (is_Some (slots c !! j)), c') ∧ ok D me c' ∧
    slots c' = delete j (slots c)) as (c' & Hrun & ? & ?); cycle 1.
  { exists c'. split; [done|]. split; [done|]. split; [done|]. by eapply clusterDelSlot_frame. }
  unfold clusterDelSlot, clusterNodeClearSlotBit. unfold mbind, M_bind. unfold get at 1.
  rewrite slot_get_run by done.
  destruct (slots c !! j) as [p|] eqn:Hs; cycle 1.
  { exists c. split; [done|]. split; [done|]. by rewrite delete_id. }
  destruct (ok_slots _ _ _ Hc j p Hs) as [_ Hp].
  destruct (ok_lookup _ _ c p Hc Hp) as [n Hn].
  destruct (ok_node _ _ _ Hc p n Hn) as [Hbm _ _ _].
  destruct (bitmapClearBit_ok (slot_bits n) j Hbm Hj) as (b' & Hb' & Hok' & Htb).
  assert (tbit (slot_bits n) j = true) as Ht by by apply (ok_owner _ _ _ Hc p n j Hn Hj).
  unfold load, lift, store, when, redisAssert, upd. rewrite Hn. mrun.
  rewrite (bitmapTestBit_ok _ _ Hbm Hj), Hb', Ht. cbn [mbind option_bind heap set_heap].
  rewrite Hn. cbn [mbind option_bind heap set_heap].
  rewrite lookup_insert_eq. cbn [mbind option_bind]. rewrite insert_insert_eq.
  rewrite bool_decide_eq_true_2 by done. eexists. split; [reflexivity|]. split; [|done].
  apply (ok_setbit c p n j false b' Hc Hn Hj Hs Hok' Htb). intros ->. by eapply owner_master.
Qed.

Lemma clusterAddSlot_run c p j :
  ok D me c → slot_ok j → p ∈ D → slots c !! j = None →
  (∀ n, p = me → heap c !! me = Some n → nodeIsMaster n = true) →
  ∃ c', clusterAddSlot p j c = Some (true, c') ∧ ok D me c' ∧
    slots c' = <[j := p]> (slots c) ∧ reslot c c'.
Proof.
  intros Hc Hj Hp Hs Hmaster.
  assert (∃ c', clusterAddSlot p j c = Some (true, c') ∧ ok D me c' ∧
    slots c' = <[j := p]> (slots c)) as (c' & Hrun & ? & ?); cycle 1.
  { exists c'. split; [done|]. split; [done|]. split; [done|]. by eapply clusterAddSlot_frame. }
  unfold clusterAddSlot, clusterNodeSetSlotBit. unfold mbind, M_bind. unfold get at 1.
  rewrite slot_get_run, Hs by done.
  destruct (ok_lookup _ _ c p Hc Hp) as [n Hn].
  destruct (ok_node _ _ _ Hc p n Hn) as [Hbm _ _ _].
  destruct (bitmapSetBit_ok (slot_bits n) j Hbm Hj) as (b' & Hb' & Hok' & Htb).
  assert (tbit (slot_bits n) j = false) as Ht.
  { destruct (tbit _ _) eqn:Ht; [|done]. apply (ok_owner _ _ _ Hc p n j Hn Hj) in Ht. congruence. }
  unfold load, lift, store, when, redisAssert, upd. rewrite Hn. mrun.
  rewrite (bitmapTestBit_ok _ _ Hbm Hj), Hb', Ht. cbn [mbind option_bind heap set_heap negb].
  rewrite Hn. cbn [mbind option_bind heap set_heap].
  rewrite lookup_insert_eq. cbn [mbind option_bind]. rewrite insert_insert_eq.
  eexists. split; [reflexivity|]. split; [|done].
  apply (ok_setbit c p n j true b' Hc Hn Hj Hs Hok' Htb). intros ->. by apply Hmaster.
Qed.
End slots.

(** ** Updates that keep the invariant *)

Section benign.
Context (D : gset ptr) (me p : ptr).

Lemma land_clear_other f g k : Z.land (Z.lnot g) k = k → Z.land (Z.land f (Z.lnot g)) k = Z.land f k.
Proof. intros H. by rewrite <-Z.land_assoc, H. Qed.

Lemma land_add_other f g k : Z.land g k = 0 → Z.land (Z.lor f g) k = Z.land f k.
Proof. intros H. by rewrite Z.land_lor_distr_l, H, Z.lor_0_r. Qed.

Lemma benign_fields f :
  (∀ n, slot_bits (f n) = slot_bits n ∧ numslots (f n) = numslots n ∧ name (f n) = name n ∧
        slaveof (f n) = slaveof n ∧ slaves (f n) = slaves n ∧
        nodeIsMaster (f n) = nodeIsMaster n ∧ nodeIsSlave (f n) = nodeIsSlave n) →
  benign D me p f.
Proof.
  intros H n. destruct (H n) as (? & ? & ? & Hs & Hl & Hm & Hv). split; try congruence.
  - rewrite Hs. auto.
  - intros _ [? Hr]. unfold role_ok. rewrite Hs, Hm, Hv. split; [done|].
    intros [? ?]%Hr. split; [congruence|done].
Qed.

Lemma benign_clear_flag g :
  Z.land (Z.lnot g) 1 = 1 → Z.land (Z.lnot g) 2 = 2 → benign D me p (clear_flag g).
Proof.
  intros H1 H2. apply benign_fields. intros n. repeat (split; [done|]).
  unfold nodeIsMaster, nodeIsSlave, has_flag, clear_flag, REDIS_NODE_MASTER, REDIS_NODE_SLAVE. simpl.
  by rewrite !land_clear_other.
Qed.

Lemma benign_add_flag g : Z.land g 1 = 0 → Z.land g 2 = 0 → benign D me p (add_flag g).
Proof.
  intros H1 H2. apply benign_fields. intros n. repeat (split; [done|]).
  unfold nodeIsMaster, nodeIsSlave, has_flag, add_flag, REDIS_NODE_MASTER, REDIS_NODE_SLAVE. simpl.
  by rewrite !land_add_other.
Qed.

Lemma benign_set_slaves l : Forall (.∈ D) l → benign D me p (set_slaves l).
Proof. intros H n. split; simpl; auto. Qed.

Lemma benign_set_slaveof m : m ∈ D → benign D me p (set_slaveof (Some m)).
Proof.
  intros H n. split; simpl; auto; [intros ? [= <-]; auto|].
  intros _ [? Hr]. split; [done|]. intros [? ?]%Hr. simpl. eauto.
Qed.

Lemma benign_set_slaveof_None : p ≠ me → benign D me p (set_slaveof None).
Proof. intros H n. by split; simpl. Qed.
End benign.

Create HintDb cluster discriminated.
#[export] Hint Resolve benign_set_slaves benign_set_slaveof benign_set_slaveof_None : cluster.
#[export] Hint Extern 3 (benign _ _ _ (clear_flag _)) => apply benign_clear_flag; reflexivity : cluster.
#[export] Hint Extern 3 (benign _ _ _ (add_flag _)) => apply benign_add_flag; reflexivity : cluster.
#[export] Hint Extern 4 (benign _ _ _ _) => apply benign_fields; intros; done : cluster.
#[export] Hint Extern 4 (slot_ok _) => apply all_slots_spec; assumption : cluster.
#[export] Hint Resolve ok_me_in : cluster.

Section ok_updates.
Context (D : gset ptr) (me : ptr).

Lemma ok_ext c c' :
  heap c' = heap c → myself c' = myself c → slots c' = slots c → nodes c' = nodes c →
  importing_slots_from c' = importing_slots_from c → migrating_slots_to c' = migrating_slots_to c →
  ok D me c → ok D me c'.
Proof.
  intros E1 E2 E3 E4 E5 E6 []. by split; rewrite ?E1, ?E2, ?E3, ?E4, ?E5, ?E6.
Qed.

Lemma ok_transit c m i :
  (∀ j p, i !! j = Some p → slot_ok j ∧ p ∈ D) → (∀ j p, m !! j = Some p → slot_ok j ∧ p ∈ D) →
  ok D me c → ok D me (set_importing_slots_from i (set_migrating_slots_to m c)).
Proof. intros ? ? []. by split. Qed.

Lemma ok_importing_delete c j :
  ok D me c → ok D me (set_importing_slots_from (delete j (importing_slots_from c)) c).
Proof.
  intros Hc. apply (ok_transit c (migrating_slots_to c)); [|by apply Hc|done].
  intros k p [_ ?]%lookup_delete_Some. by eapply ok_importing.
Qed.

Lemma ok_migrating_delete c j :
  ok D me c → ok D me (set_migrating_slots_to (delete j (migrating_slots_to c)) c).
Proof.
  intros Hc. pose proof Hc as []. split; auto.
  intros k p. simpl. intros [_ ?]%lookup_delete_Some. auto.
Qed.

Lemma ok_importing_insert c j p :
  slot_ok j → p ∈ D → ok D me c →
  ok D me (set_importing_slots_from (<[j := p]> (importing_slots_from c)) c).
Proof.
  intros ? ? Hc. apply (ok_transit c (migrating_slots_to c)); [|by apply Hc|done].
  intros k q [[<- <-]|[_ ?]]%lookup_insert_Some; [done|]. by eapply ok_importing.
Qed.

Lemma ok_dict_in c nm p : ok D me c → nodes c !! nm = Some p → p ∈ D.
Proof. intros Hc H. destruct (ok_dict _ _ _ Hc _ _ H) as (n & Hn & _). by eapply ok_lookup_in. Qed.

Lemma ok_dict_vals c p : ok D me c → p ∈ dict_vals (nodes c) → p ∈ D.
Proof.
  unfold dict_vals. intros Hc ([nm q] & -> & H%elem_of_map_to_list)%list_elem_of_fmap.
  by eapply ok_dict_in.
Qed.

Lemma safe_emit e : safe_ D me (emit e).
Proof. apply safe_upd. intros c Hc. by apply (ok_ext c). Qed.

Lemma safe_before_sleep fl : safe_ D me (clusterDoBeforeSleep fl).
Proof. apply safe_upd. intros c Hc. by apply (ok_ext c). Qed.

Lemma safe_DelSlot j : slot_ok j → safe_ D me (clusterDelSlot j).
Proof. intros Hj c Hc. destruct (clusterDelSlot_run D me c j Hc Hj) as (c' & ? & ? & _). eauto. Qed.

Lemma safe_lookup nm : safe D me (clusterLookupNode nm) (λ o, ∀ p, o = Some p → p ∈ D).
Proof.
  unfold clusterLookupNode. apply safe_get. intros c0 Hc0. apply safe_ret. intros p Hp.
  by eapply ok_dict_in.
Qed.

Lemma safe_testbit b j : bitmap_ok b → slot_ok j → safe_ D me (lift (bitmapTestBit b j)).
Proof. intros. eapply safe_lift; [by apply bitmapTestBit_ok|done]. Qed.

Lemma safe_slots c j : ok D me c → slot_ok j → safe D me (slot_get (slots c) j) (λ o, ∀ p, o = Some p → p ∈ D).
Proof. intros. apply (safe_slot_get D me slots); [done|]. by eapply ok_slots. Qed.

Lemma safe_imp c j : ok D me c → slot_ok j →
  safe D me (slot_get (importing_slots_from c) j) (λ o, ∀ p, o = Some p → p ∈ D).
Proof. intros. apply (safe_slot_get D me importing_slots_from); [done|]. by eapply ok_importing. Qed.
End ok_updates.

#[export] Hint Resolve safe_emit safe_before_sleep safe_DelSlot safe_lookup safe_testbit safe_slots
  safe_imp safe_ret safe_load safe_store safe_when safe_forM safe_existsM
  ok_importing_delete ok_migrating_delete ok_importing_insert ok_dict_vals : cluster.

(** Fields the invariant does not mention. *)
#[export] Hint Extern 5 (ok _ _ _) =>
  match goal with H : ok ?D ?me ?c |- ok ?D ?me _ => apply (ok_ext D me c); solve [reflexivity | exact H] end
  : cluster.

(** Decompose a handler; what is left are the facts special to it. *)
Ltac safe_side := try done; eauto with cluster.
Ltac safe_step :=
  match goal with
  | |- safe _ _ (mret _) _ => apply safe_ret; try exact I
  | |- safe _ _ (get ≫= _) _ =>
      let c0 := fresh "c" in let Hc0 := fresh "Hc" in
      apply safe_get; intros c0 Hc0; rewrite ?(ok_me _ _ _ Hc0); cbv zeta
  | |- safe _ _ (_ ≫= _) _ =>
      eapply safe_bind; [solve [eauto with cluster]|intros ? ?; cbv zeta beta in *]
  | |- safe _ _ (_ ≫= _) _ => eapply (safe_bind _ _ _ _ (λ _, True)); [|intros ? _; cbv zeta]
  | |- safe _ _ (when _ _) _ => apply safe_when; intros ?
  | |- safe _ _ (forM _ _) _ => apply safe_forM; intros ? ?
  | |- safe _ _ (existsM _ _) _ => apply safe_existsM; intros ? ?
  | |- safe _ _ (upd _) _ => apply safe_upd; intros ? ?
  | |- safe _ _ (let '(_, _) := ?x in _) _ => destruct x
  | |- safe _ _ (if ?b then _ else _) _ => destruct b eqn:?
  | |- safe _ _ (match ?o with Some _ => _ | None => _ end) _ => destruct o eqn:?
  | |- safe _ _ _ _ => solve [eauto with cluster]
  end.
Ltac safe := repeat safe_step; safe_side.

(** Running a handler step by step from a state. *)
Lemma bind_run {A B} (m : M A) (k : A → M B) c a c' : m c = Some (a, c') → (m ≫= k) c = k a c'.
Proof. intros E. unfold mbind, M_bind. by rewrite E. Qed.

Lemma load_run p c n : heap c !! p = Some n → load p c = Some (n, c).
Proof. intros E. unfold load. by rewrite E. Qed.

Lemma store_run p f c n :
  heap c !! p = Some n → store p f c = Some (tt, set_heap (<[p := f n]> (heap c)) c).
Proof. intros E. unfold store. by rewrite E. Qed.

Lemma assert_run b c : b = true → redisAssert b c = Some (tt, c).
Proof. by intros ->. Qed.

Ltac run_prim := first [by apply load_run | by apply assert_run | by apply slot_get_run
  | by apply store_run; rewrite ?lookup_insert_eq | reflexivity].
Ltac run1 := erewrite bind_run by run_prim; cbv zeta beta.

Lemma remove_slave_Forall (P : ptr → Prop) l s l' : remove_slave l s = Some l' → Forall P l → Forall P l'.
Proof.
  revert l'. induction l as [|x l IH]; intros l'; simpl; [done|].
  destruct (decide (x = s)) as [->|]; [intros [= <-]; by inversion 1|].
  destruct (remove_slave l s) as [l1|]; simpl; [|done]. intros [= <-] [? ?]%Forall_cons.
  constructor; auto.
Qed.
#[export] Hint Resolve remove_slave_Forall : cluster.

Section handlers.
Context (D : gset ptr) (me : ptr).
Context (now cluster_node_timeout : Z) (cluster_require_full_coverage : bool).
Context (countKeysInSlot : Z → Z) (clientsArePaused : bool).
Hint Resolve node_slaves node_slaveof node_bitmap : cluster.

Lemma safe_RemoveSlave m s : m ∈ D → safe_ D me (clusterNodeRemoveSlave m s).
Proof. intros. unfold clusterNodeRemoveSlave. safe. Qed.

Lemma safe_AddSlave m s : m ∈ D → s ∈ D → safe_ D me (clusterNodeAddSlave m s).
Proof.
  intros. unfold clusterNodeAddSlave. safe. apply safe_store, benign_set_slaves; [done|].
  apply Forall_app. split; [by eapply node_slaves|by apply Forall_singleton].
Qed.

Lemma safe_AddFailureReport p s : p ∈ D → safe_ D me (clusterNodeAddFailureReport now p s).
Proof. intros. unfold clusterNodeAddFailureReport. safe. Qed.

Lemma safe_Cleanup p : p ∈ D → safe_ D me (clusterNodeCleanupFailureReports now cluster_node_timeout p).
Proof. intros. unfold clusterNodeCleanupFailureReports. safe. Qed.
Hint Resolve safe_RemoveSlave safe_AddSlave safe_AddFailureReport safe_Cleanup : cluster.

Lemma safe_DelFailureReport p s :
  p ∈ D → safe_ D me (clusterNodeDelFailureReport now cluster_node_timeout p s).
Proof. intros. unfold clusterNodeDelFailureReport. safe. Qed.

Lemma safe_FailureReportsCount p :
  p ∈ D → safe_ D me (clusterNodeFailureReportsCount now cluster_node_timeout p).
Proof. intros. unfold clusterNodeFailureReportsCount. safe. Qed.
Hint Resolve safe_DelFailureReport safe_FailureReportsCount : cluster.

Lemma ok_myself c : ok D me c → myself c ∈ D.
Proof. intros Hc. rewrite (ok_me _ _ _ Hc). by eapply ok_me_in. Qed.
Hint Resolve ok_myself : cluster.

Lemma safe_GetMaxEpoch : safe_ D me clusterGetMaxEpoch.
Proof.
  unfold clusterGetMaxEpoch. apply safe_get. intros c Hc.
  eapply safe_bind; [|intros; by apply safe_ret]. apply (safe_foldM D me _ _ _ (λ _, True)); [done|].
  intros. safe.
Qed.

Lemma safe_take_next_epoch : safe_ D me take_next_epoch.
Proof. unfold take_next_epoch. safe. Qed.
Hint Resolve safe_GetMaxEpoch safe_take_next_epoch : cluster.

Lemma safe_Bump : safe_ D me clusterBumpConfigEpochWithoutConsensus.
Proof. unfold clusterBumpConfigEpochWithoutConsensus. safe. Qed.

Lemma safe_Collision s : s ∈ D → safe_ D me (clusterHandleConfigEpochCollision s).
Proof. intros. unfold clusterHandleConfigEpochCollision. safe. Qed.

Lemma safe_markFailing p : p ∈ D → safe_ D me (markNodeAsFailingIfNeeded now cluster_node_timeout p).
Proof. intros. unfold markNodeAsFailingIfNeeded. safe. Qed.
Hint Resolve safe_Bump safe_Collision safe_markFailing : cluster.

(** *** Flags and roles *)

Lemma has_flag_bit n k : 0 ≤ k → has_flag n (2 ^ k) = Z.testbit (flags n) k.
Proof. intros. unfold has_flag. rewrite <-Z.shiftl_1_l. by apply land_pow2_testbit. Qed.

Lemma flag_after_add n f k :
  0 ≤ k → has_flag (add_flag f n) (2 ^ k) = has_flag n (2 ^ k) || Z.testbit f k.
Proof. intros. rewrite !has_flag_bit by done. simpl. by rewrite Z.lor_spec. Qed.

Lemma flag_after_clear n f k :
  0 ≤ k → has_flag (clear_flag f n) (2 ^ k) = has_flag n (2 ^ k) && negb (Z.testbit f k).
Proof. intros. rewrite !has_flag_bit by done. simpl. by rewrite Z.land_spec, Z.lnot_spec. Qed.

Definition become_master (n : clusterNode) : clusterNode :=
  set_slaveof None (add_flag REDIS_NODE_MASTER (clear_flag REDIS_NODE_SLAVE n)).
Definition become_slave (n : clusterNode) : clusterNode :=
  add_flag REDIS_NODE_SLAVE (clear_flag REDIS_NODE_MASTER n).

Lemma roles_become_master n : nodeIsMaster (become_master n) = true ∧ nodeIsSlave (become_master n) = false.
Proof.
  unfold become_master, nodeIsMaster, nodeIsSlave.
  change (has_flag (set_slaveof None ?n) ?f) with (has_flag n f).
  split.
  - change REDIS_NODE_MASTER with (2 ^ 0) at 2. rewrite flag_after_add by lia. apply orb_true_r.
  - change REDIS_NODE_SLAVE with (2 ^ 1) at 2.
    rewrite flag_after_add, flag_after_clear by lia. simpl. by rewrite andb_false_r.
Qed.

Lemma roles_become_slave n : nodeIsMaster (become_slave n) = false ∧ nodeIsSlave (become_slave n) = true.
Proof.
  unfold become_slave, nodeIsMaster, nodeIsSlave. split.
  - change REDIS_NODE_MASTER with (2 ^ 0) at 2.
    rewrite flag_after_add, flag_after_clear by lia. simpl. by rewrite andb_false_r.
  - change REDIS_NODE_SLAVE with (2 ^ 1) at 2. rewrite flag_after_add by lia. apply orb_true_r.
Qed.

Lemma benign_become_master p : benign D me p become_master.
Proof.
  intros n. split; try done. intros _ _. destruct (roles_become_master n) as [H1 H2].
  unfold role_ok. rewrite H1, H2. done.
Qed.

Lemma benign_become_slave p : p ≠ me → benign D me p become_slave.
Proof. intros H n. split; try done. auto. Qed.

Lemma safe_ext {A} (m m' : M A) Q : (∀ c, m c = m' c) → safe D me m' Q → safe D me m Q.
Proof. intros E H c Hc. rewrite E. by apply H. Qed.

Lemma store_store {A} p f g (k : M A) c :
  (store p f ;; store p g ;; k) c = (store p (λ n, g (f n)) ;; k) c.
Proof.
  unfold mbind, M_bind, store. destruct (heap c !! p) as [n|]; simpl; [|done].
  rewrite lookup_insert_eq. simpl. by rewrite insert_insert_eq.
Qed.

Lemma bind_cong {A B} (m : M A) (k k' : A → M B) c :
  (∀ a c, k a c = k' a c) → (m ≫= k) c = (m ≫= k') c.
Proof. intros H. unfold mbind, M_bind. by destruct (m c) as [[]|]. Qed.

Lemma safe_store_fuse {A} p f g (k : M A) Q :
  safe D me (store p (λ n, g (f n)) ;; k) Q → safe D me (store p f ;; store p g ;; k) Q.
Proof. apply safe_ext. apply store_store. Qed.

Lemma safe_SetNodeAsMaster p : p ∈ D → safe_ D me (clusterSetNodeAsMaster p).
Proof.
  intros. unfold clusterSetNodeAsMaster. safe_step. safe_step; [safe|].
  safe_step; [safe|]. apply safe_store_fuse, safe_store_fuse.
  eapply safe_bind; [by apply safe_store, benign_become_master|intros; safe].
Qed.

Lemma clearNodeFailure_run c p n :
  ok D me c → heap c !! p = Some n → nodeFailed n = true →
  ∃ c', clearNodeFailureIfNeeded now cluster_node_timeout p c = Some (tt, c') ∧ ok D me c'.
Proof.
  intros Hc Hn Hf. pose proof (ok_lookup_in _ _ c p n Hc Hn) as Hp.
  unfold clearNodeFailureIfNeeded. run1. run1.
  match goal with |- ∃ c', ?m c = _ ∧ _ => assert (safe_ D me m) as Hs end.
  { safe. }
  destruct (Hs c Hc) as ([] & c' & E & ? & _). by exists c'.
Qed.

Lemma safe_packet_pong p : p ∈ D → safe_ D me (packet_pong now cluster_node_timeout p).
Proof.
  intros Hp c Hc. destruct (ok_lookup _ _ c p Hc Hp) as [n Hn].
  unfold packet_pong. run1.
  destruct (nodeTimedOut n).
  - assert (safe_ D me (store p (clear_flag REDIS_NODE_PFAIL) ;;
      clusterDoBeforeSleep (Z.lor CLUSTER_TODO_SAVE_CONFIG CLUSTER_TODO_UPDATE_STATE))) as Hs by safe.
    by apply Hs.
  - unfold when. destruct (nodeFailed n) eqn:E; [|by apply safe_ret].
    destruct (clearNodeFailure_run c p n Hc Hn E) as (c' & ? & ?). exists tt, c'. done.
Qed.

Lemma safe_resetManualFailover : safe_ D me (resetManualFailover clientsArePaused).
Proof. unfold resetManualFailover. safe. Qed.
Hint Resolve safe_SetNodeAsMaster safe_packet_pong safe_resetManualFailover : cluster.

End handlers.

#[export] Hint Resolve node_slaves node_slaveof node_bitmap ok_myself safe_RemoveSlave safe_AddSlave
  safe_AddFailureReport safe_Cleanup safe_DelFailureReport safe_FailureReportsCount safe_GetMaxEpoch
  safe_take_next_epoch safe_Bump safe_Collision safe_markFailing safe_SetNodeAsMaster safe_packet_pong
  safe_resetManualFailover : cluster.

Section set_master.
Context (D : gset ptr) (me : ptr) (clientsArePaused : bool).

(** [clusterSetMaster] may be called when [myself] has no slot left.  It makes
    [myself] a slave of [p] and tells the replication code. *)
Definition same_roles (c c' : cluster) : Prop :=
  (λ n, (flags n, slaveof n)) <$> heap c' = (λ n, (flags n, slaveof n)) <$> heap c ∧
  slots c' = slots c ∧ events c' = events c ∧ mf_end c' = mf_end c.

#[local] Instance same_roles_preorder : PreOrder same_roles.
Proof. unfold same_roles. split; [done|]. intros ? ? ?. naive_solver congruence. Qed.

Lemma same_roles_slaves p l c n :
  heap c !! p = Some n → same_roles c (set_heap (<[p := set_slaves l n]> (heap c)) c).
Proof.
  intros Hn. split; [|done]. simpl. rewrite fmap_insert. simpl. rewrite insert_id; [done|].
  by rewrite lookup_fmap, Hn.
Qed.
Hint Resolve same_roles_slaves : frames.

Lemma frame_AddSlave m p : frames same_roles (clusterNodeAddSlave m p).
Proof. unfold clusterNodeAddSlave. frame. Qed.
Lemma frame_RemoveSlave m p : frames same_roles (clusterNodeRemoveSlave m p).
Proof. unfold clusterNodeRemoveSlave. frame. Qed.

Lemma same_roles_lookup c c' p n' :
  same_roles c c' → heap c' !! p = Some n' →
  ∃ n, heap c !! p = Some n ∧ flags n = flags n' ∧ slaveof n = slaveof n'.
Proof.
  intros [H _] Hp. apply (f_equal (lookup p)) in H. rewrite !lookup_fmap, Hp in H.
  destruct (heap c !! p) as [n|]; simpl in H; [|done]. injection H as ? ?. eauto.
Qed.

Definition slave_of (c : cluster) (p : ptr) : Prop :=
  ∃ n, heap c !! me = Some n ∧ nodeIsMaster n = false ∧ slaveof n = Some p.

Definition new_master_events (c : cluster) (p : ptr) : list event :=
  replicationSetMaster p :: if negb (mf_end c =? 0) && clientsArePaused then [unpauseClients] else [].

(** The end of [clusterSetMaster], once [myself] points to its master. *)
Lemma set_master_tail c p :
  ok D me c → p ∈ D → slave_of c p →
  ∃ c', (clusterNodeAddSlave p me ;; emit (replicationSetMaster p) ;;
         resetManualFailover clientsArePaused) c = Some (tt, c') ∧
    ok D me c' ∧ slave_of c' p ∧ slots c' = slots c ∧ events c' = events c ++ new_master_events c p.
Proof.
  intros Hc Hp (n & Hn & Hm & Hs).
  destruct (safe_AddSlave D me p me Hp (ok_me_in _ _ _ Hc) c Hc) as (r & c1 & E & Hc1 & _).
  pose proof (frame_AddSlave p me c r c1 E) as Hf.
  destruct (ok_lookup _ _ c1 me Hc1 (ok_me_in _ _ _ Hc)) as [n1 Hn1].
  destruct (same_roles_lookup _ _ _ _ Hf Hn1) as (n' & Hn' & Hfl & Hsl). simplify_eq.
  destruct Hf as (_ & Hsl1 & Hev & Hmf).
  assert (slave_of c1 p) as Hslave.
  { exists n1. split; [done|]. split; [|congruence]. rewrite <-Hm. unfold nodeIsMaster, has_flag. by rewrite Hfl. }
  erewrite bind_run by exact E. unfold new_master_events. rewrite <-Hmf, <-Hev, <-Hsl1.
  unfold resetManualFailover. run1. cbv beta. run1.
  change (mf_end (set_events ?x c1)) with (mf_end c1).
  destruct (negb (mf_end c1 =? 0) && clientsArePaused); eexists; (split; [reflexivity|]);
    (split; [by apply (ok_ext D me c1)|]); (split; [done|]); (split; [done|]);
    simpl; by rewrite <-?app_assoc.
Qed.

Lemma clusterSetMaster_run c p n :
  ok D me c → p ∈ D → p ≠ me → heap c !! me = Some n → numslots n = 0 →
  ∃ c', clusterSetMaster clientsArePaused p c = Some (tt, c') ∧ ok D me c' ∧
    slave_of c' p ∧ slots c' = slots c ∧ events c' = events c ++ new_master_events c p.
Proof.
  intros Hc Hp Hne Hn H0. pose proof (ok_me_in _ _ _ Hc) as Hme.
  unfold clusterSetMaster. run1. rewrite (ok_me _ _ _ Hc), bool_decide_eq_false_2 by done.
  run1. run1. rewrite H0. run1. destruct (nodeIsMaster n) eqn:Hm.
  - set (n' := set_slaveof (Some p) (become_slave n)). destruct (roles_become_slave n) as [R1 R2].
    assert (ok D me (set_heap (<[me := n']> (heap c)) c)) as Hc1.
    { apply (ok_store D me c me n); [done|done|].
      split; try done; [intros m [= <-]; auto|]. intros _ _. unfold role_ok.
      change (nodeIsMaster n') with (nodeIsMaster (become_slave n)).
      change (nodeIsSlave n') with (nodeIsSlave (become_slave n)). rewrite R1, R2. simpl. eauto. }
    set (c2 := set_importing_slots_from ∅ (set_migrating_slots_to ∅
      (set_heap (<[me := n']> (heap c)) c))).
    assert (ok D me c2) as Hc2.
    { apply ok_transit; [..|done]; intros ? ? E; by rewrite lookup_empty in E. }
    assert (slave_of c2 p) as Hs2 by (exists n'; simpl; by rewrite lookup_insert_eq).
    destruct (set_master_tail c2 p Hc2 Hp Hs2) as (c' & E & ?). exists c'. split; [|done].
    rewrite <-E. unfold mbind, M_bind, store, clusterCloseAllSlots, upd. simpl.
    rewrite Hn. simpl. rewrite lookup_insert_eq. simpl. rewrite lookup_insert_eq. simpl.
    by rewrite !insert_insert_eq.
  - destruct (ok_role _ _ _ Hc n Hn) as [_ Hr]. destruct (Hr Hm) as [_ [m Hmm]]. rewrite Hmm.
    assert (m ∈ D) as HmD by (by eapply (ok_node _ _ _ Hc me n Hn)).
    destruct (safe_RemoveSlave D me m me HmD c Hc) as (r & c1 & E & Hc1 & _).
    pose proof (frame_RemoveSlave m me c r c1 E) as Hf.
    destruct (ok_lookup _ _ c1 me Hc1 Hme) as [n1 Hn1].
    destruct (same_roles_lookup _ _ _ _ Hf Hn1) as (n' & Hn' & Hfl & Hsl). simplify_eq.
    erewrite bind_run; cycle 1. { erewrite bind_run by exact E. reflexivity. }
    cbv beta. erewrite bind_run by by apply store_run. cbv beta.
    set (c2 := set_heap _ _).
    assert (ok D me c2) as Hc2 by (eapply ok_store; [done|done|by apply benign_set_slaveof]).
    assert (slave_of c2 p) as Hs2.
    { exists (set_slaveof (Some p) n1). simpl. rewrite lookup_insert_eq. split; [done|]. split; [|done].
      rewrite <-Hm. unfold nodeIsMaster, has_flag. simpl. by rewrite Hfl. }
    destruct (set_master_tail c2 p Hc2 Hp Hs2) as (c' & E' & ? & ? & Hsl' & Hev').
    destruct Hf as (_ & Hf1 & Hf2 & Hf3). unfold new_master_events in *. simpl in *.
    rewrite Hf3, Hf2, Hf1 in *. eauto 10.
Qed.
End set_master.

(** ** The update of the slot table by a claim *)

Section update.
Context (D : gset ptr) (me : ptr).
Context (countKeysInSlot : Z → Z) (clientsArePaused : bool).
Context (sender : ptr) (epoch : Z) (bitmap : bytes).

(** The claim on [j] wins: the slot is claimed, is not the sender's already, is
    not being imported, and is unassigned or owned under a smaller epoch. *)
Definition rebinds (c : cluster) (j : Z) : bool :=
  tbit bitmap j && negb (bool_decide (slots c !! j = Some sender)) &&
  negb (bool_decide (is_Some (importing_slots_from c !! j))) &&
  match slots c !! j with
  | None => true
  | Some o => match heap c !! o with Some n => configEpoch n <? epoch | None => false end
  end.

Definition my_master (c : cluster) : option ptr :=
  match heap c !! myself c with
  | Some n => if nodeIsMaster n then Some (myself c) else slaveof n
  | None => None
  end.

Definition taken_from (c : cluster) (o : option ptr) (j : Z) : bool :=
  rebinds c j && bool_decide (slots c !! j = o).

(** The slots that [myself] loses and still has keys in. *)
Definition lost_with_keys (c : cluster) (l : list Z) : list Z :=
  filter (λ j, taken_from c (Some (myself c)) j && negb (countKeysInSlot j =? 0) = true) l.

(** The claim leaves [myself], or its master, without slots. *)
Definition demotes (c : cluster) : bool :=
  existsb (taken_from c (my_master c)) all_slots &&
  forallb (λ j, negb (bool_decide (slots c !! j = my_master c)) || rebinds c j) all_slots.

Context (c0 : cluster) (Hc0 : ok D me c0) (Hsender : sender ∈ D) (Hne : sender ≠ me).
Context (Hbm : bitmap_ok bitmap).

Lemma reslot_fields c : reslot c0 c →
  importing_slots_from c = importing_slots_from c0 ∧ myself c = myself c0 ∧ events c = events c0 ∧
  mf_end c = mf_end c0.
Proof using.
  intros H. split; [|split; [|split]].
  - apply (f_equal importing_slots_from) in H. exact H.
  - apply (f_equal myself) in H. exact H.
  - apply (f_equal events) in H. exact H.
  - apply (f_equal mf_end) in H. exact H.
Qed.

(** After the slots in [pre]. *)
Record updated (pre : list Z) (s : bool * list Z) (c : cluster) : Prop := {
  upd_ok : ok D me c;
  upd_reslot : reslot c0 c;
  upd_slots : ∀ j, slots c !! j =
    if bool_decide (j ∈ pre) && rebinds c0 j then Some sender else slots c0 !! j;
  upd_newmaster : s.1 = existsb (taken_from c0 (my_master c0)) pre;
  upd_dirty : s.2 = lost_with_keys c0 pre;
}.

(** Nothing happens to a slot the claim does not win. *)
Lemma updated_skip pre s c j : updated pre s c → rebinds c0 j = false → updated (pre ++ [j]) s c.
Proof using Hc0 Hsender Hne Hbm.
  intros [] Hr. assert (∀ o, taken_from c0 o j = false) as Ht by (intros; unfold taken_from; by rewrite Hr).
  split; [done|done|..].
  - intros k. rewrite upd_slots0. destruct (decide (k = j)) as [->|].
    + by rewrite Hr, !andb_false_r.
    + rewrite (bool_decide_ext (k ∈ pre ++ [j]) (k ∈ pre)) by set_solver. done.
  - rewrite existsb_app. simpl. by rewrite Ht, !orb_false_r.
  - unfold lost_with_keys in *. rewrite filter_app, filter_cons, Ht. simpl. by rewrite app_nil_r.
Qed.

Lemma clusterDoBeforeSleep_run fl c :
  clusterDoBeforeSleep fl c = Some (tt, set_todo_before_sleep (Z.lor (todo_before_sleep c) fl) c).
Proof using. done. Qed.

Lemma update_slot_run pre j s c :
  updated pre s c → j ∉ pre → slot_ok j →
  ∃ s' c', update_slot countKeysInSlot sender epoch bitmap (my_master c0) s j c = Some (s', c') ∧
    updated (pre ++ [j]) s' c'.
Proof using Hc0 Hsender Hne Hbm.
  intros Hu Hj Hok. pose proof Hu as []. destruct s as [newmaster dirty]. simpl in *.
  destruct (reslot_fields c upd_reslot0) as (Himp & Hmy & Hev & _).
  assert (slots c !! j = slots c0 !! j) as Hsj by (rewrite upd_slots0, bool_decide_eq_false_2; done).
  assert (∀ P : Prop, rebinds c0 j = false → ((∃ s' c', Some ((newmaster, dirty), c) = Some (s', c') ∧
    updated (pre ++ [j]) s' c') → P) → P) as Hskip.
  { intros P Hr HP. apply HP. do 2 eexists. split; [done|]. by apply updated_skip. }
  unfold update_slot. erewrite bind_run; cycle 1.
  { unfold lift. by rewrite (bitmapTestBit_ok bitmap j Hbm Hok). }
  destruct (tbit bitmap j) eqn:Hbit; simpl; cycle 1.
  { apply Hskip; [|done]. unfold rebinds. by rewrite Hbit. }
  run1. run1. run1. rewrite Himp, Hsj.
  case_bool_decide as Hown.
  { apply Hskip; [|done]. unfold rebinds. by rewrite (bool_decide_eq_true_2 _ Hown), andb_false_r. }
  case_bool_decide as Hi.
  { apply Hskip; [|done]. unfold rebinds. by rewrite (bool_decide_eq_true_2 _ Hi), andb_false_r. }
  assert (rebinds c0 j = match slots c0 !! j with None => true | Some o =>
    match heap c0 !! o with Some n => configEpoch n <? epoch | None => false end end) as Hr.
  { unfold rebinds. by rewrite Hbit, (bool_decide_eq_false_2 _ Hown), (bool_decide_eq_false_2 _ Hi). }
  erewrite (bind_run _ _ c (rebinds c0 j) c); cycle 1.
  { rewrite Hr. destruct (slots c0 !! j) as [o|] eqn:Ho; [|done].
    destruct (ok_slots _ _ _ Hc0 j o Ho) as [_ Hin].
    destruct (ok_lookup _ _ c0 o Hc0 Hin) as [n Hn]. rewrite Hn.
    destruct (reslot_lookup_rev _ _ o n upd_reslot0 Hn) as (n' & Hn' & E).
    run1. apply (f_equal configEpoch) in E. simpl in E. by rewrite E. }
  clear Hr. destruct (rebinds c0 j) eqn:Hr; simpl; [|by apply Hskip].
  assert (∀ o, taken_from c0 o j = bool_decide (slots c0 !! j = o)) as Ht
    by (intros; unfold taken_from; by rewrite Hr).
  destruct (clusterDelSlot_run D me c j) as (c1 & E1 & Hc1 & Hs1 & Hf1); [done|done|].
  erewrite bind_run by exact E1. cbv beta.
  destruct (clusterAddSlot_run D me c1 sender j) as (c2 & E2 & Hc2 & Hs2 & Hf2);
    [done|done|done|by rewrite Hs1, lookup_delete_eq|done|].
  erewrite bind_run by exact E2. cbv beta. erewrite bind_run by apply clusterDoBeforeSleep_run.
  do 2 eexists. split; [done|]. split.
  - by apply (ok_ext D me c2).
  - by do 2 (etrans; [eassumption|]).
  - intros k. simpl. rewrite Hs2, Hs1. destruct (decide (k = j)) as [->|Hk].
    + rewrite lookup_insert_eq, bool_decide_eq_true_2, Hr by set_solver. done.
    + rewrite lookup_insert_ne, lookup_delete_ne, upd_slots0 by done.
      rewrite (bool_decide_ext (k ∈ pre ++ [j]) (k ∈ pre)) by set_solver. done.
  - cbn [fst]. rewrite existsb_app, upd_newmaster0. simpl. by rewrite Ht, orb_false_r.
  - cbn [snd]. unfold lost_with_keys in *. rewrite filter_app, <-upd_dirty0, filter_cons, Ht.
    rewrite Hmy, (ok_me _ _ _ Hc0), (bool_decide_eq_false_2 (sender = me)) by done. simpl.
    destruct (bool_decide (slots c0 !! j = Some me) && negb (countKeysInSlot j =? 0)) eqn:E; simpl; [done|].
    by rewrite app_nil_r.
Qed.

Lemma update_loop_run :
  ∃ s c', foldM (update_slot countKeysInSlot sender epoch bitmap (my_master c0)) all_slots (false, []) c0 =
    Some (s, c') ∧ updated all_slots s c'.
Proof using Hc0 Hsender Hne Hbm.
  assert (∀ l pre s c, updated pre s c → NoDup (pre ++ l) → Forall slot_ok l →
    ∃ s' c', foldM (update_slot countKeysInSlot sender epoch bitmap (my_master c0)) l s c = Some (s', c') ∧
      updated (pre ++ l) s' c') as H.
  { induction l as [|j l IH]; intros pre s c Hu Hnd Hl; simpl.
    - exists s, c. by rewrite app_nil_r.
    - apply Forall_cons in Hl as [Hj Hl].
      destruct (update_slot_run pre j s c) as (s1 & c1 & E & Hu1); [done| |done|].
      { apply NoDup_app in Hnd as (_ & Hd & _). intros Hin. apply (Hd j Hin). set_solver. }
      erewrite bind_run by exact E. cbv beta. rewrite cons_middle, app_assoc in Hnd. rewrite (cons_middle j pre l), app_assoc.
      by apply IH. }
  apply (H all_slots [] (false, []) c0); [|apply all_slots_NoDup|].
  - split; try done.
  - apply Forall_forall. intros j. apply all_slots_spec.
Qed.

(** The node at [o] is left without slots by the loop exactly when every slot it
    had is rebound. *)
Lemma emptied_iff s c q n :
  updated all_slots s c → my_master c0 = Some q → heap c !! q = Some n → q ≠ sender →
  (numslots n =? 0) =
  forallb (λ j, negb (bool_decide (slots c0 !! j = my_master c0)) || rebinds c0 j) all_slots.
Proof using Hc0.
  intros [] Hq Hn Hqs. rewrite Hq.
  rewrite (node_count _ _ (ok_node _ _ _ upd_ok0 q n Hn)). apply eq_iff_eq_true.
  rewrite Z.eqb_eq, nbits_0, forallb_forall. split.
  - intros H j Hj%list_elem_of_In%all_slots_spec. case_bool_decide as Hs; [|done]. simpl.
    destruct (rebinds c0 j) eqn:Hr; [done|]. exfalso.
    assert (tbit (slot_bits n) j = true); [|by rewrite H in *].
    apply (ok_owner _ _ _ upd_ok0 q n j Hn Hj). by rewrite upd_slots0, Hr, andb_false_r.
  - intros H j Hj. apply not_true_is_false. intros Ht.
    apply (ok_owner _ _ _ upd_ok0 q n j Hn Hj) in Ht. rewrite upd_slots0 in Ht.
    assert (j ∈ all_slots) as Hin by by apply all_slots_spec.
    rewrite (bool_decide_eq_true_2 _ Hin) in Ht. pose proof Hin as Hin'.
    apply list_elem_of_In, H in Hin'. destruct (rebinds c0 j); simpl in *; [congruence|].
    rewrite (bool_decide_eq_true_2 _ Ht) in Hin'. done.
Qed.
End update.

Lemma forM_emit {A} (l : list A) (f : A → event) c :
  forM l (λ x, emit (f x)) c = Some (tt, set_events (events c ++ (f <$> l)) c).
Proof.
  unfold forM. revert c. induction l as [|x l IH]; intros c; simpl.
  - rewrite app_nil_r. by destruct c.
  - erewrite bind_run by reflexivity. cbv beta. rewrite IH. simpl. by rewrite <-app_assoc.
Qed.

(** The demotion test after the loop. *)
Lemma update_demote_run D me c0 sender epoch bitmap keys s c :
  ok D me c0 → updated D me keys sender epoch bitmap c0 all_slots s c →
  (if s.1 : bool then n ← load_opt (my_master c0); mret (numslots n =? 0) else mret false) c =
  Some (demotes sender epoch bitmap c0, c).
Proof.
  intros Hc0 Hu. pose proof Hu as []. unfold demotes. rewrite upd_newmaster0.
  destruct (existsb _ _) eqn:Hex; [|done].
  destruct (my_master c0) as [q|] eqn:Hq.
  - assert (q ∈ D) as Hin.
    { unfold my_master in Hq. destruct (heap c0 !! myself c0) as [n|] eqn:Hn; [|done].
      pose proof (ok_lookup_in _ _ _ _ _ Hc0 Hn) as Hm. destruct (nodeIsMaster n); [by simplify_eq|].
      by eapply (ok_node _ _ _ Hc0 _ _ Hn). }
    destruct (ok_lookup _ _ c q upd_ok0 Hin) as [n Hn]. run1.
    unfold mret, M_ret. rewrite (emptied_iff D me keys sender epoch bitmap c0 Hc0 s c q n), Hq; auto.
    intros ->. apply existsb_exists in Hex as (j & _ & Hj). unfold taken_from, rebinds in Hj.
    destruct (bool_decide (slots c0 !! j = Some sender)); [|by rewrite andb_false_r in Hj].
    by rewrite andb_false_r in Hj.
  - exfalso. unfold my_master in Hq. rewrite (ok_me _ _ _ Hc0) in Hq.
    destruct (ok_lookup _ _ c0 me Hc0 (ok_me_in _ _ _ Hc0)) as [n Hn]. rewrite Hn in Hq.
    destruct (ok_role _ _ _ Hc0 n Hn) as [_ Hr]. destruct (nodeIsMaster n); [done|].
    destruct (Hr eq_refl) as [_ [m ?]]. congruence.
Qed.

Lemma clusterUpdateSlots_run D me c sender epoch bitmap keys paused :
  ok D me c → sender ∈ D → sender ≠ me → bitmap_ok bitmap →
  ∃ c', clusterUpdateSlotsConfigWith keys paused sender epoch bitmap c = Some (tt, c') ∧
    ok D me c' ∧
    (∀ j, slot_ok j →
      slots c' !! j = if rebinds sender epoch bitmap c j then Some sender else slots c !! j) ∧
    if demotes sender epoch bitmap c
    then slave_of me c' sender ∧ events c' = events c ++ new_master_events paused c sender
    else my_master c' = my_master c ∧
      events c' = events c ++ (delKeysInSlot <$> lost_with_keys keys sender epoch bitmap c all_slots).
Proof.
  intros Hc Hs Hne Hbm.
  destruct (ok_lookup _ _ c me Hc (ok_me_in _ _ _ Hc)) as [n Hn].
  destruct (update_loop_run D me keys sender epoch bitmap c Hc Hs Hne Hbm) as ([nm dirty] & c1 & E & Hu).
  pose proof (update_demote_run _ _ _ _ _ _ _ _ _ Hc Hu) as Hdem. pose proof Hu as [].
  destruct (reslot_fields c c1 upd_reslot0) as (_ & Hmy & Hev & Hmf).
  assert (∀ j, slot_ok j → slots c1 !! j =
    if rebinds sender epoch bitmap c j then Some sender else slots c !! j) as Hslots.
  { intros j Hj. rewrite upd_slots0, bool_decide_eq_true_2 by by apply all_slots_spec. done. }
  assert (my_master c = if nodeIsMaster n then Some me else slaveof n) as Hmm.
  { unfold my_master. by rewrite (ok_me _ _ _ Hc), Hn. }
  destruct (reslot_lookup_rev c c1 me n upd_reslot0 Hn) as (n1 & Hn1 & En).
  unfold clusterUpdateSlotsConfigWith. run1. rewrite (ok_me _ _ _ Hc). run1.
  rewrite bool_decide_eq_false_2 by done. rewrite <-Hmm.
  erewrite bind_run by exact E. cbv beta iota. simpl fst in Hdem. erewrite bind_run by exact Hdem. cbv beta.
  destruct (demotes _ _ _ _) eqn:Hd.
  - unfold demotes in Hd. apply andb_true_iff in Hd as [Hd1 Hd2].
    assert (numslots n1 = 0) as H0.
    { destruct (nodeIsMaster n) eqn:Hmst.
      - apply Z.eqb_eq. rewrite <-Hd2. symmetry. symmetry.
        apply (emptied_iff D me keys sender epoch bitmap c Hc (nm, dirty) c1 me n1); auto.
      - assert (nodeIsMaster n1 = false) as Hm1.
        { rewrite <-Hmst. apply (f_equal flags) in En. unfold nodeIsMaster, has_flag. simpl in En. by rewrite En. }
        by apply (ok_role _ _ _ upd_ok0 n1 Hn1). }
    destruct (clusterSetMaster_run D me paused c1 sender n1) as (c2 & E2 & Hc2 & Hsl & Hs2 & Hev2); auto.
    erewrite bind_run by exact E2. cbv beta. eexists. split; [reflexivity|].
    split; [by apply (ok_ext D me c2)|]. split; [intros j Hj; simpl; rewrite Hs2; auto|].
    split; [done|]. simpl. rewrite Hev2, Hev. unfold new_master_events. by rewrite Hmf.
  - rewrite forM_emit. eexists. split; [reflexivity|]. split; [by apply (ok_ext D me c1)|].
    split; [done|]. split.
    + rewrite Hmm. unfold my_master. simpl. rewrite Hmy, (ok_me _ _ _ Hc), Hn1.
      pose proof (f_equal flags En) as E1. pose proof (f_equal slaveof En) as E3. simpl in E1, E3.
      unfold nodeIsMaster, has_flag. by rewrite E1, E3.
    + simpl. rewrite Hev. simpl in upd_dirty0. by rewrite upd_dirty0.
Qed.
