(* ===== verification/ClusterSteps.v ===== *)
(** * Runs of the cluster state machine

    Every handler keeps the invariant of [ClusterSpec]; the operations of a node
    as a step relation; votes, epochs and failure detection along a run; what
    happens to pointers when a node is forgotten. *)

From S2P Require Import Prelude Crc Cluster ClusterSpec.

#[local] Open Scope Z_scope.
#[local] Opaque all_slots.

Lemma foldM_run {A S} (P : cluster → Prop) (body : S → A → M S) l s c :
  P c → (∀ s x c, x ∈ l → P c → ∃ s' c', body s x c = Some (s', c') ∧ P c') →
  ∃ s' c', foldM body l s c = Some (s', c') ∧ P c'.
Proof.
  revert s c. induction l as [|x l IH]; intros s c Hc H; simpl; [by exists s, c|].
  destruct (H s x c) as (s1 & c1 & E & Hc1); [set_solver|done|].
  erewrite bind_run by exact E. apply IH; [done|]. intros. apply H; [set_solver|done].
Qed.

(** ** The other handlers keep the invariant *)

Section handlers.
Context (D : gset ptr) (me : ptr).
Context (now cluster_node_timeout : Z) (cluster_require_full_coverage : bool).
Context (countKeysInSlot : Z → Z) (clientsArePaused : bool).

Lemma safe_fold {A S} (body : S → A → M S) l s :
  (∀ s x, x ∈ l → safe_ D me (body s x)) → safe_ D me (foldM body l s).
Proof. intros H. apply (safe_foldM D me body l s (λ _, True)); auto. Qed.

Lemma safe_GetSlotBit p j : p ∈ D → slot_ok j → safe_ D me (clusterNodeGetSlotBit p j).
Proof. intros. unfold clusterNodeGetSlotBit. safe. Qed.
Hint Resolve safe_GetSlotBit : cluster.

Lemma safe_DelNodeSlots p : p ∈ D → safe_ D me (clusterDelNodeSlots p).
Proof.
  intros. unfold clusterDelNodeSlots. apply safe_fold. intros. safe.
Qed.

Lemma safe_CloseAllSlots : safe_ D me clusterCloseAllSlots.
Proof.
  apply safe_upd. intros c Hc. apply ok_transit; [..|done]; intros ? ? E; by rewrite lookup_empty in E.
Qed.

Lemma safe_CountNonFailingSlaves p : p ∈ D → safe_ D me (clusterCountNonFailingSlaves p).
Proof.
  intros. unfold clusterCountNonFailingSlaves. safe_step. apply safe_fold. intros s x Hx.
  pose proof (proj1 (Forall_forall _ _) (node_slaves _ _ H0) x Hx). safe.
Qed.

Lemma safe_UpdateSlots sender epoch bitmap : sender ∈ D → bitmap_ok bitmap →
  safe_ D me (clusterUpdateSlotsConfigWith countKeysInSlot clientsArePaused sender epoch bitmap).
Proof.
  intros Hs Hb c Hc. destruct (decide (sender = me)) as [->|Hne].
  - exists tt, c. split; [|done]. destruct (ok_lookup _ _ c me Hc Hs) as [n Hn].
    unfold clusterUpdateSlotsConfigWith. run1. rewrite (ok_me _ _ _ Hc). run1.
    by rewrite bool_decide_eq_true_2.
  - destruct (clusterUpdateSlots_run D me c sender epoch bitmap countKeysInSlot clientsArePaused)
      as (c' & E & ? & _); auto. by exists tt, c'.
Qed.
Hint Resolve safe_DelNodeSlots safe_CloseAllSlots safe_UpdateSlots : cluster.

Lemma safe_SendFailoverAuthIfNeeded p req : p ∈ D → bitmap_ok (req_myslots req) →
  safe_ D me (clusterSendFailoverAuthIfNeeded now cluster_node_timeout p req).
Proof.
  intros. unfold clusterSendFailoverAuthIfNeeded, clusterSendFailoverAuth, newer_owner.
  safe. 
Qed.


Lemma safe_slot_uncovered j : slot_ok j → safe_ D me (slot_uncovered j).
Proof. intros. unfold slot_uncovered. safe. Qed.

Lemma safe_count_masters acc p : p ∈ D → safe_ D me (count_masters acc p).
Proof. intros. unfold count_masters. safe. Qed.
Hint Resolve safe_slot_uncovered safe_count_masters safe_SendFailoverAuthIfNeeded : cluster.

Lemma safe_UpdateState : safe_ D me (clusterUpdateState now cluster_node_timeout cluster_require_full_coverage).
Proof.
  unfold clusterUpdateState. safe_step; [safe|]. safe_step.
  { apply safe_upd. intros c Hc. destruct (first_call_time c =? 0); safe_side. }
  safe_step. safe_step. safe_step; [safe|]. safe_step; [safe|].
  safe_step; [apply safe_fold; intros; safe|]. safe.
Qed.

(** *** Packets *)

Lemma safe_packet_epochs s h : s ∈ D → safe_ D me (packet_epochs s h).
Proof.
  intros. unfold packet_epochs. safe_step. safe_step; [by apply safe_ret|].
  safe_step. { apply safe_upd. intros c Hc. destruct (hdr_currentEpoch h >? currentEpoch c); safe_side. }
  safe.
Qed.

Lemma safe_packet_role_switch s h : s ∈ D → s ≠ me → safe_ D me (packet_role_switch s h).
Proof.
  intros Hs Hne. unfold packet_role_switch. destruct (hdr_slaveof h) as [nm|]; [|safe].
  safe_step. safe_step. safe_step.
  - apply safe_when. intros _. safe_step. apply safe_store_fuse.
    eapply safe_bind; [by apply safe_store, benign_become_slave|]. intros _ _.
    unfold clusterNodeResetSlaves. safe.
  - safe.
Qed.

Lemma safe_stale_claim s e b j : bitmap_ok b → slot_ok j → safe_ D me (stale_claim s e b j).
Proof. intros. unfold stale_claim. safe. Qed.
Hint Resolve safe_UpdateState safe_packet_epochs safe_packet_role_switch safe_stale_claim : cluster.

Lemma safe_packet_slots s e h : s ∈ D → bitmap_ok (hdr_myslots h) →
  safe_ D me (packet_slots countKeysInSlot clientsArePaused s e h).
Proof.
  intros. unfold packet_slots. safe_step. cbv zeta. safe_step; [destruct (nodeIsMaster a); safe|]. safe.
Qed.

Lemma safe_gossip_report s p fl : s ∈ D → p ∈ D →
  safe_ D me (gossip_report now cluster_node_timeout s p fl).
Proof. intros. unfold gossip_report. safe. Qed.

Lemma safe_packet_fail nm : safe_ D me (packet_fail now nm).
Proof. unfold packet_fail. safe. Qed.

Lemma safe_packet_auth_ack s e : s ∈ D → safe_ D me (packet_auth_ack s e).
Proof. intros. unfold packet_auth_ack. safe. Qed.

Lemma safe_packet_mfstart s : s ∈ D → safe_ D me (packet_mfstart now clientsArePaused s).
Proof. intros. unfold packet_mfstart. safe. Qed.

Lemma safe_packet_update nm e b : bitmap_ok b →
  safe_ D me (packet_update countKeysInSlot clientsArePaused nm e b).
Proof. intros. unfold packet_update. safe. Qed.
Hint Resolve safe_packet_slots safe_gossip_report : cluster.

Lemma safe_packet_ping s ln is_pong h gossip :
  s ∈ D → s ≠ me → (∀ p, ln = Some p → p ∈ D) → bitmap_ok (hdr_myslots h) →
  safe_ D me (packet_ping now cluster_node_timeout countKeysInSlot clientsArePaused s ln is_pong h gossip).
Proof.
  intros Hs Hne Hln Hb. unfold packet_ping. safe_step. safe_step. safe_step; [destruct ln; safe|].
  safe_step. safe_step. apply safe_forM. intros [nm fl] _.
  eapply safe_bind; [apply safe_lookup|]. intros [p|] Hp; [|by apply safe_ret].
  apply safe_gossip_report; [|by auto]. destruct ln; simpl; auto.
Qed.

(** *** Loops that give slots to [myself], a master *)

Definition okm (c : cluster) : Prop :=
  ok D me c ∧ ∀ n, heap c !! me = Some n → nodeIsMaster n = true.

Lemma okm_reslot c c' : okm c → ok D me c' → reslot c c' → okm c'.
Proof.
  intros [_ Hm] Hc' Hr. split; [done|]. intros n' Hn'.
  destruct (reslot_lookup _ _ _ _ Hr Hn') as (n & Hn & E). apply (f_equal flags) in E. simpl in E.
  rewrite <-(Hm n Hn). unfold nodeIsMaster, has_flag. by rewrite E.
Qed.

Lemma okm_AddSlot c j : okm c → slot_ok j → slots c !! j = None →
  ∃ c', clusterAddSlot me j c = Some (true, c') ∧ okm c'.
Proof.
  intros Hm Hj Hs. pose proof Hm as [Hc Hmm].
  destruct (clusterAddSlot_run D me c me j) as (c' & E & Hc' & _ & Hr); auto.
  { by eapply ok_me_in. }
  exists c'. split; [done|]. by eapply okm_reslot.
Qed.

Lemma okm_verify_slot s j c : j ∈ all_slots → okm c →
  ∃ s' c', verify_slot countKeysInSlot s j c = Some (s', c') ∧ okm c'.
Proof.
  intros Hj%all_slots_spec Hm. pose proof Hm as [Hc Hmm]. unfold verify_slot.
  destruct (countKeysInSlot j =? 0); [by exists s, c|]. run1. run1. run1.
  rewrite (ok_me _ _ _ Hc). destruct (_ || _); [by exists s, c|].
  destruct (slots c !! j) as [o|] eqn:Ho.
  - erewrite bind_run by reflexivity. do 2 eexists. split; [reflexivity|]. split; [|exact Hmm].
    apply ok_importing_insert; [done| |done]. by eapply ok_slots.
  - destruct (okm_AddSlot c j Hm Hj Ho) as (c' & E & Hm').
    erewrite bind_run; cycle 1. { erewrite bind_run by exact E. reflexivity. }
    by do 2 eexists.
Qed.

Lemma safe_verify dbs : safe_ D me (verifyClusterConfigWithData countKeysInSlot dbs).
Proof.
  intros c Hc. destruct (ok_lookup _ _ c me Hc (ok_me_in _ _ _ Hc)) as [n Hn].
  unfold verifyClusterConfigWithData. run1. rewrite (ok_me _ _ _ Hc). run1.
  destruct (nodeIsSlave n) eqn:Hsl; [by exists true, c|].
  destruct (existsb _ _); [by exists false, c|].
  assert (okm c) as Hm.
  { split; [done|]. intros n' ?. simplify_eq. destruct (ok_role _ _ _ Hc n Hn) as [Hr _].
    rewrite Hr in Hsl. by destruct (nodeIsMaster n). }
  destruct (foldM_run okm (verify_slot countKeysInSlot) all_slots 0 c Hm) as (u & c1 & E & Hc1 & _).
  { intros. by apply okm_verify_slot. }
  erewrite bind_run by exact E.
  assert (safe_ D me (when (negb (u =? 0)) (emit (clusterSaveConfigOrDie 1));; mret true)) as Hs by safe.
  by apply Hs.
Qed.

Lemma SetNodeAsMaster_me c n : ok D me c → heap c !! me = Some n →
  ∃ c', clusterSetNodeAsMaster me c = Some (tt, c') ∧ okm c'.
Proof.
  intros Hc Hn. pose proof (ok_me_in _ _ _ Hc) as Hme. unfold clusterSetNodeAsMaster. run1.
  destruct (nodeIsMaster n) eqn:Hm; [exists c; split; [done|]; split; [done|]; congruence|].
  assert (safe_ D me (match slaveof n with
    | Some m => clusterNodeRemoveSlave m me ;; mret tt | None => mret tt end)) as Hs.
  { pose proof (ok_node _ _ _ Hc me n Hn). safe. }
  destruct (Hs c Hc) as ([] & c1 & E & Hc1 & _). erewrite bind_run by exact E. cbv beta.
  rewrite !store_store. destruct (ok_lookup _ _ c1 me Hc1 Hme) as [n1 Hn1].
  erewrite bind_run by by apply store_run. cbv beta. eexists. split; [reflexivity|]. split.
  - eapply (ok_ext D me (set_heap (<[me := become_master n1]> (heap c1)) c1)); try done.
    eapply ok_store; [done|done|]. apply benign_become_master.
  - simpl. intros n2. rewrite lookup_insert_eq. intros [= <-]. apply roles_become_master.
Qed.

Lemma okm_steal_slot old j c : j ∈ all_slots → old ∈ D → okm c →
  ∃ c', (bit ← clusterNodeGetSlotBit old j;
         when bit (clusterDelSlot j;; clusterAddSlot me j;; mret tt)) c = Some (tt, c') ∧ okm c'.
Proof.
  intros Hj%all_slots_spec Hold Hm. pose proof Hm as [Hc Hmm].
  destruct (ok_lookup _ _ c old Hc Hold) as [n Hn].
  destruct (ok_node _ _ _ Hc old n Hn) as [Hbm _ _ _].
  erewrite bind_run; cycle 1.
  { unfold clusterNodeGetSlotBit. run1. unfold lift. by rewrite (bitmapTestBit_ok _ _ Hbm Hj). }
  destruct (tbit (slot_bits n) j); [|by exists c]. unfold when.
  destruct (clusterDelSlot_run D me c j Hc Hj) as (c1 & E1 & Hc1 & Hs1 & Hr1).
  erewrite bind_run by exact E1.
  destruct (okm_AddSlot c1 j) as (c2 & E2 & Hm2); [by eapply okm_reslot|done|by rewrite Hs1, lookup_delete_eq|].
  erewrite bind_run by exact E2. by exists c2.
Qed.

Lemma safe_FailoverReplace : safe_ D me (clusterFailoverReplaceYourMaster now cluster_node_timeout
  cluster_require_full_coverage clientsArePaused).
Proof.
  intros c Hc. destruct (ok_lookup _ _ c me Hc (ok_me_in _ _ _ Hc)) as [n Hn].
  unfold clusterFailoverReplaceYourMaster. run1. rewrite (ok_me _ _ _ Hc). run1.
  destruct (nodeIsMaster n) eqn:Hm; [by exists tt, c|].
  destruct (slaveof n) as [old|] eqn:Ho; [|by exists tt, c].
  pose proof (node_slaveof _ _ (ok_node _ _ _ Hc me n Hn) old Ho) as Hold.
  destruct (SetNodeAsMaster_me c n Hc Hn) as (c1 & E1 & Hc1). erewrite bind_run by exact E1. cbv beta.
  erewrite bind_run by reflexivity. cbv beta. set (c2 := set_events _ c1).
  assert (okm c2) as Hc2. { destruct Hc1 as [? ?]. split; [by apply (ok_ext D me c1)|done]. }
  destruct (foldM_run okm (λ _ : unit, λ j, bit ← clusterNodeGetSlotBit old j;
    when bit (clusterDelSlot j;; clusterAddSlot me j;; mret tt)) all_slots tt c2 Hc2)
    as ([] & c3 & E3 & Hc3 & _).
  { intros [] j c' Hj Hm'. destruct (okm_steal_slot old j c' Hj Hold Hm') as (c'' & ? & ?). by exists tt, c''. }
  unfold forM. erewrite bind_run by exact E3. cbv beta.
  assert (safe_ D me (clusterUpdateState now cluster_node_timeout cluster_require_full_coverage ;;
    emit (clusterSaveConfigOrDie 1) ;; emit clusterBroadcastPong ;; resetManualFailover clientsArePaused)) as Hs by safe.
  by apply Hs.
Qed.
End handlers.

#[export] Hint Resolve safe_packet_epochs safe_UpdateState safe_DelNodeSlots safe_CloseAllSlots
  safe_UpdateSlots : cluster.

(** ** Forgetting a node *)

(** The fields of the nodes that link them, and the tables that refer to nodes. *)
Definition links (n : clusterNode) := (name n, flags n, slaves n, slaveof n).

Definition same_links (c c' : cluster) : Prop :=
  links <$> heap c' = links <$> heap c ∧ nodes c' = nodes c ∧ myself c' = myself c.

Definition same_refs (c c' : cluster) : Prop :=
  same_links c c' ∧ slots c' = slots c ∧ importing_slots_from c' = importing_slots_from c ∧
  migrating_slots_to c' = migrating_slots_to c.

#[export] Instance same_links_preorder : PreOrder same_links.
Proof. unfold same_links. split; [done|]. intros ? ? ?. naive_solver congruence. Qed.
#[export] Instance same_refs_preorder : PreOrder same_refs.
Proof.
  unfold same_refs. split; [done|]. intros ? ? ? [? ?] [? ?]. split; [by etrans|]. naive_solver congruence.
Qed.

Lemma links_store p f c n :
  links (f n) = links n → heap c !! p = Some n → links <$> <[p := f n]> (heap c) = links <$> heap c.
Proof. intros Hf Hn. rewrite fmap_insert, Hf. apply insert_id. by rewrite lookup_fmap, Hn. Qed.

Lemma same_links_lookup c c' p n' :
  same_links c c' → heap c' !! p = Some n' → ∃ n, heap c !! p = Some n ∧ links n' = links n.
Proof.
  intros [H _] Hp. apply (f_equal (lookup p)) in H. rewrite !lookup_fmap, Hp in H.
  destruct (heap c !! p) as [n|]; simpl in H; [|done]. injection H as ?. exists n.
  split; [done|]. unfold links. congruence.
Qed.

Lemma frame_DelSlot_links j : frames same_links (clusterDelSlot j).
Proof.
  unfold clusterDelSlot, clusterNodeClearSlotBit. frame; split; try done; by apply links_store.
Qed.

Lemma frame_DelReport_refs now t p s : frames same_refs (clusterNodeDelFailureReport now t p s).
Proof.
  unfold clusterNodeDelFailureReport, clusterNodeCleanupFailureReports.
  frame; split; try done; split; try done; by apply links_store.
Qed.

(** What [CLUSTER FORGET] and the links between masters and slaves must ensure
    before the node at [p] is freed. *)
Record forgettable (c : cluster) (p : ptr) (np : clusterNode) : Prop := {
  fg_me : p ≠ myself c;
  fg_node : heap c !! p = Some np;
  fg_name : nodes c !! name np = Some p;
  fg_slaves : p ∉ slaves np ∧ myself c ∉ slaves np;
  fg_masters : ∀ q n, heap c !! q = Some n → slaveof n = Some p → nodeIsMaster np = true ∧ q ∈ slaves np;
  fg_listed : ∀ q n, heap c !! q = Some n → p ∈ slaves n →
    nodeIsSlave np = true ∧ slaveof np = Some q ∧ NoDup (slaves n);
}.

Definition unreferenced (c : cluster) (p : ptr) : Prop :=
  ∀ j, slots c !! j ≠ Some p ∧ importing_slots_from c !! j ≠ Some p ∧ migrating_slots_to c !! j ≠ Some p.

Lemma forgettable_links c c' p np :
  same_links c c' → forgettable c p np → ∃ np', forgettable c' p np'.
Proof.
  intros Hl []. destruct (same_links_lookup c' c p np) as (np' & Hnp' & E); [|done|].
  { destruct Hl as (? & ? & ?). by split. }
  unfold links in E. injection E as E1 E2 E3 E4.
  assert (∀ q n, heap c' !! q = Some n → ∃ n0, heap c !! q = Some n0 ∧ slaves n = slaves n0 ∧ slaveof n = slaveof n0) as Hq.
  { intros q n Hn. destruct (same_links_lookup c c' q n Hl Hn) as (n0 & ? & E).
    unfold links in E. injection E as ? ? ? ?. eauto. }
  destruct Hl as (_ & Hd & Hm). exists np'. unfold nodeIsMaster, nodeIsSlave, has_flag in *.
  split; rewrite ?Hd, ?Hm; unfold nodeIsMaster, nodeIsSlave, has_flag; rewrite <-?E1, <-?E2, <-?E3, <-?E4; auto.
  - intros q n (n0 & ? & _ & ->)%Hq. eauto.
  - intros q n (n0 & ? & -> & _)%Hq. eauto.
Qed.

Lemma remove_slave_spec l s l' : NoDup l → remove_slave l s = Some l' → s ∉ l' ∧ ∀ x, x ∈ l' → x ∈ l.
Proof.
  revert l'. induction l as [|x l IH]; intros l'; simpl; [done|]. intros [Hx Hnd]%NoDup_cons.
  destruct (decide (x = s)) as [->|]; [intros [= <-]; set_solver|].
  destruct (remove_slave l s) as [l1|] eqn:E; simpl; [|done]. intros [= <-].
  destruct (IH l1 Hnd eq_refl). set_solver.
Qed.

Lemma remove_slave_None l s : remove_slave l s = None → s ∉ l.
Proof.
  induction l as [|x l IH]; simpl; [set_solver|]. destruct (decide (x = s)) as [->|]; [done|].
  destruct (remove_slave l s); simpl; [done|]. set_solver.
Qed.

(** The state after [p] has been freed: [h] is the heap without it. *)
Lemma ok_without D me c p np nm h :
  ok D me c → forgettable c p np → unreferenced c p → nm = name np →
  dom h = D ∖ {[p]} →
  (∀ q n', h !! q = Some n' → q ≠ p ∧ ∃ n, heap c !! q = Some n ∧
     slot_bits n' = slot_bits n ∧ numslots n' = numslots n ∧ name n' = name n ∧ flags n' = flags n ∧
     (slaveof n' = slaveof n ∨ slaveof n' = None ∧ q ∈ slaves np) ∧ slaveof n' ≠ Some p ∧
     (∀ s, s ∈ slaves n' → s ∈ slaves n ∧ s ≠ p)) →
  ok (D ∖ {[p]}) me (set_heap h (set_nodes (delete nm (nodes c)) c)).
Proof.
  intros Hc [] Hun -> Hdom Hh. destruct Hc. rewrite ok_me in fg_me0, fg_slaves0.
  assert (∀ q n', heap c !! q = Some n' → q ≠ p → ∃ n1, h !! q = Some n1) as Hback.
  { intros q n' Hq Hne. assert (q ∈ dom h) as [? ?]%elem_of_dom; [|eauto].
    rewrite Hdom, <-ok_dom. apply elem_of_difference. split; [by eapply elem_of_dom_2|set_solver]. }
  split; simpl; auto.
  - set_solver.
  - intros q n' Hq. destruct (Hh q n' Hq) as (Hne & n & Hn & E1 & E2 & _ & _ & Hso & Hsp & Hsl).
    destruct (ok_node q n Hn). split; [by rewrite E1|by rewrite E1, E2| |].
    + intros m Hm. destruct Hso as [E|[E _]]; [|congruence]. rewrite Hm in *.
      assert (m ∈ D) by auto. set_solver.
    + apply Forall_forall. intros s [Hs Hsne]%Hsl. rewrite Forall_forall in node_slaves. set_solver.
  - intros q n' j Hq Hj. destruct (Hh q n' Hq) as (Hne & n & Hn & -> & _). by apply ok_owner.
  - intros j q Hj. destruct (ok_slots j q Hj). split; [done|].
    destruct (Hun j) as (? & _ & _). assert (q ≠ p) by congruence. set_solver.
  - intros j q Hj. destruct (ok_importing j q Hj). split; [done|].
    destruct (Hun j) as (_ & ? & _). assert (q ≠ p) by congruence. set_solver.
  - intros j q Hj. destruct (ok_migrating j q Hj). split; [done|].
    destruct (Hun j) as (_ & _ & ?). assert (q ≠ p) by congruence. set_solver.
  - intros nm q [Hnm Hd]%lookup_delete_Some. destruct (ok_dict nm q Hd) as (n & Hn & Hname).
    assert (q ≠ p) as Hne by (intros ->; congruence).
    destruct (Hback q n Hn Hne) as [n1 Hn1]. exists n1. split; [done|].
    destruct (Hh q n1 Hn1) as (_ & n0 & Hn0 & _ & _ & -> & _). congruence.
  - intros n' Hq. destruct (Hh me n' Hq) as (Hne & n & Hn & _ & E2 & _ & Ef & Hso & _ & _).
    destruct (ok_role n Hn) as [Hr1 Hr2]. unfold role_ok, nodeIsMaster, nodeIsSlave, has_flag in *.
    rewrite Ef, E2. split; [done|]. intros Hm. destruct (Hr2 Hm) as [? ?]. split; [done|].
    destruct Hso as [->|[_ Hin]]; [done|]. by destruct fg_slaves0.
Qed.

Section forget.
Context (D : gset ptr) (me : ptr) (now cluster_node_timeout : Z).

Definition forget_slot (p : ptr) (j : Z) : M unit :=
  c ← get;
  when (bool_decide (importing_slots_from c !! j = Some p))
    (upd (λ c, set_importing_slots_from (delete j (importing_slots_from c)) c));;
  when (bool_decide (migrating_slots_to c !! j = Some p))
    (upd (λ c, set_migrating_slots_to (delete j (migrating_slots_to c)) c));;
  when (bool_decide (slots c !! j = Some p)) (clusterDelSlot j;; mret tt).

Definition clear_ref (p : ptr) (j : Z) (m : gmap Z ptr) : gmap Z ptr :=
  if bool_decide (m !! j = Some p) then delete j m else m.

Lemma clear_ref_lookup p j m k :
  clear_ref p j m !! k = if bool_decide (k = j ∧ m !! j = Some p) then None else m !! k.
Proof.
  unfold clear_ref. destruct (decide (k = j)) as [->|Hk].
  - rewrite (bool_decide_ext (j = j ∧ m !! j = Some p) (m !! j = Some p)) by naive_solver.
    case_bool_decide; [by rewrite lookup_delete_eq|done].
  - rewrite (bool_decide_eq_false_2 (k = j ∧ _)) by naive_solver.
    case_bool_decide; [by rewrite lookup_delete_ne|done].
Qed.

Lemma forget_slot_run p j c : ok D me c → slot_ok j →
  ∃ c', forget_slot p j c = Some (tt, c') ∧ ok D me c' ∧ same_links c c' ∧
    slots c' = clear_ref p j (slots c) ∧
    importing_slots_from c' = clear_ref p j (importing_slots_from c) ∧
    migrating_slots_to c' = clear_ref p j (migrating_slots_to c).
Proof.
  intros Hc Hj. unfold forget_slot. run1.
  set (c1 := if bool_decide (importing_slots_from c !! j = Some p)
    then set_importing_slots_from (delete j (importing_slots_from c)) c else c).
  set (c2 := if bool_decide (migrating_slots_to c !! j = Some p)
    then set_migrating_slots_to (delete j (migrating_slots_to c1)) c1 else c1).
  erewrite (bind_run _ _ c tt c1) by (unfold c1, when; by case_bool_decide). cbv beta.
  erewrite (bind_run _ _ c1 tt c2) by (unfold c2, when; by case_bool_decide). cbv beta.
  assert (ok D me c1) as Hc1 by (unfold c1; case_bool_decide; auto with cluster).
  assert (ok D me c2) as Hc2 by (unfold c2; case_bool_decide; auto with cluster).
  assert (same_links c c2 ∧ slots c2 = slots c ∧
    importing_slots_from c2 = clear_ref p j (importing_slots_from c) ∧
    migrating_slots_to c2 = clear_ref p j (migrating_slots_to c)) as (H1 & H2 & H3 & H4).
  { unfold c2, c1, clear_ref. by repeat case_bool_decide. }
  unfold when. rewrite <-H2. unfold clear_ref at 1. case_bool_decide; [|by exists c2].
  destruct (clusterDelSlot_run D me c2 j Hc2 Hj) as (c3 & E & Hc3 & Hs & Hr).
  pose proof (frame_DelSlot_links j c2 _ c3 E) as Hl. erewrite bind_run by exact E.
  exists c3. split; [done|]. split; [done|]. split; [by etrans|]. split; [done|].
  rewrite <-H3, <-H4. split.
  - by apply (f_equal importing_slots_from) in Hr.
  - by apply (f_equal migrating_slots_to) in Hr.
Qed.

Lemma forget_slots_run p c : ok D me c →
  ∃ c', forM all_slots (forget_slot p) c = Some (tt, c') ∧ ok D me c' ∧ same_links c c' ∧ unreferenced c' p.
Proof.
  intros Hc.
  assert (∀ l c, ok D me c → Forall slot_ok l → ∃ c', forM l (forget_slot p) c = Some (tt, c') ∧
    ok D me c' ∧ same_links c c' ∧
    ∀ (k : Z) (f : cluster → gmap Z ptr), f ∈ [slots; importing_slots_from; migrating_slots_to] →
      f c' !! k = if bool_decide (k ∈ l ∧ f c !! k = Some p) then None else f c !! k) as H.
  { unfold forM. intros l. induction l as [|j l IH]; intros c0 Hc0 Hl; simpl.
    - exists c0. split; [done|]. split; [done|]. split; [done|]. done.
    - apply Forall_cons in Hl as [Hj Hl].
      destruct (forget_slot_run p j c0 Hc0 Hj) as (c1 & E & Hc1 & Hl1 & Hs1 & Hi1 & Hm1).
      erewrite bind_run by exact E. cbv beta.
      destruct (IH c1 Hc1 Hl) as (c2 & E2 & Hc2 & Hl2 & H2). exists c2. split; [done|].
      split; [done|]. split; [by etrans|]. intros k f Hf. rewrite (H2 k f Hf).
      assert (f c1 = clear_ref p j (f c0)) as ->.
      { repeat (apply elem_of_cons in Hf as [->|Hf]; [done|]). by apply not_elem_of_nil in Hf. }
      rewrite clear_ref_lookup. destruct (decide (k = j)) as [->|Hk].
      + destruct (decide (f c0 !! j = Some p)) as [E'|E'].
        * rewrite (bool_decide_eq_true_2 (j = j ∧ _)), (bool_decide_eq_true_2 (j ∈ j :: l ∧ _)) by set_solver.
          by case_bool_decide.
        * rewrite (bool_decide_eq_false_2 (j = j ∧ _)) by naive_solver.
          by rewrite !bool_decide_eq_false_2 by naive_solver.
      + rewrite (bool_decide_eq_false_2 (k = j ∧ _)) by naive_solver.
        by rewrite (bool_decide_ext (k ∈ j :: l ∧ f c0 !! k = Some p) (k ∈ l ∧ f c0 !! k = Some p)) by set_solver. }
  destruct (H all_slots c Hc) as (c' & E & Hc' & Hl & Hf).
  { apply Forall_forall. intros j. apply all_slots_spec. }
  exists c'. split; [done|]. split; [done|]. split; [done|].
  assert (∀ f, f ∈ [slots; importing_slots_from; migrating_slots_to] →
    (∀ j q, f c' !! j = Some q → slot_ok j) → ∀ j, f c' !! j ≠ Some p) as Hno.
  { intros f Hin Hok j Hj. pose proof (Hok j p Hj) as Hs%all_slots_spec. rewrite (Hf j f Hin) in Hj.
    case_bool_decide as Hd; [done|]. naive_solver. }
  intros j. split; [|split]; apply Hno; try by repeat constructor.
  - intros k q Hk. by destruct (ok_slots _ _ _ Hc' k q Hk).
  - intros k q Hk. by destruct (ok_importing _ _ _ Hc' k q Hk).
  - intros k q Hk. by destruct (ok_migrating _ _ _ Hc' k q Hk).
Qed.

(** Resetting [slaveof] of the slaves. *)
Lemma unslave_run l c : Forall (.∈ dom (heap c)) l →
  ∃ h, forM l (λ s, store s (set_slaveof None)) c = Some (tt, set_heap h c) ∧
    ∀ q, h !! q = (λ n, if bool_decide (q ∈ l) then set_slaveof None n else n) <$> heap c !! q.
Proof.
  unfold forM. revert c. induction l as [|s l IH]; intros c Hl; simpl.
  - exists (heap c). split; [by destruct c|]. intros q. by destruct (heap c !! q).
  - apply Forall_cons in Hl as [[n Hn]%elem_of_dom Hl]. erewrite bind_run by by apply store_run. cbv beta.
    destruct (IH (set_heap (<[s := set_slaveof None n]> (heap c)) c)) as (h & E & Hh).
    { simpl. rewrite dom_insert_L. eapply Forall_impl; [done|]. set_solver. }
    exists h. split; [exact E|]. intros q. rewrite Hh. simpl. destruct (decide (q = s)) as [->|Hne].
    + rewrite lookup_insert_eq, Hn, (bool_decide_eq_true_2 (s ∈ s :: l)) by set_solver. simpl.
      by case_bool_decide.
    + rewrite lookup_insert_ne by done. by rewrite (bool_decide_ext (q ∈ s :: l) (q ∈ l)) by set_solver.
Qed.

(** Leaving the list of one's master. *)
Lemma leave_master_run c p np h1 :
  ok D me c → forgettable c p np →
  (∀ q, h1 !! q = (λ n, if bool_decide (nodeIsMaster np = true ∧ q ∈ slaves np)
                        then set_slaveof None n else n) <$> heap c !! q) →
  ∃ h2,
    (match slaveof np with
     | Some m => when (nodeIsSlave np) (clusterNodeRemoveSlave m p;; mret tt)
     | None => mret tt
     end) (set_heap h1 c) = Some (tt, set_heap h2 c) ∧
    (∀ q, is_Some (h2 !! q) ↔ is_Some (h1 !! q)) ∧ h2 !! p = Some np ∧
    ∀ q n', h2 !! q = Some n' → ∃ n1, h1 !! q = Some n1 ∧ slot_bits n' = slot_bits n1 ∧
      numslots n' = numslots n1 ∧ name n' = name n1 ∧ flags n' = flags n1 ∧ slaveof n' = slaveof n1 ∧
      ∀ s, s ∈ slaves n' → s ∈ slaves n1 ∧ s ≠ p.
Proof.
  intros Hc [] Hh1. destruct fg_slaves0 as [Hp Hme].
  assert (h1 !! p = Some np) as Hp1.
  { rewrite Hh1, fg_node0. simpl. by rewrite bool_decide_eq_false_2 by naive_solver. }
  assert (∀ q n1, h1 !! q = Some n1 → ∃ n, heap c !! q = Some n ∧ slaves n1 = slaves n) as Hback.
  { intros q n1. rewrite Hh1. destruct (heap c !! q) as [n|]; [|done]. simpl. intros [= <-].
    exists n. split; [done|]. by case_bool_decide. }
  assert ((∀ q n1, h1 !! q = Some n1 → p ∉ slaves n1) → ∃ h2, Some (tt, set_heap h1 c) = Some (tt, set_heap h2 c) ∧
    (∀ q, is_Some (h2 !! q) ↔ is_Some (h1 !! q)) ∧ h2 !! p = Some np ∧
    ∀ q n', h2 !! q = Some n' → ∃ n1, h1 !! q = Some n1 ∧ slot_bits n' = slot_bits n1 ∧
      numslots n' = numslots n1 ∧ name n' = name n1 ∧ flags n' = flags n1 ∧ slaveof n' = slaveof n1 ∧
      ∀ s, s ∈ slaves n' → s ∈ slaves n1 ∧ s ≠ p) as Hsame.
  { intros Hno. exists h1. split; [done|]. split; [done|]. split; [done|]. intros q n' Hq. exists n'.
    do 6 (split; [done|]). intros s Hs. split; [done|]. intros ->. by eapply Hno. }
  assert (slaveof np = None ∨ nodeIsSlave np = false → ∀ q n1, h1 !! q = Some n1 → p ∉ slaves n1) as Hout.
  { intros Hor q n1 (n & Hn & ->)%Hback Hin. destruct (fg_listed0 q n Hn Hin) as (? & ? & _).
    destruct Hor; congruence. }
  destruct (slaveof np) as [m|] eqn:Hm; [|by apply Hsame, Hout; auto].
  unfold when. destruct (nodeIsSlave np) eqn:Hsl; [|by apply Hsame, Hout; auto].
  assert (m ∈ D) as HmD by (by eapply (ok_node _ _ _ Hc p np)).
  destruct (ok_lookup _ _ c m Hc HmD) as [mn0 Hmn0].
  assert (∃ mn, h1 !! m = Some mn) as [mn Hmn] by (rewrite Hh1, Hmn0; eauto).
  destruct (Hback m mn Hmn) as (mn1 & Hmn1 & Esl). simplify_eq.
  assert (m ≠ p) as Hmp. { intros ->. by destruct (fg_masters0 p np fg_node0 Hm). }
  assert (∀ q n1, h1 !! q = Some n1 → q ≠ m → p ∉ slaves n1) as Hout2.
  { intros q n1 (n & Hn & ->)%Hback Hq Hin. destruct (fg_listed0 q n Hn Hin) as (_ & ? & _). congruence. }
  unfold clusterNodeRemoveSlave. destruct (remove_slave (slaves mn) p) as [l|] eqn:Er.
  - erewrite bind_run; cycle 1.
    { run1. rewrite Er. erewrite bind_run by by apply store_run. reflexivity. }
    assert (p ∉ l ∧ ∀ x, x ∈ l → x ∈ slaves mn) as [Hpl Hl].
    { destruct (decide (p ∈ slaves mn)) as [Hin|Hin].
      - rewrite Esl in Hin. destruct (fg_listed0 m mn0 Hmn0 Hin) as (_ & _ & Hnd).
        rewrite <-Esl in Hnd. by apply remove_slave_spec.
      - exfalso. clear -Er Hin. revert l Er. induction (slaves mn) as [|x l IH]; intros l' Er; [done|].
        simpl in Er. destruct (decide (x = p)); [set_solver|].
        destruct (remove_slave l p) eqn:E; [|done]. eapply IH; [set_solver|done]. }
    exists (<[m := set_slaves l mn]> h1). split; [done|]. split; [|split].
    + intros q. rewrite lookup_insert_is_Some. destruct (decide (m = q)) as [->|]; [|naive_solver].
      rewrite Hmn. naive_solver.
    + by rewrite lookup_insert_ne.
    + intros q n' [[<- <-]|[Hne Hq]]%lookup_insert_Some.
      * exists mn. do 6 (split; [done|]). simpl. intros s Hs. split; [auto|]. by intros ->.
      * exists n'. do 6 (split; [done|]). intros s Hs. split; [done|]. intros ->.
        by eapply Hout2.
  - erewrite bind_run; cycle 1. { run1. rewrite Er. reflexivity. }
    apply Hsame. intros q n1 Hq. destruct (decide (q = m)) as [->|]; [|by eapply Hout2].
    simplify_eq. by apply remove_slave_None.
Qed.

Lemma freeClusterNode_run c p np :
  ok D me c → forgettable c p np → unreferenced c p →
  ∃ c', freeClusterNode p c = Some (tt, c') ∧ ok (D ∖ {[p]}) me c' ∧ slots c' = slots c.
Proof.
  intros Hc Hf Hun. pose proof Hf as []. destruct fg_slaves0 as [Hp Hme].
  unfold freeClusterNode. run1.
  assert (∃ h1, when (nodeIsMaster np) (forM (slaves np) (λ s, store s (set_slaveof None))) c =
    Some (tt, set_heap h1 c) ∧ ∀ q, h1 !! q = (λ n, if bool_decide (nodeIsMaster np = true ∧ q ∈ slaves np)
       then set_slaveof None n else n) <$> heap c !! q) as (h1 & E1 & Hh1).
  { unfold when. destruct (nodeIsMaster np).
    - destruct (unslave_run (slaves np) c) as (h & E & Hh).
      { rewrite (ok_dom _ _ _ Hc). by eapply (ok_node _ _ _ Hc p np). }
      exists h. split; [done|]. intros q. rewrite Hh.
      by rewrite (bool_decide_ext (true = true ∧ q ∈ slaves np) (q ∈ slaves np)) by naive_solver.
    - exists (heap c). split; [by destruct c|]. intros q. rewrite bool_decide_eq_false_2 by naive_solver.
      by destruct (heap c !! q). }
  erewrite bind_run by exact E1. cbv beta.
  destruct (leave_master_run c p np h1 Hc Hf Hh1) as (h2 & E2 & Hdom & Hp2 & Hh2).
  assert (h1 !! p = Some np) as Hp1.
  { rewrite Hh1, fg_node0. simpl. by rewrite bool_decide_eq_false_2 by naive_solver. }
  erewrite bind_run by by apply load_run. cbv beta. erewrite bind_run by exact E2. cbv beta.
  erewrite bind_run by by apply load_run. cbv beta. run1.
  erewrite bind_run; cycle 1. { apply assert_run. simpl. rewrite fg_name0. done. }
  cbv beta. erewrite bind_run by reflexivity. cbv beta. eexists. split; [reflexivity|]. split; [|done].
  eapply (ok_ext _ me (set_heap (delete p h2) (set_nodes (delete (name np) (nodes c)) c))); try done.
  eapply ok_without; try done.
  - rewrite dom_delete_L. apply set_eq. intros q. rewrite !elem_of_difference, <-(ok_dom _ _ _ Hc).
    rewrite !elem_of_dom, Hdom, Hh1, fmap_is_Some. done.
  - intros q n' [Hne Hq]%lookup_delete_Some. split; [done|].
    destruct (Hh2 q n' Hq) as (n1 & Hn1 & F1 & F2 & F3 & F4 & F5 & F6).
    rewrite Hh1 in Hn1. destruct (heap c !! q) as [n|] eqn:Hn; [|done]. simpl in Hn1. injection Hn1 as Hn1.
    exists n. split; [done|]. rewrite F1, F2, F3, F4, F5.
    case_bool_decide as Hb; subst n1; do 4 (split; [done|]).
    + split; [naive_solver|]. split; [done|]. exact F6.
    + split; [auto|]. split; [|exact F6]. intros Hsp. apply Hb. by apply (fg_masters0 q n).
Qed.

(** [clusterDelNode] of a forgettable node leaves a good state without it. *)
Lemma clusterDelNode_run c p np :
  ok D me c → forgettable c p np →
  ∃ c', clusterDelNode now cluster_node_timeout p c = Some (tt, c') ∧ ok (D ∖ {[p]}) me c' ∧
    ∀ j, slots c' !! j ≠ Some p.
Proof.
  intros Hc Hf. unfold clusterDelNode.
  destruct (forget_slots_run p c Hc) as (c1 & E1 & Hc1 & Hl1 & Hun1).
  erewrite bind_run by exact E1. cbv beta. run1.
  match goal with |- ∃ c', (?loop ≫= _) _ = _ ∧ _ => assert (safe_ D me loop) as Hs;
    [|assert (frames same_refs loop) as Hfr] end.
  { apply safe_forM. intros q Hq. apply safe_when. intros _.
    assert (q ∈ D) by (by eapply ok_dict_vals). safe. }
  { apply frames_forM; [apply _|]. intros q. apply frames_when; [apply _|].
    apply frames_bind; [apply _|apply frame_DelReport_refs|intros; apply frames_ret, _]. }
  destruct (Hs c1 Hc1) as ([] & c2 & E2 & Hc2 & _). pose proof (Hfr c1 _ c2 E2) as (Hl2 & R1 & R2 & R3).
  erewrite bind_run by exact E2. cbv beta.
  destruct (forgettable_links c c2 p np) as [np' Hf2]; [by etrans|done|].
  assert (unreferenced c2 p) as Hun2 by (intros j; rewrite R1, R2, R3; apply Hun1).
  destruct (freeClusterNode_run c2 p np' Hc2 Hf2 Hun2) as (c3 & E3 & Hc3 & Hs3).
  exists c3. split; [done|]. split; [done|]. intros j. rewrite Hs3. by destruct (Hun2 j).
Qed.
End forget.

(** ** Meeting and renaming nodes *)

Section table.
Context (D : gset ptr) (me : ptr).

Lemma nbits_zero b : (∀ j, slot_ok j → tbit b j = false) → nbits b = 0.
Proof. apply nbits_0. Qed.

Lemma tbit_zeros j : tbit zero_slots j = false.
Proof.
  unfold tbit, zero_slots. destruct (replicate 2048 0 !! Z.to_nat (j / 8)) as [x|] eqn:E; [|apply Z.bits_0].
  apply lookup_replicate in E as [-> _]. apply Z.bits_0.
Qed.

Lemma zero_slots_ok : bitmap_ok zero_slots.
Proof. split; [done|]. by apply Forall_replicate. Qed.
#[local] Opaque zero_slots.

Lemma ok_new_node c nm fl :
  ok D me c →
  let p := base.fresh (dom (heap c)) in
  let n := mk_node nm fl 0 zero_slots 0 [] None 0 0 0 false [] in
  ok ({[p]} ∪ D) me (set_heap (<[p := n]> (heap c)) c).
Proof.
  intros Hc p n. assert (p ∉ D) as Hp by (rewrite <-(ok_dom _ _ _ Hc); apply is_fresh).
  destruct Hc. split; simpl; auto.
  - by rewrite dom_insert_L, ok_dom.
  - set_solver.
  - intros q n' [[<- <-]|[_ Hq]]%lookup_insert_Some.
    + split; simpl; [apply zero_slots_ok|symmetry; apply nbits_zero; intros; apply tbit_zeros|done|constructor].
    + destruct (ok_node q n' Hq). split; auto; [set_solver|].
      eapply Forall_impl; [done|]. set_solver.
  - intros q n' j [[<- <-]|[_ Hq]]%lookup_insert_Some Hj; [|by apply ok_owner].
    simpl. rewrite tbit_zeros. split; [done|]. intros Hs. by destruct (ok_slots j p Hs).
  - intros j q Hj. destruct (ok_slots j q Hj). split; [done|set_solver].
  - intros j q Hj. destruct (ok_importing j q Hj). split; [done|set_solver].
  - intros j q Hj. destruct (ok_migrating j q Hj). split; [done|set_solver].
  - intros nm' q Hd. destruct (ok_dict nm' q Hd) as (n' & Hn' & ?). exists n'. split; [|done].
    rewrite lookup_insert_ne; [done|]. intros <-. apply elem_of_dom_2 in Hn'. rewrite ok_dom in Hn'. done.
  - intros n' [[<- <-]|[_ Hq]]%lookup_insert_Some; [done|auto].
Qed.

Lemma ok_dict_insert D' c nm p n :
  ok D' me c → heap c !! p = Some n → name n = nm → ok D' me (set_nodes (<[nm := p]> (nodes c)) c).
Proof.
  intros [] Hn Hnm. split; auto. intros nm' q. simpl. intros [[<- <-]|[_ ?]]%lookup_insert_Some; eauto.
Qed.

Lemma ok_dict_delete c nm : ok D me c → ok D me (set_nodes (delete nm (nodes c)) c).
Proof. intros []. split; auto. intros nm' q. simpl. intros [_ ?]%lookup_delete_Some. eauto. Qed.

Lemma clusterAddNode_run D' c p : ok D' me c → p ∈ D' →
  ∃ r c', clusterAddNode p c = Some (r, c') ∧ ok D' me c'.
Proof.
  intros Hc Hp. destruct (ok_lookup _ _ c p Hc Hp) as [n Hn]. unfold clusterAddNode. run1. run1.
  destruct (nodes c !! name n); [by do 2 eexists|]. do 2 eexists. split; [reflexivity|].
  by apply (ok_dict_insert D' c (name n) p n).
Qed.

Lemma packet_meet_run c random : ok D me c →
  ∃ c', packet_meet random c = Some (tt, c') ∧ ok ({[base.fresh (dom (heap c))]} ∪ D) me c'.
Proof.
  intros Hc. unfold packet_meet, createClusterNode.
  erewrite bind_run; cycle 1. { run1. erewrite bind_run by reflexivity. reflexivity. }
  destruct (clusterAddNode_run _ _ (base.fresh (dom (heap c))) (ok_new_node c random REDIS_NODE_HANDSHAKE Hc))
    as (r & c2 & E & Hc2); [set_solver|].
  erewrite bind_run by exact E. eexists. split; [reflexivity|]. by apply (ok_ext _ me c2).
Qed.

Lemma clusterRenameNode_run c p n newname :
  ok D me c → heap c !! p = Some n → nodes c !! name n = Some p →
  ∃ c', clusterRenameNode p newname c = Some (tt, c') ∧ ok D me c'.
Proof.
  intros Hc Hn Hd. unfold clusterRenameNode. run1. run1.
  erewrite bind_run; cycle 1. { apply assert_run. by rewrite Hd. }
  cbv beta. erewrite bind_run by reflexivity. cbv beta. erewrite bind_run by by apply store_run. cbv beta.
  set (c1 := set_heap _ _).
  assert (ok D me c1) as Hc1.
  { pose proof (ok_dict_delete c (name n) Hc) as Hc2. destruct Hc2. split; simpl in *; auto.
    - rewrite dom_insert_L. rewrite ok_dom. apply elem_of_dom_2 in Hn. set_solver.
    - intros q n' [[<- <-]|[_ Hq]]%lookup_insert_Some; [|by eapply ok_node].
      destruct (ok_node p n Hn). by split.
    - intros q n' j [[<- <-]|[_ Hq]]%lookup_insert_Some Hj; [by apply (ok_owner p n)|by apply ok_owner].
    - intros nm q Hnm. pose proof Hnm as [Hne Hnq]%lookup_delete_Some.
      destruct (ok_dict nm q Hnm) as (n' & Hn' & Hname). exists n'. split; [|done].
      rewrite lookup_insert_ne; [done|]. intros <-. congruence.
    - intros n' [[<- <-]|[_ Hq]]%lookup_insert_Some; [exact (ok_role n Hn)|auto]. }
  destruct (clusterAddNode_run D c1 p Hc1) as (r & c2 & E & Hc2).
  { by apply (ok_lookup_in D me c p n). }
  erewrite bind_run by exact E. by exists c2.
Qed.

Lemma benign_flags_other p fl : p ≠ me → benign D me p (add_flag fl).
Proof. intros H n. split; try done; auto. Qed.

Lemma packet_handshake_run c p n sender_name fl :
  ok D me c → p ≠ me → heap c !! p = Some n → nodes c !! name n = Some p →
  ∃ c', packet_handshake p sender_name fl c = Some (tt, c') ∧ ok D me c'.
Proof.
  intros Hc Hne Hn Hd. destruct (clusterRenameNode_run c p n sender_name Hc Hn Hd) as (c1 & E & Hc1).
  unfold packet_handshake. erewrite bind_run by exact E. cbv beta.
  pose proof (ok_lookup_in D me c p n Hc Hn).
  match goal with |- ∃ c', ?m _ = _ ∧ _ => assert (safe_ D me m) as Hs end.
  { safe_step. safe_step; [|safe]. by apply safe_store, benign_flags_other. }
  destruct (Hs c1 Hc1) as ([] & c2 & ? & ? & _). eauto.
Qed.
End table.

(** ** The operations of a node as a step relation *)

(** The surroundings of one handler: the clock, the configuration, the keys per
    slot, whether clients are paused. *)
Record env := mk_env {
  e_now : Z; e_timeout : Z; e_full_coverage : bool; e_keys : Z → Z; e_paused : bool }.

Inductive op :=
  | OAddSlot (j : Z)                                   (* CLUSTER ADDSLOTS *)
  | ODelSlot (j : Z)                                   (* CLUSTER DELSLOTS *)
  | OMeet (random : bytes)                             (* MEET from an unknown node *)
  | OHandshake (p : ptr) (sender_name : bytes) (fl : Z)
  | OForget (p : ptr)                                  (* CLUSTER FORGET *)
  | OPing (sender : ptr) (linknode : option ptr) (is_pong : bool) (h : packet_header)
      (gossip : list (bytes * Z))
  | OFail (sender : ptr) (h : packet_header) (failing : bytes)
  | OAuthRequest (sender : ptr) (h : packet_header)
  | OAuthAck (sender : ptr) (h : packet_header)
  | OMFStart (sender : ptr) (h : packet_header)
  | OUpdate (sender : ptr) (h : packet_header) (nodename : bytes) (epoch : Z) (bitmap : bytes)
  | OBump | OFailover | OUpdateState | OVerify (dbs : list Z).

Definition request_of (h : packet_header) : auth_request :=
  mk_auth_request (hdr_currentEpoch h) (hdr_configEpoch h) (hdr_myslots h) (hdr_mflags0 h).

Definition run_op (e : env) (o : op) : M unit :=
  match o with
  | OAddSlot j => c ← get; clusterAddSlot (myself c) j;; mret tt
  | ODelSlot j => clusterDelSlot j;; mret tt
  | OMeet random => packet_meet random
  | OHandshake p nm fl => packet_handshake p nm fl
  | OForget p => clusterDelNode (e_now e) (e_timeout e) p
  | OPing s ln pong h gossip =>
      packet_ping (e_now e) (e_timeout e) (e_keys e) (e_paused e) s ln pong h gossip
  | OFail s h nm => packet_epochs s h;; packet_fail (e_now e) nm
  | OAuthRequest s h =>
      packet_epochs s h;; clusterSendFailoverAuthIfNeeded (e_now e) (e_timeout e) s (request_of h)
  | OAuthAck s h => packet_epochs s h;; packet_auth_ack s (hdr_currentEpoch h)
  | OMFStart s h => packet_epochs s h;; packet_mfstart (e_now e) (e_paused e) s
  | OUpdate s h nm ep b => packet_epochs s h;; packet_update (e_keys e) (e_paused e) nm ep b
  | OBump => clusterBumpConfigEpochWithoutConsensus;; mret tt
  | OFailover =>
      clusterFailoverReplaceYourMaster (e_now e) (e_timeout e) (e_full_coverage e) (e_paused e)
  | OUpdateState => clusterUpdateState (e_now e) (e_timeout e) (e_full_coverage e)
  | OVerify dbs => verifyClusterConfigWithData (e_keys e) dbs;; mret tt
  end.

(** When an operation is called: pointers are to allocated nodes, bitmaps have
    their size, slots are in range, a master adds slots, the sender of a packet
    that may change its role is another node, a node that is forgotten is not
    [myself] nor its master. *)
Definition op_pre (c : cluster) (o : op) : Prop :=
  match o with
  | OAddSlot j => slot_ok j ∧ ∀ n, heap c !! myself c = Some n → nodeIsMaster n = true
  | ODelSlot j => slot_ok j
  | OMeet _ | OBump | OFailover | OUpdateState | OVerify _ => True
  | OHandshake p _ _ => p ≠ myself c ∧ ∃ n, heap c !! p = Some n ∧ nodes c !! name n = Some p
  | OForget p => ∃ np, forgettable c p np
  | OPing s ln _ h _ => s ∈ dom (heap c) ∧ s ≠ myself c ∧ (∀ p, ln = Some p → p ∈ dom (heap c)) ∧
      bitmap_ok (hdr_myslots h)
  | OFail s _ _ | OAuthAck s _ | OMFStart s _ => s ∈ dom (heap c)
  | OAuthRequest s h => s ∈ dom (heap c) ∧ bitmap_ok (hdr_myslots h)
  | OUpdate s _ _ _ b => s ∈ dom (heap c) ∧ bitmap_ok b
  end.

(** [clusterInit] on a node without a configuration file. *)
Definition clusterInit (nm : bytes) : cluster :=
  mk_cluster {[ 1%positive :=
      mk_node nm (Z.lor REDIS_NODE_MYSELF REDIS_NODE_MASTER) 0 zero_slots 0 [] None 0 0 0 false [] ]}
    {[ nm := 1%positive ]} 1%positive 0 REDIS_CLUSTER_FAIL 1 ∅ ∅ ∅ 0 0 0 None 0 0 0 0 0 0
    [clusterSaveConfigOrDie 1].

Lemma ok_init nm : ok {[1%positive]} 1%positive (clusterInit nm).
Proof.
  split; simpl; try done.
  - intros p n [<- <-]%lookup_singleton_Some. split; simpl; [apply zero_slots_ok| |done|constructor].
    symmetry. apply nbits_zero. intros. apply tbit_zeros.
  - intros p n j [<- <-]%lookup_singleton_Some _. simpl. by rewrite tbit_zeros, lookup_empty.
  - intros nm' p [<- <-]%lookup_singleton_Some. eexists. by rewrite lookup_singleton_eq.
  - intros n. rewrite lookup_singleton_eq. intros [= <-]. done.
Qed.

Inductive reachable (nm : bytes) : cluster → Prop :=
  | reach_init : reachable nm (clusterInit nm)
  | reach_step c e o c' :
      reachable nm c → op_pre c o → run_op e o c = Some (tt, c') → reachable nm c'.

Section runs.
Context (D : gset ptr) (me : ptr).

Lemma safe_unit_run (m : M unit) c : safe_ D me m → ok D me c → ∃ c' D', m c = Some (tt, c') ∧ ok D' me c'.
Proof. intros Hm Hc. destruct (Hm c Hc) as ([] & c' & ? & ? & _). eauto. Qed.

Lemma run_op_ok c e o : ok D me c → op_pre c o → ∃ c' D', run_op e o c = Some (tt, c') ∧ ok D' me c'.
Proof.
  intros Hc. pose proof (ok_dom _ _ _ Hc) as HD. pose proof (ok_me _ _ _ Hc) as Hme.
  destruct o; simpl; rewrite ?Hme, ?HD.
  - intros [Hj Hm]. run1. rewrite Hme. destruct (slots c !! j) as [q|] eqn:Hs.
    + exists c, D. split; [|done]. unfold clusterAddSlot. unfold mbind at 1, M_bind at 1.
      erewrite bind_run by reflexivity. run1. by rewrite Hs.
    + destruct (clusterAddSlot_run D me c me j) as (c' & E & ? & _); auto. { by eapply ok_me_in. }
      erewrite bind_run by exact E. eauto.
  - intros Hj. destruct (clusterDelSlot_run D me c j Hc Hj) as (c' & E & ? & _).
    erewrite bind_run by exact E. eauto.
  - intros _. destruct (packet_meet_run D me c random Hc) as (c' & ? & ?). eauto.
  - intros (Hne & n & Hn & Hd).
    destruct (packet_handshake_run D me c p n sender_name fl Hc Hne Hn Hd) as (c' & ? & ?). eauto.
  - intros (np & Hf). destruct (clusterDelNode_run D me (e_now e) (e_timeout e) c p np Hc Hf) as (c' & ? & ? & _).
    eauto.
  - intros (? & ? & ? & ?). apply safe_unit_run; [|done]. by apply safe_packet_ping.
  - intros ?. apply safe_unit_run; [|done]. safe_step. apply safe_packet_fail.
  - intros [? ?]. apply safe_unit_run; [|done]. safe_step. by apply safe_SendFailoverAuthIfNeeded.
  - intros ?. apply safe_unit_run; [|done]. safe_step. by apply safe_packet_auth_ack.
  - intros ?. apply safe_unit_run; [|done]. safe_step. by apply safe_packet_mfstart.
  - intros [? ?]. apply safe_unit_run; [|done]. safe_step. by apply safe_packet_update.
  - intros _. apply safe_unit_run; [|done]. safe.
  - intros _. apply safe_unit_run; [|done]. apply safe_FailoverReplace.
  - intros _. apply safe_unit_run; [|done]. apply safe_UpdateState.
  - intros _. apply safe_unit_run; [|done].
    eapply safe_bind; [apply safe_verify|intros; by apply safe_ret].
Qed.
End runs.

Lemma reachable_ok nm c : reachable nm c → ∃ D, ok D 1%positive c.
Proof.
  induction 1 as [|c e o c' _ [D Hc] Hpre Hrun]; [eexists; apply ok_init|].
  destruct (run_op_ok D 1%positive c e o Hc Hpre) as (c1 & D' & E & Hc1).
  rewrite Hrun in E. injection E as <-. eauto.
Qed.


(** ** Votes *)

(** The epochs of the votes sent, in order. *)
Definition vote_of (e : event) : option Z :=
  match e with SendFailoverAuthAck _ ep => Some ep | _ => None end.
Definition votes (c : cluster) : list Z := omap vote_of (events c).

(** No vote: neither a message nor the epoch of the last vote. *)
Definition no_vote (c c' : cluster) : Prop := lastVoteEpoch c' = lastVoteEpoch c ∧ votes c' = votes c.

#[export] Instance no_vote_preorder : PreOrder no_vote.
Proof. unfold no_vote. split; [done|]. intros ? ? ?. naive_solver congruence. Qed.

Lemma no_vote_upd f : (∀ c, lastVoteEpoch (f c) = lastVoteEpoch c ∧ events (f c) = events c) →
  frames no_vote (upd f).
Proof. intros H. apply frames_upd; [apply _|]. intros c. destruct (H c) as [E1 E2]. unfold no_vote, votes. by rewrite E1, E2. Qed.

Lemma no_vote_store p f : frames no_vote (store p f).
Proof. by apply frames_store; [apply _|]. Qed.

Lemma no_vote_emit e : vote_of e = None → frames no_vote (emit e).
Proof.
  intros He. apply frames_upd; [apply _|]. intros c. split; [done|]. unfold votes. simpl.
  rewrite omap_app. simpl. by rewrite He, app_nil_r.
Qed.

Ltac nv_step :=
  match goal with
  | |- frames no_vote (upd _) => apply no_vote_upd; intros ?; try (case_match); done
  | |- frames no_vote (store _ _) => apply no_vote_store
  | |- frames no_vote (emit _) => apply no_vote_emit; done
  | |- frames no_vote (when _ _) => apply frames_when; [apply _|]
  | _ => frame_step
  end.
Ltac nv := intros; repeat (first [solve [eauto with frames]|nv_step]; cbv zeta).

Lemma nv_before_sleep fl : frames no_vote (clusterDoBeforeSleep fl).
Proof. unfold clusterDoBeforeSleep. nv. Qed.
Lemma nv_lookup nm : frames no_vote (clusterLookupNode nm).
Proof. unfold clusterLookupNode. nv. Qed.
Lemma nv_DelSlot j : frames no_vote (clusterDelSlot j).
Proof. unfold clusterDelSlot, clusterNodeClearSlotBit. nv. Qed.
Lemma nv_AddSlot p j : frames no_vote (clusterAddSlot p j).
Proof. unfold clusterAddSlot, clusterNodeSetSlotBit. nv. Qed.
Lemma nv_GetSlotBit p j : frames no_vote (clusterNodeGetSlotBit p j).
Proof. unfold clusterNodeGetSlotBit. nv. Qed.
Lemma nv_RemoveSlave p q : frames no_vote (clusterNodeRemoveSlave p q).
Proof. unfold clusterNodeRemoveSlave. nv. Qed.
Lemma nv_AddSlave p q : frames no_vote (clusterNodeAddSlave p q).
Proof. unfold clusterNodeAddSlave. nv. Qed.
Lemma nv_AddNode p : frames no_vote (clusterAddNode p).
Proof. unfold clusterAddNode. nv. Qed.
Lemma nv_DelReport now t p q : frames no_vote (clusterNodeDelFailureReport now t p q).
Proof. unfold clusterNodeDelFailureReport, clusterNodeCleanupFailureReports. nv. Qed.
Lemma nv_AddReport now p q : frames no_vote (clusterNodeAddFailureReport now p q).
Proof. unfold clusterNodeAddFailureReport. nv. Qed.
#[export] Hint Resolve nv_before_sleep nv_lookup nv_DelSlot nv_AddSlot nv_GetSlotBit nv_RemoveSlave nv_AddSlave
  nv_AddNode nv_DelReport nv_AddReport : frames.

Lemma nv_free p : frames no_vote (freeClusterNode p).
Proof. unfold freeClusterNode. nv. Qed.
Lemma nv_take_next : frames no_vote take_next_epoch.
Proof. unfold take_next_epoch. nv. Qed.
Lemma nv_reset paused : frames no_vote (resetManualFailover paused).
Proof. unfold resetManualFailover. nv. Qed.
Lemma nv_SetNodeAsMaster p : frames no_vote (clusterSetNodeAsMaster p).
Proof. unfold clusterSetNodeAsMaster. nv. Qed.
Lemma nv_clearFailure now t p : frames no_vote (clearNodeFailureIfNeeded now t p).
Proof. unfold clearNodeFailureIfNeeded. nv. Qed.
Lemma nv_markFailing now t p : frames no_vote (markNodeAsFailingIfNeeded now t p).
Proof.
  unfold markNodeAsFailingIfNeeded, clusterNodeFailureReportsCount, clusterNodeCleanupFailureReports. nv.
Qed.
#[export] Hint Resolve nv_free nv_take_next nv_reset nv_SetNodeAsMaster nv_clearFailure nv_markFailing : frames.

Lemma nv_collision s : frames no_vote (clusterHandleConfigEpochCollision s).
Proof. unfold clusterHandleConfigEpochCollision. nv. Qed.
Lemma nv_SetMaster paused p : frames no_vote (clusterSetMaster paused p).
Proof. unfold clusterSetMaster, clusterCloseAllSlots. nv. Qed.
Lemma nv_update_slot keys s e b cm acc j : frames no_vote (update_slot keys s e b cm acc j).
Proof. unfold update_slot. nv. Qed.
#[export] Hint Resolve nv_collision nv_SetMaster nv_update_slot : frames.
Lemma nv_UpdateSlots keys paused s e b : frames no_vote (clusterUpdateSlotsConfigWith keys paused s e b).
Proof. unfold clusterUpdateSlotsConfigWith, load_opt. nv. Qed.
Lemma nv_UpdateState now t cov : frames no_vote (clusterUpdateState now t cov).
Proof. unfold clusterUpdateState, slot_uncovered, count_masters. nv. Qed.
Lemma nv_epochs s h : frames no_vote (packet_epochs s h).
Proof. unfold packet_epochs. nv. Qed.
#[export] Hint Resolve nv_UpdateSlots nv_UpdateState nv_epochs : frames.

(** Only a request for authorisation makes a node vote. *)
Lemma no_vote_run_op e o : (∀ s h, o ≠ OAuthRequest s h) → frames no_vote (run_op e o).
Proof.
  intros Ho. destruct o; simpl.
  all: try by exfalso; eapply Ho.
  all: unfold packet_meet, packet_handshake, createClusterNode, clusterRenameNode, clusterDelNode, packet_ping, packet_pong,
    packet_role_switch, clusterDelNodeSlots, clusterNodeResetSlaves, packet_slots, stale_claim,
    gossip_report, packet_fail, packet_auth_ack, packet_mfstart, packet_update,
    clusterBumpConfigEpochWithoutConsensus, clusterGetMaxEpoch, clusterFailoverReplaceYourMaster,
    verifyClusterConfigWithData, verify_slot; nv.
Qed.

Section votes.
Context (D : gset ptr) (me : ptr) (now cluster_node_timeout : Z).

(** Slot [j] of the request is owned under an epoch greater than the request's. *)
Definition outdated_at (c : cluster) (req : auth_request) (j : Z) : bool :=
  tbit (req_myslots req) j &&
  match slots c !! j with
  | Some o => match heap c !! o with
              | Some n => negb (configEpoch n <=? req_configEpoch req) | None => false end
  | None => false
  end.

Definition outdated (c : cluster) (req : auth_request) : bool :=
  existsb (outdated_at c req) all_slots.

(** The conditions to vote for the slave [n], whose master is [mn]; [m] is the
    node of [myself]. *)
Definition grants (c : cluster) (m n mn : clusterNode) (req : auth_request) : bool :=
  negb (nodeIsSlave m) && negb (numslots m =? 0) &&
  (currentEpoch c <=? req_currentEpoch req) && negb (lastVoteEpoch c =? currentEpoch c) &&
  negb (nodeIsMaster n) &&
  (nodeFailed mn || negb (Z.land (req_mflags0 req) CLUSTERMSG_FLAG0_FORCEACK =? 0)) &&
  (cluster_node_timeout * 2 <=? now - voted_time mn) && negb (outdated c req).

Lemma newer_owner_at c req j : ok D me c → bitmap_ok (req_myslots req) → slot_ok j →
  newer_owner (req_myslots req) (req_configEpoch req) j c = Some (outdated_at c req j, c).
Proof.
  intros Hc Hb Hj. unfold newer_owner, outdated_at.
  erewrite bind_run by (unfold lift; rewrite (bitmapTestBit_ok _ _ Hb Hj); reflexivity).
  destruct (tbit (req_myslots req) j); [|reflexivity]. simpl. run1. run1.
  destruct (slots c !! j) as [o|] eqn:Ho; [|reflexivity].
  destruct (ok_slots _ _ _ Hc j o Ho) as [_ HoD]. destruct (ok_lookup _ _ c o Hc HoD) as [n Hn].
  rewrite Hn. by run1.
Qed.

Lemma newer_owner_run c req : ok D me c → bitmap_ok (req_myslots req) →
  existsM (newer_owner (req_myslots req) (req_configEpoch req)) all_slots c = Some (outdated c req, c).
Proof.
  intros Hc Hb. unfold outdated.
  assert (Forall slot_ok all_slots) as Hall by (apply Forall_forall; intros j; apply all_slots_spec).
  induction Hall as [|j l Hj Hall IH]; [done|]. simpl.
  erewrite bind_run by by apply newer_owner_at. cbv beta. destruct (outdated_at c req j); [done|]. apply IH.
Qed.

(** The vote itself. *)
Lemma vote_run c p mp n mn :
  heap c !! p = Some n → heap c !! mp = Some mn →
  ∃ c', (clusterSendFailoverAuth p ;; upd (λ c, set_lastVoteEpoch (currentEpoch c) c) ;;
         store mp (set_voted_time now)) c = Some (tt, c') ∧
    events c' = events c ++ (if link n then [SendFailoverAuthAck p (currentEpoch c)] else []) ∧
    lastVoteEpoch c' = currentEpoch c ∧ currentEpoch c' = currentEpoch c ∧
    heap c' = <[mp := set_voted_time now mn]> (heap c).
Proof.
  intros Hn Hmn.
  set (c1 := if link n then set_events (events c ++ [SendFailoverAuthAck p (currentEpoch c)]) c else c).
  erewrite (bind_run _ _ c tt c1); cycle 1.
  { unfold clusterSendFailoverAuth, c1. run1. by destruct (link n). }
  cbv beta. erewrite bind_run by reflexivity. cbv beta.
  assert (heap c1 = heap c) as Hh by (unfold c1; by destruct (link n)).
  erewrite store_run by (simpl; by rewrite Hh). eexists. split; [reflexivity|].
  simpl. rewrite Hh. unfold c1. destruct (link n); simpl; by rewrite ?app_nil_r.
Qed.

Lemma clusterSendFailoverAuthIfNeeded_run c p req n m :
  ok D me c → bitmap_ok (req_myslots req) → heap c !! p = Some n → heap c !! me = Some m →
  match slaveof n with
  | Some mp => ∃ mn, heap c !! mp = Some mn ∧
      ∃ c', clusterSendFailoverAuthIfNeeded now cluster_node_timeout p req c = Some (tt, c') ∧
        if grants c m n mn req
        then events c' = events c ++ (if link n then [SendFailoverAuthAck p (currentEpoch c)] else []) ∧
             lastVoteEpoch c' = currentEpoch c ∧ currentEpoch c' = currentEpoch c ∧
             heap c' = <[mp := set_voted_time now mn]> (heap c)
        else c' = c
  | None => clusterSendFailoverAuthIfNeeded now cluster_node_timeout p req c = Some (tt, c)
  end.
Proof.
  intros Hc Hb Hn Hm. unfold clusterSendFailoverAuthIfNeeded. run1. run1. rewrite (ok_me _ _ _ Hc). run1.
  destruct (slaveof n) as [mp|] eqn:Hs.
  - assert (mp ∈ D) as Hmp by (by eapply (ok_node _ _ _ Hc p n)).
    destruct (ok_lookup _ _ c mp Hc Hmp) as [mn Hmn]. exists mn. split; [done|]. unfold grants.
    assert (∀ a b : Z, (a <=? b) = negb (b <? a)) as Hle by (intros; lia). rewrite !Hle.
    destruct (nodeIsSlave m); cbn [negb andb orb]; [by eauto|].
    destruct (numslots m =? 0); cbn [negb andb orb]; [by eauto|].
    destruct (req_currentEpoch req <? currentEpoch c); cbn [negb andb]; [by eauto|].
    destruct (lastVoteEpoch c =? currentEpoch c); cbn [negb andb]; [by eauto|].
    destruct (nodeIsMaster n); cbn [negb andb]; [by eauto|]. run1.
    destruct (nodeFailed mn), (Z.land _ _ =? 0); cbn [negb andb orb]; try by eauto.
    all: destruct (now - voted_time mn <? cluster_node_timeout * 2); cbn [negb andb]; [by eauto|].
    all: erewrite bind_run by (by apply newer_owner_run); cbv beta;
      destruct (outdated c req); cbn [negb]; [by eauto|].
    all: by apply vote_run.
  - destruct (nodeIsSlave m || _); [done|]. destruct (_ <? _); [done|].
    destruct (_ =? _); [done|]. destruct (nodeIsMaster n); done.
Qed.
End votes.

(** *** At most one vote per epoch *)

(** A run in which the 64-bit counter [currentEpoch] does not wrap around. *)
Inductive run_nowrap (nm : bytes) : cluster → Prop :=
  | run_init : run_nowrap nm (clusterInit nm)
  | run_step c e o c' :
      run_nowrap nm c → op_pre c o → run_op e o c = Some (tt, c') → currentEpoch c ≤ currentEpoch c' →
      run_nowrap nm c'.

Lemma run_nowrap_reachable nm c : run_nowrap nm c → reachable nm c.
Proof. induction 1; [constructor|]. by eapply reach_step. Qed.

Record votes_ok (c : cluster) : Prop := {
  vo_sorted : StronglySorted Z.lt (votes c);
  vo_last : Forall (λ e, e ≤ lastVoteEpoch c) (votes c);
  vo_current : lastVoteEpoch c ≤ currentEpoch c;
}.

Lemma votes_ok_no_vote c c' :
  votes_ok c → no_vote c c' → currentEpoch c ≤ currentEpoch c' → votes_ok c'.
Proof. intros [] [E1 E2] H. split; rewrite ?E1, ?E2; auto. lia. Qed.

Lemma packet_epochs_mono s h : frames (λ c c', currentEpoch c ≤ currentEpoch c') (packet_epochs s h).
Proof.
  assert (PreOrder (λ c c', currentEpoch c ≤ currentEpoch c')) by (split; [intros ?; lia|intros ? ? ?; lia]).
  unfold packet_epochs, clusterDoBeforeSleep. frame; simpl; try lia.
  destruct (hdr_currentEpoch h >? currentEpoch _) eqn:?; simpl; lia.
Qed.

Lemma StronglySorted_snoc (l : list Z) x :
  StronglySorted Z.lt l → Forall (λ y, y < x) l → StronglySorted Z.lt (l ++ [x]).
Proof. intros. apply StronglySorted_insert; [by rewrite app_nil_r|done|constructor]. Qed.

Lemma votes_ok_auth D me c e s h c' :
  ok D me c → s ∈ D → bitmap_ok (hdr_myslots h) → votes_ok c →
  run_op e (OAuthRequest s h) c = Some (tt, c') → votes_ok c'.
Proof.
  intros Hc Hs Hb Hv Hrun. simpl in Hrun.
  destruct (safe_packet_epochs D me s h Hs c Hc) as ([] & c1 & E & Hc1 & _).
  erewrite bind_run in Hrun by exact E.
  assert (votes_ok c1) as Hv1.
  { eapply votes_ok_no_vote; [done|by eapply nv_epochs|by eapply packet_epochs_mono]. }
  destruct (ok_lookup _ _ c1 s Hc1 Hs) as [n Hn].
  destruct (ok_lookup _ _ c1 me Hc1 (ok_me_in _ _ _ Hc1)) as [m Hm].
  pose proof (clusterSendFailoverAuthIfNeeded_run D me (e_now e) (e_timeout e) c1 s (request_of h) n m
    Hc1 Hb Hn Hm) as Hr.
  destruct (slaveof n) as [mp|]; cycle 1. { rewrite Hrun in Hr. by injection Hr as ->. }
  destruct Hr as (mn & _ & c2 & E2 & H2). rewrite Hrun in E2. injection E2 as <-.
  destruct (grants _ _ _ _ _ _ _) eqn:Hg; [|by subst].
  destruct H2 as (Hev & Hlast & Hcur & _). destruct Hv1.
  assert (lastVoteEpoch c1 < currentEpoch c1) as Hlt.
  { unfold grants in Hg. repeat (apply andb_true_iff in Hg as [Hg ?]). lia. }
  assert (votes c' = votes c1 ++ if link n then [currentEpoch c1] else []) as Hvt.
  { unfold votes. rewrite Hev, omap_app. by destruct (link n). }
  assert (Forall (λ y, y < currentEpoch c1) (votes c1)) as Hall
    by (eapply Forall_impl; [done|]; simpl; lia).
  split; rewrite ?Hvt, ?Hlast, ?Hcur; [..|lia].
  - destruct (link n); [by apply StronglySorted_snoc|by rewrite app_nil_r].
  - apply Forall_app. split; [eapply Forall_impl; [done|]; simpl; lia|].
    destruct (link n); repeat constructor. lia.
Qed.

Lemma run_votes_ok nm c : run_nowrap nm c → votes_ok c.
Proof.
  induction 1 as [|c e o c' Hr IH Hpre Hrun Hcur]; [by repeat constructor|].
  destruct (reachable_ok nm c (run_nowrap_reachable nm c Hr)) as [D Hc].
  assert ((∃ s h, o = OAuthRequest s h) ∨ ∀ s h, o ≠ OAuthRequest s h) as [(s & h & ->)|Ho]
    by (destruct o; eauto).
  - destruct Hpre as [Hs Hb]. rewrite (ok_dom _ _ _ Hc) in Hs. by eapply votes_ok_auth.
  - eapply votes_ok_no_vote; [done| |done]. by eapply no_vote_run_op.
Qed.


(** A vote is granted exactly when [myself] is not a slave and serves slots,
    the request is not about an old epoch, no vote was given in the current epoch,
    the sender is a slave of a known master that is failing (or the request forces
    the vote), no slave of that master was voted in the last two node timeouts,
    and no claimed slot is owned under an epoch greater than the claim's.  The
    vote records the epoch and the time, and is sent over the link of the sender
    if it has one; otherwise nothing changes. *)
Theorem failover_auth_correct D me now timeout c p req n m :
  ok D me c → bitmap_ok (req_myslots req) → heap c !! p = Some n → heap c !! me = Some m →
  match slaveof n with
  | Some mp => ∃ mn c', heap c !! mp = Some mn ∧
      clusterSendFailoverAuthIfNeeded now timeout p req c = Some (tt, c') ∧
      if grants now timeout c m n mn req
      then votes c' = votes c ++ (if link n then [currentEpoch c] else []) ∧
           lastVoteEpoch c' = currentEpoch c ∧ heap c' = <[mp := set_voted_time now mn]> (heap c)
      else c' = c
  | None => clusterSendFailoverAuthIfNeeded now timeout p req c = Some (tt, c)
  end.
Proof.
  intros Hc Hb Hn Hm.
  pose proof (clusterSendFailoverAuthIfNeeded_run D me now timeout c p req n m Hc Hb Hn Hm) as H.
  destruct (slaveof n) as [mp|]; [|done]. destruct H as (mn & Hmn & c' & Hrun & H).
  exists mn, c'. split; [done|]. split; [done|]. destruct (grants _ _ _ _ _ _ _); [|done].
  destruct H as (Hev & ? & _ & ?). split; [|done]. unfold votes. rewrite Hev, omap_app. by destruct (link n).
Qed.

(** ** Configuration epochs *)

Section epochs.
Context (D : gset ptr) (me : ptr).

Definition epoch_of (c : cluster) (p : ptr) : Z :=
  match heap c !! p with Some n => configEpoch n | None => 0 end.

Definition max_epoch (c : cluster) : Z :=
  foldl (λ a p, Z.max a (epoch_of c p)) 0 (dict_vals (nodes c)).

Lemma clusterGetMaxEpoch_run c : ok D me c →
  clusterGetMaxEpoch c = Some (Z.max (max_epoch c) (currentEpoch c), c).
Proof.
  intros Hc. unfold clusterGetMaxEpoch. run1.
  assert (∀ l a, Forall (.∈ D) l →
    foldM (λ max p, n ← load p; mret (if configEpoch n >? max then configEpoch n else max)) l a c =
    Some (foldl (λ a p, Z.max a (epoch_of c p)) a l, c)) as H.
  { induction l as [|p l IH]; intros a Hl; [done|]. apply Forall_cons in Hl as [Hp Hl]. simpl.
    destruct (ok_lookup _ _ c p Hc Hp) as [n Hn].
    erewrite bind_run; cycle 1. { run1. reflexivity. }
    cbv beta. rewrite IH by done. do 3 f_equal. unfold epoch_of. rewrite Hn.
    destruct (configEpoch n >? a) eqn:?; lia. }
  erewrite bind_run; cycle 1. { apply H. apply Forall_forall. intros. by eapply ok_dict_vals. }
  cbv beta. unfold max_epoch. destruct (_ <? _) eqn:E; unfold mret, M_ret; do 2 f_equal; lia.
Qed.

Lemma foldl_max_ge (f : ptr → Z) l a : a ≤ foldl (λ a p, Z.max a (f p)) a l ∧
  ∀ p, p ∈ l → f p ≤ foldl (λ a p, Z.max a (f p)) a l.
Proof.
  revert a. induction l as [|x l IH]; intros a; simpl; [split; [lia|set_solver]|].
  destruct (IH (Z.max a (f x))) as [H1 H2]. split; [lia|].
  intros p [->|Hp]%elem_of_cons; [lia|auto].
Qed.

Lemma foldl_max_le (f : ptr → Z) l a b : a ≤ b → (∀ p, p ∈ l → f p ≤ b) → foldl (λ a p, Z.max a (f p)) a l ≤ b.
Proof.
  revert a. induction l as [|x l IH]; intros a Ha H; simpl; [done|].
  apply IH; [|set_solver]. pose proof (H x (list_elem_of_here _ _)). lia.
Qed.

Lemma dict_vals_spec c p : p ∈ dict_vals (nodes c) ↔ ∃ nm, nodes c !! nm = Some p.
Proof.
  unfold dict_vals. rewrite list_elem_of_fmap. split.
  - intros ([nm q] & -> & H%elem_of_map_to_list). eauto.
  - intros [nm H]. exists (nm, p). split; [done|]. by apply elem_of_map_to_list.
Qed.

Lemma take_next_epoch_run c n : ok D me c → heap c !! me = Some n →
  ∃ c', take_next_epoch c = Some (tt, c') ∧
    heap c' = <[me := set_configEpoch (next_epoch (currentEpoch c)) n]> (heap c) ∧ nodes c' = nodes c ∧
    currentEpoch c' = next_epoch (currentEpoch c) ∧ myself c' = me.
Proof.
  intros Hc Hn. pose proof (ok_me _ _ _ Hc) as Hme. unfold take_next_epoch. erewrite bind_run by reflexivity.
  cbv beta. run1. simpl. rewrite Hme. erewrite store_run by done. eexists. split; [reflexivity|]. done.
Qed.
End epochs.

(** [clusterBumpConfigEpochWithoutConsensus], when no known node has an epoch
    above [currentEpoch] and the counter does not wrap around: if [myself] has no
    epoch or not the greatest one it moves to [currentEpoch + 1], which is then
    greater than the epoch of every other node; otherwise nothing changes. *)
Theorem bump_epoch_correct D me c m :
  ok D me c → heap c !! me = Some m → (∀ nm p, nodes c !! nm = Some p → epoch_of c p ≤ currentEpoch c) →
  0 ≤ currentEpoch c → currentEpoch c + 1 < 2 ^ 64 →
  ∃ r c', clusterBumpConfigEpochWithoutConsensus c = Some (r, c') ∧
    r = (configEpoch m =? 0) || negb (configEpoch m =? currentEpoch c) ∧
    if r : bool
    then currentEpoch c' = currentEpoch c + 1 ∧ epoch_of c' me = currentEpoch c' ∧
         ∀ nm p, nodes c' !! nm = Some p → p ≠ me → epoch_of c' p < epoch_of c' me
    else c' = c.
Proof.
  intros Hc Hm Hle H0 H64.
  assert (Z.max (max_epoch c) (currentEpoch c) = currentEpoch c) as Hmax.
  { apply Z.max_r. apply foldl_max_le; [done|]. intros p [nm Hnm]%dict_vals_spec. eauto. }
  unfold clusterBumpConfigEpochWithoutConsensus.
  erewrite bind_run by (by eapply clusterGetMaxEpoch_run). cbv beta. rewrite Hmax. run1.
  rewrite (ok_me _ _ _ Hc). run1. destruct (_ || _); [|by do 2 eexists].
  destruct (take_next_epoch_run D me c m Hc Hm) as (c1 & E & Hh & Hn & Hcur & Hmy).
  erewrite bind_run by exact E. cbv beta. do 2 eexists. split; [reflexivity|]. split; [done|].
  assert (next_epoch (currentEpoch c) = currentEpoch c + 1) as Hne by (apply wrap_small; rlia).
  split; [simpl; congruence|]. split; [unfold epoch_of; simpl; rewrite Hh, lookup_insert_eq; simpl; congruence|].
  intros nm p. simpl. rewrite Hn. intros Hnm Hp.
  assert (epoch_of c p < currentEpoch c + 1) by (pose proof (Hle nm p Hnm); lia).
  unfold epoch_of. simpl. rewrite Hh, lookup_insert_ne, lookup_insert_eq by done. simpl. rewrite Hne.
  exact H.
Qed.

Lemma collision_run D me c p m n :
  ok D me c → heap c !! me = Some m → heap c !! p = Some n →
  ∃ c', clusterHandleConfigEpochCollision p c = Some (tt, c') ∧
    if (configEpoch n =? configEpoch m) && nodeIsMaster n && nodeIsMaster m && negb (memcmp_le (name n) (name m))
    then epoch_of c' me = next_epoch (currentEpoch c) ∧ currentEpoch c' = next_epoch (currentEpoch c) ∧
         events c' = events c ++ [clusterSaveConfigOrDie 1] ∧
         ∀ q, q ≠ me → heap c' !! q = heap c !! q
    else c' = c.
Proof.
  intros Hc Hm Hn. unfold clusterHandleConfigEpochCollision. run1. run1. rewrite (ok_me _ _ _ Hc). run1.
  destruct (configEpoch n =? configEpoch m), (nodeIsMaster n), (nodeIsMaster m); cbn [negb andb orb]; try by eauto.
  destruct (memcmp_le (name n) (name m)); cbn [negb]; [by eauto|].
  assert (∃ c1, take_next_epoch c = Some (tt, c1) ∧ events c1 = events c ∧
    heap c1 = <[me := set_configEpoch (next_epoch (currentEpoch c)) m]> (heap c) ∧
    currentEpoch c1 = next_epoch (currentEpoch c)) as (c1 & E & Hev & Hh & Hcur).
  { unfold take_next_epoch. erewrite bind_run by reflexivity. cbv beta. run1. simpl.
    rewrite (ok_me _ _ _ Hc). erewrite store_run by done. eexists. split; [reflexivity|]. done. }
  erewrite bind_run by exact E. cbv beta. eexists. split; [reflexivity|]. simpl.
  split; [unfold epoch_of; simpl; by rewrite Hh, lookup_insert_eq|]. split; [done|]. split; [by rewrite Hev|].
  intros q Hq. rewrite Hh. by rewrite lookup_insert_ne.
Qed.

(** When a master sees another master with its own epoch, the one with the
    smaller name moves to [currentEpoch + 1] and saves its configuration, and the
    other one does nothing: of two colliding nodes exactly one moves. *)
Theorem epoch_collision_correct D me c p m n :
  ok D me c → heap c !! me = Some m → heap c !! p = Some n →
  ∃ c', clusterHandleConfigEpochCollision p c = Some (tt, c') ∧
    if (configEpoch n =? configEpoch m) && nodeIsMaster n && nodeIsMaster m && negb (memcmp_le (name n) (name m))
    then epoch_of c' me = next_epoch (currentEpoch c) ∧ currentEpoch c' = next_epoch (currentEpoch c) ∧
         events c' = events c ++ [clusterSaveConfigOrDie 1] ∧
         ∀ q, q ≠ me → heap c' !! q = heap c !! q
    else c' = c.
Proof. apply collision_run. Qed.

(** ** Failure detection *)

(** The failure reports that are not too old. *)
Definition recent (now timeout : Z) (n : clusterNode) : list (ptr * Z) :=
  filter (λ r : ptr * Z, ¬ (now - r.2 > timeout * REDIS_CLUSTER_FAIL_REPORT_VALIDITY_MULT)) (fail_reports n).

(** A node is flagged FAIL exactly when this node flags it PFAIL but not yet
    FAIL, and the recent reports of other masters, with this node's own opinion
    when it is a master, are a majority of the masters that serve slots.  Only a
    master broadcasts it. *)
Theorem markNodeAsFailing_correct D me now timeout c p n m :
  ok D me c → heap c !! p = Some n → heap c !! me = Some m →
  ∃ c' n', markNodeAsFailingIfNeeded now timeout p c = Some (tt, c') ∧ heap c' !! p = Some n' ∧
    let voters := zlen (recent now timeout n) + (if nodeIsMaster m then 1 else 0) in
    if nodeTimedOut n && negb (nodeFailed n) && (Z.quot (size_ c) 2 + 1 <=? voters)
    then nodeFailed n' = true ∧ nodeTimedOut n' = false ∧ fail_time n' = now ∧
         events c' = events c ++ (if nodeIsMaster m then [clusterSendFail (name n)] else [])
    else flags n' = flags n ∧ events c' = events c.
Proof.
  intros Hc Hn Hm. unfold markNodeAsFailingIfNeeded. run1. run1.
  destruct (nodeTimedOut n) eqn:Ht; cbn [negb andb]; [|by eauto 10].
  destruct (nodeFailed n) eqn:Hf; cbn [negb andb]; [by eauto 10|].
  set (c1 := set_heap (<[p := set_fail_reports (recent now timeout n) n]> (heap c)) c).
  assert (∃ m1, heap c1 !! me = Some m1 ∧ flags m1 = flags m) as (m1 & Hm1 & Hfl).
  { unfold c1. simpl. destruct (decide (p = me)) as [->|].
    - rewrite lookup_insert_eq. eexists. split; [done|]. simpl. congruence.
    - rewrite lookup_insert_ne by done. eauto. }
  assert (nodeIsMaster m1 = nodeIsMaster m) as Hmst by (unfold nodeIsMaster, has_flag; by rewrite Hfl).
  assert (heap c1 !! p = Some (set_fail_reports (recent now timeout n) n)) as Hp1
    by (unfold c1; simpl; by rewrite lookup_insert_eq).
  erewrite (bind_run _ _ c (zlen (recent now timeout n)) c1); cycle 1.
  { unfold clusterNodeFailureReportsCount, clusterNodeCleanupFailureReports.
    erewrite bind_run by by apply store_run. cbv beta. erewrite bind_run by by apply load_run. done. }
  cbv beta. rewrite (ok_me _ _ _ Hc). erewrite bind_run by by apply load_run. cbv beta zeta. rewrite Hmst.
  set (voters := if nodeIsMaster m then _ + 1 else _).
  assert (voters = zlen (recent now timeout n) + (if nodeIsMaster m then 1 else 0)) as Hvot
    by (unfold voters; destruct (nodeIsMaster m); lia).
  rewrite <-Hvot, Z.leb_antisym. destruct (voters <? _); cbn [negb]; [by eauto 10|].
  rewrite !store_store. erewrite bind_run by by apply store_run. cbv beta.
  set (f := λ n, set_fail_time now (add_flag REDIS_NODE_FAIL (clear_flag REDIS_NODE_PFAIL n))).
  set (c2 := set_heap _ c1).
  set (n1 := set_fail_reports (recent now timeout n) n) in *.
  assert (heap c2 !! p = Some (f n1)) as Hp2 by (unfold c2; simpl; by rewrite lookup_insert_eq).
  assert (∃ m2, heap c2 !! me = Some m2 ∧ nodeIsMaster m2 = nodeIsMaster m) as (m2 & Hm2 & Hmst2).
  { unfold c2. simpl. destruct (decide (p = me)) as [->|].
    - rewrite lookup_insert_eq. eexists. split; [done|]. rewrite <-Hmst.
      assert (m1 = n1) as -> by congruence. unfold f, nodeIsMaster, has_flag, REDIS_NODE_MASTER. simpl.
      by rewrite land_add_other, land_clear_other.
    - rewrite lookup_insert_ne by done. eauto. }
  erewrite bind_run by by apply load_run. cbv beta. erewrite bind_run by by apply load_run. cbv beta.
  rewrite Hmst2.
  assert (nodeFailed (f n1) = true ∧ nodeTimedOut (f n1) = false) as [Hff Htf].
  { unfold f, nodeFailed, nodeTimedOut. change (has_flag (set_fail_time now ?x) ?y) with (has_flag x y).
    split.
    - change REDIS_NODE_FAIL with (2 ^ 3) at 2. rewrite flag_after_add by lia. apply orb_true_r.
    - change REDIS_NODE_PFAIL with (2 ^ 2) at 2. rewrite flag_after_add, flag_after_clear by lia.
      simpl. by rewrite andb_false_r. }
  unfold when. destruct (nodeIsMaster m); erewrite bind_run by reflexivity; cbv beta; do 2 eexists;
    (split; [reflexivity|]); (split; [exact Hp2|]); rewrite Hff, Htf; simpl; by rewrite ?app_nil_r.
Qed.

(** ** The state of the cluster *)

Section state.
Context (D : gset ptr) (me : ptr).

Definition node_at (c : cluster) (p : ptr) (test : clusterNode → bool) : bool :=
  match heap c !! p with Some n => test n | None => false end.

(** A master that serves slots; one that is reachable. *)
Definition serves (n : clusterNode) : bool := nodeIsMaster n && negb (numslots n =? 0).
Definition reachable_master (n : clusterNode) : bool :=
  serves n && (Z.land (flags n) (Z.lor REDIS_NODE_FAIL REDIS_NODE_PFAIL) =? 0).

Definition count_nodes (c : cluster) (test : clusterNode → bool) : Z :=
  zlen (filter (λ p, node_at c p test = true) (dict_vals (nodes c))).

Definition uncovered_at (c : cluster) (j : Z) : bool :=
  match slots c !! j with
  | None => true
  | Some o => node_at c o (λ n, has_flag n REDIS_NODE_FAIL)
  end.

Lemma slot_uncovered_run c : ok D me c →
  existsM slot_uncovered all_slots c = Some (existsb (uncovered_at c) all_slots, c).
Proof.
  intros Hc. assert (Forall slot_ok all_slots) as Hall by (apply Forall_forall; intros j; apply all_slots_spec).
  induction Hall as [|j l Hj Hall IH]; [done|]. simpl. erewrite bind_run; cycle 1.
  { instantiate (1 := c). instantiate (1 := uncovered_at c j). unfold slot_uncovered, uncovered_at, node_at.
    run1. run1. destruct (slots c !! j) as [o|] eqn:Ho; [|done].
    destruct (ok_slots _ _ _ Hc j o Ho) as [_ HoD]. destruct (ok_lookup _ _ c o Hc HoD) as [n Hn].
    rewrite Hn. by run1. }
  cbv beta. destruct (uncovered_at c j); [done|]. apply IH.
Qed.

Lemma count_masters_run c : ok D me c →
  foldM count_masters (dict_vals (nodes c)) (0, 0) c =
  Some ((count_nodes c serves, count_nodes c reachable_master), c).
Proof.
  intros Hc. unfold count_nodes.
  assert (∀ l a b, Forall (.∈ D) l → foldM count_masters l (a, b) c =
    Some ((a + zlen (filter (λ p, node_at c p serves = true) l),
           b + zlen (filter (λ p, node_at c p reachable_master = true) l)), c)) as H.
  { induction l as [|p l IH]; intros a b Hl; [simpl; by rewrite !Z.add_0_r|].
    apply Forall_cons in Hl as [Hp Hl]. destruct (ok_lookup _ _ c p Hc Hp) as [n Hn]. simpl.
    erewrite bind_run; cycle 1. { unfold count_masters. run1. reflexivity. }
    cbv beta. rewrite !filter_cons.
    assert (∀ f, node_at c p f = f n) as Hat by (intros; unfold node_at; by rewrite Hn). rewrite !Hat.
    assert (reachable_master n = serves n && (Z.land (flags n) (Z.lor REDIS_NODE_FAIL REDIS_NODE_PFAIL) =? 0))
      as -> by done.
    assert (serves n = nodeIsMaster n && negb (numslots n =? 0)) as -> by done.
    destruct (nodeIsMaster n), (numslots n =? 0), (Z.land _ _ =? 0); cbn [andb negb];
      rewrite IH by done; simpl; do 3 f_equal; lia. }
  rewrite H; [done|]. apply Forall_forall. intros. by eapply ok_dict_vals.
Qed.
End state.

(** [clusterUpdateState] sets [size] to the number of masters that serve slots,
    and the state to FAIL exactly when a slot is unassigned or served by a failing
    node (if full coverage is required), or the reachable ones of these masters
    are not a majority; a master waits before it leaves the FAIL state, after a
    restart and after it was in a minority. *)
Theorem clusterUpdateState_correct D me now timeout full_coverage c m :
  ok D me c → heap c !! me = Some m →
  let first := if first_call_time c =? 0 then now else first_call_time c in
  let bad := full_coverage && existsb (uncovered_at c) all_slots in
  let minority := count_nodes c reachable_master <? Z.quot (count_nodes c serves) 2 + 1 in
  let new_state := if minority || bad then REDIS_CLUSTER_FAIL else REDIS_CLUSTER_OK in
  let rejoin_delay := Z.max (Z.min timeout 5000) 500 in
  ∃ c', clusterUpdateState now timeout full_coverage c = Some (tt, c') ∧
    if nodeIsMaster m && (state c =? REDIS_CLUSTER_FAIL) && (now - first <? 2000)
    then state c' = state c ∧ size_ c' = size_ c
    else size_ c' = count_nodes c serves ∧
         among_minority_time c' = (if minority then now else among_minority_time c) ∧
         state c' = if (new_state =? REDIS_CLUSTER_OK) && negb (state c =? REDIS_CLUSTER_OK) &&
                       nodeIsMaster m && (now - among_minority_time c <? rejoin_delay)
                    then state c else new_state.
Proof.
  intros Hc Hm. cbv zeta. unfold clusterUpdateState.
  erewrite bind_run by reflexivity. cbv beta. erewrite bind_run by reflexivity. cbv beta.
  set (first := if first_call_time c =? 0 then now else first_call_time c).
  match goal with |- context [(get ≫= _) ?x] => set (c1 := x) end.
  assert (heap c1 = heap c ∧ nodes c1 = nodes c ∧ slots c1 = slots c ∧ state c1 = state c ∧ size_ c1 = size_ c ∧
    first_call_time c1 = first ∧ among_minority_time c1 = among_minority_time c) as (E1 & E2 & E3 & E4 & E5 & E6 & E7).
  { unfold c1, first. simpl. by destruct (first_call_time c =? 0). }
  assert (ok D me c1) as Hc1.
  { apply (ok_ext D me c); try done; unfold c1; simpl; by destruct (first_call_time c =? 0). }
  assert (∀ f, count_nodes c1 f = count_nodes c f) as Ecn
    by (intros f; unfold count_nodes, node_at; by rewrite E1, E2).
  assert (existsb (uncovered_at c1) all_slots = existsb (uncovered_at c) all_slots) as Eun.
  { unfold uncovered_at, node_at. by rewrite E1, E3. }
  clearbody c1. run1. rewrite (ok_me _ _ _ Hc1). erewrite bind_run by (apply load_run; by rewrite E1). cbv beta.
  rewrite E4, E6. unfold REDIS_CLUSTER_WRITABLE_DELAY. destruct (_ && _ && (now - first <? 2000)).
  { eexists. split; [reflexivity|]. by rewrite E4, E5. }
  erewrite (bind_run _ _ c1 (full_coverage && existsb (uncovered_at c) all_slots) c1); cycle 1.
  { destruct full_coverage; [|done]. rewrite <-Eun. by eapply slot_uncovered_run. }
  cbv beta zeta. erewrite bind_run by (by eapply count_masters_run). cbv beta iota.
  erewrite bind_run by reflexivity. cbv beta. rewrite !Ecn.
  set (minority := count_nodes c reachable_master <? _).
  set (bad := full_coverage && _).
  set (c2 := if minority then set_among_minority_time now (set_size_ (count_nodes c serves) c1)
             else set_size_ (count_nodes c serves) c1).
  erewrite (bind_run _ _ _ tt c2) by (unfold c2, when; by destruct minority). cbv beta.
  assert (state c2 = state c ∧ size_ c2 = count_nodes c serves ∧
    among_minority_time c2 = if minority then now else among_minority_time c) as (F1 & F2 & F3).
  { unfold c2. rewrite <-E4, <-E7. by destruct minority. }
  clearbody c2. run1. rewrite F1, F3. unfold REDIS_CLUSTER_MAX_REJOIN_DELAY, REDIS_CLUSTER_MIN_REJOIN_DELAY.
  destruct minority, bad; unfold REDIS_CLUSTER_OK, REDIS_CLUSTER_FAIL in *;
    cbn [orb andb]; change (0 =? 0) with true; change (1 =? 0) with false; cbn [orb andb].
  4: rewrite (Z.eqb_sym 0 (state c)); destruct (state c =? 0) eqn:Hst; cbn [negb andb];
    [|destruct (nodeIsMaster m && _)]; eexists; (split; [reflexivity|]); simpl; rewrite ?F1, ?F2, ?F3;
    repeat split; lia.
  all: destruct (_ =? state c) eqn:Hst; eexists; (split; [reflexivity|]); simpl; rewrite ?F1, ?F2, ?F3;
    repeat split; lia.
Qed.

(** ** Where the code and its comments disagree *)

Section defects.
Context (D : gset ptr) (me : ptr).

(** One step of [clusterDelNodeSlots]. *)
Lemma del_node_slot_run p j c deleted : ok D me c → p ∈ D → slot_ok j →
  ∃ c', (bit ← clusterNodeGetSlotBit p j; when bit (clusterDelSlot j;; mret tt);; mret (deleted + 1)) c =
    Some (deleted + 1, c') ∧ ok D me c' ∧ slots c' = clear_ref p j (slots c).
Proof.
  intros Hc Hp Hj. destruct (ok_lookup _ _ c p Hc Hp) as [n Hn].
  destruct (ok_node _ _ _ Hc p n Hn) as [Hbm _ _ _].
  erewrite bind_run; cycle 1.
  { unfold clusterNodeGetSlotBit. run1. unfold lift. by rewrite (bitmapTestBit_ok _ _ Hbm Hj). }
  cbv beta. pose proof (ok_owner _ _ _ Hc p n j Hn Hj) as Hown. unfold clear_ref, when.
  destruct (tbit (slot_bits n) j).
  - rewrite (bool_decide_eq_true_2 (slots c !! j = Some p)) by by apply Hown.
    destruct (clusterDelSlot_run D me c j Hc Hj) as (c1 & E & Hc1 & Hs & _).
    erewrite bind_run; cycle 1. { erewrite bind_run by exact E. reflexivity. }
    eexists. split; [reflexivity|]. done.
  - rewrite (bool_decide_eq_false_2 (slots c !! j = Some p)) by naive_solver.
    eexists. split; [reflexivity|]. done.
Qed.

(** [clusterDelNodeSlots] takes away exactly the slots of the node, but it
    returns the number of all slots, 16384, and not, as its comment says, the
    number of deleted ones. *)
Theorem clusterDelNodeSlots_correct c p :
  ok D me c → p ∈ D →
  ∃ c', clusterDelNodeSlots p c = Some (16384, c') ∧ ok D me c' ∧
    ∀ j, slots c' !! j = if bool_decide (slots c !! j = Some p) then None else slots c !! j.
Proof.
  intros Hc Hp. unfold clusterDelNodeSlots.
  assert (∀ l d c, ok D me c → Forall slot_ok l → NoDup l →
    ∃ c', foldM (λ deleted j, bit ← clusterNodeGetSlotBit p j; when bit (clusterDelSlot j;; mret tt);;
                   mret (deleted + 1)) l d c = Some (d + zlen l, c') ∧ ok D me c' ∧
      ∀ j, slots c' !! j = if bool_decide (j ∈ l ∧ slots c !! j = Some p) then None else slots c !! j) as H.
  { induction l as [|j l IH]; intros d c0 Hc0 Hl Hnd.
    - exists c0. simpl. rewrite Z.add_0_r. split; [done|]. split; [done|]. done.
    - apply Forall_cons in Hl as [Hj Hl]. apply NoDup_cons in Hnd as [Hnj Hnd].
      destruct (del_node_slot_run p j c0 d Hc0 Hp Hj) as (c1 & E & Hc1 & Hs1).
      cbn [foldM]. erewrite bind_run by exact E. cbv beta.
      destruct (IH (d + 1) c1 Hc1 Hl Hnd) as (c2 & E2 & Hc2 & Hs2). exists c2.
      split; [rewrite E2; do 2 f_equal; simpl; lia|]. split; [done|]. intros k.
      rewrite Hs2, Hs1, clear_ref_lookup. destruct (decide (k = j)) as [->|Hk].
      + rewrite (bool_decide_eq_false_2 (j ∈ l ∧ _)) by naive_solver.
        rewrite (bool_decide_ext (j = j ∧ slots c0 !! j = Some p) (j ∈ j :: l ∧ slots c0 !! j = Some p))
          by set_solver. done.
      + rewrite (bool_decide_eq_false_2 (k = j ∧ _)) by naive_solver.
        by rewrite (bool_decide_ext (k ∈ j :: l ∧ slots c0 !! k = Some p) (k ∈ l ∧ slots c0 !! k = Some p))
          by set_solver. }
  destruct (H all_slots 0 c Hc) as (c' & E & Hc' & Hs).
  { apply Forall_forall. intros j. apply all_slots_spec. }
  { apply all_slots_NoDup. }
  exists c'. split; [rewrite E, length_all_slots; done|]. split; [done|].
  intros j. rewrite Hs. destruct (decide (slots c !! j = Some p)) as [Hj|Hj].
  - destruct (ok_slots _ _ _ Hc j p Hj) as [Hok%all_slots_spec _].
    by rewrite !bool_decide_eq_true_2 by done.
  - rewrite (bool_decide_eq_false_2 (j ∈ all_slots ∧ _)) by naive_solver. by rewrite bool_decide_eq_false_2.
Qed.

(** *** A master that became a slave and is forgotten *)

(** The role of the node at [q]. *)
Definition keeps_role (q : ptr) (c c' : cluster) : Prop :=
  (λ n, (flags n, slaveof n)) <$> heap c' !! q = (λ n, (flags n, slaveof n)) <$> heap c !! q.

#[local] Instance keeps_role_preorder q : PreOrder (keeps_role q).
Proof. unfold keeps_role. split; [done|]. intros ? ? ?. congruence. Qed.

Lemma keeps_role_store q p f : (p ≠ q ∨ ∀ n, flags (f n) = flags n ∧ slaveof (f n) = slaveof n) →
  frames (keeps_role q) (store p f).
Proof.
  intros H. apply frames_store; [apply _|]. intros c n Hn. unfold keeps_role. simpl.
  destruct (decide (p = q)) as [->|]; [|by rewrite lookup_insert_ne].
  destruct H as [?|H]; [done|]. rewrite lookup_insert_eq, Hn. simpl. by destruct (H n) as [-> ->].
Qed.

Lemma keeps_role_lookup q c c' nq : keeps_role q c c' → heap c !! q = Some nq →
  ∃ nq', heap c' !! q = Some nq' ∧ flags nq' = flags nq ∧ slaveof nq' = slaveof nq.
Proof.
  unfold keeps_role. intros H Hq. rewrite Hq in H. destruct (heap c' !! q) as [n'|]; simpl in H; [|done].
  injection H as ? ?. eauto.
Qed.

Lemma keeps_role_role_switch p q h : p ≠ q → frames (keeps_role q) (packet_role_switch p h).
Proof.
  intros Hpq. unfold packet_role_switch, clusterSetNodeAsMaster, clusterDelNodeSlots, clusterNodeResetSlaves,
    clusterLookupNode, clusterNodeGetSlotBit, clusterDelSlot, clusterNodeClearSlotBit,
    clusterNodeRemoveSlave, clusterNodeAddSlave, clusterDoBeforeSleep.
  repeat (first [apply keeps_role_store; by auto | frame_step]; cbv zeta); done.
Qed.

(** Freeing a node that is not a master leaves its slaves pointing to it. *)
Lemma free_slave_run c p np q nq :
  ok D me c → heap c !! p = Some np → nodes c !! name np = Some p → nodeIsMaster np = false →
  q ≠ p → heap c !! q = Some nq →
  ∃ c' nq', freeClusterNode p c = Some (tt, c') ∧ heap c' !! p = None ∧ heap c' !! q = Some nq' ∧
    flags nq' = flags nq ∧ slaveof nq' = slaveof nq.
Proof.
  intros Hc Hp Hnm Hm Hqp Hq. unfold freeClusterNode. run1. rewrite Hm.
  erewrite (bind_run _ _ c tt c) by done. cbv beta. run1.
  set (leave := match slaveof np with Some m => _ | None => _ end).
  assert (safe_ D me leave ∧ frames (keeps_role q) leave ∧ frames same_links (upd id)) as (Hs & Hf & _).
  { split; [|split; [|by apply frames_upd; [apply _|]]].
    - pose proof (ok_node _ _ _ Hc p np Hp). unfold leave. safe.
    - unfold leave, clusterNodeRemoveSlave.
      repeat (first [apply keeps_role_store; by auto | frame_step]; cbv zeta). }
  assert (frames (λ c c', (name <$> heap c' !! p = name <$> heap c !! p) ∧ nodes c' = nodes c) leave) as Hf2.
  { assert (PreOrder (λ c c' : cluster, (name <$> heap c' !! p = name <$> heap c !! p) ∧ nodes c' = nodes c))
      by (split; [done|intros ? ? ? [] []; split; congruence]).
    unfold leave, clusterNodeRemoveSlave. frame. split; [|done]. simpl.
    match goal with |- _ <$> <[?m := ?x]> _ !! _ = _ => destruct (decide (m = p)) as [->|] end;
      [|by rewrite lookup_insert_ne].
    rewrite lookup_insert_eq. match goal with E : heap ?a !! p = Some _ |- _ = _ <$> heap ?a !! p => rewrite E end. done. }
  destruct (Hs c Hc) as ([] & c1 & E & Hc1 & _). pose proof (Hf c tt c1 E) as Hk.
  destruct (Hf2 c tt c1 E) as [Hname Hnodes]. erewrite bind_run by exact E. cbv beta.
  destruct (ok_lookup D me c1 p Hc1) as [n1 Hn1]. { by eapply (ok_lookup_in D me c). }
  rewrite Hn1, Hp in Hname. simpl in Hname. injection Hname as Hname.
  run1. run1. erewrite bind_run; cycle 1. { apply assert_run. rewrite Hname, Hnodes, Hnm. done. }
  cbv beta. erewrite bind_run by reflexivity. cbv beta.
  destruct (keeps_role_lookup q c c1 nq Hk Hq) as (nq' & Hq1 & ? & ?).
  do 2 eexists. split; [reflexivity|]. simpl. rewrite lookup_delete_eq, lookup_delete_ne by done. done.
Qed.

Lemma keeps_flags_store c p q f n : heap c !! q = Some n → flags (f n) = flags n →
  flags <$> <[q := f n]> (heap c) !! p = flags <$> heap c !! p.
Proof.
  intros Hn Hf. destruct (decide (q = p)) as [->|]; [|by rewrite lookup_insert_ne].
  by rewrite lookup_insert_eq, Hn; simpl; rewrite Hf.
Qed.

(** The sender of a packet that names its master is not a master any more. *)
Lemma role_switch_demotes c p h nm :
  ok D me c → p ∈ D → p ≠ me → hdr_slaveof h = Some nm →
  ∃ c' np, packet_role_switch p h c = Some (tt, c') ∧ ok D me c' ∧ heap c' !! p = Some np ∧
    nodeIsMaster np = false.
Proof.
  intros Hc Hp Hne Hh. destruct (safe_packet_role_switch D me p h Hp Hne c Hc) as ([] & c' & E & Hc' & _).
  destruct (ok_lookup _ _ c' p Hc' Hp) as [np Hnp]. exists c', np. do 3 (split; [done|]).
  destruct (ok_lookup _ _ c p Hc Hp) as [n Hn].
  unfold packet_role_switch in E. rewrite Hh in E.
  assert (clusterLookupNode nm c = Some (nodes c !! nm, c)) as El by done.
  erewrite bind_run in E by exact El. erewrite bind_run in E by by apply load_run.
  match type of E with (when _ ?blk ≫= ?k) c = _ => set (block := blk) in E; set (rest := k) in E end.
  assert (∀ u, frames (λ c c', flags <$> heap c' !! p = flags <$> heap c !! p) (rest u)) as Hrest.
  { intros u. assert (PreOrder (λ c c' : cluster, flags <$> heap c' !! p = flags <$> heap c !! p)) by
      (split; [done|intros ? ? ? ? ?; congruence]).
    unfold rest, clusterNodeRemoveSlave, clusterNodeAddSlave, clusterDoBeforeSleep.
    frame; try done; simpl; by apply keeps_flags_store. }
  assert (∃ c1 n1, when (nodeIsMaster n) block c = Some (tt, c1) ∧ heap c1 !! p = Some n1 ∧
    nodeIsMaster n1 = false) as (c1 & n1 & E1 & Hn1 & Hm1).
  { destruct (nodeIsMaster n) eqn:Hm; [|by exists c, n]. unfold when, block.
    destruct (safe_DelNodeSlots D me p Hp c Hc) as (d & c1 & E1 & Hc1 & _). erewrite bind_run by exact E1.
    cbv beta. rewrite store_store. destruct (ok_lookup _ _ c1 p Hc1 Hp) as [n1 Hn1].
    erewrite bind_run by by apply store_run. cbv beta.
    set (c2 := set_heap _ c1). change (add_flag REDIS_NODE_SLAVE (clear_flag REDIS_NODE_MASTER n1))
      with (become_slave n1) in c2.
    assert (heap c2 !! p = Some (become_slave n1)) as H2 by (simpl; by rewrite lookup_insert_eq).
    erewrite bind_run by by apply load_run. cbv beta. destruct (roles_become_slave n1) as [R _].
    unfold clusterNodeResetSlaves. destruct (negb _); simpl when.
    - erewrite bind_run by by apply store_run. do 2 eexists. split; [reflexivity|].
      simpl. rewrite lookup_insert_eq. split; [done|]. exact R.
    - erewrite bind_run by reflexivity. do 2 eexists. split; [reflexivity|]. split; [exact H2|]. exact R. }
  erewrite bind_run in E by exact E1. pose proof (Hrest tt c1 tt c' E) as Hf. cbv beta in Hf.
  rewrite Hn1, Hnp in Hf. simpl in Hf. injection Hf as Hf. rewrite <-Hm1. unfold nodeIsMaster, has_flag.
  by rewrite Hf.
Qed.

(** C5: A dangling pointer: when a master [p] announces that it became a slave its
    list of slaves is cleared while its slave [q] still points to it; if [p] is then
    forgotten it is freed and [q] keeps the pointer, which the next packet of [q]
    that names another master dereferences. *)
Theorem forgotten_master_dangles c p q nm h nq :
  ok D me c → p ∈ D → p ≠ me → q ≠ p → hdr_slaveof h = Some nm →
  heap c !! q = Some nq → slaveof nq = Some p → nodeIsMaster nq = false →
  ∃ c1 np, packet_role_switch p h c = Some (tt, c1) ∧ heap c1 !! p = Some np ∧
    (nodes c1 !! name np = Some p → ∀ now timeout,
      ∃ c2 nq2, clusterDelNode now timeout p c1 = Some (tt, c2) ∧ heap c2 !! p = None ∧
        heap c2 !! q = Some nq2 ∧ slaveof nq2 = Some p ∧
        ∀ h' nm' m, hdr_slaveof h' = Some nm' → nodes c2 !! nm' = Some m → m ≠ p →
          packet_role_switch q h' c2 = None).
Proof.
  intros Hc Hp Hpme Hqp Hh Hq Hqs Hqm.
  destruct (role_switch_demotes c p h nm Hc Hp Hpme Hh) as (c1 & np & E & Hc1 & Hnp & Hm).
  exists c1, np. split; [done|]. split; [done|]. intros Hd now timeout.
  destruct (keeps_role_lookup q c c1 nq) as (nq1 & Hq1 & Hf1 & Hs1); [by eapply keeps_role_role_switch|done|].
  unfold clusterDelNode.
  destruct (forget_slots_run D me p c1 Hc1) as (c2 & E2 & Hc2 & Hl2 & Hun2).
  erewrite bind_run by exact E2. cbv beta. run1.
  match goal with |- ∃ c' n', (?loop ≫= _) _ = _ ∧ _ => assert (safe_ D me loop) as Hs;
    [|assert (frames same_refs loop) as Hfr] end.
  { apply safe_forM. intros r Hr. apply safe_when. intros _.
    assert (r ∈ D) by (by eapply ok_dict_vals). apply (safe_bind D me _ _ (λ _, True)); [|intros; by apply safe_ret].
    by apply safe_DelFailureReport. }
  { apply frames_forM; [apply _|]. intros r. apply frames_when; [apply _|].
    apply frames_bind; [apply _|apply frame_DelReport_refs|intros; apply frames_ret, _]. }
  destruct (Hs c2 Hc2) as ([] & c3 & E3 & Hc3 & _). pose proof (Hfr c2 _ c3 E3) as (Hl3 & _).
  erewrite bind_run by exact E3. cbv beta.
  assert (same_links c3 c1) as Hl31.
  { destruct Hl2 as (? & ? & ?), Hl3 as (? & ? & ?). split; [congruence|split; congruence]. }
  destruct (same_links_lookup c3 c1 p np Hl31 Hnp) as (np3 & Hnp3 & El).
  destruct (same_links_lookup c3 c1 q nq1 Hl31 Hq1) as (nq3 & Hq3 & Elq).
  unfold links in El, Elq. injection El as En Ef _ _. injection Elq as _ Efq _ Esq.
  destruct (free_slave_run c3 p np3 q nq3 Hc3 Hnp3) as (c4 & nq4 & E4 & Hp4 & Hq4 & Hf4 & Hs4); auto.
  { destruct Hl31 as (_ & <- & _). by rewrite <-En. }
  { rewrite <-Hm. unfold nodeIsMaster, has_flag. by rewrite Ef. }
  exists c4, nq4. do 3 (split; [done|]). split; [congruence|]. intros h' nm' m Hh' Hnm' Hmp.
  unfold packet_role_switch. rewrite Hh'.
  assert (clusterLookupNode nm' c4 = Some (nodes c4 !! nm', c4)) as El by done.
  erewrite bind_run by exact El. cbv beta. rewrite Hnm'. erewrite bind_run by by apply load_run. cbv beta.
  assert (nodeIsMaster nq4 = false) as ->.
  { rewrite <-Hqm. unfold nodeIsMaster, has_flag. by rewrite Hf4, <-Efq, Hf1. }
  erewrite bind_run by reflexivity. cbv beta. erewrite bind_run by by apply load_run. cbv beta.
  assert (slaveof nq4 = Some p) as -> by congruence. rewrite bool_decide_eq_false_2 by congruence. simpl.
  unfold clusterNodeRemoveSlave, mbind, M_bind, load. by rewrite Hp4.
Qed.
End defects.

(** ** The slot of a key *)

(** The position of the first [ch], or the length. *)
Fixpoint index_of (ch : Z) (l : bytes) : nat :=
  match l with
  | [] => 0
  | x :: l => if x =? ch then 0 else S (index_of ch l)
  end.

(** The part of a key that is hashed: what is between the first '{' and the next
    '}', when both exist and there is something in between. *)
Definition hash_tag (key : bytes) : bytes :=
  let rest := drop (S (index_of 123 key)) key in
  let e := index_of 125 rest in
  if bool_decide (index_of 123 key < length key ∧ 0 < e < length rest)%nat then take e rest else key.

Lemma index_of_le ch l : (index_of ch l ≤ length l)%nat.
Proof. induction l as [|x l IH]; simpl; [done|]. destruct (x =? ch); lia. Qed.

Lemma find_char_run key ch from : 0 ≤ from ≤ zlen key →
  find_char key ch from (zlen key) = Some (from + Z.of_nat (index_of ch (drop (Z.to_nat from) key))).
Proof.
  unfold find_char. intros Hf.
  assert (∀ n from, 0 ≤ from ≤ zlen key → zlen key - from ≤ Z.of_nat n →
    loop (1 + n) (λ i : Z, if i <? zlen key then c ← rd1 key i; Some (if c =? ch then inr i else inl (i + 1))
                           else Some (inr i)) from =
    Some (from + Z.of_nat (index_of ch (drop (Z.to_nat from) key)))) as H.
  { clear. induction n as [|n IH]; intros from Hf Hn; cbn [loop Nat.add] in *.
    - destruct (from <? zlen key) eqn:E; [lia|]. rewrite drop_ge by lia. simpl. f_equal. lia.
    - destruct (from <? zlen key) eqn:E; cycle 1. { rewrite drop_ge by lia. simpl. f_equal. lia. }
      destruct (lookup_lt_is_Some_2 key (Z.to_nat from)) as [x Hx]; [lia|].
      rewrite rd1_lookup, Hx by lia. mrun. rewrite (drop_S key x) by done. simpl.
      destruct (x =? ch); [f_equal; lia|].
      rewrite IH by lia. f_equal. replace (Z.to_nat (from + 1)) with (S (Z.to_nat from)) by lia. lia. }
  rewrite <-(H (Z.to_nat (zlen key - from)) from) by lia. done.
Qed.

(** C4: [keyHashSlot] stays inside the key and returns the CRC16 of its hash tag
    modulo 16384, the whole key when it has no tag: a slot of the table, the same
    for all keys with the same tag. *)
Theorem keyHashSlot_correct key :
  is_bytes key →
  keyHashSlot key (zlen key) = Some (crc16_ref (hash_tag key) mod 16384) ∧
  slot_ok (crc16_ref (hash_tag key) mod 16384).
Proof.
  intros Hb. split; [|unfold slot_ok, REDIS_CLUSTER_SLOTS; apply Z.mod_pos_bound; lia].
  assert (∀ bs rest, is_bytes bs → (h ← crc16 (bs ++ rest) (zlen bs); Some (Z.land h 0x3FFF)) =
    Some (crc16_ref bs mod 16384)) as Hcrc.
  { intros bs rest Hbs. destruct (crc16_run bs rest Hbs) as [-> _]. mrun.
    change 0x3FFF with (Z.ones 14). by rewrite Z.land_ones by lia. }
  pose proof (Hcrc key [] Hb) as Hwhole. rewrite app_nil_r in Hwhole.
  unfold keyHashSlot, hash_tag. rewrite find_char_run by lia. mrun. change (Z.to_nat 0) with 0%nat.
  rewrite drop_0. set (s := index_of 123 key). pose proof (index_of_le 123 key) as Hs. fold s in Hs.
  replace (0 + Z.of_nat s) with (Z.of_nat s) by lia.
  destruct (Z.eqb_spec (Z.of_nat s) (zlen key)) as [E|E].
  { rewrite bool_decide_eq_false_2 by lia. done. }
  rewrite find_char_run by lia. mrun. replace (Z.to_nat (Z.of_nat s + 1)) with (S s) by lia.
  set (rest := drop (S s) key). set (e := index_of 125 rest).
  pose proof (index_of_le 125 rest) as He. fold e in He.
  assert (length rest = length key - S s)%nat as Hlr by apply length_drop.
  destruct (Z.eqb_spec (Z.of_nat s + 1 + Z.of_nat e) (zlen key)), (Z.eqb_spec (Z.of_nat s + 1 + Z.of_nat e) (Z.of_nat s + 1));
    cbn [orb]; [by rewrite bool_decide_eq_false_2 by lia..|].
  rewrite bool_decide_eq_true_2 by lia.
  replace (Z.of_nat s + 1 + Z.of_nat e - Z.of_nat s - 1) with (zlen (take e rest)) by (rewrite length_take; lia).
  rewrite <-(Hcrc (take e rest) (drop e rest)) by (apply Forall_take, Forall_drop, Hb).
  by rewrite take_drop.
Qed.

(** An UPDATE packet sets the epoch of the node it is about and leaves
    [currentEpoch] alone, whatever that epoch is; a collision handled afterwards
    moves [myself] to [currentEpoch + 1] only, and so not past that node, although
    the comment promises the greatest epoch known plus one. *)
Theorem update_outruns_current_epoch D me c nm p e bitmap keys paused :
  ok D me c → nodes c !! nm = Some p → p ≠ me → epoch_of c p < e → bitmap_ok bitmap →
  ∃ c', packet_update keys paused nm e bitmap c = Some (tt, c') ∧ ok D me c' ∧
    epoch_of c' p = e ∧ currentEpoch c' = currentEpoch c ∧
    ∀ s c'', clusterHandleConfigEpochCollision s c' = Some (tt, c'') →
      epoch_of c'' p = e ∧ (c'' = c' ∨ epoch_of c'' me = next_epoch (currentEpoch c)).
Proof.
  intros Hc Hnm Hne He Hb. pose proof (ok_dict_in _ _ c nm p Hc Hnm) as Hp.
  destruct (ok_lookup _ _ c p Hc Hp) as [n Hn]. unfold epoch_of in He. rewrite Hn in He.
  unfold packet_update. assert (clusterLookupNode nm c = Some (nodes c !! nm, c)) as El by done.
  erewrite bind_run by exact El. cbv beta. rewrite Hnm. run1.
  assert (configEpoch n >=? e = false) as -> by lia.
  assert (PreOrder (λ c c', currentEpoch c' = currentEpoch c)) as Hpre
    by (split; [done|intros ? ? ? ? ?; congruence]).
  assert (safe_ D me (when (nodeIsSlave n) (clusterSetNodeAsMaster p))) as Hs1 by safe.
  destruct (Hs1 c Hc) as ([] & c1 & E1 & Hc1 & _). erewrite bind_run by exact E1. cbv beta.
  assert (currentEpoch c1 = currentEpoch c) as Hcur1.
  { assert (frames (λ c c', currentEpoch c' = currentEpoch c) (when (nodeIsSlave n) (clusterSetNodeAsMaster p)))
      as Hf by (unfold clusterSetNodeAsMaster, clusterNodeRemoveSlave, clusterDoBeforeSleep; frame; done).
    by eapply Hf. }
  destruct (ok_lookup _ _ c1 p Hc1 Hp) as [n1 Hn1].
  erewrite bind_run by by apply store_run. cbv beta. set (c2 := set_heap _ c1).
  assert (ok D me c2) as Hc2.
  { eapply ok_store; [done|done|]. apply (benign_fields D me p (set_configEpoch e)). done. }
  erewrite bind_run by reflexivity. cbv beta. set (c3 := set_todo_before_sleep _ c2).
  assert (ok D me c3) as Hc3 by by apply (ok_ext D me c2).
  destruct (safe_UpdateSlots D me keys paused p e bitmap Hp Hb c3 Hc3) as ([] & c4 & E4 & Hc4 & _).
  assert (frames (λ c c', currentEpoch c' = currentEpoch c ∧ configEpoch <$> heap c' !! p = configEpoch <$> heap c !! p)
    (clusterUpdateSlotsConfigWith keys paused p e bitmap)) as Hf.
  { assert (PreOrder (λ c c' : cluster, currentEpoch c' = currentEpoch c ∧
      configEpoch <$> heap c' !! p = configEpoch <$> heap c !! p))
      by (split; [done|intros ? ? ? [] []; split; congruence]).
    assert (∀ q f, (∀ n, configEpoch (f n) = configEpoch n) → frames (λ c c' : cluster,
      currentEpoch c' = currentEpoch c ∧ configEpoch <$> heap c' !! p = configEpoch <$> heap c !! p) (store q f)) as Hst.
    { intros q f Hf. apply frames_store; [done|]. intros c5 n5 Hn5. split; [done|]. simpl.
      destruct (decide (q = p)) as [->|]; [|by rewrite lookup_insert_ne].
      rewrite lookup_insert_eq, Hn5. simpl. by rewrite Hf. }
    unfold clusterUpdateSlotsConfigWith, update_slot, load_opt, clusterSetMaster, clusterDelSlot, clusterAddSlot,
      clusterNodeClearSlotBit, clusterNodeSetSlotBit, clusterNodeRemoveSlave, clusterNodeAddSlave, clusterCloseAllSlots,
      resetManualFailover, emit, clusterDoBeforeSleep.
    repeat (first [apply Hst; done | frame_step]; cbv zeta); done. }
  destruct (Hf c3 tt c4 E4) as [Hcur4 He4]. simpl in He4. rewrite lookup_insert_eq in He4. simpl in He4.
  exists c4. split; [done|]. split; [done|].
  assert (epoch_of c4 p = e) as Hep.
  { unfold epoch_of. destruct (heap c4 !! p); simpl in He4; congruence. }
  assert (currentEpoch c4 = currentEpoch c) as Hcur by (rewrite Hcur4; simpl; exact Hcur1).
  split; [done|]. split; [done|]. intros s c'' Hcol.
  destruct (ok_lookup _ _ c4 me Hc4 (ok_me_in _ _ _ Hc4)) as [m4 Hm4].
  destruct (decide (s ∈ D)) as [Hs|Hs]; cycle 1.
  { unfold clusterHandleConfigEpochCollision in Hcol. erewrite bind_run in Hcol by reflexivity.
    unfold mbind at 1, M_bind at 1 in Hcol. unfold load at 1 in Hcol.
    destruct (heap c4 !! s) as [ns|] eqn:Hns; [|done]. by destruct Hs; apply (ok_lookup_in D me c4 s ns). }
  destruct (ok_lookup _ _ c4 s Hc4 Hs) as [ns Hns].
  destruct (collision_run D me c4 s m4 ns Hc4 Hm4 Hns) as (c5 & E5 & H5). rewrite Hcol in E5. injection E5 as <-.
  destruct (_ && _); [|subst; auto]. destruct H5 as (H51 & _ & _ & H52).
  split; [unfold epoch_of in *; by rewrite H52|]. right. by rewrite H51, Hcur.
Qed.

(** ** Rebinding slots *)

(** C2: [clusterUpdateSlotsConfigWith] never touches memory it should not and
    keeps the invariant; it rebinds to the sender exactly the claimed slots that
    are not being imported and are unassigned or owned under a smaller epoch, and
    no other; [myself] becomes a slave of the sender exactly when this leaves it,
    or its master, without slots; otherwise the keys of the slots it lost are
    deleted. *)
Theorem clusterUpdateSlotsConfigWith_correct D me c sender epoch bitmap keys paused :
  ok D me c → sender ∈ D → sender ≠ me → bitmap_ok bitmap →
  ∃ c', clusterUpdateSlotsConfigWith keys paused sender epoch bitmap c = Some (tt, c') ∧
    ok D me c' ∧
    (∀ j, slot_ok j →
      slots c' !! j = if rebinds sender epoch bitmap c j then Some sender else slots c !! j) ∧
    if demotes sender epoch bitmap c
    then slave_of me c' sender ∧ events c' = events c ++ new_master_events paused c sender
    else my_master c' = my_master c ∧
      events c' = events c ++ (delKeysInSlot <$> lost_with_keys keys sender epoch bitmap c all_slots).
Proof. apply clusterUpdateSlots_run. Qed.

(** ** A concrete cluster

    [myself] at 1, a master at 2 with a slave at 3; no slot is assigned. *)
Definition nameA : bytes := replicate 40 65.
Definition nameB : bytes := replicate 40 66.
Definition nameC : bytes := replicate 40 67.
Definition nodeA : clusterNode := mk_node nameA 17 0 zero_slots 0 [] None 0 0 0 false [].
Definition nodeB : clusterNode := mk_node nameB 1 0 zero_slots 0 [3%positive] None 0 0 0 true [].
Definition nodeC : clusterNode := mk_node nameC 2 0 zero_slots 0 [] (Some 2%positive) 0 0 0 true [].
Definition sample : cluster :=
  mk_cluster (<[1%positive := nodeA]> (<[2%positive := nodeB]> (<[3%positive := nodeC]> ∅)))
    (<[nameA := 1%positive]> (<[nameB := 2%positive]> (<[nameC := 3%positive]> ∅)))
    1%positive 0 REDIS_CLUSTER_FAIL 1 ∅ ∅ ∅ 0 0 0 None 0 0 0 0 0 0 [].
#[local] Opaque nameA nameB nameC.
Definition sampleD : gset ptr := {[1%positive; 2%positive; 3%positive]}.

Lemma sample_node p n : heap sample !! p = Some n →
  (p = 1%positive ∧ n = nodeA) ∨ (p = 2%positive ∧ n = nodeB) ∨ (p = 3%positive ∧ n = nodeC).
Proof.
  unfold sample. cbn [heap].
  intros [[<- <-]|[_ [[<- <-]|[_ [[<- <-]|[_ H]]%lookup_insert_Some]]%lookup_insert_Some]]%lookup_insert_Some;
    [by auto..|]. by rewrite lookup_empty in H.
Qed.

Lemma ok_sample : ok sampleD 1%positive sample.
Proof.
  assert (2%positive ∈ sampleD ∧ 3%positive ∈ sampleD) as [H2 H3] by (unfold sampleD; set_solver).
  split.
  - simpl. rewrite !dom_insert_L. unfold sampleD. set_solver.
  - done.
  - unfold sampleD. set_solver.
  - intros p n Hn. assert (nbits zero_slots = 0) as Hz by (apply nbits_zero; intros; apply tbit_zeros).
    destruct (sample_node p n Hn) as [[-> ->]|[[-> ->]|[-> ->]]];
      (split; [apply zero_slots_ok|exact (eq_sym Hz)|..]); [done|constructor|done|by apply Forall_singleton| |constructor].
    by intros m [= <-].
  - intros p n j Hn _. simpl. rewrite lookup_empty. split; [|done].
    destruct (sample_node p n Hn) as [[-> ->]|[[-> ->]|[-> ->]]]; simpl; by rewrite tbit_zeros.
  - intros j p. simpl. by rewrite lookup_empty.
  - intros j p. simpl. by rewrite lookup_empty.
  - intros j p. simpl. by rewrite lookup_empty.
  - intros nm p Hd.
    change (nodes sample) with (<[nameA := 1%positive]> (<[nameB := 2%positive]>
      (<[nameC := 3%positive]> (∅ : gmap bytes ptr)))) in Hd.
    apply lookup_insert_Some in Hd as [[<- <-]|[_ Hd]]; [by exists nodeA|].
    apply lookup_insert_Some in Hd as [[<- <-]|[_ Hd]]; [by exists nodeB|].
    apply lookup_insert_Some in Hd as [[<- <-]|[_ Hd]]; [by exists nodeC|]. by rewrite lookup_empty in Hd.
  - intros n Hn. destruct (sample_node _ n Hn) as [[_ ->]|[[? ->]|[? ->]]]; done.
Qed.

Lemma clusterUpdateSlotsConfigWith_correct_witness :
  ∃ c', clusterUpdateSlotsConfigWith (λ _, 0) false 2 1 zero_slots sample = Some (tt, c').
Proof.
  destruct (clusterUpdateSlotsConfigWith_correct sampleD 1 sample 2 1 zero_slots (λ _, 0) false)
    as (c' & E & _); [apply ok_sample|unfold sampleD; set_solver|done|apply zero_slots_ok|].
  exists c'. exact E.
Defined.

Definition sample_env : env := mk_env 5000 100 true (λ _, 0) false.


(** After one [clusterBumpConfigEpochWithoutConsensus]. *)
Definition bumped : cluster := 
  match run_op sample_env OBump (clusterInit nameA) with Some (_, c) => c | None => clusterInit nameA end.


Definition sample_req : auth_request := mk_auth_request 1 1 zero_slots 2.

Lemma failover_auth_correct_witness :
  ∃ c', clusterSendFailoverAuthIfNeeded 5000 100 3 sample_req sample = Some (tt, c').
Proof.
  destruct (failover_auth_correct sampleD 1 5000 100 sample 3 sample_req nodeC nodeA) as (mn & c' & _ & E & _);
    [apply ok_sample|apply zero_slots_ok|reflexivity|reflexivity|]. exists c'. exact E.
Defined.

Lemma bump_epoch_correct_witness :
  ∃ c', clusterBumpConfigEpochWithoutConsensus sample = Some (true, c') ∧ currentEpoch c' = 1.
Proof.
  destruct (bump_epoch_correct sampleD 1 sample nodeA) as (r & c' & E & Hr & H);
    [apply ok_sample|reflexivity| |vm_compute; discriminate|vm_compute; reflexivity|].
  - intros nm p Hp. destruct (ok_dict _ _ _ ok_sample nm p Hp) as (n & Hn & _). unfold epoch_of. rewrite Hn.
    destruct (sample_node p n Hn) as [[_ ->]|[[_ ->]|[_ ->]]]; vm_compute; discriminate.
  - exists c'. subst r. split; [exact E|]. exact (proj1 H).
Defined.

Lemma epoch_collision_correct_witness :
  ∃ c', clusterHandleConfigEpochCollision 2 sample = Some (tt, c') ∧ epoch_of c' 1 = 1.
Proof.
  destruct (epoch_collision_correct sampleD 1 sample 2 nodeA nodeB ok_sample eq_refl eq_refl) as (c' & E & H).
  exists c'. split; [exact E|]. exact (proj1 H).
Defined.

Lemma markNodeAsFailing_correct_witness :
  ∃ c', markNodeAsFailingIfNeeded 5000 100 2 sample = Some (tt, c') ∧ events c' = [].
Proof.
  destruct (markNodeAsFailing_correct sampleD 1 5000 100 sample 2 nodeB nodeA ok_sample eq_refl eq_refl)
    as (c' & n' & E & _ & H).
  exists c'. split; [exact E|]. exact (proj2 H).
Defined.

Lemma clusterUpdateState_correct_witness :
  ∃ c', clusterUpdateState 5000 100 false sample = Some (tt, c').
Proof.
  destruct (clusterUpdateState_correct sampleD 1 5000 100 false sample nodeA ok_sample eq_refl) as (c' & E & _).
  exists c'. exact E.
Defined.

Lemma clusterDelNodeSlots_correct_witness : ∃ c', clusterDelNodeSlots 2 sample = Some (16384, c').
Proof.
  destruct (clusterDelNodeSlots_correct sampleD 1 sample 2) as (c' & E & _);
    [apply ok_sample|unfold sampleD; set_solver|]. exists c'. exact E.
Defined.

(** B becomes a slave of A, is forgotten, and C still points to it. *)
Definition became_slave : packet_header := mk_header 0 0 0 (Some nameA) zero_slots 0.

Lemma forgotten_master_dangles_witness :
  ∃ c1 np, packet_role_switch 2 became_slave sample = Some (tt, c1) ∧ heap c1 !! 2%positive = Some np.
Proof.
  destruct (forgotten_master_dangles sampleD 1 sample 2 3 nameA became_slave nodeC)
    as (c1 & np & E & Hn & _);
    [apply ok_sample|unfold sampleD; set_solver|done|done|reflexivity|reflexivity|reflexivity|reflexivity|].
  exists c1, np. split; [exact E|exact Hn].
Defined.

Lemma keyHashSlot_correct_witness : keyHashSlot [49; 123; 50; 125] 4 = keyHashSlot [50] 1.
Proof.
  destruct (keyHashSlot_correct [49; 123; 50; 125]) as [H1 _]; [repeat constructor; unfold in_u; discriminate|].
  destruct (keyHashSlot_correct [50]) as [H2 _]; [repeat constructor; unfold in_u; discriminate|].
  transitivity (Some (crc16_ref [50] mod 16384)); [exact H1|symmetry; exact H2].
Defined.

Lemma update_outruns_current_epoch_witness :
  ∃ c', packet_update (λ _, 0) false nameB 100 zero_slots sample = Some (tt, c') ∧ epoch_of c' 2 = 100 ∧
    currentEpoch c' = 0.
Proof.
  destruct (update_outruns_current_epoch sampleD 1 sample nameB 2 100 zero_slots (λ _, 0) false)
    as (c' & E & _ & H1 & H2 & _);
    [apply ok_sample|reflexivity|done|vm_compute; reflexivity|apply zero_slots_ok|].
  exists c'. split; [exact E|]. split; [exact H1|exact H2].
Defined.
