(* ===== verification/Dict.v ===== *)
(** * Hash tables with incremental rehashing: [dict.c], [dict.h]

    Chains are linked through a heap of entries ([dict_entries]); a pointer to
    an entry is a key of that heap, [NULL] is [None].  The theorems are in
    [DictSpec] and [DictScan]. *)

From S2P Require Import Prelude.

#[local] Open Scope Z_scope.

Definition DICT_OK : Z := 0.
Definition DICT_ERR : Z := 1.
Definition DICT_HT_INITIAL_SIZE : Z := 4.
Definition PORT_LONG_MAX : Z := 2 ^ 63 - 1.

(** ** Hash functions *)

Definition dictIntHashFunction (key : Z) : Z :=
  let key := u32 (key + Z.lxor (u32 (Z.shiftl key 15)) 4294967295) in
  let key := Z.lxor key (Z.shiftr key 10) in
  let key := u32 (key + u32 (Z.shiftl key 3)) in
  let key := Z.lxor key (Z.shiftr key 6) in
  let key := u32 (key + Z.lxor (u32 (Z.shiftl key 11)) 4294967295) in
  Z.lxor key (Z.shiftr key 16).

Definition murmur_m : Z := 0x5bd1e995.
Definition murmur_r : Z := 24.

(** [while (len >= 4) { ... }] over the bytes from offset [off]; a 4-byte load
    is little-endian. *)
Definition murmur_body (data : bytes) (s : Z * Z * Z) : option (Z * Z * Z + Z * Z * Z) :=
  let '(h, off, len) := s in
  if len >=? 4 then
    b ← rd data off 4;
    let k := u32 (le_dec b * murmur_m) in
    let k := Z.lxor k (Z.shiftr k murmur_r) in
    let k := u32 (k * murmur_m) in
    let h := Z.lxor (u32 (h * murmur_m)) k in
    Some (inl (h, off + 4, len - 4))
  else Some (inr (h, off, len)).

(** The [switch] on the remaining bytes, each case falling through. *)
Definition murmur_tail (data : bytes) (h off len : Z) : option Z :=
  h ← (if len =? 3 then b ← rd1 data (off + 2); Some (Z.lxor h (u32 (Z.shiftl b 16))) else Some h);
  h ← (if 2 <=? len then b ← rd1 data (off + 1); Some (Z.lxor h (u32 (Z.shiftl b 8))) else Some h);
  if 1 <=? len then b ← rd1 data off; Some (u32 (Z.lxor h b * murmur_m)) else Some h.

Definition dictGenHashFunction (seed : Z) (key : bytes) (len : Z) : option Z :=
  let h := Z.lxor seed (u32 len) in
  '(h, off, len) ← loop (2 + Z.to_nat len) (murmur_body key) (h, 0, len);
  h ← murmur_tail key h off len;
  let h := Z.lxor h (Z.shiftr h 13) in
  let h := u32 (h * murmur_m) in
  Some (Z.lxor h (Z.shiftr h 15)).

(** [tolower] in the C locale. *)
Definition tolower (c : Z) : Z := if (65 <=? c) && (c <=? 90) then c + 32 else c.

Definition case_hash_body (buf : bytes) (s : Z * Z * Z) : option (Z * Z * Z + Z) :=
  let '(hash, off, len) := s in
  if len =? 0 then Some (inr hash)
  else
    b ← rd1 buf off;
    Some (inl (u32 (u32 (Z.shiftl hash 5) + hash + tolower b), off + 1, len - 1)).

Definition dictGenCaseHashFunction (seed : Z) (buf : bytes) (len : Z) : option Z :=
  loop (1 + Z.to_nat len) (case_hash_body buf) (seed, 0, len).

(** ** Data *)

(** The functions of a [dictType]; a destructor is whether it is set. *)
Record dictType (K V : Type) := DictType {
  hashFunction : K → Z;
  keyDup : option (K → K);
  valDup : option (V → V);
  keyCompare : option (K → K → bool);
  keyDestructor : bool;
  valDestructor : bool;
}.
Arguments hashFunction {K V} _ _.
Arguments keyDup {K V} _.
Arguments valDup {K V} _.
Arguments keyCompare {K V} _.
Arguments keyDestructor {K V} _.
Arguments valDestructor {K V} _.

(** An entry; the value is unset between [dictAddRaw] and the assignment. *)
Record dictEntry (K V : Type) := DictEntry { de_key : K; de_val : option V; de_next : option loc }.
Arguments DictEntry {K V} _ _ _.
Arguments de_key {K V} _.
Arguments de_val {K V} _.
Arguments de_next {K V} _.

Record dictht := Dictht {
  ht_table : option (list (option loc));
  ht_size : Z;
  ht_sizemask : Z;
  ht_used : Z;
}.

(** Calls out of the dictionary: destructors and the callback of [_dictClear]. *)
Inductive devent (K V : Type) :=
  | FreeKey (k : K)
  | FreeVal (v : option V)
  | Callback.
Arguments FreeKey {K V} _.
Arguments FreeVal {K V} _.
Arguments Callback {K V}.

Record dict (K V : Type) := Dict {
  dict_entries : gmap loc (dictEntry K V);
  ht0 : dictht;
  ht1 : dictht;
  rehashidx : Z;
  iterators : Z;
  dict_log : list (devent K V);
}.
Arguments Dict {K V} _ _ _ _ _ _.
Arguments dict_entries {K V} _.
Arguments ht0 {K V} _.
Arguments ht1 {K V} _.
Arguments rehashidx {K V} _.
Arguments iterators {K V} _.
Arguments dict_log {K V} _.

Record dictIterator := DictIterator {
  it_index : Z;
  it_table : Z;
  it_safe : bool;
  it_entry : option loc;
  it_nextEntry : option loc;
  it_fingerprint : Z;
}.

(** The globals of [dict.c], and [g_IsForkedProcess] of the Windows port. *)
Record dictGlobals := DictGlobals {
  dict_can_resize : bool;
  dict_force_resize_ratio : Z;
  g_IsForkedProcess : bool;
}.

Definition dictEnableResize (g : dictGlobals) : dictGlobals :=
  DictGlobals true (dict_force_resize_ratio g) (g_IsForkedProcess g).
Definition dictDisableResize (g : dictGlobals) : dictGlobals :=
  DictGlobals false (dict_force_resize_ratio g) (g_IsForkedProcess g).

(** ** One table *)

Definition _dictReset : dictht := Dictht None 0 0 0.

Definition table_get (ht : dictht) (i : Z) : option (option loc) :=
  t ← ht_table ht; rd1 t i.

Definition table_set (ht : dictht) (i : Z) (p : option loc) : option dictht :=
  t ← ht_table ht; t ← wr1 t i p;
  Some (Dictht (Some t) (ht_size ht) (ht_sizemask ht) (ht_used ht)).

Definition add_used (n : Z) (ht : dictht) : dictht :=
  Dictht (ht_table ht) (ht_size ht) (ht_sizemask ht) (u64 (ht_used ht + n)).

(** [zcalloc(n*sizeof(dictEntry* ))]: aborts when the size does not fit. *)
Definition zcalloc_table (n : Z) : option (list (option loc)) :=
  check n * 8 <? 2 ^ 64 ;; Some (replicate (Z.to_nat n) None).

Definition next_power_body (size i : Z) : option (Z + Z) :=
  if i >=? size then Some (inr i) else Some (inl (u64 (i * 2))).

Definition _dictNextPower (size : Z) : option Z :=
  if size >=? PORT_LONG_MAX then Some PORT_LONG_MAX
  else loop 64 (next_power_body size) DICT_HT_INITIAL_SIZE.

(** The state of [dictGetSomeKeys]: the collected entries, [i], [emptylen], and
    the random values left. *)
Abbreviation sampling := (list loc * Z * Z * list Z)%type.

Section ops.
Context {K V : Type} `{!EqDecision K} `{!EntryAllocator}.
Context (T : dictType K V) (g : dictGlobals).
Implicit Types (d : dict K V) (key : K) (val : V).

(** ** Field updates *)

Definition ht d (t : Z) : dictht := if t =? 0 then ht0 d else ht1 d.
Definition set_ht d (t : Z) (h : dictht) : dict K V :=
  if t =? 0 then Dict (dict_entries d) h (ht1 d) (rehashidx d) (iterators d) (dict_log d)
  else Dict (dict_entries d) (ht0 d) h (rehashidx d) (iterators d) (dict_log d).
Definition set_rehashidx d (i : Z) : dict K V :=
  Dict (dict_entries d) (ht0 d) (ht1 d) i (iterators d) (dict_log d).
Definition set_iterators d (i : Z) : dict K V :=
  Dict (dict_entries d) (ht0 d) (ht1 d) (rehashidx d) i (dict_log d).
Definition set_entries d (m : gmap loc (dictEntry K V)) : dict K V :=
  Dict m (ht0 d) (ht1 d) (rehashidx d) (iterators d) (dict_log d).
Definition log_event d (e : devent K V) : dict K V :=
  Dict (dict_entries d) (ht0 d) (ht1 d) (rehashidx d) (iterators d) (dict_log d ++ [e]).

Definition store_entry d (p : loc) (f : dictEntry K V → dictEntry K V) : option (dict K V) :=
  e ← dict_entries d !! p; Some (set_entries d (<[p := f e]> (dict_entries d))).

Definition set_next (p : option loc) (e : dictEntry K V) := DictEntry (de_key e) (de_val e) p.
Definition set_val (v : option V) (e : dictEntry K V) := DictEntry (de_key e) v (de_next e).

(** ** Macros of [dict.h] *)

Definition dictHashKey key : Z := hashFunction T key.
Definition dictCompareKeys key1 key2 : bool :=
  match keyCompare T with
  | Some cmp => cmp key1 key2
  | None => bool_decide (key1 = key2)
  end.
Definition dictSetVal d (entry : loc) val : option (dict K V) :=
  store_entry d entry (set_val (Some (match valDup T with Some dup => dup val | None => val end))).
Definition dup_key key : K := match keyDup T with Some dup => dup key | None => key end.
Definition dictFreeKey d (e : dictEntry K V) : dict K V :=
  if keyDestructor T then log_event d (FreeKey (de_key e)) else d.
Definition dictFreeVal d (e : dictEntry K V) : dict K V :=
  if valDestructor T then log_event d (FreeVal (de_val e)) else d.
Definition dictSlots d : Z := u64 (ht_size (ht0 d) + ht_size (ht1 d)).
Definition dictSize d : Z := u64 (ht_used (ht0 d) + ht_used (ht1 d)).
Definition dictIsRehashing d : bool := negb (rehashidx d =? -1).

(** Enough steps to walk a chain: it has no entry twice. *)
Definition chain_fuel d : nat := S (size (dict_entries d)).

(** [for (table = 0; table <= 1; table++) { body; if (!dictIsRehashing(d)) break; }]
    where the body may leave with a result. *)
Definition for_tables {A} d (body : Z → option (option A)) : option (option A) :=
  r ← body 0;
  match r with
  | Some a => Some (Some a)
  | None => if dictIsRehashing d then body 1 else Some None
  end.

(** ** Creation, resizing and rehashing *)

Definition _dictInit : dict K V := Dict ∅ _dictReset _dictReset (-1) 0 [].
Definition dictCreate : dict K V := _dictInit.

Definition dictExpand d (size : Z) : option (Z * dict K V) :=
  realsize ← _dictNextPower size;
  if dictIsRehashing d || (ht_used (ht0 d) >? size) then Some (DICT_ERR, d)
  else if realsize =? ht_size (ht0 d) then Some (DICT_ERR, d)
  else
    t ← zcalloc_table realsize;
    let n := Dictht (Some t) realsize (u64 (realsize - 1)) 0 in
    match ht_table (ht0 d) with
    | None => Some (DICT_OK, set_ht d 0 n)
    | Some _ => Some (DICT_OK, set_rehashidx (set_ht d 1 n) 0)
    end.

Definition dictResize d : option (Z * dict K V) :=
  if negb (dict_can_resize g) || dictIsRehashing d then Some (DICT_ERR, d)
  else
    let minimal := s32 (ht_used (ht0 d)) in
    let minimal := if minimal <? DICT_HT_INITIAL_SIZE then DICT_HT_INITIAL_SIZE else minimal in
    dictExpand d (u64 minimal).

(** [while(de) { ... }]: moves the entries of a bucket to the new table. *)
Definition move_body (s : dict K V * option loc) : option (dict K V * option loc + dict K V) :=
  let '(d, de) := s in
  match de with
  | None => Some (inr d)
  | Some p =>
    e ← dict_entries d !! p;
    let nextde := de_next e in
    let h := u32 (Z.land (dictHashKey (de_key e)) (ht_sizemask (ht1 d))) in
    b ← table_get (ht1 d) h;
    d ← store_entry d p (set_next b);
    t1 ← table_set (ht1 d) h (Some p);
    let d := set_ht d 1 t1 in
    let d := set_ht d 0 (add_used (-1) (ht0 d)) in
    let d := set_ht d 1 (add_used 1 (ht1 d)) in
    Some (inl (d, nextde))
  end.

(** [while(d->ht[0].table[d->rehashidx] == NULL) { ... }]; leaves with [None]
    when the visits are exhausted. *)
Definition skip_body (s : dict K V * Z) : option (dict K V * Z + dict K V * option Z) :=
  let '(d, empty_visits) := s in
  b ← table_get (ht0 d) (rehashidx d);
  match b with
  | Some _ => Some (inr (d, Some empty_visits))
  | None =>
    let d := set_rehashidx d (rehashidx d + 1) in
    let empty_visits := empty_visits - 1 in
    if empty_visits =? 0 then Some (inr (d, None)) else Some (inl (d, empty_visits))
  end.

(** The body of [while(n-- && d->ht[0].used != 0)]. *)
Definition rehash_body (s : dict K V * Z * Z) : option (dict K V * Z * Z + dict K V * bool) :=
  let '(d, n, empty_visits) := s in
  if (n =? 0) || (ht_used (ht0 d) =? 0) then Some (inr (d, false))
  else
    let n := n - 1 in
    check ht_size (ht0 d) >? u64 (rehashidx d) ;;
    '(d, ev) ← loop (S (Z.to_nat (ht_size (ht0 d)))) skip_body (d, empty_visits);
    match ev with
    | None => Some (inr (d, true))
    | Some empty_visits =>
      de ← table_get (ht0 d) (rehashidx d);
      d ← loop (chain_fuel d) move_body (d, de);
      t0 ← table_set (ht0 d) (rehashidx d) None;
      let d := set_ht d 0 t0 in
      Some (inl (set_rehashidx d (rehashidx d + 1), n, empty_visits))
    end.

Definition dictRehash d (n : Z) : option (Z * dict K V) :=
  if g_IsForkedProcess g then Some (0, d)
  else
    check bool_decide (in_s 32 (n * 10)) ;;
    if negb (dictIsRehashing d) then Some (0, d)
    else
      '(d, out_of_visits) ← loop (2 + Z.to_nat (ht_size (ht0 d))) rehash_body (d, n, n * 10);
      if out_of_visits : bool then Some (1, d)
      else if ht_used (ht0 d) =? 0 then
        let d := set_ht d 0 (ht1 d) in
        let d := set_ht d 1 _dictReset in
        Some (0, set_rehashidx d (-1))
      else Some (1, d).

(** [times i] is the [i]-th reading of the clock. *)
Definition rehash_ms_body (times : nat → Z) (ms : Z) (s : dict K V * Z * nat) :
    option (dict K V * Z * nat + Z * dict K V) :=
  let '(d, rehashes, i) := s in
  '(r, d) ← dictRehash d 100;
  if r =? 0 then Some (inr (rehashes, d))
  else
    let rehashes := rehashes + 100 in
    if times (S i) - times 0%nat >? ms then Some (inr (rehashes, d))
    else Some (inl (d, rehashes, S i)).

Definition dictRehashMilliseconds d (times : nat → Z) (ms : Z) : option (Z * dict K V) :=
  loop (2 + Z.to_nat (ht_size (ht0 d))) (rehash_ms_body times ms) (d, 0, 0%nat).

Definition _dictRehashStep d : option (dict K V) :=
  if iterators d =? 0 then '(_, d) ← dictRehash d 1; Some d else Some d.

(** [if (dictIsRehashing(d)) _dictRehashStep(d);] *)
Definition rehash_step_if d : option (dict K V) :=
  if dictIsRehashing d then _dictRehashStep d else Some d.

(** ** Lookup *)

(** [while(he) { if (dictCompareKeys(d, key, he->key)) return he; he = he->next; }] *)
Definition find_body d key (he : option loc) : option (option loc + option loc) :=
  match he with
  | None => Some (inr None)
  | Some p =>
    e ← dict_entries d !! p;
    if dictCompareKeys key (de_key e) then Some (inr (Some p)) else Some (inl (de_next e))
  end.

Definition bucket_index d (t h : Z) : Z := u32 (Z.land h (ht_sizemask (ht d t))).

Definition find_in d key (h t : Z) : option (option loc) :=
  he ← table_get (ht d t) (bucket_index d t h);
  loop (chain_fuel d) (find_body d key) he.

Definition dictFind d key : option (option loc * dict K V) :=
  if ht_size (ht0 d) =? 0 then Some (None, d)
  else
    d ← rehash_step_if d;
    let h := dictHashKey key in
    r ← for_tables d (find_in d key h);
    Some (r, d).

(** The value of an entry; [NULL] and an unset value are [None]. *)
Definition dictFetchValue d key : option (option V * dict K V) :=
  '(he, d) ← dictFind d key;
  match he with
  | None => Some (None, d)
  | Some p => e ← dict_entries d !! p; Some (de_val e, d)
  end.

Definition _dictExpandIfNeeded d : option (Z * dict K V) :=
  if dictIsRehashing d then Some (DICT_OK, d)
  else if ht_size (ht0 d) =? 0 then dictExpand d DICT_HT_INITIAL_SIZE
  else if (ht_used (ht0 d) >=? ht_size (ht0 d)) &&
          (dict_can_resize g || (ht_used (ht0 d) / ht_size (ht0 d) >? dict_force_resize_ratio g))
  then dictExpand d (u64 (ht_used (ht0 d) * 2))
  else Some (DICT_OK, d).

(** The result is the [int] the unsigned index is converted to. *)
Definition _dictKeyIndex d key : option (Z * dict K V) :=
  '(r, d) ← _dictExpandIfNeeded d;
  if r =? DICT_ERR then Some (-1, d)
  else
    let h := dictHashKey key in
    found ← for_tables d (find_in d key h);
    match found with
    | Some _ => Some (-1, d)
    | None => Some (s32 (bucket_index d (if dictIsRehashing d then 1 else 0) h), d)
    end.

(** ** Insertion *)

Definition dictAddRaw d key : option (option loc * dict K V) :=
  d ← rehash_step_if d;
  '(index, d) ← _dictKeyIndex d key;
  if index =? -1 then Some (None, d)
  else
    let t := if dictIsRehashing d then 1 else 0 in
    let entry := new_entry (dom (dict_entries d)) in
    next ← table_get (ht d t) index;
    let d := set_entries d (<[entry := DictEntry (dup_key key) None next]> (dict_entries d)) in
    h ← table_set (ht d t) index (Some entry);
    Some (Some entry, set_ht d t (add_used 1 h)).

Definition dictAdd d key val : option (Z * dict K V) :=
  '(entry, d) ← dictAddRaw d key;
  match entry with
  | None => Some (DICT_ERR, d)
  | Some p => d ← dictSetVal d p val; Some (DICT_OK, d)
  end.

Definition dictReplace d key val : option (Z * dict K V) :=
  '(r, d) ← dictAdd d key val;
  if r =? DICT_OK then Some (1, d)
  else
    '(entry, d) ← dictFind d key;
    p ← entry;
    auxentry ← dict_entries d !! p;
    d ← dictSetVal d p val;
    Some (0, dictFreeVal d auxentry).

Definition dictReplaceRaw d key : option (option loc * dict K V) :=
  '(entry, d) ← dictFind d key;
  match entry with
  | Some p => Some (Some p, d)
  | None => dictAddRaw d key
  end.

(** ** Deletion *)

(** [while(he) { ... }] of [dictGenericDelete] in bucket [idx] of table [t]. *)
Definition delete_body d key (nofree : bool) (t idx : Z) (s : option loc * option loc) :
    option (option loc * option loc + option (dict K V)) :=
  let '(prevHe, he) := s in
  match he with
  | None => Some (inr None)
  | Some p =>
    e ← dict_entries d !! p;
    if dictCompareKeys key (de_key e) then
      d ← (match prevHe with
           | Some q => store_entry d q (set_next (de_next e))
           | None => h ← table_set (ht d t) idx (de_next e); Some (set_ht d t h)
           end);
      let d := if nofree then d else dictFreeVal (dictFreeKey d e) e in
      let d := set_entries d (delete p (dict_entries d)) in
      Some (inr (Some (set_ht d t (add_used (-1) (ht d t)))))
    else Some (inl (Some p, de_next e))
  end.

Definition delete_in d key (nofree : bool) (h t : Z) : option (option (dict K V)) :=
  let idx := bucket_index d t h in
  he ← table_get (ht d t) idx;
  loop (chain_fuel d) (delete_body d key nofree t idx) (None, he).

Definition dictGenericDelete d key (nofree : bool) : option (Z * dict K V) :=
  if ht_size (ht0 d) =? 0 then Some (DICT_ERR, d)
  else
    d ← rehash_step_if d;
    let h := dictHashKey key in
    r ← for_tables d (delete_in d key nofree h);
    match r with
    | Some d => Some (DICT_OK, d)
    | None => Some (DICT_ERR, d)
    end.

Definition dictDelete d key : option (Z * dict K V) := dictGenericDelete d key false.
Definition dictDeleteNoFree d key : option (Z * dict K V) := dictGenericDelete d key true.

(** The inner loop of [_dictClear]: frees the chain of table [t] from [he]. *)
Definition clear_chain_body (t : Z) (s : dict K V * option loc) :
    option (dict K V * option loc + dict K V) :=
  let '(d, he) := s in
  match he with
  | None => Some (inr d)
  | Some p =>
    e ← dict_entries d !! p;
    let nextHe := de_next e in
    let d := dictFreeVal (dictFreeKey d e) e in
    let d := set_entries d (delete p (dict_entries d)) in
    Some (inl (set_ht d t (add_used (-1) (ht d t)), nextHe))
  end.

Definition clear_body (t : Z) (callback : bool) (s : dict K V * Z) :
    option (dict K V * Z + dict K V) :=
  let '(d, i) := s in
  if (i <? ht_size (ht d t)) && (0 <? ht_used (ht d t)) then
    let d := if callback && (Z.land i 65535 =? 0) then log_event d Callback else d in
    he ← table_get (ht d t) i;
    d ← loop (chain_fuel d) (clear_chain_body t) (d, he);
    Some (inl (d, i + 1))
  else Some (inr d).

Definition _dictClear d (t : Z) (callback : bool) : option (Z * dict K V) :=
  d ← loop (S (Z.to_nat (ht_size (ht d t)))) (clear_body t callback) (d, 0);
  Some (DICT_OK, set_ht d t _dictReset).

Definition dictEmpty d (callback : bool) : option (dict K V) :=
  '(_, d) ← _dictClear d 0 callback;
  '(_, d) ← _dictClear d 1 callback;
  Some (set_iterators (set_rehashidx d (-1)) 0).

(** The calls made before the dictionary itself is freed. *)
Definition dictRelease d : option (list (devent K V)) :=
  '(_, d) ← _dictClear d 0 false;
  '(_, d) ← _dictClear d 1 false;
  Some (dict_log d).

(** ** Iterators *)

(** [addr t] is the address of the array of table [t]. *)
Definition fingerprint_body (hash n : Z) : Z :=
  let hash := s64 (hash + n) in
  let hash := s64 (Z.lnot hash + s64 (Z.shiftl hash 21)) in
  let hash := Z.lxor hash (Z.shiftr hash 24) in
  let hash := s64 (s64 (hash + s64 (Z.shiftl hash 3)) + s64 (Z.shiftl hash 8)) in
  let hash := Z.lxor hash (Z.shiftr hash 14) in
  let hash := s64 (s64 (hash + s64 (Z.shiftl hash 2)) + s64 (Z.shiftl hash 4)) in
  let hash := Z.lxor hash (Z.shiftr hash 28) in
  s64 (hash + s64 (Z.shiftl hash 31)).

Definition dictFingerprint (addr : Z → Z) d : Z :=
  foldl fingerprint_body 0
    [addr 0; s64 (ht_size (ht0 d)); s64 (ht_used (ht0 d));
     addr 1; s64 (ht_size (ht1 d)); s64 (ht_used (ht1 d))].

Definition dictGetIterator : dictIterator := DictIterator (-1) 0 false None None 0.
Definition dictGetSafeIterator : dictIterator := DictIterator (-1) 0 true None None 0.

(** One turn of [while (1)] of [dictNext]; leaves with the entry or [NULL]. *)
Definition next_body (addr : Z → Z) (s : dict K V * dictIterator) :
    option (dict K V * dictIterator + option loc * dict K V * dictIterator) :=
  let '(d, it) := s in
  let '(DictIterator index t safe entry nextEntry fp) := it in
  let save entry d index t fp :=
    match entry with
    | Some p =>
      e ← dict_entries d !! p;
      Some (inr (Some p, d, DictIterator index t safe (Some p) (de_next e) fp))
    | None => Some (inl (d, DictIterator index t safe None nextEntry fp))
    end in
  match entry with
  | None =>
    let h := ht d t in
    let first := (index =? -1) && (t =? 0) in
    let d := if first && safe then set_iterators d (iterators d + 1) else d in
    let fp := if first && negb safe then dictFingerprint addr d else fp in
    let index := index + 1 in
    if index >=? s64 (ht_size h) then
      if dictIsRehashing d && (t =? 0) then
        entry ← table_get (ht1 d) 0;
        save entry d 0 1 fp
      else Some (inr (None, d, DictIterator index t safe None nextEntry fp))
    else
      entry ← table_get h index;
      save entry d index t fp
  | Some _ => save nextEntry d index t fp
  end.

Definition dictNext (addr : Z → Z) d (it : dictIterator) :
    option (option loc * dict K V * dictIterator) :=
  loop (4 + Z.to_nat (ht_size (ht0 d)) + Z.to_nat (ht_size (ht1 d))) (next_body addr) (d, it).

Definition dictReleaseIterator (addr : Z → Z) d (it : dictIterator) : option (dict K V) :=
  if (it_index it =? -1) && (it_table it =? 0) then Some d
  else if it_safe it then Some (set_iterators d (iterators d - 1))
  else check it_fingerprint it =? dictFingerprint addr d ;; Some d.

(** ** Sampling; [rnd] holds the values [random()] returns *)

(** [do { ... } while(he == NULL)] *)
Definition random_bucket_body d (rnd : list Z) : option (list Z + loc * list Z) :=
  '(r, rnd) ← random rnd;
  he ← (if dictIsRehashing d then
          let n := u64 (ht_size (ht0 d) + ht_size (ht1 d) - rehashidx d) in
          check negb (n =? 0) ;;
          let h := u32 (rehashidx d + r mod n) in
          if h >=? ht_size (ht0 d) then table_get (ht1 d) (h - ht_size (ht0 d))
          else table_get (ht0 d) h
        else table_get (ht0 d) (u32 (Z.land r (ht_sizemask (ht0 d)))));
  match he with
  | None => Some (inl rnd)
  | Some p => Some (inr (p, rnd))
  end.

(** [while(he) { he = he->next; listlen++; }] *)
Definition listlen_body d (s : option loc * Z) : option (option loc * Z + Z) :=
  let '(he, listlen) := s in
  match he with
  | None => Some (inr listlen)
  | Some p => e ← dict_entries d !! p; Some (inl (de_next e, listlen + 1))
  end.

(** [while(listele--) he = he->next;] *)
Fixpoint skip_entries d (n : nat) (he : option loc) : option (option loc) :=
  match n with
  | O => Some he
  | S n => p ← he; e ← dict_entries d !! p; skip_entries d n (de_next e)
  end.

Definition dictGetRandomKey d (rnd : list Z) : option (option loc * dict K V * list Z) :=
  if dictSize d =? 0 then Some (None, d, rnd)
  else
    d ← rehash_step_if d;
    '(he, rnd) ← loop (S (length rnd)) (random_bucket_body d) rnd;
    listlen ← loop (chain_fuel d) (listlen_body d) (Some he, 0);
    '(r, rnd) ← random rnd;
    he ← skip_entries d (Z.to_nat (r mod listlen)) (Some he);
    Some (he, d, rnd).

(** [for (j = 0; j < count; j++) { if (dictIsRehashing(d)) _dictRehashStep(d); else break; }] *)
Fixpoint some_keys_rehash d (count : nat) : option (dict K V) :=
  match count with
  | O => Some d
  | S n => if dictIsRehashing d then d ← _dictRehashStep d; some_keys_rehash d n else Some d
  end.

(** [while (he) { ... }]: leaves with the collected entries and whether there are enough. *)
Definition collect_body d (count : Z) (s : option loc * list loc) :
    option (option loc * list loc + list loc * bool) :=
  let '(he, des) := s in
  match he with
  | None => Some (inr (des, false))
  | Some p =>
    e ← dict_entries d !! p;
    let des := des ++ [p] in
    if zlen des =? count then Some (inr (des, true)) else Some (inl (de_next e, des))
  end.

(** The body of [for (j = 0; j < tables; j++)]; [inr] is [return stored]. *)
Definition some_keys_table d (count tables maxsizemask j : Z) (s : sampling) :
    option (sampling + sampling) :=
  let '(des, i, emptylen, rnd) := s in
  if (tables =? 2) && (j =? 0) && (i <? u32 (rehashidx d)) then
    Some (inl (des, if i >=? ht_size (ht1 d) then u32 (rehashidx d) else i, emptylen, rnd))
  else if i >=? ht_size (ht d j) then Some (inl (des, i, emptylen, rnd))
  else
    he ← table_get (ht d j) i;
    match he with
    | None =>
      let emptylen := emptylen + 1 in
      if (emptylen >=? 5) && (emptylen >? count) then
        '(r, rnd) ← random rnd;
        Some (inl (des, u32 (Z.land r maxsizemask), 0, rnd))
      else Some (inl (des, i, emptylen, rnd))
    | Some _ =>
      '(des, enough) ← loop (chain_fuel d) (collect_body d count) (he, des);
      if enough : bool then Some (inr (des, i, 0, rnd)) else Some (inl (des, i, 0, rnd))
    end.

(** The body of [while(stored < count && maxsteps--)]. *)
Definition some_keys_body d (count tables maxsizemask : Z) (s : sampling * Z) :
    option (sampling * Z + sampling) :=
  let '(s, maxsteps) := s in
  let '(des, i, emptylen, rnd) := s in
  if negb (zlen des <? count) || (maxsteps =? 0) then Some (inr s)
  else
    let maxsteps := maxsteps - 1 in
    r ← some_keys_table d count tables maxsizemask 0 s;
    r ← (match r with
         | inl s => if tables =? 2 then some_keys_table d count tables maxsizemask 1 s
                    else Some (inl s)
         | inr s => Some (inr s)
         end);
    match r with
    | inr s => Some (inr s)
    | inl (des, i, emptylen, rnd) =>
      Some (inl ((des, Z.land (u32 (i + 1)) maxsizemask, emptylen, rnd), maxsteps))
    end.

(** The entries stored in [des]. *)
Definition dictGetSomeKeys d (count : Z) (rnd : list Z) : option (list loc * dict K V * list Z) :=
  let count := if dictSize d <? count then u32 (dictSize d) else count in
  let maxsteps := u32 (count * 10) in
  d ← some_keys_rehash d (Z.to_nat count);
  let tables := if dictIsRehashing d then 2 else 1 in
  let maxsizemask := u32 (ht_sizemask (ht0 d)) in
  let maxsizemask :=
    if (tables >? 1) && (maxsizemask <? ht_sizemask (ht1 d)) then u32 (ht_sizemask (ht1 d))
    else maxsizemask in
  '(r, rnd) ← random rnd;
  let i := u32 (Z.land r maxsizemask) in
  '(des, _, _, rnd) ←
    loop (S (Z.to_nat maxsteps)) (some_keys_body d count tables maxsizemask) (([], i, 0, rnd), maxsteps);
  Some (des, d, rnd).

(** ** [dictScan] *)

(** [while(de) { fn(privdata, de); de = de->next; }]: the entries passed to [fn]. *)
Definition emit_body d (s : option loc * list loc) : option (option loc * list loc + list loc) :=
  let '(de, out) := s in
  match de with
  | None => Some (inr out)
  | Some p => e ← dict_entries d !! p; Some (inl (de_next e, out ++ [p]))
  end.

Definition emit_bucket d (h : dictht) (i : Z) (out : list loc) : option (list loc) :=
  de ← table_get h i;
  loop (chain_fuel d) (emit_body d) (de, out).

(** [while ((s >>= 1) > 0) { ... }] of [rev]. *)
Definition rev_body (st : Z * Z * Z) : option (Z * Z * Z + Z) :=
  let '(s, mask, v) := st in
  let s := Z.shiftr s 1 in
  if s >? 0 then
    let mask := Z.lxor mask (u64 (Z.shiftl mask s)) in
    let v := Z.lor (Z.land (Z.shiftr v s) mask)
                   (Z.land (u64 (Z.shiftl v s)) (u64 (Z.lnot mask))) in
    Some (inl (s, mask, v))
  else Some (inr v).

Definition rev (v : Z) : option Z := loop 8 rev_body (64, u64 (-1), v).

(** [do { ... } while (v & (m0 ^ m1))] *)
Definition scan_body d (t1 : dictht) (m0 m1 : Z) (s : Z * list loc) :
    option (Z * list loc + Z * list loc) :=
  let '(v, out) := s in
  out ← emit_bucket d t1 (Z.land v m1) out;
  let v := Z.lor (Z.land (u64 (Z.lor v m0 + 1)) (u64 (Z.lnot m0))) (Z.land v m0) in
  if Z.land v (Z.lxor m0 m1) =? 0 then Some (inr (v, out)) else Some (inl (v, out)).

(** The reverse increment of a cursor under the mask [m0]. *)
Definition next_cursor (v m0 : Z) : option Z :=
  let v := Z.lor v (u64 (Z.lnot m0)) in
  v ← rev v;
  rev (u64 (v + 1)).

(** The new cursor and the entries passed to [fn]. *)
Definition dictScan d (v : Z) : option (Z * list loc) :=
  if dictSize d =? 0 then Some (0, [])
  else
    '(v, m0, out) ←
      (if negb (dictIsRehashing d) then
         let m0 := ht_sizemask (ht0 d) in
         out ← emit_bucket d (ht0 d) (Z.land v m0) [];
         Some (v, m0, out)
       else
         let '(t0, t1) := if ht_size (ht0 d) >? ht_size (ht1 d) then (ht1 d, ht0 d)
                          else (ht0 d, ht1 d) in
         let m0 := ht_sizemask t0 in
         let m1 := ht_sizemask t1 in
         out ← emit_bucket d t0 (Z.land v m0) [];
         '(v, out) ← loop (S (Z.to_nat (ht_size t1))) (scan_body d t1 m0 m1) (v, out);
         Some (v, m0, out));
    v ← next_cursor v m0;
    Some (v, out).
End ops.
