(* ===== verification/DictSpec.v ===== *)
(** * Correctness of the hash tables of [Dict]

    The representation invariant [dict_wf], the functional behaviour of every
    operation on it, and the refinement of a finite map by [dictAdd],
    [dictReplace], [dictDelete], [dictFind] and the resizing operations. *)

From S2P Require Import Prelude Dict.

#[local] Open Scope Z_scope.

(** ** Masks and sizes *)

Lemma land_mask h k : 0 ≤ k → Z.land h (2 ^ k - 1) = h mod 2 ^ k.
Proof. intros. by rewrite <-Z.land_ones, Z.ones_equiv. Qed.

Lemma land_mask_range h k : 0 ≤ k → 0 ≤ Z.land h (2 ^ k - 1) < 2 ^ k.
Proof. intros. rewrite land_mask by done. apply Z.mod_pos_bound. lia. Qed.

Lemma pow2_bounds k a b : 0 ≤ a → a ≤ k ≤ b → 2 ^ a ≤ 2 ^ k ≤ 2 ^ b.
Proof. intros. split; apply Z.pow_le_mono_r; lia. Qed.

Lemma pow2_double k : 0 ≤ k → 2 ^ (k + 1) = 2 * 2 ^ k.
Proof. intros. rewrite Z.pow_add_r by lia. lia. Qed.

(** [_dictNextPower] is the least power of two from 4 on that is large enough. *)
Lemma next_power_loop size k n :
  2 ≤ k ≤ 63 → 2 ^ 63 ≤ 2 ^ k * 2 ^ Z.of_nat n → size ≤ 2 ^ 63 - 1 → (k = 2 ∨ 2 ^ (k - 1) < size) →
  ∃ j, k ≤ j ≤ 63 ∧ loop (S n) (next_power_body size) (2 ^ k) = Some (2 ^ j) ∧ size ≤ 2 ^ j ∧
       (j = 2 ∨ 2 ^ (j - 1) < size).
Proof.
  revert k. induction n as [|n IH]; intros k Hk Hn Hs Hlo; cbn [loop]; unfold next_power_body at 1;
    destruct (2 ^ k >=? size) eqn:E.
  - exists k. by repeat split; try lia.
  - change (2 ^ Z.of_nat 0) with 1 in Hn. lia.
  - exists k. by repeat split; try lia.
  - assert (k < 63). { destruct (Z.eq_dec k 63) as [->|]; lia. }
    assert (u64 (2 ^ k * 2) = 2 ^ (k + 1)) as ->.
    { rewrite Z.mul_comm, <-pow2_double by lia. apply wrap_small.
      pose proof (pow2_bounds (k + 1) 0 63). rlia. }
    destruct (IH (k + 1)) as (j & Hj & Hl & Hle & Hlt); [lia| |lia| |].
    { rewrite pow2_double, <-Z.mul_assoc, (Z.mul_comm 2), <-Z.mul_assoc by lia.
      rewrite Nat2Z.inj_succ, Z.pow_succ_r in Hn by lia. lia. }
    { right. replace (k + 1 - 1) with k by lia. lia. }
    exists j. by repeat split; try lia.
Qed.

Lemma next_power_run size :
  size < PORT_LONG_MAX →
  ∃ j, 2 ≤ j ≤ 63 ∧ _dictNextPower size = Some (2 ^ j) ∧ size ≤ 2 ^ j ∧ (j = 2 ∨ 2 ^ (j - 1) < size).
Proof.
  intros Hs. unfold _dictNextPower. destruct (size >=? PORT_LONG_MAX) eqn:E; [lia|].
  apply (next_power_loop size 2 63); unfold PORT_LONG_MAX in *; lia.
Qed.

(** A size below [2^30] doubled still gives a table whose indices fit an [int]. *)
Lemma next_power_small size :
  0 ≤ size ≤ 2 ^ 31 →
  ∃ j, 2 ≤ j ≤ 31 ∧ _dictNextPower size = Some (2 ^ j) ∧ size ≤ 2 ^ j.
Proof.
  intros Hs. destruct (next_power_run size) as (j & Hj & Hr & Hle & Hlt); [unfold PORT_LONG_MAX; lia|].
  exists j. repeat split; try done; [lia|]. destruct Hlt as [->|Hlt]; [lia|].
  destruct (decide (j ≤ 31)) as [|Hn]; [done|]. pose proof (pow2_bounds (j - 1) 31 62). lia.
Qed.

(** ** Chains *)

Section chains.
Context {K V : Type}.
Implicit Types (m : gmap loc (dictEntry K V)) (p : option loc) (l : list loc).

Definition contents m : gmap loc (K * option V) := (λ e, (de_key e, de_val e)) <$> m.

#[global] Arguments contents : simpl never.

Fixpoint chain m p l : Prop :=
  match l with
  | [] => p = None
  | x :: l => p = Some x ∧ ∃ e, m !! x = Some e ∧ chain m (de_next e) l
  end.

Lemma chain_agree m m' p l :
  (∀ x, x ∈ l → m' !! x = m !! x) → chain m p l → chain m' p l.
Proof.
  revert p. induction l as [|x l IH]; intros p Ha; simpl; [done|].
  intros [-> (e & He & Hc)]. split; [done|]. exists e.
  rewrite Ha by set_solver. split; [done|]. apply IH; [|done]. intros. apply Ha. set_solver.
Qed.

Lemma chain_insert m p l x e : x ∉ l → chain m p l → chain (<[x := e]> m) p l.
Proof. intros Hx. apply chain_agree. intros y Hy. rewrite lookup_insert_ne; [done|]. by intros ->. Qed.

Lemma chain_delete m p l x : x ∉ l → chain m p l → chain (delete x m) p l.
Proof. intros Hx. apply chain_agree. intros y Hy. rewrite lookup_delete_ne; [done|]. by intros ->. Qed.

Lemma chain_alloc m p l x : chain m p l → x ∈ l → ∃ e, m !! x = Some e.
Proof.
  revert p. induction l as [|y l IH]; intros p; simpl; [set_solver|].
  intros [-> (e & He & Hc)] [->|Hx]%elem_of_cons; eauto.
Qed.

Lemma chain_nil m l : chain m None l → l = [].
Proof. destruct l as [|x l]; [done|]. by intros [? _]. Qed.

Lemma chain_cons_inv m x l : chain m (Some x) l →
  ∃ e l', l = x :: l' ∧ m !! x = Some e ∧ chain m (de_next e) l'.
Proof. destruct l as [|y l]; [done|]. intros [[= <-] (e & He & Hc)]. eauto. Qed.

(** Chains of a well-formed table are shorter than the fuel of the loops. *)
Lemma chain_length m (l : list loc) :
  NoDup l → (∀ x, x ∈ l → is_Some (m !! x)) → (length l ≤ size m)%nat.
Proof.
  intros Hnd Hl. rewrite <-size_dom, <-(size_list_to_set (C := gset loc) l) by done.
  apply subseteq_size. intros x Hx%elem_of_list_to_set. apply elem_of_dom. auto.
Qed.

Lemma contents_lookup m x : contents m !! x = (λ e, (de_key e, de_val e)) <$> m !! x.
Proof. apply lookup_fmap. Qed.

Lemma contents_Some m x e : m !! x = Some e → contents m !! x = Some (de_key e, de_val e).
Proof. intros H. by rewrite contents_lookup, H. Qed.

Lemma contents_Some_inv m x kv :
  contents m !! x = Some kv → ∃ e, m !! x = Some e ∧ kv = (de_key e, de_val e).
Proof. rewrite contents_lookup. intros (e & -> & He)%fmap_Some. eauto. Qed.

Lemma contents_set_next m x e p :
  m !! x = Some e → contents (<[x := set_next p e]> m) = contents m.
Proof.
  intros He. unfold contents. rewrite fmap_insert. simpl. apply insert_id.
  rewrite lookup_fmap, He. done.
Qed.

Lemma contents_dom m : dom (contents m) = dom m.
Proof. apply dom_fmap_L. Qed.

Lemma contents_size m m' : contents m = contents m' → size m = size m'.
Proof. intros H. rewrite <-!size_dom, <-!contents_dom, H. done. Qed.
End chains.

(** ** The laws of a [dictType] *)

Class DictTypeOk {K V} `{EqDecision K} (T : dictType K V) := {
  hash_range k : in_u 32 (hashFunction T k);
  compare_eq k1 k2 : dictCompareKeys T k1 k2 = bool_decide (k1 = k2);
  dup_key_eq k : dup_key T k = k;
}.

(** ** Well-formed tables *)

Section wf.
Context {K V : Type} `{!EqDecision K} (T : dictType K V).
Implicit Types (m : gmap loc (dictEntry K V)) (h : dictht) (bs : list (list loc)) (d : dict K V).

(** Entries are in the bucket of the hash of their key. *)
Definition placed (c : gmap loc (K * option V)) (mask : Z) bs : Prop :=
  ∀ i b p, bs !! i = Some b → p ∈ b →
    ∃ k v, c !! p = Some (k, v) ∧ Z.land (hashFunction T k) mask = Z.of_nat i.

Definition sized h (k : Z) : Prop :=
  2 ≤ k ≤ 31 ∧ ht_size h = 2 ^ k ∧ ht_sizemask h = 2 ^ k - 1.

Definition table_ok m h bs : Prop :=
  ht_used h = zlen (mjoin bs) ∧
  match ht_table h with
  | None => h = _dictReset ∧ bs = []
  | Some t => (∃ k, sized h k) ∧ zlen t = ht_size h ∧ Forall2 (chain m) t bs ∧
              placed (contents m) (ht_sizemask h) bs
  end.

Definition unique_keys (c : gmap loc (K * option V)) : Prop :=
  ∀ p q k v w, c !! p = Some (k, v) → c !! q = Some (k, w) → p = q.

Record dict_rep d (b0 b1 : list (list loc)) : Prop := {
  rep_t0 : table_ok (dict_entries d) (ht0 d) b0;
  rep_t1 : table_ok (dict_entries d) (ht1 d) b1;
  rep_nodup : NoDup (mjoin b0 ++ mjoin b1);
  rep_dom : dom (dict_entries d) = list_to_set (mjoin b0 ++ mjoin b1);
  rep_keys : unique_keys (contents (dict_entries d));
  rep_bound : Z.of_nat (size (dict_entries d)) ≤ 2 ^ 30;
  rep_rehash :
    if dictIsRehashing d
    then 0 ≤ rehashidx d < ht_size (ht0 d) ∧ ht_size (ht1 d) ≠ 0 ∧
         ∀ i, Z.of_nat i < rehashidx d → b0 !! i = Some []
    else ht1 d = _dictReset;
}.

Definition dict_wf d : Prop := ∃ b0 b1, dict_rep d b0 b1.
End wf.

(** ** Buckets *)

(** The entries outside bucket [i]. *)
Definition others (bs : list (list loc)) (i : nat) : list loc := mjoin (<[i := []]> bs).

Lemma join_insert (bs : list (list loc)) i b b' :
  bs !! i = Some b → mjoin (<[i := b']> bs) ≡ₚ b' ++ others bs i.
Proof.
  intros Hi. pose proof (lookup_lt_Some _ _ _ Hi). unfold others.
  rewrite !insert_take_drop by done. rewrite !join_app. simpl. solve_Permutation.
Qed.

Lemma join_split (bs : list (list loc)) i b : bs !! i = Some b → mjoin bs ≡ₚ b ++ others bs i.
Proof. intros Hi. rewrite <-(join_insert bs i b b Hi). by rewrite list_insert_id. Qed.

Lemma elem_of_bucket (bs : list (list loc)) i b x : bs !! i = Some b → x ∈ b → x ∈ mjoin bs.
Proof. intros Hi Hx. rewrite (join_split _ _ _ Hi). set_solver. Qed.

Lemma elem_of_others (bs : list (list loc)) i b x : bs !! i = Some b → x ∈ others bs i → x ∈ mjoin bs.
Proof. intros Hi Hx. rewrite (join_split _ _ _ Hi). set_solver. Qed.

Lemma others_bucket (bs : list (list loc)) i j b x :
  bs !! j = Some b → i ≠ j → x ∈ b → x ∈ others bs i.
Proof.
  intros Hj Hne Hx. unfold others. apply (elem_of_bucket _ j b); [|done]. by rewrite list_lookup_insert_ne.
Qed.

Section tables.
Context {K V : Type} `{!EqDecision K} (T : dictType K V) `{!DictTypeOk T}.
Implicit Types (m : gmap loc (dictEntry K V)) (h : dictht) (bs : list (list loc)) (d : dict K V).

Lemma table_ok_agree m m' h bs :
  (∀ x, x ∈ mjoin bs → m' !! x = m !! x) → table_ok T m h bs → table_ok T m' h bs.
Proof.
  intros Ha [Hu Ht]. split; [done|]. destruct (ht_table h) as [t|]; [|done].
  destruct Ht as (Hk & Hl & Hc & Hp). do 2 (split; [done|]). split.
  - apply Forall2_same_length_lookup in Hc as [Hlen Hc].
    apply Forall2_same_length_lookup. split; [done|]. intros i p b Hi Hb.
    eapply chain_agree; [|by eauto]. intros x Hx. apply Ha. by eapply elem_of_bucket.
  - intros i b p Hi Hb. destruct (Hp i b p Hi Hb) as (k & v & Hc' & Hm). exists k, v. split; [|done].
    rewrite contents_lookup, Ha by (by eapply elem_of_bucket). by rewrite <-contents_lookup.
Qed.

Lemma table_ok_size0 m h bs : table_ok T m h bs → ht_size h ≠ 0 ↔ ht_table h ≠ None.
Proof.
  intros [_ Ht]. destruct (ht_table h) as [t|].
  - destruct Ht as ((k & ? & -> & _) & _). split; [done|]. pose proof (pow2_bounds k 0 31). lia.
  - destruct Ht as [-> _]. done.
Qed.

Lemma table_ok_length m h bs : table_ok T m h bs → zlen bs = ht_size h.
Proof.
  intros [_ Ht]. destruct (ht_table h) as [t|]; [|by destruct Ht as [-> ->]].
  destruct Ht as (_ & <- & Hc & _). by rewrite (Forall2_length _ _ _ Hc).
Qed.

Lemma table_ok_sized m h bs : table_ok T m h bs → ht_size h ≠ 0 → ∃ k, sized h k.
Proof.
  intros Hok Hs. pose proof (proj1 (table_ok_size0 _ _ _ Hok) Hs) as Ht.
  destruct Hok as [_ Hok]. destruct (ht_table h); [|done]. by destruct Hok.
Qed.

Lemma mask_index m h bs x :
  table_ok T m h bs → ht_size h ≠ 0 → 0 ≤ Z.land x (ht_sizemask h) < ht_size h.
Proof.
  intros Hok Hs. destruct (table_ok_sized _ _ _ Hok Hs) as (k & Hk & -> & ->).
  apply land_mask_range. lia.
Qed.

Lemma table_size_31 m h bs : table_ok T m h bs → 0 ≤ ht_size h ≤ 2 ^ 31.
Proof.
  intros Hok. destruct (decide (ht_size h = 0)) as [->|Hs]; [lia|].
  destruct (table_ok_sized _ _ _ Hok Hs) as (k & Hk & -> & _). pose proof (pow2_bounds k 0 31). lia.
Qed.

(** A bucket inside the table holds the head of its chain. *)
Lemma table_get_ok m h bs i :
  table_ok T m h bs → 0 ≤ i < ht_size h →
  ∃ p b, table_get h i = Some p ∧ bs !! Z.to_nat i = Some b ∧ chain m p b.
Proof.
  intros [Hu Ht] Hi. unfold table_get. destruct (ht_table h) as [t|]; [|destruct Ht as [-> _]; simpl in Hi; lia].
  destruct Ht as (_ & Hl & Hc & _). cbn. rewrite rd1_lookup by lia.
  destruct (lookup_lt_is_Some_2 t (Z.to_nat i)) as [p Hp]; [lia|].
  destruct (Forall2_lookup_l _ _ _ _ _ Hc Hp) as (b & Hb & Hch). eauto.
Qed.

Lemma table_get_empty m h bs i p b :
  table_ok T m h bs → table_get h i = Some p → bs !! Z.to_nat i = Some b → chain m p b →
  p = None ↔ b = [].
Proof.
  intros _ _ _ Hc. split; [intros ->; by eapply chain_nil|]. intros ->. by simpl in Hc.
Qed.

(** Replacing the chain of one bucket. *)
Lemma table_set_ok m m' h bs i b p' b' :
  table_ok T m h bs → 0 ≤ i → bs !! Z.to_nat i = Some b →
  chain m' p' b' →
  (∀ x, x ∈ others bs (Z.to_nat i) → m' !! x = m !! x) →
  (∀ x, x ∈ b' → ∃ k v, contents m' !! x = Some (k, v) ∧ Z.land (hashFunction T k) (ht_sizemask h) = i) →
  ∃ h', table_set h i p' = Some h' ∧ ht_used h' = ht_used h ∧ ht_size h' = ht_size h ∧
    ht_sizemask h' = ht_sizemask h ∧
    ∀ n, u64 (ht_used h + n) = zlen (b' ++ others bs (Z.to_nat i)) →
      table_ok T m' (add_used n h') (<[Z.to_nat i := b']> bs).
Proof.
  intros [Hu Ht] Hi Hb Hc Ha Hpl. unfold table_set.
  destruct (ht_table h) as [t|]; [|destruct Ht as [_ ->]; by rewrite lookup_nil in Hb].
  destruct Ht as (Hk & Hl & Hcs & Hp). cbn.
  pose proof (lookup_lt_Some _ _ _ Hb). pose proof (Forall2_length _ _ _ Hcs).
  rewrite wr1_insert by lia. cbn. eexists. split; [done|]. do 3 (split; [done|]).
  intros n Hn. split; cbn.
  - rewrite Hn, (join_insert _ _ b) by done. done.
  - split; [done|]. split; [by rewrite length_insert|]. split.
    + apply Forall2_same_length_lookup. apply Forall2_same_length_lookup in Hcs as [Hlen Hcs].
      split; [by rewrite !length_insert|]. intros j p c Hj Hj'.
      destruct (decide (j = Z.to_nat i)) as [->|Hne].
      * rewrite list_lookup_insert_eq in Hj by lia.
        rewrite list_lookup_insert_eq in Hj' by lia. by simplify_eq.
      * rewrite list_lookup_insert_ne in Hj by done.
        rewrite list_lookup_insert_ne in Hj' by done. eapply chain_agree; [|by eauto].
        intros x Hx. apply Ha. by eapply others_bucket.
    + intros j c x Hj Hx. destruct (decide (j = Z.to_nat i)) as [->|Hne].
      * rewrite list_lookup_insert_eq in Hj by lia. simplify_eq.
        destruct (Hpl x Hx) as (k & v & ? & Hm). exists k, v. split; [done|]. cbn. lia.
      * rewrite list_lookup_insert_ne in Hj by done.
        destruct (Hp j c x Hj Hx) as (k & v & Hkv & Hm). exists k, v. split; [|done].
        rewrite contents_lookup, Ha by (by eapply others_bucket). by rewrite <-contents_lookup.
Qed.
End tables.

(** ** Rehashing *)

Lemma add_used_used n h : ht_used (add_used n h) = u64 (ht_used h + n).
Proof. done. Qed.

Lemma add_used_add a b h : add_used a (add_used b h) = add_used (b + a) h.
Proof.
  unfold add_used. cbn. f_equal. unfold wrap. rewrite Z.add_mod_idemp_l by lia. f_equal. lia.
Qed.

Section rehash.
Context {K V : Type} `{!EqDecision K} (T : dictType K V) `{!DictTypeOk T}.
Implicit Types (m : gmap loc (dictEntry K V)) (h : dictht) (bs : list (list loc)) (d : dict K V).

Lemma bucket_of_hash m h bs k :
  table_ok T m h bs → ht_size h ≠ 0 →
  u32 (Z.land (hashFunction T k) (ht_sizemask h)) = Z.land (hashFunction T k) (ht_sizemask h).
Proof.
  intros Hok Hs. pose proof (mask_index T _ _ _ (hashFunction T k) Hok Hs).
  pose proof (table_size_31 T _ _ _ Hok). apply wrap_small. rlia.
Qed.

(** Moving a chain into the second table. *)
Lemma move_run (l : list loc) d de b1 n :
  chain (dict_entries d) de l → table_ok T (dict_entries d) (ht1 d) b1 → ht_size (ht1 d) ≠ 0 →
  NoDup (l ++ mjoin b1) → zlen (l ++ mjoin b1) < 2 ^ 63 → in_u 64 (ht_used (ht0 d)) →
  (length l < n)%nat →
  ∃ d' b1', loop n (move_body T) (d, de) = Some d' ∧
    contents (dict_entries d') = contents (dict_entries d) ∧
    (∀ x, x ∉ l → x ∉ mjoin b1 → dict_entries d' !! x = dict_entries d !! x) ∧
    table_ok T (dict_entries d') (ht1 d') b1' ∧ ht_size (ht1 d') = ht_size (ht1 d) ∧
    mjoin b1' ≡ₚ l ++ mjoin b1 ∧ ht0 d' = add_used (- zlen l) (ht0 d) ∧
    rehashidx d' = rehashidx d ∧ iterators d' = iterators d ∧ dict_log d' = dict_log d.
Proof using DictTypeOk0.
  revert d de b1 n. induction l as [|x l IH]; intros d de b1 n Hc Ht Hs Hnd Hlen Hu Hn;
    (destruct n as [|n]; [simpl in Hn; lia|]).
  { simpl in Hc. subst de. exists d, b1. cbn. do 6 (split; [done|]). split; [|done].
    destruct (ht0 d). unfold add_used. cbn in *. f_equal. rewrite Z.add_0_r. by rewrite wrap_small. }
  destruct Hc as [-> (e & He & Hc)]. cbn [loop move_body]. rewrite He. mrun.
  pose proof (bucket_of_hash _ _ _ (de_key e) Ht Hs) as Hidx. unfold dictHashKey. rewrite Hidx.
  pose proof (mask_index T _ _ _ (hashFunction T (de_key e)) Ht Hs) as Hr.
  set (i := Z.land _ _) in *.
  destruct (table_get_ok T _ _ _ _ Ht Hr) as (p & b & Hget & Hb & Hcb). rewrite Hget. mrun.
  unfold store_entry. rewrite He. mrun.
  assert (x ∉ mjoin b1) as Hx.
  { apply NoDup_app in Hnd as (_ & Hd & _). apply Hd. set_solver. }
  assert (x ∉ l) as Hxl. { simpl in Hnd. apply NoDup_cons in Hnd as [Hn' _]. set_solver. }
  set (m' := <[x := set_next p e]> (dict_entries d)).
  assert (contents m' = contents (dict_entries d)) as Hcont by by apply contents_set_next.
  assert (∀ p l, x ∉ l → chain (dict_entries d) p l → chain m' p l) as Hfr
    by (intros; by apply chain_insert).
  assert (m' !! x = Some (set_next p e)) as Hmx by apply lookup_insert_eq.
  assert (∀ y, y ≠ x → m' !! y = dict_entries d !! y) as Hmy
    by (intros; by apply lookup_insert_ne).
  clearbody m'.
  destruct (table_set_ok T (dict_entries d) m' (ht1 d) b1 i b (Some x) (x :: b)) as
    (t1 & Hset & Hu1 & Hs1 & Hm1 & Hok); [done|lia|done| | | |].
  { simpl. split; [done|]. exists (set_next p e). split; [done|].
    simpl. apply Hfr; [|done]. intros Hxb. apply Hx. by eapply elem_of_bucket. }
  { intros y Hy. apply Hmy. intros ->. apply Hx.
    by eapply elem_of_others. }
  { intros y [->|Hy]%elem_of_cons.
    - exists (de_key e), (de_val e). rewrite Hcont. split; [by apply contents_Some|done].
    - rewrite Hcont. destruct Ht as [_ Ht]. destruct (ht_table (ht1 d)); [|destruct Ht as [_ ->]; by rewrite lookup_nil in Hb].
      destruct Ht as (_ & _ & _ & Hp). destruct (Hp _ _ _ Hb Hy) as (k & v & ? & Hk).
      exists k, v. split; [done|]. rewrite Hk. lia. }
  cbn [ht1 set_entries]. rewrite Hset. mrun. cbn [set_ht Z.eqb dict_entries ht0 ht1 rehashidx iterators dict_log set_entries].
  assert (zlen ((x :: b) ++ others b1 (Z.to_nat i)) = zlen (mjoin b1) + 1) as Hlen1.
  { rewrite (join_split _ _ _ Hb). rewrite !length_app. simpl. lia. }
  assert (ht_used (ht1 d) = zlen (mjoin b1)) as Hu1' by apply Ht.
  rewrite length_app in Hlen. simpl in Hlen.
  edestruct (IH (Dict m' (add_used (-1) (ht0 d)) (add_used 1 t1) (rehashidx d) (iterators d) (dict_log d))
    (de_next e) (<[Z.to_nat i := x :: b]> b1) n) as (d' & b1' & Hl & H1 & H2 & H3 & H4 & H5 & H6 & H7 & H8 & H9);
    cbn [dict_entries ht0 ht1].
  - by apply Hfr.
  - apply Hok. rewrite Hlen1, Hu1'. apply wrap_small. rlia.
  - cbn. lia.
  - rewrite (join_insert _ _ b) by done. rewrite (join_split _ _ _ Hb) in Hnd.
    eapply NoDup_Permutation_proper; [|exact Hnd]. simpl. solve_Permutation.
  - rewrite length_app. rewrite (join_insert _ _ b) by done. rewrite length_app in *. simpl in *. lia.
  - apply wrap_range. lia.
  - simpl in Hn. lia.
  - exists d', b1'. cbn [dict_entries ht0 ht1 rehashidx iterators dict_log] in H1, H2, H4, H6, H7, H8, H9. rewrite Hcont in H1.
    split; [exact Hl|]. split; [done|]. split.
    { intros y Hy Hy1. assert (y ≠ x) by set_solver. rewrite H2.
      - by apply Hmy.
      - set_solver.
      - rewrite (join_insert _ _ b) by done. rewrite (join_split _ _ _ Hb) in Hy1. set_solver. }
    split; [done|]. split; [rewrite H4; exact Hs1|]. split.
    { rewrite H5, (join_insert _ _ b), (join_split _ _ _ Hb) by done. solve_Permutation. }
    rewrite H6, add_used_add. split; [f_equal; simpl; lia|]. done.
Qed.
End rehash.

Section rehash_loop.
Context {K V : Type} `{!EqDecision K} (T : dictType K V) `{!DictTypeOk T}.
Implicit Types (m : gmap loc (dictEntry K V)) (h : dictht) (bs : list (list loc)) (d : dict K V).

(** A dictionary in the middle of a rehash; all buckets may have been moved. *)
Record rehashing d (b0 b1 : list (list loc)) : Prop := {
  rh_t0 : table_ok T (dict_entries d) (ht0 d) b0;
  rh_t1 : table_ok T (dict_entries d) (ht1 d) b1;
  rh_nodup : NoDup (mjoin b0 ++ mjoin b1);
  rh_dom : dom (dict_entries d) = list_to_set (mjoin b0 ++ mjoin b1);
  rh_keys : unique_keys (contents (dict_entries d));
  rh_bound : Z.of_nat (size (dict_entries d)) ≤ 2 ^ 30;
  rh_size0 : ht_size (ht0 d) ≠ 0;
  rh_size1 : ht_size (ht1 d) ≠ 0;
  rh_idx : 0 ≤ rehashidx d ≤ ht_size (ht0 d);
  rh_empty i : Z.of_nat i < rehashidx d → b0 !! i = Some [];
}.

(** What rehashing keeps, and the direction it goes. *)
Definition moved d d' : Prop :=
  contents (dict_entries d') = contents (dict_entries d) ∧ ht_size (ht0 d') = ht_size (ht0 d) ∧
  ht_size (ht1 d') = ht_size (ht1 d) ∧ iterators d' = iterators d ∧ dict_log d' = dict_log d ∧
  rehashidx d ≤ rehashidx d'.

Lemma moved_refl d : moved d d.
Proof. unfold moved. repeat split; lia || done. Qed.

Lemma moved_trans d1 d2 d3 : moved d1 d2 → moved d2 d3 → moved d1 d3.
Proof.
  intros (?&?&?&?&?&?) (?&?&?&?&?&?). unfold moved. repeat split; first [congruence|lia].
Qed.

Lemma rep_used_total d b0 b1 :
  NoDup (mjoin b0 ++ mjoin b1) → dom (dict_entries d) = list_to_set (mjoin b0 ++ mjoin b1) →
  size (dict_entries d) = length (mjoin b0 ++ mjoin b1).
Proof. intros Hnd Hd. by rewrite <-size_dom, Hd, size_list_to_set. Qed.

Lemma rehashing_bounds d b0 b1 : rehashing d b0 b1 →
  zlen (mjoin b0 ++ mjoin b1) ≤ 2 ^ 30 ∧ in_u 64 (ht_used (ht0 d)) ∧ in_u 64 (ht_used (ht1 d)).
Proof.
  intros [[Hu0 _] [Hu1 _] Hnd Hd _ Hb _ _ _ _]. rewrite (rep_used_total d b0 b1) in Hb by done.
  split; [done|]. rewrite length_app in Hb. rlia.
Qed.

Lemma nonempty_bucket bs (r : Z) :
  mjoin bs ≠ [] → (∀ i, Z.of_nat i < r → bs !! i = Some []) →
  ∃ (j : nat) x l, r ≤ Z.of_nat j ∧ bs !! j = Some (x :: l).
Proof.
  intros Hne He. destruct (mjoin bs) as [|x l0] eqn:E; [done|].
  assert (x ∈ mjoin bs) as Hx by (rewrite E; set_solver).
  apply list_elem_of_join in Hx as (b & Hx & Hb). apply list_elem_of_lookup in Hb as [j Hj].
  destruct b as [|y b]; [set_solver|]. exists j, y, b. split; [|done].
  destruct (decide (r ≤ Z.of_nat j)) as [|Hn]; [done|]. rewrite He in Hj by lia. done.
Qed.

Lemma skip_run (j : nat) x l b0 d ev n :
  table_ok T (dict_entries d) (ht0 d) b0 → 0 ≤ rehashidx d ≤ Z.of_nat j → b0 !! j = Some (x :: l) →
  (Z.to_nat (Z.of_nat j - rehashidx d) < n)%nat →
  ∃ r ev', loop n skip_body (d, ev) = Some (set_rehashidx d r, ev') ∧ rehashidx d ≤ r ≤ Z.of_nat j ∧
    (∀ i, rehashidx d ≤ Z.of_nat i < r → b0 !! i = Some []) ∧
    match ev' with
    | None => rehashidx d < r
    | Some _ => ∃ y b, b0 !! Z.to_nat r = Some (y :: b)
    end.
Proof using DictTypeOk0.
  revert d ev. induction n as [|n IH]; intros d ev Ht Hr Hj Hn; [lia|].
  pose proof (table_ok_length T _ _ _ Ht) as Hlen. pose proof (lookup_lt_Some _ _ _ Hj).
  destruct (table_get_ok T _ _ _ (rehashidx d) Ht) as (p & b & Hg & Hb & Hc); [lia|].
  cbn [loop skip_body]. rewrite Hg. mrun. destruct p as [y|].
  - exists (rehashidx d), (Some ev). split; [by destruct d|]. split; [lia|]. split; [lia|].
    apply chain_cons_inv in Hc as (e & b' & -> & _). eauto.
  - apply chain_nil in Hc as ->.
    assert (rehashidx d ≠ Z.of_nat j) by (intros Heq; rewrite Heq, Nat2Z.id in Hb; congruence).
    assert (∀ i r', rehashidx d + 1 ≤ r' →
      (∀ i, rehashidx d + 1 ≤ Z.of_nat i < r' → b0 !! i = Some []) →
      rehashidx d ≤ Z.of_nat i < r' → b0 !! i = Some []) as Hext.
    { intros i r' Hr' He Hi. destruct (decide (Z.of_nat i = rehashidx d)) as [Heq|]; [|apply He; lia].
      rewrite <-Heq, Nat2Z.id in Hb. done. }
    cbv zeta. destruct (ev - 1 =? 0).
    + exists (rehashidx d + 1), None. split; [done|]. split; [lia|]. split; [|lia].
      intros i Hi. apply (Hext i (rehashidx d + 1)); [lia|lia|done].
    + destruct (IH (set_rehashidx d (rehashidx d + 1)) (ev - 1)) as (r & ev' & Hl & Hb' & He & Hm);
        [done|cbn; lia|done|cbn; lia|].
      exists r, ev'. split; [exact Hl|]. cbn in Hb', He, Hm. split; [lia|].
      split; [intros i Hi; apply (Hext i r); [lia|exact He|done]|]. destruct ev'; [done|lia].
Qed.

Lemma table_get_add n h i : table_get (add_used n h) i = table_get h i.
Proof. done. Qed.

Lemma table_set_add n h i p : table_set (add_used n h) i p = add_used n <$> table_set h i p.
Proof.
  unfold table_set, add_used. cbn. destruct (ht_table h) as [t|]; [|done]. mrun.
  by destruct (wr1 t i p).
Qed.

(** One bucket: emptying bucket [r] of the first table into the second one. *)
Lemma move_bucket d b0 b1 (r : Z) y b :
  rehashing d b0 b1 → rehashidx d ≤ r < ht_size (ht0 d) → b0 !! Z.to_nat r = Some (y :: b) →
  (∀ i, Z.of_nat i < r → b0 !! i = Some []) →
  ∃ de d2 t0 b1', table_get (ht0 d) r = Some de ∧
    loop (chain_fuel d) (move_body T) (set_rehashidx d r, de) = Some d2 ∧
    table_set (ht0 d2) r None = Some t0 ∧ rehashidx d2 = r ∧
    let d' := set_rehashidx (set_ht d2 0 t0) (r + 1) in
    rehashing d' (<[Z.to_nat r := []]> b0) b1' ∧ moved d d'.
Proof using DictTypeOk0.
  intros [Ht0 Ht1 Hnd Hdom Hk Hb Hs0 Hs1 Hidx Hemp] Hr Hby Hemp'.
  destruct (rehashing_bounds d b0 b1) as (Hlen & Hu0 & Hu1); [done|].
  destruct (table_get_ok T _ _ _ r Ht0) as (de & b' & Hget & Hb' & Hc); [lia|].
  assert (b' = y :: b) as -> by congruence.
  pose proof (join_split _ _ _ Hby) as Hsplit.
  assert (NoDup ((y :: b) ++ others b0 (Z.to_nat r) ++ mjoin b1)) as Hnd'.
  { by rewrite Hsplit, <-app_assoc in Hnd. }
  apply NoDup_app in Hnd' as (Hnd1 & Hdis & Hnd2).
  apply NoDup_app in Hnd2 as (Hnd2 & Hdis2 & Hnd3).
  destruct (move_run T (y :: b) (set_rehashidx d r) de b1 (chain_fuel d)) as
    (d2 & b1' & Hloop & Hcont & Hout & Ht1' & Hs1' & Hj & Hh0 & Hri & Hit & Hlog); try done.
  { apply NoDup_app. split; [done|]. split; [|done]. intros x Hx Hx1. apply (Hdis x Hx). set_solver. }
  { rewrite Hsplit, !length_app in Hlen. rewrite length_app. lia. }
  { unfold chain_fuel. assert (length (y :: b) ≤ size (dict_entries d))%nat; [|lia].
    apply chain_length; [done|]. intros x Hx. destruct (chain_alloc _ _ _ x Hc Hx) as [e He]. eauto. }
  cbn in Hcont, Hout, Hs1', Hh0, Hri, Hit, Hlog.
  destruct (table_set_ok T (dict_entries d) (dict_entries d2) (ht0 d) b0 r (y :: b) None []) as
    (h' & Hset & Huh & Hsh & Hmh & Hok); [done|lia|done|done| |set_solver|].
  { intros x Hx. apply Hout; [intros Hin; apply (Hdis x Hin); set_solver|by apply Hdis2]. }
  exists de, d2, (add_used (- zlen (y :: b)) h'), b1'.
  split; [done|]. split; [exact Hloop|]. split; [by rewrite Hh0, table_set_add, Hset|]. split; [done|].
  assert (mjoin (<[Z.to_nat r := []]> b0) = others b0 (Z.to_nat r)) as Hoth by done.
  assert (Hsizes : size (dict_entries d2) = size (dict_entries d)) by by apply contents_size.
  split.
  - split; cbn [dict_entries ht0 ht1 rehashidx set_rehashidx set_ht Z.eqb].
    + apply Hok. destruct Ht0 as [-> _]. rewrite Hsplit, !length_app in Hlen.
      rewrite Hsplit, length_app, wrap_small by rlia. simpl. lia.
    + done.
    + rewrite Hoth, Hj. apply NoDup_app. split; [done|]. split.
      * intros x Hx. rewrite elem_of_app. intros [Hx1|Hx1]; [by apply (Hdis x Hx1); set_solver|].
        by apply (Hdis2 x).
      * apply NoDup_app. split; [done|]. split; [|done]. intros x Hx Hx1. apply (Hdis x Hx). set_solver.
    + rewrite <-contents_dom, Hcont, contents_dom, Hdom.
      apply list_to_set_perm_L. rewrite Hoth, Hj, Hsplit. solve_Permutation.
    + by rewrite Hcont.
    + by rewrite Hsizes.
    + cbn. by rewrite Hsh.
    + by rewrite Hs1'.
    + cbn. rewrite Hsh. lia.
    + intros i Hi. pose proof (lookup_lt_Some _ _ _ Hby).
      destruct (decide (i = Z.to_nat r)) as [->|Hne]; [by apply list_lookup_insert_eq|].
      rewrite list_lookup_insert_ne by done. apply Hemp'. lia.
  - unfold moved. cbn. rewrite Hsh, Hcont. repeat split; try done. lia.
Qed.

Lemma rehash_body_run d b0 b1 n ev :
  rehashing d b0 b1 → n ≠ 0 → ht_used (ht0 d) ≠ 0 →
  (∃ d', rehash_body T (d, n, ev) = Some (inr (d', true)) ∧ rehashing d' b0 b1 ∧ moved d d' ∧
     rehashidx d < rehashidx d' < ht_size (ht0 d')) ∨
  (∃ d' ev' b0' b1', rehash_body T (d, n, ev) = Some (inl (d', n - 1, ev')) ∧
     rehashing d' b0' b1' ∧ moved d d' ∧ rehashidx d < rehashidx d').
Proof using DictTypeOk0.
  intros Hrh Hn Hu. pose proof Hrh as [Ht0 Ht1 Hnd Hdom Hk Hb Hs0 Hs1 Hidx Hemp].
  destruct (nonempty_bucket b0 (rehashidx d)) as (j & x & l & Hj & Hbj); [|done|].
  { intros Hnil. destruct Ht0 as [Hu' _]. rewrite Hnil in Hu'. done. }
  pose proof (table_ok_length T _ _ _ Ht0) as Hlen. pose proof (lookup_lt_Some _ _ _ Hbj).
  pose proof (table_size_31 T _ _ _ Ht0).
  cbn [rehash_body]. destruct ((n =? 0) || _) eqn:E; [lia|]. cbv zeta.
  assert (u64 (rehashidx d) = rehashidx d) as -> by (apply wrap_small; rlia).
  destruct (ht_size (ht0 d) >? rehashidx d) eqn:E2; [|lia].
  destruct (skip_run j x l b0 d ev (S (Z.to_nat (ht_size (ht0 d))))) as (r & ev' & Hsk & Hr & He & Hev);
    [done|lia|done|lia|].
  rewrite Hsk. cbn [mbind option_bind].
  assert (∀ i, Z.of_nat i < r → b0 !! i = Some []) as Hemp'.
  { intros i Hi. destruct (decide (Z.of_nat i < rehashidx d)); [by apply Hemp|apply He; lia]. }
  destruct ev' as [ev'|].
  - right. destruct Hev as (y & b & Hby).
    destruct (move_bucket d b0 b1 r y b) as (de & d2 & t0 & b1' & Hg & Hl & Hset & Hri & Hrh' & Hmv);
      [done|lia|done|done|].
    cbn [ht0 rehashidx set_rehashidx]. rewrite Hg. cbn [mbind option_bind].
    change (chain_fuel (set_rehashidx d r)) with (chain_fuel d). rewrite Hl. cbn [mbind option_bind].
    rewrite Hri, Hset. cbn [mbind option_bind].
    eexists _, ev', _, b1'. split; [|split; [exact Hrh'|]].
    + do 4 f_equal. cbn. by rewrite Hri.
    + split; [done|]. cbn. lia.
  - left. exists (set_rehashidx d r). split; [done|]. split; [|split].
    + split; try done. cbn. lia.
    + unfold moved. cbn. repeat split; try done. lia.
    + cbn. lia.
Qed.

Lemma rehashing_idx_lt d b0 b1 :
  rehashing d b0 b1 → ht_used (ht0 d) ≠ 0 → rehashidx d < ht_size (ht0 d).
Proof using DictTypeOk0.
  intros [Ht0 _ _ _ _ _ _ _ Hidx Hemp] Hu.
  destruct (nonempty_bucket b0 (rehashidx d)) as (j & x & l & Hj & Hbj); [|done|].
  { intros Hnil. destruct Ht0 as [Hu' _]. rewrite Hnil in Hu'. done. }
  pose proof (table_ok_length T _ _ _ Ht0). pose proof (lookup_lt_Some _ _ _ Hbj). lia.
Qed.

Lemma rehash_loop_run fuel d b0 b1 n ev :
  rehashing d b0 b1 → 0 ≤ n → (Z.to_nat (ht_size (ht0 d) - rehashidx d) < fuel)%nat →
  ∃ d' out b0' b1', loop fuel (rehash_body T) (d, n, ev) = Some (d', out) ∧
    rehashing d' b0' b1' ∧ moved d d' ∧
    (if out : bool then rehashidx d < rehashidx d' < ht_size (ht0 d')
     else ht_used (ht0 d') = 0 ∨ n = 0 ∨ rehashidx d < rehashidx d').
Proof using DictTypeOk0.
  revert d b0 b1 n ev. induction fuel as [|fuel IH]; intros d b0 b1 n ev Hrh Hn Hf; [lia|].
  cbn [loop]. destruct (decide (n = 0 ∨ ht_used (ht0 d) = 0)) as [Hz|Hz].
  { exists d, false, b0, b1. split; [|split; [done|]].
    - cbn [rehash_body]. destruct ((n =? 0) || _) eqn:E; [done|lia].
    - split; [apply moved_refl|]. tauto. }
  destruct (rehash_body_run d b0 b1 n ev Hrh) as
    [(d' & -> & Hrh' & Hmv & Hi)|(d' & ev' & b0' & b1' & -> & Hrh' & Hmv & Hi)]; [lia|tauto| |].
  { exists d', true, b0, b1. by repeat split; try lia; try apply Hrh'; try apply Hmv. }
  destruct (IH d' b0' b1' (n - 1) ev' Hrh') as (d2 & out & c0 & c1 & Hl & Hrh2 & Hmv2 & Ho); [lia| |].
  { destruct Hmv as (_ & Hsz & _). pose proof (rh_idx _ _ _ Hrh'). lia. }
  assert (rehashidx d' ≤ rehashidx d2) by apply Hmv2.
  exists d2, out, c0, c1. split; [done|]. split; [done|]. split; [by eapply moved_trans|].
  destruct out; [lia|right; right; lia].
Qed.

Lemma rep_rehashing d b0 b1 : dict_rep T d b0 b1 → dictIsRehashing d = true → rehashing d b0 b1.
Proof.
  intros [] Hr. rewrite Hr in *. destruct rep_rehash0 as (? & ? & ?). split; try done; try lia; auto.
Qed.

Lemma rehashing_rep d b0 b1 :
  rehashing d b0 b1 → rehashidx d < ht_size (ht0 d) → dict_rep T d b0 b1 ∧ dictIsRehashing d = true.
Proof.
  intros [] Hr. assert (dictIsRehashing d = true) as Hreh.
  { unfold dictIsRehashing. destruct (rehashidx d =? -1) eqn:E; [lia|done]. }
  split; [|done]. split; try done. rewrite Hreh. by repeat split; try lia.
Qed.

(** What the operations that do not touch the entries keep. *)
Definition same d d' : Prop :=
  contents (dict_entries d') = contents (dict_entries d) ∧
  iterators d' = iterators d ∧ dict_log d' = dict_log d.

Lemma same_refl d : same d d.
Proof. done. Qed.

Lemma same_trans d1 d2 d3 : same d1 d2 → same d2 d3 → same d1 d3.
Proof. intros (?&?&?) (?&?&?). unfold same. repeat split; congruence. Qed.

(** The three outcomes of [dictRehash]. *)
Definition rehashed (g : dictGlobals) d (r : Z) d' : Prop :=
  dict_wf T d' ∧ same d d' ∧
  ((d' = d ∧ r = 0 ∧ (dictIsRehashing d = false ∨ g_IsForkedProcess g = true)) ∨
   (r = 1 ∧ dictIsRehashing d = true ∧ dictIsRehashing d' = true ∧ moved d d' ∧
    rehashidx d < rehashidx d') ∨
   (r = 0 ∧ dictIsRehashing d = true ∧ dictIsRehashing d' = false ∧ ht_size (ht0 d') = ht_size (ht1 d))).

(** The second table replaces the first one. *)
Lemma rehash_done d b0 b1 :
  rehashing d b0 b1 → ht_used (ht0 d) = 0 →
  dict_rep T (set_rehashidx (set_ht (set_ht d 0 (ht1 d)) 1 _dictReset) (-1)) b1 [].
Proof.
  intros [Ht0 Ht1 Hnd Hdom Hk Hb Hs0 Hs1 Hidx Hemp] Hu.
  assert (mjoin b0 = []) as Hnil. { destruct Ht0 as [Hu' _]. apply length_zero_iff_nil. lia. }
  rewrite Hnil in *. split; cbn; try done; by rewrite app_nil_r.
Qed.

Lemma dictRehash_run g d n :
  dict_wf T d → 1 ≤ n → in_s 32 (n * 10) →
  ∃ r d', dictRehash T g d n = Some (r, d') ∧ rehashed g d r d'.
Proof using DictTypeOk0.
  intros Hwf Hn Hin. unfold dictRehash, rehashed.
  destruct (g_IsForkedProcess g) eqn:Hg.
  { exists 0, d. split; [done|]. split; [done|]. split; [apply same_refl|]. tauto. }
  rewrite bool_decide_true by done. destruct (dictIsRehashing d) eqn:Hr; simpl negb; cbv iota.
  2: { exists 0, d. split; [done|]. split; [done|]. split; [apply same_refl|]. tauto. }
  destruct Hwf as (b0 & b1 & Hrep). pose proof (rep_rehashing _ _ _ Hrep Hr) as Hrh.
  destruct (rehash_loop_run (2 + Z.to_nat (ht_size (ht0 d))) d b0 b1 n (n * 10) Hrh) as
    (d' & out & b0' & b1' & -> & Hrh' & Hmv & Ho); [lia| |].
  { pose proof (rh_idx _ _ _ Hrh). lia. }
  cbn [mbind option_bind]. assert (same d d') as Hsame by (destruct Hmv as (?&?&?&?&?&?); done).
  assert (∀ r, rehashidx d < rehashidx d' < ht_size (ht0 d') → r = 1 → dict_wf T d' ∧ same d d' ∧
    r = 1 ∧ true = true ∧ dictIsRehashing d' = true ∧ moved d d' ∧ rehashidx d < rehashidx d') as Hmore.
  { intros r Hi ->. destruct (rehashing_rep _ _ _ Hrh') as [Hrep' Hr']; [lia|].
    split; [by exists b0', b1'|]. repeat (split; [done|]). lia. }
  destruct out.
  { exists 1, d'. split; [done|]. destruct (Hmore 1 Ho) as (?&?&?); [done|]. tauto. }
  destruct (ht_used (ht0 d') =? 0) eqn:Hu.
  - eexists 0, _. split; [done|]. split; [exists b1', []; by apply (rehash_done d' b0'); [|lia]|].
    split; [done|]. right; right. do 3 (split; [done|]). cbn. apply Hmv.
  - exists 1, d'. split; [done|].
    assert (rehashidx d' < ht_size (ht0 d')) by (apply (rehashing_idx_lt d' b0' b1'); [done|lia]).
    destruct (Hmore 1) as (?&?&?); [lia|done|]. tauto.
Qed.

Lemma rehash_ms_run g times ms d rehashes i fuel :
  dict_wf T d →
  (if dictIsRehashing d then Z.to_nat (ht_size (ht0 d) - rehashidx d) < fuel else 0 < fuel)%nat →
  ∃ r d', loop fuel (rehash_ms_body T g times ms) (d, rehashes, i) = Some (r, d') ∧
    dict_wf T d' ∧ same d d'.
Proof using DictTypeOk0.
  revert d rehashes i. induction fuel as [|fuel IH]; intros d rehashes i Hwf Hf;
    [destruct (dictIsRehashing d); lia|].
  cbn [loop]. unfold rehash_ms_body at 1.
  destruct (dictRehash_run g d 100 Hwf) as (r & d' & -> & Hwf' & Hs & Ho); [lia|rlia|].
  cbn [mbind option_bind]. destruct (r =? 0) eqn:Hr; [by eauto|].
  destruct (times (S i) - times 0%nat >? ms); [by eauto|].
  destruct Ho as [(_ & -> & _)|[(-> & Hr1 & Hr2 & Hmv & Hlt)|(-> & _)]]; [done| |done].
  destruct (IH d' (rehashes + 100) (S i) Hwf') as (r & d2 & -> & Hwf2 & Hs2).
  { rewrite Hr2. rewrite Hr1 in Hf. destruct Hmv as (_ & Hsz & _).
    destruct Hwf' as (c0 & c1 & Hrep). pose proof (rh_idx _ _ _ (rep_rehashing _ _ _ Hrep Hr2)).
    pose proof (rep_rehash _ _ _ _ Hrep) as Hx. rewrite Hr2 in Hx. lia. }
  exists r, d2. split; [done|]. split; [done|]. by eapply same_trans.
Qed.

Lemma step_run g d :
  dict_wf T d → ∃ d', rehash_step_if T g d = Some d' ∧ dict_wf T d' ∧ same d d' ∧
    (dictIsRehashing d = false → d' = d) ∧ (ht_size (ht0 d) ≠ 0 → ht_size (ht0 d') ≠ 0).
Proof using DictTypeOk0.
  intros Hwf. unfold rehash_step_if, _dictRehashStep.
  destruct (dictIsRehashing d) eqn:Hr; [|by exists d].
  destruct (iterators d =? 0); [|by exists d].
  destruct (dictRehash_run g d 1 Hwf) as (r & d' & -> & Hwf' & Hs & Ho); [lia|rlia|].
  cbn. exists d'. do 4 (split; [done|]). intros Hsz.
  destruct Ho as [(-> & _)|[(_ & _ & _ & (_ & -> & _) & _)|(_ & _ & _ & ->)]]; [done|done|].
  destruct Hwf as (b0 & b1 & [? ? ? ? ? ? Hre]). rewrite Hr in Hre. lia.
Qed.

Lemma size_contents d d' : same d d' → size (dict_entries d') = size (dict_entries d).
Proof. intros (H&_&_). by apply contents_size. Qed.

(** ** Growing *)

Lemma join_replicate_nil (n : nat) : mjoin (replicate n (@nil loc)) = [].
Proof. by induction n. Qed.

Lemma fresh_table_ok m t j :
  2 ≤ j ≤ 31 → zcalloc_table (2 ^ j) = Some t →
  table_ok T m (Dictht (Some t) (2 ^ j) (u64 (2 ^ j - 1)) 0) (replicate (Z.to_nat (2 ^ j)) []).
Proof.
  intros Hj. unfold zcalloc_table. destruct (_ <? _); [|done]. intros [= <-].
  pose proof (pow2_bounds j 2 31).
  split; cbn; [by rewrite join_replicate_nil|]. split; [|split; [|split]].
  - exists j. split; [done|]. split; [done|]. cbn. apply wrap_small. rlia.
  - rewrite length_replicate. lia.
  - apply Forall2_replicate. done.
  - intros i b p (Hb & _)%lookup_replicate Hp. subst b. set_solver.
Qed.

Lemma dictExpand_run d size :
  dict_wf T d → 0 ≤ size ≤ 2 ^ 31 →
  ∃ r d' j, dictExpand d size = Some (r, d') ∧ dict_wf T d' ∧ same d d' ∧
    2 ≤ j ≤ 31 ∧ _dictNextPower size = Some (2 ^ j) ∧ size ≤ 2 ^ j ∧
    ((r = DICT_ERR ∧ d' = d ∧
      (dictIsRehashing d = true ∨ size < ht_used (ht0 d) ∨ 2 ^ j = ht_size (ht0 d))) ∨
     (r = DICT_OK ∧ dictIsRehashing d = false ∧ ht_used (ht0 d) ≤ size ∧
      if ht_size (ht0 d) =? 0 then dictIsRehashing d' = false ∧ ht_size (ht0 d') = 2 ^ j
      else dictIsRehashing d' = true ∧ rehashidx d' = 0 ∧ ht0 d' = ht0 d ∧ ht_size (ht1 d') = 2 ^ j)).
Proof.
  intros (b0 & b1 & Hrep) Hs. destruct (next_power_small size Hs) as (j & Hj & Hnp & Hle).
  unfold dictExpand. rewrite Hnp. cbn [mbind option_bind].
  pose proof (pow2_bounds j 2 31).
  assert (∀ P : Prop, P → ∃ r d' j', Some (DICT_ERR, d) = Some (r, d') ∧ dict_wf T d' ∧ same d d' ∧
    2 ≤ j' ≤ 31 ∧ Some (2 ^ j) = Some (2 ^ j') ∧ size ≤ 2 ^ j' ∧ r = DICT_ERR ∧ d' = d ∧ P ∧ j' = j) as Herr.
  { intros P HP. exists DICT_ERR, d, j. split; [done|]. split; [by exists b0, b1|].
    by repeat split; try lia. }
  destruct (dictIsRehashing d || _) eqn:E1.
  { destruct (Herr (dictIsRehashing d = true ∨ size < ht_used (ht0 d))) as
      (r & d' & j' & ? & ? & ? & ? & ? & ? & ? & ? & ? & ->); [lia|].
    exists r, d', j. do 6 (split; [done|]). left. tauto. }
  destruct (2 ^ j =? ht_size (ht0 d)) eqn:E2.
  { destruct (Herr (2 ^ j = ht_size (ht0 d))) as
      (r & d' & j' & ? & ? & ? & ? & ? & ? & ? & ? & ? & ->); [lia|].
    exists r, d', j. do 6 (split; [done|]). left. tauto. }
  clear Herr. destruct (dictIsRehashing d) eqn:Hr; [done|].
  destruct (zcalloc_table (2 ^ j)) as [t|] eqn:Hz.
  2: { unfold zcalloc_table in Hz. destruct (2 ^ j * 8 <? 2 ^ 64) eqn:E; [done|lia]. }
  cbn [mbind option_bind]. pose proof (fresh_table_ok (dict_entries d) t j Hj Hz) as Hok.
  destruct Hrep as [Ht0 Ht1 Hnd Hdom Hk Hb Hre]. rewrite Hr in Hre.
  pose proof (table_ok_size0 T _ _ _ Ht0) as Hsz.
  assert (mjoin b1 = []) as Hb1.
  { destruct Ht1 as [Hu _]. rewrite Hre in Hu. apply length_zero_iff_nil. cbn in Hu. lia. }
  destruct (ht_table (ht0 d)) as [t0|] eqn:Et.
  - assert (ht_size (ht0 d) ≠ 0) by (by apply Hsz).
    eexists DICT_OK, _, j. split; [done|]. split.
    { exists b0, (replicate (Z.to_nat (2 ^ j)) []).
      split; cbn; try done; rewrite ?join_replicate_nil, ?Hb1 in *; try done.
      pose proof (table_size_31 T _ _ _ Ht0). split; [lia|]. split; [lia|]. lia. }
    do 4 (split; [done|]). right. destruct (ht_size (ht0 d) =? 0) eqn:?; [lia|].
    split; [done|]. split; [done|]. split; [lia|]. done.
  - assert (ht_size (ht0 d) = 0) as Hs0.
    { destruct (decide (ht_size (ht0 d) = 0)) as [|Hn]; [done|]. by apply Hsz in Hn. }
    destruct Ht0 as [Hu Ht0]. rewrite Et in Ht0. destruct Ht0 as [Heq Hb0]. subst b0.
    eexists DICT_OK, _, j. split; [done|]. split.
    { exists (replicate (Z.to_nat (2 ^ j)) []), b1. unfold set_ht. cbn.
      split; cbn; try done; rewrite ?join_replicate_nil in *; try done.
      unfold dictIsRehashing in *. cbn. by rewrite Hr. }
    do 4 (split; [done|]). right. rewrite Hs0. cbn. split; [done|]. split; [done|]. split; [|done].
    rewrite Heq. cbn. lia.
Qed.

Lemma rep_used0_bound d b0 b1 : dict_rep T d b0 b1 →
  0 ≤ ht_used (ht0 d) ≤ Z.of_nat (size (dict_entries d)) ∧
  ht_used (ht0 d) + ht_used (ht1 d) = Z.of_nat (size (dict_entries d)).
Proof.
  intros [[Hu0 _] [Hu1 _] Hnd Hd _ Hb _]. rewrite (rep_used_total d b0 b1) by done.
  rewrite length_app. lia.
Qed.

Lemma dictResize_run g d :
  dict_wf T d → ∃ r d', dictResize g d = Some (r, d') ∧ dict_wf T d' ∧ same d d'.
Proof.
  intros Hwf. pose proof Hwf as (b0 & b1 & Hrep). unfold dictResize.
  destruct (negb _ || _); [by eauto using same_refl|].
  destruct (rep_used0_bound _ _ _ Hrep) as [Hu _]. pose proof (rep_bound _ _ _ _ Hrep).
  rewrite swrap_small by rlia. change DICT_HT_INITIAL_SIZE with 4.
  assert (4 ≤ (if ht_used (ht0 d) <? 4 then 4 else ht_used (ht0 d)) ≤ 2 ^ 30) as Hn
    by (destruct (ht_used (ht0 d) <? 4) eqn:?; lia).
  set (n := if _ <? _ then _ else _) in *. clearbody n.
  rewrite wrap_small by rlia.
  destruct (dictExpand_run d n Hwf) as (r & d' & j & -> & ? & ? & _); [lia|]. eauto.
Qed.

(** Before an insertion: the table has room for another entry. *)
Lemma dictExpandIfNeeded_run g d :
  dict_wf T d → ∃ d', _dictExpandIfNeeded g d = Some (DICT_OK, d') ∧ dict_wf T d' ∧ same d d' ∧
    ht_size (ht0 d') ≠ 0.
Proof.
  intros Hwf. pose proof Hwf as (b0 & b1 & Hrep). unfold _dictExpandIfNeeded.
  destruct (rep_used0_bound _ _ _ Hrep) as [Hu _]. pose proof (rep_bound _ _ _ _ Hrep).
  destruct (dictIsRehashing d) eqn:Hr.
  { exists d. do 3 (split; [done|]). pose proof (rep_rehash _ _ _ _ Hrep) as Hx.
    rewrite Hr in Hx. lia. }
  destruct (ht_size (ht0 d) =? 0) eqn:Hs.
  { destruct (dictExpand_run d DICT_HT_INITIAL_SIZE Hwf) as (r & d' & j & -> & ? & ? & Hj & _ & _ & Ho);
      [unfold DICT_HT_INITIAL_SIZE; lia|]. pose proof (pow2_bounds j 2 31).
    rewrite Hs in Ho. exists d'. destruct Ho as [(_ & _ & Ho)|(-> & _ & _ & _ & ->)].
    - rewrite Hr in Ho. destruct (rep_t0 _ _ _ _ Hrep) as [Hu0 Ht0].
      destruct (ht_table (ht0 d)).
      + destruct Ht0 as ((k & ? & ? & _) & _). pose proof (pow2_bounds k 2 31). lia.
      + destruct Ht0 as [Heq _]. rewrite Heq in Ho. cbn in Ho. unfold DICT_HT_INITIAL_SIZE in Ho.
        destruct Ho as [?|[?|?]]; [done|lia|lia].
    - do 3 (split; [done|]). lia. }
  destruct (_ && _) eqn:E; [|exists d; do 3 (split; [done|]); lia].
  rewrite wrap_small by rlia.
  destruct (dictExpand_run d (ht_used (ht0 d) * 2) Hwf) as (r & d' & j & -> & ? & ? & Hj & _ & Hle & Ho); [lia|].
  rewrite Hs in Ho. exists d'. destruct Ho as [(_ & _ & Ho)|(-> & _ & _ & _ & _ & -> & _)].
  - rewrite Hr in Ho. pose proof (table_size_31 T _ _ _ (rep_t0 _ _ _ _ Hrep)).
    destruct Ho as [?|[?|?]]; [done|lia|lia].
  - do 3 (split; [done|]). lia.
Qed.
End rehash_loop.

(** ** Lookup *)

Section lookup.
Context {K V : Type} `{!EqDecision K} (T : dictType K V) `{!DictTypeOk T}.
Implicit Types (m : gmap loc (dictEntry K V)) (h : dictht) (bs : list (list loc)) (d : dict K V).

(** The buckets of table [t]. *)
Definition buckets (b0 b1 : list (list loc)) (t : Z) := if t =? 0 then b0 else b1.

Lemma rep_table d b0 b1 t :
  dict_rep T d b0 b1 → table_ok T (dict_entries d) (ht d t) (buckets b0 b1 t).
Proof. intros []. unfold ht, buckets. by destruct (t =? 0). Qed.

Lemma rep_join_nodup d b0 b1 t : dict_rep T d b0 b1 → NoDup (mjoin (buckets b0 b1 t)).
Proof.
  intros [_ _ Hnd _ _ _ _]. apply NoDup_app in Hnd as (? & _ & ?). unfold buckets. by destruct (t =? 0).
Qed.

Lemma rep_alloc d b0 b1 t x :
  dict_rep T d b0 b1 → x ∈ mjoin (buckets b0 b1 t) → is_Some (dict_entries d !! x).
Proof.
  intros [_ _ _ Hd _ _ _] Hx. apply elem_of_dom. rewrite Hd, list_to_set_app_L.
  unfold buckets in Hx. destruct (t =? 0); set_solver.
Qed.

Lemma bucket_nodup (bs : list (list loc)) i b : NoDup (mjoin bs) → bs !! i = Some b → NoDup b.
Proof. intros Hnd Hb. rewrite (join_split _ _ _ Hb) in Hnd. by apply NoDup_app in Hnd as [? _]. Qed.

Lemma bucket_fuel d b0 b1 t i b :
  dict_rep T d b0 b1 → buckets b0 b1 t !! i = Some b → (length b < chain_fuel d)%nat.
Proof.
  intros Hrep Hb. unfold chain_fuel. assert (length b ≤ size (dict_entries d))%nat; [|lia].
  apply chain_length; [eapply bucket_nodup; [by eapply rep_join_nodup|done]|].
  intros x Hx. eapply rep_alloc; [done|]. by eapply elem_of_bucket.
Qed.

Lemma key_bucket m h bs p k v b :
  table_ok T m h bs → p ∈ mjoin bs → contents m !! p = Some (k, v) →
  bs !! Z.to_nat (Z.land (hashFunction T k) (ht_sizemask h)) = Some b → p ∈ b.
Proof.
  intros [_ Ht] Hp Hc Hb. destruct (ht_table h); [|destruct Ht as [_ ->]; by rewrite lookup_nil in Hb].
  destruct Ht as (_ & _ & _ & Hpl). apply list_elem_of_join in Hp as (c & Hp & Hin).
  apply list_elem_of_lookup in Hin as [i Hi]. destruct (Hpl i c p Hi Hp) as (k' & v' & Hc' & Hm).
  simplify_eq. rewrite Hm, Nat2Z.id in Hb. by simplify_eq.
Qed.

Definition found (c : gmap loc (K * option V)) (key : K) (l : list loc) (r : option loc) : Prop :=
  match r with
  | Some p => p ∈ l ∧ ∃ v, c !! p = Some (key, v)
  | None => ∀ p v, p ∈ l → c !! p ≠ Some (key, v)
  end.

Lemma find_chain d key he l n :
  chain (dict_entries d) he l → (length l < n)%nat →
  ∃ r, loop n (find_body T d key) he = Some r ∧ found (contents (dict_entries d)) key l r.
Proof.
  revert he n. induction l as [|x l IH]; intros he n Hc Hn; (destruct n as [|n]; [simpl in Hn; lia|]);
    cbn [loop find_body].
  { simpl in Hc. subst he. eexists. split; [done|]. intros p v Hp. set_solver. }
  destruct Hc as [-> (e & He & Hc)]. cbn [find_body]. rewrite He. mrun. rewrite compare_eq.
  case_bool_decide as Hk.
  - eexists. split; [done|]. split; [set_solver|]. exists (de_val e). rewrite Hk. by apply contents_Some.
  - destruct (IH (de_next e) n Hc) as (r & -> & Hf); [simpl in Hn; lia|]. exists r. split; [done|].
    destruct r as [p|]; simpl in *; [set_solver|]. intros p v [->|Hp]%elem_of_cons; [|by apply Hf].
    rewrite (contents_Some _ _ _ He). congruence.
Qed.

(** Where a key of the table is looked for. *)
Lemma bucket_at d b0 b1 t k :
  dict_rep T d b0 b1 → ht_size (ht d t) ≠ 0 →
  ∃ i p b, bucket_index d t (hashFunction T k) = i ∧ 0 ≤ i < ht_size (ht d t) ∧
    i = Z.land (hashFunction T k) (ht_sizemask (ht d t)) ∧
    table_get (ht d t) i = Some p ∧ buckets b0 b1 t !! Z.to_nat i = Some b ∧
    chain (dict_entries d) p b ∧ (length b < chain_fuel d)%nat.
Proof using DictTypeOk0.
  intros Hrep Hs. pose proof (rep_table _ _ _ t Hrep) as Hok.
  pose proof (mask_index T _ _ _ (hashFunction T k) Hok Hs) as Hi.
  destruct (table_get_ok T _ _ _ _ Hok Hi) as (p & b & Hg & Hb & Hc).
  exists (Z.land (hashFunction T k) (ht_sizemask (ht d t))), p, b.
  split; [by apply (bucket_of_hash T _ _ _ k Hok)|]. do 5 (split; [done|]).
  by eapply bucket_fuel.
Qed.

Lemma find_in_run d b0 b1 key t :
  dict_rep T d b0 b1 → ht_size (ht d t) ≠ 0 →
  ∃ r, find_in T d key (hashFunction T key) t = Some r ∧
    found (contents (dict_entries d)) key (mjoin (buckets b0 b1 t)) r.
Proof using DictTypeOk0.
  intros Hrep Hs. destruct (bucket_at d b0 b1 t key Hrep Hs) as (i & p & b & Hi & Hr & Hm & Hg & Hb & Hc & Hn).
  unfold find_in. rewrite Hi, Hg. cbn [mbind option_bind].
  destruct (find_chain d key p b _ Hc Hn) as (r & -> & Hf). exists r. split; [done|].
  destruct r as [q|]; simpl in *.
  - destruct Hf as [Hq ?]. split; [|done]. by eapply elem_of_bucket.
  - intros q v Hq Hkv. apply (Hf q v); [|done]. eapply key_bucket; [by apply rep_table|done|done|].
    rewrite <-Hm. done.
Qed.

Lemma rep_size1 d b0 b1 : dict_rep T d b0 b1 → dictIsRehashing d = true → ht_size (ht d 1) ≠ 0.
Proof. intros [_ _ _ _ _ _ Hre] Hr. rewrite Hr in *. apply Hre. Qed.

Lemma rep_b1_nil d b0 b1 : dict_rep T d b0 b1 → dictIsRehashing d = false → mjoin b1 = [].
Proof.
  intros [_ [Hu _] _ _ _ _ Hre] Hr. rewrite Hr in Hre. rewrite Hre in Hu.
  apply length_zero_iff_nil. cbn in Hu. lia.
Qed.

Lemma find_tables d b0 b1 key :
  dict_rep T d b0 b1 → ht_size (ht0 d) ≠ 0 →
  ∃ r, for_tables d (find_in T d key (hashFunction T key)) = Some r ∧
    match r with
    | Some p => ∃ v, contents (dict_entries d) !! p = Some (key, v)
    | None => ∀ p v, contents (dict_entries d) !! p ≠ Some (key, v)
    end.
Proof using DictTypeOk0.
  intros Hrep Hs. unfold for_tables.
  destruct (find_in_run d b0 b1 key 0 Hrep Hs) as (r & -> & Hf). cbn [mbind option_bind].
  destruct r as [p|]; [by eexists; split; [done|]; apply Hf|].
  assert (∀ p v, contents (dict_entries d) !! p = Some (key, v) → p ∈ mjoin b1) as Hin.
  { intros p v Hp. assert (p ∈ dom (dict_entries d)) as Hd.
    { rewrite <-contents_dom. by apply elem_of_dom_2 in Hp. }
    rewrite (rep_dom _ _ _ _ Hrep) in Hd. apply elem_of_list_to_set, elem_of_app in Hd as [Hp0|]; [|done].
    by destruct (Hf p v). }
  destruct (dictIsRehashing d) eqn:Hr.
  - destruct (find_in_run d b0 b1 key 1 Hrep) as (r & -> & Hf1); [by apply (rep_size1 d b0 b1)|].
    exists r. split; [done|]. destruct r as [p|]; simpl in *; [by apply Hf1|].
    intros p v Hp. by apply (Hf1 p v); [by eapply Hin|].
  - exists None. split; [done|]. intros p v Hp. apply Hin in Hp.
    rewrite (rep_b1_nil d b0 b1) in Hp by done. set_solver.
Qed.

Lemma rep_empty d b0 b1 p : dict_rep T d b0 b1 → ht_size (ht0 d) = 0 → dict_entries d !! p = None.
Proof.
  intros Hrep Hs. destruct (dictIsRehashing d) eqn:Hr.
  { pose proof (rep_rehash _ _ _ _ Hrep) as Hx. rewrite Hr in Hx. lia. }
  apply not_elem_of_dom. rewrite (rep_dom _ _ _ _ Hrep), (rep_b1_nil d b0 b1), app_nil_r by done.
  pose proof (table_ok_length T _ _ _ (rep_t0 _ _ _ _ Hrep)) as Hl.
  assert (b0 = []) as -> by (apply length_zero_iff_nil; lia). set_solver.
Qed.

Lemma dictFind_run g d key :
  dict_wf T d →
  ∃ r d', dictFind T g d key = Some (r, d') ∧ dict_wf T d' ∧ same d d' ∧
    match r with
    | Some p => ∃ v, contents (dict_entries d) !! p = Some (key, v)
    | None => ∀ p v, contents (dict_entries d) !! p ≠ Some (key, v)
    end.
Proof using DictTypeOk0.
  intros Hwf. unfold dictFind. destruct (ht_size (ht0 d) =? 0) eqn:Hs.
  { destruct Hwf as (b0 & b1 & Hrep). exists None, d. split; [done|]. split; [by exists b0, b1|].
    split; [apply same_refl|]. intros p v. rewrite contents_lookup, (rep_empty d b0 b1) by (done || lia).
    done. }
  destruct (step_run T g d Hwf) as (d' & -> & (b0 & b1 & Hrep) & Hsame & _ & Hst). cbn [mbind option_bind].
  assert (ht_size (ht0 d') ≠ 0) as Hs' by (apply Hst; lia).
  destruct (find_tables d' b0 b1 key Hrep Hs') as (r & Hf & Hres). unfold dictHashKey. rewrite Hf.
  cbn. exists r, d'. split; [done|]. split; [by exists b0, b1|]. split; [done|].
  destruct Hsame as (<- & _). done.
Qed.
End lookup.

(** ** Replacing a bucket *)

Section update.
Context {K V : Type} `{!EqDecision K} (T : dictType K V) `{!DictTypeOk T}.
Implicit Types (m : gmap loc (dictEntry K V)) (h : dictht) (bs : list (list loc)) (d : dict K V).

(** The entries that are not in bucket [i] of table [t]. *)
Definition rest (b0 b1 : list (list loc)) (t : Z) (i : nat) : list loc :=
  others (buckets b0 b1 t) i ++ mjoin (buckets b0 b1 (1 - t)).

Lemma rest_split b0 b1 t i b :
  t = 0 ∨ t = 1 → buckets b0 b1 t !! i = Some b → mjoin b0 ++ mjoin b1 ≡ₚ b ++ rest b0 b1 t i.
Proof.
  intros Ht Hb. unfold rest. rewrite app_assoc, <-(join_split _ _ _ Hb).
  destruct Ht as [-> | ->]; unfold buckets; simpl; [done|]. apply Permutation_app_comm.
Qed.

Lemma bucket_rest d b0 b1 t i b :
  t = 0 ∨ t = 1 → dict_rep T d b0 b1 → buckets b0 b1 t !! i = Some b →
  NoDup b ∧ NoDup (rest b0 b1 t i) ∧ (∀ x, x ∈ b → x ∉ rest b0 b1 t i) ∧
  dom (dict_entries d) = list_to_set (b ++ rest b0 b1 t i) ∧
  size (dict_entries d) = (length b + length (rest b0 b1 t i))%nat.
Proof.
  intros Ht Hrep Hb. pose proof (rest_split b0 b1 t i b Ht Hb) as Hp.
  destruct Hrep as [_ _ Hnd Hd _ _ _]. pose proof (rep_used_total d b0 b1 Hnd Hd) as Hl.
  rewrite Hp in Hnd. apply NoDup_app in Hnd as (? & ? & ?). do 3 (split; [done|]).
  split; [|by rewrite Hl, Hp, length_app]. rewrite Hd. by apply list_to_set_perm_L.
Qed.

(** Entries [m'], with [b'] for the bucket [b] at [i] of table [t]. *)
Lemma rep_update d b0 b1 t i b b' m' p' n :
  dict_rep T d b0 b1 → t = 0 ∨ (t = 1 ∧ dictIsRehashing d = true) → 0 ≤ i →
  buckets b0 b1 t !! Z.to_nat i = Some b →
  chain m' p' b' → (∀ x, x ∈ rest b0 b1 t (Z.to_nat i) → m' !! x = dict_entries d !! x) →
  (∀ x, x ∈ b' → ∃ k v, contents m' !! x = Some (k, v) ∧
                        Z.land (hashFunction T k) (ht_sizemask (ht d t)) = i) →
  NoDup (b' ++ rest b0 b1 t (Z.to_nat i)) →
  dom m' = list_to_set (b' ++ rest b0 b1 t (Z.to_nat i)) →
  unique_keys (contents m') → Z.of_nat (size m') ≤ 2 ^ 30 →
  n = zlen b' - zlen b →
  (dictIsRehashing d = true → t = 0 → b' ≠ [] → b ≠ []) →
  ∃ h', table_set (ht d t) i p' = Some h' ∧
    ∀ log, dict_wf T (set_ht (Dict m' (ht0 d) (ht1 d) (rehashidx d) (iterators d) log) t (add_used n h')).
Proof.
  intros Hrep Ht Hi Hb Hc Ha Hpl Hnd Hdom Hk Hbound Hn Hne.
  assert (t = 0 ∨ t = 1) as Ht' by tauto.
  destruct (bucket_rest d b0 b1 t _ b Ht' Hrep Hb) as (_ & _ & _ & _ & Hsize).
  pose proof (rep_table T d b0 b1 t Hrep) as Hok. pose proof (rep_bound _ _ _ _ Hrep) as Hold.
  destruct (table_set_ok T _ m' _ _ _ _ p' b' Hok Hi Hb Hc) as (h' & Hset & Hu & Hs & Hm & Hok').
  { intros x Hx. apply Ha. unfold rest. set_solver. }
  { done. }
  exists h'. split; [done|]. intros log.
  assert (table_ok T m' (add_used n h') (<[Z.to_nat i := b']> (buckets b0 b1 t))) as Hnew.
  { apply Hok'. destruct Hok as [-> _]. rewrite (join_split _ _ _ Hb).
    unfold rest in Hsize. rewrite !length_app in *. rewrite wrap_small; [lia|].
    assert (Z.of_nat (length b' + length (others (buckets b0 b1 t) (Z.to_nat i))) ≤ 2 ^ 30); [|rlia].
    rewrite <-size_dom, Hdom, size_list_to_set, length_app in Hbound by done.
    unfold rest in Hbound. rewrite length_app in Hbound. lia. }
  assert (table_ok T m' (ht d (1 - t)) (buckets b0 b1 (1 - t))) as Hother.
  { eapply table_ok_agree; [|by apply rep_table]. intros x Hx. apply Ha. unfold rest. set_solver. }
  pose proof (rep_rehash _ _ _ _ Hrep) as Hre. clear Hok' Ha Hpl Hc.
  destruct Ht' as [-> | ->]; unfold ht, buckets, rest, set_ht in *; simpl in *.
  - exists (<[Z.to_nat i := b']> b0), b1. split; cbn [dict_entries ht0 ht1 rehashidx]; try done.
    + rewrite (join_insert _ _ b) by done. by rewrite <-app_assoc.
    + rewrite Hdom. apply list_to_set_perm_L. rewrite (join_insert _ _ b), <-app_assoc by done. done.
    + unfold dictIsRehashing in *. cbn. destruct (negb (rehashidx d =? -1)); [|done].
      rewrite Hs. destruct Hre as (? & ? & Hemp). split; [done|]. split; [done|]. intros j Hj.
      destruct (decide (j = Z.to_nat i)) as [->|]; [|rewrite list_lookup_insert_ne by done; by apply Hemp].
      assert (b = []) as -> by (rewrite Hemp in Hb by done; by simplify_eq).
      pose proof (lookup_lt_Some _ _ _ Hb). rewrite list_lookup_insert_eq by done.
      destruct b' as [|x b']; [done|]. by destruct Hne.
  - destruct Ht as [?|[_ Hr]]; [lia|].
    assert (Hperm : mjoin b0 ++ mjoin (<[Z.to_nat i := b']> b1) ≡ₚ b' ++ others b1 (Z.to_nat i) ++ mjoin b0).
    { rewrite (join_insert _ _ b) by done. solve_Permutation. }
    exists b0, (<[Z.to_nat i := b']> b1). split; cbn [dict_entries ht0 ht1 rehashidx]; try done.
    + by rewrite Hperm.
    + rewrite Hdom. by apply list_to_set_perm_L.
    + unfold dictIsRehashing in *. cbn. rewrite Hr in *. rewrite Hs. done.
Qed.

(** ** Insertion *)

Definition absent (c : gmap loc (K * option V)) (key : K) : Prop := ∀ p v, c !! p ≠ Some (key, v).

Lemma unique_keys_insert (c : gmap loc (K * option V)) p key v :
  unique_keys c → absent c key → unique_keys (<[p := (key, v)]> c).
Proof.
  intros Hu Ha q r k w w'. rewrite !lookup_insert_Some.
  intros [[<- [= <- <-]]|[? Hq]] [[<- Hk]|[? Hr]]; [done| |by simplify_eq; edestruct Ha|by eapply Hu].
  by edestruct Ha.
Qed.

Lemma unique_keys_delete (c : gmap loc (K * option V)) p : unique_keys c → unique_keys (delete p c).
Proof. intros Hu q r k w w' [_ Hq]%lookup_delete_Some [_ Hr]%lookup_delete_Some. by eapply Hu. Qed.

Context `{!EntryAllocator}.

(** The table insertions go to. *)
Definition active d : Z := if dictIsRehashing d then 1 else 0.

Lemma active_size d b0 b1 : dict_rep T d b0 b1 → ht_size (ht0 d) ≠ 0 → ht_size (ht d (active d)) ≠ 0.
Proof.
  intros Hrep Hs. unfold active. destruct (dictIsRehashing d) eqn:Hr; [|done].
  by apply (rep_size1 T d b0 b1).
Qed.

Lemma insert_run d b0 b1 key :
  dict_rep T d b0 b1 → ht_size (ht0 d) ≠ 0 → absent (contents (dict_entries d)) key →
  Z.of_nat (size (dict_entries d)) < 2 ^ 30 →
  let entry := new_entry (dom (dict_entries d)) in
  let i := bucket_index d (active d) (hashFunction T key) in
  ∃ next h, 0 ≤ i < 2 ^ 31 ∧ table_get (ht d (active d)) i = Some next ∧
    let m := <[entry := DictEntry key None next]> (dict_entries d) in
    table_set (ht d (active d)) i (Some entry) = Some h ∧
    dict_wf T (set_ht (set_entries d m) (active d) (add_used 1 h)) ∧
    contents m = <[entry := (key, None)]> (contents (dict_entries d)) ∧
    contents (dict_entries d) !! entry = None.
Proof using DictTypeOk0.
  intros Hrep Hs Hab Hb. cbv zeta. set (t := active d).
  assert (t = 0 ∨ (t = 1 ∧ dictIsRehashing d = true)) as Ht.
  { unfold t, active. destruct (dictIsRehashing d); tauto. }
  destruct (bucket_at T d b0 b1 t key Hrep) as (i & p & b & -> & Hi & Hm & Hg & Hbk & Hc & _);
    [by eapply active_size|].
  pose proof (table_size_31 T _ _ _ (rep_table T d b0 b1 t Hrep)).
  pose proof (new_entry_fresh (dom (dict_entries d))) as Hf. set (entry := new_entry _) in *.
  destruct (bucket_rest d b0 b1 t (Z.to_nat i) b) as (Hnd1 & Hnd2 & Hdis & Hdom & Hsize); [tauto|done|done|].
  assert (entry ∉ b ∧ entry ∉ rest b0 b1 t (Z.to_nat i)) as [He1 He2].
  { rewrite Hdom in Hf. set_solver. }
  set (m := <[entry := DictEntry key None p]> (dict_entries d)).
  assert (contents m = <[entry := (key, None)]> (contents (dict_entries d))) as Hcont
    by (unfold m, contents; by rewrite fmap_insert).
  assert (contents (dict_entries d) !! entry = None) as Hnone
    by (apply not_elem_of_dom; by rewrite contents_dom).
  destruct (rep_update d b0 b1 t i b (entry :: b) m (Some entry) 1 Hrep Ht) as (h & Hset & Hwf);
    [lia|done| | | | | | | | | |].
  - split; [done|]. exists (DictEntry key None p). split; [apply lookup_insert_eq|]. by apply chain_insert.
  - intros x Hx. apply lookup_insert_ne. by intros <-.
  - intros x [->|Hx]%elem_of_cons.
    + exists key, None. rewrite Hcont, lookup_insert_eq. done.
    + pose proof (rep_table T d b0 b1 t Hrep) as [_ Hpl].
      destruct (ht_table (ht d t)); [|destruct Hpl as [_ Hnil]; by rewrite Hnil, lookup_nil in Hbk].
      destruct Hpl as (_ & _ & _ & Hpl). destruct (Hpl _ _ _ Hbk Hx) as (k & v & Hk & Hl).
      exists k, v. rewrite Hcont, lookup_insert_ne by (by intros <-). split; [done|]. lia.
  - simpl. apply NoDup_cons. split; [set_solver|]. by apply NoDup_app.
  - unfold m. rewrite dom_insert_L, Hdom. done.
  - rewrite Hcont. by apply unique_keys_insert; [apply Hrep|].
  - unfold m. rewrite map_size_insert_None by (by apply not_elem_of_dom). lia.
  - simpl. lia.
  - intros Hr Ht0 _. unfold t, active in Ht0. by rewrite Hr in Ht0.
  - exists p, h. split; [lia|]. split; [done|]. split; [done|]. split; [|done]. apply Hwf.
Qed.

(** The result of an insertion that found no entry with the key. *)
Definition added d d' (p : loc) (key : K) (v : option V) : Prop :=
  contents (dict_entries d) !! p = None ∧
  contents (dict_entries d') = <[p := (key, v)]> (contents (dict_entries d)) ∧
  iterators d' = iterators d ∧ dict_log d' = dict_log d.

Lemma dictAddRaw_run g d key :
  dict_wf T d → Z.of_nat (size (dict_entries d)) < 2 ^ 30 →
  ∃ r d', dictAddRaw T g d key = Some (r, d') ∧ dict_wf T d' ∧
    match r with
    | Some p => absent (contents (dict_entries d)) key ∧ added d d' p key None
    | None => (∃ p v, contents (dict_entries d) !! p = Some (key, v)) ∧ same d d'
    end.
Proof using DictTypeOk0.
  intros Hwf Hb. unfold dictAddRaw, _dictKeyIndex.
  destruct (step_run T g d Hwf) as (d1 & -> & Hwf1 & Hs1 & _). cbn [mbind option_bind].
  destruct (dictExpandIfNeeded_run T g d1 Hwf1) as (d2 & -> & (b0 & b1 & Hrep) & Hs2 & Hsz).
  cbn [mbind option_bind]. assert (same d d2) as Hs by (by eapply same_trans).
  destruct Hs as (Hcont & Hit & Hlog). destruct (find_tables T d2 b0 b1 key Hrep Hsz) as (r & Hf & Hres).
  change (DICT_OK =? DICT_ERR) with false. cbv iota zeta. unfold dictHashKey. rewrite Hf.
  cbn [mbind option_bind]. destruct r as [p|].
  { exists None, d2. split; [done|]. split; [by exists b0, b1|]. split; [|done].
    destruct Hres as [v Hv]. exists p, v. by rewrite <-Hcont. }
  destruct (insert_run d2 b0 b1 key Hrep Hsz Hres) as (next & h & Hi & Hg & Hset & Hwf' & Hc' & Hn).
  { erewrite (contents_size _ _ Hcont). done. }
  cbn [mbind option_bind]. change (if dictIsRehashing d2 then 1 else 0) with (active d2).
  rewrite swrap_small by rlia.
  destruct (bucket_index d2 (active d2) (hashFunction T key) =? -1) eqn:E; [lia|].
  rewrite Hg. cbn [mbind option_bind].
  assert (∀ m, ht (set_entries d2 m) (active d2) = ht d2 (active d2)) as -> by done.
  rewrite dup_key_eq, Hset. cbn [mbind option_bind].
  eexists _, _. split; [done|]. split; [done|]. split.
  - intros p v. rewrite <-Hcont. apply Hres.
  - unfold added. rewrite <-Hcont. split; [done|]. unfold set_ht, active. by destruct (dictIsRehashing d2).
Qed.
End update.

(** ** The map a dictionary denotes *)

Section abstraction.
Context {K V : Type} `{Countable K}.
Implicit Types (c : gmap loc (K * option V)).

Definition abs c : gmap K (option V) := list_to_map (map_to_list c).*2.

Lemma unique_keys_nodup c : unique_keys c → NoDup ((map_to_list c).*2).*1.
Proof.
  intros Hu. rewrite <-list_fmap_compose. apply NoDup_fmap_2_strong; [|apply NoDup_map_to_list].
  intros [p [k v]] [q [k' w]] Hp Hq Heq. simpl in Heq. subst k'.
  apply elem_of_map_to_list in Hp, Hq. assert (p = q) as -> by (by eapply Hu). by simplify_eq.
Qed.

Lemma abs_lookup c k v : unique_keys c → abs c !! k = Some v ↔ ∃ p, c !! p = Some (k, v).
Proof.
  intros Hu. unfold abs. rewrite <-elem_of_list_to_map by by apply unique_keys_nodup.
  rewrite list_elem_of_fmap. split.
  - intros ([p kv] & -> & Hp). exists p. by apply elem_of_map_to_list.
  - intros [p Hp]. exists (p, (k, v)). split; [done|]. by apply elem_of_map_to_list.
Qed.

Lemma abs_lookup_None c k : unique_keys c → abs c !! k = None ↔ absent c k.
Proof.
  intros Hu. split.
  - intros Hn p v Hp. assert (abs c !! k = Some v) by (apply abs_lookup; eauto). congruence.
  - intros Ha. destruct (abs c !! k) as [v|] eqn:E; [|done].
    apply abs_lookup in E as [p Hp]; [|done]. by destruct (Ha p v).
Qed.

Lemma abs_size c : unique_keys c → size (abs c) = size c.
Proof.
  intros Hu. unfold abs. rewrite map_size_list_to_map by by apply unique_keys_nodup.
  rewrite length_fmap. by rewrite length_map_to_list.
Qed.

Lemma unique_keys_update c p key v :
  unique_keys c → (∀ q w, c !! q = Some (key, w) → q = p) → unique_keys (<[p := (key, v)]> c).
Proof.
  intros Hu Hp q r k w w'. rewrite !lookup_insert_Some.
  intros [[<- [= <- <-]]|[? Hq]] [[<- Hk]|[? Hr]]; [done| |simplify_eq|by eapply Hu].
  - symmetry. by eapply Hp.
  - by eapply Hp.
Qed.

Lemma abs_insert c p key v :
  unique_keys c → (∀ q w, c !! q = Some (key, w) → q = p) →
  (∀ k w, c !! p = Some (k, w) → k = key) →
  abs (<[p := (key, v)]> c) = <[key := v]> (abs c).
Proof.
  intros Hu Hq Hp. apply map_eq. intros k. apply option_eq. intros w.
  rewrite abs_lookup by by apply unique_keys_update.
  rewrite lookup_insert_Some, abs_lookup by done. split.
  - intros [q [[<- [= <- <-]]|[Hne Hqk]]%lookup_insert_Some]; [by left|].
    right. split; [|eauto]. intros <-. apply Hne. symmetry. by eapply Hq.
  - intros [[<- <-]|[Hne [q Hqk]]].
    + exists p. by rewrite lookup_insert_eq.
    + exists q. rewrite lookup_insert_ne; [done|]. intros <-. apply Hne. symmetry. by eapply Hp.
Qed.

Lemma abs_delete c p key v :
  unique_keys c → c !! p = Some (key, v) → abs (delete p c) = delete key (abs c).
Proof.
  intros Hu Hp. apply map_eq. intros k. apply option_eq. intros w.
  rewrite abs_lookup by by apply unique_keys_delete.
  rewrite lookup_delete_Some, abs_lookup by done. split.
  - intros [q [Hne Hq]%lookup_delete_Some]. split; [|eauto]. intros <-. apply Hne. by eapply Hu.
  - intros [Hne [q Hq]]. exists q. apply lookup_delete_Some. split; [|done]. intros <-. congruence.
Qed.

Definition dict_map (d : dict K V) : gmap K (option V) := abs (contents (dict_entries d)).

Lemma dict_map_same (d d' : dict K V) : same d d' → dict_map d' = dict_map d.
Proof. intros (Hc & _). unfold dict_map. by rewrite Hc. Qed.

Lemma dict_map_size (T : dictType K V) (d : dict K V) :
  dict_wf T d → size (dict_map d) = size (dict_entries d).
Proof.
  intros (b0 & b1 & Hrep). unfold dict_map. rewrite abs_size by apply Hrep.
  unfold contents. apply map_size_fmap.
Qed.
End abstraction.

(** ** Assignments to an entry *)

Section values.
Context {K V : Type} `{!EqDecision K} (T : dictType K V) `{!DictTypeOk T}.
Implicit Types (m : gmap loc (dictEntry K V)) (h : dictht) (bs : list (list loc)) (d : dict K V).

Definition dup_val (v : V) : V := match valDup T with Some dup => dup v | None => v end.

(** A table depends on the keys and the links of the entries only. *)
Definition link (e : dictEntry K V) : K * option loc := (de_key e, de_next e).

Lemma chain_link m m' p l :
  (∀ x, link <$> m' !! x = link <$> m !! x) → chain m p l → chain m' p l.
Proof.
  intros Hl. revert p. induction l as [|x l IH]; intros p; simpl; [done|].
  intros [-> (e & He & Hc)]. split; [done|]. specialize (Hl x). rewrite He in Hl.
  simpl in Hl. apply fmap_Some in Hl as (e' & He' & Heq). exists e'. split; [done|].
  apply IH. injection Heq as _ <-. done.
Qed.

Lemma table_ok_link m m' h bs :
  (∀ x, link <$> m' !! x = link <$> m !! x) → table_ok T m h bs → table_ok T m' h bs.
Proof.
  intros Hl [Hu Ht]. split; [done|]. destruct (ht_table h) as [t|]; [|done].
  destruct Ht as (Hk & Hs & Hc & Hp). do 2 (split; [done|]). split.
  - eapply Forall2_impl; [done|]. intros p l. by apply chain_link.
  - intros i b p Hi Hb. destruct (Hp i b p Hi Hb) as (k & v & Hkv & Hm).
    apply contents_Some_inv in Hkv as (e & He & [= -> ->]). specialize (Hl p). rewrite He in Hl.
    simpl in Hl. apply fmap_Some in Hl as (e' & He' & [= Heq _]).
    exists (de_key e'), (de_val e'). split; [by apply contents_Some|]. by rewrite <-Heq.
Qed.

Lemma dictSetVal_run d p key w v :
  dict_wf T d → contents (dict_entries d) !! p = Some (key, w) →
  ∃ d', dictSetVal T d p v = Some d' ∧ dict_wf T d' ∧
    contents (dict_entries d') = <[p := (key, Some (dup_val v))]> (contents (dict_entries d)) ∧
    iterators d' = iterators d ∧ dict_log d' = dict_log d ∧ size (dict_entries d') = size (dict_entries d).
Proof.
  intros (b0 & b1 & Hrep) Hp. apply contents_Some_inv in Hp as (e & He & [= -> ->]).
  unfold dictSetVal, store_entry. rewrite He. mrun. eexists. split; [done|].
  set (m' := <[p := _]> (dict_entries d)).
  assert (∀ x, link <$> m' !! x = link <$> dict_entries d !! x) as Hl.
  { intros x. unfold m'. destruct (decide (x = p)) as [->|Hne].
    - by rewrite lookup_insert_eq, He.
    - by rewrite lookup_insert_ne. }
  assert (contents m' = <[p := (de_key e, Some (dup_val v))]> (contents (dict_entries d))) as Hc
    by (unfold m', contents; by rewrite fmap_insert).
  assert (size m' = size (dict_entries d)) as Hsz by (unfold m'; by apply map_size_insert_Some).
  split; [|done]. destruct Hrep as [Ht0 Ht1 Hnd Hd Hk Hb Hre]. exists b0, b1.
  split; cbn [dict_entries ht0 ht1 set_entries]; try done.
  - by eapply table_ok_link.
  - by eapply table_ok_link.
  - unfold m'. rewrite dom_insert_lookup_L by done. done.
  - rewrite Hc. apply unique_keys_update; [done|]. intros q w' Hq.
    eapply Hk; [done|]. by apply contents_Some.
  - by rewrite Hsz.
Qed.

Context `{!EntryAllocator}.

Lemma dictAdd_run g d key v :
  dict_wf T d → Z.of_nat (size (dict_entries d)) < 2 ^ 30 →
  ∃ r d', dictAdd T g d key v = Some (r, d') ∧ dict_wf T d' ∧
    ((r = DICT_ERR ∧ (∃ p w, contents (dict_entries d) !! p = Some (key, w)) ∧ same d d') ∨
     (r = DICT_OK ∧ absent (contents (dict_entries d)) key ∧
      ∃ p, added d d' p key (Some (dup_val v)))).
Proof using DictTypeOk0.
  intros Hwf Hb. unfold dictAdd.
  destruct (dictAddRaw_run T g d key Hwf Hb) as (r & d1 & -> & Hwf1 & Hr). cbn [mbind option_bind].
  destruct r as [p|]; [|exists DICT_ERR, d1; tauto].
  destruct Hr as (Hab & Hn & Hc & Hit & Hlog).
  destruct (dictSetVal_run d1 p key None v Hwf1) as (d2 & -> & Hwf2 & Hc2 & Hit2 & Hlog2 & _).
  { by rewrite Hc, lookup_insert_eq. }
  cbn. exists DICT_OK, d2. split; [done|]. split; [done|]. right. split; [done|]. split; [done|].
  exists p. split; [done|]. rewrite Hc2, Hc, insert_insert_eq. split; [done|]. split; congruence.
Qed.

Lemma log_wf d e : dict_wf T d → dict_wf T (log_event d e).
Proof. intros (b0 & b1 & []). by exists b0, b1. Qed.

(** Calls of the destructor of values. *)
Definition freed_val (w : option V) : list (devent K V) := if valDestructor T then [FreeVal w] else [].
Definition freed_key (k : K) : list (devent K V) := if keyDestructor T then [FreeKey k] else [].

Lemma dictFreeVal_run d e : dict_wf T d →
  dict_wf T (dictFreeVal T d e) ∧ dict_entries (dictFreeVal T d e) = dict_entries d ∧
  iterators (dictFreeVal T d e) = iterators d ∧
  dict_log (dictFreeVal T d e) = dict_log d ++ freed_val (de_val e).
Proof.
  intros Hwf. unfold dictFreeVal, freed_val. destruct (valDestructor T); [|by rewrite app_nil_r].
  by split; [apply log_wf|].
Qed.

Lemma dictReplace_run g d key v :
  dict_wf T d → Z.of_nat (size (dict_entries d)) < 2 ^ 30 →
  ∃ r d', dictReplace T g d key v = Some (r, d') ∧ dict_wf T d' ∧ iterators d' = iterators d ∧
    ((r = 1 ∧ absent (contents (dict_entries d)) key ∧ ∃ p, added d d' p key (Some (dup_val v))) ∨
     (r = 0 ∧ ∃ p w, contents (dict_entries d) !! p = Some (key, w) ∧
      contents (dict_entries d') = <[p := (key, Some (dup_val v))]> (contents (dict_entries d)) ∧
      dict_log d' = dict_log d ++ freed_val w)).
Proof using DictTypeOk0.
  intros Hwf Hb. unfold dictReplace.
  destruct (dictAdd_run g d key v Hwf Hb) as (r & d1 & -> & Hwf1 & Hr). cbn [mbind option_bind].
  destruct Hr as [(-> & (p & w & Hp) & Hs)|(-> & Hab & p & Had)]; cbn [Z.eqb DICT_OK DICT_ERR].
  2: { exists 1, d1. split; [done|]. split; [done|]. split; [apply Had|]. left. eauto. }
  destruct (dictFind_run T g d1 key Hwf1) as (q & d2 & -> & Hwf2 & Hs2 & Hq). cbn [mbind option_bind].
  assert (same d d2) as (Hc & Hit & Hlog) by (by eapply same_trans).
  destruct Hs as (Hc1 & _). destruct q as [q|]; [|rewrite Hc1 in Hq; by destruct (Hq p w)].
  destruct Hq as [w' Hq]. rewrite Hc1, <-Hc in Hq. cbn [mbind option_bind].
  pose proof Hq as (e & He & [= Hk ->])%contents_Some_inv. rewrite He. cbn [mbind option_bind].
  destruct (dictSetVal_run d2 q key (de_val e) v Hwf2 Hq) as (d3 & -> & Hwf3 & Hc3 & Hit3 & Hlog3 & _).
  cbn. destruct (dictFreeVal_run d3 e Hwf3) as (Hwf4 & He4 & Hit4 & Hlog4).
  exists 0, (dictFreeVal T d3 e). split; [done|]. split; [done|]. split; [congruence|]. right. split; [done|].
  exists q, (de_val e). rewrite <-Hc, He4, Hlog4. split; [done|]. split; [done|]. congruence.
Qed.

Lemma dictFetchValue_run g d key :
  dict_wf T d →
  ∃ r d', dictFetchValue T g d key = Some (r, d') ∧ dict_wf T d' ∧ same d d' ∧
    ((absent (contents (dict_entries d)) key ∧ r = None) ∨
     ∃ p, contents (dict_entries d) !! p = Some (key, r)).
Proof using DictTypeOk0.
  intros Hwf. unfold dictFetchValue.
  destruct (dictFind_run T g d key Hwf) as (r & d' & -> & Hwf' & Hs & Hr). cbn [mbind option_bind].
  destruct r as [p|]; [|exists None, d'; by repeat (split; [done|]); left].
  destruct Hr as [v Hv]. pose proof Hs as (Hc & _). pose proof Hv as Hv'. rewrite <-Hc in Hv'.
  apply contents_Some_inv in Hv' as (e & He & [= _ ->]). rewrite He. cbn.
  exists (de_val e), d'. do 3 (split; [done|]). right. eauto.
Qed.

Lemma dictReplaceRaw_run g d key :
  dict_wf T d → Z.of_nat (size (dict_entries d)) < 2 ^ 30 →
  ∃ p d', dictReplaceRaw T g d key = Some (Some p, d') ∧ dict_wf T d' ∧
    (((∃ w, contents (dict_entries d) !! p = Some (key, w)) ∧ same d d') ∨
     (absent (contents (dict_entries d)) key ∧ added d d' p key None)).
Proof using DictTypeOk0.
  intros Hwf Hb. unfold dictReplaceRaw.
  destruct (dictFind_run T g d key Hwf) as (r & d1 & -> & Hwf1 & Hs & Hr). cbn [mbind option_bind].
  destruct r as [p|]; [by exists p, d1; eauto|].
  destruct (dictAddRaw_run T g d1 key Hwf1) as (r & d2 & -> & Hwf2 & Hr2).
  { by rewrite (size_contents _ _ Hs). }
  destruct Hs as (Hc & Hit & Hlog). unfold added in *. rewrite Hc in Hr2.
  destruct r as [p|]; [|destruct Hr2 as [(p & v & Hp) _]; by destruct (Hr p v)].
  exists p, d2. split; [done|]. split; [done|]. right. destruct Hr2 as (? & ? & ? & ? & ?).
  repeat split; first [done|congruence].
Qed.
End values.

(** ** Deletion *)

Section deletion.
Context {K V : Type} `{!EqDecision K} (T : dictType K V) `{!DictTypeOk T}.
Implicit Types (m : gmap loc (dictEntry K V)) (h : dictht) (bs : list (list loc)) (d : dict K V).

Lemma table_set_same (h : dictht) i p : table_get h i = Some p → table_set h i p = Some h.
Proof.
  unfold table_get, table_set. destruct h as [[t|] s k u]; cbn; [|done]. unfold rd1.
  destruct (0 <=? i) eqn:E; [|done]. intros Hi. pose proof (lookup_lt_Some _ _ _ Hi).
  rewrite wr1_insert by lia. cbn. by rewrite list_insert_id.
Qed.

(** Unlinking [x]: through its predecessor, or through the head [p0]. *)
Lemma unlink_chain m p0 pre x l e :
  chain m p0 (pre ++ x :: l) → NoDup (pre ++ x :: l) → m !! x = Some e →
  match last pre with
  | None => chain m (de_next e) (pre ++ l)
  | Some q => ∃ eq, m !! q = Some eq ∧ chain (<[q := set_next (de_next e) eq]> m) p0 (pre ++ l)
  end.
Proof.
  revert p0. induction pre as [|y pre IH]; intros p0 Hc Hnd Hx; simpl in *.
  { destruct Hc as [-> (e' & He' & Hc)]. by simplify_eq. }
  destruct Hc as [-> (ey & Hy & Hc)]. apply NoDup_cons in Hnd as [Hny Hnd].
  specialize (IH (de_next ey) Hc Hnd Hx). destruct pre as [|z pre].
  { exists ey. split; [done|]. split; [done|]. exists (set_next (de_next e) ey).
    rewrite lookup_insert_eq. split; [done|]. simpl. apply chain_insert; [set_solver|].
    simpl in Hc. destruct Hc as [_ (e' & He' & Hc)]. by simplify_eq. }
  rewrite last_cons_cons. destruct (last (z :: pre)) as [q|] eqn:Hq; [|by apply last_None in Hq].
  destruct IH as (eq & Heq & Hch). exists eq. split; [done|]. split; [done|]. exists ey.
  rewrite lookup_insert_ne; [done|]. intros ->. apply Hny.
  apply elem_of_app. left. apply last_Some in Hq as [l' ->]. set_solver.
Qed.

(** The calls made when an entry is freed. *)
Definition freed (nofree : bool) (k : K) (w : option V) : list (devent K V) :=
  if nofree then [] else freed_key T k ++ freed_val T w.

Lemma free_entry_run d e :
  let d' := dictFreeVal T (dictFreeKey T d e) e in
  dict_entries d' = dict_entries d ∧ ht0 d' = ht0 d ∧ ht1 d' = ht1 d ∧
  rehashidx d' = rehashidx d ∧ iterators d' = iterators d ∧
  dict_log d' = dict_log d ++ freed_key T (de_key e) ++ freed_val T (de_val e).
Proof.
  unfold dictFreeVal, dictFreeKey, freed_key, freed_val, log_event.
  destruct (valDestructor T), (keyDestructor T); cbn; by rewrite <-?app_assoc, ?app_nil_r.
Qed.

(** Freeing the entry [p] that has been unlinked from table [t]. *)
Lemma drop_entry d e nofree p t :
  let d2 := if nofree : bool then d else dictFreeVal T (dictFreeKey T d e) e in
  let d3 := set_entries d2 (delete p (dict_entries d2)) in
  set_ht d3 t (add_used (-1) (ht d3 t)) =
  set_ht (Dict (delete p (dict_entries d)) (ht0 d) (ht1 d) (rehashidx d) (iterators d)
           (dict_log d ++ freed nofree (de_key e) (de_val e))) t (add_used (-1) (ht d t)).
Proof.
  destruct (free_entry_run d e) as (H1 & H2 & H3 & H4 & H5 & H6). unfold freed. destruct nofree.
  - rewrite app_nil_r. done.
  - cbv zeta. unfold set_entries, ht, set_ht. cbn [dict_entries ht0 ht1 rehashidx iterators dict_log].
    by rewrite H1, H2, H3, H4, H5, H6.
Qed.

(** The loop over a chain, at the suffix [l] after the entries [pre]. *)
Lemma delete_chain d key nofree t i p0 b pre l he n :
  (t = 0 ∨ t = 1) → table_get (ht d t) i = Some p0 → chain (dict_entries d) p0 b → NoDup b →
  b = pre ++ l → chain (dict_entries d) he l → (length l < n)%nat →
  (∀ q v, q ∈ pre → contents (dict_entries d) !! q ≠ Some (key, v)) →
  ∃ r, loop n (delete_body T d key nofree t i) (last pre, he) = Some r ∧
    match r with
    | None => ∀ q v, q ∈ b → contents (dict_entries d) !! q ≠ Some (key, v)
    | Some d' => ∃ x w l1 l2 m1 p1 h1, b = l1 ++ x :: l2 ∧
        contents (dict_entries d) !! x = Some (key, w) ∧
        contents m1 = contents (dict_entries d) ∧ chain m1 p1 (l1 ++ l2) ∧
        (∀ y, y ∉ b → m1 !! y = dict_entries d !! y) ∧
        table_set (ht d t) i p1 = Some h1 ∧
        d' = set_ht (Dict (delete x m1) (ht0 d) (ht1 d) (rehashidx d) (iterators d)
                      (dict_log d ++ freed nofree key w)) t (add_used (-1) h1)
    end.
Proof using DictTypeOk0.
  intros Ht Hg Hc0 Hnd. revert pre he n.
  induction l as [|x l IH]; intros pre he n Hb Hc Hn Hpre; (destruct n as [|n]; [simpl in Hn; lia|]);
    cbn [loop]; unfold delete_body at 1.
  { simpl in Hc. subst he. exists None. split; [done|]. rewrite Hb, app_nil_r. done. }
  destruct Hc as [-> (e & He & Hc)]. rewrite He. cbn [mbind option_bind]. rewrite compare_eq.
  case_bool_decide as Hk; cycle 1.
  { destruct (IH (pre ++ [x]) (de_next e) n) as (r & Hl & Hr); [by rewrite <-app_assoc|done|simpl in Hn; lia| |].
    - intros q v [Hq|Hq]%elem_of_app; [by apply Hpre|]. apply list_elem_of_singleton in Hq as ->.
      rewrite (contents_Some _ _ _ He). congruence.
    - rewrite last_snoc in Hl. eauto. }
  subst key. rewrite Hb in Hc0, Hnd.
  pose proof (unlink_chain _ _ _ _ _ _ Hc0 Hnd He) as Hun.
  destruct (last pre) as [q|] eqn:Hq.
  - destruct Hun as (eq & Heq & Hch). unfold store_entry. rewrite Heq. cbn [mbind option_bind].
    set (m1 := <[q := _]> (dict_entries d)) in *.
    eexists (Some _). split; [done|]. exists x, (de_val e), pre, l, m1, p0, (ht d t).
    split; [done|]. split; [by apply contents_Some|]. split; [by apply contents_set_next|].
    split; [done|]. split.
    { intros y Hy. apply lookup_insert_ne. intros <-. apply Hy.
      apply last_Some in Hq as [l' ->]. set_solver. }
    split; [by apply table_set_same|]. rewrite drop_entry. done.
  - apply last_None in Hq as ->. simpl in Hun. simpl in Hc0. destruct Hc0 as [-> _].
    destruct (ht_table (ht d t)) as [tb|] eqn:Etb; [|unfold table_get in Hg; by rewrite Etb in Hg].
    assert (∃ h1, table_set (ht d t) i (de_next e) = Some h1) as [h1 Hset].
    { unfold table_get in Hg. rewrite Etb in Hg. cbn in Hg. unfold rd1 in Hg.
      destruct (0 <=? i) eqn:E; [|done]. pose proof (lookup_lt_Some _ _ _ Hg).
      unfold table_set. rewrite Etb. cbn. rewrite wr1_insert by lia. cbn. eauto. }
    rewrite Hset. cbn [mbind option_bind].
    eexists (Some _). split; [done|]. exists x, (de_val e), [], l, (dict_entries d), (de_next e), h1.
    split; [done|]. split; [by apply contents_Some|]. do 4 (split; [done|]).
    rewrite drop_entry. by destruct Ht as [-> | ->].
Qed.

Lemma delete_in_run d b0 b1 key nofree t :
  t = 0 ∨ (t = 1 ∧ dictIsRehashing d = true) → dict_rep T d b0 b1 → ht_size (ht d t) ≠ 0 →
  ∃ r, delete_in T d key nofree (hashFunction T key) t = Some r ∧
    match r with
    | None => ∀ q v, q ∈ mjoin (buckets b0 b1 t) → contents (dict_entries d) !! q ≠ Some (key, v)
    | Some d' => dict_wf T d' ∧ iterators d' = iterators d ∧ ∃ x w,
        contents (dict_entries d) !! x = Some (key, w) ∧
        contents (dict_entries d') = delete x (contents (dict_entries d)) ∧
        dict_log d' = dict_log d ++ freed nofree key w
    end.
Proof using DictTypeOk0.
  intros Ht Hrep Hs.
  destruct (bucket_at T d b0 b1 t key Hrep Hs) as (i & p & b & Hi & Hr & Hm & Hg & Hb & Hc & Hn).
  unfold delete_in. rewrite Hi, Hg. cbn [mbind option_bind].
  destruct (bucket_rest T d b0 b1 t (Z.to_nat i) b) as (Hnd1 & Hnd2 & Hdis & Hdom & Hsize); [tauto|done|done|].
  destruct (delete_chain d key nofree t i p b [] b p (chain_fuel d)) as (r & Hl & Hres);
    [tauto|done|done|done|done|done|done|set_solver|].
  change (last []) with (@None loc) in Hl. rewrite Hl. exists r. split; [done|]. destruct r as [d'|].
  2: { intros q v Hq Hkv. apply (Hres q v); [|done].
       eapply key_bucket; [by apply rep_table|done|done|]. by rewrite <-Hm. }
  destruct Hres as (x & w & l1 & l2 & m1 & p1 & h1 & -> & Hx & Hcont & Hch & Hag & Hset & ->).
  apply NoDup_app in Hnd1 as (Hl1 & Hd12 & [Hxl Hl2]%NoDup_cons).
  assert (x ∉ l1) as Hx1. { intros Hin. apply (Hd12 x Hin). set_solver. }
  assert (x ∉ rest b0 b1 t (Z.to_nat i)) as Hxr. { apply Hdis. set_solver. }
  assert (contents (delete x m1) = delete x (contents (dict_entries d))) as Hcd.
  { rewrite <-Hcont. unfold contents. by rewrite fmap_delete. }
  destruct (rep_update T d b0 b1 t i (l1 ++ x :: l2) (l1 ++ l2) (delete x m1) p1 (-1) Hrep Ht)
    as (h' & Hset' & Hwf); [lia|done| | | | | | | | | |].
  - apply chain_delete; [set_solver|done].
  - intros y Hy. rewrite lookup_delete_ne by set_solver. apply Hag. intros Hin. by apply (Hdis y).
  - intros y Hy. rewrite Hcd, lookup_delete_ne by set_solver.
    pose proof (rep_table T d b0 b1 t Hrep) as [_ Hpl].
    destruct (ht_table (ht d t)); [|destruct Hpl as [_ Hnil]; by rewrite Hnil, lookup_nil in Hb].
    destruct Hpl as (_ & _ & _ & Hpl). destruct (Hpl _ _ y Hb) as (k & v & Hk & Hlk); [set_solver|].
    exists k, v. split; [done|lia].
  - apply NoDup_app. split; [apply NoDup_app; split; [done|]; split; [|done]; set_solver|].
    split; [|done]. intros y Hy. apply Hdis. set_solver.
  - rewrite <-contents_dom, Hcd, dom_delete_L, contents_dom, Hdom.
    apply set_eq. intros y. rewrite elem_of_difference, !elem_of_list_to_set, elem_of_singleton.
    set_solver.
  - rewrite Hcd. apply unique_keys_delete, Hrep.
  - pose proof (rep_bound _ _ _ _ Hrep).
    assert (size (delete x m1) ≤ size m1)%nat by (apply map_subseteq_size, delete_subseteq).
    rewrite (contents_size m1 (dict_entries d)) in * by done. lia.
  - rewrite !length_app. simpl. lia.
  - intros _ _ _. by destruct l1.
  - assert (h' = h1) as -> by congruence. split; [apply Hwf|]. split; [unfold set_ht; by destruct (t =? 0)|].
    exists x, w. split; [done|]. rewrite <-Hcd. unfold set_ht. by destruct (t =? 0).
Qed.

Lemma dictGenericDelete_run g d key nofree :
  dict_wf T d →
  ∃ r d', dictGenericDelete T g d key nofree = Some (r, d') ∧ dict_wf T d' ∧ iterators d' = iterators d ∧
    ((r = DICT_ERR ∧ absent (contents (dict_entries d)) key ∧ same d d') ∨
     (r = DICT_OK ∧ ∃ x w, contents (dict_entries d) !! x = Some (key, w) ∧
      contents (dict_entries d') = delete x (contents (dict_entries d)) ∧
      dict_log d' = dict_log d ++ freed nofree key w)).
Proof using DictTypeOk0.
  intros Hwf. unfold dictGenericDelete. destruct (ht_size (ht0 d) =? 0) eqn:Hs.
  { pose proof Hwf as (b0 & b1 & Hrep). exists DICT_ERR, d. do 3 (split; [done|]). left.
    split; [done|]. split; [|apply same_refl]. intros p v.
    rewrite contents_lookup, (rep_empty T d b0 b1) by (done || lia). done. }
  destruct (step_run T g d Hwf) as (d1 & -> & Hwf1 & Hsame & _ & Hs1). cbn [mbind option_bind].
  pose proof Hwf1 as (b0 & b1 & Hrep). unfold for_tables, dictHashKey.
  pose proof Hsame as (Hc & Hit & Hlog). rewrite <-Hc, <-Hit, <-Hlog. clear Hc Hit Hlog.
  assert (∀ r d2, dict_wf T d2 ∧ iterators d2 = iterators d1 ∧ (∃ x w,
      contents (dict_entries d1) !! x = Some (key, w) ∧
      contents (dict_entries d2) = delete x (contents (dict_entries d1)) ∧
      dict_log d2 = dict_log d1 ++ freed nofree key w) → r = Some (DICT_OK, d2) →
    ∃ r' d', r = Some (r', d') ∧ dict_wf T d' ∧ iterators d' = iterators d1 ∧
    ((r' = DICT_ERR ∧ absent (contents (dict_entries d1)) key ∧ same d d') ∨
     (r' = DICT_OK ∧ ∃ x w, contents (dict_entries d1) !! x = Some (key, w) ∧
      contents (dict_entries d') = delete x (contents (dict_entries d1)) ∧
      dict_log d' = dict_log d1 ++ freed nofree key w))) as Hok.
  { intros r d2 (? & ? & ?) ->. exists DICT_OK, d2. do 3 (split; [done|]). by right. }
  destruct (delete_in_run d1 b0 b1 key nofree 0) as (r & -> & Hr); [by left|done|apply Hs1; lia|].
  cbn [mbind option_bind]. destruct r as [d2|]; [by eapply Hok|].
  assert (∀ p v, contents (dict_entries d1) !! p = Some (key, v) → p ∈ mjoin b1) as Hin.
  { intros p v Hp. assert (p ∈ dom (dict_entries d1)) as Hd.
    { rewrite <-contents_dom. by apply elem_of_dom_2 in Hp. }
    rewrite (rep_dom _ _ _ _ Hrep) in Hd. apply elem_of_list_to_set, elem_of_app in Hd as [Hp0|]; [|done].
    by destruct (Hr p v). }
  assert (absent (contents (dict_entries d1)) key → ∃ r' d', Some (DICT_ERR, d1) = Some (r', d') ∧
    dict_wf T d' ∧ iterators d' = iterators d1 ∧
    ((r' = DICT_ERR ∧ absent (contents (dict_entries d1)) key ∧ same d d') ∨
     (r' = DICT_OK ∧ ∃ x w, contents (dict_entries d1) !! x = Some (key, w) ∧
      contents (dict_entries d') = delete x (contents (dict_entries d1)) ∧
      dict_log d' = dict_log d1 ++ freed nofree key w))) as Hnone.
  { intros Hab. exists DICT_ERR, d1. do 3 (split; [done|]). by left. }
  destruct (dictIsRehashing d1) eqn:Hr1; cbn [mbind option_bind].
  - destruct (delete_in_run d1 b0 b1 key nofree 1) as (r & -> & Hr2);
      [by right|done|by apply (rep_size1 T d1 b0 b1)|].
    cbn [mbind option_bind]. destruct r as [d2|]; [by eapply Hok|].
    apply Hnone. intros p v Hp. apply (Hr2 p v); [by eapply Hin|done].
  - apply Hnone. intros p v Hp. apply Hin in Hp.
    rewrite (rep_b1_nil T d1 b0 b1) in Hp by done. set_solver.
Qed.
End deletion.

(** ** Clearing *)

Section clear.
Context {K V : Type} `{!EqDecision K} (T : dictType K V) `{!DictTypeOk T}.
Implicit Types (m : gmap loc (dictEntry K V)) (h : dictht) (bs : list (list loc)) (d : dict K V).

Definition is_callback (e : devent K V) : bool := match e with Callback => true | _ => false end.
(** The calls of the destructors. *)
Definition destroyed (log : list (devent K V)) : list (devent K V) :=
  filter (λ e, is_callback e = false) log.
Definition freed_entry m (x : loc) : list (devent K V) :=
  match m !! x with Some e => freed T false (de_key e) (de_val e) | None => [] end.

Lemma destroyed_app l1 l2 : destroyed (l1 ++ l2) = destroyed l1 ++ destroyed l2.
Proof. apply filter_app. Qed.

Lemma destroyed_freed m x : destroyed (freed_entry m x) = freed_entry m x.
Proof.
  unfold freed_entry, freed, freed_key, freed_val. destruct (m !! x); [|done].
  by destruct (keyDestructor T), (valDestructor T).
Qed.

(** [d'] is [d] without the entries [l], which have been destroyed in this order. *)
Definition cleared d d' (l : list loc) : Prop :=
  (∀ x, dict_entries d' !! x = if decide (x ∈ l) then None else dict_entries d !! x) ∧
  rehashidx d' = rehashidx d ∧ iterators d' = iterators d ∧
  destroyed (dict_log d') = destroyed (dict_log d) ++ (l ≫= freed_entry (dict_entries d)).

Lemma cleared_refl d : cleared d d [].
Proof. split; [intros x; rewrite decide_False by set_solver; done|]. do 2 (split; [done|]). by rewrite app_nil_r. Qed.

Lemma cleared_trans d1 d2 d3 l1 l2 :
  cleared d1 d2 l1 → cleared d2 d3 l2 → NoDup (l1 ++ l2) → cleared d1 d3 (l1 ++ l2).
Proof.
  intros (H1 & H2 & H3 & H4) (G1 & G2 & G3 & G4) (_ & Hd & _)%NoDup_app.
  split; [|split; [congruence|split; [congruence|]]].
  - intros x. rewrite G1, H1. destruct (decide (x ∈ l2)), (decide (x ∈ l1)), (decide (x ∈ l1 ++ l2));
      set_solver.
  - rewrite G4, H4, <-app_assoc. f_equal. rewrite bind_app. f_equal.
    assert (∀ l, (∀ x, x ∈ l → x ∈ l2) → l ≫= freed_entry (dict_entries d2) = l ≫= freed_entry (dict_entries d1)) as Hl.
    { induction l as [|x l IH]; intros Hin; [done|]. rewrite !bind_cons, IH by set_solver. f_equal.
      unfold freed_entry. rewrite H1, decide_False; [done|]. intros Hx. apply (Hd x Hx). set_solver. }
    by apply Hl.
Qed.

Lemma clear_chain_run (l : list loc) d he t n :
  t = 0 ∨ t = 1 → chain (dict_entries d) he l → NoDup l → in_u 64 (ht_used (ht d t)) →
  (length l < n)%nat →
  ∃ d', loop n (clear_chain_body T t) (d, he) = Some d' ∧ cleared d d' l ∧
    ht d' t = add_used (- zlen l) (ht d t) ∧ ht d' (1 - t) = ht d (1 - t).
Proof.
  intros Ht. revert d he n. induction l as [|x l IH]; intros d he n Hc Hnd Hu Hn;
    (destruct n as [|n]; [simpl in Hn; lia|]); cbn [loop clear_chain_body].
  { simpl in Hc. subst he. exists d. split; [done|]. split; [apply cleared_refl|]. split; [|done].
    destruct (ht d t). unfold add_used. cbn in *. f_equal. rewrite Z.add_0_r. by rewrite wrap_small. }
  destruct Hc as [-> (e & He & Hc)]. apply NoDup_cons in Hnd as [Hx Hnd]. cbn [clear_chain_body].
  rewrite He. cbn [mbind option_bind]. rewrite (drop_entry T d e false x t).
  set (d1 := set_ht _ t _).
  assert (cleared d d1 [x]) as Hc1.
  { split; [|split; [|split]]; unfold d1, set_ht; destruct (t =? 0); cbn; try done.
    1,2: intros y; destruct (decide (y ∈ [x])) as [->%list_elem_of_singleton|Hy];
      [by rewrite lookup_delete_eq|rewrite lookup_delete_ne; [done|]; intros ->; set_solver].
    1,2: rewrite destroyed_app, app_nil_r; f_equal;
      change (freed_key T (de_key e) ++ freed_val T (de_val e)) with (freed T false (de_key e) (de_val e));
      rewrite <-(destroyed_freed (dict_entries d) x); unfold freed_entry; by rewrite He. }
  destruct (IH d1 (de_next e) n) as (d' & Hl & Hcl & H1 & H2).
  - destruct Hc1 as [Hag _]. eapply chain_agree; [|done]. intros y Hy. rewrite Hag, decide_False; [done|].
    intros ->%list_elem_of_singleton. done.
  - done.
  - unfold d1, ht, set_ht. destruct Ht as [-> | ->]; cbn; by apply wrap_range.
  - simpl in Hn. lia.
  - exists d'. split; [exact Hl|]. split; [|split].
    + apply (cleared_trans d d1 d' [x] l); [done|done|]. apply NoDup_cons. done.
    + rewrite H1. unfold d1, ht, set_ht. destruct Ht as [-> | ->]; cbn; rewrite add_used_add; f_equal; lia.
    + rewrite H2. unfold d1, ht, set_ht. by destruct Ht as [-> | ->].
Qed.

(** The loop over the buckets, at the suffix [bs2] of the buckets. *)
Lemma clear_loop_run bs2 d t tb callback i n :
  t = 0 ∨ t = 1 → ht_table (ht d t) = Some tb → zlen tb = ht_size (ht d t) →
  0 ≤ i → Forall2 (chain (dict_entries d)) (drop (Z.to_nat i) tb) bs2 →
  i + zlen bs2 = ht_size (ht d t) →
  NoDup (mjoin bs2) → ht_used (ht d t) = zlen (mjoin bs2) → zlen (mjoin bs2) ≤ 2 ^ 31 →
  (length bs2 < n)%nat →
  ∃ d', loop n (clear_body T t callback) (d, i) = Some d' ∧ cleared d d' (mjoin bs2) ∧
    ht d' (1 - t) = ht d (1 - t).
Proof.
  intros Ht. revert d i n. induction bs2 as [|b bs2 IH]; intros d i n Htb Hl Hi Hch Hsz Hnd Hu Hb Hn;
    (destruct n as [|n]; [simpl in Hn; lia|]); cbn [loop clear_body]; cbn [length] in *.
  { destruct ((i <? _) && _) eqn:E; [lia|]. exists d. split; [done|]. split; [apply cleared_refl|done]. }
  destruct ((i <? ht_size (ht d t)) && (0 <? ht_used (ht d t))) eqn:E.
  2: { assert (mjoin (b :: bs2) = []) as Hnil by (apply length_zero_iff_nil; lia).
       exists d. split; [done|]. rewrite Hnil. split; [apply cleared_refl|done]. }
  set (d1 := if callback && _ then _ else d).
  assert (ht d1 t = ht d t ∧ ht d1 (1 - t) = ht d (1 - t) ∧ cleared d d1 []) as (Hd1 & Hd1' & Hc1).
  { unfold d1. destruct (callback && _); [|by split; [|split; [|apply cleared_refl]]].
    do 2 (split; [done|]). split; [intros x; by rewrite decide_False by set_solver|].
    do 2 (split; [done|]). unfold log_event. cbn [dict_log]. by rewrite destroyed_app. }
  clearbody d1. rewrite Hd1. unfold table_get. rewrite Htb. cbn [mbind option_bind].
  apply Forall2_cons_inv_r in Hch as (p & tb' & Hp & Hch & Hdrop). rewrite rd1_lookup by done.
  assert (tb !! Z.to_nat i = Some p) as -> by (rewrite <-(Nat.add_0_r (Z.to_nat i)), <-lookup_drop, Hdrop; done).
  cbn [mbind option_bind].
  assert (mjoin (b :: bs2) = b ++ mjoin bs2) as Hj by done. rewrite Hj in *. clear Hj.
  pose proof Hnd as (Hnd1 & Hdis & Hnd2)%NoDup_app. rewrite length_app in Hu, Hb.
  assert (∀ p l, chain (dict_entries d) p l → chain (dict_entries d1) p l) as Hcd1.
  { intros p' l. apply chain_agree. intros x _. destruct Hc1 as [-> _]. by rewrite decide_False by set_solver. }
  destruct (clear_chain_run b d1 p t (chain_fuel d1)) as (d2 & -> & Hc2 & H1 & H2); [done|by auto|done| | |].
  { rewrite Hd1, Hu. rlia. }
  { unfold chain_fuel. assert (length b ≤ size (dict_entries d1))%nat; [|lia]. apply chain_length; [done|].
    intros x Hx. destruct (chain_alloc _ _ _ x (Hcd1 _ _ Hp) Hx) as [e He]. eauto. }
  cbn [mbind option_bind]. rewrite Hd1 in H1. rewrite Hd1' in H2.
  assert (cleared d d2 b) as Hc12 by by apply (cleared_trans d d1 d2 [] b).
  destruct (IH d2 (i + 1) n) as (d' & Hl' & Hc3 & H3).
  - by rewrite H1.
  - by rewrite H1.
  - lia.
  - replace (Z.to_nat (i + 1)) with (Z.to_nat i + 1)%nat by lia. rewrite <-drop_drop, Hdrop. simpl.
    rewrite drop_0.
    apply Forall2_same_length_lookup in Hch as [Hlen Hch]. apply Forall2_same_length_lookup.
    split; [done|]. intros j q c Hq Hc. eapply chain_agree; [|exact (Hch j q c Hq Hc)]. intros x Hx.
    destruct Hc12 as [-> _]. rewrite decide_False; [done|]. intros Hxb. apply (Hdis x Hxb).
    by eapply elem_of_bucket.
  - rewrite H1. cbn [ht_size add_used]. lia.
  - done.
  - rewrite H1, add_used_used, Hu. rewrite wrap_small by rlia. lia.
  - lia.
  - lia.
  - exists d'. split; [exact Hl'|]. split; [by apply (cleared_trans d d2 d')|]. congruence.
Qed.

Lemma dictClear_run d t bs callback :
  t = 0 ∨ t = 1 → table_ok T (dict_entries d) (ht d t) bs → NoDup (mjoin bs) → zlen (mjoin bs) ≤ 2 ^ 31 →
  ∃ d', _dictClear T d t callback = Some (DICT_OK, d') ∧ cleared d d' (mjoin bs) ∧
    ht d' t = _dictReset ∧ ht d' (1 - t) = ht d (1 - t).
Proof.
  intros Ht [Hu Htab] Hnd Hb. unfold _dictClear.
  assert (∃ d', loop (S (Z.to_nat (ht_size (ht d t)))) (clear_body T t callback) (d, 0) = Some d' ∧
    cleared d d' (mjoin bs) ∧ ht d' (1 - t) = ht d (1 - t)) as (d' & -> & (Hag & Hri & Hit & Hlog) & Ho).
  { destruct (ht_table (ht d t)) as [tb|] eqn:E.
    - destruct Htab as (_ & Hl & Hch & _). pose proof (Forall2_length _ _ _ Hch).
      apply (clear_loop_run bs d t tb callback 0); try done; lia.
    - destruct Htab as [Hr ->]. rewrite Hr. exists d. split; [|split; [apply cleared_refl|done]].
      cbn. rewrite Hr. done. }
  cbn. eexists. split; [done|]. unfold cleared. unfold set_ht, ht in *.
  destruct Ht as [-> | ->]; cbn in *; done.
Qed.

(** Everything is destroyed exactly once, and the dictionary is empty again. *)
Lemma dictEmpty_run d callback :
  dict_wf T d →
  ∃ d' l, dictEmpty T d callback = Some d' ∧ dict_wf T d' ∧ dict_entries d' = ∅ ∧ iterators d' = 0 ∧
    dictIsRehashing d' = false ∧ l ≡ₚ (map_to_list (dict_entries d)).*1 ∧
    destroyed (dict_log d') = destroyed (dict_log d) ++ (l ≫= freed_entry (dict_entries d)).
Proof using DictTypeOk0.
  intros (b0 & b1 & [Ht0 Ht1 Hnd Hdom Hk Hb Hre]). unfold dictEmpty.
  pose proof (rep_used_total d b0 b1 Hnd Hdom) as Hl. rewrite length_app in Hl.
  pose proof Hnd as (Hnd0 & Hdis & Hnd1)%NoDup_app.
  destruct (dictClear_run d 0 b0 callback) as (d1 & -> & Hc1 & Hr1 & Ho1); [by left|done|done|lia|].
  cbn [mbind option_bind].
  assert (ht d1 1 = ht1 d) as Hd11 by done.
  destruct (dictClear_run d1 1 b1 callback) as (d2 & -> & Hc2 & Hr2 & Ho2); [by right| |done|lia|].
  { rewrite Hd11. eapply table_ok_agree; [|done]. intros x Hx. destruct Hc1 as [-> _].
    rewrite decide_False; [done|]. intros Hx0. by apply (Hdis x). }
  cbn [mbind option_bind].
  pose proof (cleared_trans _ _ _ _ _ Hc1 Hc2 Hnd) as (Hag & _ & _ & Hlog).
  assert (dict_entries d2 = ∅) as Hemp.
  { apply map_empty. intros x. rewrite Hag. case_decide as Hx; [done|].
    apply not_elem_of_dom. rewrite Hdom. by rewrite elem_of_list_to_set. }
  eexists _, (mjoin b0 ++ mjoin b1). split; [done|]. split.
  { assert (ht0 d2 = _dictReset) as Hz0 by (change (ht d2 (1 - 1) = _dictReset); rewrite Ho2; exact Hr1).
    assert (ht1 d2 = _dictReset) as Hz1 by exact Hr2.
    exists [], []. split; cbn; rewrite ?Hemp, ?Hz0, ?Hz1; try done.
    apply NoDup_nil_2. }
  cbn. split; [done|]. split; [done|]. split; [done|]. split; [|done].
  apply NoDup_Permutation; [done|apply NoDup_fst_map_to_list|]. intros x.
  rewrite <-(elem_of_list_to_set (C := gset loc)), <-Hdom, elem_of_dom. split.
  - intros [e He]. apply list_elem_of_fmap. exists (x, e). split; [done|]. by apply elem_of_map_to_list.
  - intros ([y e] & -> & He%elem_of_map_to_list)%list_elem_of_fmap. eauto.
Qed.
End clear.
