(* ===== verification/DictMap.v ===== *)
(** * A dictionary is a finite map

    Sequences of operations of [dict.c], with resizing and incremental
    rehashing in between, against a finite map: results, contents and the calls
    of the destructors. *)

From S2P Require Import Prelude Dict DictSpec.

#[local] Open Scope Z_scope.

(** ** Operations *)

Inductive dop (K V : Type) :=
  | DAdd (k : K) (v : V)
  | DAddRaw (k : K)
  | DReplace (k : K) (v : V)
  | DReplaceRaw (k : K)
  | DDelete (k : K) (nofree : bool)
  | DFind (k : K)
  | DFetchValue (k : K)
  | DRehash (n : Z)
  | DRehashMilliseconds (times : nat → Z) (ms : Z)
  | DResize
  | DExpand (n : Z)
  | DEmpty (callback : bool).
Arguments DAdd {K V} _ _.
Arguments DAddRaw {K V} _.
Arguments DReplace {K V} _ _.
Arguments DReplaceRaw {K V} _.
Arguments DDelete {K V} _ _.
Arguments DFind {K V} _.
Arguments DFetchValue {K V} _.
Arguments DRehash {K V} _.
Arguments DRehashMilliseconds {K V} _ _.
Arguments DResize {K V}.
Arguments DExpand {K V} _.
Arguments DEmpty {K V} _.

(** What a caller sees: a return code, whether there is an entry, a value. *)
Inductive dres (V : Type) :=
  | RCode (r : Z)
  | REntry (found : bool)
  | RValue (v : option V).
Arguments RCode {V} _.
Arguments REntry {V} _.
Arguments RValue {V} _.

Section runs.
Context {K V : Type} `{Countable K} `{!EntryAllocator} (T : dictType K V).
Implicit Types (d : dict K V) (M : gmap K (option V)).

Definition run_dop (g : dictGlobals) (op : dop K V) d : option (dres V * dict K V) :=
  match op with
  | DAdd k v => '(r, d) ← dictAdd T g d k v; Some (RCode r, d)
  | DAddRaw k => '(p, d) ← dictAddRaw T g d k; Some (REntry (bool_decide (is_Some p)), d)
  | DReplace k v => '(r, d) ← dictReplace T g d k v; Some (RCode r, d)
  | DReplaceRaw k => '(p, d) ← dictReplaceRaw T g d k; Some (REntry (bool_decide (is_Some p)), d)
  | DDelete k nofree =>
    '(r, d) ← (if nofree then dictDeleteNoFree T g d k else dictDelete T g d k); Some (RCode r, d)
  | DFind k => '(p, d) ← dictFind T g d k; Some (REntry (bool_decide (is_Some p)), d)
  | DFetchValue k => '(v, d) ← dictFetchValue T g d k; Some (RValue v, d)
  | DRehash n => '(r, d) ← dictRehash T g d n; Some (RCode r, d)
  | DRehashMilliseconds times ms => '(r, d) ← dictRehashMilliseconds T g d times ms; Some (RCode r, d)
  | DResize => '(r, d) ← dictResize g d; Some (RCode r, d)
  | DExpand n => '(r, d) ← dictExpand d n; Some (RCode r, d)
  | DEmpty callback => d ← dictEmpty T d callback; Some (RCode DICT_OK, d)
  end.

(** The globals may change between the operations. *)
Fixpoint run_dops (ops : list (dictGlobals * dop K V)) d : option (list (dres V) * dict K V) :=
  match ops with
  | [] => Some ([], d)
  | (g, op) :: ops =>
    '(r, d) ← run_dop g op d;
    '(rs, d) ← run_dops ops d;
    Some (r :: rs, d)
  end.

Definition dop_pre (op : dop K V) : Prop :=
  match op with
  | DRehash n => 1 ≤ n ∧ in_s 32 (n * 10)
  | DExpand n => 0 ≤ n ≤ 2 ^ 31
  | _ => True
  end.

(** ** The specification

    [spec_dop M op r M' evs]: on the map [M] the operation may return [r],
    leaving [M'], and calls the destructors [evs] in this order. *)
Inductive spec_dop M : dop K V → dres V → gmap K (option V) → list (devent K V) → Prop :=
  | spec_add_new k v : M !! k = None →
      spec_dop M (DAdd k v) (RCode DICT_OK) (<[k := Some (dup_val T v)]> M) []
  | spec_add_old k v w : M !! k = Some w → spec_dop M (DAdd k v) (RCode DICT_ERR) M []
  | spec_add_raw_new k : M !! k = None → spec_dop M (DAddRaw k) (REntry true) (<[k := None]> M) []
  | spec_add_raw_old k w : M !! k = Some w → spec_dop M (DAddRaw k) (REntry false) M []
  | spec_replace_new k v : M !! k = None →
      spec_dop M (DReplace k v) (RCode 1) (<[k := Some (dup_val T v)]> M) []
  | spec_replace_old k v w : M !! k = Some w →
      spec_dop M (DReplace k v) (RCode 0) (<[k := Some (dup_val T v)]> M) (freed_val T w)
  | spec_replace_raw_new k : M !! k = None →
      spec_dop M (DReplaceRaw k) (REntry true) (<[k := None]> M) []
  | spec_replace_raw_old k w : M !! k = Some w → spec_dop M (DReplaceRaw k) (REntry true) M []
  | spec_delete_none k nofree : M !! k = None →
      spec_dop M (DDelete k nofree) (RCode DICT_ERR) M []
  | spec_delete k nofree w : M !! k = Some w →
      spec_dop M (DDelete k nofree) (RCode DICT_OK) (delete k M) (freed T nofree k w)
  | spec_find k : spec_dop M (DFind k) (REntry (bool_decide (is_Some (M !! k)))) M []
  | spec_fetch k : spec_dop M (DFetchValue k) (RValue (M !! k ≫= id)) M []
  | spec_rehash n r : spec_dop M (DRehash n) (RCode r) M []
  | spec_rehash_ms times ms r : spec_dop M (DRehashMilliseconds times ms) (RCode r) M []
  | spec_resize r : spec_dop M DResize (RCode r) M []
  | spec_expand n r : spec_dop M (DExpand n) (RCode r) M []
  | spec_empty callback l : l ≡ₚ map_to_list M →
      spec_dop M (DEmpty callback) (RCode DICT_OK) ∅ (l ≫= λ '(k, w), freed T false k w).

Inductive spec_dops : gmap K (option V) → list (dictGlobals * dop K V) → list (dres V) →
    gmap K (option V) → list (devent K V) → Prop :=
  | spec_nil M : spec_dops M [] [] M []
  | spec_cons M g op ops r rs M1 M2 ev evs :
      spec_dop M op r M1 ev → spec_dops M1 ops rs M2 evs →
      spec_dops M ((g, op) :: ops) (r :: rs) M2 (ev ++ evs).

Context `{!DictTypeOk T}.

Lemma destroyed_freed_val w : destroyed (freed_val T w) = freed_val T w.
Proof. unfold freed_val. by destruct (valDestructor T). Qed.

Lemma destroyed_freed_key nofree k w : destroyed (freed T nofree k w) = freed T nofree k w.
Proof.
  unfold freed, freed_key, freed_val. destruct nofree; [done|].
  by destruct (keyDestructor T), (valDestructor T).
Qed.

Lemma wf_unique d : dict_wf T d → unique_keys (contents (dict_entries d)).
Proof. intros (b0 & b1 & []). done. Qed.

Lemma map_absent d k : dict_wf T d → absent (contents (dict_entries d)) k → dict_map d !! k = None.
Proof. intros. apply abs_lookup_None; [by apply wf_unique|done]. Qed.

Lemma map_present d k p w :
  dict_wf T d → contents (dict_entries d) !! p = Some (k, w) → dict_map d !! k = Some w.
Proof. intros. apply abs_lookup; [by apply wf_unique|eauto]. Qed.

Lemma map_added d d' p k v :
  dict_wf T d → absent (contents (dict_entries d)) k → added d d' p k v →
  dict_map d' = <[k := v]> (dict_map d).
Proof.
  intros Hwf Hab (Hn & Hc & _). unfold dict_map. rewrite Hc. apply abs_insert; [by apply wf_unique| |].
  - intros q w Hq. by destruct (Hab q w).
  - intros k' w Hk. congruence.
Qed.

(** The entries in the order they are destroyed. *)
Lemma destroyed_entries d (l : list loc) :
  dict_wf T d → l ≡ₚ (map_to_list (dict_entries d)).*1 →
  ∃ kvs, kvs ≡ₚ map_to_list (dict_map d) ∧
    l ≫= freed_entry T (dict_entries d) = kvs ≫= λ '(k, w), freed T false k w.
Proof.
  intros Hwf Hl. exists (omap (λ x, contents (dict_entries d) !! x) l). split.
  - unfold dict_map, abs. rewrite map_to_list_to_map by by apply unique_keys_nodup, wf_unique.
    rewrite Hl. unfold contents. rewrite map_to_list_fmap.
    assert (∀ xs, (∀ x e, (x, e) ∈ xs → dict_entries d !! x = Some e) →
      omap (λ x, ((λ e, (de_key e, de_val e)) <$> dict_entries d) !! x) xs.*1 =
      (prod_map id (λ e, (de_key e, de_val e)) <$> xs).*2) as Hx; [|rewrite Hx; [done|]].
    { induction xs as [|[x e] xs IH]; intros Hin; [done|]. cbn. rewrite lookup_fmap, (Hin x e) by set_solver.
      cbn. f_equal. apply IH. intros. apply Hin. set_solver. }
    intros x e. apply elem_of_map_to_list.
  - clear Hl. induction l as [|x l IH]; [done|]. rewrite bind_cons, IH. cbn.
    rewrite contents_lookup. unfold freed_entry at 1. by destruct (dict_entries d !! x).
Qed.

(** One operation. *)
Lemma run_dop_spec g op d :
  dict_wf T d → Z.of_nat (size (dict_map d)) < 2 ^ 30 → dop_pre op →
  ∃ r d' ev, run_dop g op d = Some (r, d') ∧ dict_wf T d' ∧ spec_dop (dict_map d) op r (dict_map d') ev ∧
    destroyed (dict_log d') = destroyed (dict_log d) ++ ev.
Proof.
  intros Hwf Hb Hpre. rewrite (dict_map_size T) in Hb by done.
  assert (∀ r d', dict_wf T d' → same d d' → spec_dop (dict_map d) op r (dict_map d) [] →
    ∃ r' d'' ev, Some (r, d') = Some (r', d'') ∧ dict_wf T d'' ∧ spec_dop (dict_map d) op r' (dict_map d'') ev ∧
    destroyed (dict_log d'') = destroyed (dict_log d) ++ ev) as Hsame.
  { intros r d' Hwf' Hs Hsp. exists r, d', []. split; [done|]. split; [done|].
    rewrite (dict_map_same d d') by done. split; [done|]. rewrite app_nil_r. by destruct Hs as (_ & _ & ->). }
  assert (∀ r d' p k v, dict_wf T d' → absent (contents (dict_entries d)) k → added d d' p k v →
    (dict_map d !! k = None → spec_dop (dict_map d) op r (<[k := v]> (dict_map d)) []) →
    ∃ r' d'' ev, Some (r, d') = Some (r', d'') ∧ dict_wf T d'' ∧ spec_dop (dict_map d) op r' (dict_map d'') ev ∧
    destroyed (dict_log d'') = destroyed (dict_log d) ++ ev) as Hadd.
  { intros r d' p k v Hwf' Hab Had Hsp. exists r, d', []. split; [done|]. split; [done|].
    rewrite (map_added d d' p k v) by done. split; [by apply Hsp, map_absent|].
    rewrite app_nil_r. by destruct Had as (_ & _ & _ & ->). }
  destruct op as [k v|k|k v|k|k nofree|k|k|n|times ms| |n|callback]; cbn [run_dop].
  - destruct (dictAdd_run T g d k v Hwf Hb) as (r & d' & -> & Hwf' & [(-> & (p & w & Hp) & Hs)|(-> & Hab & p & Had)]);
      cbn [mbind option_bind]; [|by eapply Hadd; eauto using spec_add_new].
    apply Hsame; [done..|]. eapply spec_add_old. by eapply map_present.
  - destruct (dictAddRaw_run T g d k Hwf Hb) as (r & d' & -> & Hwf' & Hr); cbn [mbind option_bind].
    destruct r as [p|]; [destruct Hr as [Hab Had]; eapply Hadd; eauto using spec_add_raw_new|].
    destruct Hr as [(p & w & Hp) Hs]. apply Hsame; [done..|]. eapply spec_add_raw_old. by eapply map_present.
  - destruct (dictReplace_run T g d k v Hwf Hb) as (r & d' & -> & Hwf' & _ &
      [(-> & Hab & p & Had)|(-> & p & w & Hp & Hc & Hlog)]); cbn [mbind option_bind];
      [by eapply Hadd; eauto using spec_replace_new|].
    exists (RCode 0), d', (freed_val T w). split; [done|]. split; [done|]. split.
    + replace (dict_map d') with (<[k := Some (dup_val T v)]> (dict_map d)).
      * apply spec_replace_old. by eapply map_present.
      * unfold dict_map. rewrite Hc. symmetry. pose proof (wf_unique d Hwf) as Hu. apply abs_insert; [done| |].
        -- intros q w' Hq. by eapply Hu.
        -- intros k' w' Hk. congruence.
    + by rewrite Hlog, destroyed_app, destroyed_freed_val.
  - destruct (dictReplaceRaw_run T g d k Hwf Hb) as (p & d' & -> & Hwf' & [[[w Hp] Hs]|[Hab Had]]);
      cbn [mbind option_bind]; [|eapply Hadd; eauto using spec_replace_raw_new].
    apply Hsame; [done..|]. eapply spec_replace_raw_old. by eapply map_present.
  - replace (if nofree then dictDeleteNoFree T g d k else dictDelete T g d k)
      with (dictGenericDelete T g d k nofree) by (by destruct nofree).
    destruct (dictGenericDelete_run T g d k nofree Hwf) as (r & d' & -> & Hwf' & _ &
      [(-> & Hab & Hs)|(-> & p & w & Hp & Hc & Hlog)]); cbn [mbind option_bind].
    { apply Hsame; [done..|]. apply spec_delete_none. by apply map_absent. }
    exists (RCode DICT_OK), d', (freed T nofree k w). split; [done|]. split; [done|]. split.
    + replace (dict_map d') with (delete k (dict_map d)).
      * apply spec_delete. by eapply map_present.
      * unfold dict_map. rewrite Hc. symmetry. eapply abs_delete; [by apply wf_unique|done].
    + by rewrite Hlog, destroyed_app, destroyed_freed_key.
  - destruct (dictFind_run T g d k Hwf) as (r & d' & -> & Hwf' & Hs & Hr); cbn [mbind option_bind].
    apply Hsame; [done..|]. replace (bool_decide (is_Some r)) with (bool_decide (is_Some (dict_map d !! k)));
      [apply spec_find|]. apply bool_decide_ext. destruct r as [p|].
    + destruct Hr as [v Hv]. rewrite (map_present d k p v) by done. split; by eexists.
    + rewrite map_absent by done. done.
  - destruct (dictFetchValue_run T g d k Hwf) as (r & d' & -> & Hwf' & Hs & Hr); cbn [mbind option_bind].
    apply Hsame; [done..|]. replace r with (dict_map d !! k ≫= id); [apply spec_fetch|].
    destruct Hr as [[Hab ->]|[p Hp]]; [by rewrite map_absent|]. by rewrite (map_present d k p r).
  - destruct Hpre. destruct (dictRehash_run T g d n) as (r & d' & -> & Hwf' & Hs & _); [done..|].
    cbn. apply Hsame; [done..|]. apply spec_rehash.
  - unfold dictRehashMilliseconds.
    destruct (rehash_ms_run T g times ms d 0 0%nat (2 + Z.to_nat (ht_size (ht0 d))) Hwf) as (r & d' & -> & Hwf' & Hs).
    { destruct (dictIsRehashing d) eqn:Hr; [|lia]. pose proof Hwf as (b0 & b1 & Hrep).
      pose proof (rep_rehash _ _ _ _ Hrep) as Hx. rewrite Hr in Hx. lia. }
    cbn. apply Hsame; [done..|]. apply spec_rehash_ms.
  - destruct (dictResize_run T g d Hwf) as (r & d' & -> & Hwf' & Hs). cbn. apply Hsame; [done..|]. apply spec_resize.
  - destruct (dictExpand_run T d n Hwf Hpre) as (r & d' & j & -> & Hwf' & Hs & _). cbn.
    apply Hsame; [done..|]. apply spec_expand.
  - destruct (dictEmpty_run T d callback Hwf) as (d' & l & -> & Hwf' & He & _ & _ & Hl & Hlog).
    cbn [mbind option_bind].
    destruct (destroyed_entries d l Hwf Hl) as (kvs & Hk & Heq). rewrite Heq in Hlog.
    eexists _, d', _. split; [done|]. split; [done|]. split; [|exact Hlog].
    replace (dict_map d') with (∅ : gmap K (option V)); [by apply spec_empty|].
    unfold dict_map, abs, contents. rewrite He, fmap_empty, map_to_list_empty. done.
Qed.

Lemma spec_dop_size M op r M' ev : spec_dop M op r M' ev → (size M' ≤ S (size M))%nat.
Proof.
  assert (∀ k w, size (<[k := w]> M) ≤ S (size M))%nat as Hi.
  { intros k w. destruct (M !! k) as [w'|] eqn:E.
    - rewrite map_size_insert_Some by eauto. lia.
    - rewrite map_size_insert_None by done. lia. }
  intros []; auto; rewrite ?map_size_empty; try lia.
  rewrite map_size_delete. destruct (M !! k); simpl; lia.
Qed.

Lemma run_dops_spec ops d :
  dict_wf T d → Z.of_nat (size (dict_map d)) + zlen ops ≤ 2 ^ 30 →
  Forall (λ gop, dop_pre gop.2) ops →
  ∃ rs d' evs, run_dops ops d = Some (rs, d') ∧ dict_wf T d' ∧
    spec_dops (dict_map d) ops rs (dict_map d') evs ∧
    destroyed (dict_log d') = destroyed (dict_log d) ++ evs.
Proof.
  revert d. induction ops as [|[g op] ops IH]; intros d Hwf Hb Hpre; cbn [run_dops].
  { exists [], d, []. rewrite app_nil_r. by repeat constructor. }
  apply Forall_cons in Hpre as [Hop Hpre]. cbn [length] in Hb.
  destruct (run_dop_spec g op d Hwf) as (r & d1 & ev & -> & Hwf1 & Hsp & Hlog); [lia|done|].
  pose proof (spec_dop_size _ _ _ _ _ Hsp). cbn [mbind option_bind].
  destruct (IH d1 Hwf1) as (rs & d2 & evs & -> & Hwf2 & Hsps & Hlog2); [lia|done|].
  cbn. exists (r :: rs), d2, (ev ++ evs). split; [done|]. split; [done|].
  split; [by econstructor|]. by rewrite Hlog2, Hlog, app_assoc.
Qed.

Lemma dictCreate_wf : dict_wf T (dictCreate (K := K) (V := V)).
Proof.
  exists [], []. split; cbn; try done. apply NoDup_nil_2.
Qed.

(** C6: for every sequence of operations on a new dictionary (insertions,
    replacements, deletions, lookups, incremental rehashing by steps or by time,
    resizing, emptying, with the resize policy changing in between), every
    operation returns, never leaving its tables or a chain, the results and the
    final contents are those of a finite map, every entry and value that is
    dropped goes to the destructors once, and the dictionary is well formed. *)
Theorem dict_refines_map ops :
  zlen ops ≤ 2 ^ 30 → Forall (λ gop, dop_pre gop.2) ops →
  ∃ rs d evs, run_dops ops dictCreate = Some (rs, d) ∧ dict_wf T d ∧
    spec_dops ∅ ops rs (dict_map d) evs ∧ destroyed (dict_log d) = evs.
Proof.
  intros Hl Hpre. destruct (run_dops_spec ops dictCreate) as (rs & d & evs & H1 & H2 & H3 & H4);
    [apply dictCreate_wf|exact Hl|done|]. exists rs, d, evs. by repeat (split; [done|]).
Qed.

(** ** Completion of a rehash *)

(** Calls [dictRehash(d, 1)] at most [n] times, until it returns 0. *)
Fixpoint rehash_until (g : dictGlobals) (n : nat) d : option (dict K V) :=
  match n with
  | O => Some d
  | S n => '(r, d) ← dictRehash T g d 1; if r =? 0 then Some d else rehash_until g n d
  end.

(** C7: a rehash that has visited [rehashidx] of [size] buckets is over after at
    most [size - rehashidx] single steps, with the same entries in one table of
    the new size. *)
Theorem rehash_completes g n d :
  dict_wf T d → g_IsForkedProcess g = false → dictIsRehashing d = true →
  (Z.to_nat (ht_size (ht0 d) - rehashidx d) ≤ n)%nat →
  ∃ d', rehash_until g n d = Some d' ∧ dict_wf T d' ∧ dictIsRehashing d' = false ∧
    dict_map d' = dict_map d ∧ ht_size (ht0 d') = ht_size (ht1 d).
Proof.
  intros Hwf Hg. revert d Hwf. induction n as [|n IH]; intros d Hwf Hr Hn; cbn [rehash_until];
    pose proof Hwf as (b0 & b1 & Hrep); pose proof (rep_rehash _ _ _ _ Hrep) as Hx; rewrite Hr in Hx; [lia|].
  destruct (dictRehash_run T g d 1 Hwf) as (r & d1 & -> & Hwf1 & Hs & Ho); [lia|rlia|]. cbn [mbind option_bind].
  destruct Ho as [(_ & _ & [?|?])|[(-> & _ & Hr1 & (_ & Hz0 & Hz1 & _) & Hlt)|(-> & _ & Hr1 & Hz)]]; [congruence..| |].
  - destruct (IH d1 Hwf1 Hr1) as (d2 & Hl & Hwf2 & Hr2 & Hm & Hz2); [lia|]. exists d2. split; [exact Hl|].
    do 2 (split; [done|]). split; [by rewrite Hm, (dict_map_same d d1)|congruence].
  - exists d1. split; [done|]. do 2 (split; [done|]). split; [by apply dict_map_same|done].
Qed.
End runs.

(** ** Hash functions *)

Lemma xor_shift_in_u w k x : 0 ≤ k ≤ w → in_u w x → in_u w (Z.lxor x (Z.shiftr x k)).
Proof.
  intros Hk Hx. apply lxor_in_u; [lia|done|]. pose proof (shiftr_in_u w k x Hk Hx) as [? ?].
  assert (2 ^ (w - k) ≤ 2 ^ w) by (apply Z.pow_le_mono_r; lia). unfold in_u. lia.
Qed.

Lemma murmur_loop_run (data : bytes) h off len n :
  is_bytes data → in_u 32 h → 0 ≤ off → 0 ≤ len → off + len = zlen data → (Z.to_nat len < n)%nat →
  ∃ h' off' len', loop n (murmur_body data) (h, off, len) = Some (h', off', len') ∧ in_u 32 h' ∧
    0 ≤ off' ∧ 0 ≤ len' ∧ len' < 4 ∧ off' + len' = zlen data.
Proof.
  intros Hd. revert h off len. induction n as [|n IH]; intros h off len Hh Hoff Hlen Hsum Hn; [lia|].
  cbn [loop murmur_body]. destruct (len >=? 4) eqn:E; [|exists h, off, len; split; [done|]; split; [done|]; lia].
  destruct (rd_total data off 4) as [bs Hbs]; [lia..|]. rewrite Hbs. cbn [mbind option_bind].
  edestruct IH as (h' & off' & len' & Hl & H1 & H2 & H3 & H4 & H5);
    [| | | | |exists h', off', len'; split; [exact Hl|done]]; [|lia..].
  apply lxor_in_u; [lia|by apply wrap_range|by apply wrap_range].
Qed.

Lemma murmur_tail_run (data : bytes) h off len :
  is_bytes data → in_u 32 h → 0 ≤ off → 0 ≤ len < 4 → off + len = zlen data →
  ∃ h', murmur_tail data h off len = Some h' ∧ in_u 32 h'.
Proof.
  intros Hd Hh Hoff Hlen Hsum. unfold murmur_tail.
  assert (∀ i, 0 ≤ i < len → ∃ b, rd1 data (off + i) = Some b ∧ in_u 8 b) as Hrd.
  { intros i Hi. rewrite rd1_lookup by lia. destruct (lookup_lt_is_Some_2 data (Z.to_nat (off + i))) as [b Hb]; [lia|].
    exists b. split; [done|]. by eapply Forall_lookup_1. }
  assert (∃ h1, (if len =? 3 then b ← rd1 data (off + 2); Some (Z.lxor h (u32 (Z.shiftl b 16))) else Some h) = Some h1 ∧
    in_u 32 h1) as (h1 & -> & Hh1).
  { destruct (len =? 3) eqn:E; [|by eauto]. destruct (Hrd 2) as (b & -> & Hb); [lia|]. eexists. split; [done|].
    apply lxor_in_u; [lia|done|by apply wrap_range]. }
  cbn [mbind option_bind].
  assert (∃ h2, (if 2 <=? len then b ← rd1 data (off + 1); Some (Z.lxor h1 (u32 (Z.shiftl b 8))) else Some h1) = Some h2 ∧
    in_u 32 h2) as (h2 & -> & Hh2).
  { destruct (2 <=? len) eqn:E; [|by eauto]. destruct (Hrd 1) as (b & -> & Hb); [lia|]. eexists. split; [done|].
    apply lxor_in_u; [lia|done|by apply wrap_range]. }
  cbn [mbind option_bind]. destruct (1 <=? len) eqn:E; [|by eauto].
  destruct (Hrd 0) as (b & Hb & _); [lia|]. rewrite Z.add_0_r in Hb. rewrite Hb. eexists. split; [done|].
  by apply wrap_range.
Qed.

Lemma case_hash_loop_run (b1 b2 : bytes) hash off len n :
  tolower <$> b1 = tolower <$> b2 → in_u 32 hash → 0 ≤ off → 0 ≤ len → off + len = zlen b1 →
  (Z.to_nat len < n)%nat →
  ∃ h, loop n (case_hash_body b1) (hash, off, len) = Some h ∧
       loop n (case_hash_body b2) (hash, off, len) = Some h ∧ in_u 32 h.
Proof.
  intros Heq. revert hash off len. induction n as [|n IH]; intros hash off len Hh Hoff Hlen Hsum Hn; [lia|].
  cbn [loop case_hash_body]. destruct (len =? 0) eqn:E; [by eauto|].
  destruct (lookup_lt_is_Some_2 b1 (Z.to_nat off)) as [x Hx]; [lia|].
  assert ((tolower <$> b2) !! Z.to_nat off = Some (tolower x)) as Hy by by rewrite <-Heq, list_lookup_fmap, Hx.
  rewrite list_lookup_fmap in Hy. apply fmap_Some in Hy as (y & Hy & Hxy).
  rewrite !rd1_lookup by lia. rewrite Hx, Hy. cbn [mbind option_bind]. rewrite <-Hxy.
  apply IH; [by apply wrap_range|lia|lia|lia|lia].
Qed.

(** the hash functions read inside the key only, and return a 32-bit value;
    the case insensitive one gives equal values to keys that differ in the case
    of letters only. *)
Theorem hash_functions_correct (seed : Z) (key key' : bytes) :
  in_u 32 seed → is_bytes key → zlen key < 2 ^ 31 → tolower <$> key = tolower <$> key' →
  (∃ h, dictGenHashFunction seed key (zlen key) = Some h ∧ in_u 32 h) ∧
  (∃ h, dictGenCaseHashFunction seed key (zlen key) = Some h ∧
        dictGenCaseHashFunction seed key' (zlen key') = Some h ∧ in_u 32 h).
Proof.
  intros Hseed Hk Hlen Heq. split.
  - unfold dictGenHashFunction.
    destruct (murmur_loop_run key (Z.lxor seed (u32 (zlen key))) 0 (zlen key) (2 + Z.to_nat (zlen key)) Hk)
      as (h & off & len & -> & Hh & H1 & H2 & H3 & H4); [|lia..|].
    { apply lxor_in_u; [lia|done|by apply wrap_range]. }
    cbn [mbind option_bind]. destruct (murmur_tail_run key h off len) as (h2 & -> & Hh2); [done..|lia|done|].
    cbn [mbind option_bind]. eexists. split; [done|].
    apply xor_shift_in_u; [lia|]. by apply wrap_range.
  - assert (length key' = length key) as Hl by by rewrite <-(length_fmap tolower key'), <-Heq, length_fmap.
    unfold dictGenCaseHashFunction. rewrite Hl.
    apply case_hash_loop_run; [done|done|lia..].
Qed.

(** ** Witnesses *)

Example hash_functions_correct_witness :
  (∃ h, dictGenHashFunction 5381 [72; 101; 76; 108; 111; 33; 49] 7 = Some h ∧ in_u 32 h) ∧
  (∃ h, dictGenCaseHashFunction 5381 [72; 101; 76; 108; 111; 33; 49] 7 = Some h ∧
        dictGenCaseHashFunction 5381 [104; 101; 108; 76; 79; 33; 49] 7 = Some h ∧ in_u 32 h).
Proof.
  apply (hash_functions_correct 5381 [72; 101; 76; 108; 111; 33; 49] [104; 101; 108; 76; 79; 33; 49]).
  - rlia.
  - repeat (constructor; [rlia|]). constructor.
  - vm_compute. reflexivity.
  - reflexivity.
Defined.

(** Integer keys hashed to themselves, colliding modulo the table sizes. *)
Definition sample_type : dictType Z Z :=
  DictType Z Z (λ k, u32 k) None None (Some (λ a b, bool_decide (a = b))) true true.

#[export] Instance sample_type_ok : DictTypeOk sample_type.
Proof.
  split; [intros k; by apply wrap_range|done|done].
Qed.

Definition sample_globals : dictGlobals := DictGlobals true 5 false.
#[local] Existing Instance next_entry_allocator.

Definition sample_ops : list (dictGlobals * dop Z Z) :=
  ((λ k, (sample_globals, DAdd k (10 * k))) <$> [1; 5; 9; 2; 3; 17]) ++
  [(sample_globals, DAdd 5 7); (sample_globals, DReplace 9 8); (sample_globals, DDelete 1 false);
   (sample_globals, DFetchValue 9); (sample_globals, DFind 1); (sample_globals, DRehash 100);
   (sample_globals, DResize); (sample_globals, DFetchValue 17)].

Example dict_refines_map_witness :
  ∃ rs d evs, run_dops sample_type sample_ops dictCreate = Some (rs, d) ∧ dict_wf sample_type d ∧
    spec_dops sample_type ∅ sample_ops rs (dict_map d) evs ∧ destroyed (dict_log d) = evs.
Proof.
  apply (dict_refines_map sample_type sample_ops).
  - vm_compute. discriminate.
  - repeat (constructor; [done || (split; [lia|rlia])|]). constructor.
Defined.

(** A dictionary reached by operations. *)
Definition reached (ops : list (dictGlobals * dop Z Z)) : dict Z Z :=
  match run_dops sample_type ops dictCreate with Some (_, d) => d | None => dictCreate end.

Lemma reached_wf ops :
  zlen ops ≤ 2 ^ 30 → Forall (λ gop, dop_pre gop.2) ops → dict_wf sample_type (reached ops).
Proof.
  intros Hl Hp. destruct (run_dops_spec sample_type ops dictCreate) as (rs & d & evs & Hr & Hwf & _);
    [apply dictCreate_wf|exact Hl|done|]. unfold reached. by rewrite Hr.
Qed.

(** In the middle of the rehash from 4 to 8 buckets. *)
Definition sample_rehashing : dict Z Z :=
  reached ((λ k, (sample_globals, DAdd k (10 * k))) <$> [1; 5; 9; 2; 3]).

Lemma sample_rehashing_wf : dict_wf sample_type sample_rehashing.
Proof. apply reached_wf; [vm_compute; discriminate|]. repeat (constructor; [done|]). constructor. Qed.

Example rehash_completes_witness :
  dictIsRehashing sample_rehashing = true ∧
  ∃ d', rehash_until sample_type sample_globals 4 sample_rehashing = Some d' ∧ dict_wf sample_type d' ∧
    dictIsRehashing d' = false ∧ dict_map d' = dict_map sample_rehashing ∧ ht_size (ht0 d') = 8.
Proof.
  split; [by vm_compute|].
  destruct (rehash_completes sample_type sample_globals 4 sample_rehashing) as (d' & H1 & H2 & H3 & H4 & H5);
    [apply sample_rehashing_wf|done|by vm_compute|by vm_compute; lia|].
  exists d'. split; [exact H1|]. split; [exact H2|]. split; [exact H3|]. split; [exact H4|].
  rewrite H5. by vm_compute.
Defined.
