(* ===== verification/DictScan.v ===== *)
(** * Iteration over a dictionary: [dictScan], iterators, random entries *)

From S2P Require Import Prelude Dict DictSpec DictMap.

#[local] Open Scope Z_scope.

(** ** Reversing the bits of a cursor *)

(** A step of [rev] exchanges the bits at distance [s]: the mask has the
    positions whose bit [s] is clear. *)
Definition swap_mask_ok (s mask : Z) : bool :=
  forallb (λ i, Bool.eqb (Z.testbit mask (Z.of_nat i)) (Z.land (Z.of_nat i) s =? 0) &&
                (if Z.land (Z.of_nat i) s =? 0 then Z.lxor (Z.of_nat i) s =? Z.of_nat i + s
                 else Z.lxor (Z.of_nat i) s =? Z.of_nat i - s)) (seq 0 64).

Definition swap_bits (s mask v : Z) : Z :=
  Z.lor (Z.land (Z.shiftr v s) mask) (Z.land (u64 (Z.shiftl v s)) (u64 (Z.lnot mask))).

Lemma swap_testbit s mask v i :
  0 ≤ s → swap_mask_ok s mask = true → in_u 64 v → 0 ≤ i < 64 →
  Z.testbit (swap_bits s mask v) i = Z.testbit v (Z.lxor i s).
Proof.
  intros Hs Hok Hv Hi. unfold swap_mask_ok in Hok. rewrite forallb_forall in Hok.
  specialize (Hok (Z.to_nat i)). rewrite Z2Nat.id in Hok by lia.
  destruct (andb_prop _ _ (Hok ltac:(apply in_seq; lia))) as [H1 H2]. apply Bool.eqb_prop in H1.
  unfold swap_bits.
  rewrite Z.lor_spec, !Z.land_spec, Z.shiftr_spec by lia. rewrite !wrap_testbit, Z.lnot_spec, H1 by lia.
  destruct (i <? 64) eqn:E; [|lia]. destruct (Z.land i s =? 0) eqn:E2; apply Z.eqb_eq in H2; rewrite H2; simpl.
  - by rewrite andb_true_r, andb_false_r, orb_false_r.
  - rewrite andb_false_r, andb_true_r, Z.shiftl_spec by lia. done.
Qed.

Lemma swap_range s mask v : in_u 64 mask → in_u 64 (swap_bits s mask v).
Proof.
  intros Hm. apply lor_in_u; [lia| |].
  - rewrite Z.land_comm. by apply land_in_u.
  - apply land_in_u; [lia|]. by apply wrap_range.
Qed.

Lemma rev_unfold v :
  rev v = Some (swap_bits 1 0x5555555555555555 (swap_bits 2 0x3333333333333333
    (swap_bits 4 0x0f0f0f0f0f0f0f0f (swap_bits 8 0x00ff00ff00ff00ff
    (swap_bits 16 0x0000ffff0000ffff (swap_bits 32 0x00000000ffffffff v)))))).
Proof.
  unfold rev. change (u64 (-1)) with 18446744073709551615.
  assert (∀ n s m w, 0 < Z.shiftr s 1 → loop (S n) rev_body (s, m, w) =
    let s' := Z.shiftr s 1 in let m' := Z.lxor m (u64 (Z.shiftl m s')) in
    loop n rev_body (s', m', swap_bits s' m' w)) as Hstep.
  { intros n s m w Hs. cbn [loop rev_body]. destruct (_ >? 0) eqn:E; [done|lia]. }
  do 6 (rewrite Hstep by done; cbv zeta;
    match goal with |- context [loop _ rev_body (Z.shiftr ?s 1, ?m, _)] =>
      let s' := eval vm_compute in (Z.shiftr s 1) in let m' := eval vm_compute in m in
      change (Z.shiftr s 1) with s'; change m with m' end).
  done.
Qed.

(** [r] has the bits of [v] in reverse order. *)
Definition rev_spec (v r : Z) : Prop := in_u 64 r ∧ ∀ i, 0 ≤ i < 64 → Z.testbit r i = Z.testbit v (63 - i).

Lemma lxor_63 (n : nat) : (n < 64)%nat →
  Z.lxor (Z.lxor (Z.lxor (Z.lxor (Z.lxor (Z.lxor (Z.of_nat n) 1) 2) 4) 8) 16) 32 = 63 - Z.of_nat n.
Proof. intros Hn. do 64 (destruct n as [|n]; [done|]). lia. Qed.

Lemma rev_run v : in_u 64 v → ∃ r, rev v = Some r ∧ rev_spec v r.
Proof.
  intros Hv. rewrite rev_unfold. eexists. split; [done|].
  assert (∀ s m w, in_u 64 m → in_u 64 (swap_bits s m w)) as Hr by (intros; by apply swap_range).
  split; [apply Hr; by split|]. intros i Hi.
  assert (∀ x s, 0 ≤ x < 64 → in_u 6 s → 0 ≤ Z.lxor x s < 64) as Hx
    by (intros; by apply (lxor_in_u 6)).
  assert (0 ≤ Z.lxor i 1 < 64) as H1 by (by apply Hx).
  pose proof (Hx _ 2 H1 ltac:(by split)) as H2. pose proof (Hx _ 4 H2 ltac:(by split)) as H3.
  pose proof (Hx _ 8 H3 ltac:(by split)) as H4. pose proof (Hx _ 16 H4 ltac:(by split)) as H5.
  do 5 (rewrite swap_testbit; [|by vm_compute|by vm_compute|apply Hr; by split|assumption]).
  rewrite swap_testbit; [|by vm_compute|by vm_compute|done|assumption].
  f_equal. rewrite <-(Z2Nat.id i) at 1 by lia. rewrite lxor_63; lia.
Qed.

(** The bit reversal as a function. *)
Definition rev64 (v : Z) : Z := default 0 (rev v).

Lemma rev64_run v : in_u 64 v → rev v = Some (rev64 v) ∧ rev_spec v (rev64 v).
Proof. intros Hv. destruct (rev_run v Hv) as (r & Hr & Hs). unfold rev64. by rewrite Hr. Qed.

Lemma rev64_range v : in_u 64 v → in_u 64 (rev64 v).
Proof. intros Hv. by destruct (rev64_run v Hv) as [_ [? _]]. Qed.

Lemma rev64_testbit v i : in_u 64 v → 0 ≤ i < 64 → Z.testbit (rev64 v) i = Z.testbit v (63 - i).
Proof. intros Hv. destruct (rev64_run v Hv) as [_ [_ H]]. apply H. Qed.

Lemma eq_testbits w x y :
  0 ≤ w → in_u w x → in_u w y → (∀ i, 0 ≤ i < w → Z.testbit x i = Z.testbit y i) → x = y.
Proof.
  intros Hw Hx Hy H. apply Z.bits_inj'. intros i Hi. destruct (decide (i < w)); [apply H; lia|].
  by rewrite !(in_u_testbit w) by (done || lia).
Qed.

Lemma rev64_involutive v : in_u 64 v → rev64 (rev64 v) = v.
Proof.
  intros Hv. pose proof (rev64_range v Hv). apply (eq_testbits 64); [lia|by apply rev64_range|done|].
  intros i Hi. rewrite !rev64_testbit by (done || lia). f_equal. lia.
Qed.

(** ** Cursors *)

Lemma lor_low q n r : 0 ≤ n → 0 ≤ r < 2 ^ n → Z.lor (q * 2 ^ n) r = q * 2 ^ n + r.
Proof.
  intros Hn Hr. assert (Z.land (q * 2 ^ n) r = 0) as Hl.
  { bitwise. rewrite Z.bits_0. destruct (decide (i < n)).
    - by rewrite Z.mul_pow2_bits_low by lia.
    - rewrite (in_u_testbit n r) by (done || lia). by rewrite andb_false_r. }
  by rewrite <-Z.lxor_lor, Z.add_nocarry_lxor.
Qed.

(** The low bits of a number are the high bits of its reversal. *)
Lemma rev_low_bits h v a :
  in_u 64 h → in_u 64 v → 0 ≤ a ≤ 64 →
  h mod 2 ^ a = v mod 2 ^ a ↔ rev64 h / 2 ^ (64 - a) = rev64 v / 2 ^ (64 - a).
Proof.
  intros Hh Hv Ha. split; intros Heq; apply Z.bits_inj'; intros i Hi.
  - rewrite !Z.div_pow2_bits by lia. destruct (decide (i < a)) as [Hia|].
    + rewrite !rev64_testbit by (done || lia).
      assert (Z.testbit (h mod 2 ^ a) (63 - (i + (64 - a))) = Z.testbit (v mod 2 ^ a) (63 - (i + (64 - a)))) as Hb
        by by rewrite Heq.
      by rewrite !Z.mod_pow2_bits_low in Hb by lia.
    + by rewrite !(in_u_testbit 64) by (done || lia || by apply rev64_range).
  - destruct (decide (i < a)) as [Hia|]; [|by rewrite !Z.mod_pow2_bits_high by lia].
    rewrite !Z.mod_pow2_bits_low by lia.
    assert (Z.testbit (rev64 h / 2 ^ (64 - a)) (63 - i - (64 - a)) =
            Z.testbit (rev64 v / 2 ^ (64 - a)) (63 - i - (64 - a))) as Hb by by rewrite Heq.
    rewrite !Z.div_pow2_bits, !rev64_testbit in Hb by (done || lia).
    by replace (63 - (63 - i - (64 - a) + (64 - a))) with i in Hb by lia.
Qed.

Lemma next_cursor_run v a :
  in_u 64 v → 0 ≤ a ≤ 64 →
  ∃ v', next_cursor v (2 ^ a - 1) = Some v' ∧ in_u 64 v' ∧
    rev64 v' = u64 ((rev64 v / 2 ^ (64 - a) + 1) * 2 ^ (64 - a)).
Proof.
  intros Hv Ha. unfold next_cursor. set (w := Z.lor v _).
  assert (in_u 64 w) as Hw by (apply lor_in_u; [lia|done|by apply wrap_range]).
  destruct (rev64_run w Hw) as [-> _]. cbn [mbind option_bind].
  assert (rev64 w = rev64 v / 2 ^ (64 - a) * 2 ^ (64 - a) + (2 ^ (64 - a) - 1)) as Hrw.
  { assert (0 < 2 ^ (64 - a)) by (apply Z.pow_pos_nonneg; lia).
    rewrite <-lor_low by lia. apply Z.bits_inj'. intros i Hi. rewrite Z.lor_spec.
    change (2 ^ (64 - a) - 1) with (Z.pred (2 ^ (64 - a))). rewrite <-Z.ones_equiv, Z.testbit_ones_nonneg by lia.
    destruct (decide (i < 64)) as [Hi64|].
    - rewrite rev64_testbit by (done || lia). unfold w. rewrite Z.lor_spec, wrap_testbit, Z.lnot_spec by lia.
      change (2 ^ a - 1) with (Z.pred (2 ^ a)). rewrite <-Z.ones_equiv, Z.testbit_ones_nonneg by lia.
      destruct (63 - i <? 64) eqn:E; [|lia]. destruct (decide (i < 64 - a)).
      + rewrite Z.mul_pow2_bits_low by lia. destruct (63 - i <? a) eqn:?; [lia|].
        destruct (i <? 64 - a) eqn:?; [|lia]. by destruct (Z.testbit v (63 - i)).
      + rewrite Z.mul_pow2_bits, Z.div_pow2_bits, rev64_testbit by (done || lia).
        destruct (63 - i <? a) eqn:?; [|lia]. destruct (i <? 64 - a) eqn:?; [lia|].
        rewrite !orb_false_r. f_equal. lia.
    - rewrite (in_u_testbit 64 (rev64 w)) by (done || lia || by apply rev64_range).
      rewrite Z.mul_pow2_bits, Z.div_pow2_bits by lia.
      rewrite (in_u_testbit 64) by (done || lia || by apply rev64_range).
      destruct (i <? 64 - a) eqn:?; [lia|done]. }
  assert (u64 (rev64 w + 1) = u64 ((rev64 v / 2 ^ (64 - a) + 1) * 2 ^ (64 - a))) as Heq by (f_equal; lia).
  rewrite Heq. set (y := u64 _). assert (in_u 64 y) as Hy by by apply wrap_range.
  destruct (rev64_run y Hy) as [-> _]. exists (rev64 y). split; [done|].
  split; [by apply rev64_range|by apply rev64_involutive].
Qed.

(** The next expansion of a cursor in the larger table. *)
Lemma next_expansion v a :
  in_u 64 v → 0 ≤ a ≤ 63 →
  Z.lor (Z.land (u64 (Z.lor v (2 ^ a - 1) + 1)) (u64 (Z.lnot (2 ^ a - 1)))) (Z.land v (2 ^ a - 1)) =
  u64 (v + 2 ^ a).
Proof.
  intros Hv Ha. assert (0 < 2 ^ a) by (apply Z.pow_pos_nonneg; lia).
  rewrite (land_mask v) by lia.
  assert (Z.lor v (2 ^ a - 1) + 1 = (v / 2 ^ a + 1) * 2 ^ a) as ->.
  { rewrite (Z.div_mod v (2 ^ a)) at 1 by lia. rewrite Z.mul_comm.
    rewrite <-lor_low by (lia || apply Z.mod_pos_bound; lia). rewrite <-Z.lor_assoc.
    assert (Z.lor (v mod 2 ^ a) (2 ^ a - 1) = 2 ^ a - 1) as ->.
    { change (2 ^ a - 1) with (Z.pred (2 ^ a)). rewrite <-Z.ones_equiv. apply Z.bits_inj'. intros i Hi.
      rewrite Z.lor_spec, Z.testbit_ones_nonneg by lia. destruct (i <? a) eqn:E; [by rewrite orb_true_r|].
      rewrite Z.mod_pow2_bits_high by lia. done. }
    rewrite lor_low by lia. lia. }
  assert (Z.land (u64 ((v / 2 ^ a + 1) * 2 ^ a)) (u64 (Z.lnot (2 ^ a - 1))) = u64 ((v / 2 ^ a + 1) * 2 ^ a)) as ->.
  { apply Z.bits_inj'. intros i Hi. rewrite Z.land_spec, !wrap_testbit, Z.lnot_spec by lia.
    change (2 ^ a - 1) with (Z.pred (2 ^ a)). rewrite <-Z.ones_equiv, Z.testbit_ones_nonneg by lia.
    destruct (i <? 64) eqn:?; [|done]. destruct (i <? a) eqn:?; simpl.
    - by rewrite Z.mul_pow2_bits_low by lia.
    - by rewrite andb_true_r. }
  assert (u64 ((v / 2 ^ a + 1) * 2 ^ a) = (v / 2 ^ a + 1) mod 2 ^ (64 - a) * 2 ^ a) as ->.
  { unfold wrap. replace (2 ^ 64) with (2 ^ (64 - a) * 2 ^ a) by (rewrite <-Z.pow_add_r by lia; f_equal; lia).
    rewrite Z.mul_mod_distr_r by (try apply Z.pow_nonzero; lia). done. }
  rewrite lor_low by (lia || apply Z.mod_pos_bound; lia). unfold wrap.
  rewrite (Z.div_mod v (2 ^ a)) at 3 by lia.
  replace (2 ^ 64) with (2 ^ a * 2 ^ (64 - a)) by (rewrite <-Z.pow_add_r by lia; f_equal; lia).
  pose proof (Z.mod_pos_bound v (2 ^ a)). assert (0 < 2 ^ (64 - a)) by (apply Z.pow_pos_nonneg; lia).
  replace (2 ^ a * (v / 2 ^ a) + v mod 2 ^ a + 2 ^ a) with (v mod 2 ^ a + (v / 2 ^ a + 1) * 2 ^ a) by lia.
  rewrite Z.rem_mul_r by lia. rewrite Z.mod_add, Z.mod_mod by lia. rewrite Z.div_add by lia.
  rewrite (Z.div_small (v mod 2 ^ a)), Z.add_0_l by lia. lia.
Qed.

(** The bits of [v] from [a] to [b]. *)
Definition upper (v a b : Z) : Z := (v / 2 ^ a) mod 2 ^ (b - a).

Lemma upper_range v a b : 0 ≤ a ≤ b → 0 ≤ upper v a b < 2 ^ (b - a).
Proof. intros. apply Z.mod_pos_bound. apply Z.pow_pos_nonneg; lia. Qed.

Lemma upper_wrap v a b : 0 ≤ a ≤ b → b ≤ 64 → upper (u64 v) a b = upper v a b.
Proof.
  intros Hab Hb. apply Z.bits_inj'. intros i Hi. unfold upper. destruct (decide (i < b - a)).
  - rewrite !Z.mod_pow2_bits_low, !Z.div_pow2_bits, wrap_testbit by lia.
    destruct (i + a <? 64) eqn:?; [done|lia].
  - by rewrite !Z.mod_pow2_bits_high by lia.
Qed.

Lemma mod_wrap v a : 0 ≤ a ≤ 64 → u64 v mod 2 ^ a = v mod 2 ^ a.
Proof.
  intros Ha. apply Z.bits_inj'. intros i Hi. destruct (decide (i < a)).
  - rewrite !Z.mod_pow2_bits_low, wrap_testbit by lia. destruct (i <? 64) eqn:?; [done|lia].
  - by rewrite !Z.mod_pow2_bits_high by lia.
Qed.

Lemma mod_upper v a b : 0 ≤ a ≤ b → v mod 2 ^ b = v mod 2 ^ a + 2 ^ a * upper v a b.
Proof.
  intros Hab. unfold upper. replace (2 ^ b) with (2 ^ a * 2 ^ (b - a)) by (rewrite <-Z.pow_add_r by lia; f_equal; lia).
  apply Z.rem_mul_r; [|apply Z.pow_pos_nonneg; lia]. apply Z.pow_nonzero; lia.
Qed.

Lemma land_upper v a b :
  0 ≤ a ≤ b → Z.land v (Z.lxor (2 ^ a - 1) (2 ^ b - 1)) = upper v a b * 2 ^ a.
Proof.
  intros Hab. change (2 ^ a - 1) with (Z.pred (2 ^ a)). change (2 ^ b - 1) with (Z.pred (2 ^ b)).
  rewrite <-!Z.ones_equiv. apply Z.bits_inj'. intros i Hi.
  rewrite Z.land_spec, Z.lxor_spec, !Z.testbit_ones_nonneg by lia. unfold upper. destruct (decide (i < a)).
  - rewrite Z.mul_pow2_bits_low by lia. destruct (i <? a) eqn:?, (i <? b) eqn:?; try lia; by rewrite ?andb_false_r, ?andb_true_r.
  - rewrite Z.mul_pow2_bits by lia. destruct (decide (i < b)).
    + rewrite Z.mod_pow2_bits_low, Z.div_pow2_bits by lia. replace (i - a + a) with i by lia.
      destruct (i <? a) eqn:?, (i <? b) eqn:?; try lia; by rewrite ?andb_false_r, ?andb_true_r.
    + rewrite Z.mod_pow2_bits_high by lia. destruct (i <? a) eqn:?, (i <? b) eqn:?; try lia; by rewrite ?andb_false_r, ?andb_true_r.
Qed.

Lemma upper_succ v a b : 0 ≤ a ≤ b → b ≤ 64 →
  upper (u64 (v + 2 ^ a)) a b = (upper v a b + 1) mod 2 ^ (b - a).
Proof.
  intros Hab Hb. rewrite upper_wrap by done. unfold upper.
  assert (0 < 2 ^ a) by (apply Z.pow_pos_nonneg; lia).
  replace (v + 2 ^ a) with (v + 1 * 2 ^ a) by lia. rewrite Z.div_add by lia.
  by rewrite Zplus_mod_idemp_l.
Qed.

Section scan.
Context {K V : Type} `{!EqDecision K} (T : dictType K V) `{!DictTypeOk T}.
Implicit Types (d : dict K V) (bs : list (list loc)).

Definition bucket bs (i : Z) : list loc := default [] (bs !! Z.to_nat i).

Lemma emit_run d de l out n :
  chain (dict_entries d) de l → (length l < n)%nat → loop n (emit_body d) (de, out) = Some (out ++ l).
Proof.
  revert de out n. induction l as [|x l IH]; intros de out n Hc Hn; (destruct n as [|n]; [simpl in Hn; lia|]);
    cbn [loop].
  - simpl in Hc. subst de. simpl. by rewrite app_nil_r.
  - destruct Hc as [-> (e & He & Hc)]. cbn [emit_body]. rewrite He. cbn [mbind option_bind].
    rewrite (IH (de_next e)); [by rewrite <-app_assoc|done|simpl in Hn; lia].
Qed.

Lemma emit_bucket_run d b0 b1 t h i out :
  dict_rep T d b0 b1 → ht d t = h → 0 ≤ i < ht_size h →
  emit_bucket d h i out = Some (out ++ bucket (buckets b0 b1 t) i).
Proof.
  intros Hrep <- Hi. pose proof (rep_table T d b0 b1 t Hrep) as Hok.
  destruct (table_get_ok T _ _ _ _ Hok Hi) as (p & b & Hg & Hb & Hc).
  unfold emit_bucket, bucket. rewrite Hg, Hb. cbn [mbind option_bind default].
  apply emit_run; [done|]. by eapply bucket_fuel.
Qed.

(** The buckets the inner loop visits in the larger table. *)
Definition expansions bs (a b v : Z) : list loc :=
  seqZ (upper v a b) (2 ^ (b - a) - upper v a b) ≫= λ w, bucket bs (v mod 2 ^ a + 2 ^ a * w).

Lemma scan_loop_run d b0 b1 t a b v out n :
  dict_rep T d b0 b1 → ht_size (ht d t) = 2 ^ b → 0 ≤ a ≤ b → b ≤ 63 → in_u 64 v →
  2 ^ (b - a) - upper v a b ≤ Z.of_nat n →
  ∃ v', loop n (scan_body d (ht d t) (2 ^ a - 1) (2 ^ b - 1)) (v, out) =
          Some (v', out ++ expansions (buckets b0 b1 t) a b v) ∧
    in_u 64 v' ∧ v' mod 2 ^ a = v mod 2 ^ a.
Proof.
  intros Hrep Hs Hab Hb. revert v out. induction n as [|n IH]; intros v out Hv Hn;
    pose proof (upper_range v a b Hab) as Hu; [lia|].
  assert (0 < 2 ^ a ∧ 0 < 2 ^ b) as [Ha0 Hb0] by (split; apply Z.pow_pos_nonneg; lia).
  cbn [loop scan_body]. rewrite (land_mask v b) by lia.
  rewrite (emit_bucket_run d b0 b1 _ _ _ _ Hrep eq_refl) by (rewrite Hs; apply Z.mod_pos_bound; lia).
  cbn [mbind option_bind]. rewrite next_expansion by (done || lia).
  set (v1 := u64 (v + 2 ^ a)). assert (in_u 64 v1) as Hv1 by by apply wrap_range.
  assert (v1 mod 2 ^ a = v mod 2 ^ a) as Hm.
  { unfold v1. rewrite mod_wrap by lia. replace (v + 2 ^ a) with (v + 1 * 2 ^ a) by lia. by rewrite Z.mod_add by lia. }
  rewrite land_upper by done.
  assert (upper v1 a b = (upper v a b + 1) mod 2 ^ (b - a)) as Hu1 by (apply upper_succ; lia).
  assert (expansions (buckets b0 b1 t) a b v =
    bucket (buckets b0 b1 t) (v mod 2 ^ b) ++
    (seqZ (upper v a b + 1) (2 ^ (b - a) - upper v a b - 1) ≫= λ w,
       bucket (buckets b0 b1 t) (v mod 2 ^ a + 2 ^ a * w))) as Hexp.
  { unfold expansions. rewrite seqZ_cons by lia. rewrite bind_cons, <-mod_upper by done.
    do 3 f_equal; lia. }
  destruct (decide (upper v a b + 1 = 2 ^ (b - a))) as [Hlast|Hmore].
  - rewrite Hu1, Hlast, Z.mod_same by lia. exists v1. split; [|done]. rewrite Hexp.
    replace (2 ^ (b - a) - upper v a b - 1) with 0 by lia. simpl. by rewrite app_nil_r.
  - rewrite Z.mod_small in Hu1 by lia. destruct (_ =? 0) eqn:E; [nia|].
    destruct (IH v1 (out ++ bucket (buckets b0 b1 t) (v mod 2 ^ b)) Hv1) as (v' & Hl & Hv' & Hm'); [lia|].
    exists v'. split; [|split; [done|congruence]].
    etrans; [exact Hl|]. rewrite Hexp, <-app_assoc. do 4 f_equal. unfold expansions.
    rewrite Hu1, Hm. f_equal. f_equal. lia.
Qed.

(** The sizes of the smaller and of the larger table. *)
Definition small_size d : Z :=
  if dictIsRehashing d then Z.min (ht_size (ht0 d)) (ht_size (ht1 d)) else ht_size (ht0 d).
Definition large_size d : Z :=
  if dictIsRehashing d then Z.max (ht_size (ht0 d)) (ht_size (ht1 d)) else ht_size (ht0 d).

Lemma bucket_subset bs i x : x ∈ bucket bs i → x ∈ mjoin bs.
Proof.
  unfold bucket. destruct (bs !! Z.to_nat i) as [b|] eqn:E; simpl; [|set_solver].
  intros Hx. by eapply elem_of_bucket.
Qed.

Lemma in_bucket d b0 b1 t p k w :
  dict_rep T d b0 b1 → ht_size (ht d t) ≠ 0 → p ∈ mjoin (buckets b0 b1 t) →
  contents (dict_entries d) !! p = Some (k, w) →
  p ∈ bucket (buckets b0 b1 t) (Z.land (hashFunction T k) (ht_sizemask (ht d t))).
Proof.
  intros Hrep Hs Hp Hc. pose proof (rep_table T d b0 b1 t Hrep) as Hok.
  pose proof (mask_index T _ _ _ (hashFunction T k) Hok Hs) as Hi.
  destruct (table_get_ok T _ _ _ _ Hok Hi) as (q & b & _ & Hb & _).
  unfold bucket. rewrite Hb. simpl. by eapply key_bucket.
Qed.

Lemma expansions_elem bs a b v w x :
  0 ≤ a ≤ b → upper v a b ≤ w < 2 ^ (b - a) → x ∈ bucket bs (v mod 2 ^ a + 2 ^ a * w) →
  x ∈ expansions bs a b v.
Proof.
  intros Hab Hw Hx. unfold expansions. apply list_elem_of_bind. exists w. split; [done|].
  apply elem_of_seqZ. lia.
Qed.

Lemma expansions_subset bs a b v x : x ∈ expansions bs a b v → x ∈ mjoin bs.
Proof. intros (w & Hx & _)%list_elem_of_bind. by eapply bucket_subset. Qed.

(** The entries one call emits, in order. *)
Definition emitted d (b0 b1 : list (list loc)) (v : Z) (out : list loc) : Prop :=
  ∃ a b ts tl, small_size d = 2 ^ a ∧ large_size d = 2 ^ b ∧ 2 ≤ a ≤ b ∧ b ≤ 31 ∧
    ht_size (ht d ts) = 2 ^ a ∧ ht_sizemask (ht d ts) = 2 ^ a - 1 ∧
    if dictIsRehashing d
    then ((ts = 0 ∧ tl = 1) ∨ (ts = 1 ∧ tl = 0)) ∧ ht_size (ht d tl) = 2 ^ b ∧ ht_sizemask (ht d tl) = 2 ^ b - 1 ∧
      out = bucket (buckets b0 b1 ts) (v mod 2 ^ a) ++ expansions (buckets b0 b1 tl) a b v
    else ts = 0 ∧ a = b ∧ out = bucket (buckets b0 b1 0) (v mod 2 ^ a).

Lemma dictSize_entries d b0 b1 : dict_rep T d b0 b1 → dictSize d = Z.of_nat (size (dict_entries d)).
Proof.
  intros Hrep. destruct (rep_used0_bound T d b0 b1 Hrep) as [_ Hu]. pose proof (rep_bound _ _ _ _ Hrep).
  unfold dictSize. rewrite Hu. apply wrap_small. rlia.
Qed.

Lemma size_nonempty d b0 b1 : dict_rep T d b0 b1 → dictSize d ≠ 0 → ht_size (ht0 d) ≠ 0.
Proof.
  intros Hrep Hsz Hs. rewrite (dictSize_entries d b0 b1) in Hsz by done. apply Hsz.
  assert (size (dict_entries d) = 0%nat) as ->; [|done].
  apply map_size_empty_iff, map_empty. intros p. by apply (rep_empty T d b0 b1).
Qed.

Lemma scan_two d b0 b1 ts tl hs hl a b v :
  dict_rep T d b0 b1 → ht d ts = hs → ht d tl = hl → ht_size hs = 2 ^ a → ht_size hl = 2 ^ b →
  0 ≤ a ≤ b → b ≤ 63 → in_u 64 v →
  ∃ v' out, emit_bucket d hs (Z.land v (2 ^ a - 1)) [] = Some out ∧
    loop (S (Z.to_nat (ht_size hl))) (scan_body d hl (2 ^ a - 1) (2 ^ b - 1)) (v, out) =
      Some (v', bucket (buckets b0 b1 ts) (v mod 2 ^ a) ++ expansions (buckets b0 b1 tl) a b v) ∧
    in_u 64 v' ∧ v' mod 2 ^ a = v mod 2 ^ a.
Proof.
  intros Hrep <- <- Hs Hl Hab Hb Hv. assert (0 < 2 ^ a) by (apply Z.pow_pos_nonneg; lia).
  rewrite land_mask by lia.
  rewrite (emit_bucket_run d b0 b1 _ _ _ _ Hrep eq_refl) by (rewrite Hs; apply Z.mod_pos_bound; lia).
  rewrite app_nil_l.
  destruct (scan_loop_run d b0 b1 tl a b v (bucket (buckets b0 b1 ts) (v mod 2 ^ a))
    (S (Z.to_nat (ht_size (ht d tl)))) Hrep Hl Hab Hb Hv) as (v' & Hloop & Hv' & Hm).
  { rewrite Hl. pose proof (upper_range v a b Hab). assert (2 ^ (b - a) ≤ 2 ^ b) by (apply Z.pow_le_mono_r; lia). lia. }
  exists v', (bucket (buckets b0 b1 ts) (v mod 2 ^ a)). by repeat (split; [done|]).
Qed.

Lemma dictScan_run d b0 b1 v :
  dict_rep T d b0 b1 → dictSize d ≠ 0 → in_u 64 v →
  ∃ v' out, dictScan d v = Some (v', out) ∧ in_u 64 v' ∧ emitted d b0 b1 v out ∧
    ∀ a, small_size d = 2 ^ a → 0 ≤ a ≤ 31 →
    rev64 v' = u64 ((rev64 v / 2 ^ (64 - a) + 1) * 2 ^ (64 - a)).
Proof.
  intros Hrep Hsz Hv. unfold dictScan. destruct (dictSize d =? 0) eqn:E; [lia|].
  pose proof (size_nonempty d b0 b1 Hrep Hsz) as Hs0.
  destruct (table_ok_sized T _ _ _ (rep_t0 _ _ _ _ Hrep) Hs0) as (a0 & Ha0 & Hz0 & Hm0).
  assert (∀ w a out, in_u 64 w → w mod 2 ^ a = v mod 2 ^ a → 2 ≤ a ≤ 31 → small_size d = 2 ^ a →
    emitted d b0 b1 v out →
    ∃ v' out', (v ← next_cursor w (2 ^ a - 1); Some (v, out)) = Some (v', out') ∧ in_u 64 v' ∧
      emitted d b0 b1 v out' ∧ ∀ a', small_size d = 2 ^ a' → 0 ≤ a' ≤ 31 →
      rev64 v' = u64 ((rev64 v / 2 ^ (64 - a') + 1) * 2 ^ (64 - a'))) as Hnext.
  { intros w a out Hw Hm Ha Hsm Hem. destruct (next_cursor_run w a Hw) as (v' & -> & Hv' & Hr); [lia|].
    exists v', out. split; [done|]. split; [done|]. split; [done|]. intros a' Ha' Hb'.
    assert (a' = a) as -> by (apply (Z.pow_inj_r 2); lia).
    rewrite Hr. do 3 f_equal. apply rev_low_bits; [done|done|lia|done]. }
  destruct (dictIsRehashing d) eqn:Hr; simpl negb; cbv iota.
  2: { rewrite Hm0, land_mask by lia.
       rewrite (emit_bucket_run d b0 b1 0 (ht0 d)) by (rewrite ?Hz0; try apply Z.mod_pos_bound; done || lia).
       rewrite !bind_Some_eq. cbv beta iota. rewrite app_nil_l.
       apply Hnext; [done|done|lia|unfold small_size; by rewrite Hr|].
       exists a0, a0, 0, 0. unfold small_size, large_size. rewrite Hr. repeat (split; [done || lia|]). done. }
  assert (ht_size (ht1 d) ≠ 0) as Hs1 by by apply (rep_size1 T d b0 b1).
  destruct (table_ok_sized T _ _ _ (rep_t1 _ _ _ _ Hrep) Hs1) as (a1 & Ha1 & Hz1 & Hm1).
  destruct (ht_size (ht0 d) >? ht_size (ht1 d)) eqn:Hcmp; cbv beta iota zeta.
  - assert (a1 < a0) by (apply (Z.pow_lt_mono_r_iff 2); lia). rewrite Hm0, Hm1.
    destruct (scan_two d b0 b1 1 0 (ht1 d) (ht0 d) a1 a0 v) as (w & out & -> & Heq & Hw & Hm);
      [done..|lia|lia|done|]. rewrite bind_Some_eq, Heq, !bind_Some_eq. cbv beta iota. apply Hnext; [done|done|lia|unfold small_size; rewrite Hr; lia|].
    exists a1, a0, 1, 0. unfold small_size, large_size. rewrite Hr. do 6 (split; [done || lia|]).
    split; [by right|]. done.
  - assert (a0 ≤ a1) by (apply (Z.pow_le_mono_r_iff 2); lia). rewrite Hm0, Hm1.
    destruct (scan_two d b0 b1 0 1 (ht0 d) (ht1 d) a0 a1 v) as (w & out & -> & Heq & Hw & Hm);
      [done..|lia|lia|done|]. rewrite bind_Some_eq, Heq, !bind_Some_eq. cbv beta iota. apply Hnext; [done|done|lia|unfold small_size; rewrite Hr; lia|].
    exists a0, a1, 0, 1. unfold small_size, large_size. rewrite Hr. do 6 (split; [done || lia|]).
    split; [by left|]. done.
Qed.

(** An entry is emitted when its hash agrees with the cursor under the smaller
    mask and the inner loop starts at or before its expansion. *)
Lemma emitted_complete d b0 b1 v out p k w :
  dict_rep T d b0 b1 → emitted d b0 b1 v out → contents (dict_entries d) !! p = Some (k, w) →
  (∀ a b, small_size d = 2 ^ a → large_size d = 2 ^ b → 0 ≤ a ≤ b → b ≤ 31 →
    hashFunction T k mod 2 ^ a = v mod 2 ^ a ∧ upper v a b ≤ upper (hashFunction T k) a b) →
  p ∈ out.
Proof.
  intros Hrep (a & b & ts & tl & Hsm & Hla & Ha & Hb & Hz & Hm & Hout) Hp Hh.
  destruct (Hh a b Hsm Hla) as [Hmod Hup]; [lia|lia|].
  assert (p ∈ mjoin b0 ++ mjoin b1) as Hin.
  { rewrite <-(elem_of_list_to_set (C := gset loc)), <-(rep_dom _ _ _ _ Hrep), <-contents_dom.
    by apply elem_of_dom_2 in Hp. }
  assert (∀ n, 2 ≤ n → 2 ^ n ≠ 0) as Hpow by (intros; apply Z.pow_nonzero; lia).
  assert (∀ t, t = ts → p ∈ mjoin (buckets b0 b1 t) → p ∈ bucket (buckets b0 b1 ts) (v mod 2 ^ a)) as Hts.
  { intros t -> Ht. rewrite <-Hmod, <-land_mask, <-Hm by lia. eapply in_bucket; [done| |done|done].
    rewrite Hz. apply Hpow. lia. }
  destruct (dictIsRehashing d) eqn:Hr.
  - destruct Hout as (Ht & Hz1 & Hm1 & ->).
    assert (p ∈ mjoin (buckets b0 b1 tl) → p ∈ expansions (buckets b0 b1 tl) a b v) as Htl.
    { intros Hx. apply (expansions_elem _ _ _ _ (upper (hashFunction T k) a b)); [lia| |].
      - pose proof (upper_range (hashFunction T k) a b). lia.
      - rewrite <-Hmod, <-mod_upper, <-land_mask, <-Hm1 by lia. eapply in_bucket; [done| |done|done].
        rewrite Hz1. apply Hpow. lia. }
    apply elem_of_app. apply elem_of_app in Hin.
    destruct Ht as [[-> ->]|[-> ->]]; destruct Hin as [Hin|Hin]; first [by left; eapply Hts|by right; apply Htl].
  - destruct Hout as (-> & -> & ->). rewrite (rep_b1_nil T d b0 b1), app_nil_r in Hin by done. by eapply Hts.
Qed.

Lemma emitted_sound d b0 b1 v out p :
  dict_rep T d b0 b1 → emitted d b0 b1 v out → p ∈ out → is_Some (dict_entries d !! p).
Proof.
  intros Hrep (a & b & ts & tl & _ & _ & _ & _ & _ & _ & Hout) Hp.
  destruct (dictIsRehashing d).
  - destruct Hout as (_ & _ & _ & ->). apply elem_of_app in Hp as [Hp|Hp];
      [apply bucket_subset in Hp|apply expansions_subset in Hp]; by eapply rep_alloc.
  - destruct Hout as (-> & _ & ->). apply bucket_subset in Hp. by eapply rep_alloc.
Qed.

(** ** A whole iteration, while the dictionary changes *)

Definition present d (k : K) : Prop := ∃ p w, contents (dict_entries d) !! p = Some (k, w).

(** The cursor starts in the range of both tables, or there is one table, or
    the larger table is twice the smaller one. *)
Definition covered (prev : Z) d : Prop :=
  dictIsRehashing d = false ∨ prev ≤ small_size d ∨ large_size d ≤ 2 * small_size d.

Lemma rev64_0 : rev64 0 = 0.
Proof. by vm_compute. Qed.

Lemma cursor_bound v' a q :
  in_u 64 v' → 0 ≤ a ≤ 64 → rev64 v' = u64 (q * 2 ^ (64 - a)) → v' < 2 ^ a.
Proof.
  intros Hv Ha Hr. assert (v' mod 2 ^ a = v') as <-; [|apply Z.mod_pos_bound, Z.pow_pos_nonneg; lia].
  apply Z.bits_inj'. intros i Hi. destruct (decide (i < a)); [by rewrite Z.mod_pow2_bits_low by lia|].
  rewrite Z.mod_pow2_bits_high by lia. destruct (decide (i < 64)); [|by rewrite (in_u_testbit 64) by (done || lia)].
  rewrite <-(rev64_involutive v') by done. rewrite rev64_testbit by (lia || by apply rev64_range).
  rewrite Hr, wrap_testbit, Z.mul_pow2_bits_low by lia. by rewrite andb_false_r.
Qed.

Lemma upper_bit v a : 0 ≤ a → upper v a (a + 1) = Z.b2z (Z.testbit v a).
Proof.
  intros Ha. unfold upper. replace (a + 1 - a) with 1 by lia. rewrite <-Z.testbit_spec' by lia. done.
Qed.

(** The last expansion of a doubled table comes after the first in cursor order. *)
Lemma upper_le_double v h a :
  in_u 64 v → in_u 64 h → 0 ≤ a ≤ 63 → v mod 2 ^ a = h mod 2 ^ a → rev64 v ≤ rev64 h →
  upper v a (a + 1) ≤ upper h a (a + 1).
Proof.
  intros Hv Hh Ha Hm Hle. rewrite !upper_bit by lia.
  destruct (Z.testbit v a) eqn:Ev; [|destruct (Z.testbit h a); simpl; lia].
  destruct (Z.testbit h a) eqn:Eh; [simpl; lia|exfalso].
  apply rev_low_bits in Hm; [|done|done|lia].
  assert (0 < 2 ^ (63 - a)) by (apply Z.pow_pos_nonneg; lia).
  assert (rev64 v / 2 ^ (63 - a) ≤ rev64 h / 2 ^ (63 - a)) as Hd by (apply Z.div_le_mono; lia).
  assert (∀ w, in_u 64 w → rev64 w / 2 ^ (63 - a) = 2 * (rev64 w / 2 ^ (64 - a)) + Z.b2z (Z.testbit w a)) as Hs.
  { intros w Hw. replace (2 ^ (64 - a)) with (2 ^ (63 - a) * 2)
      by (replace (64 - a) with (63 - a + 1) by lia; rewrite pow2_double by lia; lia).
    rewrite <-Z.div_div by lia. rewrite (Z.div_mod (rev64 w / 2 ^ (63 - a)) 2) at 1 by lia. f_equal.
    rewrite <-Z.testbit_spec' by lia. rewrite rev64_testbit by (done || lia). f_equal. f_equal. lia. }
  rewrite (Hs v), (Hs h), Ev, Eh, Hm in Hd by done. simpl in Hd. lia.
Qed.

(** A covered cursor starts the inner loop early enough. *)
Lemma covered_upper prev d v h a b :
  covered prev d → small_size d = 2 ^ a → large_size d = 2 ^ b → 2 ≤ a ≤ b → b ≤ 31 →
  in_u 64 v → in_u 64 h → v = 0 ∨ v < prev → h mod 2 ^ a = v mod 2 ^ a → rev64 v ≤ rev64 h →
  upper v a b ≤ upper h a b.
Proof.
  intros Hcov Hsm Hla Ha Hb Hv Hh Hprev Hmod Hle.
  pose proof (upper_range h a b). pose proof (upper_range v a b).
  assert (b = a → upper v a b ≤ upper h a b) as Heq.
  { intros ->. unfold upper. replace (a - a) with 0 by lia. rewrite !Z.mod_1_r. lia. }
  destruct Hcov as [Hr|[Hpv|Hdb]].
  - apply Heq. unfold small_size, large_size in *. rewrite Hr in *. apply (Z.pow_inj_r 2); lia.
  - assert (0 < 2 ^ a) by (apply Z.pow_pos_nonneg; lia).
    assert (0 ≤ v < 2 ^ a) as Hsmall by (destruct Hv; destruct Hprev as [->|]; lia).
    assert (upper v a b = 0) as ->; [|lia].
    unfold upper. rewrite Z.div_small by done. apply Z.mod_0_l. apply Z.pow_nonzero; lia.
  - assert (b ≤ a + 1).
    { apply (Z.pow_le_mono_r_iff 2); [lia|lia|]. rewrite pow2_double by lia. lia. }
    destruct (decide (b = a)) as [|]; [by apply Heq|].
    assert (b = a + 1) as -> by lia. by apply upper_le_double; [| |lia| |].
Qed.

(** The next cursor has passed the keys that agree with this one only. *)
Lemma cursor_passes v v' h a :
  in_u 64 v → in_u 64 h → 0 ≤ a ≤ 64 → rev64 v ≤ rev64 h →
  rev64 v' = u64 ((rev64 v / 2 ^ (64 - a) + 1) * 2 ^ (64 - a)) →
  h mod 2 ^ a = v mod 2 ^ a ∨ (v' ≠ 0 ∧ rev64 v' ≤ rev64 h).
Proof.
  intros Hv Hh Ha Hle Hrev. assert (0 < 2 ^ (64 - a)) by (apply Z.pow_pos_nonneg; lia).
  rewrite rev_low_bits by done. set (N := 2 ^ (64 - a)) in *. clearbody N.
  destruct (rev64_range h Hh) as [_ Hlt]. destruct (rev64_range v Hv) as [Hv0 _].
  destruct (decide (rev64 h < (rev64 v / N + 1) * N)) as [Hin|Hout].
  - left. apply Z.le_antisymm; [|apply Z.div_le_mono; lia].
    apply Z.lt_succ_r, Z.div_lt_upper_bound; lia.
  - right. pose proof (Z.div_pos (rev64 v) N Hv0 ltac:(lia)) as Hq.
    rewrite wrap_small in Hrev by (unfold in_u; nia). split; [|lia].
    intros Hz. rewrite Hz, rev64_0 in Hrev. nia.
Qed.

(** One call: either it emits the key, or the cursor stays at or before it. *)
Lemma scan_step prev d k v :
  dict_wf T d → present d k → covered prev d → in_u 64 v → v = 0 ∨ v < prev →
  rev64 v ≤ rev64 (hashFunction T k) →
  ∃ v' out, dictScan d v = Some (v', out) ∧ in_u 64 v' ∧ (v' = 0 ∨ v' < small_size d) ∧
    (∀ p, p ∈ out → is_Some (dict_entries d !! p)) ∧
    ((∃ p w, p ∈ out ∧ contents (dict_entries d) !! p = Some (k, w)) ∨
     (v' ≠ 0 ∧ rev64 v' ≤ rev64 (hashFunction T k))).
Proof.
  intros (b0 & b1 & Hrep) (p & w & Hp) Hcov Hv Hprev Hle.
  assert (in_u 64 (hashFunction T k)) as Hh by (pose proof (hash_range (T := T) k); rlia).
  assert (dictSize d ≠ 0) as Hsz.
  { rewrite (dictSize_entries d b0 b1) by done. intros Hz.
    apply contents_Some_inv in Hp as (e & He & _).
    assert (dict_entries d = ∅) as Hemp by (apply map_size_empty_inv; lia). by rewrite Hemp in He. }
  destruct (dictScan_run d b0 b1 v Hrep Hsz Hv) as (v' & out & Hscan & Hv' & Hem & Hrev).
  pose proof Hem as (a & b & _ & _ & Hsm & Hla & Ha & Hb & _).
  assert (0 ≤ a ≤ 31) as Ha' by lia. specialize (Hrev a Hsm Ha').
  exists v', out. split; [done|]. split; [done|].
  split. { right. rewrite Hsm. eapply cursor_bound; [done| |exact Hrev]. lia. }
  split. { intros q. by eapply emitted_sound. }
  destruct (cursor_passes v v' (hashFunction T k) a) as [Hmod|]; [done|done|lia|done|done| |by right].
  left. exists p, w. split; [|done]. apply (emitted_complete d b0 b1 v out p k w Hrep Hem Hp).
  intros a1 b1' Ha1 Hb1 Hab1 _. assert (a1 = a) as -> by (apply (Z.pow_inj_r 2); lia).
  assert (b1' = b) as -> by (apply (Z.pow_inj_r 2); lia).
  split; [done|]. by eapply covered_upper; [done..| | | | | | |].
Qed.

(** Calls of [dictScan], each with the cursor the previous one returned, on the
    successive states of the dictionary. *)
Fixpoint scan_run (ds : list (dict K V)) (v : Z) : option (Z * list (list loc)) :=
  match ds with
  | [] => Some (v, [])
  | d :: ds =>
    '(v, out) ← dictScan d v;
    '(v, outs) ← scan_run ds v;
    Some (v, out :: outs)
  end.

Fixpoint all_covered (prev : Z) (ds : list (dict K V)) : Prop :=
  match ds with
  | [] => True
  | d :: ds => covered prev d ∧ all_covered (small_size d) ds
  end.

Lemma all_covered_replicate d n prev : prev ≤ small_size d → all_covered prev (replicate n d).
Proof.
  revert prev. induction n as [|n IH]; intros prev Hp; simpl; [done|].
  split; [right; by left|]. by apply IH.
Qed.

(** The key [k] was passed to the callback. *)
Definition reported (k : K) (ds : list (dict K V)) (outs : list (list loc)) : Prop :=
  ∃ i d out p w, ds !! i = Some d ∧ outs !! i = Some out ∧ p ∈ out ∧
    contents (dict_entries d) !! p = Some (k, w).

Lemma reported_here k d ds out outs p w :
  p ∈ out → contents (dict_entries d) !! p = Some (k, w) → reported k (d :: ds) (out :: outs).
Proof. intros. by exists 0%nat, d, out, p, w. Qed.

Lemma reported_later k d ds out outs : reported k ds outs → reported k (d :: ds) (out :: outs).
Proof. intros (i & d' & out' & p & w & ? & ? & ?). by exists (S i), d', out', p, w. Qed.

(** Scanning any states is defined and reports entries of the dictionary only. *)
Lemma scan_run_total ds v :
  Forall (dict_wf T) ds → in_u 64 v → ∃ v' outs, scan_run ds v = Some (v', outs) ∧ in_u 64 v' ∧
    Forall2 (λ d out, ∀ p, p ∈ out → is_Some (dict_entries d !! p)) ds outs.
Proof.
  revert v. induction ds as [|d ds IH]; intros v Hwf Hv; cbn [scan_run]; [by exists v, []|].
  apply Forall_cons in Hwf as [(b0 & b1 & Hrep) Hwf].
  assert (∃ v' out, dictScan d v = Some (v', out) ∧ in_u 64 v' ∧ ∀ p, p ∈ out → is_Some (dict_entries d !! p))
    as (v' & out & -> & Hv' & Hs).
  { destruct (decide (dictSize d = 0)) as [Hz|Hz].
    - exists 0, []. unfold dictScan. rewrite Hz. split; [done|]. split; [done|]. set_solver.
    - destruct (dictScan_run d b0 b1 v Hrep Hz Hv) as (v' & out & ? & ? & Hem & _). exists v', out.
      split; [done|]. split; [done|]. intros p. by eapply emitted_sound. }
  rewrite bind_Some_eq. destruct (IH v' Hwf Hv') as (v2 & outs & -> & Hv2 & Hf).
  rewrite bind_Some_eq. exists v2, (out :: outs). split; [done|]. split; [done|]. by constructor.
Qed.

Lemma scan_run_complete k ds prev v :
  Forall (λ d, dict_wf T d ∧ present d k) ds → all_covered prev ds → in_u 64 v → v = 0 ∨ v < prev →
  rev64 v ≤ rev64 (hashFunction T k) →
  ∃ v' outs, scan_run ds v = Some (v', outs) ∧
    (reported k ds outs ∨ ((ds ≠ [] → v' ≠ 0) ∧ rev64 v' ≤ rev64 (hashFunction T k))).
Proof.
  revert prev v. induction ds as [|d ds IH]; intros prev v Hds Hcov Hv Hp Hle; cbn [scan_run].
  { exists v, []. split; [done|]. by right. }
  apply Forall_cons in Hds as [[Hwf Hk] Hds]. destruct Hcov as [Hcov Hcovs].
  destruct (scan_step prev d k v Hwf Hk Hcov Hv Hp Hle) as (v' & out & -> & Hv' & Hb & Hs & Ho).
  rewrite bind_Some_eq. destruct Ho as [(p & w & Hpo & Hpc)|[Hnz Hle']].
  - destruct (scan_run_total ds v') as (v2 & outs & -> & _); [|done|].
    { eapply Forall_impl; [exact Hds|]. by intros ? []. }
    rewrite bind_Some_eq. exists v2, (out :: outs). split; [done|]. left. by eapply reported_here.
  - destruct (IH (small_size d) v' Hds Hcovs Hv' Hb Hle') as (v2 & outs & Hrun & Ho).
    rewrite Hrun, bind_Some_eq. exists v2, (out :: outs). split; [done|].
    destruct Ho as [Ho|[Hnz2 Hle2]]; [left; by apply reported_later|]. right. split; [|done]. intros _.
    destruct ds; [|by apply Hnz2]. cbn in Hrun. by injection Hrun as <- _.
Qed.

(** ** A whole iteration over an unchanged dictionary *)

(** The class of an entry: its bucket in cursor order. *)
Definition class (a h : Z) : Z := rev64 h / 2 ^ (64 - a).

Lemma bucket_placed d b0 b1 t i p k w :
  dict_rep T d b0 b1 → 0 ≤ i → p ∈ bucket (buckets b0 b1 t) i →
  contents (dict_entries d) !! p = Some (k, w) → Z.land (hashFunction T k) (ht_sizemask (ht d t)) = i.
Proof.
  intros Hrep Hi Hp Hc. destruct (rep_table T d b0 b1 t Hrep) as [_ Hok].
  unfold bucket in Hp. destruct (buckets b0 b1 t !! Z.to_nat i) as [b|] eqn:Hb; simpl in Hp; [|set_solver].
  destruct (ht_table (ht d t)); [|destruct Hok as [_ Hnil]; by rewrite Hnil, lookup_nil in Hb].
  destruct Hok as (_ & _ & _ & Hpl). destruct (Hpl _ _ _ Hb Hp) as (k' & w' & Hc' & Hm).
  simplify_eq. lia.
Qed.

Lemma bucket_index_eq d b0 b1 t i j p :
  dict_rep T d b0 b1 → 0 ≤ i → 0 ≤ j → p ∈ bucket (buckets b0 b1 t) i → p ∈ bucket (buckets b0 b1 t) j → i = j.
Proof.
  intros Hrep Hi Hj Hpi Hpj. destruct (rep_alloc T d b0 b1 t p Hrep) as [e He]; [by eapply bucket_subset|].
  apply contents_Some in He. rewrite <-(bucket_placed d b0 b1 t i p _ _ Hrep Hi Hpi He).
  by rewrite <-(bucket_placed d b0 b1 t j p _ _ Hrep Hj Hpj He).
Qed.

Lemma bucket_NoDup d b0 b1 t i : dict_rep T d b0 b1 → NoDup (bucket (buckets b0 b1 t) i).
Proof.
  intros Hrep. unfold bucket. destruct (buckets b0 b1 t !! Z.to_nat i) as [b|] eqn:Hb; simpl; [|apply NoDup_nil_2].
  eapply bucket_nodup; [by eapply rep_join_nodup|done].
Qed.

Lemma expansions_index bs a b v x :
  0 ≤ a ≤ b → x ∈ expansions bs a b v →
  ∃ w, 0 ≤ w < 2 ^ (b - a) ∧ x ∈ bucket bs (v mod 2 ^ a + 2 ^ a * w).
Proof.
  intros Hab (w & Hx & Hw%elem_of_seqZ)%list_elem_of_bind. pose proof (upper_range v a b Hab).
  exists w. split; [lia|done].
Qed.

(** One call emits distinct entries, all of the class of the cursor. *)
Lemma emitted_class d b0 b1 v out :
  dict_rep T d b0 b1 → emitted d b0 b1 v out → in_u 64 v →
  NoDup out ∧ ∀ a p k w, small_size d = 2 ^ a → 0 ≤ a ≤ 31 → p ∈ out →
    contents (dict_entries d) !! p = Some (k, w) → class a (hashFunction T k) = class a v.
Proof.
  intros Hrep (a & b & ts & tl & Hsm & _ & Ha & Hb & Hz & Hm & Hout) Hv.
  assert (0 < 2 ^ a) as Hpos by (apply Z.pow_pos_nonneg; lia).
  pose proof (Z.mod_pos_bound v (2 ^ a) Hpos) as Hvm.
  assert (∀ p k w, p ∈ bucket (buckets b0 b1 ts) (v mod 2 ^ a) →
    contents (dict_entries d) !! p = Some (k, w) → hashFunction T k mod 2 ^ a = v mod 2 ^ a) as Hs.
  { intros p k w Hp Hc. rewrite <-land_mask, <-Hm by lia. eapply bucket_placed; [done|lia|done|done]. }
  assert (∀ p k w, p ∈ out → contents (dict_entries d) !! p = Some (k, w) →
    hashFunction T k mod 2 ^ a = v mod 2 ^ a) as Hall.
  { intros p k w Hp Hc. destruct (dictIsRehashing d); [|destruct Hout as (-> & _ & ->); by eapply Hs].
    destruct Hout as (_ & _ & Hm1 & ->). apply elem_of_app in Hp as [Hp|Hp]; [by eapply Hs|].
    apply expansions_index in Hp as (x & Hx & Hp); [|lia].
    assert (Z.land (hashFunction T k) (2 ^ b - 1) = v mod 2 ^ a + 2 ^ a * x) as Hl.
    { rewrite <-Hm1. eapply bucket_placed; [done| |done|done]. nia. }
    rewrite land_mask, (mod_upper _ a b) in Hl by lia.
    pose proof (Z.mod_pos_bound (hashFunction T k) (2 ^ a) Hpos).
    apply (Z.div_mod_unique (2 ^ a) (upper (hashFunction T k) a b) x); lia. }
  split.
  - destruct (dictIsRehashing d); [|destruct Hout as (-> & _ & ->); by eapply bucket_NoDup].
    destruct Hout as (Ht & _ & _ & ->). apply NoDup_app. split; [by eapply bucket_NoDup|]. split.
    + intros p Hp%bucket_subset Hp'%expansions_subset.
      destruct Hrep as [_ _ Hnd _ _ _ _]. apply NoDup_app in Hnd as (_ & Hdis & _).
      unfold buckets in *. destruct Ht as [[-> ->]|[-> ->]]; simpl in *; by eapply Hdis.
    + unfold expansions. apply NoDup_bind; [| |apply NoDup_seqZ].
      * intros x y p Hx%elem_of_seqZ Hy%elem_of_seqZ Hpx Hpy. pose proof (upper_range v a b).
        assert (v mod 2 ^ a + 2 ^ a * x = v mod 2 ^ a + 2 ^ a * y); [|nia].
        eapply bucket_index_eq; [done| | |done|done]; nia.
      * intros x _. by eapply bucket_NoDup.
  - intros a' p k w Ha' Hab' Hp Hc. assert (a' = a) as -> by (apply (Z.pow_inj_r 2); lia).
    unfold class. apply rev_low_bits; [|done|lia|by eapply Hall].
    pose proof (hash_range (T := T) k). rlia.
Qed.

(** The calls from the cursor of class [i] on. *)
Lemma scan_static_run d b0 b1 a n i v :
  dict_rep T d b0 b1 → dictSize d ≠ 0 → small_size d = 2 ^ a → 0 ≤ a ≤ 31 → in_u 64 v →
  rev64 v = i * 2 ^ (64 - a) → i + Z.of_nat n = 2 ^ a →
  ∃ outs, scan_run (replicate n d) v = Some (if n then v else 0, outs) ∧ NoDup (mjoin outs) ∧
    ∀ p k w, p ∈ mjoin outs → contents (dict_entries d) !! p = Some (k, w) →
      i ≤ class a (hashFunction T k).
Proof.
  intros Hrep Hsz Hsm Ha. assert (0 < 2 ^ (64 - a)) as HN by (apply Z.pow_pos_nonneg; lia).
  assert (2 ^ a * 2 ^ (64 - a) = 2 ^ 64) as Hprod by (rewrite <-Z.pow_add_r by lia; f_equal; lia).
  revert i v. induction n as [|n IH]; intros i v Hv Hrv Hi; cbn [replicate scan_run].
  { exists []. split; [done|]. split; [apply NoDup_nil_2|]. simpl. set_solver. }
  destruct (dictScan_run d b0 b1 v Hrep Hsz Hv) as (v' & out & -> & Hv' & Hem & Hrev).
  specialize (Hrev a Hsm Ha). rewrite bind_Some_eq.
  destruct (emitted_class d b0 b1 v out Hrep Hem Hv) as [Hnd Hcl].
  assert (class a v = i) as Hci by (unfold class; rewrite Hrv; apply Z.div_mul; lia).
  change (rev64 v / 2 ^ (64 - a)) with (class a v) in Hrev. rewrite Hci in Hrev.
  assert (∀ p k w, p ∈ out → contents (dict_entries d) !! p = Some (k, w) →
    class a (hashFunction T k) = i) as Hout by (intros p k w Hp Hc; rewrite <-Hci; by eapply Hcl).
  destruct n as [|n].
  - exists [out]. cbn. assert (v' = 0) as ->.
    { rewrite <-(rev64_involutive v') by done. rewrite Hrev. replace (i + 1) with (2 ^ a) by lia.
      rewrite Hprod. unfold wrap. rewrite Z.mod_same by lia. apply rev64_0. }
    split; [done|]. rewrite app_nil_r. split; [done|]. intros p k w Hp Hc. rewrite (Hout p k w Hp Hc). lia.
  - destruct (IH (i + 1) v') as (outs & -> & Hnds & Hcls); [done| |lia|].
    { rewrite Hrev. apply wrap_small. pose proof (rev64_range v Hv) as [Hr0 _]. unfold in_u. nia. }
    rewrite bind_Some_eq. exists (out :: outs). split; [done|]. cbn [mjoin list_join]. split.
    + apply NoDup_app. split; [done|]. split; [|done]. intros p Hp Hp'.
      destruct (emitted_sound d b0 b1 v out p Hrep Hem Hp) as [e He]. apply contents_Some in He.
      pose proof (Hout _ _ _ Hp He). pose proof (Hcls _ _ _ Hp' He). lia.
    + intros p k w [Hp|Hp]%elem_of_app Hc; [rewrite (Hout p k w Hp Hc); lia|].
      pose proof (Hcls _ _ _ Hp Hc). lia.
Qed.

(** C8: let [ds] be the successive states of a dictionary between the calls of
    an iteration that starts with cursor 0, and [k] a key of all of them.  If in
    each state there is one table, or the larger table is twice the smaller
    one, or the smaller table has not shrunk since the previous call, then the
    calls are defined, pass only entries of the dictionary to the callback, and
    when the cursor returned is 0 the key was passed to it. *)
Theorem dictScan_complete k ds :
  ds ≠ [] → Forall (λ d, dict_wf T d ∧ present d k) ds → all_covered 1 ds →
  ∃ v outs, scan_run ds 0 = Some (v, outs) ∧ in_u 64 v ∧
    Forall2 (λ d out, ∀ p, p ∈ out → is_Some (dict_entries d !! p)) ds outs ∧
    (v = 0 → reported k ds outs).
Proof.
  intros Hne Hds Hcov.
  destruct (scan_run_total ds 0) as (v & outs & Hrun & Hv & Hf); [|done|].
  { eapply Forall_impl; [exact Hds|]. by intros ? []. }
  exists v, outs. do 3 (split; [done|]). intros ->.
  destruct (scan_run_complete k ds 1 0 Hds Hcov) as (v' & outs' & Hrun' & Ho); [done|by left| |].
  { rewrite rev64_0. apply rev64_range. pose proof (hash_range (T := T) k). rlia. }
  rewrite Hrun in Hrun'. injection Hrun' as <- <-. destruct Ho as [|[Hn _]]; [done|]. by destruct (Hn Hne).
Qed.

(** C9: over a dictionary that does not change, an iteration ends with cursor 0
    after exactly as many calls as the smaller table has buckets, and passes
    every entry to the callback exactly once. *)
Theorem dictScan_static d :
  dict_wf T d → dictSize d ≠ 0 →
  ∃ outs, scan_run (replicate (Z.to_nat (small_size d)) d) 0 = Some (0, outs) ∧
    mjoin outs ≡ₚ (map_to_list (dict_entries d)).*1.
Proof.
  intros Hwf Hsz. pose proof Hwf as (b0 & b1 & Hrep).
  destruct (dictScan_run d b0 b1 0 Hrep Hsz) as (_ & _ & _ & _ & (a & b & _ & _ & Hsm & _ & Ha & Hb & _) & _); [done|].
  assert (0 < 2 ^ a) by (apply Z.pow_pos_nonneg; lia).
  destruct (scan_static_run d b0 b1 a (Z.to_nat (2 ^ a)) 0 0) as (outs & Hrun & Hnd & _);
    [done|done|done|lia|done|by rewrite rev64_0|lia|].
  assert (Z.to_nat (2 ^ a) ≠ 0%nat) as Hn by lia.
  rewrite Hsm. exists outs. split; [rewrite Hrun; by destruct (Z.to_nat (2 ^ a))|].
  set (ds := replicate _ d) in *.
  destruct (scan_run_total ds 0) as (v' & outs' & Hrun' & _ & Hf); [by apply Forall_replicate|done|].
  assert (outs' = outs) as -> by congruence.
  apply NoDup_Permutation; [done|apply NoDup_fst_map_to_list|]. intros p.
  assert (p ∈ (map_to_list (dict_entries d)).*1 ↔ is_Some (dict_entries d !! p)) as ->.
  { rewrite list_elem_of_fmap. split.
    - intros ([q e] & -> & He%elem_of_map_to_list). eauto.
    - intros [e He]. exists (p, e). split; [done|]. by apply elem_of_map_to_list. }
  split.
  - intros (out & Hp & Hout)%list_elem_of_join. apply list_elem_of_lookup in Hout as [i Hi].
    destruct (Forall2_lookup_r _ _ _ _ _ Hf Hi) as (d' & Hd' & Hs).
    apply lookup_replicate in Hd' as [-> _]. by apply Hs.
  - intros [e He]. apply contents_Some in He as Hc.
    destruct (scan_run_complete (de_key e) ds 1 0) as (v2 & outs2 & Hrun2 & Ho);
      [|by apply all_covered_replicate; lia|done|by left| |].
    + apply Forall_replicate. split; [done|]. by exists p, (de_val e).
    + rewrite rev64_0. apply rev64_range. pose proof (hash_range (T := T) (de_key e)). rlia.
    + assert (v2 = (if Z.to_nat (2 ^ a) then 0 else 0) ∧ outs2 = outs) as [Hv2 ->] by (split; congruence).
      destruct Ho as [(i & d' & out & q & w & Hd' & Hout & Hq & Hcq)|[Hnz _]].
      * apply lookup_replicate in Hd' as [-> _].
        assert (q = p) as -> by (eapply (rep_keys _ _ _ _ Hrep); done).
        apply list_elem_of_join. exists out. split; [done|]. by eapply list_elem_of_lookup_2.
      * exfalso. apply Hnz; [|by rewrite Hv2; destruct (Z.to_nat (2 ^ a))].
        unfold ds. by destruct (Z.to_nat (2 ^ a)).
Qed.
End scan.

(** ** Iterators *)

Section iterators.
Context {K V : Type} `{!EqDecision K} (T : dictType K V) `{!DictTypeOk T} (addr : Z → Z).
Implicit Types (d : dict K V) (bs : list (list loc)).

(** The entries in the buckets after bucket [j] of table [t]. *)
Definition later d (b0 b1 : list (list loc)) (t j : Z) : list loc :=
  mjoin (drop (Z.to_nat (j + 1)) (buckets b0 b1 t)) ++
  (if (t =? 0) && dictIsRehashing d then mjoin b1 else []).

(** The iterator [it], after its first call, has still to return [rem]. *)
Inductive pos d (b0 b1 : list (list loc)) (safe : bool) (fp : Z) : dictIterator → list loc → Prop :=
  | pos_none j t ne :
      0 ≤ j → t = 0 ∨ (t = 1 ∧ dictIsRehashing d = true) →
      pos d b0 b1 safe fp (DictIterator j t safe None ne fp) (later d b0 b1 t j)
  | pos_some j t x nx l :
      0 ≤ j → t = 0 ∨ (t = 1 ∧ dictIsRehashing d = true) → chain (dict_entries d) nx l →
      pos d b0 b1 safe fp (DictIterator j t safe (Some x) nx fp) (l ++ later d b0 b1 t j).

(** The result of [dictNext] when [rem] was to be returned. *)
Definition next_result d (b0 b1 : list (list loc)) (safe : bool) (fp : Z) (rem : list loc)
    (r : option loc) (it : dictIterator) : Prop :=
  match rem with
  | [] => r = None ∧ pos d b0 b1 safe fp it []
  | x :: rem => r = Some x ∧ pos d b0 b1 safe fp it rem
  end.

Lemma size_s64 d b0 b1 t : dict_rep T d b0 b1 → s64 (ht_size (ht d t)) = ht_size (ht d t).
Proof.
  intros Hrep. pose proof (table_size_31 T _ _ _ (rep_table T d b0 b1 t Hrep)).
  apply swrap_small; [lia|rlia].
Qed.

Lemma later_bucket d b0 b1 t i b :
  0 ≤ i → buckets b0 b1 t !! Z.to_nat i = Some b → later d b0 b1 t (i - 1) = b ++ later d b0 b1 t i.
Proof.
  intros Hi Hb. unfold later. replace (i - 1 + 1) with i by lia.
  rewrite (drop_S _ _ _ Hb). replace (Z.to_nat (i + 1)) with (S (Z.to_nat i)) by lia.
  cbn [mjoin list_join]. by rewrite <-app_assoc.
Qed.

Lemma later_end d b0 b1 t j :
  zlen (buckets b0 b1 t) ≤ j + 1 → (t =? 0) && dictIsRehashing d = false → later d b0 b1 t j = [].
Proof. intros Hj Ht. unfold later. rewrite Ht, drop_ge by lia. done. Qed.

(** Whether the call is the first one of the iterator. *)
Definition first_call (index t : Z) : bool := (index =? -1) && (t =? 0).

(** One turn of the loop between two entries: a bucket, or the end. *)
Lemma next_turn d b0 b1 safe fp ne index t :
  dict_rep T d b0 b1 → -1 ≤ index → (index = -1 → t = 0) → t = 0 ∨ (t = 1 ∧ dictIsRehashing d = true) →
  let d' := if first_call index t && safe then set_iterators d (iterators d + 1) else d in
  let fp' := if first_call index t && negb safe then dictFingerprint addr d' else fp in
  (∃ it, next_body addr (d, DictIterator index t safe None ne fp) = Some (inr (None, d', it)) ∧
     later d b0 b1 t index = [] ∧ pos d b0 b1 safe fp' it []) ∨
  (∃ i t' b, next_body addr (d, DictIterator index t safe None ne fp) =
       (match b with
        | [] => Some (inl (d', DictIterator i t' safe None ne fp'))
        | x :: _ => e ← dict_entries d !! x;
                    Some (inr (Some x, d', DictIterator i t' safe (Some x) (de_next e) fp'))
        end) ∧ 0 ≤ i ∧ (t' = 0 ∨ (t' = 1 ∧ dictIsRehashing d = true)) ∧
     later d b0 b1 t index = b ++ later d b0 b1 t' i ∧ (∃ p, chain (dict_entries d) p b) ∧
     ((t' = t ∧ i = index + 1 ∧ i < ht_size (ht d t)) ∨ (t = 0 ∧ t' = 1 ∧ i = 0))).
Proof.
  intros Hrep Hidx H1 Ht d' fp'. unfold next_body.
  rewrite (size_s64 d b0 b1) by done.
  pose proof (rep_table T d b0 b1 t Hrep) as Hok. pose proof (table_ok_length T _ _ _ Hok) as Hlen.
  assert (dict_entries d' = dict_entries d ∧ dictIsRehashing d' = dictIsRehashing d ∧ ht1 d' = ht1 d) as (He & Hr & Hh1)
    by (unfold d'; by destruct (_ && safe)).
  fold (first_call index t). fold d'. fold fp'. rewrite He, Hr, Hh1.
  destruct (index + 1 >=? ht_size (ht d t)) eqn:Hend.
  - destruct (dictIsRehashing d && (t =? 0)) eqn:Hc.
    + right. assert (t = 0 ∧ dictIsRehashing d = true) as [-> Hreh] by lia.
      pose proof (rep_table T d b0 b1 1 Hrep) as Hok1.
      assert (ht_size (ht d 1) ≠ 0) as Hs1 by by apply (rep_size1 T d b0 b1).
      destruct (table_get_ok T _ _ _ 0 Hok1) as (p & b & Hg & Hb & Hch);
        [pose proof (table_size_31 T _ _ _ Hok1); lia|].
      change (ht1 d) with (ht d 1). rewrite Hg, bind_Some_eq. exists 0, 1, b. split; [|split; [lia|split; [by right|]]].
      { destruct b as [|x b]; [by rewrite Hch|]. by destruct Hch as [-> _]. }
      split; [|split; [by eexists|by right]].
      assert (mjoin b1 = later d b0 b1 1 (0 - 1)) as Hb1 by (unfold later; simpl; by rewrite drop_0, app_nil_r).
      rewrite <-(later_bucket d b0 b1 1 0 b) by done. rewrite <-Hb1.
      unfold later at 1. rewrite drop_ge by lia. rewrite Hreh. done.
    + left. eexists. split; [done|]. assert (later d b0 b1 t index = []) as Hnil.
      { apply later_end; [lia|]. by rewrite andb_comm. }
      split; [done|]. rewrite <-(later_end d b0 b1 t (index + 1)); [by constructor; [lia|]|lia|by rewrite andb_comm].
  - right. destruct (table_get_ok T _ _ _ (index + 1) Hok) as (p & b & Hg & Hb & Hch); [lia|].
    rewrite Hg, bind_Some_eq. exists (index + 1), t, b. split; [|split; [lia|split; [done|]]].
    { destruct b as [|x b]; [by rewrite Hch|]. by destruct Hch as [-> _]. }
    rewrite <-(later_bucket d b0 b1 t (index + 1) b) by (done || lia).
    replace (index + 1 - 1) with index by lia. split; [done|]. split; [by eexists|]. left. lia.
Qed.

Lemma next_scan d b0 b1 safe fp n index t ne :
  dict_rep T d b0 b1 → 0 ≤ index → t = 0 ∨ (t = 1 ∧ dictIsRehashing d = true) →
  (Z.to_nat (ht_size (ht d t) - index)%Z +
   (if ((t =? 0)%Z && dictIsRehashing d) then S (Z.to_nat (ht_size (ht1 d))) else 0) < n)%nat →
  ∃ r it, loop n (next_body addr) (d, DictIterator index t safe None ne fp) = Some (r, d, it) ∧
    next_result d b0 b1 safe fp (later d b0 b1 t index) r it.
Proof.
  intros Hrep. revert index t ne. induction n as [|n IH]; intros index t ne Hi Ht Hn; [lia|]. cbn [loop].
  pose proof (next_turn d b0 b1 safe fp ne index t Hrep ltac:(lia) ltac:(lia) Ht) as Hturn.
  assert (first_call index t = false) as Hf by (unfold first_call; lia).
  rewrite Hf in Hturn. cbn [andb] in Hturn.
  destruct Hturn as [(it & -> & -> & Hpos)|(i & t' & b & -> & Hi' & Ht' & -> & (p & Hch) & Hm)].
  { exists None, it. split; [done|]. by split. }
  destruct b as [|x b].
  - apply (IH i t' ne Hi' Ht').
    destruct Hm as [(-> & -> & Hlt)|(-> & -> & ->)]; [lia|].
    destruct Ht' as [?|[_ Hreh]]; [lia|]. rewrite Hreh in Hn. simpl in Hn |- *.
    change (ht d 1) with (ht1 d). rewrite Z.sub_0_r. lia.
  - destruct Hch as [-> (e & He & Hch)]. rewrite He, bind_Some_eq. eexists (Some x), _. split; [done|].
    split; [done|]. by constructor.
Qed.

Lemma dictNext_run d b0 b1 safe fp it rem :
  dict_rep T d b0 b1 → pos d b0 b1 safe fp it rem →
  ∃ r it', dictNext addr d it = Some (r, d, it') ∧ next_result d b0 b1 safe fp rem r it'.
Proof.
  intros Hrep Hpos. unfold dictNext.
  pose proof (table_size_31 T _ _ _ (rep_t0 _ _ _ _ Hrep)). pose proof (table_size_31 T _ _ _ (rep_t1 _ _ _ _ Hrep)).
  assert (∀ j t, 0 ≤ j → t = 0 ∨ (t = 1 ∧ dictIsRehashing d = true) →
    (Z.to_nat (ht_size (ht d t) - j)%Z +
     (if ((t =? 0)%Z && dictIsRehashing d) then S (Z.to_nat (ht_size (ht1 d))) else 0) <
     3 + Z.to_nat (ht_size (ht0 d)) + Z.to_nat (ht_size (ht1 d)))%nat) as Hfuel.
  { intros j t Hj [-> | [-> _]]; unfold ht; simpl; [destruct (dictIsRehashing d)|]; lia. }
  destruct Hpos as [j t ne Hj Ht|j t x nx l Hj Ht Hch].
  - apply next_scan; [done..|]. specialize (Hfuel j t Hj Ht). lia.
  - set (m := (4 + _ + _)%nat). assert (m = S (pred m)) as -> by lia.
    rewrite loop_S. assert (pred m = 3 + Z.to_nat (ht_size (ht0 d)) + Z.to_nat (ht_size (ht1 d)))%nat as -> by lia. unfold next_body at 1.
    destruct l as [|y l].
    + simpl in Hch. subst nx. apply next_scan; [done..|]. by apply Hfuel.
    + destruct Hch as [-> (e & He & Hch)]. rewrite He, bind_Some_eq. eexists (Some y), _.
      split; [done|]. split; [done|]. by constructor.
Qed.

(** The first call. *)
Lemma dictNext_first d b0 b1 (safe : bool) :
  dict_rep T d b0 b1 →
  let d' := if safe then set_iterators d (iterators d + 1) else d in
  let fp := if safe then 0 else dictFingerprint addr d in
  ∃ r it, dictNext addr d (DictIterator (-1) 0 safe None None 0) = Some (r, d', it) ∧
    next_result d' b0 b1 safe fp (mjoin b0 ++ mjoin b1) r it.
Proof.
  intros Hrep d' fp. assert (dict_rep T d' b0 b1) as Hrep' by (destruct safe; [by destruct Hrep|done]).
  pose proof (next_turn d b0 b1 safe 0 None (-1) 0 Hrep ltac:(lia) ltac:(lia) ltac:(by left)) as Hturn.
  assert ((if first_call (-1) 0 && safe then set_iterators d (iterators d + 1) else d) = d') as Hd by done.
  assert ((if first_call (-1) 0 && negb safe then dictFingerprint addr d' else 0) = fp) as Hfp
    by (unfold fp, d'; by destruct safe).
  cbv zeta in Hturn. rewrite Hd, Hfp in Hturn. clear Hd Hfp.
  assert (∀ t j, later d' b0 b1 t j = later d b0 b1 t j) as Hlat by (intros; unfold d'; by destruct safe).
  assert (dict_entries d' = dict_entries d ∧ dictIsRehashing d' = dictIsRehashing d ∧ ht0 d' = ht0 d ∧ ht1 d' = ht1 d)
    as (He & Hr & Hh0 & Hh1) by (unfold d'; by destruct safe).
  assert (mjoin b0 ++ mjoin b1 = later d b0 b1 0 (-1)) as Hall.
  { unfold later. simpl. rewrite drop_0. destruct (dictIsRehashing d) eqn:E; [done|].
    by rewrite (rep_b1_nil T d b0 b1). }
  rewrite Hall. clearbody d' fp. unfold dictNext.
  set (m := (4 + _ + _)%nat). assert (m = S (pred m)) as -> by lia.
  rewrite loop_S. assert (pred m = 3 + Z.to_nat (ht_size (ht0 d)) + Z.to_nat (ht_size (ht1 d)))%nat as -> by lia.
  destruct Hturn as [(it & -> & -> & Hpos)|(i & t' & b & -> & Hi' & Ht' & -> & (p & Hch) & Hm)].
  { exists None, it. split; [done|]. split; [done|]. inversion Hpos; subst.
    - rewrite <-Hlat. constructor; [done|]. by rewrite Hr.
    - rewrite <-Hlat. constructor; [done| |by rewrite He]. by rewrite Hr. }
  destruct b as [|x b].
  - rewrite app_nil_l, <-Hlat. apply next_scan; [done|done|by rewrite Hr|].
    rewrite Hr, Hh1. pose proof (table_size_31 T _ _ _ (rep_t0 _ _ _ _ Hrep)).
    pose proof (table_size_31 T _ _ _ (rep_t1 _ _ _ _ Hrep)).
    destruct Ht' as [-> | [-> _]]; unfold ht; simpl; rewrite ?Hh0, ?Hh1; [destruct (dictIsRehashing d)|]; lia.
  - destruct Hch as [-> (e & Hx & Hch)]. rewrite Hx, bind_Some_eq. eexists (Some x), _. split; [done|].
    split; [done|]. rewrite <-Hlat. constructor; [done|by rewrite Hr|by rewrite He].
Qed.

(** [while ((de = dictNext(iter)) != NULL) ...], at most [n] calls. *)
Fixpoint iter_run (n : nat) d (it : dictIterator) : option (list loc * dict K V * dictIterator) :=
  match n with
  | O => None
  | S n =>
    '(r, d, it) ← dictNext addr d it;
    match r with
    | None => Some ([], d, it)
    | Some p => '(ps, d, it) ← iter_run n d it; Some (p :: ps, d, it)
    end
  end.

Lemma iter_rest d b0 b1 safe fp it rem n :
  dict_rep T d b0 b1 → pos d b0 b1 safe fp it rem → (length rem < n)%nat →
  ∃ it', iter_run n d it = Some (rem, d, it') ∧ pos d b0 b1 safe fp it' [].
Proof.
  intros Hrep. revert it n. induction rem as [|x rem IH]; intros it n Hpos Hn; (destruct n as [|n]; [simpl in Hn; lia|]);
    cbn [iter_run]; destruct (dictNext_run d b0 b1 safe fp it _ Hrep Hpos) as (r & it' & -> & [-> Hpos']);
    rewrite bind_Some_eq; cbv beta iota; [by exists it'|].
  destruct (IH it' n Hpos') as (it2 & -> & Hpos2); [simpl in Hn; lia|]. rewrite bind_Some_eq. by exists it2.
Qed.

(** An unsafe iterator at the end is released without a complaint. *)
Lemma release_unsafe d b0 b1 it : pos d b0 b1 false (dictFingerprint addr d) it [] → dictReleaseIterator addr d it = Some d.
Proof.
  intros Hp. unfold dictReleaseIterator.
  assert (it_index it ≠ -1 ∧ it_safe it = false ∧ it_fingerprint it = dictFingerprint addr d) as (Hi & -> & ->)
    by (inversion Hp; subst; cbn; (split; [lia|done])).
  destruct ((it_index it =? -1) && _) eqn:E; [lia|]. by rewrite Z.eqb_refl.
Qed.

(** an iterator, safe or not, over a dictionary that is not changed returns
    every entry exactly once and then [NULL], in a number of calls one greater
    than the number of entries; releasing it then restores the dictionary, and
    the fingerprint of an unsafe iterator is unchanged. *)
Theorem iterator_correct d (safe : bool) :
  dict_wf T d →
  ∃ ps d' it, iter_run (S (size (dict_entries d))) d
      (if safe then dictGetSafeIterator else dictGetIterator) = Some (ps, d', it) ∧
    ps ≡ₚ (map_to_list (dict_entries d)).*1 ∧
    iterators d' = (if safe then iterators d + 1 else iterators d) ∧
    dictReleaseIterator addr d' it = Some d.
Proof.
  intros (b0 & b1 & Hrep).
  assert ((if safe then dictGetSafeIterator else dictGetIterator) = DictIterator (-1) 0 safe None None 0) as ->
    by by destruct safe.
  destruct (dictNext_first d b0 b1 safe Hrep) as (r & it & Hnext & Hres).
  set (d' := if safe then set_iterators d (iterators d + 1) else d) in *.
  set (fp := if safe then 0 else dictFingerprint addr d) in *.
  assert (dict_rep T d' b0 b1) as Hrep' by (unfold d'; destruct safe; [by destruct Hrep|done]).
  assert (∀ it, pos d' b0 b1 safe fp it [] → dictReleaseIterator addr d' it = Some d) as Hrel.
  { intros it' Hp. unfold dictReleaseIterator.
    assert (it_index it' ≠ -1 ∧ it_safe it' = safe ∧ it_fingerprint it' = fp) as (Hi & -> & ->)
      by (inversion Hp; subst; cbn; (split; [lia|done])).
    destruct ((it_index it' =? -1) && _) eqn:E; [lia|]. unfold d', fp. destruct safe.
    - unfold set_iterators. destruct d. cbn. do 2 f_equal. lia.
    - by rewrite Z.eqb_refl. }
  pose proof (rep_used_total d b0 b1 (rep_nodup _ _ _ _ Hrep) (rep_dom _ _ _ _ Hrep)) as Hsz.
  assert (∃ it, iter_run (S (size (dict_entries d))) d (DictIterator (-1) 0 safe None None 0) =
    Some (mjoin b0 ++ mjoin b1, d', it) ∧ pos d' b0 b1 safe fp it []) as (it' & Hrun & Hp).
  { cbn [iter_run]. rewrite Hnext, bind_Some_eq. cbv beta iota. rewrite Hsz.
    destruct (mjoin b0 ++ mjoin b1) as [|x rem]; destruct Hres as [-> Hpos]; [by exists it|].
    destruct (iter_rest d' b0 b1 safe fp it rem (length (x :: rem)) Hrep' Hpos) as (it2 & -> & Hp2);
      [simpl; lia|]. rewrite bind_Some_eq. by exists it2. }
  exists (mjoin b0 ++ mjoin b1), d', it'. split; [done|]. split; [|split; [unfold d'; by destruct safe|by apply Hrel]].
  apply NoDup_Permutation; [apply Hrep|apply NoDup_fst_map_to_list|]. intros p.
  rewrite <-(elem_of_list_to_set (C := gset loc)), <-(rep_dom _ _ _ _ Hrep), elem_of_dom, list_elem_of_fmap. split.
  - intros [e He]. exists (p, e). split; [done|]. by apply elem_of_map_to_list.
  - intros ([q e] & -> & He%elem_of_map_to_list). eauto.
Qed.
End iterators.

(** ** Random entries *)

Section random_entries.
Context {K V : Type} `{!EqDecision K} (T : dictType K V) `{!DictTypeOk T}.
Implicit Types (d : dict K V).

Lemma listlen_run d he l n acc :
  chain (dict_entries d) he l → (length l < n)%nat →
  loop n (listlen_body d) (he, acc) = Some (acc + zlen l).
Proof.
  revert he n acc. induction l as [|x l IH]; intros he n acc Hc Hn; (destruct n as [|n]; [simpl in Hn; lia|]);
    rewrite loop_S; cbn [listlen_body].
  - simpl in Hc. subst he. cbn. f_equal. lia.
  - destruct Hc as [-> (e & He & Hc)]. rewrite He, bind_Some_eq. cbv beta iota.
    rewrite IH; [f_equal; simpl; lia|done|simpl in Hn; lia].
Qed.

Lemma skip_entries_run d he l (i : nat) x :
  chain (dict_entries d) he l → l !! i = Some x → skip_entries d i he = Some (Some x).
Proof.
  revert he l. induction i as [|i IH]; intros he l Hc Hx; (destruct l as [|y l]; [done|]);
    destruct Hc as [-> (e & He & Hc)]; cbn [skip_entries].
  - simpl in Hx. congruence.
  - rewrite bind_Some_eq, He, bind_Some_eq. by eapply IH.
Qed.

(** The bucket a draw selects is inside its table. *)
Lemma draw_run d b0 b1 r rnd :
  dict_rep T d b0 b1 → ht_size (ht0 d) ≠ 0 → 0 ≤ r →
  ∃ p t i b, random_bucket_body d (r :: rnd) =
      Some (match p with None => inl rnd | Some x => inr (x, rnd) end) ∧
    buckets b0 b1 t !! i = Some b ∧ chain (dict_entries d) p b ∧
    (t = 0 ∨ t = 1).
Proof.
  intros Hrep Hs Hr. unfold random_bucket_body, random. rewrite bind_Some_eq. cbv beta iota.
  pose proof (table_size_31 T _ _ _ (rep_t0 _ _ _ _ Hrep)). pose proof (table_size_31 T _ _ _ (rep_t1 _ _ _ _ Hrep)).
  assert (∀ t i h, (t = 0 ∨ t = 1) → h = ht d t → 0 ≤ i < ht_size (ht d t) → ∃ p t i' b,
    (he ← table_get h i; match he with None => Some (inl rnd) | Some p => Some (inr (p, rnd)) end) =
      Some (match p with None => inl rnd | Some x => inr (x, rnd) end) ∧
    buckets b0 b1 t !! i' = Some b ∧ chain (dict_entries d) p b ∧ (t = 0 ∨ t = 1)) as Hget.
  { intros t i h Ht -> Hi. destruct (table_get_ok T _ _ _ i (rep_table T d b0 b1 t Hrep) Hi) as (p & b & -> & Hb & Hc).
    exists p, t, (Z.to_nat i), b. rewrite bind_Some_eq. by destruct p. }
  destruct (dictIsRehashing d) eqn:Hreh.
  - pose proof (rep_rehash _ _ _ _ Hrep) as Hx. rewrite Hreh in Hx. destruct Hx as (Hi & Hs1 & _).
    rewrite wrap_small by rlia. set (n := ht_size (ht0 d) + ht_size (ht1 d) - rehashidx d) in *.
    assert (0 < n) by lia. destruct (n =? 0) eqn:E; [lia|]. cbn [negb].
    pose proof (Z.mod_pos_bound r n ltac:(lia)). rewrite wrap_small by rlia.
    destruct (rehashidx d + r mod n >=? ht_size (ht0 d)) eqn:E2.
    + apply (Hget 1); [by right|done|]. change (ht d 1) with (ht1 d). lia.
    + apply (Hget 0); [by left|done|]. change (ht d 0) with (ht0 d). lia.
  - pose proof (mask_index T _ _ _ r (rep_t0 _ _ _ _ Hrep) Hs). rewrite wrap_small by rlia.
    apply (Hget 0); [by left|done|]. done.
Qed.

(** Every non-empty bucket is selected by some draw. *)
Lemma draw_any d b0 b1 t i b x :
  dict_rep T d b0 b1 → t = 0 ∨ (t = 1 ∧ dictIsRehashing d = true) →
  buckets b0 b1 t !! i = Some b → x ∈ b →
  ∃ r p, 0 ≤ r < 2 ^ 32 ∧ (∀ rnd, random_bucket_body d (r :: rnd) = Some (inr (p, rnd))) ∧
    chain (dict_entries d) (Some p) b.
Proof.
  intros Hrep Ht Hb Hx. pose proof (rep_table T d b0 b1 t Hrep) as Hok.
  pose proof (table_ok_length T _ _ _ Hok). pose proof (lookup_lt_Some _ _ _ Hb).
  pose proof (table_size_31 T _ _ _ (rep_t0 _ _ _ _ Hrep)). pose proof (table_size_31 T _ _ _ (rep_t1 _ _ _ _ Hrep)).
  destruct (table_get_ok T _ _ _ (Z.of_nat i) Hok) as (p & b' & Hg & Hb' & Hc); [lia|].
  rewrite Nat2Z.id in Hb'. assert (b' = b) as -> by congruence.
  destruct p as [p|]; [|apply chain_nil in Hc as ->; set_solver].
  destruct (dictIsRehashing d) eqn:Hreh.
  - pose proof (rep_rehash _ _ _ _ Hrep) as Hre. rewrite Hreh in Hre. destruct Hre as (Hi & Hs1 & Hemp).
    exists ((if t =? 0 then Z.of_nat i else ht_size (ht0 d) + Z.of_nat i) - rehashidx d), p.
    assert (0 ≤ (if t =? 0 then Z.of_nat i else ht_size (ht0 d) + Z.of_nat i) - rehashidx d <
            ht_size (ht0 d) + ht_size (ht1 d) - rehashidx d) as Hr.
    { destruct Ht as [-> | [-> _]]; unfold ht, buckets in *; simpl in *; [|lia].
      destruct (decide (Z.of_nat i < rehashidx d)) as [Hlt|]; [|lia].
      rewrite Hemp in Hb by done. simplify_eq. }
    split; [lia|]. split; [|done]. intros rnd. unfold random_bucket_body, random. rewrite bind_Some_eq. cbv beta iota.
    rewrite Hreh. destruct Ht as [-> | [-> _]]; unfold ht, buckets in *; simpl in *;
      rewrite wrap_small by rlia;
      destruct (ht_size (ht0 d) + ht_size (ht1 d) - rehashidx d =? 0) eqn:E; try lia; cbn [negb];
      rewrite Z.mod_small by lia; rewrite wrap_small by rlia.
    + replace (rehashidx d + (Z.of_nat i - rehashidx d)) with (Z.of_nat i) by lia.
      destruct (Z.of_nat i >=? ht_size (ht0 d)) eqn:?; [lia|]. by rewrite Hg.
    + replace (rehashidx d + (ht_size (ht0 d) + Z.of_nat i - rehashidx d)) with (ht_size (ht0 d) + Z.of_nat i) by lia.
      destruct (_ >=? _) eqn:?; [|lia]. rewrite Z.add_simpl_l. by rewrite Hg.
  - destruct Ht as [-> | [_ ?]]; [|done]. unfold ht, buckets in *. simpl in *.
    assert (ht_size (ht0 d) ≠ 0) as Hs by lia.
    destruct (table_ok_sized T _ _ _ Hok Hs) as (k & Hk & Hsz & Hm).
    exists (Z.of_nat i), p. split; [lia|]. split; [|done]. intros rnd.
    unfold random_bucket_body, random. rewrite bind_Some_eq. cbv beta iota. rewrite Hreh, Hm, land_mask by lia.
    rewrite Z.mod_small, wrap_small by rlia. by rewrite Hg.
Qed.

Lemma draws_run d b0 b1 n rnd p rest :
  dict_rep T d b0 b1 → ht_size (ht0 d) ≠ 0 → Forall (λ r, 0 ≤ r) rnd →
  loop n (random_bucket_body d) rnd = Some (p, rest) →
  Forall (λ r, 0 ≤ r) rest ∧ (length rest < length rnd)%nat ∧ ∃ t i b, (t = 0 ∨ t = 1) ∧ buckets b0 b1 t !! i = Some b ∧
    chain (dict_entries d) (Some p) b.
Proof.
  intros Hrep Hs. revert rnd. induction n as [|n IH]; intros rnd Hr; [done|]. rewrite loop_S.
  destruct rnd as [|r rnd]; [done|]. apply Forall_cons in Hr as [Hr Hrs].
  destruct (draw_run d b0 b1 r rnd Hrep Hs Hr) as (q & t & i & b & -> & Hb & Hc & Ht).
  destruct q as [q|]; [intros [= <- <-]|intros Hl; apply IH in Hl as (? & ? & ?); [|done]]; (split; [done|]; split; [simpl; lia|]); [|done].
  by exists t, i, b.
Qed.

Lemma entry_bucket d b0 b1 x e :
  dict_rep T d b0 b1 → dict_entries d !! x = Some e →
  ∃ t i b, (t = 0 ∨ (t = 1 ∧ dictIsRehashing d = true)) ∧ buckets b0 b1 t !! i = Some b ∧ x ∈ b.
Proof.
  intros Hrep He. assert (x ∈ dom (dict_entries d)) as Hx by (by eapply elem_of_dom_2).
  rewrite (rep_dom _ _ _ _ Hrep) in Hx. apply elem_of_list_to_set, elem_of_app in Hx as [Hx|Hx];
    apply list_elem_of_join in Hx as (b & Hxb & Hb); apply list_elem_of_lookup in Hb as [i Hi].
  - exists 0, i, b. split; [by left|done].
  - exists 1, i, b. split; [right; split; [done|]|done].
    destruct (dictIsRehashing d) eqn:Hr; [done|]. pose proof (rep_b1_nil T d b0 b1 Hrep Hr) as Hnil.
    assert (x ∈ mjoin b1) as Hj by (by eapply elem_of_bucket). rewrite Hnil in Hj. set_solver.
Qed.

(** The element of a chain that the second draw selects. *)
Lemma select_run d b0 b1 t i b p r :
  dict_rep T d b0 b1 → buckets b0 b1 t !! i = Some b → chain (dict_entries d) (Some p) b → 0 ≤ r →
  ∃ x, b !! Z.to_nat (r mod zlen b) = Some x ∧
    loop (chain_fuel d) (listlen_body d) (Some p, 0) = Some (zlen b) ∧
    skip_entries d (Z.to_nat (r mod zlen b)) (Some p) = Some (Some x).
Proof.
  intros Hrep Hb Hc Hr. pose proof (bucket_fuel T d b0 b1 t i b Hrep Hb).
  assert (0 < zlen b) as Hlen by (destruct b; [done|simpl; lia]).
  pose proof (Z.mod_pos_bound r _ Hlen).
  destruct (lookup_lt_is_Some_2 b (Z.to_nat (r mod zlen b))) as [x Hx]; [lia|].
  exists x. split; [done|]. split; [by apply (listlen_run d (Some p) b _ 0)|].
  by eapply skip_entries_run.
Qed.

(** on a dictionary that is not empty, whatever the values [random()]
    returns, the entry returned is one of the dictionary, whose contents do not
    change; and for every entry there are two values that make it the result,
    whatever values follow.
    On an empty dictionary the result is [NULL]. *)
Theorem dictGetRandomKey_correct g d :
  dict_wf T d →
  (dict_entries d = ∅ → ∀ rnd, dictGetRandomKey T g d rnd = Some (None, d, rnd)) ∧
  (dict_entries d ≠ ∅ → ∃ d', dict_wf T d' ∧ same d d' ∧
    (∀ rnd r d1 rest, Forall (λ r, 0 ≤ r) rnd → dictGetRandomKey T g d rnd = Some (r, d1, rest) →
       d1 = d' ∧ Forall (λ r, 0 ≤ r) rest ∧ (length rest < length rnd)%nat ∧ ∃ x, r = Some x ∧ is_Some (dict_entries d !! x)) ∧
    (∀ x, is_Some (dict_entries d !! x) → ∃ r1 r2, 0 ≤ r1 < 2 ^ 32 ∧ 0 ≤ r2 < 2 ^ 30 ∧
       ∀ more, dictGetRandomKey T g d (r1 :: r2 :: more) = Some (Some x, d', more))).
Proof.
  intros Hwf. pose proof Hwf as (b0 & b1 & Hrep). unfold dictGetRandomKey.
  rewrite (dictSize_entries T d b0 b1) by done. split.
  { intros ->. rewrite map_size_empty. done. }
  intros Hne. assert (size (dict_entries d) ≠ 0%nat) as Hsz
    by (intros ?; by apply Hne, map_size_empty_inv).
  destruct (Z.of_nat (size (dict_entries d)) =? 0) eqn:E; [lia|].
  destruct (step_run T g d Hwf) as (d' & -> & Hwf' & Hs & _ & Hs0). exists d'.
  split; [done|]. split; [done|].
  pose proof Hwf' as (c0 & c1 & Hrep').
  assert (ht_size (ht0 d') ≠ 0) as Hsz'.
  { apply Hs0. apply (size_nonempty T d b0 b1 Hrep). rewrite (dictSize_entries T d b0 b1) by done. lia. }
  assert (∀ x, is_Some (dict_entries d' !! x) ↔ is_Some (dict_entries d !! x)) as Hdom.
  { intros x. destruct Hs as (Hc & _). rewrite <-!elem_of_dom, <-!contents_dom, Hc. done. }
  split.
  - intros rnd r d1 rest Hr Hrun. rewrite bind_Some_eq in Hrun.
    destruct (loop _ _ rnd) as [[p rnd1]|] eqn:Hl; [|done].
    destruct (draws_run d' c0 c1 _ _ _ _ Hrep' Hsz' Hr Hl) as (Hr1 & Hlen & t & i & b & Ht & Hb & Hc).
    rewrite bind_Some_eq in Hrun. cbv beta iota in Hrun.
    destruct rnd1 as [|r1 rnd1]; [|apply Forall_cons in Hr1 as [Hr1 Hrest]].
    { destruct (select_run d' c0 c1 t i b p 0 Hrep' Hb Hc) as (x & _ & Hll & _); [lia|].
      by rewrite Hll in Hrun. }
    destruct (select_run d' c0 c1 t i b p r1 Hrep' Hb Hc Hr1) as (x & Hx & Hll & Hsk).
    rewrite Hll in Hrun. cbn [random] in Hrun. rewrite !bind_Some_eq in Hrun. cbv beta iota in Hrun.
    rewrite Hsk, bind_Some_eq in Hrun. injection Hrun as <- <- <-. split; [done|]. split; [done|]. split; [simpl in Hlen; lia|].
    exists x. split; [done|]. apply Hdom. destruct (chain_alloc _ _ _ x Hc) as [e He]; [by eapply list_elem_of_lookup_2|]. eauto.
  - intros x [e He]%Hdom. destruct (entry_bucket d' c0 c1 x e Hrep' He) as (t & i & b & Ht & Hb & Hx).
    destruct (draw_any d' c0 c1 t i b x Hrep' Ht Hb Hx) as (r1 & p & Hr1 & Hdraw & Hc).
    apply list_elem_of_lookup in Hx as [j Hj]. pose proof (lookup_lt_Some _ _ _ Hj).
    pose proof (bucket_fuel T d' c0 c1 t i b Hrep' Hb) as Hfuel. unfold chain_fuel in Hfuel.
    pose proof (rep_bound _ _ _ _ Hrep').
    destruct (select_run d' c0 c1 t i b p (Z.of_nat j) Hrep' Hb Hc) as (y & Hy & Hll & Hsk); [lia|].
    rewrite Z.mod_small, Nat2Z.id in Hy, Hsk by lia. assert (y = x) as -> by congruence.
    exists r1, (Z.of_nat j). split; [done|]. split; [lia|]. intros more.
    rewrite bind_Some_eq, loop_S, Hdraw, bind_Some_eq. cbv beta iota. rewrite Hll, bind_Some_eq. cbn [random].
    rewrite bind_Some_eq. cbv beta iota. rewrite Z.mod_small by lia. by rewrite Nat2Z.id, Hsk.
Qed.

Lemma some_keys_rehash_run g d n :
  dict_wf T d → ∃ d', some_keys_rehash T g d n = Some d' ∧ dict_wf T d' ∧ same d d'.
Proof.
  revert d. induction n as [|n IH]; intros d Hwf; cbn [some_keys_rehash]; [by exists d|].
  destruct (dictIsRehashing d) eqn:Hr; [|by exists d].
  destruct (step_run T g d Hwf) as (d1 & Hst & Hwf1 & Hs1 & _). unfold rehash_step_if in Hst. rewrite Hr in Hst.
  rewrite Hst, bind_Some_eq. destruct (IH d1 Hwf1) as (d2 & -> & Hwf2 & Hs2). exists d2.
  split; [done|]. split; [done|]. by eapply same_trans.
Qed.

(** The state of the sampling loop: entries, fewer than [count]. *)
Definition sampled d (count : Z) (n : nat) (s : sampling) : Prop :=
  let '(des, i, _, rnd) := s in
  (∀ p, p ∈ des → is_Some (dict_entries d !! p)) ∧ zlen des < count ∧ 0 ≤ i ∧
  Forall (λ r, 0 ≤ r) rnd ∧ (n ≤ length rnd)%nat.

(** The entries of the result. *)
Definition enough d (count : Z) (s : sampling) : Prop :=
  let '(des, _, _, _) := s in (∀ p, p ∈ des → is_Some (dict_entries d !! p)) ∧ zlen des ≤ count.

Lemma collect_run d count he l des n :
  chain (dict_entries d) he l → (length l < n)%nat → zlen des < count →
  (∀ p, p ∈ des → is_Some (dict_entries d !! p)) →
  ∃ des' b, loop n (collect_body d count) (he, des) = Some (des', b) ∧
    (∀ p, p ∈ des' → is_Some (dict_entries d !! p)) ∧
    if b : bool then zlen des' ≤ count else zlen des' < count.
Proof.
  revert he n des. induction l as [|x l IH]; intros he n des Hc Hn Hlt Hd; (destruct n as [|n]; [simpl in Hn; lia|]);
    rewrite loop_S; cbn [collect_body].
  - simpl in Hc. subst he. by exists des, false.
  - destruct Hc as [-> (e & He & Hc)]. rewrite He, bind_Some_eq. cbv beta iota zeta.
    assert (∀ p, p ∈ des ++ [x] → is_Some (dict_entries d !! p)) as Hd'.
    { intros p [Hp|Hp]%elem_of_app; [by apply Hd|]. apply list_elem_of_singleton in Hp as ->. eauto. }
    destruct (zlen (des ++ [x]) =? count) eqn:E.
    + exists (des ++ [x]), true. split; [done|]. split; [done|]. lia.
    + apply IH; [done|simpl in Hn; lia| |done]. rewrite length_app in *. simpl in *. lia.
Qed.

Lemma some_keys_table_run d b0 b1 count tables mask j s n :
  dict_rep T d b0 b1 → 0 ≤ mask → sampled d count (S n) s →
  ∃ r, some_keys_table d count tables mask j s = Some r ∧
    match r with inl s' => sampled d count n s' | inr s' => enough d count s' end.
Proof.
  intros Hrep Hmask. destruct s as [[[des i] emptylen] rnd]. intros (Hd & Hlt & Hi & Hr & Hn).
  unfold some_keys_table. destruct (_ && _ && (i <? u32 (rehashidx d))).
  { eexists (inl _). split; [done|]. split; [done|]. split; [done|]. split; [|split; [done|lia]].
    destruct (_ >=? _); [|done]. apply wrap_range. lia. }
  destruct (i >=? ht_size (ht d j)) eqn:E.
  { eexists (inl _). split; [done|]. split; [done|]. split; [done|]. split; [done|]. split; [done|lia]. }
  destruct (table_get_ok T _ _ _ i (rep_table T d b0 b1 j Hrep)) as (p & b & -> & Hb & Hc); [lia|].
  rewrite bind_Some_eq. destruct p as [p|].
  - destruct (collect_run d count (Some p) b des (chain_fuel d) Hc) as (des' & e & -> & Hd' & Hl);
      [by eapply bucket_fuel|done|done|].
    rewrite bind_Some_eq. destruct e.
    + eexists (inr _). split; [done|]. by split.
    + eexists (inl _). split; [done|]. split; [done|]. split; [done|]. split; [done|]. split; [done|lia].
  - cbv zeta. destruct (_ && _).
    + destruct rnd as [|r rnd]; [simpl in Hn; lia|]. apply Forall_cons in Hr as [Hr Hrs]. cbn [random].
      rewrite bind_Some_eq. eexists (inl _). split; [done|]. split; [done|]. split; [done|].
      split; [apply wrap_range; lia|]. split; [done|]. simpl in Hn. lia.
    + eexists (inl _). split; [done|]. split; [done|]. split; [done|]. split; [done|]. split; [done|lia].
Qed.

Lemma some_keys_loop_run d b0 b1 count tables mask s maxsteps n :
  dict_rep T d b0 b1 → 0 ≤ mask → 0 ≤ maxsteps → (Z.to_nat maxsteps < n)%nat →
  sampled d count (2 * Z.to_nat maxsteps) s →
  ∃ s', loop n (some_keys_body d count tables mask) (s, maxsteps) = Some s' ∧ enough d count s'.
Proof.
  intros Hrep Hmask. revert s maxsteps. induction n as [|n IH]; intros s maxsteps Hm Hn Hs; [lia|].
  rewrite loop_S. unfold some_keys_body at 1. destruct s as [[[des i] emptylen] rnd].
  destruct (negb (zlen des <? count) || (maxsteps =? 0)) eqn:E.
  { eexists. split; [done|]. destruct Hs as (Hd & Hlt & _). split; [done|lia]. }
  replace (2 * Z.to_nat maxsteps)%nat with (S (S (2 * Z.to_nat (maxsteps - 1)))) in Hs by lia.
  destruct (some_keys_table_run d b0 b1 count tables mask 0 _ _ Hrep Hmask Hs) as (r & -> & Hr).
  cbv zeta. rewrite bind_Some_eq.
  assert (∃ r', (match r with
     | inl s => if tables =? 2 then some_keys_table d count tables mask 1 s else Some (inl s)
     | inr s => Some (inr s) end) = Some r' ∧
     match r' with inl s' => sampled d count (2 * Z.to_nat (maxsteps - 1)) s' | inr s' => enough d count s' end)
    as (r' & -> & Hr').
  { destruct r as [s|s]; [|by exists (inr s)]. destruct (tables =? 2).
    - by apply (some_keys_table_run d b0 b1).
    - exists (inl s). split; [done|]. destruct s as [[[? ?] ?] ?]. destruct Hr as (?&?&?&?&?).
      repeat (split; [done|]). lia. }
  rewrite bind_Some_eq. destruct r' as [s|s]; [|by exists s].
  destruct s as [[[des' i'] e'] rnd']. apply IH; [lia|lia|].
  destruct Hr' as (Hd & Hlt & Hi & Hrn & Hlen). split; [done|]. split; [done|]. split; [|done].
  apply Z.land_nonneg. by right.
Qed.

(** asked for [count] keys, the sampling stays inside its tables, ends
    within [count * 10] steps when that many random values are available, and
    stores at most [count] entries, all of them entries of the dictionary, whose
    contents do not change. *)
Theorem dictGetSomeKeys_correct g d count rnd :
  dict_wf T d → 0 ≤ count < 2 ^ 32 → Forall (λ r, 0 ≤ r) rnd → 20 * count < zlen rnd →
  ∃ des d' rest, dictGetSomeKeys T g d count rnd = Some (des, d', rest) ∧ dict_wf T d' ∧ same d d' ∧
    zlen des ≤ count ∧ ∀ p, p ∈ des → is_Some (dict_entries d !! p).
Proof.
  intros Hwf Hcount Hr Hlen. pose proof Hwf as (b0 & b1 & Hrep). unfold dictGetSomeKeys.
  rewrite (dictSize_entries T d b0 b1) by done. pose proof (rep_bound _ _ _ _ Hrep).
  rewrite (wrap_small 32 (Z.of_nat (size (dict_entries d)))) by rlia.
  set (c := if _ <? _ then _ else _).
  assert (0 ≤ c ≤ count) as Hc by (unfold c; destruct (_ <? _) eqn:?; lia). clearbody c.
  destruct (some_keys_rehash_run g d (Z.to_nat c) Hwf) as (d' & -> & Hwf' & Hs). rewrite bind_Some_eq.
  pose proof Hwf' as (c0 & c1 & Hrep').
  destruct rnd as [|r rnd]; [simpl in Hlen; lia|]. apply Forall_cons in Hr as [Hr Hrs].
  cbn [random]. rewrite bind_Some_eq. cbv beta iota zeta.
  set (mask := if _ && _ then u32 (ht_sizemask (ht1 d')) else _).
  assert (0 ≤ mask) as Hmask by (unfold mask; destruct (_ && _); apply wrap_range; lia). clearbody mask.
  assert (0 ≤ u32 (c * 10) ≤ c * 10) as Hu.
  { split; [apply wrap_range; lia|]. apply Z.mod_le; lia. }
  assert (∀ x, is_Some (dict_entries d' !! x) → is_Some (dict_entries d !! x)) as Hdom.
  { intros x. destruct Hs as (Hcont & _). rewrite <-!elem_of_dom, <-!contents_dom, Hcont. done. }
  destruct (decide (c = 0)) as [->|Hc0].
  { exists [], d', rnd. cbn. split; [done|]. split; [done|]. split; [done|]. split; [lia|]. set_solver. }
  simpl in Hlen.
  destruct (some_keys_loop_run d' c0 c1 c (if dictIsRehashing d' then 2 else 1) mask
    ([], u32 (Z.land r mask), 0, rnd) (u32 (c * 10)) (S (Z.to_nat (u32 (c * 10)))) Hrep' Hmask)
    as (s' & -> & Hen); [lia|lia| |].
  { split; [set_solver|]. split; [simpl; lia|]. split; [apply wrap_range; lia|]. split; [done|]. lia. }
  rewrite bind_Some_eq. destruct s' as [[[des i] e] rest]. destruct Hen as [Hd Hle].
  exists des, d', rest. split; [done|]. split; [done|]. split; [done|]. split; [lia|]. auto.
Qed.
End random_entries.

(** ** Witnesses *)

Section witnesses.
#[local] Existing Instance next_entry_allocator.

(** Nine keys in 16 buckets, of which three are left. *)
Definition shrink_ops : list (dictGlobals * dop Z Z) :=
  ((λ k, (sample_globals, DAdd k k)) <$> [1; 2; 3; 4; 5; 6; 7; 8; 9]) ++
  [(sample_globals, DRehash 100)] ++
  ((λ k, (sample_globals, DDelete k false)) <$> [1; 2; 3; 5; 6; 7]).
Definition before_shrink : dict Z Z := reached shrink_ops.
(** The same entries, after [dictResize] has started to rehash into 4 buckets. *)
Definition shrinking : dict Z Z := reached (shrink_ops ++ [(sample_globals, DResize)]).

Lemma before_shrink_wf : dict_wf sample_type before_shrink.
Proof. apply reached_wf; [vm_compute; discriminate|]. repeat (constructor; [done || (split; [lia|rlia])|]). constructor. Qed.

Lemma shrinking_wf : dict_wf sample_type shrinking.
Proof. apply reached_wf; [vm_compute; discriminate|]. repeat (constructor; [done || (split; [lia|rlia])|]). constructor. Qed.

Lemma not_reported (k : Z) (c : gmap loc (Z * option Z)) (ds : list (dict Z Z)) outs :
  Forall (λ d, contents (dict_entries d) = c) ds →
  (∀ p w, p ∈ mjoin outs → c !! p ≠ Some (k, w)) → ¬ reported k ds outs.
Proof.
  intros Hds Hout (i & d & out & p & w & Hd & Ho & Hp & Hc).
  rewrite Forall_lookup in Hds. rewrite (Hds i d Hd) in Hc. apply (Hout p w); [|done].
  apply list_elem_of_join. exists out. split; [done|]. by eapply list_elem_of_lookup_2.
Qed.

(** C10: the guarantee of [dictScan] fails when the table shrinks by a factor of
    four during the iteration: after one call with 16 buckets, [dictResize]
    starts a rehash to 4 buckets and the iteration runs to cursor 0; the key 4
    is in the dictionary all the time and is never passed to the callback. *)
Theorem dictScan_misses_shrinking :
  let ds := [before_shrink; shrinking; shrinking; shrinking; shrinking] in
  Forall (λ d, dict_wf sample_type d ∧ present d 4) ds ∧
  dictResize sample_globals before_shrink = Some (DICT_OK, shrinking) ∧
  ∃ outs, scan_run ds 0 = Some (0, outs) ∧ ¬ reported 4 ds outs.
Proof.
  assert (dict_wf sample_type before_shrink ∧ present before_shrink 4) as H1.
  { split; [apply before_shrink_wf|]. exists 4%positive, (Some 4). by vm_compute. }
  assert (dict_wf sample_type shrinking ∧ present shrinking 4) as H2.
  { split; [apply shrinking_wf|]. exists 4%positive, (Some 4). by vm_compute. }
  split; [exact (Forall_cons_2 _ _ _ H1 (Forall_cons_2 _ _ _ H2 (Forall_cons_2 _ _ _ H2
            (Forall_cons_2 _ _ _ H2 (Forall_cons_2 _ _ _ H2 (Forall_nil_2 _))))))|].
  split; [by vm_compute|].
  exists [[]; [8%positive]; []; [9%positive]; []]. split; [by vm_compute|].
  assert (contents (dict_entries shrinking) = contents (dict_entries before_shrink)) as Heq by by vm_compute.
  apply (not_reported 4 (contents (dict_entries before_shrink))).
  - exact (Forall_cons_2 _ _ _ eq_refl (Forall_cons_2 _ _ _ Heq (Forall_cons_2 _ _ _ Heq
            (Forall_cons_2 _ _ _ Heq (Forall_cons_2 _ _ _ Heq (Forall_nil_2 _)))))).
  - intros p w Hp. assert (p ∈ [8%positive; 9%positive]) as Hp' by exact Hp.
    apply elem_of_cons in Hp' as [->|Hp']; [by vm_compute|].
    apply list_elem_of_singleton in Hp' as ->. by vm_compute.
Qed.

Example dictScan_complete_witness :
  ∃ v outs, scan_run (replicate 4 sample_rehashing) 0 = Some (v, outs) ∧ in_u 64 v ∧
    Forall2 (λ d out, ∀ p, p ∈ out → is_Some (dict_entries d !! p)) (replicate 4 sample_rehashing) outs ∧
    (v = 0 → reported 9 (replicate 4 sample_rehashing) outs).
Proof.
  apply (dictScan_complete sample_type 9).
  - discriminate.
  - apply Forall_replicate. split; [apply sample_rehashing_wf|]. exists 3%positive, (Some 90). by vm_compute.
  - apply all_covered_replicate. vm_compute. discriminate.
Defined.

Example dictScan_static_witness :
  dictSize sample_rehashing ≠ 0 ∧ ∃ outs,
    scan_run (replicate (Z.to_nat (small_size sample_rehashing)) sample_rehashing) 0 = Some (0, outs) ∧
    mjoin outs ≡ₚ (map_to_list (dict_entries sample_rehashing)).*1.
Proof.
  split; [vm_compute; discriminate|].
  apply (dictScan_static sample_type sample_rehashing); [apply sample_rehashing_wf|vm_compute; discriminate].
Defined.

Example iterator_correct_witness :
  ∃ ps d' it, iter_run (λ t, 4096 + 64 * t) (S (size (dict_entries sample_rehashing))) sample_rehashing
      dictGetSafeIterator = Some (ps, d', it) ∧
    ps ≡ₚ (map_to_list (dict_entries sample_rehashing)).*1 ∧
    iterators d' = iterators sample_rehashing + 1 ∧
    dictReleaseIterator (λ t, 4096 + 64 * t) d' it = Some sample_rehashing.
Proof.
  apply (iterator_correct sample_type (λ t, 4096 + 64 * t) sample_rehashing true).
  apply sample_rehashing_wf.
Defined.

Example dictGetRandomKey_correct_witness :
  ∃ r1 r2 d', 0 ≤ r1 < 2 ^ 32 ∧ 0 ≤ r2 < 2 ^ 30 ∧
    dictGetRandomKey sample_type sample_globals sample_rehashing [r1; r2] = Some (Some 2%positive, d', []).
Proof.
  destruct (dictGetRandomKey_correct sample_type sample_globals sample_rehashing sample_rehashing_wf) as [_ H].
  destruct H as (d' & _ & _ & _ & Hany); [by vm_compute|].
  destruct (Hany 2%positive) as (r1 & r2 & H1 & H2 & H3); [by vm_compute; eauto|].
  exists r1, r2, d'. split; [exact H1|]. split; [exact H2|]. exact (H3 []).
Defined.

Example dictGetSomeKeys_correct_witness :
  ∃ des d' rest, dictGetSomeKeys sample_type sample_globals sample_rehashing 3 (replicate 61 7) =
      Some (des, d', rest) ∧ dict_wf sample_type d' ∧ same sample_rehashing d' ∧
    zlen des ≤ 3 ∧ ∀ p, p ∈ des → is_Some (dict_entries sample_rehashing !! p).
Proof.
  apply (dictGetSomeKeys_correct sample_type sample_globals sample_rehashing 3 (replicate 61 7)).
  - apply sample_rehashing_wf.
  - lia.
  - apply Forall_replicate. lia.
  - vm_compute. reflexivity.
Defined.
End witnesses.
