(* ===== verification/Adlist.v ===== *)
(** * Doubly linked lists: [adlist.c], [adlist.h]

    Nodes are linked through a heap shared by all lists; a pointer is a key of
    the heap, [NULL] is [None].  [zmalloc] aborts the process instead of
    returning [NULL], so the branches for a failed allocation are not taken. *)

From S2P Require Import Prelude.

#[local] Open Scope Z_scope.

(** ** Data *)

Record listNode (V : Type) := ListNode { node_prev : option loc; node_next : option loc; node_value : V }.
Arguments ListNode {V} _ _ _.
Arguments node_prev {V} _.
Arguments node_next {V} _.
Arguments node_value {V} _.

Record list_methods (V : Type) := ListMethods {
  list_dup : option (V → option V);
  list_free : bool;
  list_match : option (V → V → bool);
}.
Arguments list_dup {V} _.
Arguments list_free {V} _.
Arguments list_match {V} _.

Record alist (V : Type) := AList {
  al_head : option loc;
  al_tail : option loc;
  al_methods : list_methods V;
  al_len : Z;
}.
Arguments AList {V} _ _ _ _.
Arguments al_head {V} _.
Arguments al_tail {V} _.
Arguments al_methods {V} _.
Arguments al_len {V} _.

Record listIter := ListIter { li_next : option loc; li_direction : Z }.

Definition AL_START_HEAD : Z := 0.
Definition AL_START_TAIL : Z := 1.

(** The nodes of all lists, and the values passed to [free], in order. *)
Record nodes (V : Type) := Nodes { cells : gmap loc (listNode V); freed_values : list V }.
Arguments Nodes {V} _ _.
Arguments cells {V} _.
Arguments freed_values {V} _.

Section ops.
Context {V : Type} `{!EqDecision V} `{!EntryAllocator}.
Implicit Types (s : nodes V) (l : alist V) (p : option loc) (v : V).

(** ** Memory *)

Definition load s p : option (listNode V) := x ← p; cells s !! x.
Definition store s p (f : listNode V → listNode V) : option (nodes V) :=
  x ← p; n ← cells s !! x; Some (Nodes (<[x := f n]> (cells s)) (freed_values s)).
Definition set_prev p (n : listNode V) := ListNode p (node_next n) (node_value n).
Definition set_next p (n : listNode V) := ListNode (node_prev n) p (node_value n).

(** [zmalloc(sizeof(listNode))] and the assignments of the fields. *)
Definition new_node s (n : listNode V) : loc * nodes V :=
  let x := new_entry (dom (cells s)) in (x, Nodes (<[x := n]> (cells s)) (freed_values s)).

(** [if (list->free) list->free(value); zfree(node);] *)
Definition free_node s (m : list_methods V) (x : loc) : option (nodes V) :=
  n ← cells s !! x;
  Some (Nodes (delete x (cells s))
              (if list_free m then freed_values s ++ [node_value n] else freed_values s)).

Definition set_head l p : alist V := AList p (al_tail l) (al_methods l) (al_len l).
Definition set_tail l p : alist V := AList (al_head l) p (al_methods l) (al_len l).
Definition add_len (n : Z) l : alist V := AList (al_head l) (al_tail l) (al_methods l) (u64 (al_len l + n)).

(** ** Operations *)

Definition listCreate : alist V := AList None None (ListMethods V None false None) 0.

Definition listSetMethods l (m : list_methods V) : alist V := AList (al_head l) (al_tail l) m (al_len l).
Definition listLength l : Z := al_len l.

(** [while(len--) { ... }] *)
Definition release_body (m : list_methods V) (st : nodes V * option loc * Z) :
    option (nodes V * option loc * Z + nodes V) :=
  let '(s, current, len) := st in
  if len =? 0 then Some (inr s)
  else
    x ← current;
    n ← cells s !! x;
    s ← free_node s m x;
    Some (inl (s, node_next n, len - 1)).

Definition listRelease s l : option (nodes V) :=
  loop (S (Z.to_nat (al_len l))) (release_body (al_methods l)) (s, al_head l, al_len l).

Definition listAddNodeHead s l v : option (nodes V * alist V) :=
  if al_len l =? 0 then
    let '(node, s) := new_node s (ListNode None None v) in
    Some (s, add_len 1 (set_tail (set_head l (Some node)) (Some node)))
  else
    let '(node, s) := new_node s (ListNode None (al_head l) v) in
    s ← store s (al_head l) (set_prev (Some node));
    Some (s, add_len 1 (set_head l (Some node))).

Definition listAddNodeTail s l v : option (nodes V * alist V) :=
  if al_len l =? 0 then
    let '(node, s) := new_node s (ListNode None None v) in
    Some (s, add_len 1 (set_tail (set_head l (Some node)) (Some node)))
  else
    let '(node, s) := new_node s (ListNode (al_tail l) None v) in
    s ← store s (al_tail l) (set_next (Some node));
    Some (s, add_len 1 (set_tail l (Some node))).

Definition listInsertNode s l (old_node : loc) v (after : bool) : option (nodes V * alist V) :=
  old ← cells s !! old_node;
  let '(node, s) :=
    if after then new_node s (ListNode (Some old_node) (node_next old) v)
    else new_node s (ListNode (node_prev old) (Some old_node) v) in
  let l :=
    if after then if bool_decide (al_tail l = Some old_node) then set_tail l (Some node) else l
    else if bool_decide (al_head l = Some old_node) then set_head l (Some node) else l in
  n ← cells s !! node;
  s ← (match node_prev n with Some _ => store s (node_prev n) (set_next (Some node)) | None => Some s end);
  s ← (match node_next n with Some _ => store s (node_next n) (set_prev (Some node)) | None => Some s end);
  Some (s, add_len 1 l).

Definition listDelNode s l (node : loc) : option (nodes V * alist V) :=
  n ← cells s !! node;
  '(s, l) ← (match node_prev n with
             | Some _ => s ← store s (node_prev n) (set_next (node_next n)); Some (s, l)
             | None => Some (s, set_head l (node_next n))
             end);
  n ← cells s !! node;
  '(s, l) ← (match node_next n with
             | Some _ => s ← store s (node_next n) (set_prev (node_prev n)); Some (s, l)
             | None => Some (s, set_tail l (node_prev n))
             end);
  s ← free_node s (al_methods l) node;
  Some (s, add_len (-1) l).

(** ** Iterators *)

Definition listGetIterator l (direction : Z) : listIter :=
  if direction =? AL_START_HEAD then ListIter (al_head l) direction
  else ListIter (al_tail l) direction.
Definition listRewind l : listIter := ListIter (al_head l) AL_START_HEAD.
Definition listRewindTail l : listIter := ListIter (al_tail l) AL_START_TAIL.

Definition listNext s (it : listIter) : option (option loc * listIter) :=
  match li_next it with
  | None => Some (None, it)
  | Some current =>
    n ← cells s !! current;
    Some (Some current, ListIter (if li_direction it =? AL_START_HEAD then node_next n else node_prev n)
                                 (li_direction it))
  end.

(** [while((node = listNext(iter)) != NULL) { ... }] of [listDup]; leaves with
    the copy, or with [None] when a value cannot be duplicated. *)
Definition dup_body (st : nodes V * alist V * listIter) :
    option (nodes V * alist V * listIter + nodes V * option (alist V)) :=
  let '(s, copy, it) := st in
  '(node, it) ← listNext s it;
  match node with
  | None => Some (inr (s, Some copy))
  | Some x =>
    n ← cells s !! x;
    match (match list_dup (al_methods copy) with Some dup => dup (node_value n) | None => Some (node_value n) end) with
    | None => s ← listRelease s copy; Some (inr (s, None))
    | Some value =>
      '(s, copy) ← listAddNodeTail s copy value;
      Some (inl (s, copy, it))
    end
  end.

Definition listDup s (orig : alist V) : option (nodes V * option (alist V)) :=
  let copy := listSetMethods listCreate (al_methods orig) in
  loop (2 + Z.to_nat (al_len orig)) dup_body (s, copy, listGetIterator orig AL_START_HEAD).

Definition search_key_body s (m : list_methods V) (key : V) (it : listIter) :
    option (listIter + option loc) :=
  '(node, it) ← listNext s it;
  match node with
  | None => Some (inr None)
  | Some x =>
    n ← cells s !! x;
    if (match list_match m with
        | Some f => f (node_value n) key
        | None => bool_decide (key = node_value n)
        end)
    then Some (inr (Some x)) else Some (inl it)
  end.

Definition listSearchKey s l (key : V) : option (option loc) :=
  loop (2 + Z.to_nat (al_len l)) (search_key_body s (al_methods l) key) (listGetIterator l AL_START_HEAD).

(** [while(index-- && n) n = n->prev;] and the same forwards. *)
Definition index_body s (fwd : bool) (st : Z * option loc) : option (Z * option loc + option loc) :=
  let '(index, n) := st in
  if index =? 0 then Some (inr n)
  else
    match n with
    | None => Some (inr None)
    | Some x => c ← cells s !! x; Some (inl (index - 1, if fwd then node_next c else node_prev c))
    end.

Definition listIndex s l (index : Z) : option (option loc) :=
  if index <? 0 then
    check negb (index =? - 2 ^ 63) ;;
    let index := - index - 1 in
    loop (2 + Z.to_nat (al_len l)) (index_body s false) (index, al_tail l)
  else loop (2 + Z.to_nat (al_len l)) (index_body s true) (index, al_head l).

Definition listRotate s l : option (nodes V * alist V) :=
  if listLength l <=? 1 then Some (s, l)
  else
    let tail := al_tail l in
    t ← load s tail;
    let l := set_tail l (node_prev t) in
    s ← store s (al_tail l) (set_next None);
    s ← store s (al_head l) (set_prev tail);
    s ← store s tail (set_prev None);
    s ← store s tail (set_next (al_head l));
    Some (s, set_head l tail).
End ops.

(** ** The list a chain of nodes represents *)

Section chain.
Context {V : Type}.
Implicit Types (c : gmap loc (listNode V)) (p q n : option loc) (xs ys : list (loc * V)).

Definition first_of xs n : option loc := match xs with [] => n | (x, _) :: _ => Some x end.

Fixpoint last_of p xs : option loc :=
  match xs with [] => p | (x, _) :: xs => last_of (Some x) xs end.

(** The nodes [xs], doubly linked, between the pointers [p] and [n]. *)
Fixpoint seg c p xs n : Prop :=
  match xs with
  | [] => True
  | (x, v) :: xs' => c !! x = Some (ListNode p (first_of xs' n) v) ∧ seg c (Some x) xs' n
  end.

Lemma first_of_app xs ys n : first_of (xs ++ ys) n = first_of xs (first_of ys n).
Proof. by destruct xs as [|[]]. Qed.

Lemma last_of_app p xs ys : last_of p (xs ++ ys) = last_of (last_of p xs) ys.
Proof. revert p. induction xs as [|[x v] xs IH]; intros p; [done|apply IH]. Qed.

Lemma seg_app c p xs ys n :
  seg c p (xs ++ ys) n ↔ seg c p xs (first_of ys n) ∧ seg c (last_of p xs) ys n.
Proof.
  revert p. induction xs as [|[x v] xs IH]; intros p; simpl; [tauto|].
  rewrite IH, first_of_app. tauto.
Qed.

Lemma seg_frame c c' p xs n :
  (∀ y, y ∈ xs.*1 → c' !! y = c !! y) → seg c p xs n → seg c' p xs n.
Proof.
  revert p. induction xs as [|[x v] xs IH]; intros p Hy; simpl; [done|]. intros [Hx Hs].
  split; [rewrite Hy; [done|left]|]. apply IH; [|done]. intros y ?. apply Hy. by right.
Qed.

Lemma seg_insert_ne c p xs n x f : x ∉ xs.*1 → seg c p xs n → seg (<[x := f]> c) p xs n.
Proof. intros Hx. apply seg_frame. intros y Hy. apply lookup_insert_ne. by intros ->. Qed.

Lemma seg_delete_ne c p xs n x : x ∉ xs.*1 → seg c p xs n → seg (delete x c) p xs n.
Proof. intros Hx. apply seg_frame. intros y Hy. apply lookup_delete_ne. by intros ->. Qed.

Lemma seg_lookup c p xs n y : seg c p xs n → y ∈ xs.*1 → is_Some (c !! y).
Proof.
  revert p. induction xs as [|[x v] xs IH]; intros p; simpl; [by intros _ ?%elem_of_nil|].
  intros [Hx Hs] [->|Hy]%elem_of_cons; [by eexists|by eapply IH].
Qed.

Lemma last_of_None xs : last_of None xs = None ↔ xs = [].
Proof.
  destruct xs as [|[x v] xs]; [done|]. simpl. split; [|done].
  assert (∀ y : loc, last_of (Some y) xs ≠ None) as H; [|by intros ?%H].
  clear x v. induction xs as [|[x v] xs IH]; intros y; [done|apply IH].
Qed.

Lemma last_of_snoc p xs x v : last_of p (xs ++ [(x, v)]) = Some x.
Proof. by rewrite last_of_app. Qed.
End chain.

Section spec.
Context {V : Type} `{!EqDecision V} `{!EntryAllocator}.
Implicit Types (s : nodes V) (l : alist V) (p q : option loc) (v : V) (xs A B : list (loc * V)).

(** Changing the [next] field of the last node, or the [prev] field of the first. *)
Lemma relink_next s A n q :
  seg (cells s) None A n → NoDup A.*1 →
  ∃ c, (match last_of None A with
        | Some _ => store s (last_of None A) (set_next q) | None => Some s end) =
       Some (Nodes c (freed_values s)) ∧ seg c None A q ∧
       ∀ y, y ∉ A.*1 → c !! y = cells s !! y.
Proof.
  destruct A as [|[x v] A _] using rev_ind.
  { intros _ _. exists (cells s). destruct s. done. }
  rewrite last_of_snoc, fmap_app, NoDup_app, seg_app. intros [HA [Hx _]] (_ & Hn & _). simpl in Hx.
  unfold store. simpl. rewrite Hx. simpl. eexists. split; [done|]. split.
  - apply seg_app. split; [|simpl; by rewrite lookup_insert_eq].
    apply seg_insert_ne; [|done]. intros Hin. apply (Hn x Hin). left.
  - intros y Hy. apply lookup_insert_ne. intros ->. apply Hy, elem_of_app. right. left.
Qed.

Lemma relink_prev s B p q :
  seg (cells s) p B None → NoDup B.*1 →
  ∃ c, (match first_of B None with
        | Some _ => store s (first_of B None) (set_prev q) | None => Some s end) =
       Some (Nodes c (freed_values s)) ∧ seg c q B None ∧
       ∀ y, y ∉ B.*1 → c !! y = cells s !! y.
Proof.
  destruct B as [|[x v] B].
  { intros _ _. exists (cells s). destruct s. done. }
  simpl. intros [Hx HB] [Hn _]%NoDup_cons.
  unfold store. simpl. rewrite Hx. simpl. eexists. split; [done|]. split.
  - split; [by rewrite lookup_insert_eq|by apply seg_insert_ne].
  - intros y Hy. apply lookup_insert_ne. intros ->. apply Hy. left.
Qed.

(** The list [l] of the heap [s] consists of the nodes [xs]. *)
Record list_rep s l xs : Prop := {
  lr_nodup : NoDup xs.*1;
  lr_seg : seg (cells s) None xs None;
  lr_head : al_head l = first_of xs None;
  lr_tail : al_tail l = last_of None xs;
  lr_len : al_len l = zlen xs;
  lr_bound : zlen xs < 2 ^ 64;
}.

(** The rest of the heap. *)
Definition others s xs (y : loc) : option (listNode V) :=
  if decide (y ∈ xs.*1) then None else cells s !! y.

Lemma new_node_fresh s n x s' :
  new_node s n = (x, s') → cells s !! x = None ∧ s' = Nodes (<[x := n]> (cells s)) (freed_values s).
Proof. intros [= <- <-]. split; [apply not_elem_of_dom, new_entry_fresh|done]. Qed.

Lemma seg_fresh s p xs n x : seg (cells s) p xs n → cells s !! x = None → x ∉ xs.*1.
Proof. intros Hs Hx Hin. destruct (seg_lookup _ _ _ _ _ Hs Hin). congruence. Qed.

(** A new node between two parts of the list, and both neighbours relinked. *)
Lemma insert_between s x v A B :
  NoDup (A ++ B).*1 → seg (cells s) None (A ++ B) None → cells s !! x = None →
  let s1 := Nodes (<[x := ListNode (last_of None A) (first_of B None) v]> (cells s)) (freed_values s) in
  ∃ s2, (match last_of None A with
         | Some _ => store s1 (last_of None A) (set_next (Some x)) | None => Some s1 end) = Some s2 ∧
  ∃ s3, (match first_of B None with
         | Some _ => store s2 (first_of B None) (set_prev (Some x)) | None => Some s2 end) = Some s3 ∧
    freed_values s3 = freed_values s ∧ NoDup (A ++ (x, v) :: B).*1 ∧
    seg (cells s3) None (A ++ (x, v) :: B) None ∧
    ∀ y, others s3 (A ++ (x, v) :: B) y = others s (A ++ B) y.
Proof.
  intros Hn Hs Hx s1. pose proof (seg_fresh _ _ _ _ _ Hs Hx) as Hfr.
  rewrite fmap_app, elem_of_app in Hfr. apply Decidable.not_or in Hfr as [HxA HxB].
  rewrite fmap_app in Hn. pose proof Hn as (HnA & Hd & HnB)%NoDup_app.
  apply seg_app in Hs as [HsA HsB].
  destruct (relink_next s1 A (first_of B None) (Some x)) as (c2 & -> & HA2 & Hf2);
    [by apply seg_insert_ne|done|]. eexists. split; [done|].
  destruct (relink_prev (Nodes c2 (freed_values s1)) B (last_of None A) (Some x)) as (c3 & -> & HB3 & Hf3).
  { apply (seg_frame (cells s)); [|done]. simpl. intros y Hy. rewrite Hf2 by (intros ?; by eapply Hd).
    simpl. apply lookup_insert_ne. by intros ->. }
  { done. }
  eexists. split; [done|]. split; [done|]. split; [|split].
  - rewrite fmap_app. simpl. apply NoDup_app. split_and!; [done| |by constructor].
    intros y Hy [->|?]%elem_of_cons; [done|]. by eapply Hd.
  - apply seg_app. split; [|simpl; split; [|done]].
    + simpl. apply (seg_frame c2); [|done]. intros y Hy. apply Hf3. intros ?. by eapply Hd.
    + rewrite Hf3, Hf2 by done. apply lookup_insert_eq.
  - intros y. unfold others. simpl. rewrite !fmap_app. simpl. simpl in Hf3.
    destruct (decide (y = x)) as [->|Hyx].
    { rewrite decide_True by set_solver. rewrite decide_False by set_solver. done. }
    destruct (decide (y ∈ A.*1 ++ B.*1)) as [Hin|Hin].
    { rewrite decide_True by set_solver. done. }
    rewrite decide_False by set_solver. rewrite Hf3, Hf2 by set_solver. simpl. by apply lookup_insert_ne.
Qed.

(** A node taken out, its neighbours relinked. *)
Lemma remove_between s x v A B :
  NoDup (A ++ (x, v) :: B).*1 → seg (cells s) None (A ++ (x, v) :: B) None →
  cells s !! x = Some (ListNode (last_of None A) (first_of B None) v) ∧
  ∃ s2, (match last_of None A with
         | Some _ => store s (last_of None A) (set_next (first_of B None)) | None => Some s end) = Some s2 ∧
  cells s2 !! x = Some (ListNode (last_of None A) (first_of B None) v) ∧
  ∃ s3, (match first_of B None with
         | Some _ => store s2 (first_of B None) (set_prev (last_of None A)) | None => Some s2 end) = Some s3 ∧
    cells s3 !! x = Some (ListNode (last_of None A) (first_of B None) v) ∧
    freed_values s3 = freed_values s ∧ seg (cells s3) None (A ++ B) None ∧
    ∀ y, y ∉ A.*1 → y ∉ B.*1 → cells s3 !! y = cells s !! y.
Proof.
  rewrite fmap_app. intros (HnA & Hd & HnB)%NoDup_app [HsA [Hx HsB]]%seg_app. simpl in *.
  apply NoDup_cons in HnB as [HxB HnB].
  assert (x ∉ A.*1) as HxA by (intros Hin; apply (Hd _ Hin); left).
  split; [done|].
  destruct (relink_next s A (Some x) (first_of B None)) as (c2 & -> & HA2 & Hf2); [done..|].
  eexists. split; [done|]. simpl. rewrite Hf2 by done. split; [done|].
  destruct (relink_prev (Nodes c2 (freed_values s)) B (Some x) (last_of None A)) as (c3 & -> & HB3 & Hf3).
  { apply (seg_frame (cells s)); [|done]. intros y Hy. apply Hf2. intros ?. eapply Hd; [done|by right]. }
  { done. }
  simpl in *. eexists. split; [done|]. simpl. rewrite Hf3, Hf2 by done. split; [done|]. split; [done|]. split.
  - apply seg_app. split; [|done]. apply (seg_frame c2); [|done].
    intros y Hy. apply Hf3. intros ?. eapply Hd; [done|by right].
  - intros y ? ?. by rewrite Hf3, Hf2.
Qed.

(** What an operation leaves: the new nodes, the values it freed, the rest of
    the heap and the methods of the list as they were. *)
Record step_ok s l xs (freed : list V) s' l' xs' : Prop := {
  so_rep : list_rep s' l' xs';
  so_methods : al_methods l' = al_methods l;
  so_freed : freed_values s' = freed_values s ++ freed;
  so_others : ∀ y, others s' xs' y = others s xs y;
}.

Lemma last_of_any p q B : B ≠ [] → last_of p B = last_of q B.
Proof. by destruct B as [|[]]. Qed.

Lemma rep_tail_is s l A x w B : list_rep s l (A ++ (x, w) :: B) → al_tail l = Some x ↔ B = [].
Proof.
  intros [Hn _ _ Ht _ _]. rewrite Ht, last_of_app. simpl. split; [|by intros ->].
  destruct B as [|[b bv] B _] using rev_ind; [done|]. rewrite last_of_snoc. intros [= ->].
  rewrite fmap_app in Hn. apply NoDup_app in Hn as (_ & _ & Hn). simpl in Hn.
  apply NoDup_cons in Hn as [Hn _]. exfalso. apply Hn. rewrite fmap_app. set_solver.
Qed.

Lemma rep_head_is s l A x w B : list_rep s l (A ++ (x, w) :: B) → al_head l = Some x ↔ A = [].
Proof.
  intros [Hn _ Hh _ _ _]. rewrite Hh, first_of_app. split; [|by intros ->].
  destruct A as [|[a av] A]; [done|]. simpl. intros [= ->]. simpl in Hn.
  apply NoDup_cons in Hn as [Hn _]. exfalso. apply Hn. rewrite fmap_app. set_solver.
Qed.

(** The list after [insert_between]. *)
Lemma insert_rep s l A B s' l' y v :
  list_rep s l (A ++ B) → zlen (A ++ B) + 1 < 2 ^ 64 →
  NoDup (A ++ (y, v) :: B).*1 → seg (cells s') None (A ++ (y, v) :: B) None →
  al_len l' = u64 (al_len l + 1) →
  al_head l' = (if decide (A = []) then Some y else al_head l) →
  al_tail l' = (if decide (B = []) then Some y else al_tail l) →
  list_rep s' l' (A ++ (y, v) :: B).
Proof.
  intros [_ _ Hh Ht Hl _] Hlt Hn Hs Hl' Hh' Ht'.
  assert (zlen (A ++ (y, v) :: B) = zlen (A ++ B) + 1) as Hz by (rewrite !length_app; simpl; lia).
  constructor; [done|done|..].
  - rewrite Hh', first_of_app. destruct (decide (A = [])) as [->|HA]; [done|].
    rewrite Hh, first_of_app. by destruct A as [|[]].
  - rewrite Ht', last_of_app. cbn [last_of]. destruct (decide (B = [])) as [->|HB]; [done|].
    rewrite Ht, last_of_app. by apply last_of_any.
  - rewrite Hl', Hl, Hz. apply wrap_small. rlia.
  - lia.
Qed.

Lemma listInsertNode_run s l A x w B v (after : bool) :
  list_rep s l (A ++ (x, w) :: B) → zlen (A ++ (x, w) :: B) + 1 < 2 ^ 64 →
  ∃ s' l' y, listInsertNode s l x v after = Some (s', l') ∧
    step_ok s l (A ++ (x, w) :: B) [] s' l'
      (if after then A ++ (x, w) :: (y, v) :: B else A ++ (y, v) :: (x, w) :: B).
Proof.
  intros Hrep Hlt. unfold listInsertNode. pose proof (lr_seg _ _ _ Hrep) as Hs.
  pose proof (lr_nodup _ _ _ Hrep) as Hn.
  pose proof Hs as [_ [Hx _]]%seg_app. rewrite Hx, bind_Some_eq. simpl node_next. simpl node_prev.
  pose proof (rep_tail_is _ _ _ _ _ _ Hrep) as Htail. pose proof (rep_head_is _ _ _ _ _ _ Hrep) as Hhead.
  destruct after.
  - destruct (new_node s _) as [y s1] eqn:Hnew. apply new_node_fresh in Hnew as [Hy ->]. simpl cells.
    rewrite lookup_insert_eq, bind_Some_eq. simpl node_prev. simpl node_next.
    change (A ++ (x, w) :: B) with (A ++ [(x, w)] ++ B) in *. rewrite !(assoc_L (++)) in *.
    destruct (insert_between s y v (A ++ [(x, w)]) B Hn Hs Hy) as (s2 & H2 & s3 & H3 & Hf & Hn' & Hs' & Ho).
    rewrite last_of_snoc in H2. rewrite H2, bind_Some_eq, H3, bind_Some_eq.
    eexists _, _, y. split; [done|].
    replace (A ++ (x, w) :: (y, v) :: B) with ((A ++ [(x, w)]) ++ (y, v) :: B) by by rewrite <-(assoc_L (++)).
    constructor; [|by case_bool_decide|by rewrite app_nil_r|done].
    eapply insert_rep; [exact Hrep|done|done|done|by case_bool_decide|..].
    + rewrite decide_False by (by destruct A). by case_bool_decide.
    + case_bool_decide; simpl; [rewrite decide_True by tauto|rewrite decide_False by tauto]; done.
  - destruct (new_node s _) as [y s1] eqn:Hnew. apply new_node_fresh in Hnew as [Hy ->]. simpl cells.
    rewrite lookup_insert_eq, bind_Some_eq. simpl node_prev. simpl node_next.
    destruct (insert_between s y v A ((x, w) :: B) Hn Hs Hy) as (s2 & H2 & s3 & H3 & Hf & Hn' & Hs' & Ho).
    simpl first_of in H2, H3. rewrite H2, bind_Some_eq, H3, bind_Some_eq.
    eexists _, _, y. split; [done|]. constructor; [|by case_bool_decide|by rewrite app_nil_r|done].
    eapply insert_rep; [exact Hrep|done|done|done|by case_bool_decide|..].
    + case_bool_decide; simpl; [rewrite decide_True by tauto|rewrite decide_False by tauto]; done.
    + rewrite decide_False by done. by case_bool_decide.
Qed.

Lemma list_rep_empty s l xs : list_rep s l xs → (al_len l =? 0) = bool_decide (xs = []).
Proof.
  intros [_ _ _ _ -> _]. destruct xs as [|z xs]; [done|].
  rewrite bool_decide_eq_false_2 by done. apply Z.eqb_neq. simpl. lia.
Qed.

Lemma listAddNodeHead_run s l xs v :
  list_rep s l xs → zlen xs + 1 < 2 ^ 64 →
  ∃ s' l' y, listAddNodeHead s l v = Some (s', l') ∧ step_ok s l xs [] s' l' ((y, v) :: xs).
Proof.
  intros Hrep Hlt. unfold listAddNodeHead. rewrite (list_rep_empty _ _ _ Hrep). pose proof Hrep as [Hn Hs Hh Ht _ _].
  destruct (new_node s (ListNode None (al_head l) v)) as [y s1] eqn:Hnew.
  case_bool_decide as Hc; rewrite ?Hnew; [subst xs; simpl in Hh; rewrite Hh in Hnew; rewrite Hnew|];
    apply new_node_fresh in Hnew as [Hy ->];
    destruct (insert_between s y v [] _ Hn Hs Hy) as (s2 & H2 & s3 & H3 & Hf & Hn' & Hs' & Ho);
    simpl in H2; injection H2 as <-.
  - simpl in H3. injection H3 as <-. eexists _, _, y. split; [done|].
    constructor; [|done|by rewrite app_nil_r|done].
    by apply (insert_rep s l [] []).
  - rewrite <-Hh in H3. assert (∃ x, al_head l = Some x) as [x Hx] by (rewrite Hh; destruct xs as [|[]]; [done|by eexists]).
    rewrite Hx in H3. rewrite Hx, H3, bind_Some_eq. eexists _, _, y. split; [done|].
    constructor; [|done|by rewrite app_nil_r|done].
    apply (insert_rep s l [] xs); try done. by rewrite decide_False.
Qed.

Lemma listAddNodeTail_run s l xs v :
  list_rep s l xs → zlen xs + 1 < 2 ^ 64 →
  ∃ s' l' y, listAddNodeTail s l v = Some (s', l') ∧ step_ok s l xs [] s' l' (xs ++ [(y, v)]).
Proof.
  intros Hrep Hlt. unfold listAddNodeTail. rewrite (list_rep_empty _ _ _ Hrep).
  assert (list_rep s l (xs ++ [])) as [Hn Hs Hh Ht _ _] by by rewrite app_nil_r.
  destruct (new_node s (ListNode (al_tail l) None v)) as [y s1] eqn:Hnew.
  case_bool_decide as Hc; rewrite ?Hnew; [subst xs; simpl in Ht; rewrite Ht in Hnew; rewrite Hnew|];
    apply new_node_fresh in Hnew as [Hy ->];
    destruct (insert_between s y v _ [] Hn Hs Hy) as (s2 & H2 & s3 & H3 & Hf & Hn' & Hs' & Ho);
    simpl in H3; injection H3 as <-; rewrite ?app_nil_r in Ho.
  - simpl in H2. injection H2 as <-. eexists _, _, y. split; [done|].
    constructor; [|done|by rewrite app_nil_r|done].
    by apply (insert_rep s l [] []).
  - rewrite app_nil_r in Ht. rewrite <-Ht in H2.
    destruct (al_tail l) as [x|] eqn:Hx; [|by symmetry in Ht; apply last_of_None in Ht].
    cbn [first_of] in H2. rewrite H2, bind_Some_eq. eexists _, _, y. split; [done|].
    constructor; [|done|by rewrite app_nil_r|done].
    apply (insert_rep s l xs []); try done; rewrite ?app_nil_r; try done.
    by rewrite decide_False.
Qed.

Definition freed_of (m : list_methods V) (vs : list V) : list V := if list_free m then vs else [].

Lemma listDelNode_run s l A x w B :
  list_rep s l (A ++ (x, w) :: B) →
  ∃ s' l', listDelNode s l x = Some (s', l') ∧
    step_ok s l (A ++ (x, w) :: B) (freed_of (al_methods l) [w]) s' l' (A ++ B).
Proof.
  intros [Hn Hs Hh Ht Hl Hb]. unfold listDelNode.
  destruct (remove_between s x w A B Hn Hs) as (Hx & s2 & H2 & Hx2 & s3 & H3 & Hx3 & Hf & Hs3 & Ho).
  rewrite Hx, bind_Some_eq. cbn [node_prev node_next].
  set (l2 := if decide (A = []) then set_head l (first_of B None) else l).
  assert ((match last_of None A with
           | Some _ => s0 ← store s (last_of None A) (set_next (first_of B None)); Some (s0, l)
           | None => Some (s, set_head l (first_of B None)) end) = Some (s2, l2)) as ->.
  { subst l2. destruct (last_of None A) eqn:HA.
    - rewrite H2, bind_Some_eq. rewrite decide_False; [done|]. by intros ->.
    - apply last_of_None in HA. rewrite decide_True by done. congruence. }
  rewrite bind_Some_eq, Hx2, bind_Some_eq. cbn [node_prev node_next].
  set (l3 := if decide (B = []) then set_tail l2 (last_of None A) else l2).
  assert ((match first_of B None with
           | Some _ => s0 ← store s2 (first_of B None) (set_prev (last_of None A)); Some (s0, l2)
           | None => Some (s2, set_tail l2 (last_of None A)) end) = Some (s3, l3)) as ->.
  { subst l3. destruct B as [|[b bv] B]; simpl in *.
    - congruence.
    - by rewrite H3, bind_Some_eq. }
  rewrite bind_Some_eq. unfold free_node. rewrite Hx3, !bind_Some_eq. cbn [node_value].
  assert (al_methods l3 = al_methods l ∧ al_len l3 = al_len l ∧
    al_head l3 = (if decide (A = []) then first_of B None else al_head l) ∧
    al_tail l3 = (if decide (B = []) then last_of None A else al_tail l)) as (Hm3 & Hl3 & Hh3 & Ht3).
  { subst l3 l2. by destruct (decide (A = [])), (decide (B = [])). }
  assert (zlen (A ++ (x, w) :: B) = zlen (A ++ B) + 1) as Hz by (rewrite !length_app; simpl; lia).
  rewrite fmap_app in Hn. simpl in Hn. apply NoDup_app in Hn as (HnA & Hd & [HxB HnB]%NoDup_cons).
  assert (x ∉ A.*1) as HxA by (intros Hin; apply (Hd _ Hin); left).
  eexists _, _. split; [done|]. constructor.
  - constructor.
    + rewrite fmap_app. apply NoDup_app. split_and!; [done| |done].
      intros y Hy ?. apply (Hd y Hy). by right.
    + simpl. apply seg_delete_ne; [|done]. rewrite fmap_app, elem_of_app. tauto.
    + simpl. rewrite Hh3, first_of_app. destruct (decide (A = [])) as [->|]; [done|].
      rewrite Hh, first_of_app. by destruct A as [|[]].
    + simpl. rewrite Ht3, last_of_app. destruct (decide (B = [])) as [->|]; [done|].
      rewrite Ht, last_of_app. simpl. by apply last_of_any.
    + simpl. rewrite Hl3, Hl, Hz. replace (_ + 1 + -1) with (zlen (A ++ B)) by lia. apply wrap_small. rlia.
    + lia.
  - done.
  - simpl. rewrite Hm3, Hf. unfold freed_of. destruct (list_free _); [done|by rewrite app_nil_r].
  - intros y. unfold others. simpl. rewrite !fmap_app. simpl.
    destruct (decide (y = x)) as [->|Hyx].
    { rewrite decide_False by set_solver. rewrite decide_True by set_solver. apply lookup_delete_eq. }
    destruct (decide (y ∈ A.*1 ++ B.*1)) as [Hin|Hin].
    { rewrite decide_True by set_solver. done. }
    rewrite decide_False by set_solver. rewrite lookup_delete_ne by done. apply Ho; set_solver.
Qed.

(** The last node becomes the first. *)
Lemma listRotate_run s l A x w :
  list_rep s l (A ++ [(x, w)]) →
  ∃ s' l', listRotate s l = Some (s', l') ∧ step_ok s l (A ++ [(x, w)]) [] s' l' ((x, w) :: A).
Proof.
  intros Hrep. pose proof Hrep as [Hn Hs Hh Ht Hl Hb]. unfold listRotate, listLength.
  assert (al_len l = zlen A + 1) as Hl1 by (rewrite Hl, length_app; simpl; lia).
  destruct (al_len l <=? 1) eqn:E.
  { assert (A = []) as -> by (apply nil_length_inv; lia). eexists _, _. split; [done|].
    constructor; [done..|by rewrite app_nil_r|done]. }
  destruct A as [|[y v] A]; [simpl in *; lia|]. clear E.
  rewrite last_of_snoc in Ht. simpl in Hh. rewrite Ht. unfold load.
  rewrite fmap_app in Hn. pose proof Hn as (HnA & Hd & _)%NoDup_app.
  assert (x ∉ ((y, v) :: A).*1) as HxA by (intros Hin; apply (Hd _ Hin); left).
  pose proof Hs as [HsA [Hx _]]%seg_app. simpl first_of in Hx. rewrite bind_Some_eq, Hx, bind_Some_eq.
  cbn [node_prev al_tail al_head set_tail set_head].
  assert (∃ z, last_of None ((y, v) :: A) = Some z) as [z Hz].
  { destruct (last_of None ((y, v) :: A)) eqn:Hz; [by eexists|]. by apply last_of_None in Hz. }
  destruct (relink_next s ((y, v) :: A) (Some x) None HsA HnA) as (c1 & H1 & HA1 & Hf1).
  rewrite Hz in H1 |- *. rewrite H1, bind_Some_eq, Hh.
  destruct (relink_prev (Nodes c1 (freed_values s)) ((y, v) :: A) None (Some x) HA1 HnA) as (c2 & H2 & HA2 & Hf2).
  simpl first_of in H2. rewrite H2, bind_Some_eq. unfold store. rewrite !bind_Some_eq. simpl cells in *.
  rewrite Hf2, Hf1, Hx by done. rewrite !bind_Some_eq. simpl cells. rewrite lookup_insert_eq, !bind_Some_eq.
  simpl. rewrite insert_insert_eq. eexists _, _. split; [done|]. constructor.
  - constructor; simpl.
    + constructor; [done|done].
    + rewrite lookup_insert_eq. split; [done|]. by apply (seg_insert_ne _ (Some x) ((y, v) :: A)).
    + done.
    + by rewrite <-Hz.
    + rewrite Hl, length_app. simpl. lia.
    + rewrite length_app in Hb. simpl in Hb. lia.
  - done.
  - simpl. by rewrite app_nil_r.
  - intros u. change ((y, v) :: A ++ [(x, w)]) with (((y, v) :: A) ++ [(x, w)]). unfold others. simpl cells. rewrite !(fmap_app _ ((y, v) :: A)).
    change (((y, v) :: A).*1 ++ [(x, w)].*1) with (((y, v) :: A).*1 ++ [x]).
    change (((x, w) :: (y, v) :: A).*1) with (x :: ((y, v) :: A).*1).
    destruct (decide (u ∈ x :: ((y, v) :: A).*1)) as [Hin|Hin].
    { rewrite decide_True by set_solver. done. }
    apply not_elem_of_cons in Hin as [Hux Hin]. rewrite decide_False by set_solver.
    rewrite lookup_insert_ne by done. by rewrite Hf2, Hf1.
Qed.

(** ** Traversals *)

(** [while ((ln = listNext(&li)) != NULL) ...]: the values in the order visited. *)
Definition iterate_body s (st : listIter * list V) : option (listIter * list V + list V) :=
  let '(it, acc) := st in
  '(node, it) ← listNext s it;
  match node with
  | None => Some (inr acc)
  | Some x => n ← cells s !! x; Some (inl (it, acc ++ [node_value n]))
  end.

Definition iterate s l (it : listIter) : option (list V) :=
  loop (2 + Z.to_nat (al_len l)) (iterate_body s) (it, []).

Lemma iterate_forward s p xs acc :
  seg (cells s) p xs None →
  loop (S (length xs)) (iterate_body s) (ListIter (first_of xs None) AL_START_HEAD, acc) = Some (acc ++ xs.*2).
Proof.
  revert p acc. induction xs as [|[x v] xs IH]; intros p acc; [by rewrite app_nil_r|].
  intros [Hx Hs]. rewrite loop_S. unfold iterate_body at 1, listNext. simpl first_of. cbv beta iota zeta.
  cbn [li_next li_direction]. rewrite Hx, !bind_Some_eq. cbv beta iota. rewrite Hx, bind_Some_eq.
  cbn [node_value node_prev node_next].
  etrans; [apply (IH _ _ Hs)|]. by rewrite <-app_assoc.
Qed.

Lemma iterate_backward s n xs acc :
  seg (cells s) None xs n →
  loop (S (length xs)) (iterate_body s) (ListIter (last_of None xs) AL_START_TAIL, acc) =
  Some (acc ++ reverse xs.*2).
Proof.
  revert n acc. induction xs as [|[x v] xs IH] using rev_ind; intros n acc; [by rewrite app_nil_r|].
  intros [Hs [Hx _]]%seg_app. rewrite last_of_snoc, length_app, Nat.add_comm, loop_S.
  unfold iterate_body at 1, listNext. cbv beta iota zeta.
  cbn [li_next li_direction]. rewrite Hx, !bind_Some_eq. cbv beta iota. rewrite Hx, bind_Some_eq.
  cbn [node_value node_prev node_next].
  etrans; [apply (IH _ _ Hs)|]. by rewrite fmap_app, reverse_app, <-app_assoc.
Qed.

Lemma index_forward s p xs i :
  seg (cells s) p xs None → 0 ≤ i →
  loop (S (length xs)) (index_body s true) (i, first_of xs None) = Some (fst <$> xs !! Z.to_nat i).
Proof.
  revert p i. induction xs as [|[x v] xs IH]; intros p i; rewrite loop_S; unfold index_body at 1.
  { by destruct (i =? 0). }
  intros [Hx Hs] Hi. destruct (i =? 0) eqn:E; [by replace i with 0 by lia|].
  simpl first_of. cbv iota beta. rewrite Hx, bind_Some_eq. cbn [node_next].
  etrans; [apply (IH _ (i - 1) Hs); lia|]. replace (Z.to_nat i) with (S (Z.to_nat (i - 1))) by lia. done.
Qed.

Lemma index_backward s n xs i :
  seg (cells s) None xs n → 0 ≤ i →
  loop (S (length xs)) (index_body s false) (i, last_of None xs) = Some (fst <$> reverse xs !! Z.to_nat i).
Proof.
  revert n i. induction xs as [|[x v] xs IH] using rev_ind; intros n i.
  { rewrite loop_S. unfold index_body at 1. by destruct (i =? 0). }
  intros [Hs [Hx _]]%seg_app Hi. rewrite last_of_snoc, reverse_snoc, length_app, Nat.add_comm, loop_S.
  unfold index_body at 1. destruct (i =? 0) eqn:E; [by replace i with 0 by lia|].
  cbv iota beta. rewrite Hx, bind_Some_eq. cbn [node_prev].
  etrans; [apply (IH _ (i - 1) Hs); lia|]. replace (Z.to_nat i) with (S (Z.to_nat (i - 1))) by lia. done.
Qed.

Definition value_matches (m : list_methods V) (key v : V) : bool :=
  match list_match m with Some f => f v key | None => bool_decide (key = v) end.

Lemma search_forward s m key p xs :
  seg (cells s) p xs None →
  loop (S (length xs)) (search_key_body s m key) (ListIter (first_of xs None) AL_START_HEAD) =
  Some (fst <$> head (filter (λ e, value_matches m key e.2) xs)).
Proof.
  revert p. induction xs as [|[x v] xs IH]; intros p; [done|]. intros [Hx Hs]. rewrite loop_S.
  unfold search_key_body at 1, listNext. simpl first_of. cbv beta iota zeta.
  cbn [li_next li_direction]. rewrite Hx, !bind_Some_eq. cbv beta iota. rewrite Hx, bind_Some_eq.
  cbn [node_value node_next]. fold (value_matches m key v). destruct (value_matches m key v) eqn:E.
  - rewrite filter_cons_True by (cbn [snd]; rewrite E; exact I). done.
  - rewrite filter_cons_False by (cbn [snd]; rewrite E; exact (λ f, f)). apply (IH _ Hs).
Qed.

(** The node at an index, counted from the end when negative. *)
Definition spec_index {E} (es : list E) (i : Z) : option E :=
  if i <? 0 then reverse es !! Z.to_nat (- i - 1) else es !! Z.to_nat i.

Lemma listIndex_run s l xs i :
  list_rep s l xs → - 2 ^ 63 < i → listIndex s l i = Some (fst <$> spec_index xs i).
Proof.
  intros [Hn Hs Hh Ht Hl _] Hi. unfold listIndex, spec_index. rewrite Hh, Ht, Hl, Nat2Z.id.
  destruct (i <? 0) eqn:E.
  - rewrite (proj2 (Z.eqb_neq i (- 2 ^ 63))) by lia. cbn [negb].
    eapply loop_fuel_mono; [eapply index_backward; [done|lia]|lia].
  - eapply loop_fuel_mono; [eapply index_forward; [done|lia]|lia].
Qed.

Lemma release_run s m p xs :
  seg (cells s) p xs None → NoDup xs.*1 →
  ∃ s', loop (S (length xs)) (release_body m) (s, first_of xs None, zlen xs) = Some s' ∧
    (∀ y, cells s' !! y = others s xs y) ∧ freed_values s' = freed_values s ++ freed_of m xs.*2.
Proof.
  revert s p. induction xs as [|[x v] xs IH]; intros s p.
  { intros _ _. exists s. split; [done|]. split; [done|]. unfold freed_of. destruct (list_free m); by rewrite app_nil_r. }
  intros [Hx Hs] [Hxs Hn]%NoDup_cons. rewrite loop_S. unfold release_body at 1.
  destruct (zlen _ =? 0) eqn:E; [simpl in E; lia|]. simpl first_of. rewrite bind_Some_eq, Hx, bind_Some_eq.
  unfold free_node. rewrite Hx, !bind_Some_eq. cbn [node_next node_value].
  replace (zlen ((x, v) :: xs) - 1) with (zlen xs) by (simpl; lia).
  edestruct (IH (Nodes (delete x (cells s)) (if list_free m then freed_values s ++ [v] else freed_values s)))
    as (s' & Hl & Hc & Hf); [by apply seg_delete_ne|done|].
  exists s'. split; [exact Hl|]. split.
  - intros y. rewrite Hc. unfold others. simpl. destruct (decide (y = x)) as [->|Hyx].
    + rewrite decide_False by done. rewrite decide_True by left. apply lookup_delete_eq.
    + destruct (decide (y ∈ xs.*1)) as [Hin|Hin].
      * rewrite decide_True by by right. done.
      * rewrite decide_False by (intros [->|?]%elem_of_cons; done). by apply lookup_delete_ne.
  - rewrite Hf. simpl. unfold freed_of. destruct (list_free m); [by rewrite <-app_assoc|done].
Qed.

Lemma listRelease_run s l xs :
  list_rep s l xs →
  ∃ s', listRelease s l = Some s' ∧ (∀ y, cells s' !! y = others s xs y) ∧
    freed_values s' = freed_values s ++ freed_of (al_methods l) xs.*2.
Proof.
  intros [Hn Hs Hh Ht Hl _]. unfold listRelease. rewrite Hh, Hl, Nat2Z.id. by eapply release_run.
Qed.

(** ** Copies *)

Definition dup_value (m : list_methods V) v : option V :=
  match list_dup m with Some dup => dup v | None => Some v end.

(** The copies of the values up to the first that has none, and whether all have one. *)
Fixpoint dup_all (m : list_methods V) (vs : list V) : list V * bool :=
  match vs with
  | [] => ([], true)
  | v :: vs =>
    match dup_value m v with
    | None => ([], false)
    | Some w => let '(ws, ok) := dup_all m vs in (w :: ws, ok)
    end
  end.

(** A disjoint list is left as it was by an operation on [xs]. *)
Lemma others_seg s xs s' xs' p zs n :
  (∀ y, others s' xs' y = others s xs y) → seg (cells s) p zs n → zs.*1 ## xs.*1 →
  seg (cells s') p zs n ∧ zs.*1 ## xs'.*1.
Proof.
  intros Ho Hs Hd.
  assert (∀ y, y ∈ zs.*1 → y ∉ xs'.*1 ∧ cells s' !! y = cells s !! y) as Hz.
  { intros y Hy. destruct (seg_lookup _ _ _ _ _ Hs Hy) as [c Hc]. specialize (Ho y). unfold others in Ho.
    rewrite (decide_False (P := y ∈ xs.*1)) in Ho by (intros ?; by eapply Hd).
    rewrite Hc in *. by destruct (decide (y ∈ xs'.*1)). }
  split; [eapply seg_frame; [|done]; intros y Hy; by apply Hz|]. intros y Hy ?. by destruct (Hz y Hy).
Qed.

Lemma list_rep_others s xs s' xs' l zs :
  (∀ y, others s' xs' y = others s xs y) → list_rep s l zs → zs.*1 ## xs.*1 → list_rep s' l zs.
Proof. intros Ho [] Hd. constructor; try done. by eapply others_seg. Qed.

Lemma step_ok_trans s l xs f1 s1 l1 xs1 f2 s2 l2 xs2 :
  step_ok s l xs f1 s1 l1 xs1 → step_ok s1 l1 xs1 f2 s2 l2 xs2 → step_ok s l xs (f1 ++ f2) s2 l2 xs2.
Proof.
  intros [_ Hm1 Hf1 Ho1] [Hr2 Hm2 Hf2 Ho2]. constructor; [done|congruence| |congruence].
  by rewrite Hf2, Hf1, <-app_assoc.
Qed.

Lemma step_ok_refl s l xs : list_rep s l xs → step_ok s l xs [] s l xs.
Proof. constructor; [done..|by rewrite app_nil_r|done]. Qed.

Lemma dup_loop todo p s copy ys m :
  al_methods copy = m → seg (cells s) p todo None → list_rep s copy ys → todo.*1 ## ys.*1 →
  zlen ys + zlen todo < 2 ^ 64 →
  ∃ s' r, loop (S (length todo)) dup_body (s, copy, ListIter (first_of todo None) AL_START_HEAD) = Some (s', r) ∧
    let '(ws, ok) := dup_all m todo.*2 in
    if ok then ∃ copy' ys', r = Some copy' ∧ step_ok s copy ys [] s' copy' ys' ∧ ys'.*2 = ys.*2 ++ ws
    else r = None ∧ (∀ y, cells s' !! y = others s ys y) ∧
         freed_values s' = freed_values s ++ freed_of m (ys.*2 ++ ws).
Proof.
  revert p s copy ys. induction todo as [|[x v] todo IH]; intros p s copy ys Hm Hs Hrep Hd Hb.
  { exists s, (Some copy). split; [done|]. exists copy, ys. rewrite app_nil_r. split; [done|].
    split; [by apply step_ok_refl|done]. }
  destruct Hs as [Hx Hs]. rewrite loop_S. unfold dup_body at 1, listNext. simpl first_of.
  cbn [li_next li_direction]. rewrite Hx, !bind_Some_eq. cbv beta iota. rewrite Hx, bind_Some_eq.
  cbn [node_value node_next]. fold (dup_value (al_methods copy) v). rewrite Hm.
  cbn [fmap list_fmap snd dup_all]. destruct (dup_value m v) as [w|].
  - destruct (listAddNodeTail_run s copy ys w Hrep) as (s1 & copy1 & y & -> & Hok); [simpl in Hb; lia|].
    rewrite bind_Some_eq. cbv beta iota. pose proof Hok as [Hrep1 Hm1 Hf1 Ho1].
    destruct (others_seg _ _ _ _ _ _ _ Ho1 Hs) as [Hs1 Hd1]; [set_solver|].
    destruct (IH (Some x) s1 copy1 (ys ++ [(y, w)])) as (s' & r & Hl & Hr);
      [congruence|done|done|done|rewrite length_app; simpl in *; lia|].
    exists s', r. split; [exact Hl|]. rewrite fmap_app in Hr. simpl in Hr.
    destruct (dup_all m todo.*2) as [ws [|]].
    + destruct Hr as (copy' & ys' & -> & Hok' & Hv). exists copy', ys'. split; [done|].
      split; [by eapply (step_ok_trans s copy ys [])|]. by rewrite Hv, <-app_assoc.
    + destruct Hr as (-> & Hc & ->). split; [done|]. split; [congruence|].
      rewrite Hf1, app_nil_r, <-app_assoc. done.
  - destruct (listRelease_run s copy ys Hrep) as (s' & -> & Hc & Hf). rewrite bind_Some_eq.
    exists s', None. split; [done|]. split; [done|]. split; [done|]. by rewrite Hf, Hm, app_nil_r.
Qed.

Lemma listCreate_rep s m : list_rep s (listSetMethods listCreate m) [].
Proof. constructor; try done; try constructor. Qed.

Lemma listDup_run s l xs :
  list_rep s l xs →
  ∃ s' r, listDup s l = Some (s', r) ∧ list_rep s' l xs ∧
    let '(ws, ok) := dup_all (al_methods l) xs.*2 in
    if ok then ∃ copy ys, r = Some copy ∧ list_rep s' copy ys ∧ ys.*2 = ws ∧
      al_methods copy = al_methods l ∧ freed_values s' = freed_values s ∧
      ∀ y, others s' ys y = cells s !! y
    else r = None ∧ (∀ y, cells s' !! y = cells s !! y) ∧
         freed_values s' = freed_values s ++ freed_of (al_methods l) ws.
Proof.
  intros Hrep. pose proof Hrep as [Hn Hs Hh Ht Hl Hb]. unfold listDup, listGetIterator.
  rewrite Hh, Hl, Nat2Z.id. cbv beta iota zeta.
  destruct (dup_loop xs None s (listSetMethods listCreate (al_methods l)) [] (al_methods l))
    as (s' & r & Hl' & Hr); [done|done|apply listCreate_rep|set_solver|simpl; lia|].
  exists s', r. split; [eapply loop_fuel_mono; [exact Hl'|lia]|].
  assert (∀ y, others s [] y = cells s !! y) as Hnil by done.
  destruct (dup_all (al_methods l) xs.*2) as [ws [|]].
  - destruct Hr as (copy' & ys' & -> & [Hrep' Hm' Hf' Ho'] & Hv).
    split; [eapply list_rep_others; [exact Ho'|done|set_solver]|].
    exists copy', ys'. rewrite app_nil_r in Hf'. done.
  - destruct Hr as (-> & Hc & Hf). split; [|done].
    apply (list_rep_others s [] s' []); [|done|set_solver]. done.
Qed.

(** ** Sequences of operations *)

Inductive lop :=
  | OAddHead (v : V)
  | OAddTail (v : V)
  | OInsert (i : Z) (v : V) (after : bool)
  | ODel (i : Z)
  | ORotate.

(** A client gets the node of an insertion or a deletion from [listIndex]. *)
Definition run_lop s l (o : lop) : option (nodes V * alist V) :=
  match o with
  | OAddHead v => listAddNodeHead s l v
  | OAddTail v => listAddNodeTail s l v
  | OInsert i v after =>
    p ← listIndex s l i;
    match p with Some x => listInsertNode s l x v after | None => Some (s, l) end
  | ODel i =>
    p ← listIndex s l i;
    match p with Some x => listDelNode s l x | None => Some (s, l) end
  | ORotate => listRotate s l
  end.

Fixpoint run_lops s l (os : list lop) : option (nodes V * alist V) :=
  match os with [] => Some (s, l) | o :: os => '(s, l) ← run_lop s l o; run_lops s l os end.

(** The index arguments are [long]s other than [LONG_MIN]. *)
Definition lop_ok (o : lop) : Prop :=
  match o with OInsert i _ _ | ODel i => - 2 ^ 63 < i | _ => True end.

(** On the list of the values: the position an index denotes, *)
Definition spec_pos (n : nat) (i : Z) : option nat :=
  if i <? 0 then if - i <=? Z.of_nat n then Some (Z.to_nat (Z.of_nat n + i)) else None
  else if i <? Z.of_nat n then Some (Z.to_nat i) else None.

(** and the operations: the new list and the values freed. *)
Definition spec_lop (vs : list V) (o : lop) : list V * list V :=
  match o with
  | OAddHead v => (v :: vs, [])
  | OAddTail v => (vs ++ [v], [])
  | OInsert i v after =>
    match spec_pos (length vs) i with
    | Some k => let k := if after then S k else k in (take k vs ++ v :: drop k vs, [])
    | None => (vs, [])
    end
  | ODel i =>
    match spec_pos (length vs) i with
    | Some k => (take k vs ++ drop (S k) vs, option_list (vs !! k))
    | None => (vs, [])
    end
  | ORotate => (match last vs with Some v => v :: take (pred (length vs)) vs | None => [] end, [])
  end.

Fixpoint spec_lops (vs : list V) (os : list lop) : list V * list V :=
  match os with
  | [] => (vs, [])
  | o :: os => let '(vs, f1) := spec_lop vs o in let '(vs, f2) := spec_lops vs os in (vs, f1 ++ f2)
  end.

Lemma spec_index_pos {E} (es : list E) i :
  match spec_pos (length es) i with
  | Some k => ∃ es1 e es2, es = es1 ++ e :: es2 ∧ length es1 = k ∧ spec_index es i = Some e
  | None => spec_index es i = None
  end.
Proof.
  assert (∀ k e, es !! k = Some e → ∃ es1 es2, es = es1 ++ e :: es2 ∧ length es1 = k) as Hsp.
  { intros k e He. exists (take k es), (drop (S k) es). apply lookup_lt_Some in He as Hlt.
    split; [by rewrite take_drop_middle|]. rewrite length_take. lia. }
  unfold spec_pos, spec_index. destruct (i <? 0) eqn:E0.
  - destruct (- i <=? _) eqn:E1.
    + destruct (lookup_lt_is_Some_2 es (Z.to_nat (zlen es + i))) as [e He]; [lia|].
      destruct (Hsp _ _ He) as (es1 & es2 & Hes & Hk). exists es1, e, es2. split; [done|]. split; [done|].
      rewrite reverse_lookup by lia. rewrite <-He. f_equal. lia.
    + apply lookup_ge_None. rewrite length_reverse. lia.
  - destruct (i <? zlen es) eqn:E1.
    + destruct (lookup_lt_is_Some_2 es (Z.to_nat i)) as [e He]; [lia|].
      destruct (Hsp _ _ He) as (es1 & es2 & Hes & Hk). exists es1, e, es2. done.
    + apply lookup_ge_None. lia.
Qed.

Lemma freed_of_nil m : freed_of m [] = [].
Proof. unfold freed_of. by destruct (list_free m). Qed.

Lemma freed_of_app m f1 f2 : freed_of m (f1 ++ f2) = freed_of m f1 ++ freed_of m f2.
Proof. unfold freed_of. by destruct (list_free m). Qed.

Lemma take_past {E} (a b : list E) w : take (S (length a)) (a ++ w :: b) = a ++ [w].
Proof. rewrite cons_middle, (assoc_L (++)). apply take_app_length'. rewrite length_app. simpl. lia. Qed.

Lemma drop_past {E} (a b : list E) w : drop (S (length a)) (a ++ w :: b) = b.
Proof. rewrite cons_middle, (assoc_L (++)). apply drop_app_length'. rewrite length_app. simpl. lia. Qed.

Lemma run_lop_correct s l xs o :
  list_rep s l xs → zlen xs + 1 < 2 ^ 64 → lop_ok o →
  ∃ s' l' xs', run_lop s l o = Some (s', l') ∧
    step_ok s l xs (freed_of (al_methods l) (spec_lop xs.*2 o).2) s' l' xs' ∧
    xs'.*2 = (spec_lop xs.*2 o).1 ∧ (length xs' ≤ S (length xs))%nat.
Proof.
  intros Hrep Hb Hok. destruct o as [v|v|i v after|i|]; simpl in Hok |- *; rewrite ?freed_of_nil.
  - destruct (listAddNodeHead_run s l xs v Hrep Hb) as (s' & l' & y & -> & ?). by exists s', l', ((y, v) :: xs).
  - destruct (listAddNodeTail_run s l xs v Hrep Hb) as (s' & l' & y & -> & ?).
    exists s', l', (xs ++ [(y, v)]). rewrite fmap_app, length_app. simpl. repeat split; [apply H0..|lia].
  - rewrite (listIndex_run _ _ _ _ Hrep Hok), bind_Some_eq, length_fmap.
    pose proof (spec_index_pos xs i) as Hp. destruct (spec_pos (length xs) i) as [k|].
    + destruct Hp as (A & [x w] & B & -> & <- & ->). simpl.
      destruct (listInsertNode_run s l A x w B v after Hrep Hb) as (s' & l' & y & -> & ?).
      eexists s', l', _. split; [done|]. rewrite freed_of_nil. split; [done|].
      destruct after; rewrite !fmap_app; simpl; rewrite <-(length_fmap snd A).
      * rewrite take_past, drop_past, !length_app, <-app_assoc.
        simpl. split; [done|lia].
      * rewrite take_app_length, drop_app_length, !length_app. simpl. split; [done|lia].
    + rewrite Hp. simpl. exists s, l, xs. rewrite freed_of_nil. split; [done|]. split; [by apply step_ok_refl|]. split; [done|lia].
  - rewrite (listIndex_run _ _ _ _ Hrep Hok), bind_Some_eq, length_fmap.
    pose proof (spec_index_pos xs i) as Hp. destruct (spec_pos (length xs) i) as [k|].
    + destruct Hp as (A & [x w] & B & -> & <- & ->). simpl.
      destruct (listDelNode_run s l A x w B Hrep) as (s' & l' & -> & ?).
      exists s', l', (A ++ B). split; [done|]. rewrite !fmap_app. simpl. rewrite <-(length_fmap snd A).
      rewrite list_lookup_middle by done. split; [done|]. rewrite take_app_length.
      rewrite drop_past, !length_app. simpl. split; [done|lia].
    + rewrite Hp. simpl. exists s, l, xs. rewrite freed_of_nil. split; [done|]. split; [by apply step_ok_refl|]. split; [done|lia].
  - destruct xs as [|[x w] A _] using rev_ind.
    { exists s, l, []. simpl. split; [|split; [by apply step_ok_refl|split; [done|simpl; lia]]].
      unfold listRotate, listLength. by rewrite (lr_len _ _ _ Hrep). }
    destruct (listRotate_run s l A x w Hrep) as (s' & l' & -> & ?).
    exists s', l', ((x, w) :: A). split; [done|]. split; [done|].
    rewrite fmap_app, length_app. simpl. rewrite last_snoc, length_app. simpl.
    rewrite Nat.add_1_r. simpl. rewrite take_app_length. split; [done|lia].
Qed.

Lemma run_lops_correct s l xs os :
  list_rep s l xs → zlen xs + zlen os < 2 ^ 64 → Forall lop_ok os →
  ∃ s' l' xs', run_lops s l os = Some (s', l') ∧
    step_ok s l xs (freed_of (al_methods l) (spec_lops xs.*2 os).2) s' l' xs' ∧
    xs'.*2 = (spec_lops xs.*2 os).1.
Proof.
  intros Hrep Hb Hok. revert s l xs Hrep Hb. induction Hok as [|o os Ho Hok IH]; intros s l xs Hrep Hb.
  { exists s, l, xs. split; [done|]. simpl. rewrite freed_of_nil. split; [by apply step_ok_refl|done]. }
  simpl in Hb. destruct (run_lop_correct s l xs o Hrep) as (s1 & l1 & xs1 & Hrun & Hst & Hv & Hlen); [lia|done|].
  destruct (IH s1 l1 xs1) as (s2 & l2 & xs2 & Hrun2 & Hst2 & Hv2); [apply Hst|lia|].
  exists s2, l2, xs2. simpl. rewrite Hrun, bind_Some_eq. rewrite Hv, (so_methods _ _ _ _ _ _ _ Hst) in *.
  destruct (spec_lop xs.*2 o) as [vs1 f1]. simpl in *. destruct (spec_lops vs1 os) as [vs2 f2]. simpl in *.
  split; [done|]. rewrite freed_of_app. split; [by eapply step_ok_trans|done].
Qed.

Lemma seg_value c p xs n x v : seg c p xs n → (x, v) ∈ xs → node_value <$> c !! x = Some v.
Proof.
  revert p. induction xs as [|[y w] xs IH]; intros p; simpl; [by intros _ ?%elem_of_nil|].
  intros [Hy Hs] [[= -> ->]|Hin]%elem_of_cons; [by rewrite Hy|by eapply IH].
Qed.

Lemma spec_index_fmap {E F} (f : E → F) es i : spec_index (f <$> es) i = f <$> spec_index es i.
Proof. unfold spec_index. by rewrite <-fmap_reverse, !list_lookup_fmap; destruct (i <? 0). Qed.

Lemma spec_index_elem {E} (es : list E) i e : spec_index es i = Some e → e ∈ es.
Proof.
  unfold spec_index. destruct (i <? 0); intros He%list_elem_of_lookup_2; [by apply elem_of_reverse|done].
Qed.

Lemma filter_head_values m key xs :
  head (filter (λ v, value_matches m key v) xs.*2) = snd <$> head (filter (λ e, value_matches m key e.2) xs).
Proof.
  induction xs as [|[x v] xs IH]; [done|]. simpl. rewrite !filter_cons. simpl.
  destruct (decide (value_matches m key v)); [done|apply IH].
Qed.

(** C11: any sequence of insertions at the ends, insertions and deletions at an
    index and rotations, from a new list in any heap, runs without an invalid
    access and leaves the list of the specification: its length, its values
    from either end, every index from either end, and the search of a key; the
    deleted values are freed once each, when the list has a free method, and
    another list in the same heap is left as it was. *)
Theorem list_ops_refine s m os other zs :
  zlen os < 2 ^ 64 → Forall lop_ok os → list_rep s other zs →
  let vs := (spec_lops [] os).1 in
  ∃ s' l', run_lops s (listSetMethods listCreate m) os = Some (s', l') ∧
    listLength l' = zlen vs ∧
    iterate s' l' (listRewind l') = Some vs ∧
    iterate s' l' (listRewindTail l') = Some (reverse vs) ∧
    (∀ i, - 2 ^ 63 < i →
       (p ← listIndex s' l' i; Some (x ← p; node_value <$> cells s' !! x)) = Some (spec_index vs i)) ∧
    (∀ key, (p ← listSearchKey s' l' key; Some (x ← p; node_value <$> cells s' !! x)) =
            Some (head (filter (λ v, value_matches m key v) vs))) ∧
    freed_values s' = freed_values s ++ freed_of m (spec_lops [] os).2 ∧
    list_rep s' other zs.
Proof.
  intros Hb Hok Hoth vs.
  destruct (run_lops_correct s (listSetMethods listCreate m) [] os (listCreate_rep s m)) as
    (s' & l' & xs & Hrun & [Hrep Hm Hf Ho] & Hv); [done..|].
  exists s', l'. pose proof Hrep as [Hn Hs Hh Ht Hl _]. simpl in Hm.
  change (xs.*2 = vs) in Hv.
  assert (∀ e, e ∈ xs → node_value <$> cells s' !! e.1 = Some e.2) as Hval.
  { intros [x v]. by apply (seg_value _ None xs None). }
  split; [done|]. split; [unfold listLength; rewrite Hl, <-(length_fmap snd), Hv; done|].
  split; [|split; [|split; [|split; [|split]]]].
  - unfold iterate, listRewind. rewrite Hh, Hl, Nat2Z.id.
    eapply loop_fuel_mono; [rewrite (iterate_forward s' None xs []) by done; by rewrite Hv|lia].
  - unfold iterate, listRewindTail. rewrite Ht, Hl, Nat2Z.id.
    eapply loop_fuel_mono; [rewrite (iterate_backward s' None xs []) by done; by rewrite Hv|lia].
  - intros i Hi. rewrite (listIndex_run _ _ xs) by done. rewrite bind_Some_eq. rewrite <-Hv, spec_index_fmap. destruct (spec_index xs i) as [e|] eqn:He; [|done].
    simpl. by rewrite (Hval e) by by eapply spec_index_elem.
  - intros key. unfold listSearchKey, listGetIterator. rewrite Hh, Hl, Nat2Z.id. cbv beta iota.
    erewrite loop_fuel_mono; [|by apply (search_forward s' _ key None xs)|lia].
    rewrite bind_Some_eq, Hm. rewrite <-Hv, filter_head_values.
    destruct (head _) as [e|] eqn:He; [|done]. simpl. rewrite (Hval e); [done|].
    apply head_Some_elem_of, list_elem_of_filter in He. apply He.
  - done.
  - eapply list_rep_others; [exact Ho|done|set_solver].
Qed.

(** [listDup] copies the values one by one, in order, into new nodes and
    leaves the original as it was; releasing the copy then gives back the heap
    from before the call, every copied value freed once.  When a value cannot
    be copied it returns [NULL], with the copies made so far released. *)
Theorem listDup_release_roundtrip s l xs :
  list_rep s l xs →
  let '(ws, ok) := dup_all (al_methods l) xs.*2 in
  ∃ s1 r, listDup s l = Some (s1, r) ∧ list_rep s1 l xs ∧
    if ok then
      ∃ copy s2, r = Some copy ∧ al_methods copy = al_methods l ∧
        iterate s1 copy (listGetIterator copy AL_START_HEAD) = Some ws ∧
        freed_values s1 = freed_values s ∧
        listRelease s1 copy = Some s2 ∧ cells s2 = cells s ∧
        freed_values s2 = freed_values s ++ freed_of (al_methods l) ws
    else r = None ∧ cells s1 = cells s ∧
         freed_values s1 = freed_values s ++ freed_of (al_methods l) ws.
Proof.
  intros Hrep. destruct (listDup_run s l xs Hrep) as (s1 & r & Hd & Hrep1 & Hr).
  destruct (dup_all (al_methods l) xs.*2) as [ws ok]. exists s1, r. split; [done|]. split; [done|].
  destruct ok.
  - destruct Hr as (copy & ys & -> & Hc & <- & Hm & Hf & Ho).
    destruct (listRelease_run s1 copy ys Hc) as (s2 & Hrel & Hc2 & Hf2).
    exists copy, s2. split; [done|]. split; [done|]. split_and!; [|done|done| |congruence].
    + unfold iterate, listGetIterator. rewrite (lr_head _ _ _ Hc), (lr_len _ _ _ Hc), Nat2Z.id.
      change (AL_START_HEAD =? AL_START_HEAD) with true. cbv iota.
      eapply loop_fuel_mono; [rewrite (iterate_forward s1 None ys []) by apply Hc; done|lia].
    + apply map_eq. intros y. by rewrite Hc2.
  - destruct Hr as (-> & Hc & Hf). split; [done|]. split; [|done]. apply map_eq, Hc.
Qed.
End spec.

(** ** Concrete runs *)

Definition sample_methods : list_methods Z :=
  ListMethods Z (Some (λ v, if v =? 13 then None else Some (v + 100))) true (Some (λ v key, v mod 10 =? key)).

(** A heap with a list of one node, and that list. *)
Definition sample_nodes : nodes Z := Nodes {[ 5%positive := ListNode None None 7 ]} [].
Definition sample_list : alist Z := AList (Some 5%positive) (Some 5%positive) sample_methods 1.

Lemma sample_list_rep : list_rep sample_nodes sample_list [(5%positive, 7)].
Proof.
  constructor; try done. apply NoDup_singleton.
Qed.

Definition sample_lops : list (lop (V:=Z)) :=
  [OAddTail 3; OAddHead 1; OInsert (-1) 2 false; ORotate; ODel 1; OInsert 0 4 true; ODel 9].

Example sample_lops_spec : spec_lops [] sample_lops = ([3; 4; 2], [1]).
Proof. reflexivity. Qed.

Lemma list_ops_refine_witness :
  ∃ s' l', (@run_lops Z next_entry_allocator sample_nodes (listSetMethods listCreate sample_methods) sample_lops)
    = Some (s', l') ∧ listLength l' = 3.
Proof.
  destruct (@list_ops_refine Z _ next_entry_allocator sample_nodes sample_methods sample_lops sample_list
    [(5%positive, 7)] ltac:(by vm_compute)) as (s' & l' & Hrun & Hlen & _).
  - repeat constructor.
  - exact sample_list_rep.
  - exists s', l'. split; [exact Hrun|exact Hlen].
Defined.

Lemma listDup_release_roundtrip_witness :
  ∃ s1 copy, @listDup Z next_entry_allocator sample_nodes sample_list = Some (s1, Some copy).
Proof.
  pose proof (@listDup_release_roundtrip Z next_entry_allocator sample_nodes sample_list
    [(5%positive, 7)] sample_list_rep) as H.
  destruct H as (s1 & r & Hd & _ & copy & _ & -> & _). exists s1, copy. exact Hd.
Defined.
