(* ===== verification/Object.v ===== *)
(** * String objects: [object.c]

    The comparison and the equality of string objects, and the interface
    ([StringObject], [StringObjectLaws]) through which sorted sets use them. *)

From S2P Require Import Prelude Util.

#[local] Open Scope Z_scope.

(** ** Lexicographic order on byte strings *)

Fixpoint text_compare (a b : bytes) : comparison :=
  match a, b with
  | [], [] => Eq
  | [], _ :: _ => Lt
  | _ :: _, [] => Gt
  | x :: a, y :: b => match x ?= y with Eq => text_compare a b | c => c end
  end.

Lemma text_compare_eq a b : text_compare a b = Eq ↔ a = b.
Proof.
  revert b. induction a as [|x a IH]; intros [|y b]; simpl; try done.
  destruct (x ?= y) eqn:E; rewrite ?IH.
  - apply Z.compare_eq in E as ->. split; [by intros ->|by intros [=]].
  - split; [done|]. intros [= -> ->]. by rewrite Z.compare_refl in E.
  - split; [done|]. intros [= -> ->]. by rewrite Z.compare_refl in E.
Qed.

Lemma text_compare_refl a : text_compare a a = Eq.
Proof. by apply text_compare_eq. Qed.

Lemma text_compare_antisym a b : text_compare b a = CompOpp (text_compare a b).
Proof.
  revert b. induction a as [|x a IH]; intros [|y b]; simpl; try done.
  rewrite (Z.compare_antisym x y). by destruct (x ?= y); simpl.
Qed.

Lemma text_compare_trans a b c :
  text_compare a b = Lt → text_compare b c = Lt → text_compare a c = Lt.
Proof.
  revert b c. induction a as [|x a IH]; intros [|y b] [|z c]; simpl; try done.
  destruct (x ?= y) eqn:E1, (y ?= z) eqn:E2; try done.
  - apply Z.compare_eq in E1 as ->. rewrite E2. apply IH.
  - apply Z.compare_eq in E1 as ->. by rewrite E2.
  - apply Z.compare_eq in E2 as ->. by rewrite E1.
  - rewrite Z.compare_lt_iff in E1, E2. by rewrite (proj2 (Z.compare_lt_iff x z)) by lia.
Qed.

(** ** [memcmp] and [strcoll]: only the sign of [memcmp] is specified *)

Class StringLib := {
  memcmp : bytes → bytes → Z;
  memcmp_sign a b : length a = length b → (memcmp a b ?= 0) = text_compare a b;
  strcoll : bytes → bytes → Z;
}.

(** The difference of the first bytes that differ. *)
Fixpoint memcmp_diff (a b : bytes) : Z :=
  match a, b with x :: a, y :: b => if x =? y then memcmp_diff a b else x - y | _, _ => 0 end.

Program Definition diff_string_lib : StringLib := {| memcmp := memcmp_diff; strcoll := memcmp_diff |}.
Next Obligation.
  induction a as [|x a IH]; intros [|y b] Hl; simpl in *; try done.
  destruct (Z.eqb_spec x y) as [->|Hne]; [rewrite Z.compare_refl; apply IH; lia|].
  destruct (Z.compare_spec x y); [done|apply Z.compare_lt_iff; lia|apply Z.compare_gt_iff; lia].
Qed.

(** ** String objects *)

(** [REDIS_ENCODING_RAW] and [EMBSTR] hold an sds string, [INT] a [long]. *)
Inductive robj :=
  | SdsObj (s : bytes)
  | IntObj (n : Z).

#[export] Instance robj_eq_dec : EqDecision robj.
Proof. solve_decision. Defined.

Definition REDIS_COMPARE_BINARY : Z := 1.
Definition REDIS_COMPARE_COLL : Z := 2.

Section objects.
Context `{!Allocator} `{!StringLib}.

(** The string of an object and its length: the sds string, or the digits
    written by [ll2string] to a buffer of 128 bytes on the stack. *)
Definition astr (a : robj) : option (bytes * Z) :=
  match a with
  | SdsObj s => Some (s, zlen s)
  | IntObj n => '(alen, bufa) ← ll2string (fresh 128) 128 n; s ← rd bufa 0 alen; Some (s, alen)
  end.

(** The test [a == b] of the addresses is left out: it returns early the [0]
    that comparing an object with itself gives. *)
Definition compareStringObjectsWithFlags (a b : robj) (flags : Z) : option Z :=
  '(a, alen) ← astr a;
  '(b, blen) ← astr b;
  if negb (Z.land flags REDIS_COMPARE_COLL =? 0) then Some (strcoll a b)
  else
    let minlen := if alen <? blen then alen else blen in
    a' ← rd a 0 minlen; b' ← rd b 0 minlen;
    let cmp := memcmp a' b' in
    if cmp =? 0 then Some (s32 (u64 (alen - blen))) else Some cmp.

Definition compareStringObjects (a b : robj) : option Z :=
  compareStringObjectsWithFlags a b REDIS_COMPARE_BINARY.
Definition collateStringObjects (a b : robj) : option Z :=
  compareStringObjectsWithFlags a b REDIS_COMPARE_COLL.

Definition equalStringObjects (a b : robj) : option bool :=
  match a, b with
  | IntObj m, IntObj n => Some (m =? n)
  | _, _ => c ← compareStringObjects a b; Some (c =? 0)
  end.

Definition stringObjectLen (o : robj) : option Z :=
  match o with
  | SdsObj s => Some (zlen s)
  | IntObj n => '(len, _) ← ll2string (fresh 32) 32 n; Some len
  end.

(** ** What they compute *)

(** The string an object stands for. *)
Definition robj_text (o : robj) : bytes :=
  match o with SdsObj s => s | IntObj n => dec_signed n end.

(** Objects of the server: strings are limited to 512MB, integers to [long]. *)
Definition robj_ok (o : robj) : Prop :=
  match o with SdsObj s => zlen s < 2 ^ 31 | IntObj n => in_s 64 n end.

Lemma length_dec_signed n : in_s 64 n → zlen (dec_signed n) ≤ 21.
Proof.
  intros Hn. unfold dec_signed. destruct (n <? 0) eqn:E; cbn [length];
    [pose proof (length_dec_le20 (- n))|pose proof (length_dec_le20 n)]; unfold in_u, in_s in *; lia.
Qed.

Lemma astr_ok o : robj_ok o → astr o = Some (robj_text o, zlen (robj_text o)).
Proof.
  destruct o as [s|n]; [done|]. intros Hn. unfold astr, robj_text. pose proof (length_dec_signed n Hn).
  rewrite ll2string_fits by (rewrite ?length_fresh; simpl; done || lia). rewrite bind_Some_eq.
  by rewrite rd_prefix.
Qed.

Lemma robj_text_len o : robj_ok o → zlen (robj_text o) < 2 ^ 31.
Proof. destruct o as [s|n]; [done|]. intros Hn%length_dec_signed. simpl. lia. Qed.

Lemma robj_text_inj_int m n : robj_text (IntObj m) = robj_text (IntObj n) ↔ m = n.
Proof. split; [apply dec_signed_inj|by intros ->]. Qed.

Lemma s32_len_diff m n :
  0 ≤ m < 2 ^ 31 → 0 ≤ n < 2 ^ 31 → s32 (u64 (m - n)) = m - n.
Proof.
  intros ? ?. assert (s32 (u64 (m - n)) = s32 (m - n)) as ->; [|apply swrap_small; unfold in_s; lia].
  unfold swrap, wrap. f_equal. rewrite <-Zplus_mod_idemp_l, Z.mod_mod_divide, Zplus_mod_idemp_l; [done|].
  by exists (2 ^ 32).
Qed.

(** Comparing equally long prefixes first and the lengths then is lexicographic. *)
Lemma text_compare_prefix a b n :
  n = min (length a) (length b) →
  text_compare a b =
  match text_compare (take n a) (take n b) with Eq => zlen a ?= zlen b | c => c end.
Proof.
  revert b n. induction a as [|x a IH]; intros [|y b] n ->; cbn [text_compare length take Nat.min]; try done.
  destruct (x ?= y); [|done|done]. rewrite (IH b _ eq_refl).
  destruct (text_compare _ _); [|done|done].
  destruct (Z.compare_spec (zlen a) (zlen b)); symmetry;
    [apply Z.compare_eq_iff|apply Z.compare_lt_iff|apply Z.compare_gt_iff]; lia.
Qed.

Lemma compareStringObjects_run a b :
  robj_ok a → robj_ok b →
  ∃ c, compareStringObjects a b = Some c ∧ (c ?= 0) = text_compare (robj_text a) (robj_text b).
Proof.
  intros Ha Hb. unfold compareStringObjects, compareStringObjectsWithFlags.
  rewrite (astr_ok a), bind_Some_eq by done. cbv beta iota. rewrite (astr_ok b), bind_Some_eq by done.
  change (negb (Z.land REDIS_COMPARE_BINARY REDIS_COMPARE_COLL =? 0)) with false. cbv beta iota zeta.
  pose proof (robj_text_len a Ha) as Hla. pose proof (robj_text_len b Hb) as Hlb.
  revert Hla Hlb. generalize (robj_text a), (robj_text b). clear Ha Hb a b. intros a b Ha Hb.
  set (n := min (length a) (length b)).
  assert ((if zlen a <? zlen b then zlen a else zlen b) = Z.of_nat n) as ->.
  { destruct (zlen a <? zlen b) eqn:E; lia. }
  assert (∀ s : bytes, (n ≤ length s)%nat → rd s 0 (Z.of_nat n) = Some (take n s)) as Hrd.
  { intros s Hs. rewrite <-(take_drop n s) at 1. apply rd_prefix. rewrite length_take. lia. }
  rewrite (Hrd a), bind_Some_eq, (Hrd b), bind_Some_eq by lia. cbv beta.
  rewrite (text_compare_prefix a b n eq_refl).
  pose proof (memcmp_sign (take n a) (take n b)) as Hs. rewrite !length_take in Hs.
  specialize (Hs ltac:(lia)). rewrite <-Hs.
  destruct (Z.eqb_spec (memcmp (take n a) (take n b)) 0) as [->|Hne].
  - eexists. split; [done|]. rewrite s32_len_diff by lia. simpl.
    by rewrite (Z.compare_sub (zlen a)).
  - eexists. split; [done|]. by destruct (Z.compare_spec (memcmp (take n a) (take n b)) 0).
Qed.

Lemma equalStringObjects_run a b :
  robj_ok a → robj_ok b → equalStringObjects a b = Some (bool_decide (robj_text a = robj_text b)).
Proof.
  intros Ha Hb.
  assert ((c ← compareStringObjects a b; Some (c =? 0)) = Some (bool_decide (robj_text a = robj_text b))) as Hc.
  { destruct (compareStringObjects_run a b Ha Hb) as (c & -> & Hc). rewrite bind_Some_eq. f_equal.
    apply eq_bool_prop_intro. rewrite bool_decide_spec, <-text_compare_eq, <-Hc, Z.compare_eq_iff.
    destruct (Z.eqb_spec c 0); simpl; tauto. }
  destruct a as [s|m], b as [t|n]; [exact Hc..|]. unfold equalStringObjects. f_equal.
  apply eq_bool_prop_intro. rewrite bool_decide_spec, robj_text_inj_int.
  destruct (Z.eqb_spec m n); simpl; tauto.
Qed.

(** C15: comparing two string objects, raw or integer encoded in any combination,
    compares the strings they stand for byte by byte and shorter first, never
    reading outside them; [equalStringObjects] decides equality of the strings
    and [stringObjectLen] is their length. *)
Theorem compareStringObjects_correct a b :
  robj_ok a → robj_ok b →
  (∃ c, compareStringObjects a b = Some c ∧ (c ?= 0) = text_compare (robj_text a) (robj_text b)) ∧
  equalStringObjects a b = Some (bool_decide (robj_text a = robj_text b)) ∧
  stringObjectLen a = Some (zlen (robj_text a)).
Proof.
  intros Ha Hb. split; [by apply compareStringObjects_run|]. split; [by apply equalStringObjects_run|].
  destruct a as [s|n]; [done|]. unfold stringObjectLen. pose proof (length_dec_signed n Ha).
  by rewrite ll2string_fits by (rewrite ?length_fresh; simpl; done || lia).
Qed.
End objects.

Lemma compareStringObjects_correct_witness :
  @equalStringObjects poison_allocator diff_string_lib (SdsObj [45; 49; 50]) (IntObj (-12)) = Some true.
Proof.
  pose proof (@compareStringObjects_correct poison_allocator diff_string_lib (SdsObj [45; 49; 50]) (IntObj (-12)))
    as H. destruct H as (_ & H & _); [by vm_compute|by vm_compute|]. exact H.
Defined.

(** ** The interface to sorted sets *)

Class StringObject (O : Type) := {
  obj_compare : O → O → option Z;
  obj_equal : O → O → option bool;
}.

(** Comparison and equality agree with the text of the objects. *)
Class StringObjectLaws (O : Type) `{!StringObject O} := {
  obj_text : O → bytes;
  obj_ok : O → Prop;
  obj_compare_text a b :
    obj_ok a → obj_ok b → ∃ c, obj_compare a b = Some c ∧ (c ?= 0) = text_compare (obj_text a) (obj_text b);
  obj_equal_text a b :
    obj_ok a → obj_ok b → obj_equal a b = Some (bool_decide (obj_text a = obj_text b));
}.

#[export] Instance robj_StringObject `{!Allocator} `{!StringLib} : StringObject robj :=
  {| obj_compare := compareStringObjects; obj_equal := equalStringObjects |}.

#[export] Program Instance robj_StringObjectLaws `{!Allocator} `{!StringLib} : StringObjectLaws robj :=
  {| obj_text := robj_text; obj_ok := robj_ok |}.
Next Obligation. intros. by apply compareStringObjects_run. Qed.
Next Obligation. intros. by apply equalStringObjects_run. Qed.
