(* ===== verification/Skiplist.v ===== *)
(** * Skip lists of sorted sets: [t_zset.c], [redis.h]

    Nodes are linked through a heap; a pointer is a key of it, [NULL] is [None].
    The theorems are in [SkiplistSpec] and [SkiplistOps].  String objects are
    used through the interface of [Object]. *)

From S2P Require Import Prelude Object.

#[local] Open Scope Z_scope.

Definition ZSKIPLIST_MAXLEVEL : Z := 32.

(** ** Scores

    A finite [double] is a multiple of 2^-1074, [Fin n] the one that is [n]
    times as large; both zeros are [Fin 0], which no comparison tells apart. *)
Inductive double :=
  | NaN
  | NegInf
  | Fin (n : Z)
  | PosInf.

#[export] Instance double_eq_dec : EqDecision double.
Proof. solve_decision. Defined.

Definition dcompare (a b : double) : option comparison :=
  match a, b with
  | NaN, _ | _, NaN => None
  | NegInf, NegInf | PosInf, PosInf => Some Eq
  | NegInf, _ | _, PosInf => Some Lt
  | PosInf, _ | _, NegInf => Some Gt
  | Fin m, Fin n => Some (m ?= n)
  end.

Definition isnan (a : double) : bool := if a is NaN then true else false.
Definition dlt (a b : double) : bool := if dcompare a b is Some Lt then true else false.
Definition deq (a b : double) : bool := if dcompare a b is Some Eq then true else false.
Definition dgt (a b : double) : bool := dlt b a.
Definition dle (a b : double) : bool := dlt a b || deq a b.
Definition dge (a b : double) : bool := dle b a.

(** ** Data *)

Record zskiplistLevel := ZLevel { forward : option loc; span : Z }.

Record zskiplistNode (Obj : Type) := ZNode {
  zn_obj : option Obj;
  zn_score : double;
  zn_backward : option loc;
  zn_level : list zskiplistLevel;
}.
Arguments ZNode {Obj} _ _ _ _.
Arguments zn_obj {Obj} _.
Arguments zn_score {Obj} _.
Arguments zn_backward {Obj} _.
Arguments zn_level {Obj} _.

Record zskiplist := ZSkiplist {
  zsl_header : loc;
  zsl_tail : option loc;
  zsl_length : Z;
  zsl_level : Z;
}.

Record zrangespec := ZRangeSpec { rmin : double; rmax : double; minex : bool; maxex : bool }.

(** The nodes of all skip lists, and the objects whose reference was dropped, in order. *)
Record zheap (Obj : Type) := ZHeap { zn : gmap loc (zskiplistNode Obj); released : list Obj }.
Arguments ZHeap {Obj} _ _.
Arguments zn {Obj} _.
Arguments released {Obj} _.

(** What [zslCreateNode] leaves in the fields it does not set. *)
Class FreshNode := {
  fresh_level : nat → zskiplistLevel;
  fresh_backward : option loc;
}.

Definition poison_node : FreshNode :=
  {| fresh_level _ := ZLevel (Some 165%positive) 165; fresh_backward := Some 165%positive |}.

(** [for (i = start; i < start + n; i++) body] *)
Fixpoint for_range {St} (start : Z) (n : nat) (body : Z → St → option St) (s : St) : option St :=
  match n with
  | O => Some s
  | S n => s ← body start s; for_range (start + 1) n body s
  end.

(** An element of a local array; it is undefined to read one before writing it. *)
Definition rdv {A} (l : list (option A)) (i : Z) : option A := mjoin (rd1 l i).

Section ops.
Context {Obj : Type} `{!StringObject Obj} `{!EntryAllocator} `{!FreshNode}.
Implicit Types (h : zheap Obj) (zsl : zskiplist) (x : loc) (score : double) (obj : Obj) (range : zrangespec).

(** ** Memory *)

Definition set_node h x (n : zskiplistNode Obj) : zheap Obj := ZHeap (<[x := n]> (zn h)) (released h).

Definition get_level h x (i : Z) : option zskiplistLevel := n ← zn h !! x; rd1 (zn_level n) i.

Definition set_level h x (i : Z) (f : zskiplistLevel → zskiplistLevel) : option (zheap Obj) :=
  n ← zn h !! x;
  l ← rd1 (zn_level n) i;
  ls ← wr1 (zn_level n) i (f l);
  Some (set_node h x (ZNode (zn_obj n) (zn_score n) (zn_backward n) ls)).

Definition set_forward (p : option loc) (l : zskiplistLevel) := ZLevel p (span l).
Definition set_span (d : Z) (l : zskiplistLevel) := ZLevel (forward l) d.

Definition set_backward h x (p : option loc) : option (zheap Obj) :=
  n ← zn h !! x; Some (set_node h x (ZNode (zn_obj n) (zn_score n) p (zn_level n))).

Definition set_tail zsl (p : option loc) := ZSkiplist (zsl_header zsl) p (zsl_length zsl) (zsl_level zsl).
Definition set_zlevel zsl (l : Z) := ZSkiplist (zsl_header zsl) (zsl_tail zsl) (zsl_length zsl) l.
Definition add_length zsl (n : Z) :=
  ZSkiplist (zsl_header zsl) (zsl_tail zsl) (u64 (zsl_length zsl + n)) (zsl_level zsl).

Definition zslCreateNode h (level : Z) score (obj : option Obj) : loc * zheap Obj :=
  let x := new_entry (dom (zn h)) in
  (x, set_node h x (ZNode obj score fresh_backward (fresh_level <$> seq 0 (Z.to_nat level)))).

(** [decrRefCount] of the null pointer is undefined. *)
Definition zslFreeNode h x : option (zheap Obj) :=
  n ← zn h !! x;
  o ← zn_obj n;
  Some (ZHeap (delete x (zn h)) (released h ++ [o])).

Definition zslCreate h : option (zheap Obj * zskiplist) :=
  let '(header, h) := zslCreateNode h ZSKIPLIST_MAXLEVEL (Fin 0) None in
  h ← for_range 0 (Z.to_nat ZSKIPLIST_MAXLEVEL)
        (λ (j : Z) h, h ← set_level h header j (set_forward None); set_level h header j (set_span 0)) h;
  h ← set_backward h header None;
  Some (h, ZSkiplist header None 0 1).

(** [while(node) { next = node->level[0].forward; zslFreeNode(node); node = next; }] *)
Definition free_body (st : zheap Obj * option loc) : option (zheap Obj * option loc + zheap Obj) :=
  let '(h, node) := st in
  match node with
  | None => Some (inr h)
  | Some x => l ← get_level h x 0; h ← zslFreeNode h x; Some (inl (h, forward l))
  end.

Definition zslFree h zsl : option (zheap Obj) :=
  l ← get_level h (zsl_header zsl) 0;
  let h := ZHeap (delete (zsl_header zsl) (zn h)) (released h) in
  loop (S (Z.to_nat (zsl_length zsl))) free_body (h, forward l).

(** ** Random levels: [ZSKIPLIST_P * 0xFFFF] is 16383.75 *)

Fixpoint random_level (level : Z) (rnd : list Z) : option (Z * list Z) :=
  match rnd with
  | [] => None
  | r :: rnd => if 4 * Z.land r 0xFFFF <? 0xFFFF then random_level (level + 1) rnd else Some (level, rnd)
  end.

Definition zslRandomLevel (rnd : list Z) : option (Z * list Z) :=
  '(level, rnd) ← random_level 1 rnd;
  Some (if level <? ZSKIPLIST_MAXLEVEL then level else ZSKIPLIST_MAXLEVEL, rnd).

(** ** Searching

    Every search has the same shape: on each level, from the highest down, go
    forward while the condition holds for the next node, then do something with
    the node reached.  The spans crossed are summed up in [w]-bit arithmetic
    (a counter the searches that ignore the rank do not have in the source). *)

Definition walk_body h (w : Z) (cond : zskiplistNode Obj → Z → option bool) (i : Z) (st : loc * Z) :
    option (loc * Z + loc * Z) :=
  let '(x, rank) := st in
  l ← get_level h x i;
  match forward l with
  | None => Some (inr (x, rank))
  | Some y =>
    n ← zn h !! y;
    let rank' := wrap w (rank + span l) in
    c ← cond n rank';
    Some (if (c : bool) then inl (y, rank') else inr (x, rank))
  end.

(** [for (i = n-1; i >= 0; i--) { while (...) ...; visit }]; [visit] may return
    from the function with a result. *)
Fixpoint descend {St R : Type} h (fuel : nat) (w : Z) (cond : zskiplistNode Obj → Z → option bool)
    (visit : Z → loc → Z → St → option (St + R)) (n : nat) (x : loc) (rank : Z) (st : St) :
    option (loc * Z * St + R) :=
  match n with
  | O => Some (inl (x, rank, st))
  | S n =>
    '(x, rank) ← loop fuel (walk_body h w cond (Z.of_nat n)) (x, rank);
    r ← visit (Z.of_nat n) x rank st;
    match r with
    | inl st => descend h fuel w cond visit n x rank st
    | inr r => Some (inr r)
    end
  end.

(** From the header; enough fuel for the longest walk. *)
Definition search {St R : Type} h zsl (w : Z) (cond : zskiplistNode Obj → Z → option bool)
    (visit : Z → loc → Z → St → option (St + R)) (st : St) : option (loc * Z * St + R) :=
  descend h (S (Z.to_nat (zsl_length zsl))) w cond visit (Z.to_nat (zsl_level zsl)) (zsl_header zsl) 0 st.

(** Without a result in between. *)
Definition search_all {St : Type} h zsl (w : Z) (cond : zskiplistNode Obj → Z → option bool)
    (visit : Z → loc → Z → St → option St) (st : St) : option (loc * Z * St) :=
  r ← search (R:=Empty_set) h zsl w cond (λ i x rank st, st ← visit i x rank st; Some (inl st)) st;
  match (r : _ + Empty_set) with inl r => Some r | inr e => match e with end end.

(** [update[i] = x;] *)
Definition set_update (i : Z) x (_ : Z) (update : list (option loc)) : option (list (option loc)) :=
  wr1 update i (Some x).

Definition no_update : list (option loc) := replicate (Z.to_nat ZSKIPLIST_MAXLEVEL) None.
Definition no_rank : list (option Z) := replicate (Z.to_nat ZSKIPLIST_MAXLEVEL) None.

(** [forward->score < score || (forward->score == score && compareStringObjects(forward->obj,obj) < 0)] *)
Definition node_before score obj (n : zskiplistNode Obj) : option bool :=
  if dlt (zn_score n) score then Some true
  else if deq (zn_score n) score then
    o ← zn_obj n; c ← obj_compare o obj; Some (c <? 0)
  else Some false.

(** ** Insertion *)

Definition insert_visit (i : Z) x (rank : Z) (st : list (option loc) * list (option Z)) :
    option (list (option loc) * list (option Z)) :=
  let '(update, ranks) := st in
  ranks ← wr1 ranks i (Some rank);
  update ← wr1 update i (Some x);
  Some (update, ranks).

(** The levels the list did not have: the header spans all of it. *)
Definition grow_body zsl (i : Z) (st : zheap Obj * list (option loc) * list (option Z)) :
    option (zheap Obj * list (option loc) * list (option Z)) :=
  let '(h, update, ranks) := st in
  ranks ← wr1 ranks i (Some 0);
  update ← wr1 update i (Some (zsl_header zsl));
  u ← rdv update i;
  h ← set_level h u i (set_span (u32 (zsl_length zsl)));
  Some (h, update, ranks).

Definition insert_body (update : list (option loc)) (ranks : list (option Z)) x (i : Z) h :
    option (zheap Obj) :=
  u ← rdv update i;
  r0 ← rdv ranks 0;
  ri ← rdv ranks i;
  lu ← get_level h u i;
  h ← set_level h x i (set_forward (forward lu));
  h ← set_level h u i (set_forward (Some x));
  lu ← get_level h u i;
  h ← set_level h x i (set_span (u32 (span lu - u32 (r0 - ri))));
  set_level h u i (set_span (u32 (u32 (r0 - ri) + 1))).

Definition widen_body (update : list (option loc)) (i : Z) h : option (zheap Obj) :=
  u ← rdv update i;
  set_level h u i (λ l, set_span (u32 (span l + 1)) l).

(** The new node, of a height up to the level of the list, after those of [update]. *)
Definition insert_node h zsl (level : Z) score obj (update : list (option loc)) (ranks : list (option Z)) :
    option (loc * zheap Obj * zskiplist) :=
  let '(x, h) := zslCreateNode h level score (Some obj) in
  h ← for_range 0 (Z.to_nat level) (insert_body update ranks x) h;
  h ← for_range level (Z.to_nat (zsl_level zsl - level)) (widen_body update) h;
  u0 ← rdv update 0;
  h ← set_backward h x (if bool_decide (u0 = zsl_header zsl) then None else Some u0);
  l0 ← get_level h x 0;
  '(h, zsl) ← (match forward l0 with
               | Some y => h ← set_backward h y (Some x); Some (h, zsl)
               | None => Some (h, set_tail zsl (Some x))
               end);
  Some (x, h, add_length zsl 1).

Definition zslInsert h zsl score obj (rnd : list Z) : option (loc * zheap Obj * zskiplist * list Z) :=
  check negb (isnan score) ;;
  '(_, _, (update, ranks)) ←
    search_all h zsl 32 (λ n _, node_before score obj n) insert_visit (no_update, no_rank);
  '(level, rnd) ← zslRandomLevel rnd;
  '(h, update, ranks, zsl) ←
    (if level >? zsl_level zsl then
       '(h, update, ranks) ←
         for_range (zsl_level zsl) (Z.to_nat (level - zsl_level zsl)) (grow_body zsl) (h, update, ranks);
       Some (h, update, ranks, set_zlevel zsl level)
     else Some (h, update, ranks, zsl));
  '(x, h, zsl) ← insert_node h zsl level score obj update ranks;
  Some (x, h, zsl, rnd).

(** ** Deletion *)

Definition unlink_body (update : list (option loc)) x (i : Z) h : option (zheap Obj) :=
  u ← rdv update i;
  lu ← get_level h u i;
  if bool_decide (forward lu = Some x) then
    lx ← get_level h x i;
    h ← set_level h u i (λ l, set_span (u32 (span l + u32 (span lx - 1))) l);
    lx ← get_level h x i;
    set_level h u i (set_forward (forward lx))
  else set_level h u i (λ l, set_span (u32 (span l - 1)) l).

(** [while(zsl->level > 1 && zsl->header->level[zsl->level-1].forward == NULL) zsl->level--;] *)
Fixpoint shrink_level h (fuel : nat) zsl : option zskiplist :=
  match fuel with
  | O => None
  | S fuel =>
    if zsl_level zsl >? 1 then
      l ← get_level h (zsl_header zsl) (zsl_level zsl - 1);
      match forward l with
      | None => shrink_level h fuel (set_zlevel zsl (zsl_level zsl - 1))
      | Some _ => Some zsl
      end
    else Some zsl
  end.

Definition zslDeleteNode h zsl x (update : list (option loc)) : option (zheap Obj * zskiplist) :=
  h ← for_range 0 (Z.to_nat (zsl_level zsl)) (unlink_body update x) h;
  l0 ← get_level h x 0;
  n ← zn h !! x;
  '(h, zsl) ← (match forward l0 with
               | Some y => h ← set_backward h y (zn_backward n); Some (h, zsl)
               | None => Some (h, set_tail zsl (zn_backward n))
               end);
  zsl ← shrink_level h (S (Z.to_nat (zsl_level zsl))) zsl;
  Some (h, add_length zsl (-1)).

Definition zslDelete h zsl score obj : option (bool * zheap Obj * zskiplist) :=
  '(x, _, update) ← search_all h zsl 64 (λ n _, node_before score obj n) set_update no_update;
  l ← get_level h x 0;
  match forward l with
  | None => Some (false, h, zsl)
  | Some x =>
    n ← zn h !! x;
    eq ← (if deq score (zn_score n) then o ← zn_obj n; obj_equal o obj else Some false);
    if (eq : bool) then
      '(h, zsl) ← zslDeleteNode h zsl x update;
      h ← zslFreeNode h x;
      Some (true, h, zsl)
    else Some (false, h, zsl)
  end.

(** ** Ranges of scores *)

Definition zslValueGteMin (value : double) range : bool :=
  if minex range then dgt value (rmin range) else dge value (rmin range).
Definition zslValueLteMax (value : double) range : bool :=
  if maxex range then dlt value (rmax range) else dle value (rmax range).

(** The shape shared by the ranges of scores and of strings: [empty] is the test
    for ranges that are always empty, [gte] and [lte] those on a node. *)
Definition is_in_range h zsl (empty : option bool) (gte lte : zskiplistNode Obj → option bool) : option bool :=
  e ← empty;
  if (e : bool) then Some false
  else
    match zsl_tail zsl with
    | None => Some false
    | Some x =>
      n ← zn h !! x;
      c ← gte n;
      if negb (c : bool) then Some false
      else
        l ← get_level h (zsl_header zsl) 0;
        match forward l with
        | None => Some false
        | Some x => n ← zn h !! x; lte n
        end
    end.

Definition no_visit (_ : Z) (_ : loc) (_ : Z) (_ : unit) : option unit := Some tt.

(** [redisAssert(x != NULL)] fails when there is no next node. *)
Definition first_in_range h zsl (empty : option bool) (gte lte : zskiplistNode Obj → option bool) :
    option (option loc) :=
  inr ← is_in_range h zsl empty gte lte;
  if negb (inr : bool) then Some None
  else
    '(x, _, _) ← search_all h zsl 64 (λ n _, negb <$> gte n) no_visit tt;
    l ← get_level h x 0;
    x ← forward l;
    n ← zn h !! x;
    c ← lte n;
    Some (if (c : bool) then Some x else None).

Definition last_in_range h zsl (empty : option bool) (gte lte : zskiplistNode Obj → option bool) :
    option (option loc) :=
  inr ← is_in_range h zsl empty gte lte;
  if negb (inr : bool) then Some None
  else
    '(x, _, _) ← search_all h zsl 64 (λ n _, lte n) no_visit tt;
    n ← zn h !! x;
    c ← gte n;
    Some (if (c : bool) then Some x else None).

Definition score_range_empty range : option bool :=
  Some (dgt (rmin range) (rmax range) || (deq (rmin range) (rmax range) && (minex range || maxex range))).
Definition score_gte range (n : zskiplistNode Obj) : option bool := Some (zslValueGteMin (zn_score n) range).
Definition score_lte range (n : zskiplistNode Obj) : option bool := Some (zslValueLteMax (zn_score n) range).

Definition zslIsInRange h zsl range : option bool :=
  is_in_range h zsl (score_range_empty range) (score_gte range) (score_lte range).
Definition zslFirstInRange h zsl range : option (option loc) :=
  first_in_range h zsl (score_range_empty range) (score_gte range) (score_lte range).
Definition zslLastInRange h zsl range : option (option loc) :=
  last_in_range h zsl (score_range_empty range) (score_gte range) (score_lte range).

(** ** Ranks *)

(** [forward->score < score || (forward->score == score && compareStringObjects(forward->obj,o) <= 0)] *)
Definition node_upto score obj (n : zskiplistNode Obj) : option bool :=
  if dlt (zn_score n) score then Some true
  else if deq (zn_score n) score then
    o ← zn_obj n; c ← obj_compare o obj; Some (c <=? 0)
  else Some false.

Definition rank_visit h obj (_ : Z) x (rank : Z) (_ : unit) : option (unit + Z) :=
  n ← zn h !! x;
  match zn_obj n with
  | None => Some (inl tt)
  | Some o => eq ← obj_equal o obj; Some (if (eq : bool) then inr rank else inl tt)
  end.

Definition zslGetRank h zsl score obj : option Z :=
  r ← search h zsl 64 (λ n _, node_upto score obj n) (rank_visit h obj) tt;
  Some (match r with inl _ => 0 | inr rank => rank end).

Definition by_rank_visit (rank : Z) (_ : Z) x (traversed : Z) (_ : unit) : option (unit + loc) :=
  Some (if traversed =? rank then inr x else inl tt).

Definition zslGetElementByRank h zsl (rank : Z) : option (option loc) :=
  r ← search h zsl 64 (λ _ traversed, Some (traversed <=? rank)) (by_rank_visit rank) tt;
  Some (match r with inl _ => None | inr x => Some x end).

(** ** Deleting ranges

    The dictionary of the sorted set is a parameter: its state [D] and its
    [dictDelete]. *)
Section delete_range.
Context {D : Type} (dict_delete : D → Obj → option D).

(** [while (x && cond) { ...; zslDeleteNode; dictDelete; zslFreeNode; removed++; ... }] *)
Definition delete_range_body (update : list (option loc)) (cond : zskiplistNode Obj → Z → option bool)
    (st : zheap Obj * zskiplist * D * option loc * Z * Z) :
    option (zheap Obj * zskiplist * D * option loc * Z * Z + zheap Obj * zskiplist * D * Z) :=
  let '(h, zsl, dict, x, traversed, removed) := st in
  match x with
  | None => Some (inr (h, zsl, dict, removed))
  | Some x =>
    n ← zn h !! x;
    c ← cond n traversed;
    if (c : bool) then
      l ← get_level h x 0;
      let next := forward l in
      '(h, zsl) ← zslDeleteNode h zsl x update;
      o ← zn_obj n;
      dict ← dict_delete dict o;
      h ← zslFreeNode h x;
      Some (inl (h, zsl, dict, next, u64 (traversed + 1), u64 (removed + 1)))
    else Some (inr (h, zsl, dict, removed))
  end.

(** From the node after the one found, whose rank is [traversed]. *)
Definition delete_range h zsl (dict : D) x (update : list (option loc)) (traversed : Z)
    (cond : zskiplistNode Obj → Z → option bool) : option (zheap Obj * zskiplist * D * Z) :=
  l ← get_level h x 0;
  loop (S (S (Z.to_nat (zsl_length zsl)))) (delete_range_body update cond)
    (h, zsl, dict, forward l, u64 (traversed + 1), 0).

Definition zslDeleteRangeByScore h zsl range (dict : D) : option (zheap Obj * zskiplist * D * Z) :=
  '(x, traversed, update) ←
    search_all h zsl 64
      (λ n _, Some (if minex range then dle (zn_score n) (rmin range) else dlt (zn_score n) (rmin range)))
      set_update no_update;
  delete_range h zsl dict x update traversed
    (λ n _, Some (if maxex range then dlt (zn_score n) (rmax range) else dle (zn_score n) (rmax range))).

Definition zslDeleteRangeByRank h zsl (start end_ : Z) (dict : D) : option (zheap Obj * zskiplist * D * Z) :=
  '(x, traversed, update) ←
    search_all h zsl 64 (λ _ traversed, Some (traversed <? start)) set_update no_update;
  delete_range h zsl dict x update traversed (λ _ traversed, Some (traversed <=? end_)).
End delete_range.

(** ** Ranges of strings *)

(** A bound: one of the shared objects of [-] and [+], or an object of its own. *)
Inductive lexobj :=
  | MinString
  | MaxString
  | LexObj (o : Obj).

Record zlexrangespec := ZLexRangeSpec { lmin : lexobj; lmax : lexobj; lminex : bool; lmaxex : bool }.

Definition compareStringObjectsForLexRange (a b : lexobj) : option Z :=
  match a, b with
  | MinString, MinString | MaxString, MaxString => Some 0
  | MinString, _ | _, MaxString => Some (-1)
  | MaxString, _ | _, MinString => Some 1
  | LexObj a, LexObj b => obj_compare a b
  end.

Definition zslLexValueGteMin (value : lexobj) (spec : zlexrangespec) : option bool :=
  c ← compareStringObjectsForLexRange value (lmin spec);
  Some (if lminex spec then c >? 0 else c >=? 0).
Definition zslLexValueLteMax (value : lexobj) (spec : zlexrangespec) : option bool :=
  c ← compareStringObjectsForLexRange value (lmax spec);
  Some (if lmaxex spec then c <? 0 else c <=? 0).

(** [minstring] and [maxstring]: what the shared objects hold. *)
Section lex.
Context (minstring maxstring : Obj).

Definition lex_obj (a : lexobj) : Obj :=
  match a with MinString => minstring | MaxString => maxstring | LexObj o => o end.

Definition lex_range_empty (range : zlexrangespec) : option bool :=
  c ← compareStringObjectsForLexRange (lmin range) (lmax range);
  if c >? 1 then Some true
  else
    c ← obj_compare (lex_obj (lmin range)) (lex_obj (lmax range));
    Some ((c =? 0) && (lminex range || lmaxex range)).

Definition lex_gte (range : zlexrangespec) (n : zskiplistNode Obj) : option bool :=
  o ← zn_obj n; zslLexValueGteMin (LexObj o) range.
Definition lex_lte (range : zlexrangespec) (n : zskiplistNode Obj) : option bool :=
  o ← zn_obj n; zslLexValueLteMax (LexObj o) range.

Definition zslIsInLexRange h zsl (range : zlexrangespec) : option bool :=
  is_in_range h zsl (lex_range_empty range) (lex_gte range) (lex_lte range).
Definition zslFirstInLexRange h zsl (range : zlexrangespec) : option (option loc) :=
  first_in_range h zsl (lex_range_empty range) (lex_gte range) (lex_lte range).
Definition zslLastInLexRange h zsl (range : zlexrangespec) : option (option loc) :=
  last_in_range h zsl (lex_range_empty range) (lex_gte range) (lex_lte range).
End lex.

Definition zslDeleteRangeByLex {D : Type} (dict_delete : D → Obj → option D) h zsl (range : zlexrangespec)
    (dict : D) : option (zheap Obj * zskiplist * D * Z) :=
  '(x, traversed, update) ←
    search_all h zsl 64 (λ n _, negb <$> lex_gte range n) set_update no_update;
  delete_range dict_delete h zsl dict x update traversed (λ n _, lex_lte range n).
End ops.
Arguments MinString {Obj}.
Arguments MaxString {Obj}.
Arguments LexObj {Obj} _.
Arguments ZLexRangeSpec {Obj} _ _ _ _.
Arguments lmin {Obj} _.
Arguments lmax {Obj} _.
Arguments lminex {Obj} _.
Arguments lmaxex {Obj} _.
