(* ===== verification/SkiplistSpec.v ===== *)
(** * The chain of a skip list and searches in it

    [pchain] describes part of the nodes of a skip list by the entries they
    hold, [search_spec] says which node every search of [Skiplist] reaches on
    every level.  The operations are in [SkiplistOps]. *)

From S2P Require Import Prelude Object Skiplist.

#[local] Open Scope Z_scope.

(** ** Entries, and the levels of the node of an entry *)

Record entry (Obj : Type) := Entry { e_loc : loc; e_score : double; e_obj : option Obj; e_height : nat }.
Arguments Entry {Obj} _ _ _ _.
Arguments e_loc {Obj} _.
Arguments e_score {Obj} _.
Arguments e_obj {Obj} _.
Arguments e_height {Obj} _.

Section levels.
Context {Obj : Type}.
Implicit Types (x y u : entry Obj) (P M B : list (entry Obj)) (i : nat).

(** The next node on level [i], and its distance, given the entries that follow;
    the distance to the end when there is none. *)
Fixpoint fwd i B : option loc :=
  match B with [] => None | y :: B => if (i <? e_height y)%nat then Some (e_loc y) else fwd i B end.

Fixpoint spn i B : Z :=
  match B with [] => 0 | y :: B => if (i <? e_height y)%nat then 1 else 1 + spn i B end.

Definition low i B : Prop := Forall (λ y, (e_height y ≤ i)%nat) B.

Lemma low_split i B :
  low i B ∨ ∃ M y B', B = M ++ y :: B' ∧ low i M ∧ (i < e_height y)%nat.
Proof.
  induction B as [|y B IH]; [left; constructor|].
  destruct (decide (i < e_height y)%nat) as [|Hy].
  { right. exists [], y, B. split; [done|]. split; [constructor|done]. }
  destruct IH as [IH|(M & z & B' & -> & HM & Hz)].
  - left. constructor; [lia|done].
  - right. exists (y :: M), z, B'. split; [done|]. split; [constructor; [lia|done]|done].
Qed.

Lemma fwd_low_app i M B : low i M → fwd i (M ++ B) = fwd i B.
Proof.
  induction 1 as [|y M Hy HM IH]; [done|]. simpl. by rewrite (proj2 (Nat.ltb_ge i (e_height y))).
Qed.

Lemma spn_low_app i M B : low i M → spn i (M ++ B) = zlen M + spn i B.
Proof.
  induction 1 as [|y M Hy HM IH]; [done|]. cbn [app spn length].
  rewrite (proj2 (Nat.ltb_ge i (e_height y))) by done. lia.
Qed.

Lemma fwd_low i M : low i M → fwd i M = None.
Proof. intros HM. rewrite <-(app_nil_r M), fwd_low_app; done. Qed.

Lemma spn_low i M : low i M → spn i M = zlen M.
Proof. intros HM. rewrite <-(app_nil_r M), spn_low_app, app_nil_r by done. simpl. lia. Qed.

Lemma fwd_high i y B : (i < e_height y)%nat → fwd i (y :: B) = Some (e_loc y).
Proof. intros Hy. simpl. by rewrite (proj2 (Nat.ltb_lt i (e_height y))). Qed.

Lemma spn_high i y B : (i < e_height y)%nat → spn i (y :: B) = 1.
Proof. intros Hy. simpl. by rewrite (proj2 (Nat.ltb_lt i (e_height y))). Qed.

Lemma spn_bound i B : 0 ≤ spn i B ≤ zlen B.
Proof. induction B as [|y B IH]; cbn [spn length]; [lia|]. destruct (_ <? _)%nat; lia. Qed.

(** What follows a high entry does not matter. *)
Lemma fwd_stop i M u M' B B' :
  (i < e_height u)%nat → fwd i ((M ++ u :: M') ++ B) = fwd i ((M ++ u :: M') ++ B') ∧
                         spn i ((M ++ u :: M') ++ B) = spn i ((M ++ u :: M') ++ B').
Proof.
  intros Hu. induction M as [|y M [IH1 IH2]]; cbn [app fwd spn].
  - by rewrite (proj2 (Nat.ltb_lt i (e_height u))).
  - destruct (_ <? _)%nat; [done|]. by rewrite IH1, IH2.
Qed.

Lemma fwd_elem i B p : fwd i B = Some p → p ∈ e_loc <$> B.
Proof.
  induction B as [|y B IH]; simpl; [done|]. destruct (_ <? _)%nat; [intros [= <-]; left|right; auto].
Qed.

Lemma fwd_spn_low i B : fwd i B = None → low i B.
Proof.
  intros Hf. destruct (low_split i B) as [|(M & y & B' & -> & HM & Hy)]; [done|].
  by rewrite fwd_low_app, fwd_high in Hf.
Qed.

(** Above the level of the list the header points nowhere, with any span. *)
Definition level_of (lvl : nat) (junk : nat → Z) B i : zskiplistLevel :=
  if (i <? lvl)%nat then ZLevel (fwd i B) (spn i B) else ZLevel None (junk i).

Lemma level_of_low lvl junk B i : (i < lvl)%nat → level_of lvl junk B i = ZLevel (fwd i B) (spn i B).
Proof. intros. unfold level_of. by rewrite (proj2 (Nat.ltb_lt i lvl)). Qed.

(** The [backward] pointer of the node after the entries [A], header included:
    it never points to the header. *)
Definition back_of (A : list (entry Obj)) : option loc :=
  match A with [] | [_] => None | _ => e_loc <$> last A end.

(** The entry the highest on level [i] that comes last in [P]. *)
Definition is_top i P (A1 : list (entry Obj)) u (A2 : list (entry Obj)) : Prop :=
  P = A1 ++ u :: A2 ∧ (i < e_height u)%nat ∧ low i A2.

(** Two places in the same list: the same, or one after the other. *)
Lemma split_cases {E} (A1 A2 B1 B2 : list E) (x y : E) :
  A1 ++ x :: A2 = B1 ++ y :: B2 →
  (A1 = B1 ∧ x = y ∧ A2 = B2) ∨
  (∃ M : list E, A2 = M ++ y :: B2 ∧ B1 = A1 ++ x :: M) ∨
  (∃ M : list E, B2 = M ++ x :: A2 ∧ A1 = B1 ++ y :: M).
Proof.
  revert B1. induction A1 as [|a A1 IH]; intros [|b B1]; simpl; intros [= -> H].
  - by left.
  - subst. right. left. by exists B1.
  - subst. right. right. by exists A1.
  - destruct (IH _ H) as [(-> & -> & ->)|[(M & -> & ->)|(M & -> & ->)]]; eauto 10.
Qed.

Lemma top_unique i P A1 u A2 B1 v B2 : is_top i P A1 u A2 → is_top i P B1 v B2 → A1 = B1 ∧ u = v ∧ A2 = B2.
Proof.
  unfold is_top, low. intros (-> & Hu & HA) (Heq & Hv & HB).
  destruct (split_cases _ _ _ _ _ _ Heq) as [|[(M & -> & _)|(M & -> & _)]]; [done|..]; exfalso;
    [apply Forall_app in HA as [_ HA]; apply Forall_cons in HA as [? _]
    |apply Forall_app in HB as [_ HB]; apply Forall_cons in HB as [? _]]; lia.
Qed.
End levels.

(** ** Chains of nodes *)

Section chains.
Context {Obj : Type} `{!StringObject Obj}.
Implicit Types (h : zheap Obj) (x y u : entry Obj) (P A B : list (entry Obj)) (i : nat).
Implicit Types (bk : list (entry Obj) → option loc) (L : list (entry Obj) → nat → zskiplistLevel).

Definition chain_node bk L (A1 : list (entry Obj)) x (A2 : list (entry Obj)) : zskiplistNode Obj :=
  ZNode (e_obj x) (e_score x) (bk A1) (L A2 <$> seq 0 (e_height x)).

(** The nodes of the entries [P]; a node depends on what precedes and follows it. *)
Definition pchain h bk L P : Prop :=
  ∀ A1 x A2, P = A1 ++ x :: A2 → zn h !! e_loc x = Some (chain_node bk L A1 x A2).

Lemma pchain_ext h bk bk' L L' P :
  (∀ A1 x A2, P = A1 ++ x :: A2 → bk A1 = bk' A1) →
  (∀ A1 x A2 i, P = A1 ++ x :: A2 → (i < e_height x)%nat → L A2 i = L' A2 i) →
  pchain h bk L P → pchain h bk' L' P.
Proof.
  intros Hb HL HP A1 x A2 Heq. rewrite (HP A1 x A2 Heq). unfold chain_node. rewrite (Hb A1 x A2 Heq).
  do 2 f_equal. apply list_fmap_ext. intros j k Hk%lookup_seq. apply (HL A1 x); [done|lia].
Qed.

Lemma pchain_app h bk L P B :
  pchain h bk L (P ++ B) ↔
  pchain h bk (λ A2, L (A2 ++ B)) P ∧ pchain h (λ A1, bk (P ++ A1)) L B.
Proof.
  split.
  - intros HP. split.
    + intros A1 x A2 ->. rewrite (HP A1 x (A2 ++ B)); [done|]. by rewrite <-app_assoc.
    + intros A1 x A2 ->. rewrite (HP (P ++ A1) x A2); [done|]. by rewrite app_assoc.
  - intros [HP HB] A1 x A2 Heq.
    apply app_eq_inv in Heq as [(k & -> & Heq)|(k & -> & Heq)].
    + destruct k as [|z k]; simpl in Heq.
      * subst B. rewrite (HB [] x A2 eq_refl). unfold chain_node. by rewrite !app_nil_r.
      * injection Heq as <- ->. by rewrite (HP A1 x k eq_refl).
    + subst B. by rewrite (HB k x A2 eq_refl).
Qed.

Lemma pchain_cons h bk L x B :
  pchain h bk L (x :: B) ↔
  zn h !! e_loc x = Some (chain_node bk L [] x B) ∧ pchain h (λ A1, bk (x :: A1)) L B.
Proof.
  rewrite (pchain_app h bk L [x] B). split; intros [H1 H2]; split; try done.
  - by apply (H1 [] x []).
  - intros A1 z A2 Heq. destruct A1 as [|a A1]; [|by destruct A1].
    injection Heq as <- <-. exact H1.
Qed.

Lemma pchain_frame h h' bk L P :
  (∀ p, p ∈ e_loc <$> P → zn h' !! p = zn h !! p) → pchain h bk L P → pchain h' bk L P.
Proof.
  intros Hf HP A1 x A2 ->. rewrite Hf; [by apply HP|]. rewrite fmap_app. set_solver.
Qed.

Lemma rd1_level (L : nat → zskiplistLevel) (n i : nat) :
  (i < n)%nat → rd1 (L <$> seq 0 n) (Z.of_nat i) = Some (L i).
Proof.
  intros. rewrite rd1_lookup by lia. rewrite Nat2Z.id, list_lookup_fmap, lookup_seq_lt by done. done.
Qed.

Lemma get_level_chain h bk L P A1 x A2 i :
  pchain h bk L P → P = A1 ++ x :: A2 → (i < e_height x)%nat →
  get_level h (e_loc x) (Z.of_nat i) = Some (L A2 i).
Proof.
  intros HP Heq Hi. unfold get_level. rewrite (HP A1 x A2 Heq), bind_Some_eq. by apply rd1_level.
Qed.

(** The functions of the levels after one of them is set; entries that follow
    identify the node. *)
Definition upd_level L (A2 : list (entry Obj)) i (l : zskiplistLevel) :
    list (entry Obj) → nat → zskiplistLevel :=
  λ B j, if decide (length B = length A2 ∧ j = i) then l else L B j.

Lemma set_level_chain h bk L P A1 x A2 i f :
  pchain h bk L P → P = A1 ++ x :: A2 → NoDup (e_loc <$> P) → (i < e_height x)%nat →
  ∃ h', set_level h (e_loc x) (Z.of_nat i) f = Some h' ∧
    pchain h' bk (upd_level L A2 i (f (L A2 i))) P ∧
    released h' = released h ∧ ∀ p, p ≠ e_loc x → zn h' !! p = zn h !! p.
Proof.
  intros HP Heq Hn Hi. unfold set_level. rewrite (HP A1 x A2 Heq), bind_Some_eq. cbn [chain_node zn_level].
  rewrite rd1_level, bind_Some_eq by done.
  rewrite wr1_insert by (rewrite length_fmap, length_seq; lia). rewrite bind_Some_eq.
  eexists. split; [done|]. split; [|split; [done|]].
  - intros B1 y B2 HB. cbn [zn set_node].
    assert ((A1 = B1 ∧ x = y ∧ A2 = B2) ∨ e_loc x ≠ e_loc y ∧ length B2 ≠ length A2) as
      [(<- & <- & <-)|[Hl Hlen]].
    { rewrite Heq in HB. rewrite Heq, fmap_app, fmap_cons in Hn. apply NoDup_app in Hn as (_ & Hd & [Hx _]%NoDup_cons).
      destruct (split_cases _ _ _ _ _ _ HB) as [|[(M & -> & ->)|(M & -> & ->)]];
        [by left|..]; right; rewrite length_app; simpl; (split; [|lia]); intros Hl.
      - apply Hx. rewrite fmap_app, Hl. set_solver.
      - apply (Hd (e_loc y)); [rewrite fmap_app; set_solver|]. rewrite Hl. left. }
    + rewrite lookup_insert_eq. unfold chain_node. do 2 f_equal. rewrite Nat2Z.id. apply list_eq. intros j.
      destruct (decide (j = i)) as [->|Hj].
      * rewrite list_lookup_insert_eq by (rewrite length_fmap, length_seq; lia).
        rewrite list_lookup_fmap, lookup_seq_lt by done. simpl. unfold upd_level.
        by rewrite decide_True.
      * rewrite list_lookup_insert_ne by done. rewrite !list_lookup_fmap.
        destruct (seq 0 (e_height x) !! j) eqn:E; [|done]. simpl.
        apply lookup_seq in E as [-> _]. unfold upd_level. rewrite decide_False by (intros [_ ?]; lia). done.
    + rewrite lookup_insert_ne by done. rewrite (HP B1 y B2 HB). unfold chain_node. do 2 f_equal.
      apply list_fmap_ext. intros j k _. unfold upd_level. rewrite decide_False; [done|]. by intros [].
  - intros p Hp. by apply lookup_insert_ne.
Qed.

(** Setting the [backward] field of the first node of a part. *)
Lemma set_backward_chain h bk L x B p :
  pchain h bk L (x :: B) → e_loc x ∉ e_loc <$> B →
  ∃ h', set_backward h (e_loc x) p = Some h' ∧
    pchain h' (λ A1, match A1 with [] => p | _ => bk A1 end) L (x :: B) ∧
    released h' = released h ∧ ∀ q, q ≠ e_loc x → zn h' !! q = zn h !! q.
Proof.
  intros [Hx HB]%pchain_cons Hn. unfold set_backward. rewrite Hx, bind_Some_eq. eexists. split; [done|].
  split; [|split; [done|]].
  - apply pchain_cons. split; [by cbn; rewrite lookup_insert_eq|].
    apply (pchain_frame h); [|done]. intros q Hq. apply lookup_insert_ne. by intros <-.
  - intros q Hq. by apply lookup_insert_ne.
Qed.

(** ** Searches *)

(** The condition holds for the entries of [pre], after the header [hd], and for
    none of [suf]. *)
Record cond_splits h (cond : zskiplistNode Obj → Z → option bool) (hd : entry Obj)
    (pre suf : list (entry Obj)) : Prop := {
  cs_pre A1 x A2 n : pre = A1 ++ x :: A2 → zn h !! e_loc x = Some n → cond n (zlen A1 + 1) = Some true;
  cs_suf A1 x A2 n : suf = A1 ++ x :: A2 → zn h !! e_loc x = Some n →
    cond n (zlen pre + zlen A1 + 1) = Some false;
}.

Section search.
Context h (lvl : nat) (junk : nat → Z) (w : Z) (cond : zskiplistNode Obj → Z → option bool).
Context (hd : entry Obj) (pre suf : list (entry Obj)).
Context (Hchain : pchain h back_of (level_of lvl junk) (hd :: pre ++ suf)).
Context (Hcond : cond_splits h cond hd pre suf).
Context (Hw : zlen (pre ++ suf) < 2 ^ w).
Context (Hheights : Forall (λ x, (1 ≤ e_height x)%nat) (hd :: pre)).

Lemma walk_run fuel i A1 x A2 :
  (i < lvl)%nat → hd :: pre = A1 ++ x :: A2 → (i < e_height x)%nat → (length A2 < fuel)%nat →
  ∃ B1 y B2, loop fuel (walk_body h w cond (Z.of_nat i)) (e_loc x, zlen A1) = Some (e_loc y, zlen B1) ∧
    is_top i (hd :: pre) B1 y B2.
Proof using Hchain Hcond Hw Hheights.
  intros Hi. revert A1 x A2. induction fuel as [|fuel IH]; intros A1 x A2 Heq Hx Hf; [lia|].
  rewrite loop_S. unfold walk_body at 1.
  assert (hd :: pre ++ suf = A1 ++ x :: A2 ++ suf) as Heq'.
  { change (hd :: pre ++ suf) with ((hd :: pre) ++ suf). by rewrite Heq, <-app_assoc. }
  rewrite (get_level_chain _ _ _ _ _ _ _ _ Hchain Heq' Hx), bind_Some_eq.
  rewrite level_of_low by done. cbn [forward span].
  assert (zlen A1 + zlen A2 = zlen pre) as Hlen.
  { apply (f_equal length) in Heq. rewrite length_app in Heq. simpl in Heq. lia. }
  rewrite length_app in Hw.
  destruct (low_split i A2) as [Hlow|(M & y & A3 & -> & HM & Hy)].
  - (* the next node, if any, is in [suf] *)
    exists A1, x, A2. split; [|done]. rewrite fwd_low_app, spn_low_app by done.
    destruct (low_split i suf) as [Hlow'|(M & y & A3 & Hs & HM & Hy)].
    { by rewrite (fwd_low i suf Hlow'). }
    rewrite Hs, fwd_low_app, fwd_high, spn_low_app, spn_high by done.
    assert (∃ n, zn h !! e_loc y = Some n) as [n Hn].
    { eexists. apply (Hchain (hd :: pre ++ M) y A3). simpl. by rewrite Hs, <-app_assoc. }
    rewrite Hn, bind_Some_eq. cbv beta zeta.
    rewrite wrap_small by (unfold in_u; rewrite Hs, length_app in Hw; simpl in Hw; lia).
    replace (zlen A1 + (zlen A2 + (zlen M + 1))) with (zlen pre + zlen M + 1) by lia.
    by rewrite (cs_suf _ _ _ _ _ Hcond M y A3 n Hs Hn), bind_Some_eq.
  - rewrite <-app_assoc, fwd_low_app, spn_low_app by done.
    change ((y :: A3) ++ suf) with (y :: A3 ++ suf). rewrite fwd_high, spn_high by done.
    assert (hd :: pre = (A1 ++ x :: M) ++ y :: A3) as Heq2 by (by rewrite Heq, <-app_assoc).
    assert (∃ B1, A1 ++ x :: M = hd :: B1 ∧ pre = B1 ++ y :: A3) as (B1 & HB & Hpre).
    { destruct (A1 ++ x :: M) as [|z B1] eqn:E; [by destruct A1|]. injection Heq2 as -> ->. by exists B1. }
    assert (zlen A1 + (zlen M + 1) = zlen B1 + 1) as Hr.
    { apply (f_equal length) in HB. rewrite length_app in HB. simpl in HB. lia. }
    assert (∃ n, zn h !! e_loc y = Some n) as [n Hn].
    { eexists. apply (Hchain (hd :: B1) y (A3 ++ suf)). by rewrite Hpre, <-app_assoc. }
    rewrite Hn, bind_Some_eq. cbv beta zeta. rewrite length_app in Hlen, Hf. simpl in Hlen, Hf.
    rewrite wrap_small by (unfold in_u; lia). rewrite Hr.
    rewrite (cs_pre _ _ _ _ _ Hcond B1 y A3 n Hpre Hn), bind_Some_eq. cbv iota.
    assert (zlen B1 + 1 = zlen (A1 ++ x :: M)) as -> by (rewrite HB; simpl; lia).
    apply (IH (A1 ++ x :: M) y A3); [done|done|lia].
Qed.

Section descend.
Context {St R : Type} (visit : Z → loc → Z → St → option (St + R)).
Context (Inv : nat → St → Prop) (Post : R → Prop).
(** [Inv i]: what holds of the state when the levels from [i] up are done. *)
Context (Hvisit : ∀ i A1 x A2 st, (i < lvl)%nat → is_top i (hd :: pre) A1 x A2 → Inv (S i) st →
  (∃ st', visit (Z.of_nat i) (e_loc x) (zlen A1) st = Some (inl st') ∧ Inv i st') ∨
  (∃ r, visit (Z.of_nat i) (e_loc x) (zlen A1) st = Some (inr r) ∧ Post r)).

Lemma descend_run fuel n A1 x A2 st :
  (n ≤ lvl)%nat → hd :: pre = A1 ++ x :: A2 → (n ≤ e_height x)%nat → (length pre < fuel)%nat → Inv n st →
  (∃ B1 y B2 st', descend h fuel w cond visit n (e_loc x) (zlen A1) st = Some (inl (e_loc y, zlen B1, st')) ∧
     hd :: pre = B1 ++ y :: B2 ∧ ((0 < n)%nat → B2 = []) ∧ Inv 0 st') ∨
  (∃ r, descend h fuel w cond visit n (e_loc x) (zlen A1) st = Some (inr r) ∧ Post r).
Proof using Hchain Hcond Hw Hheights Hvisit.
  revert A1 x A2 st. induction n as [|n IH]; intros A1 x A2 st Hn Heq Hx Hf HI.
  { left. exists A1, x, A2, st. split; [done|]. split; [done|]. split; [lia|done]. }
  cbn [descend].
  assert (length A2 < fuel)%nat as Hf2.
  { apply (f_equal length) in Heq. rewrite length_app in Heq. simpl in Heq. lia. }
  destruct (walk_run fuel n A1 x A2) as (B1 & y & B2 & -> & Htop); [lia|done|lia|done|].
  rewrite bind_Some_eq. destruct (Hvisit n B1 y B2 st) as [(st' & -> & HI')|(r & -> & HP)]; [lia|done|done|..].
  - rewrite bind_Some_eq. destruct Htop as (Heq' & Hy & Hlow).
    destruct (IH B1 y B2 st') as [(C1 & z & C2 & st2 & Hd & HC & Hlast & HI2)|(r & Hd & HP)];
      [lia|done|lia|done|done|..]; rewrite Hd; [left|right; eauto].
    exists C1, z, C2, st2. split; [done|]. split; [done|]. split; [|done]. intros _.
    destruct n as [|n]; [|apply Hlast; lia]. cbn in Hd. injection Hd as Hz Hr _.
    assert (length B1 = length C1) as Hl by lia.
    assert (B1 = C1 ∧ y :: B2 = z :: C2) as [_ [= _ <-]].
    { apply app_inj_1; [done|]. by rewrite <-Heq', <-HC. }
    destruct B2 as [|b B2]; [done|]. apply Forall_cons in Hlow as [Hb _].
    rewrite Heq' in Hheights. apply Forall_app in Hheights as [_ Hh].
    apply Forall_cons in Hh as [_ Hh]. apply Forall_cons in Hh as [? _]. lia.
  - rewrite bind_Some_eq. right. eauto.
Qed.
End descend.
End search.
End chains.
