(* ===== verification/SkiplistOps.v ===== *)
(** * The operations of skip lists keep a sorted list

    [zsl_rep] ties a skip list to the sorted list of its keys; the lemmas
    [_run] say what every operation of [Skiplist] does to that list. *)

From S2P Require Import Prelude Object Skiplist SkiplistSpec.

#[local] Open Scope Z_scope.

(** ** Scores and keys *)

Lemma dcompare_antisym a b : dcompare b a = CompOpp <$> dcompare a b.
Proof. destruct a, b; try done. simpl. by rewrite Z.compare_antisym. Qed.

Lemma dcompare_trans a b c r :
  dcompare a b = Some r → dcompare b c = Some r → dcompare a c = Some r.
Proof.
  destruct a as [| |a|], b as [| |b|], c as [| |c|]; simpl; try congruence.
  intros [= <-] [= H]. f_equal. destruct (Z.compare_spec a b), (Z.compare_spec b c), (Z.compare_spec a c);
    try done; lia.
Qed.

Lemma dcompare_eq_l a b c : dcompare a b = Some Eq → dcompare a c = dcompare b c.
Proof.
  destruct a as [| |a|], b as [| |b|], c as [| |c|]; simpl; try congruence.
  intros [= ->%Z.compare_eq]. done.
Qed.

Lemma dcompare_eq_r a b c : dcompare b c = Some Eq → dcompare a b = dcompare a c.
Proof.
  destruct a as [| |a|], b as [| |b|], c as [| |c|]; simpl; try congruence.
  intros [= ->%Z.compare_eq]. done.
Qed.

Lemma dcompare_total a b : isnan a = false → isnan b = false → is_Some (dcompare a b).
Proof. destruct a, b; simpl; try done; by eexists. Qed.

Lemma dcompare_refl a : isnan a = false → dcompare a a = Some Eq.
Proof. destruct a; try done. simpl. by rewrite Z.compare_refl. Qed.

Section keys.
Context {Obj : Type} `{!StringObject Obj} `{!StringObjectLaws Obj}.

Abbreviation key := (double * Obj)%type.
Implicit Types (a b c : key).

Definition key_ok a : Prop := isnan a.1 = false ∧ obj_ok a.2.

(** By score, then by the text of the object. *)
Definition key_compare a b : comparison :=
  match dcompare a.1 b.1 with
  | Some Eq | None => text_compare (obj_text a.2) (obj_text b.2)
  | Some r => r
  end.

Definition key_lt a b : Prop := key_compare a b = Lt.

Lemma key_compare_antisym a b : key_compare b a = CompOpp (key_compare a b).
Proof.
  unfold key_compare. rewrite dcompare_antisym. destruct (dcompare a.1 b.1) as [[]|]; try done;
    apply text_compare_antisym.
Qed.

Lemma key_lt_trans a b c : key_ok a → key_ok b → key_ok c → key_lt a b → key_lt b c → key_lt a c.
Proof.
  intros [Ha _] [Hb _] [Hc _]. unfold key_lt, key_compare.
  destruct (dcompare_total _ _ Ha Hb) as [r1 E1], (dcompare_total _ _ Hb Hc) as [r2 E2]. rewrite E1, E2.
  destruct r1; [|intros _|done].
  - rewrite (dcompare_eq_l _ _ _ E1), E2. destruct r2; [|done|done]. apply text_compare_trans.
  - destruct r2; [|intros _|done].
    + by rewrite <-(dcompare_eq_r _ _ _ E2), E1.
    + by rewrite (dcompare_trans _ _ _ _ E1 E2).
Qed.

Lemma key_compare_eq_l a b c :
  key_ok a → key_ok b → key_ok c → key_compare a b = Eq → key_compare a c = key_compare b c.
Proof.
  intros [Ha _] [Hb _] [Hc _]. unfold key_compare.
  destruct (dcompare_total _ _ Ha Hb) as [r E]. rewrite E. destruct r; try done.
  rewrite (dcompare_eq_l _ _ _ E). intros ->%text_compare_eq. done.
Qed.
End keys.

(** ** Loops over a range *)

Lemma for_range_run {St} (Inv : nat → St → Prop) (start : Z) (n : nat) (body : Z → St → option St) (s : St) :
  Inv O s →
  (∀ k s, (k < n)%nat → Inv k s → ∃ s', body (start + Z.of_nat k) s = Some s' ∧ Inv (S k) s') →
  ∃ s', for_range start n body s = Some s' ∧ Inv n s'.
Proof.
  revert start s Inv. induction n as [|n IH]; intros start s Inv H0 Hstep; [by exists s|]. cbn [for_range].
  destruct (Hstep O s) as (s1 & Hs1 & HI1); [lia|done|]. rewrite Z.add_0_r in Hs1. rewrite Hs1, bind_Some_eq.
  apply (IH (start + 1) s1 (λ k, Inv (S k))); [done|]. intros k s' Hk HI.
  destruct (Hstep (S k) s') as (s2 & Hs2 & HI2); [lia|done|]. exists s2. split; [|done].
  rewrite <-Hs2. f_equal. lia.
Qed.

(** ** The representation *)

Section rep.
Context {Obj : Type} `{!StringObject Obj} `{!StringObjectLaws Obj}.
Implicit Types (h : zheap Obj) (zsl : zskiplist) (x y u hd : entry Obj) (es P A B pre suf : list (entry Obj)).
Implicit Types (vs : list (double * Obj)) (update : list (option loc)) (ranks : list (option Z)).

Definition entry_is x (v : double * Obj) : Prop := e_score x = v.1 ∧ e_obj x = Some v.2.

(** The number of levels in use. *)
Definition levels zsl : nat := Z.to_nat (zsl_level zsl).

Record zsl_rep h zsl hd es vs : Prop := {
  zr_nodup : NoDup (e_loc <$> hd :: es);
  zr_header : zsl_header zsl = e_loc hd;
  zr_hd : e_height hd = 32%nat ∧ e_obj hd = None;
  zr_chain : ∃ junk, pchain h back_of (level_of (levels zsl) junk) (hd :: es);
  zr_tail : zsl_tail zsl = back_of (hd :: es);
  zr_length : zsl_length zsl = zlen es;
  zr_bound : zlen es < 2 ^ 32;
  zr_level : 1 ≤ zsl_level zsl ≤ 32;
  zr_heights : Forall (λ x, (1 ≤ e_height x ≤ levels zsl)%nat) es;
  zr_tight : zsl_level zsl = 1 ∨ Exists (λ x, e_height x = levels zsl) es;
  zr_keys : Forall2 entry_is es vs;
  zr_ok : Forall key_ok vs;
  zr_sorted : StronglySorted key_lt vs;
}.

(** The rest of the heap. *)
Definition zothers h hd es (p : loc) : option (zskiplistNode Obj) :=
  if decide (p ∈ e_loc <$> hd :: es) then None else zn h !! p.

(** [update] (and [ranks]) after the levels from [i] up: on every level the last
    entry of [P] that is high enough, and its rank. *)
Definition update_ok P (i lvl : nat) update : Prop :=
  length update = 32%nat ∧
  ∀ j, (i ≤ j < lvl)%nat → ∃ A1 u A2, is_top j P A1 u A2 ∧ update !! j = Some (Some (e_loc u)).

Definition ranks_ok P (i lvl : nat) ranks : Prop :=
  length ranks = 32%nat ∧
  ∀ j A1 u A2, (i ≤ j < lvl)%nat → is_top j P A1 u A2 → ranks !! j = Some (Some (zlen A1)).

Lemma set_update_ok P i lvl update A1 u A2 r :
  (i < 32)%nat → is_top i P A1 u A2 → update_ok P (S i) lvl update →
  ∃ update', set_update (Z.of_nat i) (e_loc u) r update = Some update' ∧ update_ok P i lvl update'.
Proof.
  intros Hi Htop [Hl Hu]. unfold set_update. rewrite wr1_insert by lia. eexists. split; [done|].
  split; [by rewrite length_insert|]. intros j Hj. rewrite Nat2Z.id. destruct (decide (j = i)) as [->|Hne].
  - exists A1, u, A2. split; [done|]. apply list_lookup_insert_eq. lia.
  - rewrite list_lookup_insert_ne by done. apply Hu. lia.
Qed.

Lemma set_rank_ok P i lvl ranks A1 u A2 :
  (i < 32)%nat → is_top i P A1 u A2 → ranks_ok P (S i) lvl ranks →
  ∃ ranks', wr1 ranks (Z.of_nat i) (Some (zlen A1)) = Some ranks' ∧ ranks_ok P i lvl ranks'.
Proof.
  intros Hi Htop [Hl Hr]. rewrite wr1_insert by lia. eexists. split; [done|].
  split; [by rewrite length_insert|]. intros j B1 v B2 Hj Hv. rewrite Nat2Z.id.
  destruct (decide (j = i)) as [->|Hne].
  - destruct (top_unique _ _ _ _ _ _ _ _ Htop Hv) as (<- & _). apply list_lookup_insert_eq. lia.
  - rewrite list_lookup_insert_ne by done. eapply Hr; [lia|done].
Qed.

Lemma rdv_lookup {E} (l : list (option E)) (i : nat) (a : E) :
  l !! i = Some (Some a) → rdv l (Z.of_nat i) = Some a.
Proof. intros Hl. unfold rdv. rewrite rd1_lookup, Nat2Z.id, Hl by lia. done. Qed.

Lemma zr_all_heights h zsl hd es vs :
  zsl_rep h zsl hd es vs → Forall (λ x, (1 ≤ e_height x)%nat) (hd :: es).
Proof.
  intros Hrep. constructor; [rewrite (proj1 (zr_hd _ _ _ _ _ Hrep)); lia|].
  eapply Forall_impl; [apply (zr_heights _ _ _ _ _ Hrep)|]. simpl. lia.
Qed.

(** Any search: the node reached is the last one of [hd :: pre]. *)
Lemma search_run {St R} h zsl hd pre suf vs w cond (visit : Z → loc → Z → St → option (St + R))
    (Inv : nat → St → Prop) (Post : R → Prop) st :
  zsl_rep h zsl hd (pre ++ suf) vs → cond_splits h cond hd pre suf → 32 ≤ w →
  Inv (levels zsl) st →
  (∀ i A1 x A2 st, (i < levels zsl)%nat → is_top i (hd :: pre) A1 x A2 → Inv (S i) st →
    (∃ st', visit (Z.of_nat i) (e_loc x) (zlen A1) st = Some (inl st') ∧ Inv i st') ∨
    (∃ r, visit (Z.of_nat i) (e_loc x) (zlen A1) st = Some (inr r) ∧ Post r)) →
  (∃ A1 x st', search h zsl w cond visit st = Some (inl (e_loc x, zlen A1, st')) ∧
     hd :: pre = A1 ++ [x] ∧ Inv O st') ∨
  (∃ r, search h zsl w cond visit st = Some (inr r) ∧ Post r).
Proof.
  intros Hrep Hc Hw HI Hv. destruct (zr_chain _ _ _ _ _ Hrep) as [junk Hch].
  pose proof (zr_all_heights _ _ _ _ _ Hrep) as Hh. pose proof (zr_level _ _ _ _ _ Hrep) as Hlv.
  pose proof (zr_bound _ _ _ _ _ Hrep) as Hb.
  rewrite app_comm_cons in Hh. apply Forall_app in Hh as [Hh _].
  assert (2 ^ 32 ≤ 2 ^ w) by (apply Z.pow_le_mono_r; lia).
  unfold search. rewrite (zr_header _ _ _ _ _ Hrep), (zr_length _ _ _ _ _ Hrep), Nat2Z.id.
  destruct (descend_run h (levels zsl) junk w cond hd pre suf Hch Hc ltac:(lia) Hh visit Inv Post Hv
    (S (length (pre ++ suf))) (levels zsl) [] hd pre st) as [(A1 & x & A2 & st' & Hd & Heq & Hl & HI')|(r & Hd & HP)].
  - done.
  - done.
  - rewrite (proj1 (zr_hd _ _ _ _ _ Hrep)). unfold levels. lia.
  - rewrite length_app. lia.
  - done.
  - left. exists A1, x, st'. rewrite Hl in Heq by (unfold levels; lia). done.
  - right. eauto.
Qed.

Lemma search_all_run {St} h zsl hd pre suf vs w cond (visit : Z → loc → Z → St → option St)
    (Inv : nat → St → Prop) st :
  zsl_rep h zsl hd (pre ++ suf) vs → cond_splits h cond hd pre suf → 32 ≤ w →
  Inv (levels zsl) st →
  (∀ i A1 x A2 st, (i < levels zsl)%nat → is_top i (hd :: pre) A1 x A2 → Inv (S i) st →
    ∃ st', visit (Z.of_nat i) (e_loc x) (zlen A1) st = Some st' ∧ Inv i st') →
  ∃ A1 x st', search_all h zsl w cond visit st = Some (e_loc x, zlen A1, st') ∧
     hd :: pre = A1 ++ [x] ∧ Inv O st'.
Proof.
  intros Hrep Hc Hw HI Hv. unfold search_all.
  destruct (search_run (R:=Empty_set) h zsl hd pre suf vs w cond
    (λ i p rank st, st ← visit i p rank st; Some (inl st)) Inv (λ _, False) st Hrep Hc Hw HI)
    as [(A1 & x & st' & -> & ? & ?)|(r & _ & [])].
  - intros i A1 x A2 st' Hi Htop HI'. left. destruct (Hv i A1 x A2 st' Hi Htop HI') as (st2 & -> & HI2).
    exists st2. done.
  - exists A1, x, st'. done.
Qed.
End rep.

(** ** Linking a node into the chain, and out of it *)

Section relink.
Context {Obj : Type} `{!StringObject Obj} `{!StringObjectLaws Obj}.
Implicit Types (h : zheap Obj) (y u : entry Obj) (A M s : list (entry Obj)) (j k : nat).
(** [e] between the entries [P], header included, and [B]. *)
Context (P B : list (entry Obj)) (e : entry Obj) (lvl : nat) (junk : nat → Z).
Context (Hn : NoDup (e_loc <$> P ++ e :: B)) (Hb : zlen P + zlen B < 2 ^ 32).

(** The levels of the nodes of [P] without [e] and with it. *)
Definition out_level s j : zskiplistLevel := level_of lvl junk (s ++ B) j.
Definition in_level s j : zskiplistLevel := level_of lvl junk (s ++ e :: B) j.

Lemma out_level_top k A1 u A2 :
  (k < lvl)%nat → is_top k P A1 u A2 → out_level A2 k = ZLevel (fwd k B) (zlen A2 + spn k B).
Proof.
  intros Hk (_ & _ & Hlow). unfold out_level. rewrite level_of_low by done.
  by rewrite fwd_low_app, spn_low_app.
Qed.

Lemma in_level_top k A1 u A2 :
  (k < lvl)%nat → is_top k P A1 u A2 →
  in_level A2 k =
  if (k <? e_height e)%nat then ZLevel (Some (e_loc e)) (zlen A2 + 1)
  else ZLevel (fwd k B) (zlen A2 + (1 + spn k B)).
Proof.
  intros Hk (_ & _ & Hlow). unfold in_level. rewrite level_of_low by done.
  rewrite fwd_low_app, spn_low_app by done. cbn [fwd spn]. by destruct (_ <? _)%nat.
Qed.

(** Only the last high entry sees the difference. *)
Lemma in_out_level k A1 u A2 B1 y s :
  is_top k P A1 u A2 → P = B1 ++ y :: s → (k < e_height y)%nat → length s ≠ length A2 →
  in_level s k = out_level s k.
Proof.
  intros (-> & Hu & Hlow) Heq Hy Hlen.
  destruct (split_cases _ _ _ _ _ _ Heq) as [(_ & _ & ->)|[(M & -> & _)|(M & -> & _)]]; [done|..].
  - apply Forall_app in Hlow as [_ Hlow]. apply Forall_cons in Hlow as [? _]. lia.
  - unfold in_level, out_level, level_of.
    destruct (fwd_stop k M u A2 (e :: B) B Hu) as [-> ->]. done.
Qed.

(** The levels below [k] are done: from [L] to [L']. *)
Definition mix (L L' : list (entry Obj) → nat → zskiplistLevel) k s j : zskiplistLevel :=
  if (j <? k)%nat then L' s j else L s j.

Lemma mix_step L L' k A1 u A2 l :
  is_top k P A1 u A2 → l = L' A2 k →
  (∀ B1 y s, P = B1 ++ y :: s → (k < e_height y)%nat → length s ≠ length A2 → L' s k = L s k) →
  ∀ B1 y s j, P = B1 ++ y :: s → (j < e_height y)%nat →
  upd_level (mix L L' k) A2 k l s j = mix L L' (S k) s j.
Proof.
  intros (HP & Hu & _) -> Hsame B1 y s j Heq Hj. unfold upd_level, mix.
  destruct (decide (length s = length A2 ∧ j = k)) as [[Hlen ->]|Hne].
  - rewrite (proj2 (Nat.ltb_lt k (S k))) by lia. rewrite HP in Heq.
    destruct (split_cases _ _ _ _ _ _ Heq) as [(_ & _ & ->)|[(M & -> & _)|(M & -> & _)]];
      [done|rewrite length_app in Hlen; simpl in Hlen; lia..].
  - destruct (decide (j = k)) as [->|Hjk].
    + rewrite (proj2 (Nat.ltb_ge k k)), (proj2 (Nat.ltb_lt k (S k))) by lia.
      symmetry. eapply Hsame; [done|done|tauto].
    + destruct (j <? k)%nat eqn:E1, (j <? S k)%nat eqn:E2; try done; lia.
Qed.

Lemma mix_0 L L' s j : mix L L' 0 s j = L s j.
Proof. done. Qed.

(** *** Into the chain *)

Definition new_levels `{!FreshNode} k (_ : list (entry Obj)) j : zskiplistLevel :=
  if (j <? k)%nat then ZLevel (fwd j B) (spn j B) else fresh_level j.

Record insert_inv `{!FreshNode} h0 (bke : list (entry Obj) → option loc) k h : Prop := {
  ii_chain : pchain h back_of (mix out_level in_level k) P;
  ii_new : pchain h bke (new_levels k) [e];
  ii_released : released h = released h0;
  ii_frame p : p ∉ e_loc <$> P ++ [e] → zn h !! p = zn h0 !! p;
}.

Lemma NoDup_P : NoDup (e_loc <$> P).
Proof using Hn. rewrite fmap_app in Hn. by apply NoDup_app in Hn as (? & _ & _). Qed.

Lemma e_notin_P : e_loc e ∉ e_loc <$> P.
Proof using Hn.
  rewrite fmap_app in Hn. apply NoDup_app in Hn as (_ & Hd & _). intros Hin. apply (Hd _ Hin). left.
Qed.

Lemma notin_P_e (p : loc) : p ∉ e_loc <$> P ++ [e] ↔ p ∉ e_loc <$> P ∧ p ≠ e_loc e.
Proof using. clear. rewrite fmap_app. set_solver. Qed.

Lemma zlen_top k A1 u A2 : is_top k P A1 u A2 → zlen P = zlen A1 + 1 + zlen A2.
Proof. intros (-> & _). rewrite length_app. simpl. lia. Qed.

Section insert.
Context `{!FreshNode} (update : list (option loc)) (ranks : list (option Z)).
Context (P0 : list (entry Obj)) (u0 : entry Obj) (HP0 : P = P0 ++ [u0]) (Hu0 : (0 < e_height u0)%nat).
Context (He : (e_height e ≤ lvl)%nat) (Hupd : update_ok P 0 lvl update) (Hrk : ranks_ok P 0 lvl ranks).

Lemma insert_body_run h0 bke k h :
  (k < e_height e)%nat → insert_inv h0 bke k h →
  ∃ h', insert_body update ranks (e_loc e) (Z.of_nat k) h = Some h' ∧ insert_inv h0 bke (S k) h'.
Proof using All.
  intros Hk [Hc Hnew Hrel Hfr].
  destruct (proj2 Hupd k) as (A1 & u & A2 & Htop & Hu); [lia|].
  pose proof (proj2 Hrk k A1 u A2 ltac:(lia) Htop) as Hrank.
  assert (ranks !! 0%nat = Some (Some (zlen P0))) as Hrank0.
  { apply (proj2 Hrk 0%nat P0 u0 []); [lia|]. split; [done|]. split; [done|constructor]. }
  pose proof (out_level_top k A1 u A2 ltac:(lia) Htop) as Hout.
  pose proof (in_level_top k A1 u A2 ltac:(lia) Htop) as Hin.
  rewrite (proj2 (Nat.ltb_lt _ _) Hk) in Hin.
  pose proof (zlen_top _ _ _ _ Htop) as HlenP.
  assert (zlen P = zlen P0 + 1) as HlenP0 by (rewrite HP0, length_app; simpl; lia).
  pose proof (spn_bound k B) as Hspn. pose proof NoDup_P as HnP. pose proof e_notin_P as HeP.
  destruct Htop as (HP & Hhu & Hlow). pose proof (conj HP (conj Hhu Hlow) : is_top k P A1 u A2) as Htop.
  assert (e_loc u ∈ e_loc <$> P) as HuP by (rewrite HP, fmap_app; set_solver).
  assert (mix out_level in_level k A2 k = out_level A2 k) as Hmk.
  { unfold mix. by rewrite (proj2 (Nat.ltb_ge k k)) by lia. }
  assert (NoDup (e_loc <$> [e])) as Hn1 by apply NoDup_singleton.
  unfold insert_body. rewrite (rdv_lookup _ _ _ Hu), bind_Some_eq.
  change 0 with (Z.of_nat 0). rewrite (rdv_lookup _ _ _ Hrank0), bind_Some_eq.
  rewrite (rdv_lookup _ _ _ Hrank), bind_Some_eq.
  rewrite (get_level_chain _ _ _ _ _ _ _ _ Hc HP Hhu), bind_Some_eq, Hmk, Hout. cbn [forward].
  destruct (set_level_chain _ _ _ _ _ _ _ k (set_forward (fwd k B)) Hnew (eq_refl : [e] = [] ++ e :: []) Hn1 Hk)
    as (h1 & -> & Hnew1 & Hrel1 & Hfr1). rewrite bind_Some_eq.
  assert (pchain h1 back_of (mix out_level in_level k) P) as Hc1.
  { eapply pchain_frame; [|exact Hc]. intros p Hp. apply Hfr1. by intros ->. }
  destruct (set_level_chain _ _ _ _ _ _ _ k (set_forward (Some (e_loc e))) Hc1 HP HnP Hhu)
    as (h2 & -> & Hc2 & Hrel2 & Hfr2). rewrite bind_Some_eq.
  rewrite (get_level_chain _ _ _ _ _ _ _ _ Hc2 HP Hhu), bind_Some_eq.
  assert (pchain h2 bke (upd_level (new_levels k) [] k (set_forward (fwd k B) (new_levels k [] k))) [e]) as Hnew2.
  { eapply pchain_frame; [|exact Hnew1]. intros p Hp. apply Hfr2. intros ->.
    apply list_elem_of_singleton in Hp. by rewrite Hp in HuP. }
  destruct (set_level_chain _ _ _ _ _ _ _ k
    (set_span (u32 (span (upd_level (mix out_level in_level k) A2 k
       (set_forward (Some (e_loc e)) (mix out_level in_level k A2 k)) A2 k) - u32 (zlen P0 - zlen A1))))
    Hnew2 (eq_refl : [e] = [] ++ e :: []) Hn1 Hk) as (h3 & -> & Hnew3 & Hrel3 & Hfr3). rewrite bind_Some_eq.
  assert (pchain h3 back_of (upd_level (mix out_level in_level k) A2 k
    (set_forward (Some (e_loc e)) (mix out_level in_level k A2 k))) P) as Hc3.
  { eapply pchain_frame; [|exact Hc2]. intros p Hp. apply Hfr3. by intros ->. }
  destruct (set_level_chain _ _ _ _ _ _ _ k (set_span (u32 (u32 (zlen P0 - zlen A1) + 1))) Hc3 HP HnP Hhu)
    as (h4 & -> & Hc4 & Hrel4 & Hfr4).
  assert (u32 (zlen P0 - zlen A1) = zlen A2) as Hr by (rewrite wrap_small by rlia; lia).
  exists h4. split; [done|]. constructor.
  - eapply pchain_ext; [done| |exact Hc4]. intros B1 y s j Hs Hj.
    rewrite <-(mix_step out_level in_level k A1 u A2 (in_level A2 k) Htop eq_refl) with (B1 := B1) (y := y);
      [|intros; by eapply in_out_level|done|done].
    unfold upd_level. destruct (decide (length s = length A2 ∧ j = k)) as [Hd|]; [|done].
    rewrite decide_True by done. rewrite Hin, Hr, wrap_small by rlia. done.
  - eapply (pchain_ext h4 bke bke); [done| |eapply (pchain_frame h3); [|exact Hnew3]].
    + intros B1 y s j Hs Hj. destruct B1; [|by destruct B1]. injection Hs as <- <-.
      unfold upd_level, new_levels. rewrite Hr, Hmk, Hout. simpl.
      destruct (decide (0%nat = 0%nat ∧ j = k)) as [[_ ->]|Hjk].
      * rewrite (proj2 (Nat.ltb_lt k (S k))), !decide_True by (done || lia). simpl.
        replace (zlen A2 + spn k B - zlen A2) with (spn k B) by lia. by rewrite wrap_small by rlia.
      * assert (j ≠ k) by tauto.
        destruct (j <? k)%nat eqn:E1, (j <? S k)%nat eqn:E2; try done; lia.
    + intros p Hp. apply Hfr4. intros ->. apply list_elem_of_singleton in Hp. by rewrite Hp in HuP.
  - congruence.
  - intros p [HpP Hpe]%notin_P_e. assert (p ≠ e_loc u) by (by intros ->).
    rewrite Hfr4, Hfr3, Hfr2, Hfr1 by done. apply Hfr. by apply notin_P_e.
Qed.

Lemma widen_body_run h0 bke k h :
  (e_height e ≤ k < lvl)%nat → insert_inv h0 bke k h →
  ∃ h', widen_body update (Z.of_nat k) h = Some h' ∧ insert_inv h0 bke (S k) h'.
Proof using All.
  intros Hk [Hc Hnew Hrel Hfr].
  destruct (proj2 Hupd k) as (A1 & u & A2 & Htop & Hu); [lia|].
  pose proof (out_level_top k A1 u A2 ltac:(lia) Htop) as Hout.
  pose proof (in_level_top k A1 u A2 ltac:(lia) Htop) as Hin.
  rewrite (proj2 (Nat.ltb_ge k (e_height e))) in Hin by lia.
  pose proof (zlen_top _ _ _ _ Htop) as HlenP. pose proof (spn_bound k B) as Hspn.
  destruct Htop as (HP & Hhu & Hlow). pose proof (conj HP (conj Hhu Hlow) : is_top k P A1 u A2) as Htop.
  assert (e_loc u ∈ e_loc <$> P) as HuP by (rewrite HP, fmap_app; set_solver).
  assert (mix out_level in_level k A2 k = out_level A2 k) as Hmk.
  { unfold mix. by rewrite (proj2 (Nat.ltb_ge k k)) by lia. }
  unfold widen_body. rewrite (rdv_lookup _ _ _ Hu), bind_Some_eq.
  destruct (set_level_chain _ _ _ _ _ _ _ k (λ l, set_span (u32 (span l + 1)) l) Hc HP NoDup_P Hhu)
    as (h1 & -> & Hc1 & Hrel1 & Hfr1).
  exists h1. split; [done|]. constructor.
  - eapply pchain_ext; [done| |exact Hc1]. intros B1 y s j Hs Hj.
    apply (mix_step _ _ _ A1 u) with (B1 := B1) (y := y); [done| |intros; by eapply in_out_level|done|done].
    rewrite Hmk, Hout, Hin. unfold set_span. cbn [forward span]. rewrite wrap_small by rlia. f_equal. lia.
  - eapply (pchain_ext h1 bke bke (new_levels k)); [done| |eapply pchain_frame; [|exact Hnew]].
    + intros B1 y s j Hs Hj. destruct B1; [|by destruct B1]. injection Hs as <- <-. unfold new_levels.
      destruct (j <? k)%nat eqn:E1, (j <? S k)%nat eqn:E2; try done; lia.
    + intros p Hp. apply Hfr1. intros ->. apply list_elem_of_singleton in Hp. apply e_notin_P. by rewrite <-Hp.
  - congruence.
  - intros p Hp. rewrite Hfr1; [by apply Hfr|]. apply notin_P_e in Hp as [Hp _]. by intros ->.
Qed.
End insert.

(** *** Out of the chain *)

Record unlink_inv h0 k h : Prop := {
  ui_chain : pchain h back_of (mix in_level out_level k) P;
  ui_released : released h = released h0;
  ui_frame p : p ∉ e_loc <$> P → zn h !! p = zn h0 !! p;
}.

Lemma wrap_add_wrap w a b : wrap w (a + wrap w b) = wrap w (a + b).
Proof. unfold wrap. by rewrite Zplus_mod_idemp_r. Qed.

Lemma unlink_body_run update bke h0 k h :
  update_ok P 0 lvl update →
  pchain h0 bke (λ s j, level_of lvl junk (s ++ B) j) [e] →
  (k < lvl)%nat → unlink_inv h0 k h →
  ∃ h', unlink_body update (e_loc e) (Z.of_nat k) h = Some h' ∧ unlink_inv h0 (S k) h'.
Proof using Hn Hb.
  intros Hupd Hnode Hk [Hc Hrel Hfr].
  destruct (proj2 Hupd k) as (A1 & u & A2 & Htop & Hu); [lia|].
  pose proof (out_level_top k A1 u A2 ltac:(lia) Htop) as Hout.
  pose proof (in_level_top k A1 u A2 ltac:(lia) Htop) as Hin.
  pose proof (zlen_top _ _ _ _ Htop) as HlenP. pose proof (spn_bound k B) as Hspn.
  pose proof NoDup_P as HnP. pose proof e_notin_P as HeP.
  destruct Htop as (HP & Hhu & Hlow). pose proof (conj HP (conj Hhu Hlow) : is_top k P A1 u A2) as Htop.
  assert (e_loc u ∈ e_loc <$> P) as HuP by (rewrite HP, fmap_app; set_solver).
  assert (mix in_level out_level k A2 k = in_level A2 k) as Hmk.
  { unfold mix. by rewrite (proj2 (Nat.ltb_ge k k)) by lia. }
  assert (∀ (h' : zheap Obj) L, (∀ B1 y s j, P = B1 ++ y :: s → (j < e_height y)%nat →
      L s j = upd_level (mix in_level out_level k) A2 k (out_level A2 k) s j) →
    pchain h' back_of L P → released h' = released h → (∀ p, p ≠ e_loc u → zn h' !! p = zn h !! p) →
    unlink_inv h0 (S k) h') as Hend.
  { intros h' L HL Hc' Hrel' Hfr'. constructor; [|congruence|].
    - eapply pchain_ext; [done| |exact Hc']. intros B1 y s j Hs Hj. rewrite (HL B1 y s j Hs Hj).
      apply (mix_step _ _ _ A1 u) with (B1 := B1) (y := y); [done|done| |done|done].
      intros. symmetry. by eapply in_out_level.
    - intros p Hp. rewrite Hfr'; [by apply Hfr|]. by intros ->. }
  unfold unlink_body. rewrite (rdv_lookup _ _ _ Hu), bind_Some_eq.
  rewrite (get_level_chain _ _ _ _ _ _ _ _ Hc HP Hhu), bind_Some_eq, Hmk, Hin.
  destruct (k <? e_height e)%nat eqn:Hke; cbn [forward].
  - apply Nat.ltb_lt in Hke. rewrite bool_decide_eq_true_2 by done.
    assert (∀ h', (∀ p, p ≠ e_loc u → zn h' !! p = zn h !! p) →
      get_level h' (e_loc e) (Z.of_nat k) = Some (ZLevel (fwd k B) (spn k B))) as Hget.
    { intros h' Hfr'. erewrite (get_level_chain h' bke _ [e] [] e []);
        [|eapply pchain_frame; [|exact Hnode]|done|done].
      - simpl. by rewrite level_of_low.
      - intros p ->%list_elem_of_singleton. rewrite Hfr' by (intros Heq; by rewrite Heq in HeP). by apply Hfr. }
    rewrite Hget, bind_Some_eq by done. cbn [span].
    destruct (set_level_chain _ _ _ _ _ _ _ k (λ l, set_span (u32 (span l + u32 (spn k B - 1))) l) Hc HP HnP Hhu)
      as (h1 & -> & Hc1 & Hrel1 & Hfr1). rewrite bind_Some_eq, Hget, bind_Some_eq by done. cbn [forward].
    destruct (set_level_chain _ _ _ _ _ _ _ k (set_forward (fwd k B)) Hc1 HP HnP Hhu)
      as (h2 & -> & Hc2 & Hrel2 & Hfr2). exists h2. split; [done|].
    eapply Hend; [|exact Hc2|congruence|intros p Hp; by rewrite Hfr2, Hfr1].
    intros B1 y s j Hs Hj. unfold upd_level. destruct (decide (length s = length A2 ∧ j = k)); [|done].
    rewrite decide_True by done. rewrite Hmk, Hin, Hout. unfold set_forward, set_span. cbn [span forward].
    rewrite wrap_add_wrap. f_equal. replace (_ + (_ - 1)) with (zlen A2 + spn k B) by lia.
    by rewrite wrap_small by rlia.
  - apply Nat.ltb_ge in Hke. rewrite bool_decide_eq_false_2.
    + destruct (set_level_chain _ _ _ _ _ _ _ k (λ l, set_span (u32 (span l - 1)) l) Hc HP HnP Hhu)
        as (h1 & -> & Hc1 & Hrel1 & Hfr1). exists h1. split; [done|].
      eapply Hend; [|exact Hc1|done|done].
      intros B1 y s j Hs Hj. unfold upd_level. destruct (decide (length s = length A2 ∧ j = k)); [|done].
      rewrite Hmk, Hin, Hout. unfold set_span. cbn [span forward]. f_equal.
      replace (_ - 1) with (zlen A2 + spn k B) by lia. by rewrite wrap_small by rlia.
    + intros Hf%fwd_elem. rewrite fmap_app, fmap_cons in Hn. apply NoDup_app in Hn as (_ & _ & [HeB _]%NoDup_cons).
      done.
Qed.
End relink.

(** ** Insertion *)

Section insertion.
Context {Obj : Type} `{!StringObject Obj} `{!StringObjectLaws Obj} `{!EntryAllocator} `{!FreshNode}.
Implicit Types (h : zheap Obj) (zsl : zskiplist) (x y u hd : entry Obj) (es P B pre suf : list (entry Obj)).

Lemma zslRandomLevel_range rnd level rnd' : zslRandomLevel rnd = Some (level, rnd') → 1 ≤ level ≤ 32.
Proof.
  assert (∀ l, 1 ≤ l → ∀ r, random_level l rnd = Some r → 1 ≤ r.1) as Hr.
  { induction rnd as [|d rnd IH]; intros l Hl r; simpl; [done|].
    destruct (_ <? _); [apply IH; lia|by intros [= <-]]. }
  unfold zslRandomLevel. destruct (random_level 1 rnd) as [[l r]|] eqn:E; [|done].
  rewrite bind_Some_eq. specialize (Hr 1 ltac:(lia) _ E). simpl in Hr. intros [= <- _].
  unfold ZSKIPLIST_MAXLEVEL. destruct (l <? 32) eqn:?; lia.
Qed.

Lemma back_of_app P B : P ≠ [] → B ≠ [] → back_of (P ++ B) = e_loc <$> last B.
Proof.
  intros HP HB. destruct B as [|y B _] using rev_ind; [done|]. rewrite app_assoc.
  destruct P as [|x P]; [done|]. unfold back_of. rewrite !last_snoc. simpl.
  by destruct (P ++ B) as [|z l] eqn:E.
Qed.

(** The levels above those of the list, on the header only. *)
Lemma grow_run h zsl hd pre suf junk update ranks (lvl n : nat) :
  pchain h back_of (level_of lvl junk) (hd :: pre ++ suf) → NoDup (e_loc <$> hd :: pre ++ suf) →
  e_height hd = 32%nat → Forall (λ x, (1 ≤ e_height x ≤ lvl)%nat) (pre ++ suf) →
  zsl_header zsl = e_loc hd → zsl_length zsl = zlen (pre ++ suf) → zlen (pre ++ suf) < 2 ^ 32 →
  update_ok (hd :: pre) 0 lvl update → ranks_ok (hd :: pre) 0 lvl ranks → (lvl + n ≤ 32)%nat →
  ∃ h' update' ranks', for_range (Z.of_nat lvl) n (grow_body zsl) (h, update, ranks) = Some (h', update', ranks') ∧
    pchain h' back_of (level_of (lvl + n) junk) (hd :: pre ++ suf) ∧
    update_ok (hd :: pre) 0 (lvl + n) update' ∧ ranks_ok (hd :: pre) 0 (lvl + n) ranks' ∧
    released h' = released h ∧ ∀ p, p ≠ e_loc hd → zn h' !! p = zn h !! p.
Proof.
  intros Hc Hn Hhd Hh Hzh Hzl Hb Hu Hr Hle.
  destruct (for_range_run (λ k '(h', update', ranks'),
    pchain h' back_of (level_of (lvl + k) junk) (hd :: pre ++ suf) ∧
    update_ok (hd :: pre) 0 (lvl + k) update' ∧ ranks_ok (hd :: pre) 0 (lvl + k) ranks' ∧
    released h' = released h ∧ ∀ p, p ≠ e_loc hd → zn h' !! p = zn h !! p)
    (Z.of_nat lvl) n (grow_body zsl) (h, update, ranks)) as ([[h' update'] ranks'] & Hf & HI).
  - by rewrite Nat.add_0_r.
  - intros k [[h1 u1] r1] Hk (Hc1 & [Hul Hu1] & [Hrl Hr1] & Hrel1 & Hfr1). unfold grow_body.
    rewrite <-Nat2Z.inj_add. rewrite (wr1_insert r1), bind_Some_eq, (wr1_insert u1), bind_Some_eq by lia.
    rewrite Hzh, Nat2Z.id.
    assert (is_top (lvl + k) (hd :: pre) [] hd pre) as Htop.
    { split; [done|]. split; [lia|]. apply Forall_app in Hh as [Hh _].
      eapply Forall_impl; [exact Hh|]. simpl. lia. }
    assert (low (lvl + k) (pre ++ suf)) as Hlow by (eapply Forall_impl; [exact Hh|]; simpl; lia).
    rewrite (rdv_lookup _ _ (e_loc hd)), bind_Some_eq by (apply list_lookup_insert_eq; lia).
    destruct (set_level_chain h1 _ _ _ [] hd (pre ++ suf) (lvl + k) (set_span (u32 (zsl_length zsl)))
      Hc1 eq_refl Hn) as (h2 & -> & Hc2 & Hrel2 & Hfr2); [lia|]. rewrite bind_Some_eq.
    eexists. split; [done|]. split; [|split; [|split; [|split]]].
    + eapply pchain_ext; [done| |exact Hc2]. intros A1 x A2 i Heq Hi. unfold upd_level.
      destruct (decide _) as [[Hlen ->]|Hne].
      * assert (A2 = pre ++ suf) as ->.
        { destruct A1 as [|a A1]; [by injection Heq|]. injection Heq as _ Heq.
          rewrite Heq, length_app in Hlen. simpl in Hlen. lia. }
        rewrite (level_of_low (lvl + S k)) by lia. unfold level_of, set_span.
        rewrite (proj2 (Nat.ltb_ge _ _)) by lia. cbn [forward].
        rewrite fwd_low, spn_low, Hzl, wrap_small by (done || rlia). done.
      * destruct A1 as [|a A1].
        { injection Heq as <- <-. unfold level_of.
          destruct (i <? lvl + k)%nat eqn:E1, (i <? lvl + S k)%nat eqn:E2; try done; try lia.
          }
        injection Heq as <- Heq. rewrite Heq in Hh. apply Forall_app in Hh as [_ Hh].
        apply Forall_cons in Hh as [? _]. rewrite !level_of_low by lia. done.
    + split; [by rewrite length_insert|]. intros j Hj. destruct (decide (j = lvl + k)%nat) as [->|].
      * exists [], hd, pre. split; [done|]. apply list_lookup_insert_eq. lia.
      * rewrite list_lookup_insert_ne by done. apply Hu1. lia.
    + split; [by rewrite length_insert|]. intros j A1 x A2 Hj Hx. destruct (decide (j = lvl + k)%nat) as [->|].
      * destruct (top_unique _ _ _ _ _ _ _ _ Htop Hx) as (<- & _). apply list_lookup_insert_eq. lia.
      * rewrite list_lookup_insert_ne by done. eapply Hr1; [lia|done].
    + congruence.
    + intros p Hp. rewrite Hfr2 by done. by apply Hfr1.
  - exists h', update', ranks'. done.
Qed.

Lemma pchain_fresh h bk L P (p : loc) : pchain h bk L P → zn h !! p = None → p ∉ e_loc <$> P.
Proof.
  intros Hc Hp (x & -> & (A1 & A2 & ->)%list_elem_of_split)%list_elem_of_fmap.
  by rewrite (Hc A1 x A2 eq_refl) in Hp.
Qed.

Lemma back_of_step P e : P ≠ [] → ∀ A : list (entry Obj),
  back_of (P ++ e :: A) = match A with [] => Some (e_loc e) | _ => back_of (P ++ A) end.
Proof.
  intros HP A. rewrite back_of_app by done. destruct A as [|a A]; [done|].
  by rewrite back_of_app.
Qed.

(** The last part of [insert_node]: the [backward] fields and the tail. *)
Lemma link_back h P e B lvl junk bke (tail : option loc) zsl :
  P ≠ [] → (0 < lvl)%nat → Forall (λ x, (1 ≤ e_height x)%nat) (e :: B) → NoDup (e_loc <$> P ++ e :: B) →
  pchain h back_of (in_level B e lvl junk) P →
  pchain h bke (λ _, level_of lvl junk B) [e] →
  pchain h (λ A, back_of (P ++ A)) (level_of lvl junk) B →
  ∃ h', (h ← set_backward h (e_loc e) (back_of (P ++ [e]) ≫= λ _, back_of P);
         l0 ← get_level h (e_loc e) 0;
         match forward l0 with
         | Some y => h ← set_backward h y (Some (e_loc e)); Some (h, zsl)
         | None => Some (h, set_tail zsl (Some (e_loc e)))
         end) = Some (h', if decide (B = []) then set_tail zsl (Some (e_loc e)) else zsl) ∧
    pchain h' back_of (level_of lvl junk) (P ++ e :: B) ∧ released h' = released h ∧
    ∀ p, p ∉ e_loc <$> P ++ e :: B → zn h' !! p = zn h !! p.
Proof.
  intros HP Hlvl Hh Hn HcP He HB.
  rewrite back_of_step by done. rewrite bind_Some_eq.
  rewrite fmap_app, fmap_cons in Hn. apply NoDup_app in Hn as (HnP & Hd & [HeB HnB]%NoDup_cons).
  apply Forall_cons in Hh as [Hhe HhB].
  destruct (set_backward_chain h bke _ e [] (back_of P) He) as (h1 & -> & He1 & Hrel1 & Hfr1); [set_solver|].
  rewrite bind_Some_eq. change 0 with (Z.of_nat 0).
  rewrite (get_level_chain _ _ _ _ [] e [] 0 He1 eq_refl) by lia. rewrite bind_Some_eq, level_of_low by done.
  cbn [forward].
  assert (pchain h1 (λ A, back_of (P ++ A)) (level_of lvl junk) B) as HB1.
  { eapply pchain_frame; [|exact HB]. intros p Hp. apply Hfr1. by intros ->. }
  assert (pchain h1 back_of (in_level B e lvl junk) P) as HP1.
  { eapply pchain_frame; [|exact HcP]. intros p Hp. apply Hfr1. intros ->. apply (Hd _ Hp). left. }
  assert (∀ h2 bk', pchain h2 back_of (in_level B e lvl junk) P →
    pchain h2 (λ A1, match A1 with [] => back_of P | _ => bke A1 end) (λ _, level_of lvl junk B) [e] →
    pchain h2 bk' (level_of lvl junk) B → (∀ A, bk' A = back_of (P ++ e :: A)) →
    pchain h2 back_of (level_of lvl junk) (P ++ e :: B)) as Hend.
  { intros h2 bk' H1 H2 H3 Hbk. apply pchain_app. split; [exact H1|]. apply pchain_cons. split.
    - apply pchain_cons in H2 as [-> _]. unfold chain_node. by rewrite app_nil_r.
    - eapply pchain_ext; [|done|exact H3]. intros. apply Hbk. }
  destruct B as [|y B].
  - rewrite decide_True by done. exists h1. split; [done|]. split; [|split; [done|]].
    + apply (Hend h1 (λ A, back_of (P ++ e :: A))); [done|done| |done]. intros A1 z A2 Hz. by destruct A1.
    + intros p Hp. apply Hfr1. intros ->. apply Hp. rewrite fmap_app. set_solver.
  - rewrite decide_False by done. apply Forall_cons in HhB as [Hy HhB]. rewrite fwd_high by lia.
    apply NoDup_cons in HnB as [HyB HnB].
    destruct (set_backward_chain h1 _ _ y B (Some (e_loc e)) HB1 HyB) as (h2 & -> & HB2 & Hrel2 & Hfr2).
    rewrite bind_Some_eq. exists h2. split; [done|].
    split; [|split; [congruence|]].
    + apply (Hend h2 _) with (3 := HB2).
      * eapply pchain_frame; [|exact HP1]. intros p Hp. apply Hfr2. intros ->. apply (Hd _ Hp). right. left.
      * eapply pchain_frame; [|exact He1]. intros p ->%list_elem_of_singleton. apply Hfr2.
        intros Heq. apply HeB. rewrite Heq. left.
      * intros A. by rewrite back_of_step.
    + intros p Hp. rewrite Hfr2, Hfr1; [done|..]; intros ->; apply Hp; rewrite fmap_app; set_solver.
Qed.

Lemma insert_node_run h zsl hd pre B (lvl : nat) junk level score obj update ranks :
  pchain h back_of (level_of lvl junk) ((hd :: pre) ++ B) → NoDup (e_loc <$> (hd :: pre) ++ B) →
  Forall (λ x, (1 ≤ e_height x)%nat) ((hd :: pre) ++ B) →
  zsl_header zsl = e_loc hd → zsl_level zsl = Z.of_nat lvl → 1 ≤ level ≤ Z.of_nat lvl →
  zlen (hd :: pre) + zlen B < 2 ^ 32 →
  update_ok (hd :: pre) 0 lvl update → ranks_ok (hd :: pre) 0 lvl ranks →
  ∃ (x : loc) h', let e := Entry x score (Some obj) (Z.to_nat level) in
    insert_node h zsl level score obj update ranks =
      Some (x, h', add_length (if decide (B = []) then set_tail zsl (Some x) else zsl) 1) ∧
    pchain h' back_of (level_of lvl junk) ((hd :: pre) ++ e :: B) ∧
    NoDup (e_loc <$> (hd :: pre) ++ e :: B) ∧ zn h !! x = None ∧ released h' = released h ∧
    ∀ p, p ∉ e_loc <$> (hd :: pre) ++ e :: B → zn h' !! p = zn h !! p.
Proof.
  intros Hc Hn Hh Hzh Hzl Hlev Hb Hupd Hrk. unfold insert_node, zslCreateNode.
  set (x := new_entry (dom (zn h))). set (h0 := set_node h x _).
  assert (zn h !! x = None) as Hx by apply not_elem_of_dom, new_entry_fresh.
  exists x. set (e := Entry x score (Some obj) (Z.to_nat level)).
  pose proof (pchain_fresh _ _ _ _ _ Hc Hx) as Hfresh.
  set (P := hd :: pre) in *.
  assert (NoDup (e_loc <$> P ++ e :: B)) as Hn'.
  { rewrite fmap_app in Hfresh, Hn |- *. rewrite fmap_cons. apply NoDup_app in Hn as (HnP & Hd & HnB).
    apply NoDup_app. split; [done|]. split; [|apply NoDup_cons; set_solver].
    intros p Hp [->|?]%elem_of_cons; [set_solver|by eapply Hd]. }
  assert (Forall (λ x, (1 ≤ e_height x)%nat) P) as HhP by by apply Forall_app in Hh as [? _].
  destruct (proj2 Hupd 0%nat) as (P0 & u0 & A2 & (HP0 & Hu0 & Hlow) & Hup0); [lia|].
  assert (A2 = []) as ->.
  { destruct A2 as [|a A2]; [done|]. apply Forall_cons in Hlow as [? _].
    rewrite HP0 in HhP. apply Forall_app in HhP as [_ HhP]. do 2 apply Forall_cons in HhP as [? HhP]. lia. }
  apply pchain_app in Hc as [HcP HcB].
  assert (insert_inv P B e lvl junk h0 (λ _, fresh_backward) 0 h0) as HI0.
  { constructor; [|..|done|done].
    - eapply pchain_frame; [|exact HcP]. intros p Hp. apply lookup_insert_ne. intros <-.
      apply Hfresh. rewrite fmap_app. set_solver.
    - apply pchain_cons. split; [cbn [zn h0 set_node]; by rewrite lookup_insert_eq|].
      by intros [] ? ?. }
  destruct (for_range_run (insert_inv P B e lvl junk h0 (λ _, fresh_backward)) 0 (Z.to_nat level)
    (insert_body update ranks x) h0 HI0) as (h1 & Hf1 & HI1).
  { intros k s Hk HI. rewrite Z.add_0_l.
    apply (insert_body_run P B e lvl junk Hn' Hb update ranks P0 u0 HP0 Hu0); [simpl; lia|done|done|done|done]. }
  rewrite Hf1, bind_Some_eq.
  destruct (for_range_run (λ k, insert_inv P B e lvl junk h0 (λ _, fresh_backward) (Z.to_nat level + k)) level
    (Z.to_nat (zsl_level zsl - level)) (widen_body update) h1) as (h2 & Hf2 & HI2).
  { by rewrite Nat.add_0_r. }
  { intros k s Hk HI. replace (level + Z.of_nat k) with (Z.of_nat (Z.to_nat level + k)) by lia.
    rewrite Nat.add_succ_r.
    apply (widen_body_run P B e lvl junk Hn' Hb update ranks P0 u0 HP0 Hu0); try done; simpl; lia. }
  rewrite Hf2, bind_Some_eq. change 0 with (Z.of_nat 0). rewrite (rdv_lookup _ _ _ Hup0), bind_Some_eq.
  replace (Z.to_nat level + _)%nat with lvl in HI2 by lia. destruct HI2 as [HcP2 He2 Hrel2 Hfr2].
  assert ((if bool_decide (e_loc u0 = zsl_header zsl) then None else Some (e_loc u0)) =
    (back_of (P ++ [e]) ≫= λ _, back_of P)) as ->.
  { rewrite back_of_step, bind_Some_eq, Hzh, HP0 by done. destruct P0 as [|z P0].
    - injection HP0 as -> _. by rewrite bool_decide_eq_true_2.
    - rewrite back_of_app by done. simpl. rewrite bool_decide_eq_false_2; [done|]. injection HP0 as -> Hpre.
      rewrite fmap_app in Hn. apply NoDup_app in Hn as (Hn & _).
      change (NoDup (e_loc <$> (z :: pre))) in Hn. rewrite fmap_cons, Hpre in Hn. apply NoDup_cons in Hn as [Hn _].
      intros Heq. apply Hn. rewrite <-Heq, fmap_app. set_solver. }
  destruct (link_back h2 P e B lvl junk (λ _, fresh_backward) (zsl_tail zsl) zsl) as (h3 & Hl & Hc3 & Hrel3 & Hfr3).
  - done.
  - lia.
  - apply Forall_app in Hh as [_ Hh]. constructor; [simpl; lia|done].
  - done.
  - eapply pchain_ext; [done| |exact HcP2]. intros B1 y A2 i Heq Hi. unfold mix, out_level, in_level, level_of.
    by destruct (i <? lvl)%nat.
  - eapply pchain_ext; [done| |exact He2]. intros B1 y A2 i Heq Hi. unfold new_levels, level_of.
    destruct B1; [|by destruct B1]. injection Heq as <- <-. simpl in Hi.
    by rewrite (proj2 (Nat.ltb_lt i lvl)) by lia.
  - eapply pchain_frame; [|exact HcB]. intros p Hp. rewrite Hfr2.
    + cbn [zn h0 set_node]. apply lookup_insert_ne. intros <-. apply Hfresh. rewrite fmap_app. set_solver.
    + rewrite fmap_app in Hn'. apply NoDup_app in Hn' as (_ & Hd & [HeB _]%NoDup_cons).
      apply (proj2 (notin_P_e P e p)). split; [intros HpP; apply (Hd _ HpP); by right|by intros ->].
  - exists h3. split; [|split; [done|split; [done|split; [done|split; [by rewrite Hrel3, Hrel2|]]]]].
    + change x with (e_loc e). change (Z.of_nat 0) with 0. revert Hl.
      destruct (set_backward h2 (e_loc e) _) as [h2'|]; [rewrite !bind_Some_eq|done].
      destruct (get_level h2' (e_loc e) 0) as [l0|]; [rewrite !bind_Some_eq|done].
      intros ->. by rewrite bind_Some_eq.
    + intros p Hp. rewrite Hfr3 by done. rewrite Hfr2.
      * cbn [zn h0 set_node]. apply lookup_insert_ne. intros <-. apply Hp. rewrite fmap_app. set_solver.
      * apply (proj2 (notin_P_e P e p)). rewrite fmap_app in Hp. set_solver.
Qed.
End insertion.

(** ** Splitting the sorted list *)

Section split.
Context {Obj : Type} `{!StringObject Obj} `{!StringObjectLaws Obj}.
Implicit Types (h : zheap Obj) (zsl : zskiplist) (x y u hd : entry Obj) (es pre suf : list (entry Obj)).
Implicit Types (v w k : double * Obj) (vs vp vq : list (double * Obj)) (b : double * Obj → bool).

(** Holds for an initial part of the list [vs], sorted by key. *)
Definition down_closed vs b : Prop :=
  ∀ v w, v ∈ vs → w ∈ vs → key_ok v → key_ok w → key_lt v w → b w = true → b v = true.

Lemma down_closed_sub vs vs' b : vs ⊆ vs' → down_closed vs' b → down_closed vs b.
Proof. intros Hs Hb v w Hv Hw. apply Hb; by apply Hs. Qed.

Lemma filter_all b vs : Forall (λ v, b v = true) vs → filter (λ v, b v) vs = vs.
Proof.
  induction 1 as [|v vs Hv _ IH]; [done|]. rewrite filter_cons_True by (by rewrite Hv). by rewrite IH.
Qed.

Lemma filter_none b vs : Forall (λ v, b v = false) vs → filter (λ v, b v) vs = [].
Proof. induction 1 as [|v vs Hv _ IH]; [done|]. by rewrite filter_cons_False by (rewrite Hv; exact (λ f, f)). Qed.

Lemma sorted_partition b vs :
  StronglySorted key_lt vs → Forall key_ok vs → down_closed vs b →
  ∃ vp vq, vs = vp ++ vq ∧ Forall (λ v, b v = true) vp ∧ Forall (λ v, b v = false) vq ∧
    filter (λ v, b v) vs = vp ∧ filter (λ v, negb (b v)) vs = vq.
Proof.
  intros Hs Hok Hb. assert (∃ vp vq, vs = vp ++ vq ∧ Forall (λ v, b v = true) vp ∧ Forall (λ v, b v = false) vq)
    as (vp & vq & -> & Hp & Hq).
  { induction Hs as [|v vs Hs IH Hv]; [by exists [], []|]. apply Forall_cons in Hok as [Hv0 Hok].
    destruct (IH Hok) as (vp & vq & -> & Hp & Hq); [eapply down_closed_sub; [|exact Hb]; set_solver|].
    destruct (b v) eqn:E.
    - exists (v :: vp), vq. by repeat constructor.
    - exists [], (v :: vp ++ vq). split; [done|]. split; [constructor|]. constructor; [done|].
      apply Forall_forall. intros w Hw. rewrite Forall_forall in Hv, Hok.
      destruct (b w) eqn:Ew; [|done]. rewrite (Hb v w) in E; [done|left|by right|done|by apply Hok|by apply Hv|done]. }
  exists vp, vq. split; [done|]. split; [done|]. split; [done|]. rewrite !filter_app.
  rewrite (filter_all b vp Hp), (filter_none b vq Hq), app_nil_r. split; [done|].
  rewrite (filter_none (λ v, negb (b v)) vp), (filter_all (λ v, negb (b v)) vq); [done|..];
    (eapply Forall_impl; [eassumption|]); intros v ->; done.
Qed.

(** A test of nodes that computes [b] on their keys. *)
Definition reads (f : zskiplistNode Obj → option bool) b : Prop :=
  ∀ n v, zn_score n = v.1 → zn_obj n = Some v.2 → key_ok v → f n = Some (b v).

Lemma zr_node h zsl hd es vs A1 x A2 n v :
  zsl_rep h zsl hd es vs → es = A1 ++ x :: A2 → zn h !! e_loc x = Some n → entry_is x v →
  zn_score n = v.1 ∧ zn_obj n = Some v.2.
Proof.
  intros Hrep -> Hn [<- <-]. destruct (zr_chain _ _ _ _ _ Hrep) as [junk Hc].
  rewrite (Hc (hd :: A1) x A2 eq_refl) in Hn. by injection Hn as <-.
Qed.

Lemma cond_splits_keys h zsl hd es vs f b :
  zsl_rep h zsl hd es vs → reads f b → down_closed vs b →
  ∃ pre suf vp vq, es = pre ++ suf ∧ vs = vp ++ vq ∧
    Forall2 entry_is pre vp ∧ Forall2 entry_is suf vq ∧ length pre = length vp ∧
    Forall (λ v, b v = true) vp ∧ Forall (λ v, b v = false) vq ∧
    filter (λ v, b v) vs = vp ∧ filter (λ v, negb (b v)) vs = vq ∧
    cond_splits h (λ n _, f n) hd pre suf.
Proof.
  intros Hrep Hf Hb. pose proof (zr_ok _ _ _ _ _ Hrep) as Hok.
  destruct (sorted_partition b vs (zr_sorted _ _ _ _ _ Hrep) Hok Hb) as (vp & vq & -> & Hp & Hq & Hfp & Hfq).
  destruct (proj1 (Forall2_app_inv_r _ _ _ _) (zr_keys _ _ _ _ _ Hrep)) as (pre & suf & H1 & H2 & ->).
  exists pre, suf, vp, vq. apply Forall_app in Hok as [Hokp Hokq].
  do 4 (split; [done|]). split; [by eapply Forall2_length|]. do 4 (split; [done|]). constructor.
  - intros A1 x A2 n -> Hn. apply Forall2_app_inv_l in H1 as (v1 & v2 & _ & Hx & ->).
    apply Forall2_cons_inv_l in Hx as (v & v3 & Hx & _ & ->).
    destruct (zr_node _ _ _ _ _ A1 x (A2 ++ suf) n v Hrep) as [Hs Ho]; [by rewrite <-app_assoc|done|done|].
    apply Forall_app in Hokp as [_ [? _]%Forall_cons]. apply Forall_app in Hp as [_ [Hbv _]%Forall_cons].
    by rewrite (Hf n v Hs Ho), Hbv.
  - intros A1 x A2 n -> Hn. apply Forall2_app_inv_l in H2 as (v1 & v2 & _ & Hx & ->).
    apply Forall2_cons_inv_l in Hx as (v & v3 & Hx & _ & ->).
    destruct (zr_node _ _ _ _ _ (pre ++ A1) x A2 n v Hrep) as [Hs Ho]; [by rewrite <-app_assoc|done|done|].
    apply Forall_app in Hokq as [_ [? _]%Forall_cons]. apply Forall_app in Hq as [_ [Hbv _]%Forall_cons].
    by rewrite (Hf n v Hs Ho), Hbv.
Qed.

(** The comparison of a node with a key. *)
Definition key_before k v : bool := if key_compare v k is Lt then true else false.
Definition key_upto k v : bool := if key_compare v k is Gt then false else true.

Lemma node_before_reads k : key_ok k → reads (node_before k.1 k.2) (key_before k).
Proof.
  intros [Hks Hko] n v Hs Ho [Hvs Hvo]. unfold node_before, key_before, key_compare, dlt, deq. rewrite Hs, Ho.
  destruct (dcompare_total v.1 k.1 Hvs Hks) as [r ->]. destruct r; try done.
  rewrite bind_Some_eq. destruct (obj_compare_text v.2 k.2 Hvo Hko) as (c & -> & <-).
  by rewrite bind_Some_eq.
Qed.

Lemma node_upto_reads k : key_ok k → reads (node_upto k.1 k.2) (key_upto k).
Proof.
  intros [Hks Hko] n v Hs Ho [Hvs Hvo]. unfold node_upto, key_upto, key_compare, dlt, deq. rewrite Hs, Ho.
  destruct (dcompare_total v.1 k.1 Hvs Hks) as [r ->]. destruct r; try done.
  rewrite bind_Some_eq. destruct (obj_compare_text v.2 k.2 Hvo Hko) as (c & -> & <-).
  by rewrite bind_Some_eq.
Qed.

Lemma key_before_down vs k : key_ok k → down_closed vs (key_before k).
Proof.
  intros Hk v w _ _ Hv Hw Hlt. unfold key_before. destruct (key_compare w k) eqn:E; try done. intros _.
  by rewrite (key_lt_trans v w k).
Qed.

Lemma key_upto_down vs k : key_ok k → down_closed vs (key_upto k).
Proof.
  intros Hk v w _ _ Hv Hw Hlt. unfold key_upto. destruct (key_compare w k) eqn:E; try done; intros _.
  - rewrite key_compare_antisym in E. destruct (key_compare k w) eqn:E'; try done.
    rewrite key_compare_antisym, (key_compare_eq_l k w v) by done.
    rewrite (key_compare_antisym v w). by rewrite Hlt.
  - by rewrite (key_lt_trans v w k).
Qed.

Lemma StronglySorted_mid vp vq k :
  StronglySorted key_lt (vp ++ vq) → Forall (λ v, key_lt v k) vp → Forall (key_lt k) vq →
  StronglySorted key_lt (vp ++ k :: vq).
Proof.
  induction vp as [|v vp IH]; simpl; intros Hs Hp Hq; [by constructor|].
  apply StronglySorted_inv in Hs as [Hs Hv]. apply Forall_cons in Hp as [Hvk Hp].
  constructor; [by apply IH|]. apply Forall_app in Hv as [Hv1 Hv2]. apply Forall_app. split; [done|].
  by constructor.
Qed.

Lemma StronglySorted_cut vp vq vm :
  StronglySorted key_lt (vp ++ vm ++ vq) → StronglySorted key_lt (vp ++ vq).
Proof.
  induction vp as [|v vp IH]; simpl.
  - induction vm as [|w vm IH]; [done|]. intros Hs. apply StronglySorted_inv in Hs as [Hs _]. by apply IH.
  - intros [Hs Hv]%StronglySorted_inv. constructor; [by apply IH|].
    apply Forall_app in Hv as [? Hv]. apply Forall_app in Hv as [_ ?]. by apply Forall_app.
Qed.
End split.
