(* ===== verification/SkiplistRep.v ===== *)
(** * Every operation of a skip list, on the sorted list of its keys *)

From S2P Require Import Prelude Object Skiplist SkiplistSpec SkiplistOps.

#[local] Open Scope Z_scope.

Section ops.
Context {Obj : Type} `{!StringObject Obj} `{!StringObjectLaws Obj} `{!EntryAllocator} `{!FreshNode}.
Implicit Types (h : zheap Obj) (zsl : zskiplist) (x y u hd e : entry Obj) (es pre suf : list (entry Obj)).
Implicit Types (v w k : double * Obj) (vs vp vq : list (double * Obj)) (update : list (option loc)).

(** What an operation leaves: the new keys, the objects it released, and the
    rest of the heap as it was. *)
Record zstep h hd es (rel : list Obj) h' zsl' es' vs' : Prop := {
  zst_rep : zsl_rep h' zsl' hd es' vs';
  zst_released : released h' = released h ++ rel;
  zst_others p : zothers h' hd es' p = zothers h hd es p;
}.

Lemma zstep_refl h zsl hd es vs : zsl_rep h zsl hd es vs → zstep h hd es [] h zsl es vs.
Proof. intros. constructor; [done|by rewrite app_nil_r|done]. Qed.

Lemma zstep_trans h hd es r1 h1 zsl1 es1 vs1 r2 h2 zsl2 es2 vs2 :
  zstep h hd es r1 h1 zsl1 es1 vs1 → zstep h1 hd es1 r2 h2 zsl2 es2 vs2 →
  zstep h hd es (r1 ++ r2) h2 zsl2 es2 vs2.
Proof.
  intros [_ Hr1 Ho1] [Hrep Hr2 Ho2]. constructor; [done|by rewrite Hr2, Hr1, <-app_assoc|congruence].
Qed.

(** ** Insertion *)

Definition zs_insert k vs : list (double * Obj) :=
  filter (λ v, key_before k v) vs ++ k :: filter (λ v, negb (key_before k v)) vs.

Lemma no_update_ok (P : list (entry Obj)) lvl : update_ok P lvl lvl no_update.
Proof. split; [done|]. intros. lia. Qed.

Lemma no_rank_ok (P : list (entry Obj)) lvl : ranks_ok P lvl lvl no_rank.
Proof. split; [done|]. intros. lia. Qed.

Lemma insert_search h zsl hd pre suf vs cond :
  zsl_rep h zsl hd (pre ++ suf) vs → cond_splits h cond hd pre suf →
  ∃ (x : loc) r update ranks, search_all h zsl 32 cond insert_visit (no_update, no_rank) = Some (x, r, (update, ranks)) ∧
    update_ok (hd :: pre) 0 (levels zsl) update ∧ ranks_ok (hd :: pre) 0 (levels zsl) ranks.
Proof.
  intros Hrep Hc. pose proof (zr_level _ _ _ _ _ Hrep) as Hlv.
  destruct (search_all_run h zsl hd pre suf vs 32 cond insert_visit
    (λ i '(update, ranks), update_ok (hd :: pre) i (levels zsl) update ∧ ranks_ok (hd :: pre) i (levels zsl) ranks)
    (no_update, no_rank) Hrep Hc ltac:(lia)) as (A1 & x & [update ranks] & Hs & _ & Hu & Hr).
  - split; [apply no_update_ok|apply no_rank_ok].
  - intros i A1 x A2 [update ranks] Hi Htop [Hu Hr]. unfold insert_visit.
    assert (i < 32)%nat as Hi32 by (unfold levels in Hi; lia).
    destruct (set_rank_ok _ _ _ _ _ _ _ Hi32 Htop Hr) as (r' & -> & Hr').
    destruct (set_update_ok _ _ _ _ _ _ _ 0 Hi32 Htop Hu) as (u' & Hu' & Huo).
    unfold set_update in Hu'. rewrite bind_Some_eq, Hu', bind_Some_eq. by eexists.
  - eauto 10.
Qed.

(** The levels in use after growing to a node of [level] levels. *)
Lemma insert_grow h zsl hd pre suf vs level update ranks :
  zsl_rep h zsl hd (pre ++ suf) vs → 1 ≤ level ≤ 32 →
  update_ok (hd :: pre) 0 (levels zsl) update → ranks_ok (hd :: pre) 0 (levels zsl) ranks →
  ∃ h1 update1 ranks1 junk, let lvl := Z.to_nat (Z.max level (zsl_level zsl)) in
    (if level >? zsl_level zsl then
       '(h, update, ranks) ←
         for_range (zsl_level zsl) (Z.to_nat (level - zsl_level zsl)) (grow_body zsl) (h, update, ranks);
       Some (h, update, ranks, set_zlevel zsl level)
     else Some (h, update, ranks, zsl)) = Some (h1, update1, ranks1, set_zlevel zsl (Z.max level (zsl_level zsl))) ∧
    pchain h1 back_of (level_of lvl junk) (hd :: pre ++ suf) ∧
    update_ok (hd :: pre) 0 lvl update1 ∧ ranks_ok (hd :: pre) 0 lvl ranks1 ∧
    released h1 = released h ∧ ∀ p, p ≠ e_loc hd → zn h1 !! p = zn h !! p.
Proof.
  intros Hrep Hlev Hu Hr. destruct (zr_chain _ _ _ _ _ Hrep) as [junk Hc].
  pose proof (zr_level _ _ _ _ _ Hrep) as Hlv.
  destruct (level >? zsl_level zsl) eqn:E.
  - destruct (grow_run h zsl hd pre suf junk update ranks (levels zsl) (Z.to_nat (level - zsl_level zsl)))
      as (h1 & u1 & r1 & Hf & Hc1 & Hu1 & Hr1 & Hrel & Hfr); try apply Hrep; try done.
    + unfold levels. lia.
    + unfold levels in Hf, Hc1, Hu1, Hr1. rewrite Z2Nat.id in Hf by lia.
      replace (Z.to_nat (zsl_level zsl) + _)%nat with (Z.to_nat (Z.max level (zsl_level zsl))) in * by lia.
      exists h1, u1, r1, junk. rewrite Hf, bind_Some_eq. split; [by rewrite Z.max_l by lia|]. done.
  - exists h, update, ranks, junk. rewrite Z.max_r by lia. split; [by destruct zsl|]. done.
Qed.

Lemma zothers_insert h h' hd pre suf e :
  NoDup (e_loc <$> hd :: pre ++ e :: suf) → zn h !! e_loc e = None →
  (∀ p, p ∉ e_loc <$> hd :: pre ++ e :: suf → zn h' !! p = zn h !! p) →
  ∀ p, zothers h' hd (pre ++ e :: suf) p = zothers h hd (pre ++ suf) p.
Proof.
  intros Hn He Hfr p. unfold zothers.
  assert (p ∈ e_loc <$> hd :: pre ++ e :: suf ↔ p = e_loc e ∨ p ∈ e_loc <$> hd :: pre ++ suf) as Hiff.
  { rewrite !fmap_cons, !fmap_app, fmap_cons. set_solver. }
  destruct (decide (p ∈ e_loc <$> hd :: pre ++ e :: suf)) as [Hin|Hin].
  - destruct (decide (p ∈ e_loc <$> hd :: pre ++ suf)) as [|Hni]; [done|].
    apply Hiff in Hin as [->|?]; [by rewrite He|done].
  - rewrite decide_False by tauto. by apply Hfr.
Qed.

Lemma zs_insert_sorted vs k vp vq :
  StronglySorted key_lt vs → vs = vp ++ vq → Forall (λ v, key_compare v k ≠ Eq) vs →
  Forall (λ v, key_before k v = true) vp → Forall (λ v, key_before k v = false) vq →
  StronglySorted key_lt (vp ++ k :: vq).
Proof.
  intros Hs -> Hne Hp Hq. apply Forall_app in Hne as [Hnp Hnq]. apply StronglySorted_mid; [done|..].
  - eapply Forall_impl; [exact Hp|]. intros v. unfold key_before, key_lt. by destruct (key_compare v k).
  - apply Forall_forall. intros v Hv. rewrite Forall_forall in Hq, Hnq. specialize (Hq v Hv).
    specialize (Hnq v Hv). unfold key_before, key_lt in *. rewrite key_compare_antisym.
    by destruct (key_compare v k).
Qed.

Lemma zslInsert_run h zsl hd es vs k rnd level rnd' :
  zsl_rep h zsl hd es vs → key_ok k → Forall (λ v, key_compare v k ≠ Eq) vs → zlen vs + 1 < 2 ^ 32 →
  zslRandomLevel rnd = Some (level, rnd') →
  ∃ (x : loc) h' zsl' es', zslInsert h zsl k.1 k.2 rnd = Some (x, h', zsl', rnd') ∧
    zstep h hd es [] h' zsl' es' (zs_insert k vs) ∧
    ∃ n, zn h' !! x = Some n ∧ zn_score n = k.1 ∧ zn_obj n = Some k.2.
Proof.
  intros Hrep Hk Hne Hb Hrnd. pose proof (zslRandomLevel_range _ _ _ Hrnd) as Hlev.
  destruct (cond_splits_keys h zsl hd es vs _ _ Hrep (node_before_reads k Hk) (key_before_down _ k Hk))
    as (pre & suf & vp & vq & -> & -> & Hkp & Hkq & Hlen & Hbp & Hbq & Hfp & Hfq & Hcs).
  unfold zslInsert. rewrite (proj1 Hk). cbn [negb].
  destruct (insert_search h zsl hd pre suf _ _ Hrep Hcs) as (x0 & r0 & update & ranks & -> & Hu & Hr).
  rewrite bind_Some_eq. cbv beta iota. rewrite Hrnd, bind_Some_eq.
  destruct (insert_grow h zsl hd pre suf _ level update ranks Hrep Hlev Hu Hr)
    as (h1 & u1 & r1 & junk & -> & Hc1 & Hu1 & Hr1 & Hrel1 & Hfr1). rewrite bind_Some_eq.
  set (lvl := Z.max level (zsl_level zsl)) in *. pose proof (zr_level _ _ _ _ _ Hrep) as Hlv.
  pose proof (zr_all_heights _ _ _ _ _ Hrep) as Hh. pose proof (zr_nodup _ _ _ _ _ Hrep) as Hn.
  assert (zlen (vp ++ vq) = zlen (pre ++ suf)) as Hlen2.
  { rewrite !length_app, Hlen. f_equal. f_equal. symmetry. by eapply Forall2_length. }
  destruct (insert_node_run h1 (set_zlevel zsl lvl) hd pre suf (Z.to_nat lvl) junk level k.1 k.2 u1 r1)
    as (x & h2 & -> & Hc2 & Hn2 & Hx & Hrel2 & Hfr2); try done.
  { apply (zr_header _ _ _ _ _ Hrep). }
  { simpl. lia. }
  { lia. }
  { rewrite Hlen2, length_app in Hb. simpl. lia. }
  rewrite bind_Some_eq. set (e := Entry x k.1 (Some k.2) (Z.to_nat level)) in *.
  eexists x, h2, _, (pre ++ e :: suf). split; [done|].
  assert (zn h !! x = None) as Hx0.
  { rewrite <-Hfr1; [done|]. intros ->. destruct (zr_chain _ _ _ _ _ Hrep) as [junk0 Hc0].
    apply pchain_cons in Hc1 as [Hc1 _]. congruence. }
  split; [|exists (chain_node back_of (level_of (Z.to_nat lvl) junk) (hd :: pre) e suf); split; [exact (Hc2 (hd :: pre) e suf eq_refl)|done]].
  constructor; [|by rewrite Hrel2, Hrel1, app_nil_r|].
  2: { apply zothers_insert; [done|done|]. intros p Hp. rewrite Hfr2 by done. apply Hfr1. intros ->.
       apply Hp. left. }
  assert (levels (add_length (if decide (suf = []) then set_tail (set_zlevel zsl lvl) (Some x)
    else set_zlevel zsl lvl) 1) = Z.to_nat lvl) as Hlevels by by destruct (decide (suf = [])).
  constructor.
  - done.
  - destruct (decide (suf = [])); apply (zr_header _ _ _ _ _ Hrep).
  - apply Hrep.
  - exists junk. by rewrite Hlevels.
  - change (hd :: pre ++ e :: suf) with ((hd :: pre) ++ e :: suf). rewrite back_of_app by done.
    destruct (decide (suf = [])) as [->|Hs]; [done|]. simpl. rewrite (zr_tail _ _ _ _ _ Hrep).
    change (hd :: pre ++ suf) with ((hd :: pre) ++ suf). rewrite back_of_app by done. by destruct suf.
  - assert (zlen (pre ++ e :: suf) = zlen (pre ++ suf) + 1) as -> by (rewrite !length_app; simpl; lia).
    rewrite <-(zr_length _ _ _ _ _ Hrep). pose proof (zr_length _ _ _ _ _ Hrep).
    destruct (decide (suf = [])); simpl; apply wrap_small; unfold in_u; lia.
  - rewrite length_app. rewrite Hlen2, length_app in Hb. simpl. lia.
  - destruct (decide (suf = [])); simpl; lia.
  - rewrite Hlevels. pose proof (zr_heights _ _ _ _ _ Hrep) as Hh0. apply Forall_app in Hh0 as [H1 H2].
    apply Forall_app. split; [|constructor]; [|simpl; lia|];
      (eapply Forall_impl; [eassumption|]); unfold levels; simpl; intros z ?; lia.
  - rewrite Hlevels. destruct (decide (level > zsl_level zsl)) as [Hgt|Hle].
    + right. apply Exists_app. right. left. simpl. lia.
    + destruct (zr_tight _ _ _ _ _ Hrep) as [H1|H1].
      * left. destruct (decide (suf = [])); simpl; lia.
      * right. replace (Z.to_nat lvl) with (levels zsl) by (unfold levels; lia).
        rewrite Exists_app in H1 |- *. destruct H1; [by left|right; by right].
  - unfold zs_insert. rewrite Hfp, Hfq. apply Forall2_app; [done|]. by constructor.
  - unfold zs_insert. rewrite Hfp, Hfq. pose proof (zr_ok _ _ _ _ _ Hrep) as Hok.
    apply Forall_app in Hok as [? ?]. apply Forall_app. split; [done|by constructor].
  - unfold zs_insert. rewrite Hfp, Hfq. eapply zs_insert_sorted; [apply Hrep|done..].
Qed.

(** ** Deletion of a node *)

Lemma shrink_run h zsl hd es lvl junk fuel (l : nat) :
  pchain h back_of (level_of lvl junk) (hd :: es) → e_height hd = 32%nat → zsl_header zsl = e_loc hd →
  zsl_level zsl = Z.of_nat l → (1 ≤ l ≤ lvl)%nat → (lvl ≤ 32)%nat → (l ≤ fuel)%nat →
  Forall (λ x, (1 ≤ e_height x ≤ l)%nat) es →
  ∃ l' : nat, shrink_level h fuel zsl = Some (set_zlevel zsl (Z.of_nat l')) ∧ (1 ≤ l' ≤ l)%nat ∧
    Forall (λ x, (1 ≤ e_height x ≤ l')%nat) es ∧ (l' = 1%nat ∨ Exists (λ x, e_height x = l') es).
Proof.
  intros Hc Hhd Hzh Hzl Hl Hlvl Hf Hh. revert zsl l Hzh Hzl Hl Hf Hh.
  induction fuel as [|fuel IH]; intros zsl l Hzh Hzl Hl Hf Hh; [lia|]. cbn [shrink_level].
  destruct (zsl_level zsl >? 1) eqn:E.
  - replace (zsl_level zsl - 1) with (Z.of_nat (l - 1)) by lia. rewrite Hzh.
    rewrite (get_level_chain _ _ _ _ [] hd es (l - 1) Hc eq_refl) by lia.
    rewrite bind_Some_eq, level_of_low by lia. cbn [forward].
    destruct (fwd (l - 1) es) as [p|] eqn:Hfw.
    + exists l. rewrite <-Hzl. split; [by destruct zsl|]. split; [lia|]. split; [done|]. right.
      destruct (low_split (l - 1) es) as [Hlow|(M & y & B & -> & _ & Hy)]; [by rewrite fwd_low in Hfw|].
      apply Exists_app. right. left. apply Forall_app in Hh as [_ [? _]%Forall_cons]. lia.
    + apply fwd_spn_low in Hfw.
      destruct (IH (set_zlevel zsl (Z.of_nat (l - 1))) (l - 1)%nat) as (l' & Hs & ? & ? & ?);
        [done|done|lia|lia| |].
      * unfold low in Hfw. rewrite Forall_forall in Hfw, Hh |- *. intros x Hx.
        specialize (Hfw x Hx). specialize (Hh x Hx). simpl in *. lia.
      * exists l'. rewrite Hs. split; [done|]. split; [lia|]. done.
  - exists l. rewrite <-Hzl. split; [by destruct zsl|]. split; [lia|]. split; [done|]. left. lia.
Qed.

Lemma level_shrink h hd es (lvl l : nat) junk :
  pchain h back_of (level_of lvl junk) (hd :: es) → (l ≤ lvl)%nat →
  Forall (λ x, (1 ≤ e_height x ≤ l)%nat) es →
  ∃ junk', pchain h back_of (level_of l junk') (hd :: es).
Proof.
  intros Hc Hl Hh. exists (λ i, if (i <? lvl)%nat then spn i es else junk i).
  eapply pchain_ext; [done| |exact Hc]. intros A1 x A2 i Heq Hi. unfold level_of.
  destruct (i <? l)%nat eqn:E1; [by rewrite (proj2 (Nat.ltb_lt i lvl)) by lia|].
  destruct A1 as [|a A1]; injection Heq as <-.
  - subst A2. destruct (i <? lvl)%nat; [|done]. rewrite fwd_low; [done|].
    eapply Forall_impl; [exact Hh|]. simpl. intros z ?. lia.
  - subst es. apply Forall_app in Hh as [_ [? _]%Forall_cons]. lia.
Qed.

(** The node after the one taken out, or the tail. *)
Lemma unlink_back h zsl P e suf lvl junk bke :
  P ≠ [] → (0 < lvl)%nat → Forall (λ x, (1 ≤ e_height x)%nat) (e :: suf) → NoDup (e_loc <$> P ++ e :: suf) →
  pchain h back_of (out_level suf lvl junk) P →
  pchain h bke (λ s j, level_of lvl junk (s ++ suf) j) [e] → bke [] = back_of P →
  pchain h (λ A, back_of (P ++ e :: A)) (level_of lvl junk) suf →
  ∃ h', (l0 ← get_level h (e_loc e) 0;
         n ← zn h !! e_loc e;
         match forward l0 with
         | Some y => h ← set_backward h y (zn_backward n); Some (h, zsl)
         | None => Some (h, set_tail zsl (zn_backward n))
         end) = Some (h', if decide (suf = []) then set_tail zsl (back_of P) else zsl) ∧
    pchain h' back_of (level_of lvl junk) (P ++ suf) ∧ released h' = released h ∧
    ∀ p, p ∉ e_loc <$> suf → zn h' !! p = zn h !! p.
Proof.
  intros HP Hlvl Hh Hn HcP He Hbke HB. apply Forall_cons in Hh as [Hhe HhB].
  change 0 with (Z.of_nat 0). rewrite (get_level_chain _ _ _ _ [] e [] 0 He eq_refl) by lia.
  rewrite bind_Some_eq. pose proof He as [-> _]%pchain_cons. rewrite bind_Some_eq.
  cbn [chain_node zn_backward]. rewrite level_of_low by done. simpl ([] ++ suf). cbn [forward]. rewrite Hbke.
  rewrite fmap_app, fmap_cons in Hn. apply NoDup_app in Hn as (HnP & Hd & [HeB HnB]%NoDup_cons).
  destruct suf as [|y B].
  - rewrite decide_True by done. exists h. split; [done|]. split; [|done].
    rewrite app_nil_r. eapply pchain_ext; [done| |exact HcP]. intros. unfold out_level. by rewrite app_nil_r.
  - rewrite decide_False by done. apply Forall_cons in HhB as [Hy HhB]. rewrite fwd_high by lia.
    apply NoDup_cons in HnB as [HyB HnB].
    destruct (set_backward_chain h _ _ y B (back_of P) HB HyB) as (h2 & -> & HB2 & Hrel2 & Hfr2).
    rewrite bind_Some_eq. exists h2. split; [done|]. split; [|split; [done|]].
    + apply pchain_app. split.
      * eapply pchain_frame; [|exact HcP]. intros p Hp. apply Hfr2. intros ->. apply (Hd _ Hp). right. left.
      * eapply pchain_ext; [|done|exact HB2]. intros A1 x A2 Heq. destruct A1 as [|a A1].
        { by rewrite app_nil_r. }
        by rewrite back_of_step.
    + intros p Hp. apply Hfr2. intros ->. apply Hp. left.
Qed.

Lemma unlink_run h zsl hd pre e suf (lvl : nat) junk update :
  pchain h back_of (level_of lvl junk) ((hd :: pre) ++ e :: suf) →
  NoDup (e_loc <$> (hd :: pre) ++ e :: suf) → zlen (hd :: pre) + zlen suf < 2 ^ 32 →
  update_ok (hd :: pre) 0 lvl update →
  ∃ h1, for_range 0 lvl (unlink_body update (e_loc e)) h = Some h1 ∧
    pchain h1 back_of (out_level suf lvl junk) (hd :: pre) ∧ released h1 = released h ∧
    ∀ p, p ∉ e_loc <$> (hd :: pre) → zn h1 !! p = zn h !! p.
Proof.
  intros Hc Hn Hb Hupd. apply pchain_app in Hc as [HcP [He HB]%pchain_cons].
  set (P := hd :: pre) in *.
  assert (pchain h (λ A, back_of (P ++ A)) (λ s j, level_of lvl junk (s ++ suf) j) [e]) as Hnode.
  { apply pchain_cons. split; [by rewrite He|]. intros A1 x A2 Hz. by destruct A1. }
  destruct (for_range_run (unlink_inv P suf e lvl junk h) 0 lvl (unlink_body update (e_loc e)) h)
    as (h1 & -> & [Hc1 Hrel1 Hfr1]).
  - constructor; [exact HcP|done|done].
  - intros k h' Hk HI. rewrite Z.add_0_l.
    by apply (unlink_body_run P suf e lvl junk Hn Hb update (λ A, back_of (P ++ A))).
  - exists h1. split; [done|]. split; [|done]. eapply pchain_ext; [done| |exact Hc1].
    intros A1 x A2 i Heq Hi. unfold mix, in_level, out_level, level_of. by destruct (i <? lvl)%nat.
Qed.

(** The chain and the fields of the list after [zslDeleteNode]. *)
Lemma zslDeleteNode_chain h zsl hd pre e suf vs update :
  zsl_rep h zsl hd (pre ++ e :: suf) vs → update_ok (hd :: pre) 0 (levels zsl) update →
  ∃ h1 (l : nat) junk,
    zslDeleteNode h zsl (e_loc e) update =
      Some (h1, add_length (set_zlevel (if decide (suf = []) then set_tail zsl (back_of (hd :: pre)) else zsl)
                              (Z.of_nat l)) (-1)) ∧
    (1 ≤ l ≤ levels zsl)%nat ∧ Forall (λ x, (1 ≤ e_height x ≤ l)%nat) (pre ++ suf) ∧
    (l = 1%nat ∨ Exists (λ x, e_height x = l) (pre ++ suf)) ∧
    pchain h1 back_of (level_of l junk) (hd :: pre ++ suf) ∧ released h1 = released h ∧
    ∀ p, p ∉ e_loc <$> hd :: pre ++ suf → zn h1 !! p = zn h !! p.
Proof.
  intros Hrep Hupd. destruct (zr_chain _ _ _ _ _ Hrep) as [junk Hc].
  pose proof (zr_level _ _ _ _ _ Hrep) as Hlv. pose proof (zr_nodup _ _ _ _ _ Hrep) as Hn.
  pose proof (zr_heights _ _ _ _ _ Hrep) as Hh. pose proof (zr_bound _ _ _ _ _ Hrep) as Hb.
  rewrite length_app in Hb. simpl in Hb. set (lvl := levels zsl) in *.
  assert (Forall (λ x, (1 ≤ e_height x ≤ lvl)%nat) (pre ++ suf)) as Hh'.
  { apply Forall_app in Hh as [? [_ ?]%Forall_cons]. by apply Forall_app. }
  destruct (unlink_run h zsl hd pre e suf lvl junk update Hc Hn) as (h1 & Hf & Hc1 & Hrel1 & Hfr1);
    [simpl; lia|done|].
  unfold zslDeleteNode. fold lvl. change (Z.to_nat (zsl_level zsl)) with lvl. rewrite Hf, bind_Some_eq.
  apply (pchain_app h back_of _ (hd :: pre) (e :: suf)) in Hc as [_ [He HB]%pchain_cons].
  assert (∀ p, p ∈ e_loc <$> e :: suf → p ∉ e_loc <$> hd :: pre) as Hdis.
  { intros p Hp HpP. change (hd :: pre ++ e :: suf) with ((hd :: pre) ++ e :: suf) in Hn.
    rewrite fmap_app in Hn. apply NoDup_app in Hn as (_ & Hd & _). by apply (Hd p). }
  destruct (unlink_back h1 zsl (hd :: pre) e suf lvl junk (λ A, back_of ((hd :: pre) ++ A)))
    as (h2 & Hl & Hc2 & Hrel2 & Hfr2); try done.
  { unfold lvl, levels. lia. }
  { apply Forall_app in Hh as [_ Hh]. eapply Forall_impl; [exact Hh|]. simpl. lia. }
  { apply pchain_cons. split; [rewrite Hfr1 by (apply Hdis; left); by rewrite He|].
    intros A1 x A2 Hz. by destruct A1. }
  { by rewrite app_nil_r. }
  { eapply pchain_frame; [|exact HB]. intros p Hp. apply Hfr1, Hdis. by right. }
  set (zsl1 := if decide (suf = []) then set_tail zsl (back_of (hd :: pre)) else zsl) in *.
  assert (zsl_level zsl1 = zsl_level zsl ∧ zsl_header zsl1 = zsl_header zsl) as [Hl1 Hh1]
    by (subst zsl1; by destruct (decide (suf = []))).
  destruct (shrink_run h2 zsl1 hd (pre ++ suf) lvl junk (S (Z.to_nat (zsl_level zsl1))) lvl) as
    (l & Hs & Hll & Hhl & Htight); try done.
  { apply Hrep. }
  { rewrite Hh1. apply Hrep. }
  { rewrite Hl1. unfold lvl, levels. lia. }
  { unfold lvl, levels. lia. }
  { unfold lvl, levels. lia. }
  { rewrite Hl1. unfold lvl, levels. lia. }
  destruct (level_shrink h2 hd (pre ++ suf) lvl l junk Hc2 ltac:(lia) Hhl) as [junk' Hc3].
  exists h2, l, junk'. split; [|split; [done|split; [done|split; [done|split; [done|split; [congruence|]]]]]].
  - revert Hl. destruct (get_level h1 (e_loc e) 0) as [l0|]; [rewrite !bind_Some_eq|done].
    destruct (zn h1 !! e_loc e) as [n|]; [rewrite !bind_Some_eq|done].
    intros ->. rewrite bind_Some_eq, Hs, bind_Some_eq. done.
  - intros p Hp. change (hd :: pre ++ suf) with ((hd :: pre) ++ suf) in Hp. rewrite fmap_app in Hp.
    apply not_elem_of_app in Hp as [HpP HpB]. by rewrite Hfr2, Hfr1.
Qed.

(** With the node freed afterwards; [update] stays usable for the next node. *)
Lemma zslDeleteNode_run h zsl hd pre e suf vp v vq update :
  zsl_rep h zsl hd (pre ++ e :: suf) (vp ++ v :: vq) → length pre = length vp →
  update_ok (hd :: pre) 0 (levels zsl) update →
  ∃ h1 zsl1 h2, zslDeleteNode h zsl (e_loc e) update = Some (h1, zsl1) ∧
    zslFreeNode h1 (e_loc e) = Some h2 ∧
    zstep h hd (pre ++ e :: suf) [v.2] h2 zsl1 (pre ++ suf) (vp ++ vq) ∧
    update_ok (hd :: pre) 0 (levels zsl1) update ∧ zsl_length zsl1 = zsl_length zsl - 1.
Proof.
  intros Hrep Hlen Hupd.
  destruct (zslDeleteNode_chain h zsl hd pre e suf _ update Hrep Hupd)
    as (h1 & l & junk & -> & Hl & Hh1 & Htight & Hc1 & Hrel1 & Hfr1).
  pose proof (zr_nodup _ _ _ _ _ Hrep) as Hn. rewrite fmap_cons, fmap_app, fmap_cons in Hn.
  assert (e_loc e ∉ e_loc <$> hd :: pre ++ suf) as He.
  { rewrite fmap_cons, fmap_app. apply NoDup_cons in Hn as [Hhd Hn].
    apply NoDup_app in Hn as (_ & Hd & [Hes _]%NoDup_cons).
    intros [Heq|[Hp|Hs]%elem_of_app]%elem_of_cons; [apply Hhd; rewrite <-Heq; set_solver| |done].
    apply (Hd _ Hp). left. }
  assert (NoDup (e_loc <$> hd :: pre ++ suf)) as Hn'.
  { rewrite fmap_cons, fmap_app. apply NoDup_cons in Hn as [Hhd Hn].
    apply NoDup_app in Hn as (H1 & Hd & [_ H2]%NoDup_cons). apply NoDup_cons. split; [set_solver|].
    apply NoDup_app. split; [done|]. split; [|done]. intros p Hp Hs. apply (Hd p Hp). by right. }
  pose proof (zr_keys _ _ _ _ _ Hrep) as Hk. apply Forall2_app_inv in Hk as [Hkp Hk]; [|done].
  apply Forall2_cons in Hk as [Hev Hkq]. destruct (zr_chain _ _ _ _ _ Hrep) as [junk0 Hc0].
  assert (zn h1 !! e_loc e = zn h !! e_loc e) as Hne by by apply Hfr1.
  rewrite (Hc0 (hd :: pre) e suf eq_refl) in Hne.
  eexists h1, _, _. split; [done|]. unfold zslFreeNode. rewrite Hne, bind_Some_eq. cbn [chain_node zn_obj].
  destruct Hev as [Hes Heo]. rewrite Heo, bind_Some_eq. split; [done|].
  pose proof (zr_level _ _ _ _ _ Hrep) as Hlv. pose proof (zr_length _ _ _ _ _ Hrep) as Hzl.
  pose proof (zr_bound _ _ _ _ _ Hrep) as Hb.
  assert (zlen (pre ++ e :: suf) = zlen (pre ++ suf) + 1) as Hz by (rewrite !length_app; simpl; lia).
  set (zsl1 := add_length _ _).
  assert (levels zsl1 = l) as Hl1 by (unfold levels, zsl1; simpl; lia).
  assert (zsl_length zsl1 = zsl_length zsl - 1) as Hlen1.
  { unfold zsl1. destruct (decide (suf = [])); simpl; rewrite Hzl, Hz; apply wrap_small; unfold in_u; lia. }
  split; [|split; [|done]].
  - constructor.
    + constructor.
      * done.
      * unfold zsl1. destruct (decide (suf = [])); apply Hrep.
      * apply Hrep.
      * exists junk. rewrite Hl1. eapply pchain_frame; [|exact Hc1]. intros p Hp. simpl.
        apply lookup_delete_ne. by intros <-.
      * change (hd :: pre ++ suf) with ((hd :: pre) ++ suf). unfold zsl1.
        cbn [zsl_tail add_length set_zlevel].
        destruct (decide (suf = [])) as [->|Hs]; [by rewrite app_nil_r|]. rewrite (zr_tail _ _ _ _ _ Hrep).
        change (hd :: pre ++ e :: suf) with ((hd :: pre) ++ e :: suf). rewrite !back_of_app by done.
        by destruct suf.
      * lia.
      * lia.
      * unfold zsl1. simpl. unfold levels in *. lia.
      * by rewrite Hl1.
      * rewrite Hl1. unfold zsl1. simpl. destruct Htight as [->|]; [by left|by right].
      * by apply Forall2_app.
      * pose proof (zr_ok _ _ _ _ _ Hrep) as Hok. apply Forall_app in Hok as [? [_ ?]%Forall_cons].
        by apply Forall_app.
      * apply (StronglySorted_cut vp vq [v]). apply Hrep.
    + simpl. by rewrite Hrel1.
    + intros p. unfold zothers. simpl zn.
      assert (p ∈ e_loc <$> hd :: pre ++ e :: suf ↔ p = e_loc e ∨ p ∈ e_loc <$> hd :: pre ++ suf) as Hiff.
      { rewrite !fmap_cons, !fmap_app, fmap_cons. set_solver. }
      destruct (decide (p ∈ e_loc <$> hd :: pre ++ suf)) as [Hin|Hin].
      { rewrite decide_True by tauto. done. }
      destruct (decide (p = e_loc e)) as [->|Hpe].
      { rewrite decide_True by tauto. apply lookup_delete_eq. }
      rewrite decide_False by tauto. rewrite lookup_delete_ne by done. by apply Hfr1.
  - rewrite Hl1. destruct Hupd as [Hul Hu]. split; [done|]. intros j Hj. apply Hu. lia.
Qed.

(** ** Creation and release *)

Lemma zslCreate_run h :
  ∃ h' zsl hd, zslCreate h = Some (h', zsl) ∧ zn h !! e_loc hd = None ∧ zstep h hd [] [] h' zsl [] [] ∧
    ∀ p, p ≠ e_loc hd → zn h' !! p = zn h !! p.
Proof.
  unfold zslCreate, zslCreateNode. set (p := new_entry (dom (zn h))). set (h0 := set_node h p _).
  assert (zn h !! p = None) as Hp by apply not_elem_of_dom, new_entry_fresh.
  set (hd := Entry p (Fin 0) (@None Obj) 32).
  destruct (for_range_run (λ (i : nat) h1,
    pchain h1 (λ _, fresh_backward) (λ _ j, if (j <? i)%nat then ZLevel None 0 else fresh_level j) [hd] ∧
    released h1 = released h ∧ ∀ q, q ≠ p → zn h1 !! q = zn h !! q) 0 32
    (λ j h, h ← set_level h p j (set_forward None); set_level h p j (set_span 0)) h0)
    as (h1 & Hf & Hc1 & Hrel1 & Hfr1).
  - split; [|split; [done|]].
    + apply pchain_cons. split; [apply lookup_insert_eq|]. intros A1 x A2 Hz. by destruct A1.
    + intros q Hq. by apply lookup_insert_ne.
  - intros k h1 Hk (Hc & Hrel & Hfr). rewrite Z.add_0_l.
    assert (NoDup (e_loc <$> [hd])) as Hn by apply NoDup_singleton.
    change p with (e_loc hd).
    destruct (set_level_chain h1 _ _ _ [] hd [] k (set_forward None) Hc eq_refl Hn Hk)
      as (h2 & -> & Hc2 & Hrel2 & Hfr2). rewrite bind_Some_eq.
    destruct (set_level_chain h2 _ _ _ [] hd [] k (set_span 0) Hc2 eq_refl Hn Hk)
      as (h3 & -> & Hc3 & Hrel3 & Hfr3). exists h3. split; [done|]. split; [|split; [congruence|]].
    + eapply pchain_ext; [done| |exact Hc3]. intros A1 x A2 j Heq Hj.
      destruct A1; [|by destruct A1]. injection Heq as <- <-. unfold upd_level. simpl.
      destruct (decide (0%nat = 0%nat ∧ j = k)) as [[_ ->]|Hne].
      * rewrite decide_True by done. rewrite (proj2 (Nat.ltb_lt k (S k))) by lia. done.
      * assert (j ≠ k) by tauto. destruct (j <? k)%nat eqn:E1, (j <? S k)%nat eqn:E2; try done; lia.
    + intros q Hq. rewrite Hfr3, Hfr2 by done. by apply Hfr.
  - change (Z.to_nat ZSKIPLIST_MAXLEVEL) with 32%nat. rewrite Hf, bind_Some_eq.
    destruct (set_backward_chain h1 _ _ hd [] None Hc1) as (h2 & Hb & Hc2 & Hrel2 & Hfr2); [set_solver|].
    change (e_loc hd) with p in Hb, Hfr2. rewrite Hb, bind_Some_eq.
    eexists h2, _, hd. split; [done|]. split; [done|].
    assert (∀ q, q ≠ p → zn h2 !! q = zn h !! q) as Hfr.
    { intros q Hq. rewrite Hfr2 by done. by apply Hfr1. }
    split; [|exact Hfr]. constructor.
    + constructor; simpl; try done; try by constructor.
      * apply NoDup_singleton.
      * exists (λ _, 0). eapply pchain_ext; [| |exact Hc2].
        { intros A1 x A2 Heq. destruct A1; [done|by destruct A1]. }
        intros A1 x A2 j Heq Hj. destruct A1; [|by destruct A1]. injection Heq as <- <-. simpl in Hj.
        rewrite (proj2 (Nat.ltb_lt j 32)) by done. unfold level_of. by destruct (j <? _)%nat.
    + by rewrite app_nil_r, Hrel2, Hrel1.
    + intros q. unfold zothers. destruct (decide (q ∈ e_loc <$> [hd])) as [Hq|Hq]; [|apply Hfr; set_solver].
      done.
Qed.

Lemma fwd_0 suf : Forall (λ x, (1 ≤ e_height x)%nat) suf → fwd 0 suf = e_loc <$> head suf.
Proof. intros [|y B Hy _]; [done|]. by apply fwd_high. Qed.

Lemma free_run h bk L es :
  pchain h bk L es → NoDup (e_loc <$> es) → Forall (λ x, (1 ≤ e_height x)%nat) es →
  (∀ B, L B 0%nat = ZLevel (fwd 0 B) (spn 0 B)) → ∀ vs, Forall2 entry_is es vs →
  ∃ h', loop (S (length es)) free_body (h, fwd 0 es) = Some h' ∧
    (∀ p, zn h' !! p = if decide (p ∈ e_loc <$> es) then None else zn h !! p) ∧
    released h' = released h ++ vs.*2.
Proof.
  revert h bk. induction es as [|x es IH]; intros h bk Hc Hn Hh HL vs Hk.
  { apply Forall2_nil_inv_l in Hk as ->. exists h. split; [done|]. split; [done|by rewrite app_nil_r]. }
  apply Forall2_cons_inv_l in Hk as ([s o] & vs' & [_ Ho] & Hk & ->). simpl in Ho.
  rewrite fmap_cons in Hn. apply NoDup_cons in Hn as [Hx Hn]. apply Forall_cons in Hh as [Hhx Hh].
  rewrite loop_S. unfold free_body at 1. rewrite fwd_high by lia.
  change 0 with (Z.of_nat 0). rewrite (get_level_chain _ _ _ _ [] x es 0 Hc eq_refl) by lia.
  rewrite bind_Some_eq. unfold zslFreeNode. rewrite (Hc [] x es eq_refl), bind_Some_eq. cbn [chain_node zn_obj].
  rewrite Ho, !bind_Some_eq, HL. cbn [forward].
  apply pchain_cons in Hc as [_ Hc].
  destruct (IH (ZHeap (delete (e_loc x) (zn h)) (released h ++ [o])) (λ A1, bk (x :: A1))) with (vs := vs')
    as (h' & Hl & Hz & Hr); [|done|done|done|done|].
  { eapply pchain_frame; [|exact Hc]. intros p Hp. apply lookup_delete_ne. by intros <-. }
  exists h'. split; [exact Hl|]. split.
  - intros p. rewrite Hz. simpl zn. rewrite fmap_cons. destruct (decide (p = e_loc x)) as [->|Hp].
    + rewrite decide_False by done. rewrite decide_True by left. apply lookup_delete_eq.
    + destruct (decide (p ∈ e_loc <$> es)).
      * by rewrite decide_True by by right.
      * rewrite decide_False by (intros [?|?]%elem_of_cons; done). by apply lookup_delete_ne.
  - rewrite Hr. simpl. by rewrite <-app_assoc.
Qed.

(** [zslFree] frees every node once and drops one reference to every object. *)
Lemma zslFree_run h zsl hd es vs :
  zsl_rep h zsl hd es vs →
  ∃ h', zslFree h zsl = Some h' ∧ (∀ p, zn h' !! p = zothers h hd es p) ∧
    released h' = released h ++ vs.*2.
Proof.
  intros Hrep. destruct (zr_chain _ _ _ _ _ Hrep) as [junk Hc]. unfold zslFree.
  pose proof (zr_level _ _ _ _ _ Hrep) as Hlv. pose proof (zr_nodup _ _ _ _ _ Hrep) as Hn.
  pose proof (zr_all_heights _ _ _ _ _ Hrep) as Hh.
  rewrite (zr_header _ _ _ _ _ Hrep), (zr_length _ _ _ _ _ Hrep), Nat2Z.id. change 0 with (Z.of_nat 0).
  apply Forall_cons in Hh as [Hhd Hh].
  rewrite (get_level_chain _ _ _ _ [] hd es 0 Hc eq_refl) by lia.
  rewrite bind_Some_eq, level_of_low by (unfold levels; lia). cbn [forward].
  rewrite fmap_cons in Hn. apply NoDup_cons in Hn as [Hhn Hn]. apply pchain_cons in Hc as [_ Hc].
  destruct (free_run (ZHeap (delete (e_loc hd) (zn h)) (released h)) (λ A1, back_of (hd :: A1)) (level_of (levels zsl) junk) es) with (vs := vs)
    as (h' & Hl & Hz & Hr); [|done|done| |apply Hrep|].
  { eapply pchain_frame; [|exact Hc]. intros p Hp. apply lookup_delete_ne. by intros <-. }
  { intros B. apply level_of_low. unfold levels. lia. }
  exists h'. split; [exact Hl|]. split; [|done]. intros p. rewrite Hz. unfold zothers. simpl zn. rewrite fmap_cons.
  destruct (decide (p ∈ e_loc <$> es)); [by rewrite decide_True by by right|].
  destruct (decide (p = e_loc hd)) as [->|Hp].
  - rewrite decide_True by left. apply lookup_delete_eq.
  - rewrite decide_False by (intros [?|?]%elem_of_cons; done). by apply lookup_delete_ne.
Qed.
End ops.
