(* ===== verification/SkiplistRange.v ===== *)
(** * Deletions and queries of a skip list, as functions of its sorted keys *)

From S2P Require Import Prelude Object Skiplist SkiplistSpec SkiplistOps SkiplistRep.

#[local] Open Scope Z_scope.

Section delete.
Context {Obj : Type} `{!StringObject Obj} `{!StringObjectLaws Obj} `{!EntryAllocator} `{!FreshNode}.
Implicit Types (h : zheap Obj) (zsl : zskiplist) (x y u hd e : entry Obj) (es pre suf : list (entry Obj)).
Implicit Types (v w k : double * Obj) (vs vp vq : list (double * Obj)) (update : list (option loc)).
Implicit Types (b : double * Obj → bool).

(** ** The searches that fill [update] *)

Lemma update_search h zsl hd pre suf vs cond :
  zsl_rep h zsl hd (pre ++ suf) vs → cond_splits h cond hd pre suf →
  ∃ A1 x update, search_all h zsl 64 cond set_update no_update = Some (e_loc x, zlen pre, update) ∧
    hd :: pre = A1 ++ [x] ∧ update_ok (hd :: pre) 0 (levels zsl) update.
Proof.
  intros Hrep Hc. pose proof (zr_level _ _ _ _ _ Hrep) as Hlv.
  destruct (search_all_run h zsl hd pre suf vs 64 cond set_update
    (λ i update, update_ok (hd :: pre) i (levels zsl) update) no_update Hrep Hc ltac:(lia))
    as (A1 & x & update & Hs & Heq & Hu).
  - apply no_update_ok.
  - intros i A1 x A2 update Hi Htop Hu. apply (set_update_ok _ _ _ _ A1 x A2); [|done|done].
    unfold levels in Hi. lia.
  - exists A1, x, update. assert (zlen pre = zlen A1) as ->; [|done].
    apply (f_equal length) in Heq. rewrite length_app in Heq. simpl in Heq. lia.
Qed.

(** The level 0 of the node reached leads to the first key that fails the test. *)
Lemma next_of_last h zsl hd pre suf vs A1 x :
  zsl_rep h zsl hd (pre ++ suf) vs → hd :: pre = A1 ++ [x] →
  ∃ d, get_level h (e_loc x) 0 = Some (ZLevel (e_loc <$> head suf) d).
Proof.
  intros Hrep Heq. destruct (zr_chain _ _ _ _ _ Hrep) as [junk Hc].
  pose proof (zr_level _ _ _ _ _ Hrep) as Hlv. pose proof (zr_all_heights _ _ _ _ _ Hrep) as Hh.
  assert (hd :: pre ++ suf = A1 ++ x :: suf) as Heq'.
  { change (hd :: pre ++ suf) with ((hd :: pre) ++ suf). by rewrite Heq, <-app_assoc. }
  rewrite Heq' in Hh. apply Forall_app in Hh as [_ [Hx Hh]%Forall_cons].
  exists (spn 0 suf). change 0 with (Z.of_nat 0) at 1.
  rewrite (get_level_chain _ _ _ _ A1 x suf 0 Hc Heq') by lia.
  rewrite level_of_low by (unfold levels; lia). by rewrite fwd_0.
Qed.

Lemma zr_node_lookup h zsl hd pre e suf vs v :
  zsl_rep h zsl hd (pre ++ e :: suf) vs → entry_is e v →
  ∃ n, zn h !! e_loc e = Some n ∧ zn_score n = v.1 ∧ zn_obj n = Some v.2.
Proof.
  intros Hrep Hv. destruct (zr_chain _ _ _ _ _ Hrep) as [junk Hc].
  pose proof (Hc (hd :: pre) e suf eq_refl) as Hn. eexists. split; [exact Hn|].
  by apply (zr_node h zsl hd _ vs pre e suf _ v Hrep eq_refl Hn).
Qed.

(** ** Deleting a key *)

Definition key_is k v : bool := if key_compare v k is Eq then true else false.

Lemma key_is_before k v : key_is k v = true → key_before k v = false.
Proof. unfold key_is, key_before. by destruct (key_compare v k). Qed.

(** After the keys below [k] comes [k], if it is there at all. *)
Lemma key_is_split vp vq k :
  StronglySorted key_lt (vp ++ vq) → Forall key_ok (vp ++ vq) → key_ok k →
  Forall (λ v, key_before k v = true) vp → Forall (λ v, key_before k v = false) vq →
  match vq with
  | v :: vq' =>
    if key_is k v then filter (λ v, key_is k v) (vp ++ vq) = [v] ∧ filter (λ v, negb (key_is k v)) (vp ++ vq) = vp ++ vq'
    else Forall (λ v, key_is k v = false) (vp ++ vq)
  | [] => Forall (λ v, key_is k v = false) (vp ++ vq)
  end.
Proof.
  intros Hs Hok Hk Hp Hq.
  assert (Forall (λ v, key_is k v = false) vp) as Hip.
  { eapply Forall_impl; [exact Hp|]. intros v. unfold key_is, key_before. by destruct (key_compare v k). }
  destruct vq as [|v vq]; [by rewrite app_nil_r|].
  apply Forall_cons in Hq as [Hv Hq]. rewrite StronglySorted_app in Hs. destruct Hs as (_ & _ & Hs).
  apply StronglySorted_inv in Hs as [_ Hlt]. apply Forall_app in Hok as [_ [Hvo Hqo]%Forall_cons].
  assert (Forall (λ v, key_is k v = false) vq) as Hiq.
  { apply Forall_forall. intros w Hw. rewrite Forall_forall in Hlt, Hq, Hqo. specialize (Hlt w Hw).
    unfold key_is, key_before in *. destruct (key_compare w k) eqn:E; try done.
    apply (key_compare_eq_l w k v (Hqo w Hw) Hk Hvo) in E.
    rewrite (key_compare_antisym v w), Hlt in E. rewrite (key_compare_antisym k v), <-E in Hv. done. }
  destruct (key_is k v) eqn:Ev.
  - rewrite !filter_app, filter_cons_True by (by rewrite Ev).
    rewrite (filter_none _ vp), (filter_none _ vq) by done. split; [done|].
    rewrite (filter_cons_False _ v) by (rewrite Ev; exact (λ f, f)).
    rewrite !(filter_all (λ v, negb (key_is k v))); [done|..];
      (eapply Forall_impl; [eassumption|]); by intros w ->.
  - apply Forall_app. split; [done|]. by constructor.
Qed.

Lemma key_is_reads k n v :
  key_ok k → key_ok v → zn_score n = v.1 → zn_obj n = Some v.2 →
  (if deq k.1 (zn_score n) then o ← zn_obj n; obj_equal o k.2 else Some false) = Some (key_is k v).
Proof.
  intros [Hks Hko] [Hvs Hvo] -> ->. unfold deq, key_is, key_compare.
  rewrite (dcompare_antisym v.1 k.1). destruct (dcompare_total v.1 k.1 Hvs Hks) as [r ->].
  destruct r; try done. simpl CompOpp. cbn [fmap option_fmap option_map].
  rewrite bind_Some_eq, obj_equal_text by done. f_equal.
  destruct (text_compare (obj_text v.2) (obj_text k.2)) eqn:E.
  - apply text_compare_eq in E. by rewrite bool_decide_eq_true_2.
  - rewrite bool_decide_eq_false_2; [done|]. intros Heq. by rewrite Heq, text_compare_refl in E.
  - rewrite bool_decide_eq_false_2; [done|]. intros Heq. by rewrite Heq, text_compare_refl in E.
Qed.

Lemma existsb_none b vs : Forall (λ v, b v = false) vs → existsb b vs = false.
Proof. induction 1 as [|v vs Hv _ IH]; [done|]. simpl. by rewrite Hv, IH. Qed.

Lemma filter_negb_none b vs : Forall (λ v, b v = false) vs → filter (λ v, negb (b v)) vs = vs.
Proof.
  intros Hv. apply (filter_all (λ v, negb (b v))). eapply Forall_impl; [exact Hv|]. by intros v ->.
Qed.

Lemma zslDelete_run h zsl hd es vs k :
  zsl_rep h zsl hd es vs → key_ok k →
  ∃ h' zsl' es', zslDelete h zsl k.1 k.2 = Some (existsb (key_is k) vs, h', zsl') ∧
    zstep h hd es (filter (λ v, key_is k v) vs).*2 h' zsl' es' (filter (λ v, negb (key_is k v)) vs).
Proof.
  intros Hrep Hk. pose proof (zr_ok _ _ _ _ _ Hrep) as Hok. pose proof (zr_sorted _ _ _ _ _ Hrep) as Hs.
  destruct (cond_splits_keys h zsl hd es vs _ _ Hrep (node_before_reads k Hk) (key_before_down _ k Hk))
    as (pre & suf & vp & vq & -> & -> & Hkp & Hkq & Hlen & Hbp & Hbq & _ & _ & Hcs).
  pose proof (key_is_split vp vq k Hs Hok Hk Hbp Hbq) as Hsplit.
  unfold zslDelete. destruct (update_search h zsl hd pre suf _ _ Hrep Hcs) as (A1 & x & update & -> & Heq & Hu).
  rewrite bind_Some_eq. cbv beta iota.
  destruct (next_of_last h zsl hd pre suf _ A1 x Hrep Heq) as [d ->]. rewrite bind_Some_eq. cbn [forward].
  assert (Forall (λ v, key_is k v = false) (vp ++ vq) →
    ∃ h' zsl' es', Some (false, h, zsl) = Some (existsb (key_is k) (vp ++ vq), h', zsl') ∧
    zstep h hd (pre ++ suf) (filter (λ v, key_is k v) (vp ++ vq)).*2 h' zsl' es'
      (filter (λ v, negb (key_is k v)) (vp ++ vq))) as Hnone.
  { intros Hf. exists h, zsl, (pre ++ suf). rewrite existsb_none, filter_none, filter_negb_none by done.
    split; [done|]. by apply zstep_refl. }
  destruct Hkq as [|e v suf vq He Hkq]; [by apply Hnone|]. cbn [head fmap option_fmap option_map].
  destruct (zr_node_lookup _ _ _ _ _ _ _ v Hrep He) as (n & -> & Hns & Hno). rewrite bind_Some_eq.
  apply Forall_app in Hok as [_ [Hvo _]%Forall_cons]. rewrite (key_is_reads k n v) by done.
  rewrite bind_Some_eq. destruct (key_is k v) eqn:E; [|by apply Hnone].
  destruct (zslDeleteNode_run h zsl hd pre e suf vp v vq update Hrep Hlen Hu)
    as (h1 & zsl1 & h2 & -> & Hfree & Hstep & _). rewrite bind_Some_eq, Hfree, bind_Some_eq.
  exists h2, zsl1, (pre ++ suf). destruct Hsplit as [-> ->]. split; [|exact Hstep].
  rewrite existsb_app. simpl. by rewrite E, orb_true_r.
Qed.

(** ** Deleting a range *)

Section range.
Context {D : Type} (dict_delete : D → Obj → option D) (dict_ok : D → Prop).
Context (Hdict : ∀ d o, dict_ok d → ∃ d', dict_delete d o = Some d' ∧ dict_ok d').

(** The objects deleted from the dictionary, one after the other. *)
Fixpoint dict_delete_all (d : D) (os : list Obj) : option D :=
  match os with [] => Some d | o :: os => d ← dict_delete d o; dict_delete_all d os end.

(** The keys deleted, and those kept, from the rank [t] on. *)
Fixpoint split_range (c : double * Obj → Z → bool) (t : Z) vs :
    list (double * Obj) * list (double * Obj) :=
  match vs with
  | [] => ([], [])
  | v :: vs' => if c v t then let '(del, kept) := split_range c (t + 1) vs' in (v :: del, kept) else ([], vs)
  end.

Lemma delete_range_loop h zsl hd pre suf vp vq update cond (c : double * Obj → Z → bool) d t r fuel :
  zsl_rep h zsl hd (pre ++ suf) (vp ++ vq) → length pre = length vp → Forall2 entry_is suf vq →
  update_ok (hd :: pre) 0 (levels zsl) update →
  (∀ n v t, zn_score n = v.1 → zn_obj n = Some v.2 → key_ok v → cond n t = Some (c v t)) →
  dict_ok d → (length suf < fuel)%nat → 0 ≤ t → 0 ≤ r → t + zlen suf < 2 ^ 64 → r + zlen suf < 2 ^ 64 →
  let '(del, kept) := split_range c t vq in
  ∃ h' zsl' d' suf', loop fuel (delete_range_body dict_delete update cond) (h, zsl, d, e_loc <$> head suf, t, r) =
      Some (h', zsl', d', r + zlen del) ∧
    zstep h hd (pre ++ suf) del.*2 h' zsl' (pre ++ suf') (vp ++ kept) ∧
    dict_delete_all d del.*2 = Some d' ∧ dict_ok d'.
Proof using Hdict.
  intros Hrep Hlen Hkq Hu Hcond Hd Hf Ht Hr Htb Hrb.
  revert h zsl suf d t r fuel Hrep Hkq Hu Hd Hf Ht Hr Htb Hrb.
  induction vq as [|v vq IH]; intros h zsl suf d t r fuel Hrep Hkq Hu Hd Hf Ht Hr Htb Hrb.
  { apply Forall2_nil_inv_r in Hkq as ->. cbn [split_range]. destruct fuel as [|fuel]; [simpl in Hf; lia|].
    exists h, zsl, d, []. split; [simpl; do 2 f_equal; lia|]. split; [by apply zstep_refl|done]. }
  apply Forall2_cons_inv_r in Hkq as (e & suf' & He & Hkq & ->).
  destruct fuel as [|fuel]; [simpl in Hf; lia|]. rewrite loop_S. unfold delete_range_body at 1.
  cbn [head fmap option_fmap option_map].
  destruct (zr_node_lookup _ _ _ _ _ _ _ v Hrep He) as (n & -> & Hns & Hno). rewrite bind_Some_eq.
  pose proof (zr_ok _ _ _ _ _ Hrep) as Hok. apply Forall_app in Hok as [_ [Hvo _]%Forall_cons].
  rewrite (Hcond n v t Hns Hno Hvo), bind_Some_eq. cbn [split_range]. destruct (c v t) eqn:E; cycle 1.
  { exists h, zsl, d, (e :: suf'). split; [simpl; do 2 f_equal; lia|]. split; [by apply zstep_refl|done]. }
  destruct (next_of_last h zsl hd (pre ++ [e]) suf' (vp ++ v :: vq) (hd :: pre) e) as [sp ->];
    [by rewrite <-app_assoc|done|]. rewrite bind_Some_eq. cbn [forward].
  destruct (zslDeleteNode_run h zsl hd pre e suf' vp v vq update Hrep Hlen Hu)
    as (h1 & zsl1 & h2 & -> & Hfree & Hstep & Hu1 & Hlen1). rewrite bind_Some_eq, Hno, bind_Some_eq.
  destruct (Hdict d v.2 Hd) as (d1 & Hdd & Hd1). rewrite Hdd, bind_Some_eq, Hfree, bind_Some_eq.
  simpl in Hf, Htb, Hrb. rewrite !wrap_small by (unfold in_u; lia).
  pose proof (IH h2 zsl1 suf' d1 (t + 1) (r + 1) fuel (zst_rep _ _ _ _ _ _ _ _ Hstep) Hkq Hu1 Hd1) as Hrest.
  destruct (split_range c (t + 1) vq) as [del kept].
  destruct Hrest as (h' & zsl' & d' & suf2 & Hl & Hst & Hda & Hd'); [lia..|].
  exists h', zsl', d', suf2. split; [rewrite Hl; simpl; do 2 f_equal; lia|].
  split; [by apply (zstep_trans _ _ _ [v.2] _ _ _ _ _ _ _ _ _ Hstep)|].
  split; [|done]. simpl. by rewrite Hdd, bind_Some_eq.
Qed.

(** From the search on: keys of the [pre] part are below the range. *)
Lemma delete_range_run h zsl hd pre suf vp vq update cond (c : double * Obj → Z → bool) d A1 x :
  zsl_rep h zsl hd (pre ++ suf) (vp ++ vq) → length pre = length vp → Forall2 entry_is suf vq →
  update_ok (hd :: pre) 0 (levels zsl) update →
  (∀ n v t, zn_score n = v.1 → zn_obj n = Some v.2 → key_ok v → cond n t = Some (c v t)) →
  dict_ok d → hd :: pre = A1 ++ [x] →
  let '(del, kept) := split_range c (zlen vp + 1) vq in
  ∃ h' zsl' d' es', delete_range dict_delete h zsl d (e_loc x) update (zlen pre) cond =
      Some (h', zsl', d', zlen del) ∧
    zstep h hd (pre ++ suf) del.*2 h' zsl' es' (vp ++ kept) ∧
    dict_delete_all d del.*2 = Some d' ∧ dict_ok d'.
Proof using Hdict.
  intros Hrep Hlen Hkq Hu Hcond Hd Heq. unfold delete_range.
  destruct (next_of_last h zsl hd pre suf _ A1 x Hrep Heq) as [sp ->]. rewrite bind_Some_eq. cbn [forward].
  pose proof (zr_bound _ _ _ _ _ Hrep) as Hb. rewrite length_app in Hb.
  pose proof (zr_length _ _ _ _ _ Hrep) as Hzl. rewrite length_app in Hzl.
  rewrite wrap_small by (unfold in_u; lia). replace (zlen pre) with (zlen vp) by lia.
  pose proof (delete_range_loop h zsl hd pre suf vp vq update cond c d (zlen vp + 1) 0
    (S (S (Z.to_nat (zsl_length zsl)))) Hrep Hlen Hkq Hu Hcond Hd) as Hrun.
  destruct (split_range c (zlen vp + 1) vq) as [del kept].
  destruct Hrun as (h' & zsl' & d' & suf' & Hl & Hst & Hda & Hd'); [lia..|].
  exists h', zsl', d', (pre ++ suf'). done.
Qed.
End range.
End delete.

(** ** Ranges of scores *)

(** The bounds of a parsed range are numbers ([zslParseRange] refuses NaN). *)
Definition range_ok (range : zrangespec) : Prop := isnan (rmin range) = false ∧ isnan (rmax range) = false.

Definition score_below (range : zrangespec) (s : double) : bool :=
  if minex range then dle s (rmin range) else dlt s (rmin range).

Lemma score_below_gte range s :
  range_ok range → isnan s = false → zslValueGteMin s range = negb (score_below range s).
Proof.
  intros [Hmin _] Hs. unfold zslValueGteMin, score_below, dge, dgt, dle, dlt, deq.
  rewrite (dcompare_antisym s (rmin range)). destruct (dcompare_total s _ Hs Hmin) as [r ->].
  by destruct (minex range), r.
Qed.

Lemma score_le_down a b m :
  isnan a = false → isnan b = false → isnan m = false → dcompare a b = Some Lt ∨ dcompare a b = Some Eq →
  (dlt b m = true → dlt a m = true) ∧ (dle b m = true → dle a m = true).
Proof.
  intros Ha Hb Hm Hab. unfold dle, dlt, deq.
  assert (dcompare b m = Some Lt → dcompare a m = Some Lt) as H1.
  { destruct Hab as [Hab|Hab]; [by apply dcompare_trans|]. by rewrite (dcompare_eq_l _ _ _ Hab). }
  assert (dcompare b m = Some Eq → dcompare a m = dcompare a b) as H2 by by intros ->%(dcompare_eq_r a).
  destruct (dcompare_total b m Hb Hm) as [r Hr]. rewrite Hr. split; destruct r; try done; intros _.
  - by rewrite H1.
  - rewrite H2 by done. by destruct Hab as [->| ->].
  - by rewrite H1.
Qed.

Section ranges.
Context {Obj : Type} `{!StringObject Obj} `{!StringObjectLaws Obj} `{!EntryAllocator} `{!FreshNode}.
Implicit Types (h : zheap Obj) (zsl : zskiplist) (x y u hd e : entry Obj) (es pre suf : list (entry Obj)).
Implicit Types (v w k : double * Obj) (vs vp vq : list (double * Obj)).
Implicit Types (b : double * Obj → bool).

Lemma key_lt_score v w : key_ok v → key_ok w → key_lt v w → dcompare v.1 w.1 = Some Lt ∨ dcompare v.1 w.1 = Some Eq.
Proof.
  intros [Hv _] [Hw _]. unfold key_lt, key_compare. destruct (dcompare_total _ _ Hv Hw) as [r ->].
  destruct r; [by right|by left|done].
Qed.

Lemma score_below_down vs range : range_ok range → down_closed vs (λ v, score_below range v.1).
Proof.
  intros [Hmin _] v w _ _ Hv Hw Hlt. unfold score_below.
  destruct (score_le_down v.1 w.1 (rmin range)) as [H1 H2];
    [apply Hv|apply Hw|done|by apply key_lt_score|]. by destruct (minex range).
Qed.

Lemma score_lte_down vs range : range_ok range → down_closed vs (λ v, zslValueLteMax v.1 range).
Proof.
  intros [_ Hmax] v w _ _ Hv Hw Hlt. unfold zslValueLteMax.
  destruct (score_le_down v.1 w.1 (rmax range)) as [H1 H2];
    [apply Hv|apply Hw|done|by apply key_lt_score|]. by destruct (maxex range).
Qed.

Lemma filter_ext_in (b1 b2 : double * Obj → bool) vs :
  (∀ v, v ∈ vs → b1 v = b2 v) → filter (λ v, b1 v) vs = filter (λ v, b2 v) vs.
Proof.
  induction vs as [|v vs IH]; intros Hv; [done|]. rewrite !filter_cons, IH by set_solver.
  assert (b1 v = b2 v) as Heq by (apply Hv; left).
  destruct (decide (b1 v)) as [H1|H1], (decide (b2 v)) as [H2|H2]; try done; exfalso; rewrite Heq in H1; done.
Qed.

(** Deleting up to the first key that fails is deleting all that pass. *)
Lemma split_range_filter c t vs :
  StronglySorted key_lt vs → Forall key_ok vs → down_closed vs c →
  split_range (λ v _, c v) t vs = (filter (λ v, c v) vs, filter (λ v, negb (c v)) vs).
Proof.
  intros Hs Hok Hc. revert t. induction Hs as [|v vs Hs IH Hv]; intros t; [done|].
  pose proof Hok as [Hv0 Hok']%Forall_cons. cbn [split_range]. destruct (c v) eqn:E.
  - rewrite IH by (done || (eapply down_closed_sub; [|exact Hc]; set_solver)).
    rewrite filter_cons_True by (by rewrite E).
    by rewrite (filter_cons_False _ v) by (rewrite E; exact (λ f, f)).
  - assert (Forall (λ w, c w = false) (v :: vs)) as Hf.
    { constructor; [done|]. apply Forall_forall. intros w Hw. rewrite Forall_forall in Hv, Hok'.
      destruct (c w) eqn:Ew; [|done]. rewrite (Hc v w) in E; [done|left|by right|done|by apply Hok'|by apply Hv|done]. }
    by rewrite filter_none, filter_negb_none.
Qed.

Section delete_range.
Context {D : Type} (dict_delete : D → Obj → option D) (dict_ok : D → Prop).
Context (Hdict : ∀ d o, dict_ok d → ∃ d', dict_delete d o = Some d' ∧ dict_ok d').

(** Deleting the keys that are not below the range, as long as they are in it. *)
Lemma delete_between_run h zsl hd es vs d below upto (f g : zskiplistNode Obj → option bool) :
  zsl_rep h zsl hd es vs → dict_ok d → reads f below → reads g upto →
  down_closed vs below → down_closed vs upto →
  let inside := λ v, negb (below v) && upto v in
  ∃ h' zsl' d' es',
    ('(x, traversed, update) ← search_all h zsl 64 (λ n _, f n) set_update no_update;
     delete_range dict_delete h zsl d x update traversed (λ n _, g n)) =
      Some (h', zsl', d', zlen (filter (λ v, inside v) vs)) ∧
    zstep h hd es (filter (λ v, inside v) vs).*2 h' zsl' es' (filter (λ v, negb (inside v)) vs) ∧
    dict_delete_all dict_delete d (filter (λ v, inside v) vs).*2 = Some d' ∧ dict_ok d'.
Proof using Hdict.
  intros Hrep Hd Hf Hg Hbelow Hupto inside.
  pose proof (zr_ok _ _ _ _ _ Hrep) as Hok. pose proof (zr_sorted _ _ _ _ _ Hrep) as Hs.
  destruct (cond_splits_keys h zsl hd es vs _ _ Hrep Hf Hbelow)
    as (pre & suf & vp & vq & -> & -> & Hkp & Hkq & Hlen & Hbp & Hbq & _ & _ & Hcs).
  destruct (update_search h zsl hd pre suf _ _ Hrep Hcs) as (A1 & x & update & -> & Heq & Hu).
  rewrite bind_Some_eq. cbv beta iota.
  pose proof (delete_range_run dict_delete dict_ok Hdict h zsl hd pre suf vp vq update
    (λ n _, g n) (λ v _, upto v) d A1 x Hrep Hlen Hkq Hu) as Hrun.
  rewrite StronglySorted_app in Hs. apply Forall_app in Hok as [_ Hokq].
  rewrite split_range_filter in Hrun; [|apply Hs|done|eapply down_closed_sub; [|exact Hupto]; set_solver].
  destruct Hrun as (h' & zsl' & d' & es' & Hrun & Hst & Hda & Hd'); [|done|done|].
  { intros n v _ ? ? ?. by apply Hg. }
  exists h', zsl', d', es'.
  assert (Forall (λ v, inside v = false) vp) as Hip.
  { eapply Forall_impl; [exact Hbp|]. unfold inside. by intros v ->. }
  assert (∀ v, v ∈ vq → inside v = upto v) as Hiq.
  { intros v Hv. unfold inside. rewrite Forall_forall in Hbq. by rewrite (Hbq v Hv). }
  assert (filter (λ v, inside v) (vp ++ vq) = filter (λ v, upto v) vq) as Hdel.
  { rewrite filter_app, (filter_none inside) by done. simpl. by apply filter_ext_in. }
  assert (filter (λ v, negb (inside v)) (vp ++ vq) = vp ++ filter (λ v, negb (upto v)) vq) as Hkeep.
  { rewrite filter_app, filter_negb_none by done. f_equal.
    apply (filter_ext_in (λ v, negb (inside v)) (λ v, negb (upto v))). intros v Hv. by rewrite Hiq. }
  rewrite Hdel, Hkeep. done.
Qed.

Definition score_inside (range : zrangespec) v : bool :=
  zslValueGteMin v.1 range && zslValueLteMax v.1 range.

Lemma zslDeleteRangeByScore_run h zsl hd es vs d range :
  zsl_rep h zsl hd es vs → dict_ok d → range_ok range →
  let del := filter (λ v, score_inside range v) vs in
  ∃ h' zsl' d' es', zslDeleteRangeByScore dict_delete h zsl range d = Some (h', zsl', d', zlen del) ∧
    zstep h hd es del.*2 h' zsl' es' (filter (λ v, negb (score_inside range v)) vs) ∧
    dict_delete_all dict_delete d del.*2 = Some d' ∧ dict_ok d'.
Proof using Hdict.
  intros Hrep Hd Hr del.
  destruct (delete_between_run h zsl hd es vs d (λ v, score_below range v.1) (λ v, zslValueLteMax v.1 range)
    (λ n, Some (score_below range (zn_score n))) (score_lte range) Hrep Hd)
    as (h' & zsl' & d' & es' & Hrun & Hst & Hda & Hd').
  - intros n v -> _ _. done.
  - intros n v Hs _ _. unfold score_lte. by rewrite Hs.
  - by apply score_below_down.
  - by apply score_lte_down.
  - assert (∀ v, v ∈ vs → negb (score_below range v.1) && zslValueLteMax v.1 range = score_inside range v) as Heq.
    { intros v Hv. unfold score_inside. rewrite score_below_gte; [done|done|].
      pose proof (zr_ok _ _ _ _ _ Hrep) as Hok. rewrite Forall_forall in Hok. by apply Hok. }
    exists h', zsl', d', es'. unfold del.
    rewrite <-(filter_ext_in _ _ vs Heq). split; [exact Hrun|].
    rewrite <-(filter_ext_in (λ v, negb (negb (score_below range v.1) && zslValueLteMax v.1 range))
      (λ v, negb (score_inside range v)) vs) by (intros v Hv; by rewrite Heq). done.
Qed.

Lemma split_range_rank (e t : Z) vs :
  split_range (λ _ t, t <=? e) t vs =
  (take (Z.to_nat (e - t + 1)) vs, drop (Z.to_nat (e - t + 1)) vs).
Proof.
  revert t. induction vs as [|v vs IH]; intros t; cbn [split_range]; [by rewrite take_nil, drop_nil|].
  destruct (t <=? e) eqn:E.
  - rewrite IH. replace (Z.to_nat (e - t + 1)) with (S (Z.to_nat (e - (t + 1) + 1))) by lia. done.
  - replace (Z.to_nat (e - t + 1)) with 0%nat by lia. done.
Qed.

(** A search that stops at a rank. *)
Lemma rank_splits h hd es (p : nat) (cond : Z → bool) :
  (∀ t, 1 ≤ t → cond t = (t <=? Z.of_nat p)) →
  cond_splits h (λ _ t, Some (cond t)) hd (take p es) (drop p es).
Proof.
  intros Hc. constructor.
  - intros A1 x A2 n Heq _. apply (f_equal length) in Heq. rewrite length_take, length_app in Heq. simpl in Heq.
    rewrite Hc by lia. f_equal. lia.
  - intros A1 x A2 n Heq _. apply (f_equal length) in Heq. rewrite length_drop, length_app in Heq. simpl in Heq.
    rewrite length_take, Hc by lia. f_equal. lia.
Qed.

Lemma zslDeleteRangeByRank_run h zsl hd es vs d start end_ :
  zsl_rep h zsl hd es vs → dict_ok d → 0 ≤ start → 0 ≤ end_ →
  let p := Z.to_nat (start - 1) in let n := (Z.to_nat end_ - p)%nat in
  let del := take n (drop p vs) in
  ∃ h' zsl' d' es', zslDeleteRangeByRank dict_delete h zsl start end_ d = Some (h', zsl', d', zlen del) ∧
    zstep h hd es del.*2 h' zsl' es' (take p vs ++ drop n (drop p vs)) ∧
    dict_delete_all dict_delete d del.*2 = Some d' ∧ dict_ok d'.
Proof using Hdict.
  intros Hrep Hd Hstart Hend p n del. pose proof (zr_keys _ _ _ _ _ Hrep) as Hk.
  pose proof (Forall2_length _ _ _ Hk) as Hlen.
  assert (zsl_rep h zsl hd (take p es ++ drop p es) (take p vs ++ drop p vs)) as Hrep' by by rewrite !take_drop.
  unfold zslDeleteRangeByRank.
  destruct (update_search h zsl hd (take p es) (drop p es) _ (λ _ t, Some (t <? start)) Hrep')
    as (A1 & x & update & -> & Heq & Hu).
  { apply rank_splits. intros t Ht. lia. }
  rewrite bind_Some_eq. cbv beta iota.
  pose proof (delete_range_run dict_delete dict_ok Hdict h zsl hd (take p es) (drop p es) (take p vs) (drop p vs)
    update (λ _ t, Some (t <=? end_)) (λ _ t, t <=? end_) d A1 x Hrep') as Hrun.
  rewrite split_range_rank in Hrun.
  destruct Hrun as (h' & zsl' & d' & es' & Hrun & Hst & Hda & Hd'); try done.
  { rewrite !length_take. lia. }
  { by apply Forall2_drop. }
  assert (drop p vs = [] ∨ Z.to_nat (end_ - (zlen (take p vs) + 1) + 1) = n) as Hn.
  { rewrite length_take. destruct (decide (length vs ≤ p)%nat); [left; by apply drop_ge|right]. lia. }
  exists h', zsl', d', es'. unfold del.
  destruct Hn as [Hn|Hn]; [rewrite Hn in *; rewrite !take_nil, !drop_nil in *|rewrite Hn in *];
    (split; [exact Hrun|]; rewrite !take_drop in Hst; done).
Qed.
End delete_range.
End ranges.
