(* ===== verification/SkiplistQuery.v ===== *)
(** * Ranks and ranges of a skip list, as functions of its sorted keys *)

From S2P Require Import Prelude Object Skiplist SkiplistSpec SkiplistOps SkiplistRep SkiplistRange.

#[local] Open Scope Z_scope.

Section query.
Context {Obj : Type} `{!StringObject Obj} `{!StringObjectLaws Obj}.
Implicit Types (h : zheap Obj) (zsl : zskiplist) (x y u hd e : entry Obj) (es pre suf : list (entry Obj)).
Implicit Types (v w k : double * Obj) (vs vp vq : list (double * Obj)).
Implicit Types (b : double * Obj → bool) (p : loc).

(** The key a node holds. *)
Definition node_key h p : option (double * Obj) :=
  n ← zn h !! p; o ← zn_obj n; Some (zn_score n, o).

Lemma node_key_entry h zsl hd pre e suf vs v :
  zsl_rep h zsl hd (pre ++ e :: suf) vs → entry_is e v → node_key h (e_loc e) = Some v.
Proof.
  intros Hrep Hv. destruct (zr_node_lookup _ _ _ _ _ _ _ v Hrep Hv) as (n & Hn & Hs & Ho).
  unfold node_key. rewrite Hn, bind_Some_eq, Ho, bind_Some_eq, Hs. by destruct v.
Qed.

(** ** Walking the list in both directions *)

(** [while (x) x = x->level[0].forward], and [backward]: the keys met. *)
Fixpoint keys_forward (fuel : nat) h (q : option loc) : option (list (double * Obj)) :=
  match q, fuel with
  | None, _ => Some []
  | Some p, O => None
  | Some p, S fuel =>
    v ← node_key h p; l ← get_level h p 0; vs ← keys_forward fuel h (forward l); Some (v :: vs)
  end.

Fixpoint keys_backward (fuel : nat) h (q : option loc) : option (list (double * Obj)) :=
  match q, fuel with
  | None, _ => Some []
  | Some p, O => None
  | Some p, S fuel =>
    v ← node_key h p; n ← zn h !! p; vs ← keys_backward fuel h (zn_backward n); Some (v :: vs)
  end.

Lemma keys_forward_run h zsl hd pre suf vs vq :
  zsl_rep h zsl hd (pre ++ suf) vs → Forall2 entry_is suf vq →
  keys_forward (length suf) h (e_loc <$> head suf) = Some vq.
Proof.
  intros Hrep Hk. revert pre Hrep. induction Hk as [|e v suf vq He Hk IH]; intros pre Hrep; [done|].
  cbn [length head fmap option_fmap option_map keys_forward].
  rewrite (node_key_entry _ _ _ _ _ _ _ v Hrep He), bind_Some_eq.
  destruct (next_of_last h zsl hd (pre ++ [e]) suf vs (hd :: pre) e) as [d ->];
    [by rewrite <-app_assoc|done|]. rewrite bind_Some_eq. cbn [forward].
  rewrite (IH (pre ++ [e])), bind_Some_eq by (by rewrite <-app_assoc). done.
Qed.

Lemma keys_backward_run h zsl hd pre suf vs vp :
  zsl_rep h zsl hd (pre ++ suf) vs → Forall2 entry_is pre vp →
  keys_backward (length pre) h (back_of (hd :: pre)) = Some (reverse vp).
Proof.
  intros Hrep Hk. revert suf vp Hrep Hk.
  induction pre as [|e pre IH] using rev_ind; intros suf vp Hrep Hk.
  { by apply Forall2_nil_inv_l in Hk as ->. }
  apply Forall2_app_inv_l in Hk as (vp' & vq & Hk & Hq & ->).
  apply Forall2_cons_inv_l in Hq as (v & vq' & He & Hq & ->). apply Forall2_nil_inv_l in Hq as ->.
  rewrite <-app_assoc in Hrep. simpl in Hrep.
  rewrite length_app, Nat.add_comm. change (hd :: pre ++ [e]) with ((hd :: pre) ++ [e]).
  rewrite back_of_app by done. cbn [length last fmap option_fmap option_map keys_backward Nat.add].
  rewrite (node_key_entry _ _ _ _ _ _ _ v Hrep He), bind_Some_eq.
  destruct (zr_chain _ _ _ _ _ Hrep) as [junk Hc]. rewrite (Hc (hd :: pre) e suf eq_refl), bind_Some_eq.
  cbn [chain_node zn_backward]. rewrite (IH (e :: suf) vp' Hrep Hk), bind_Some_eq.
  by rewrite reverse_snoc.
Qed.

(** ** Ranks *)

Definition texts_distinct vs : Prop := NoDup ((λ v, obj_text v.2) <$> vs).

Lemma texts_eq vs i j v w :
  texts_distinct vs → vs !! i = Some v → vs !! j = Some w → obj_text v.2 = obj_text w.2 → i = j.
Proof.
  intros Hd Hi Hj Heq. eapply NoDup_lookup; [exact Hd|..];
    rewrite list_lookup_fmap, ?Hi, ?Hj; simpl; [done|by rewrite Heq].
Qed.

Lemma rank_visit_run h zsl hd es vs k A1 x A2 t :
  zsl_rep h zsl hd es vs → obj_ok k.2 → hd :: es = A1 ++ x :: A2 →
  ∃ found : bool, rank_visit h k.2 t (e_loc x) (zlen A1) () = Some (if found then inr (zlen A1) else inl ()) ∧
    (found = true ↔ ∃ i v, length A1 = S i ∧ vs !! i = Some v ∧ obj_text v.2 = obj_text k.2).
Proof.
  intros Hrep Hk Heq. destruct (zr_chain _ _ _ _ _ Hrep) as [junk Hc].
  unfold rank_visit. rewrite (Hc A1 x A2 Heq), bind_Some_eq. cbn [chain_node zn_obj].
  destruct A1 as [|a A1]; injection Heq as <- Heq.
  { rewrite (proj2 (zr_hd _ _ _ _ _ Hrep)). exists false. split; [done|]. split; [done|].
    by intros (i & v & ? & _). }
  pose proof (zr_keys _ _ _ _ _ Hrep) as Hkeys.
  assert (es !! length A1 = Some x) as Hx by (rewrite Heq; by apply list_lookup_middle).
  destruct (Forall2_lookup_l _ _ _ _ _ Hkeys Hx) as (v & Hv & [_ Ho]). rewrite Ho.
  pose proof (zr_ok _ _ _ _ _ Hrep) as Hok. rewrite Forall_lookup in Hok. destruct (Hok _ _ Hv) as [_ Hvo].
  rewrite obj_equal_text, bind_Some_eq by done.
  exists (bool_decide (obj_text v.2 = obj_text k.2)). split; [by case_bool_decide|].
  rewrite bool_decide_eq_true. split; [by exists (length A1), v|].
  intros (i & w & [= <-] & Hw & Ht). congruence.
Qed.

Lemma zslGetRank_absent h zsl hd es vs k :
  zsl_rep h zsl hd es vs → key_ok k → Forall (λ v, obj_text v.2 ≠ obj_text k.2) vs →
  zslGetRank h zsl k.1 k.2 = Some 0.
Proof.
  intros Hrep Hk Hne. unfold zslGetRank.
  destruct (cond_splits_keys h zsl hd es vs _ _ Hrep (node_upto_reads k Hk) (key_upto_down _ k Hk))
    as (pre & suf & vp & vq & -> & -> & _ & _ & _ & _ & _ & _ & _ & Hcs).
  destruct (search_run h zsl hd pre suf _ 64 _ (rank_visit h k.2) (λ _ _, True) (λ r, False) () Hrep Hcs)
    as [(A1 & x & st & -> & _)|(r & _ & [])]; [lia|done| |done].
  intros i A1 x A2 [] Hi (Heq & _) _. left. exists (). split; [|done].
  destruct (rank_visit_run h zsl hd (pre ++ suf) _ k A1 x (A2 ++ suf) (Z.of_nat i) Hrep (proj2 Hk)) as (found & -> & Hf).
  { change (hd :: pre ++ suf) with ((hd :: pre) ++ suf). by rewrite Heq, <-app_assoc. }
  destruct found; [|done]. destruct (proj1 Hf eq_refl) as (j & v & _ & Hv & Ht).
  rewrite Forall_lookup in Hne. by destruct (Hne _ _ Hv).
Qed.

Lemma zslGetRank_present h zsl hd es vs k i :
  zsl_rep h zsl hd es vs → texts_distinct vs → vs !! i = Some k →
  zslGetRank h zsl k.1 k.2 = Some (Z.of_nat i + 1).
Proof.
  intros Hrep Hd Hi. pose proof (zr_ok _ _ _ _ _ Hrep) as Hok.
  pose proof (zr_sorted _ _ _ _ _ Hrep) as Hs.
  assert (key_ok k) as Hk by (rewrite Forall_lookup in Hok; by eapply Hok).
  destruct (cond_splits_keys h zsl hd es vs _ _ Hrep (node_upto_reads k Hk) (key_upto_down _ k Hk))
    as (pre & suf & vp & vq & -> & -> & _ & _ & Hlen & Hbp & Hbq & _ & _ & Hcs).
  (* the keys up to [k] are the first [i + 1] *)
  assert (length vp = S i) as Hvp.
  { assert (i < length vp)%nat.
    { destruct (decide (i < length vp)%nat); [done|]. rewrite lookup_app_r in Hi by lia.
      rewrite Forall_lookup in Hbq. specialize (Hbq _ _ Hi). unfold key_upto, key_compare in Hbq.
      by rewrite (dcompare_refl k.1 (proj1 Hk)), text_compare_refl in Hbq. }
    destruct (decide (length vp = S i)) as [|Hne]; [done|exfalso].
    destruct (lookup_lt_is_Some_2 vp (S i)) as [w Hw]; [lia|].
    rewrite Forall_lookup in Hbp. specialize (Hbp _ _ Hw).
    assert (key_lt k w) as Hlt.
    { rewrite lookup_app_l in Hi by lia. rewrite StronglySorted_app in Hs. destruct Hs as (_ & Hs & _).
      apply list_elem_of_split_length in Hi as (l1 & l2 & -> & ->).
      rewrite StronglySorted_app in Hs. destruct Hs as (_ & _ & Hs). apply StronglySorted_inv in Hs as [_ Hs].
      rewrite lookup_app_r in Hw by lia. replace (S (length l1) - length l1)%nat with 1%nat in Hw by lia.
      simpl in Hw. rewrite Forall_lookup in Hs. by apply (Hs 0%nat). }
    unfold key_upto in Hbp. rewrite key_compare_antisym, Hlt in Hbp. done. }
  assert (∀ A1 x A2, hd :: pre = A1 ++ x :: A2 → ∀ t, ∃ found : bool,
    rank_visit h k.2 t (e_loc x) (zlen A1) () = Some (if found then inr (zlen A1) else inl ()) ∧
    (found = true ↔ length A1 = S i)) as Hvis.
  { intros A1 x A2 Heq t.
    destruct (rank_visit_run h zsl hd (pre ++ suf) _ k A1 x (A2 ++ suf) t Hrep (proj2 Hk)) as (found & -> & Hf).
    { change (hd :: pre ++ suf) with ((hd :: pre) ++ suf). by rewrite Heq, <-app_assoc. }
    exists found. split; [done|]. rewrite Hf. split; [|by exists i, k].
    intros (j & v & -> & Hv & Ht). by rewrite (texts_eq _ _ _ _ _ Hd Hv Hi Ht). }
  unfold zslGetRank.
  destruct (search_run h zsl hd pre suf _ 64 _ (rank_visit h k.2)
    (λ j _, (j < levels zsl)%nat → ∀ A1 x A2, is_top j (hd :: pre) A1 x A2 → length A1 ≠ S i)
    (λ r, r = Z.of_nat i + 1) () Hrep Hcs) as [(A1 & x & st & _ & Heq & HI)|(r & -> & ->)]; [lia|lia| | |done].
  - intros j A1 x A2 [] Hj Htop _. destruct (Hvis A1 x A2 (proj1 Htop) (Z.of_nat j)) as ([] & -> & Hf).
    + right. eexists. split; [done|]. rewrite (proj1 Hf eq_refl). lia.
    + left. exists (). split; [done|]. intros _ B1 y B2 Htop'.
      destruct (top_unique _ _ _ _ _ _ _ _ Htop Htop') as (<- & _). by intros ?%Hf.
  - exfalso. pose proof (zr_level _ _ _ _ _ Hrep) as Hlv.
    apply (f_equal length) in Heq as Hl. rewrite length_app in Hl. simpl in Hl.
    apply (HI ltac:(unfold levels; lia) A1 x []); [|lia]. split; [done|]. split; [|constructor].
    pose proof (zr_all_heights _ _ _ _ _ Hrep) as Hh.
    change (hd :: pre ++ suf) with ((hd :: pre) ++ suf) in Hh. rewrite Heq in Hh.
    apply Forall_app in Hh as [Hh _]. apply Forall_app in Hh as [_ [? _]%Forall_cons]. lia.
Qed.

Lemma zslGetElementByRank_run h zsl hd es vs rank :
  zsl_rep h zsl hd es vs → 1 ≤ rank →
  (r ← zslGetElementByRank h zsl rank; Some (p ← r; node_key h p)) = Some (vs !! Z.to_nat (rank - 1)).
Proof.
  intros Hrep Hr. set (p := Z.to_nat rank). pose proof (zr_keys _ _ _ _ _ Hrep) as Hk.
  assert (zsl_rep h zsl hd (take p es ++ drop p es) vs) as Hrep' by by rewrite take_drop.
  unfold zslGetElementByRank.
  destruct (search_run h zsl hd (take p es) (drop p es) vs 64 (λ _ t, Some (t <=? rank)) (by_rank_visit rank)
    (λ j _, (j < levels zsl)%nat → ∀ A1 x A2, is_top j (hd :: take p es) A1 x A2 → zlen A1 ≠ rank)
    (λ q, ∃ A1 x A2, hd :: take p es = A1 ++ x :: A2 ∧ zlen A1 = rank ∧ q = e_loc x) () Hrep')
    as [(A1 & x & st & -> & Heq & HI)|(q & -> & A1 & x & A2 & Heq & Hl & ->)].
  - apply rank_splits. intros t Ht. lia.
  - lia.
  - lia.
  - intros j A1 x A2 [] Hj Htop _. unfold by_rank_visit. destruct (zlen A1 =? rank) eqn:E.
    + right. eexists. split; [done|]. exists A1, x, A2. split; [apply Htop|]. split; [lia|done].
    + left. exists (). split; [done|]. intros _ B1 y B2 Htop'.
      destruct (top_unique _ _ _ _ _ _ _ _ Htop Htop') as (<- & _). lia.
  - change (Some None = Some (vs !! Z.to_nat (rank - 1))). symmetry. f_equal. apply lookup_ge_None.
    rewrite <-(Forall2_length _ _ _ Hk).
    destruct (decide (length es ≤ Z.to_nat (rank - 1))%nat) as [|Hlt]; [done|exfalso].
    pose proof (zr_level _ _ _ _ _ Hrep) as Hlv.
    apply (f_equal length) in Heq as Hl. rewrite length_app in Hl. simpl in Hl. rewrite length_take in Hl.
    apply (HI ltac:(unfold levels; lia) A1 x []); [|lia]. split; [done|]. split; [|constructor].
    pose proof (zr_all_heights _ _ _ _ _ Hrep') as Hh.
    change (hd :: take p es ++ drop p es) with ((hd :: take p es) ++ drop p es) in Hh. rewrite Heq in Hh.
    apply Forall_app in Hh as [Hh _]. apply Forall_app in Hh as [_ [? _]%Forall_cons]. lia.
  - rewrite !bind_Some_eq. cbv beta iota. f_equal.
    destruct A1 as [|a A1]; [simpl in Hl; lia|]. injection Heq as <- Heq.
    assert (es = A1 ++ x :: A2 ++ drop p es) as Hes by (rewrite <-(take_drop p es) at 1; by rewrite Heq, <-app_assoc).
    assert (es !! Z.to_nat (rank - 1) = Some x) as Hx.
    { rewrite Hes. apply list_lookup_middle. simpl in Hl. lia. }
    destruct (Forall2_lookup_l _ _ _ _ _ Hk Hx) as (v & Hv & Hev). rewrite Hv. cbn [mbind option_bind].
    rewrite Hes in Hrep. by apply (node_key_entry _ _ _ _ _ _ _ v Hrep Hev).
Qed.

(** ** The first and the last key in a range *)

Lemma down_closed_last vs b v :
  StronglySorted key_lt vs → Forall key_ok vs → down_closed vs b → last vs = Some v → b v = true →
  Forall (λ w, b w = true) vs.
Proof.
  intros Hs Hok Hb Hl Hv. apply last_Some in Hl as [vs' ->]. apply Forall_app. split; [|by constructor].
  rewrite StronglySorted_app in Hs. destruct Hs as (Hlt & _ & _). apply Forall_forall. intros w Hw.
  rewrite Forall_forall in Hok. apply (Hb w v); [set_solver..|apply Hok; set_solver|apply Hok; set_solver| |done].
  apply Hlt; [done|left].
Qed.

Lemma down_closed_head vs b v :
  StronglySorted key_lt vs → Forall key_ok vs → down_closed vs b → head vs = Some v → b v = false →
  Forall (λ w, b w = false) vs.
Proof.
  intros Hs Hok Hb Hh Hv. destruct vs as [|v' vs]; [done|]. injection Hh as ->.
  apply StronglySorted_inv in Hs as [_ Hlt]. constructor; [done|]. apply Forall_forall. intros w Hw.
  rewrite Forall_forall in Hok, Hlt. destruct (b w) eqn:E; [|done].
  rewrite (Hb v w) in Hv; [done|left|by right|apply Hok; left|apply Hok; by right|by apply Hlt|done].
Qed.

Section in_range.
Context h zsl hd es vs (Hrep : zsl_rep h zsl hd es vs).
Context (gte lte : zskiplistNode Obj → option bool) (below upto : double * Obj → bool).
Context (Hgte : reads gte (λ v, negb (below v))) (Hlte : reads lte upto).
Context (Hbelow : down_closed vs below) (Hupto : down_closed vs upto).

Definition inside v : bool := negb (below v) && upto v.

Context (empty : bool) (Hempty : empty = true → Forall (λ v, inside v = false) vs).

Lemma inside_below : Forall (λ v, below v = true) vs → Forall (λ v, inside v = false) vs.
Proof using. intros Hv. eapply Forall_impl; [exact Hv|]. unfold inside. by intros v ->. Qed.

Lemma inside_upto : Forall (λ v, upto v = false) vs → Forall (λ v, inside v = false) vs.
Proof using. intros Hv. eapply Forall_impl; [exact Hv|]. unfold inside. intros v ->. apply andb_false_r. Qed.

Lemma is_in_range_run :
  ∃ c, is_in_range h zsl (Some empty) gte lte = Some c ∧
    (if c then ∃ v0 vl, head vs = Some v0 ∧ last vs = Some vl ∧ below vl = false ∧ upto v0 = true
     else Forall (λ v, inside v = false) vs).
Proof using Hrep Hgte Hlte Hbelow Hupto Hempty.
  unfold is_in_range. rewrite bind_Some_eq. destruct empty eqn:Ee; [by exists false; auto|].
  pose proof (zr_ok _ _ _ _ _ Hrep) as Hok. pose proof (zr_sorted _ _ _ _ _ Hrep) as Hs.
  pose proof (zr_keys _ _ _ _ _ Hrep) as Hk. rewrite (zr_tail _ _ _ _ _ Hrep).
  destruct es as [|e0 es0 _] eqn:He using rev_ind.
  { apply Forall2_nil_inv_l in Hk as ->. by exists false. }
  apply Forall2_app_inv_l in Hk as (vs0 & vl' & Hk & Hl & Hvs).
  apply Forall2_cons_inv_l in Hl as (vl & vn & Hel & Hn & ->). apply Forall2_nil_inv_l in Hn as ->.
  change (hd :: es0 ++ [e0]) with ((hd :: es0) ++ [e0]). rewrite back_of_app by done. cbn [last fmap option_fmap option_map].
  destruct (zr_node_lookup _ _ _ _ _ _ _ vl Hrep Hel) as (n & -> & Hns & Hno). rewrite bind_Some_eq.
  assert (last vs = Some vl) as Hlast by (by rewrite Hvs, last_snoc).
  assert (key_ok vl) as Hvl by (rewrite Forall_forall in Hok; apply Hok; rewrite Hvs; set_solver).
  rewrite (Hgte n vl Hns Hno Hvl), bind_Some_eq, negb_involutive.
  destruct (below vl) eqn:Eb; [exists false; split; [done|]; apply inside_below; by eapply down_closed_last|].
  rewrite (zr_header _ _ _ _ _ Hrep).
  destruct (next_of_last h zsl hd [] (es0 ++ [e0]) vs [] hd Hrep eq_refl) as [d ->]. rewrite bind_Some_eq.
  cbn [forward]. pose proof (zr_keys _ _ _ _ _ Hrep) as Hk2.
  destruct (es0 ++ [e0]) as [|e1 es1] eqn:He1; [by destruct es0|].
  apply Forall2_cons_inv_l in Hk2 as (v0 & vs1 & Hv0 & _ & Hvs1).
  cbn [head fmap option_fmap option_map].
  destruct (zr_node_lookup h zsl hd [] e1 es1 vs v0 Hrep Hv0) as (n1 & -> & Hns1 & Hno1). rewrite bind_Some_eq.
  assert (head vs = Some v0) as Hhead by by rewrite Hvs1.
  assert (key_ok v0) as Hv0k by (rewrite Forall_forall in Hok; apply Hok; rewrite Hvs1; set_solver).
  rewrite (Hlte n1 v0 Hns1 Hno1 Hv0k). exists (upto v0). split; [done|].
  destruct (upto v0) eqn:Eu; [by exists v0, vl|]. apply inside_upto. by eapply down_closed_head.
Qed.

Lemma first_in_range_run :
  (r ← first_in_range h zsl (Some empty) gte lte; Some (p ← r; node_key h p)) =
  Some (head (filter (λ v, inside v) vs)).
Proof using Hrep Hgte Hlte Hbelow Hupto Hempty.
  destruct is_in_range_run as (c & Hc & Hin). unfold first_in_range. rewrite Hc, bind_Some_eq.
  destruct c; cbn [negb]; [|by rewrite (filter_none inside)].
  destruct Hin as (v0 & vl & _ & Hlast & Hbl & _).
  pose proof (zr_ok _ _ _ _ _ Hrep) as Hok. pose proof (zr_sorted _ _ _ _ _ Hrep) as Hs.
  destruct (cond_splits_keys h zsl hd es vs (λ n, negb <$> gte n) below Hrep) as
    (pre & suf & vp & vq & Hes & Hvs & Hkp & Hkq & _ & Hbp & Hbq & _ & _ & Hcs); [|done|].
  { intros n v Hns Hno Hv. rewrite (Hgte n v Hns Hno Hv). simpl. by rewrite negb_involutive. }
  pose proof Hrep as Hrep'. rewrite Hes in Hrep'.
  destruct (search_all_run h zsl hd pre suf vs 64 _ no_visit (λ _ _, True) () Hrep' Hcs) as
    (A1 & x & [] & -> & Heq & _); [lia|done|by exists ()|]. rewrite bind_Some_eq.
  destruct (next_of_last h zsl hd pre suf vs A1 x Hrep' Heq) as [d ->]. rewrite bind_Some_eq. cbn [forward].
  assert (filter (λ v, inside v) vs = filter (λ v, upto v) vq) as ->.
  { rewrite Hvs, filter_app, (filter_none inside vp).
    - apply filter_ext_in. intros v Hv. rewrite Forall_forall in Hbq. unfold inside. by rewrite (Hbq v Hv).
    - eapply Forall_impl; [exact Hbp|]. unfold inside. by intros v ->. }
  destruct Hkq as [|e v suf vq Hev Hkq].
  { exfalso. rewrite app_nil_r in Hvs. subst vp. apply last_Some in Hlast as [vs' Hl]. rewrite Hl in Hbp.
    apply Forall_app in Hbp as [_ [Hb _]%Forall_cons]. congruence. }
  cbn [head fmap option_fmap option_map]. rewrite bind_Some_eq.
  destruct (zr_node_lookup _ _ _ _ _ _ _ v Hrep' Hev) as (n & Hn & Hns & Hno). rewrite Hn, bind_Some_eq.
  rewrite Hvs in Hok. apply Forall_app in Hok as [_ Hokq]. pose proof Hokq as [Hv _]%Forall_cons.
  rewrite (Hlte n v Hns Hno Hv), !bind_Some_eq. destruct (upto v) eqn:Eu.
  - rewrite filter_cons_True by (by rewrite Eu). cbn [head]. rewrite bind_Some_eq.
    by rewrite (node_key_entry _ _ _ _ _ _ _ v Hrep' Hev).
  - rewrite (filter_none upto); [done|]. rewrite Hvs, StronglySorted_app in Hs.
    apply (down_closed_head (v :: vq) upto v); [apply Hs|done| |done|done].
    eapply down_closed_sub; [|exact Hupto]. rewrite Hvs. set_solver.
Qed.

Lemma last_in_range_run :
  (r ← last_in_range h zsl (Some empty) gte lte; Some (p ← r; node_key h p)) =
  Some (last (filter (λ v, inside v) vs)).
Proof using Hrep Hgte Hlte Hbelow Hupto Hempty.
  destruct is_in_range_run as (c & Hc & Hin). unfold last_in_range. rewrite Hc, bind_Some_eq.
  destruct c; cbn [negb]; [|by rewrite (filter_none inside)].
  destruct Hin as (v0 & vl & Hhead & _ & _ & Hu0).
  pose proof (zr_ok _ _ _ _ _ Hrep) as Hok. pose proof (zr_sorted _ _ _ _ _ Hrep) as Hs.
  destruct (cond_splits_keys h zsl hd es vs lte upto Hrep Hlte Hupto) as
    (pre & suf & vp & vq & Hes & Hvs & Hkp & Hkq & _ & Hbp & Hbq & _ & _ & Hcs).
  pose proof Hrep as Hrep'. rewrite Hes in Hrep'.
  destruct (search_all_run h zsl hd pre suf vs 64 _ no_visit (λ _ _, True) () Hrep' Hcs) as
    (A1 & x & [] & -> & Heq & _); [lia|done|by exists ()|]. rewrite bind_Some_eq.
  assert (filter (λ v, inside v) vs = filter (λ v, negb (below v)) vp) as ->.
  { rewrite Hvs, filter_app, (filter_none inside vq), app_nil_r.
    - apply (filter_ext_in inside (λ v, negb (below v))). intros v Hv. rewrite Forall_forall in Hbp.
      unfold inside. by rewrite (Hbp v Hv), andb_true_r.
    - eapply Forall_impl; [exact Hbq|]. unfold inside. intros v ->. apply andb_false_r. }
  destruct pre as [|e pre _] using rev_ind.
  { exfalso. apply Forall2_nil_inv_l in Hkp as ->. simpl in Hvs. subst vq. destruct vs as [|v vs']; [done|].
    injection Hhead as ->. apply Forall_cons in Hbq as [Hb _]. congruence. }
  apply Forall2_app_inv_l in Hkp as (vp' & vq' & Hkp & Hq & ->).
  apply Forall2_cons_inv_l in Hq as (v & vn & Hev & Hq & ->). apply Forall2_nil_inv_l in Hq as ->.
  assert (x = e) as ->.
  { change (hd :: pre ++ [e]) with ((hd :: pre) ++ [e]) in Heq. by apply app_inj_tail in Heq as [_ ?]. }
  rewrite <-app_assoc in Hrep'.
  destruct (zr_node_lookup _ _ _ _ _ _ _ v Hrep' Hev) as (n & Hn & Hns & Hno). rewrite Hn, bind_Some_eq.
  rewrite Hvs in Hok. apply Forall_app in Hok as [Hokp _]. pose proof Hokp as [_ [Hv _]%Forall_cons]%Forall_app.
  rewrite (Hgte n v Hns Hno Hv), !bind_Some_eq. destruct (below v) eqn:Eb; cbn [negb].
  - rewrite (filter_none (λ v, negb (below v))); [done|].
    eapply Forall_impl; [apply (down_closed_last _ below v); [|done| |by apply last_snoc|done]|by intros w ->].
    + rewrite Hvs, StronglySorted_app in Hs. apply Hs.
    + eapply down_closed_sub; [|exact Hbelow]. rewrite Hvs. set_solver.
  - rewrite filter_app, (filter_cons_True _ v), filter_nil, last_snoc by (by rewrite Eb).
    rewrite bind_Some_eq. by rewrite (node_key_entry _ _ _ _ _ _ _ v Hrep' Hev).
Qed.
End in_range.
End query.
