(* ===== verification/SkiplistRefine.v ===== *)
(** * The theorems on skip lists

    Any sequence of insertions and deletions keeps a sorted list of keys; ranks
    and ranges answer for that list. *)

From S2P Require Import Prelude Util Object Skiplist SkiplistSpec SkiplistOps SkiplistRep SkiplistRange SkiplistQuery.

#[local] Open Scope Z_scope.

(** ** Ranges of scores *)

Lemma dcompare_Fin_cases (a b : double) :
  isnan a = false → isnan b = false → dcompare a b = Some Lt ∨ dcompare a b = Some Eq ∨ dcompare a b = Some Gt.
Proof. intros Ha Hb. destruct (dcompare_total a b Ha Hb) as [[] ->]; auto. Qed.

(** No score is between bounds in the wrong order. *)
Lemma score_range_empty_sound (range : zrangespec) (s : double) :
  range_ok range → isnan s = false →
  dgt (rmin range) (rmax range) || (deq (rmin range) (rmax range) && (minex range || maxex range)) = true →
  zslValueGteMin s range && zslValueLteMax s range = false.
Proof.
  intros [Hmin Hmax] Hs. unfold zslValueGteMin, zslValueLteMax, dgt, dge, dle, dlt, deq.
  rewrite (dcompare_antisym s (rmin range)), (dcompare_antisym (rmin range) (rmax range)).
  destruct (dcompare_Fin_cases s _ Hs Hmin) as [H1|[H1|H1]].
  - rewrite H1. by destruct (minex range).
  - rewrite (dcompare_eq_l _ _ (rmax range) H1), H1.
    destruct (dcompare_total _ _ Hmin Hmax) as [r ->]. by destruct r, (minex range), (maxex range).
  - destruct (dcompare_total _ _ Hmin Hmax) as [r Hr]. rewrite Hr. destruct r; [|done|].
    + rewrite <-(dcompare_eq_r s _ _ Hr), !H1. by destruct (minex range), (maxex range).
    + rewrite (dcompare_trans _ _ _ _ H1 Hr), H1. by destruct (minex range), (maxex range).
Qed.

Section theorems.
Context {Obj : Type} `{!StringObject Obj} `{!StringObjectLaws Obj}.
Implicit Types (h : zheap Obj) (zsl : zskiplist) (hd : entry Obj) (es : list (entry Obj)).
Implicit Types (v w k : double * Obj) (vs : list (double * Obj)) (p : loc).

Lemma key_ok_elem h zsl hd es vs v : zsl_rep h zsl hd es vs → v ∈ vs → key_ok v.
Proof. intros Hrep Hv. pose proof (zr_ok _ _ _ _ _ Hrep) as Hok. rewrite Forall_forall in Hok. by apply Hok. Qed.

Lemma score_gte_reads range h zsl hd es vs :
  zsl_rep h zsl hd es vs → range_ok range →
  reads (score_gte range) (λ v, negb (score_below range v.1)).
Proof. intros _ Hr n v Hs _ Hv. unfold score_gte. rewrite Hs, score_below_gte; [done|done|apply Hv]. Qed.

Lemma score_inside_eq range h zsl hd es vs :
  zsl_rep h zsl hd es vs → range_ok range →
  filter (λ v, inside (λ v, score_below range v.1) (λ v, zslValueLteMax v.1 range) v) vs =
  filter (λ v, score_inside range v) vs.
Proof.
  intros Hrep Hr. apply filter_ext_in. intros v Hv. unfold inside, score_inside.
  rewrite score_below_gte; [done|done|]. by apply (key_ok_elem _ _ _ _ _ _ Hrep).
Qed.


(** C17: [zslGetRank] is the 1-based position of an element that is in the list
    with the given score, and 0 when no element of the list has that object;
    [zslGetElementByRank] is the element at a 1-based position, [NULL] past the
    end.  The two are inverse to each other. *)
Theorem ranks_correct h zsl hd es vs :
  zsl_rep h zsl hd es vs → texts_distinct vs →
  (∀ i k, vs !! i = Some k → zslGetRank h zsl k.1 k.2 = Some (Z.of_nat i + 1)) ∧
  (∀ k, key_ok k → Forall (λ v, obj_text v.2 ≠ obj_text k.2) vs → zslGetRank h zsl k.1 k.2 = Some 0) ∧
  (∀ rank, 1 ≤ rank →
     (r ← zslGetElementByRank h zsl rank; Some (p ← r; node_key h p)) = Some (vs !! Z.to_nat (rank - 1))).
Proof.
  intros Hrep Hd. split; [|split].
  - intros i k. by apply (zslGetRank_present h zsl hd es).
  - intros k. by apply (zslGetRank_absent h zsl hd es).
  - intros rank. by apply (zslGetElementByRank_run h zsl hd es).
Qed.

(** ** Ranges of strings *)

(** The order of a string and a bound: [-] is below and [+] above everything. *)
Definition lex_cmp (t : bytes) (b : lexobj (Obj:=Obj)) : comparison :=
  match b with MinString => Gt | MaxString => Lt | LexObj o => text_compare t (obj_text o) end.

Definition lex_below (range : zlexrangespec) v : bool :=
  match lex_cmp (obj_text v.2) (lmin range) with Lt => true | Eq => lminex range | Gt => false end.
Definition lex_upto (range : zlexrangespec) v : bool :=
  match lex_cmp (obj_text v.2) (lmax range) with Lt => true | Eq => negb (lmaxex range) | Gt => false end.
Definition lex_inside (range : zlexrangespec) v : bool := inside (lex_below range) (lex_upto range) v.

Definition bound_ok (b : lexobj (Obj:=Obj)) : Prop := match b with LexObj o => obj_ok o | _ => True end.

Definition same_scores vs : Prop := ∀ v w, v ∈ vs → w ∈ vs → dcompare v.1 w.1 = Some Eq.

Lemma compare_lex_value o b :
  obj_ok o → bound_ok b →
  ∃ c, compareStringObjectsForLexRange (LexObj o) b = Some c ∧ (c ?= 0) = lex_cmp (obj_text o) b.
Proof.
  intros Ho Hb. destruct b as [| |o']; [by exists 1|by exists (-1)|]. by apply obj_compare_text.
Qed.

Lemma lex_gte_reads range : bound_ok (lmin range) → reads (lex_gte range) (λ v, negb (lex_below range v)).
Proof.
  intros Hb n v _ Ho [_ Hv]. unfold lex_gte, zslLexValueGteMin, lex_below. rewrite Ho, bind_Some_eq.
  destruct (compare_lex_value v.2 (lmin range) Hv Hb) as (c & -> & <-). rewrite bind_Some_eq. f_equal.
  destruct (lminex range); unfold Z.gtb, Z.geb; by destruct (c ?= 0).
Qed.

Lemma lex_lte_reads range : bound_ok (lmax range) → reads (lex_lte range) (lex_upto range).
Proof.
  intros Hb n v _ Ho [_ Hv]. unfold lex_lte, zslLexValueLteMax, lex_upto. rewrite Ho, bind_Some_eq.
  destruct (compare_lex_value v.2 (lmax range) Hv Hb) as (c & -> & <-). rewrite bind_Some_eq. f_equal.
  destruct (lmaxex range); unfold Z.ltb, Z.leb; by destruct (c ?= 0).
Qed.

Lemma lex_cmp_down t t' b :
  text_compare t t' = Lt →
  (lex_cmp t' b = Lt → lex_cmp t b = Lt) ∧ (lex_cmp t' b = Eq → lex_cmp t b = Lt).
Proof.
  intros Ht. destruct b as [| |o]; [done|done|]. simpl. split; intros H2.
  - by apply (text_compare_trans _ t').
  - apply text_compare_eq in H2 as <-. done.
Qed.

Lemma same_scores_text vs v w :
  same_scores vs → v ∈ vs → w ∈ vs → key_lt v w → text_compare (obj_text v.2) (obj_text w.2) = Lt.
Proof. intros Hs Hv Hw. unfold key_lt, key_compare. by rewrite (Hs v w Hv Hw). Qed.

Lemma lex_below_down vs range : same_scores vs → down_closed vs (lex_below range).
Proof.
  intros Hs v w Hv Hw _ _ Hlt. unfold lex_below.
  destruct (lex_cmp_down _ _ (lmin range) (same_scores_text vs v w Hs Hv Hw Hlt)) as [H1 H2].
  destruct (lex_cmp (obj_text w.2) (lmin range)); [by rewrite H2|by rewrite H1|done].
Qed.

Lemma lex_upto_down vs range : same_scores vs → down_closed vs (lex_upto range).
Proof.
  intros Hs v w Hv Hw _ _ Hlt. unfold lex_upto.
  destruct (lex_cmp_down _ _ (lmax range) (same_scores_text vs v w Hs Hv Hw Hlt)) as [H1 H2].
  destruct (lex_cmp (obj_text w.2) (lmax range)); [by rewrite H2|by rewrite H1|done].
Qed.

Section lex.
Context (minstring maxstring : Obj) (Hmin : obj_ok minstring) (Hmax : obj_ok maxstring).

(** The bounds are not a shared object and an object with the same text. *)
Definition lex_regular (range : zlexrangespec) : Prop :=
  obj_text (lex_obj minstring maxstring (lmin range)) = obj_text (lex_obj minstring maxstring (lmax range)) →
  lminex range || lmaxex range = true → ∃ a b, lmin range = LexObj a ∧ lmax range = LexObj b.

Lemma lex_obj_ok b : bound_ok b → obj_ok (lex_obj minstring maxstring b).
Proof using Hmin Hmax. by destruct b. Qed.

Lemma lex_range_empty_run range :
  bound_ok (lmin range) → bound_ok (lmax range) →
  ∃ e, lex_range_empty minstring maxstring range = Some e ∧
    (e = true →
      (∃ a b, lmin range = LexObj a ∧ lmax range = LexObj b ∧ text_compare (obj_text a) (obj_text b) = Gt) ∨
      obj_text (lex_obj minstring maxstring (lmin range)) = obj_text (lex_obj minstring maxstring (lmax range)) ∧
      lminex range || lmaxex range = true).
Proof using Hmin Hmax.
  intros H1 H2. unfold lex_range_empty.
  assert (∃ c, compareStringObjectsForLexRange (lmin range) (lmax range) = Some c ∧
    ((c >? 1) = true → ∃ a b, lmin range = LexObj a ∧ lmax range = LexObj b ∧
      text_compare (obj_text a) (obj_text b) = Gt)) as (c & -> & Hc).
  { destruct (lmin range) as [| |a], (lmax range) as [| |b]; try (eexists; split; [done|done]).
    destruct (obj_compare_text a b H1 H2) as (c & Hc & Hs). exists c. split; [done|]. intros Hc1.
    exists a, b. split; [done|]. split; [done|]. rewrite <-Hs. apply Z.compare_gt_iff. lia. }
  rewrite bind_Some_eq. destruct (c >? 1); [exists true; split; [done|]; left; by apply Hc|].
  destruct (obj_compare_text _ _ (lex_obj_ok _ H1) (lex_obj_ok _ H2)) as (c2 & -> & Hs). rewrite bind_Some_eq.
  eexists. split; [done|]. intros [Hz He]%andb_true_iff. right. split; [|done].
  apply text_compare_eq. rewrite <-Hs. apply Z.compare_eq_iff. lia.
Qed.

Lemma lex_bounds_empty range v :
  (∃ a b, lmin range = LexObj a ∧ lmax range = LexObj b ∧
     (text_compare (obj_text a) (obj_text b) = Gt ∨ obj_text a = obj_text b ∧ lminex range || lmaxex range = true)) →
  lex_inside range v = false.
Proof.
  intros (a & b & Ha & Hb & Hab). unfold lex_inside, inside, lex_below, lex_upto. rewrite Ha, Hb. simpl.
  destruct Hab as [Hab|[-> He]].
  - destruct (text_compare (obj_text v.2) (obj_text b)) eqn:E; [| |apply andb_false_r].
    + apply text_compare_eq in E as ->. rewrite text_compare_antisym, Hab. done.
    + assert (text_compare (obj_text b) (obj_text a) = Lt) as Hba by by rewrite text_compare_antisym, Hab.
      by rewrite (text_compare_trans _ _ _ E Hba).
  - destruct (text_compare _ _); [|done|done]. by destruct (lminex range), (lmaxex range).
Qed.

Lemma lex_empty_sound range vs e :
  lex_regular range → bound_ok (lmin range) → bound_ok (lmax range) →
  lex_range_empty minstring maxstring range = Some e →
  e = true → Forall (λ v, inside (lex_below range) (lex_upto range) v = false) vs.
Proof using Hmin Hmax.
  intros Hreg H1 H2 He ->. destruct (lex_range_empty_run range H1 H2) as (e & He' & Hsound).
  rewrite He in He'. injection He' as <-. apply Forall_forall. intros v _. apply lex_bounds_empty.
  destruct (Hsound eq_refl) as [(a & b & Ha & Hb & Hab)|[Ht Hex]]; [by exists a, b; auto|].
  destruct (Hreg Ht Hex) as (a & b & Ha & Hb). exists a, b. rewrite Ha, Hb in Ht. simpl in Ht. auto.
Qed.

(** in a skip list whose elements all have the same score, the functions on
    ranges of strings return the first and the last element in the range, with
    open, closed and infinite bounds, provided that no bound is spelled like the
    placeholder that stands for the other infinite bound. *)
Theorem lex_ranges_correct h zsl hd es vs range :
  zsl_rep h zsl hd es vs → same_scores vs → bound_ok (lmin range) → bound_ok (lmax range) →
  lex_regular range →
  (r ← zslFirstInLexRange minstring maxstring h zsl range; Some (p ← r; node_key h p)) =
    Some (head (filter (λ v, lex_inside range v) vs)) ∧
  (r ← zslLastInLexRange minstring maxstring h zsl range; Some (p ← r; node_key h p)) =
    Some (last (filter (λ v, lex_inside range v) vs)) ∧
  ∃ c, zslIsInLexRange minstring maxstring h zsl range = Some c ∧
    (c = false → filter (λ v, lex_inside range v) vs = []).
Proof using Hmin Hmax.
  intros Hrep Hsame H1 H2 Hreg. destruct (lex_range_empty_run range H1 H2) as (e & He & _).
  pose proof (lex_empty_sound range vs e Hreg H1 H2 He) as Hempty.
  unfold zslFirstInLexRange, zslLastInLexRange, zslIsInLexRange. rewrite He.
  pose proof (lex_gte_reads range H1) as Hg. pose proof (lex_lte_reads range H2) as Hl.
  split; [|split].
  - by apply (first_in_range_run h zsl hd es vs Hrep _ _ _ _ Hg Hl (lex_below_down vs range Hsame)
      (lex_upto_down vs range Hsame) e Hempty).
  - by apply (last_in_range_run h zsl hd es vs Hrep _ _ _ _ Hg Hl (lex_below_down vs range Hsame)
      (lex_upto_down vs range Hsame) e Hempty).
  - destruct (is_in_range_run h zsl hd es vs Hrep _ _ _ _ Hg Hl (lex_below_down vs range Hsame)
      (lex_upto_down vs range Hsame) e Hempty) as (c & Hc & Hin). exists c. split; [exact Hc|]. intros ->.
    by apply (filter_none (lex_inside range)).
Qed.

(** C19: the exception is real: a range from [-] to an excluded string that has the
    text of the object shared for [-] is taken for empty, although every smaller
    string is in it. *)
Theorem lex_range_placeholder_bug h zsl o :
  obj_ok o → obj_text o = obj_text minstring →
  let range := ZLexRangeSpec MinString (LexObj o) false true in
  zslFirstInLexRange minstring maxstring h zsl range = Some None ∧
  zslLastInLexRange minstring maxstring h zsl range = Some None ∧
  ∀ v, text_compare (obj_text v.2) (obj_text o) = Lt → lex_inside range v = true.
Proof using Hmin.
  intros Ho Ht range.
  assert (lex_range_empty minstring maxstring range = Some true) as He.
  { unfold lex_range_empty, range. simpl.
    destruct (obj_compare_text minstring o Hmin Ho) as (c & -> & Hc). simpl.
    rewrite <-Ht, text_compare_refl in Hc. apply Z.compare_eq_iff in Hc as ->. done. }
  unfold zslFirstInLexRange, zslLastInLexRange, first_in_range, last_in_range, is_in_range. rewrite He.
  split; [done|]. split; [done|]. intros v Hv. unfold lex_inside, inside, lex_below, lex_upto. simpl. by rewrite Hv.
Qed.
End lex.
End theorems.

(** ** Sequences of operations *)

(** [rnd] are the values [random()] returns during the insertion. *)
Inductive zop (Obj : Type) :=
  | ZInsert (k : double * Obj) (rnd : list Z)
  | ZDelete (k : double * Obj)
  | ZDeleteByScore (range : zrangespec)
  | ZDeleteByRank (start end_ : Z)
  | ZDeleteByLex (range : zlexrangespec (Obj:=Obj)).
Arguments ZInsert {Obj} _ _.
Arguments ZDelete {Obj} _.
Arguments ZDeleteByScore {Obj} _.
Arguments ZDeleteByRank {Obj} _ _.
Arguments ZDeleteByLex {Obj} _.

Section sequences.
Context {Obj : Type} `{!StringObject Obj} `{!StringObjectLaws Obj} `{!EntryAllocator} `{!FreshNode}.
Context {D : Type} (dict_delete : D → Obj → option D) (dict_ok : D → Prop).
Context (Hdict : ∀ d o, dict_ok d → ∃ d', dict_delete d o = Some d' ∧ dict_ok d').
Implicit Types (h : zheap Obj) (zsl : zskiplist) (hd : entry Obj) (es : list (entry Obj)).
Implicit Types (v w k : double * Obj) (vs : list (double * Obj)) (d : D).

Definition run_zop (st : zheap Obj * zskiplist * D) (o : zop Obj) : option (zheap Obj * zskiplist * D) :=
  let '(h, zsl, d) := st in
  match o with
  | ZInsert k rnd => '(_, h, zsl, _) ← zslInsert h zsl k.1 k.2 rnd; Some (h, zsl, d)
  | ZDelete k => '(_, h, zsl) ← zslDelete h zsl k.1 k.2; Some (h, zsl, d)
  | ZDeleteByScore range =>
    '(h, zsl, d, _) ← zslDeleteRangeByScore dict_delete h zsl range d; Some (h, zsl, d)
  | ZDeleteByRank start end_ =>
    '(h, zsl, d, _) ← zslDeleteRangeByRank dict_delete h zsl start end_ d; Some (h, zsl, d)
  | ZDeleteByLex range =>
    '(h, zsl, d, _) ← zslDeleteRangeByLex dict_delete h zsl range d; Some (h, zsl, d)
  end.

Fixpoint run_zops (st : zheap Obj * zskiplist * D) (os : list (zop Obj)) : option (zheap Obj * zskiplist * D) :=
  match os with [] => Some st | o :: os => st ← run_zop st o; run_zops st os end.

(** On the sorted list: the keys afterwards, the keys whose object is released,
    and those deleted from the dictionary. *)
Definition spec_zop vs (o : zop Obj) : list (double * Obj) * list (double * Obj) * list (double * Obj) :=
  match o with
  | ZInsert k _ => (zs_insert k vs, [], [])
  | ZDelete k => (filter (λ v, negb (key_is k v)) vs, filter (λ v, key_is k v) vs, [])
  | ZDeleteByScore range =>
    let del := filter (λ v, score_inside range v) vs in (filter (λ v, negb (score_inside range v)) vs, del, del)
  | ZDeleteByRank start end_ =>
    let p := Z.to_nat (start - 1) in let n := (Z.to_nat end_ - p)%nat in
    let del := take n (drop p vs) in (take p vs ++ drop n (drop p vs), del, del)
  | ZDeleteByLex range =>
    let del := filter (λ v, lex_inside range v) vs in (filter (λ v, negb (lex_inside range v)) vs, del, del)
  end.

Fixpoint spec_zops vs (os : list (zop Obj)) : list (double * Obj) * list (double * Obj) * list (double * Obj) :=
  match os with
  | [] => (vs, [], [])
  | o :: os =>
    let '(vs, r1, d1) := spec_zop vs o in let '(vs, r2, d2) := spec_zops vs os in (vs, r1 ++ r2, d1 ++ d2)
  end.

(** What the callers guarantee: no NaN, an inserted element is not in the list,
    ranges of strings are for elements of one score. *)
Definition zop_ok vs (o : zop Obj) : Prop :=
  match o with
  | ZInsert k rnd =>
    key_ok k ∧ Forall (λ v, key_compare v k ≠ Eq) vs ∧ zlen vs + 1 < 2 ^ 32 ∧ is_Some (zslRandomLevel rnd)
  | ZDelete k => key_ok k
  | ZDeleteByScore range => range_ok range
  | ZDeleteByRank start end_ => 0 ≤ start ∧ 0 ≤ end_
  | ZDeleteByLex range => same_scores vs ∧ bound_ok (lmin range) ∧ bound_ok (lmax range)
  end.

Fixpoint zops_ok vs (os : list (zop Obj)) : Prop :=
  match os with [] => True | o :: os => zop_ok vs o ∧ zops_ok (spec_zop vs o).1.1 os end.

Lemma dict_delete_all_app d os1 os2 :
  dict_delete_all dict_delete d (os1 ++ os2) =
  d ← dict_delete_all dict_delete d os1; dict_delete_all dict_delete d os2.
Proof.
  revert d. induction os1 as [|o os1 IH]; intros d; simpl; [done|].
  destruct (dict_delete d o); [|done]. rewrite !bind_Some_eq. apply IH.
Qed.

Lemma run_zop_correct h zsl hd es vs d o :
  zsl_rep h zsl hd es vs → dict_ok d → zop_ok vs o →
  let '(vs', rel, del) := spec_zop vs o in
  ∃ h' zsl' es' d', run_zop (h, zsl, d) o = Some (h', zsl', d') ∧
    zstep h hd es rel.*2 h' zsl' es' vs' ∧ dict_delete_all dict_delete d del.*2 = Some d' ∧ dict_ok d'.
Proof using Hdict.
  intros Hrep Hd Hok. destruct o as [k rnd|k|range|start end_|range]; simpl in Hok |- *.
  - destruct Hok as (Hk & Hne & Hb & [level rnd'] & Hrnd).
    destruct (zslInsert_run h zsl hd es vs k rnd level rnd' Hrep Hk Hne Hb Hrnd)
      as (x & h' & zsl' & es' & -> & Hst & _). exists h', zsl', es', d. done.
  - destruct (zslDelete_run h zsl hd es vs k Hrep Hok) as (h' & zsl' & es' & -> & Hst).
    exists h', zsl', es', d. done.
  - destruct (zslDeleteRangeByScore_run dict_delete dict_ok Hdict h zsl hd es vs d range Hrep Hd Hok)
      as (h' & zsl' & d' & es' & -> & Hst & Hda & Hd'). exists h', zsl', es', d'. done.
  - destruct (zslDeleteRangeByRank_run dict_delete dict_ok Hdict h zsl hd es vs d start end_ Hrep Hd
      (proj1 Hok) (proj2 Hok)) as (h' & zsl' & d' & es' & -> & Hst & Hda & Hd').
    exists h', zsl', es', d'. done.
  - destruct Hok as (Hsame & H1 & H2).
    destruct (delete_between_run dict_delete dict_ok Hdict h zsl hd es vs d (lex_below range) (lex_upto range)
      (λ n, negb <$> lex_gte range n) (lex_lte range) Hrep Hd) as (h' & zsl' & d' & es' & Hrun & Hst & Hda & Hd').
    + intros n v Hs Ho Hv. rewrite (lex_gte_reads range H1 n v Hs Ho Hv). simpl. by rewrite negb_involutive.
    + by apply lex_lte_reads.
    + by apply lex_below_down.
    + by apply lex_upto_down.
    + exists h', zsl', es', d'. unfold zslDeleteRangeByLex. rewrite Hrun. done.
Qed.

Lemma run_zops_correct h zsl hd es vs d os :
  zsl_rep h zsl hd es vs → dict_ok d → zops_ok vs os →
  let '(vs', rel, del) := spec_zops vs os in
  ∃ h' zsl' es' d', run_zops (h, zsl, d) os = Some (h', zsl', d') ∧
    zstep h hd es rel.*2 h' zsl' es' vs' ∧ dict_delete_all dict_delete d del.*2 = Some d' ∧ dict_ok d'.
Proof using Hdict.
  revert h zsl es vs d. induction os as [|o os IH]; intros h zsl es vs d Hrep Hd Hok;
    cbn [run_zops spec_zops].
  { exists h, zsl, es, d. split; [done|]. split; [by apply zstep_refl|done]. }
  destruct Hok as [Ho Hok]. pose proof (run_zop_correct h zsl hd es vs d o Hrep Hd Ho) as Hrun.
  destruct (spec_zop vs o) as [[vs1 r1] d1]. destruct Hrun as (h1 & zsl1 & es1 & dd1 & -> & Hst & Hda & Hd1). rewrite bind_Some_eq.
  pose proof (IH h1 zsl1 es1 vs1 dd1 (zst_rep _ _ _ _ _ _ _ _ Hst) Hd1 Hok) as Hrun.
  destruct (spec_zops vs1 os) as [[vs2 r2] d2].
  destruct Hrun as (h2 & zsl2 & es2 & dd2 & Hrun & Hst2 & Hda2 & Hd2).
  exists h2, zsl2, es2, dd2. split; [exact Hrun|]. rewrite !fmap_app.
  split; [by eapply zstep_trans|]. split; [|done]. by rewrite dict_delete_all_app, Hda, bind_Some_eq.
Qed.

(** C16: a new skip list and any sequence of insertions and of deletions by key,
    score, rank and string, whatever levels the insertions draw: no access goes
    outside the nodes, the list holds the keys of the specification in
    increasing order, read forwards and backwards; its length and its level are
    right; every object deleted by a range is deleted from the dictionary and
    every deleted object is released once; and [zslFree] then gives back the
    heap from before, the remaining objects released. *)
Theorem skiplist_refines h d os :
  dict_ok d → zops_ok [] os →
  let '(vs, rel, del) := spec_zops [] os in
  ∃ h0 zsl0 h' zsl' d' h'' l, zslCreate h = Some (h0, zsl0) ∧
    run_zops (h0, zsl0, d) os = Some (h', zsl', d') ∧
    StronglySorted key_lt vs ∧ zsl_length zsl' = zlen vs ∧ 1 ≤ zsl_level zsl' ≤ ZSKIPLIST_MAXLEVEL ∧
    get_level h' (zsl_header zsl') 0 = Some l ∧ keys_forward (length vs) h' (forward l) = Some vs ∧
    keys_backward (length vs) h' (zsl_tail zsl') = Some (reverse vs) ∧
    released h' = released h ++ rel.*2 ∧ dict_delete_all dict_delete d del.*2 = Some d' ∧
    zslFree h' zsl' = Some h'' ∧ zn h'' = zn h ∧ released h'' = released h' ++ vs.*2.
Proof using Hdict.
  intros Hd Hok. destruct (zslCreate_run h) as (h0 & zsl0 & hd & Hc & Hfresh & Hst0 & Hfr).
  pose proof (run_zops_correct h0 zsl0 hd [] [] d os (zst_rep _ _ _ _ _ _ _ _ Hst0) Hd Hok) as Hrun.
  destruct (spec_zops [] os) as [[vs rel] del].
  destruct Hrun as (h' & zsl' & es & d' & Hrun & Hst & Hda & Hd'). pose proof (zst_rep _ _ _ _ _ _ _ _ Hst) as Hrep.
  destruct (zslFree_run h' zsl' hd es vs Hrep) as (h'' & Hfree & Hz & Hrel).
  destruct (next_of_last h' zsl' hd [] es vs [] hd Hrep eq_refl) as [sp Hl].
  pose proof (Forall2_length _ _ _ (zr_keys _ _ _ _ _ Hrep)) as Hlen.
  exists h0, zsl0, h', zsl', d', h'', (ZLevel (e_loc <$> head es) sp).
  rewrite (zr_header _ _ _ _ _ Hrep), (zr_tail _ _ _ _ _ Hrep), (zr_length _ _ _ _ _ Hrep), <-Hlen.
  split; [done|]. split; [done|]. split; [apply Hrep|]. split; [done|]. split; [apply Hrep|]. split; [done|].
  split; [by apply (keys_forward_run h' zsl' hd [] es vs); [|apply Hrep]|].
  split; [apply (keys_backward_run h' zsl' hd es [] vs); rewrite ?app_nil_r; [done|apply Hrep]|].
  split; [by rewrite (zst_released _ _ _ _ _ _ _ _ Hst), (zst_released _ _ _ _ _ _ _ _ Hst0), app_nil_r|].
  split; [done|]. split; [done|]. split; [|done].
  apply map_eq. intros p. rewrite Hz, (zst_others _ _ _ _ _ _ _ _ Hst). unfold zothers.
  destruct (decide (p ∈ e_loc <$> [hd])) as [Hp|Hp].
  - apply list_elem_of_singleton in Hp as ->. done.
  - apply Hfr. intros ->. apply Hp. left.
Qed.
End sequences.

(** ** Concrete runs *)

Definition abc : robj := SdsObj [97; 98; 99].
Definition minstring_obj : robj := SdsObj [109; 105; 110; 115; 116; 114; 105; 110; 103].
Definition maxstring_obj : robj := SdsObj [109; 97; 120; 115; 116; 114; 105; 110; 103].

Section samples.
#[local] Existing Instance poison_allocator.
#[local] Existing Instance diff_string_lib.
#[local] Existing Instance next_entry_allocator.
#[local] Existing Instance poison_node.

(** Draws below 16384 raise the level of a node. *)
Definition sample_zops : list (zop robj) :=
  [ZInsert (Fin 5, abc) [1; 2; 60000]; ZInsert (Fin 3, IntObj 12) [50000]; ZInsert (NegInf, SdsObj [1]) [3; 20000];
   ZInsert (Fin 5, SdsObj [97; 98]) [0; 0; 0; 65535]; ZDelete (Fin 3, SdsObj [49; 50]);
   ZDeleteByScore (ZRangeSpec NegInf (Fin 0) false true); ZDeleteByRank 1 0].

Example sample_zops_spec :
  spec_zops [] sample_zops =
  ([(Fin 5, SdsObj [97; 98]); (Fin 5, abc)], [(Fin 3, IntObj 12); (NegInf, SdsObj [1])], [(NegInf, SdsObj [1])]).
Proof. vm_compute. reflexivity. Qed.

Lemma sample_zops_ok : zops_ok [] sample_zops.
Proof.
  repeat (split; [vm_compute; repeat split; try done; try (by eexists); repeat constructor; done|]). done.
Qed.

(** A dictionary that records what is deleted from it. *)
Definition sample_delete (d : list robj) (o : robj) : option (list robj) := Some (d ++ [o]).

Lemma sample_delete_ok d o : True → ∃ d', sample_delete d o = Some d' ∧ True.
Proof. intros _. by eexists. Qed.

Definition empty_heap : zheap robj := ZHeap ∅ [].
Definition sample_keys : list (double * robj) := [(Fin 5, SdsObj [97; 98]); (Fin 5, abc)].

Lemma sample_rep : ∃ h zsl hd es, zsl_rep h zsl hd es sample_keys.
Proof.
  destruct (zslCreate_run empty_heap) as (h0 & zsl0 & hd & _ & _ & Hst & _).
  pose proof (run_zops_correct sample_delete (λ _, True) sample_delete_ok h0 zsl0 hd [] [] [] sample_zops
    (zst_rep _ _ _ _ _ _ _ _ Hst) I sample_zops_ok) as Hrun.
  rewrite sample_zops_spec in Hrun. destruct Hrun as (h' & zsl' & es & d' & _ & Hst' & _).
  exists h', zsl', hd, es. apply Hst'.
Qed.

Lemma skiplist_refines_witness :
  ∃ h0 zsl0 h' zsl' d', zslCreate empty_heap = Some (h0, zsl0) ∧
    run_zops sample_delete (h0, zsl0, []) sample_zops = Some (h', zsl', d') ∧ zsl_length zsl' = 2.
Proof.
  pose proof (skiplist_refines sample_delete (λ _, True) sample_delete_ok empty_heap [] sample_zops I sample_zops_ok)
    as H. rewrite sample_zops_spec in H.
  destruct H as (h0 & zsl0 & h' & zsl' & d' & h'' & l & H1 & H2 & _ & H3 & _).
  exists h0, zsl0, h', zsl', d'. split; [exact H1|]. split; [exact H2|exact H3].
Defined.

Definition sample_range : zrangespec := ZRangeSpec (Fin 5) PosInf false false.


Lemma sample_texts_distinct : texts_distinct sample_keys.
Proof. apply (bool_decide_unpack _). vm_compute. exact I. Qed.

Lemma ranks_correct_witness :
  ∃ h zsl, zslGetRank h zsl (Fin 5) abc = Some 2.
Proof.
  destruct sample_rep as (h & zsl & hd & es & Hrep).
  pose proof (ranks_correct h zsl hd es sample_keys Hrep sample_texts_distinct) as [H _].
  exists h, zsl. exact (H 1%nat (Fin 5, abc) eq_refl).
Defined.

Lemma sample_same_scores : same_scores sample_keys.
Proof.
  intros v w Hv Hw. unfold sample_keys in *. rewrite !elem_of_cons in Hv, Hw.
  destruct Hv as [->|[->|Hv%elem_of_nil]], Hw as [->|[->|Hw%elem_of_nil]]; done.
Qed.

(** [(ab] to [+] *)
Definition sample_lex_range : zlexrangespec := ZLexRangeSpec (LexObj (SdsObj [97; 98])) MaxString true false.

Lemma minstring_obj_ok : robj_ok minstring_obj.
Proof. by vm_compute. Qed.

Lemma maxstring_obj_ok : robj_ok maxstring_obj.
Proof. by vm_compute. Qed.

Lemma sample_lex_min_ok : bound_ok (lmin sample_lex_range).
Proof. by vm_compute. Qed.

Lemma lex_ranges_correct_witness :
  ∃ h zsl, (r ← zslFirstInLexRange minstring_obj maxstring_obj h zsl sample_lex_range; Some (p ← r; node_key h p)) =
    Some (Some (Fin 5, abc)).
Proof.
  destruct sample_rep as (h & zsl & hd & es & Hrep).
  pose proof (lex_ranges_correct minstring_obj maxstring_obj minstring_obj_ok maxstring_obj_ok
    h zsl hd es sample_keys sample_lex_range Hrep sample_same_scores sample_lex_min_ok I) as H.
  destruct H as [H _]; [intros Ht; vm_compute in Ht; discriminate Ht|]. exists h, zsl. exact H.
Defined.

(** [ZRANGEBYLEX key - (minstring] on a list that holds [abc] *)
Lemma lex_range_placeholder_bug_witness :
  zslFirstInLexRange minstring_obj maxstring_obj empty_heap (ZSkiplist 1 None 0 1)
    (ZLexRangeSpec MinString (LexObj minstring_obj) false true) = Some None ∧
  lex_inside (ZLexRangeSpec MinString (LexObj minstring_obj) false true) (Fin 5, abc) = true.
Proof.
  pose proof (lex_range_placeholder_bug minstring_obj maxstring_obj minstring_obj_ok empty_heap
    (ZSkiplist 1 None 0 1) minstring_obj minstring_obj_ok eq_refl) as (H1 & _ & H2).
  split; [exact H1|]. apply H2. vm_compute. reflexivity.
Defined.
End samples.
