(* ===== verification/Sds.v ===== *)
(** * Simple dynamic strings: [sds.c], [sds.h]

    A string is the memory block its pointer leads into: the header fields and
    the buffer behind it.  [SdsText] proves what the operations do to the text. *)

From S2P Require Import Prelude Util Glob Object.

#[local] Open Scope Z_scope.

Definition SDS_MAX_PREALLOC : Z := 1024 * 1024.

(** [struct sdshdr] *)
Record sds := Sds { sh_len : Z; sh_free : Z; sh_buf : bytes }.

Definition sdslen (s : sds) : Z := sh_len s.
Definition sdsavail (s : sds) : Z := sh_free s.

(** The fields are [unsigned int]. *)
Definition set_hdr (s : sds) (len free : Z) : sds := Sds (u32 len) (u32 free) (sh_buf s).
(** [s[i] = c], [memcpy(s+i, bs, ...)] *)
Definition sds_put (s : sds) (i c : Z) : option sds := b ← wr1 (sh_buf s) i c; Some (Sds (sh_len s) (sh_free s) b).
Definition sds_write (s : sds) (i : Z) (bs : bytes) : option sds :=
  b ← wr (sh_buf s) i bs; Some (Sds (sh_len s) (sh_free s) b).

Section ops.
Context `{!Allocator}.
Implicit Types (s : sds).

(** [init] is [NULL] or a block. *)
Definition sdsnewlen (init : option bytes) (initlen : Z) : option sds :=
  let buf := if init is Some _ then zmalloc (initlen + 1) else replicate (Z.to_nat (initlen + 1)) 0 in
  let s := Sds (u32 (s32 initlen)) 0 buf in
  s ← (match init with
       | Some b => if initlen =? 0 then Some s else bs ← rd b 0 initlen; sds_write s 0 bs
       | None => Some s
       end);
  sds_put s initlen 0.

Definition sdsempty : option sds := sdsnewlen (Some [0]) 0.

Definition sdsnew (init : option bytes) : option sds :=
  initlen ← (match init with Some b => strlen b | None => Some 0 end);
  sdsnewlen init initlen.

Definition sdsdup s : option sds := sdsnewlen (Some (sh_buf s)) (sdslen s).

Definition sdsupdatelen s : option sds :=
  reallen ← strlen (sh_buf s);
  Some (set_hdr s (s32 reallen) (sh_free s + (sh_len s - s32 reallen))).

Definition sdsclear s : option sds := sds_put (set_hdr s 0 (sh_free s + sh_len s)) 0 0.

Definition sdsMakeRoomFor s (addlen : Z) : sds :=
  let free := sdsavail s in
  if free >=? addlen then s
  else
    let len := sdslen s in
    let newlen := u64 (len + addlen) in
    let newlen := if newlen <? SDS_MAX_PREALLOC then u64 (newlen * 2) else u64 (newlen + SDS_MAX_PREALLOC) in
    set_hdr (Sds (sh_len s) (sh_free s) (zrealloc (sh_buf s) (newlen + 1))) (sh_len s) (s32 (newlen - len)).

Definition sdsRemoveFreeSpace s : sds :=
  set_hdr (Sds (sh_len s) (sh_free s) (zrealloc (sh_buf s) (sh_len s + 1))) (sh_len s) 0.

(** [sizeof(struct sdshdr)] is 8. *)
Definition sdsAllocSize s : Z := u64 (8 + sh_len s + sh_free s + 1).

Definition sdsIncrLen s (incr : Z) : option sds :=
  check (if incr >=? 0 then sh_free s >=? u32 incr else sh_len s >=? u32 (- incr)) ;;
  let s := set_hdr s (sh_len s + incr) (sh_free s - incr) in
  sds_put s (sh_len s) 0.

Definition sdsgrowzero s (len : Z) : option sds :=
  let curlen := sh_len s in
  if len <=? curlen then Some s
  else
    let s := sdsMakeRoomFor s (len - curlen) in
    s ← sds_write s curlen (replicate (Z.to_nat (len - curlen + 1)) 0);
    let totlen := u32 (sh_len s + sh_free s) in
    let s := set_hdr s (s32 len) (sh_free s) in
    Some (set_hdr s (sh_len s) (s32 (totlen - sh_len s))).

(** [t] is a block of at least [len] bytes. *)
Definition sdscatlen s (t : bytes) (len : Z) : option sds :=
  let curlen := sdslen s in
  let s := sdsMakeRoomFor s len in
  bs ← rd t 0 len;
  s ← sds_write s curlen bs;
  let s := set_hdr s (s32 (curlen + len)) (s32 (sh_free s - len)) in
  sds_put s (curlen + len) 0.

Definition sdscat s (t : bytes) : option sds := n ← strlen t; sdscatlen s t n.
Definition sdscatsds s (t : sds) : option sds := sdscatlen s (sh_buf t) (sdslen t).

Definition sdscpylen s (t : bytes) (len : Z) : option sds :=
  let totlen := u32 (sh_free s + sh_len s) in
  let '(s, totlen) :=
    if totlen <? len then
      let s := sdsMakeRoomFor s (len - sh_len s) in (s, u32 (sh_free s + sh_len s))
    else (s, totlen) in
  bs ← rd t 0 len;
  s ← sds_write s 0 bs;
  s ← sds_put s len 0;
  Some (set_hdr s (s32 len) (s32 (totlen - len))).

Definition sdscpy s (t : bytes) : option sds := n ← strlen t; sdscpylen s t n.

(** ** Numbers *)

Definition SDS_LLSTR_SIZE : Z := 21.

(** [do { *p++ = '0'+(v%10); v /= 10; } while(v);] *)
Definition ll2str_body (st : bytes * Z * Z) : option (bytes * Z * Z + bytes * Z) :=
  let '(b, p, v) := st in
  b ← wr1 b p (ch_0 + v mod 10);
  let v := v / 10 in
  Some (if v =? 0 then inr (b, p + 1) else inl (b, p + 1, v)).

(** [while(s < p) { swap *s and *p; s++; p--; }] *)
Definition reverse_body (st : bytes * Z * Z) : option (bytes * Z * Z + bytes) :=
  let '(b, s, p) := st in
  if s <? p then
    aux ← rd1 b s; x ← rd1 b p; b ← wr1 b s x; b ← wr1 b p aux; Some (inl (b, s + 1, p - 1))
  else Some (inr b).

(** The digits of [v], the sign, and the reversal; at most 20 digits. *)
Definition sdsu2str (b : bytes) (v : Z) (negative : bool) : option (Z * bytes) :=
  '(b, p) ← loop 20 ll2str_body (b, 0, v);
  '(b, p) ← (if negative then b ← wr1 b p ch_minus; Some (b, p + 1) else Some (b, p));
  let l := p in
  b ← wr1 b p 0;
  b ← loop 22 reverse_body (b, 0, p - 1);
  Some (s32 l, b).

(** The negation of the least value wraps. *)
Definition sdsll2str (b : bytes) (value : Z) : option (Z * bytes) :=
  sdsu2str b (u64 (if value <? 0 then s64 (- value) else value)) (value <? 0).

Definition sdsull2str (b : bytes) (v : Z) : option (Z * bytes) := sdsu2str b v false.

Definition sdsfromlonglong (value : Z) : option sds :=
  '(len, buf) ← sdsll2str (fresh (Z.to_nat SDS_LLSTR_SIZE)) value;
  sdsnewlen (Some buf) len.

(** ** Formatting *)

(** The arguments of a call with a variable number of them, by type. *)
Inductive va :=
  | VaStr (str : bytes)
  | VaSds (str : sds)
  | VaInt (n : Z)
  | VaLongLong (n : Z)
  | VaUInt (n : Z)
  | VaULongLong (n : Z).

(** Room for [l] bytes, and [memcpy(s+i,str,l)]. *)
Definition fmt_append s (i : Z) (str : bytes) (l : Z) : option (sds * Z) :=
  let s := if sh_free s <? l then sdsMakeRoomFor s l else s in
  bs ← rd str 0 l;
  s ← sds_write s i bs;
  Some (set_hdr s (sh_len s + l) (sh_free s - l), s32 (i + l)).

(** [s[i++] = c] *)
Definition fmt_char s (i c : Z) : option (sds * Z) :=
  s ← sds_put s i c;
  Some (set_hdr s (sh_len s + 1) (sh_free s - 1), s32 (i + 1)).

(** A conversion: the argument must have the type that the format says. *)
Definition fmt_conversion s (i next : Z) (ap : list va) : option (sds * Z * list va) :=
  if next =? 115 (* 's' *) then
    match ap with
    | VaStr str :: ap => l ← strlen str; '(s, i) ← fmt_append s i str (u32 (s32 l)); Some (s, i, ap)
    | _ => None
    end
  else if next =? 83 (* 'S' *) then
    match ap with
    | VaSds t :: ap => '(s, i) ← fmt_append s i (sh_buf t) (u32 (s32 (sdslen t))); Some (s, i, ap)
    | _ => None
    end
  else if next =? 105 (* 'i' *) then
    match ap with
    | VaInt n :: ap =>
      '(l, buf) ← sdsll2str (fresh (Z.to_nat SDS_LLSTR_SIZE)) n;
      '(s, i) ← fmt_append s i buf (u32 l); Some (s, i, ap)
    | _ => None
    end
  else if next =? 73 (* 'I' *) then
    match ap with
    | VaLongLong n :: ap =>
      '(l, buf) ← sdsll2str (fresh (Z.to_nat SDS_LLSTR_SIZE)) n;
      '(s, i) ← fmt_append s i buf (u32 l); Some (s, i, ap)
    | _ => None
    end
  else if next =? 117 (* 'u' *) then
    match ap with
    | VaUInt n :: ap =>
      '(l, buf) ← sdsull2str (fresh (Z.to_nat SDS_LLSTR_SIZE)) n;
      '(s, i) ← fmt_append s i buf (u32 l); Some (s, i, ap)
    | _ => None
    end
  else if next =? 85 (* 'U' *) then
    match ap with
    | VaULongLong n :: ap =>
      '(l, buf) ← sdsull2str (fresh (Z.to_nat SDS_LLSTR_SIZE)) n;
      '(s, i) ← fmt_append s i buf (u32 l); Some (s, i, ap)
    | _ => None
    end
  else '(s, i) ← fmt_char s i next; Some (s, i, ap).

Definition fmt_body (fmt : bytes) (st : Z * sds * Z * list va) : option (Z * sds * Z * list va + sds * Z) :=
  let '(f, s, i, ap) := st in
  c ← rd1 fmt f;
  if c =? 0 then Some (inr (s, i))
  else
    let s := if sh_free s =? 0 then sdsMakeRoomFor s 1 else s in
    if c =? 37 (* '%' *) then
      next ← rd1 fmt (f + 1);
      '(s, i, ap) ← fmt_conversion s i next ap;
      Some (inl (f + 2, s, i, ap))
    else
      '(s, i) ← fmt_char s i c;
      Some (inl (f + 1, s, i, ap)).

Definition sdscatfmt s (fmt : bytes) (ap : list va) : option sds :=
  '(s, i) ← loop (S (length fmt)) (fmt_body fmt) (0, s, s32 (sdslen s), ap);
  sds_put s i 0.

(** ** Editing in place *)

(** [strchr(cset, c) != NULL]: the terminator of [cset] is found too. *)
Fixpoint strchr (cset : bytes) (c : Z) : option bool :=
  match cset with
  | [] => None
  | x :: cset => if x =? c then Some true else if x =? 0 then Some false else strchr cset c
  end.

(** [while(sp <= end && strchr(cset, * sp)) sp++;] *)
Definition trim_left_body s (cset : bytes) (end_ sp : Z) : option (Z + Z) :=
  if sp <=? end_ then
    x ← rd1 (sh_buf s) sp; c ← strchr cset x; Some (if (c : bool) then inl (sp + 1) else inr sp)
  else Some (inr sp).

(** [while(ep > start && strchr(cset, * ep)) ep--;] *)
Definition trim_right_body s (cset : bytes) (start ep : Z) : option (Z + Z) :=
  if ep >? start then
    x ← rd1 (sh_buf s) ep; c ← strchr cset x; Some (if (c : bool) then inl (ep - 1) else inr ep)
  else Some (inr ep).

Definition sds_memmove s (dst src n : Z) : option sds :=
  b ← memmove (sh_buf s) dst src n; Some (Sds (sh_len s) (sh_free s) b).

Definition sdstrim s (cset : bytes) : option sds :=
  let start := 0 in
  let end_ := sdslen s - 1 in
  sp ← loop (S (Z.to_nat (sdslen s))) (trim_left_body s cset end_) start;
  ep ← loop (S (Z.to_nat (sdslen s))) (trim_right_body s cset start) end_;
  let len := if sp >? ep then 0 else ep - sp + 1 in
  s ← (if negb (sp =? 0) then sds_memmove s 0 sp len else Some s);
  s ← sds_put s len 0;
  Some (set_hdr s (s32 len) (sh_free s + s32 (sh_len s - len))).

Definition sdsrange s (start end_ : Z) : option sds :=
  let len := sdslen s in
  if len =? 0 then Some s
  else
    let start := if start <? 0 then Z.max 0 (s32 (s32 len + start)) else start in
    let end_ := if end_ <? 0 then Z.max 0 (s32 (s32 len + end_)) else end_ in
    let newlen := if start >? end_ then 0 else s32 (end_ - start + 1) in
    let '(start, newlen) :=
      if negb (newlen =? 0) then
        if start >=? s32 len then (start, 0)
        else if end_ >=? s32 len then
          let end_ := s32 len - 1 in
          (start, if start >? end_ then 0 else end_ - start + 1)
        else (start, newlen)
      else (0, newlen) in
    s ← (if negb (start =? 0) && negb (newlen =? 0) then sds_memmove s 0 start newlen else Some s);
    s ← sds_put s newlen 0;
    Some (set_hdr s (s32 newlen) (s32 (sh_free s + (sh_len s - newlen)))).

(** [tolower], [toupper] of the C locale. *)
Definition to_lower (c : Z) : Z := if (65 <=? c) && (c <=? 90) then c + 32 else c.
Definition to_upper (c : Z) : Z := if (97 <=? c) && (c <=? 122) then c - 32 else c.

(** [for (j = 0; j < n; j++) s[j] = f(s[j]);] *)
Fixpoint map_chars (f : Z → option Z) s (j : Z) (n : nat) : option sds :=
  match n with
  | O => Some s
  | S n => x ← rd1 (sh_buf s) j; y ← f x; s ← sds_put s j y; map_chars f s (j + 1) n
  end.

Definition sdstolower s : option sds := map_chars (λ c, Some (to_lower c)) s 0 (Z.to_nat (s32 (sdslen s))).
Definition sdstoupper s : option sds := map_chars (λ c, Some (to_upper c)) s 0 (Z.to_nat (s32 (sdslen s))).

(** The inner loop of [sdsmapchars]: the first [i] with [s[j] == from[i]]. *)
Fixpoint map_char (from to : bytes) (c : Z) (i : Z) (n : nat) : option Z :=
  match n with
  | O => Some c
  | S n => x ← rd1 from i; if c =? x then rd1 to i else map_char from to c (i + 1) n
  end.

Definition sdsmapchars s (from to : bytes) (setlen : Z) : option sds :=
  map_chars (λ c, map_char from to c 0 (Z.to_nat setlen)) s 0 (Z.to_nat (sdslen s)).

(** ** Comparing, splitting and joining *)

Definition sdscmp `{!StringLib} s1 s2 : option Z :=
  let l1 := sdslen s1 in
  let l2 := sdslen s2 in
  let minlen := if l1 <? l2 then l1 else l2 in
  x ← rd (sh_buf s1) 0 minlen; y ← rd (sh_buf s2) 0 minlen;
  let cmp := memcmp x y in
  Some (if cmp =? 0 then s32 (u64 (l1 - l2)) else cmp).

(** The array of tokens: its capacity, and the elements stored. *)
Record tokens := Tokens { slots : Z; toks : list sds }.

(** [tokens[elements] = sdsnewlen(b+start, n)]: inside of the array. *)
Definition store_token (t : tokens) (b : bytes) (start n : Z) : option tokens :=
  check zlen (toks t) <? slots t ;;
  bs ← rd b start n;
  x ← sdsnewlen (Some bs) n;
  Some (Tokens (slots t) (toks t ++ [x])).

Definition split_body `{!StringLib} (b : bytes) (len : Z) (sep : bytes) (seplen : Z)
    (st : tokens * Z * Z) : option (tokens * Z * Z + tokens * Z) :=
  let '(t, start, j) := st in
  if j <? len - (seplen - 1) then
    let t := if slots t <? zlen (toks t) + 2 then Tokens (s32 (slots t * 2)) (toks t) else t in
    eq ← (if seplen =? 1 then
            x ← rd1 b j; y ← rd1 sep 0;
            if x =? y then Some true
            else xs ← rd b j seplen; ys ← rd sep 0 seplen; Some (memcmp xs ys =? 0)
          else xs ← rd b j seplen; ys ← rd sep 0 seplen; Some (memcmp xs ys =? 0));
    if (eq : bool) then
      t ← store_token t b start (j - start);
      Some (inl (t, j + seplen, j + seplen - 1 + 1))
    else Some (inl (t, start, j + 1))
  else Some (inr (t, start)).

(** [NULL] is [None]. *)
Definition sdssplitlen `{!StringLib} (b : bytes) (len : Z) (sep : bytes) (seplen : Z) :
    option (option (list sds)) :=
  if (seplen <? 1) || (len <? 0) then Some None
  else if len =? 0 then Some (Some [])
  else
    '(t, start) ← loop (S (Z.to_nat len)) (split_body b len sep seplen) (Tokens 5 [], 0, 0);
    t ← store_token t b start (len - start);
    Some (Some (toks t)).

(** [join_args]: the arguments left, C strings. *)
Fixpoint join_args (join : sds) (argv : list bytes) (sep : bytes) : option sds :=
  match argv with
  | [] => Some join
  | a :: argv =>
    join ← sdscat join a;
    match argv with
    | [] => Some join
    | _ => join ← sdscat join sep; join_args join argv sep
    end
  end.

Definition sdsjoin (argv : list bytes) (sep : bytes) : option sds :=
  join ← sdsempty; join_args join argv sep.

(** ** Quoting *)

(** [isprint] and [isspace] of the C locale. *)
Definition isprint (c : Z) : bool := (32 <=? c) && (c <=? 126).
Definition isspace (c : Z) : bool := (c =? 32) || ((9 <=? c) && (c <=? 13)).

(** The digit of [%02x]. *)
Definition hex_digit (d : Z) : Z := if d <? 10 then 48 + d else 97 + (d - 10).

(** What one character is turned into. *)
Definition repr_char (c : Z) : bytes :=
  if (c =? 92) || (c =? 34) then [92; c]
  else if c =? 10 then [92; 110]
  else if c =? 13 then [92; 114]
  else if c =? 9 then [92; 116]
  else if c =? 7 then [92; 97]
  else if c =? 8 then [92; 98]
  else if isprint c then [c]
  else [92; 120; hex_digit (c / 16); hex_digit (c mod 16)].

(** [while(len--) { ...; p++; }] *)
Fixpoint repr_chars s (p : bytes) (i : Z) (len : nat) : option sds :=
  match len with
  | O => Some s
  | S len =>
    c ← rd1 p i;
    s ← sdscatlen s (repr_char c) (zlen (repr_char c));
    repr_chars s p (i + 1) len
  end.

Definition sdscatrepr s (p : bytes) (len : Z) : option sds :=
  s ← sdscatlen s [34] 1;
  s ← repr_chars s p 0 (Z.to_nat len);
  sdscatlen s [34] 1.

Definition is_hex_digit (c : Z) : bool :=
  ((48 <=? c) && (c <=? 57)) || ((97 <=? c) && (c <=? 102)) || ((65 <=? c) && (c <=? 70)).

Definition hex_digit_to_int (c : Z) : Z :=
  if (48 <=? c) && (c <=? 57) then c - 48
  else if (97 <=? c) && (c <=? 102) then c - 97 + 10
  else if (65 <=? c) && (c <=? 70) then c - 65 + 10
  else 0.

(** An escape [\xHH] at [p]: a backslash, an [x] and two hexadecimal digits. *)
Definition hex_escape (line : bytes) (p : Z) : option (option (Z * Z)) :=
  c ← rd1 line p;
  if negb (c =? 92) then Some None
  else
    x ← rd1 line (p + 1);
    if negb (x =? 120) then Some None
    else
      a ← rd1 line (p + 2);
      if negb (is_hex_digit a) then Some None
      else b ← rd1 line (p + 3); Some (if is_hex_digit b then Some (a, b) else None).

(** A closing quote at [p]: whether what follows is a space or the end. *)
Definition quote_ends (line : bytes) (p : Z) : option bool :=
  n ← rd1 line (p + 1); Some ((n =? 0) || isspace n).

(** Where the scanner is. *)
Inductive quotes := Unquoted | Inq | Insq.

(** One character of a token, inside each kind of quotes: the new position, the
    token and whether it is done; [None] for the error. *)
Definition inq_step (line : bytes) (p : Z) (current : sds) : option (option (Z * sds * bool)) :=
  h ← hex_escape line p;
  match h with
  | Some (a, b) =>
    current ← sdscatlen current [u8 (hex_digit_to_int a * 16 + hex_digit_to_int b)] 1;
    Some (Some (p + 3, current, false))
  | None =>
    c ← rd1 line p;
    n ← (if c =? 92 then rd1 line (p + 1) else Some 0);
    if (c =? 92) && negb (n =? 0) then
      let c := if n =? 110 then 10 else if n =? 114 then 13 else if n =? 116 then 9
               else if n =? 98 then 8 else if n =? 97 then 7 else n in
      current ← sdscatlen current [c] 1;
      Some (Some (p + 1, current, false))
    else if c =? 34 then
      e ← quote_ends line p; Some (if (e : bool) then Some (p, current, true) else None)
    else if c =? 0 then Some None
    else current ← sdscatlen current [c] 1; Some (Some (p, current, false))
  end.

Definition insq_step (line : bytes) (p : Z) (current : sds) : option (option (Z * sds * bool)) :=
  c ← rd1 line p;
  n ← (if c =? 92 then rd1 line (p + 1) else Some 0);
  if (c =? 92) && (n =? 39) then
    current ← sdscatlen current [39] 1; Some (Some (p + 1, current, false))
  else if c =? 39 then
    e ← quote_ends line p; Some (if (e : bool) then Some (p, current, true) else None)
  else if c =? 0 then Some None
  else current ← sdscatlen current [c] 1; Some (Some (p, current, false)).

Definition unquoted_step (line : bytes) (p : Z) (current : sds) : option (option (Z * quotes * sds * bool)) :=
  c ← rd1 line p;
  if (c =? 32) || (c =? 10) || (c =? 13) || (c =? 9) || (c =? 0) then Some (Some (p, Unquoted, current, true))
  else if c =? 34 then Some (Some (p, Inq, current, false))
  else if c =? 39 then Some (Some (p, Insq, current, false))
  else current ← sdscatlen current [c] 1; Some (Some (p, Unquoted, current, false)).

Definition stay (q : quotes) (r : option (Z * sds * bool)) : option (Z * quotes * sds * bool) :=
  '(p, current, done) ← r; Some (p, q, current, done).

Definition token_step (line : bytes) (p : Z) (q : quotes) (current : sds) :
    option (option (Z * quotes * sds * bool)) :=
  match q with
  | Inq => r ← inq_step line p current; Some (stay Inq r)
  | Insq => r ← insq_step line p current; Some (stay Insq r)
  | Unquoted => unquoted_step line p current
  end.

(** The loop [while(!done)]: leaves with the position behind the token and the
    token, or with [None] for [goto err]. *)
Definition token_body (line : bytes) (st : Z * quotes * sds) :
    option (Z * quotes * sds + option (Z * sds)) :=
  let '(p, q, current) := st in
  r ← token_step line p q current;
  match r with
  | None => Some (inr None)
  | Some (p, q, current, done) =>
    c ← rd1 line p;
    let p := if c =? 0 then p else p + 1 in
    Some (if (done : bool) then inr (Some (p, current)) else inl (p, q, current))
  end.

(** Skip blanks. *)
Definition blank_body (line : bytes) (p : Z) : option (Z + Z) :=
  c ← rd1 line p; Some (if negb (c =? 0) && isspace c then inl (p + 1) else inr p).

Definition splitargs_body (line : bytes) (st : Z * list sds) :
    option (Z * list sds + option (list sds)) :=
  let '(p, vector) := st in
  p ← loop (length line) (blank_body line) p;
  c ← rd1 line p;
  if c =? 0 then Some (inr (Some vector))
  else
    current ← sdsempty;
    r ← loop (S (length line)) (token_body line) (p, Unquoted, current);
    match r with
    | Some (p, current) => Some (inl (p, vector ++ [current]))
    | None => Some (inr None)
    end.

(** The arguments, or [NULL] for unbalanced quotes. *)
Definition sdssplitargs (line : bytes) : option (option (list sds)) :=
  loop (S (length line)) (splitargs_body line) (0, []).
End ops.

(** The text of a string. *)
Definition sds_text (s : sds) : bytes := take (Z.to_nat (sh_len s)) (sh_buf s).

Section samples.
#[local] Existing Instance poison_allocator.
#[local] Existing Instance diff_string_lib.

Definition texts (r : option (option (list sds))) : option (option (list bytes)) :=
  match r with Some (Some l) => Some (Some (sds_text <$> l)) | Some None => Some None | None => None end.

Definition quoted : option sds :=
  s ← sdsempty; s ← sdscatrepr s [97; 0; 34; 10; 200] 5; sdscatlen s [32; 98] 2.
Definition formatted : option sds :=
  s ← sdsempty; sdscatfmt s [37; 73; 45; 37; 37; 37; 115; 0] [VaLongLong (-120); VaStr [104; 105; 0]].
Definition trimmed : option sds := s ← sdsnewlen (Some [65; 97; 0; 65]) 4; sdstrim s [65; 0].

Example sds_samples :
  texts (s ← quoted; sdssplitargs (sh_buf s)) = Some (Some [[97; 0; 34; 10; 200]; [98]]) ∧
  sds_text <$> formatted = Some [45; 49; 50; 48; 45; 37; 104; 105] ∧
  sds_text <$> trimmed = Some [97] ∧
  texts (sdssplitlen [1; 2; 3; 9; 9; 4; 9; 9] 8 [9; 9] 2) = Some (Some [[1; 2; 3]; [4]; []]).
Proof. repeat split. Qed.
End samples.
