(* ===== verification/SdsText.v ===== *)
(** * What the operations of [Sds] do to the text of a string

    [sds_is s t]: the block of [s] is well formed and holds the text [t]. *)

From S2P Require Import Prelude Util Glob Object Sds.

#[local] Open Scope Z_scope.

(** ** Buffers *)

Lemma wr_at {A} (b : list A) off bs :
  0 ≤ off → off + zlen bs ≤ zlen b →
  wr b off bs = Some (take (Z.to_nat off) b ++ bs ++ drop (Z.to_nat off + length bs) b).
Proof. intros. unfold wr. destruct (_ && _) eqn:E; [done|lia]. Qed.

Lemma rd_take {A} (b : list A) n : 0 ≤ n ≤ zlen b → rd b 0 n = Some (take (Z.to_nat n) b).
Proof. intros. unfold rd. destruct (_ && _) eqn:E; [by rewrite drop_0|lia]. Qed.

Lemma rd_0_Some {A} (b bs : list A) n : rd b 0 n = Some bs → zlen bs = n ∧ ∃ rest, b = bs ++ rest.
Proof.
  intros (_ & _ & _ & Hl & pre & post & -> & Hp)%rd_Some. split; [done|].
  destruct pre; [by exists post|simpl in Hp; lia].
Qed.

(** ** Well-formed strings *)

(** The length fits an [int]; the capacity is at most what [sdsMakeRoomFor] gives. *)
Definition SDS_CAP : Z := 2 ^ 31 + SDS_MAX_PREALLOC.

Definition sds_shape (s : sds) (t tail : bytes) : Prop :=
  s = Sds (zlen t) (zlen tail) (t ++ 0 :: tail) ∧ zlen t < 2 ^ 31 ∧ zlen t + zlen tail ≤ SDS_CAP.

Definition sds_is (s : sds) (t : bytes) : Prop := ∃ tail, sds_shape s t tail.

Lemma sds_is_text s t : sds_is s t → sds_text s = t.
Proof. intros (tail & -> & _). unfold sds_text. simpl. by rewrite Nat2Z.id, take_app_length. Qed.

Lemma sds_is_len s t : sds_is s t → sdslen s = zlen t.
Proof. by intros (tail & -> & _). Qed.

Lemma sds_is_short s t : sds_is s t → zlen t < 2 ^ 31.
Proof. by intros (tail & _ & ? & _). Qed.

Lemma u32_s32 z : u32 (s32 z) = u32 z.
Proof. by apply wrap_swrap. Qed.

(** The header is set to the right lengths. *)
Lemma set_hdr_shape a b t tail len free :
  len = zlen t → free = zlen tail → zlen t < 2 ^ 31 → zlen t + zlen tail ≤ SDS_CAP →
  sds_shape (set_hdr (Sds a b (t ++ 0 :: tail)) len free) t tail.
Proof.
  intros -> -> Ht Hc. split; [|done]. unfold set_hdr. simpl.
  change SDS_CAP with 2148532224 in Hc. rewrite !wrap_small by (split; lia). done.
Qed.

Section ops.
Context {alloc : Allocator}.
Implicit Types (s : sds) (t : bytes).

Lemma sds_put_shape a b t c tail i :
  i = zlen t → sds_put (Sds a b (t ++ c :: tail)) i 0 = Some (Sds a b (t ++ 0 :: tail)).
Proof. intros ->. unfold sds_put. simpl. by rewrite wr1_app. Qed.

Lemma sdsnewlen_Some b n t :
  rd b 0 n = Some t → n < 2 ^ 31 → ∃ s, sdsnewlen (Some b) n = Some s ∧ sds_is s t.
Proof.
  intros Hrd Hn. destruct (rd_0_Some _ _ _ Hrd) as [Ht _]. unfold sdsnewlen, zmalloc.
  destruct (fresh (Z.to_nat (n + 1))) as [|c f] eqn:Hf.
  { apply (f_equal length) in Hf. rewrite length_fresh in Hf. simpl in Hf. lia. }
  pose proof (f_equal length Hf) as Hl. rewrite length_fresh in Hl. simpl in Hl. clear Hf.
  assert ((if n =? 0 then Some (Sds (u32 (s32 n)) 0 (c :: f))
           else bs ← rd b 0 n; sds_write (Sds (u32 (s32 n)) 0 (c :: f)) 0 bs) =
    Some (Sds n 0 (t ++ [List.last (c :: f) 0]))) as ->.
  { rewrite swrap_small, wrap_small by (try split; lia). destruct (n =? 0) eqn:E.
    - destruct t; [|simpl in Ht; lia]. destruct f; [|simpl in Hl; lia]. done.
    - rewrite Hrd, bind_Some_eq. unfold sds_write. cbn [sh_buf sh_len sh_free].
      rewrite wr_at by (simpl; lia). rewrite bind_Some_eq. do 2 f_equal. rewrite take_0, app_nil_l. f_equal.
      destruct (exists_last (l := c :: f)) as (f' & x & Hx); [done|]. rewrite Hx, List.last_last.
      rewrite drop_app_length'; [done|]. apply (f_equal length) in Hx. rewrite length_app in Hx. simpl in *. lia. }
  rewrite bind_Some_eq, (sds_put_shape n 0 t _ []) by done. eexists. split; [done|].
  exists []. split; [by rewrite <-Ht|]. change SDS_CAP with 2148532224. simpl. lia.
Qed.

Lemma sdsnewlen_None n :
  0 ≤ n < 2 ^ 31 → ∃ s, sdsnewlen None n = Some s ∧ sds_is s (replicate (Z.to_nat n) 0).
Proof.
  intros Hn. unfold sdsnewlen. rewrite bind_Some_eq.
  replace (Z.to_nat (n + 1)) with (Z.to_nat n + 1)%nat by lia. rewrite replicate_add. simpl.
  rewrite (sds_put_shape _ _ _ _ []) by (rewrite length_replicate; lia). eexists. split; [done|].
  exists []. unfold sds_shape. rewrite length_replicate.
  rewrite swrap_small, wrap_small by (try split; lia). split; [do 2 f_equal; lia|].
  change SDS_CAP with 2148532224. simpl. lia.
Qed.

Lemma sdsempty_is : ∃ s, sdsempty = Some s ∧ sds_is s [].
Proof. by apply sdsnewlen_Some. Qed.

(** A string whose terminator may be overwritten. *)
Definition sds_raw s t c tail : Prop :=
  s = Sds (zlen t) (zlen tail) (t ++ c :: tail) ∧ zlen t < 2 ^ 31 ∧ zlen t + zlen tail ≤ SDS_CAP.

Lemma make_room_raw s t c tail add :
  sds_raw s t c tail → 0 ≤ add → zlen t + add < 2 ^ 31 →
  ∃ tail', sds_raw (sdsMakeRoomFor s add) t c tail' ∧ add ≤ zlen tail'.
Proof.
  intros (-> & Ht & Hc) Ha Hl. unfold sdsMakeRoomFor. cbn [sdsavail sdslen sh_len sh_free sh_buf].
  destruct (zlen tail >=? add) eqn:E; [exists tail; by split; [split|lia]|].
  change SDS_MAX_PREALLOC with 1048576. change SDS_CAP with 2148532224 in Hc.
  rewrite (wrap_small 64 (zlen t + add)) by (split; lia).
  set (newlen := if _ <? 1048576 then _ else _).
  assert (zlen t + add ≤ newlen ≤ 2148532224) as Hn.
  { unfold newlen. destruct (_ <? 1048576) eqn:?; rewrite wrap_small by (split; lia); lia. }
  rewrite zrealloc_grow by (rewrite length_app; simpl; lia). rewrite <-app_assoc. simpl.
  set (f := tail ++ fresh _).
  assert (zlen f = newlen - zlen t) as Hf.
  { unfold f. rewrite !length_app, length_fresh. simpl. lia. }
  exists f. split; [|lia]. unfold set_hdr. cbn [sh_buf]. rewrite u32_s32.
  split; [|change SDS_CAP with 2148532224; lia]. rewrite !wrap_small by (split; lia). f_equal; lia.
Qed.

Lemma make_room s t add :
  sds_is s t → 0 ≤ add → zlen t + add < 2 ^ 31 →
  ∃ tail, sds_shape (sdsMakeRoomFor s add) t tail ∧ add ≤ zlen tail.
Proof. intros (tail & Hs) Ha Hl. exact (make_room_raw s t 0 tail add Hs Ha Hl). Qed.

(** Writing [xs] over the terminator and the free space. *)
Lemma write_tail t tail xs a b :
  zlen xs ≤ zlen tail →
  sds_write (Sds a b (t ++ 0 :: tail)) (zlen t) xs =
    Some (Sds a b ((t ++ xs) ++ drop (length xs) (0 :: tail))).
Proof.
  intros Hl. unfold sds_write. cbn [sh_buf sh_len sh_free].
  rewrite wr_at by (rewrite ?length_app; simpl; lia). rewrite bind_Some_eq. do 2 f_equal.
  rewrite Nat2Z.id, take_app_length, <-app_assoc, <-drop_drop, drop_app_length. done.
Qed.

Lemma sdscatlen_is s t b n xs :
  sds_is s t → rd b 0 n = Some xs → zlen t + n < 2 ^ 31 →
  ∃ s', sdscatlen s b n = Some s' ∧ sds_is s' (t ++ xs).
Proof.
  intros Hs Hrd Hl. destruct (rd_0_Some _ _ _ Hrd) as [Hx _]. unfold sdscatlen.
  rewrite (sds_is_len _ _ Hs).
  destruct (make_room s t n Hs) as (tail & (Hm & Ht & Hc) & Hr); [lia|lia|]. rewrite Hm, Hrd, bind_Some_eq.
  rewrite write_tail by lia. rewrite bind_Some_eq. cbn [sh_free].
  destruct (drop (length xs) (0 :: tail)) as [|c rest] eqn:Hd.
  { apply (f_equal length) in Hd. rewrite length_drop in Hd. simpl in Hd. lia. }
  pose proof (f_equal length Hd) as Hdl. rewrite length_drop in Hdl. simpl in Hdl.
  change SDS_CAP with 2148532224 in Hc.
  unfold set_hdr. cbn [sh_buf]. rewrite (sds_put_shape _ _ _ _ rest) by (rewrite length_app; lia).
  eexists. split; [done|]. exists rest. rewrite !u32_s32, !wrap_small by (split; lia).
  split; [|rewrite length_app; change SDS_CAP with 2148532224; lia].
  rewrite length_app. f_equal; lia.
Qed.

Lemma sdscatlen_all s t xs :
  sds_is s t → zlen t + zlen xs < 2 ^ 31 →
  ∃ s', sdscatlen s xs (zlen xs) = Some s' ∧ sds_is s' (t ++ xs).
Proof. intros. apply sdscatlen_is; [done|by rewrite <-(app_nil_r xs) at 1; apply rd_prefix|lia]. Qed.

Lemma sdscat_is s t xs rest :
  sds_is s t → Forall (λ c, c ≠ 0) xs → zlen t + zlen xs < 2 ^ 31 →
  ∃ s', sdscat s (xs ++ 0 :: rest) = Some s' ∧ sds_is s' (t ++ xs).
Proof.
  intros Hs Hx Hl. unfold sdscat. rewrite strlen_app by done. rewrite bind_Some_eq.
  apply sdscatlen_is; [done|by apply rd_prefix|lia].
Qed.

(** The first [n] bytes of the buffer are the text cut off or itself. *)
Lemma sds_buf_rd s t : sds_is s t → rd (sh_buf s) 0 (sdslen s) = Some t.
Proof. intros (tail & -> & _). by apply rd_prefix. Qed.

Lemma sdscatsds_is s1 t1 s2 t2 :
  sds_is s1 t1 → sds_is s2 t2 → zlen t1 + zlen t2 < 2 ^ 31 →
  ∃ s', sdscatsds s1 s2 = Some s' ∧ sds_is s' (t1 ++ t2).
Proof.
  intros H1 H2 Hl. apply sdscatlen_is; [done|by apply sds_buf_rd|]. rewrite (sds_is_len _ _ H2). lia.
Qed.

Lemma sdsdup_is s t : sds_is s t → ∃ s', sdsdup s = Some s' ∧ sds_is s' t.
Proof.
  intros Hs. apply sdsnewlen_Some; [by apply sds_buf_rd|]. rewrite (sds_is_len _ _ Hs).
  by apply sds_is_short in Hs.
Qed.

(** Cutting the text: the terminator moves to the left. *)
Lemma cut_shape a b t1 t2 tail len free :
  len = zlen t1 → free = zlen t2 + zlen tail → zlen (t1 ++ t2) < 2 ^ 31 →
  zlen (t1 ++ t2) + zlen tail ≤ SDS_CAP →
  ∃ s', sds_put (set_hdr (Sds a b ((t1 ++ t2) ++ 0 :: tail)) len free) len 0 = Some s' ∧ sds_is s' t1.
Proof.
  intros -> -> Ht Hc. rewrite length_app in Ht, Hc. change SDS_CAP with 2148532224 in Hc.
  unfold set_hdr. cbn [sh_buf]. rewrite <-app_assoc, !wrap_small by (split; lia).
  destruct t2 as [|c t2]; simpl.
  - rewrite sds_put_shape by done. eexists. split; [done|]. exists tail. split; [done|].
    change SDS_CAP with 2148532224. simpl in *. lia.
  - rewrite sds_put_shape by done. eexists. split; [done|]. exists (t2 ++ 0 :: tail).
    split; [f_equal; rewrite length_app; simpl; lia|].
    change SDS_CAP with 2148532224. rewrite length_app. simpl in *. lia.
Qed.

Lemma sdsclear_is s t : sds_is s t → ∃ s', sdsclear s = Some s' ∧ sds_is s' [].
Proof.
  intros (tail & -> & Ht & Hc). unfold sdsclear. cbn [sh_len sh_free].
  apply (cut_shape _ _ [] t tail); simpl; try done. lia.
Qed.

Lemma sdsIncrLen_neg s t incr :
  sds_is s t → - zlen t ≤ incr < 0 →
  ∃ s', sdsIncrLen s incr = Some s' ∧ sds_is s' (take (Z.to_nat (zlen t + incr)) t).
Proof.
  intros (tail & -> & Ht & Hc) Hi. unfold sdsIncrLen. cbn [sh_len sh_free].
  destruct (incr >=? 0) eqn:E; [lia|]. rewrite (wrap_small 32 (- incr)) by (split; lia).
  destruct (zlen t >=? - incr) eqn:E2; [|lia]. unfold set_hdr at 2. cbn [sh_len].
  rewrite (wrap_small 32 (zlen t + incr)) by (split; lia).
  replace (t ++ 0 :: tail) with
    ((take (Z.to_nat (zlen t + incr)) t ++ drop (Z.to_nat (zlen t + incr)) t) ++ 0 :: tail) by (by rewrite take_drop).
  apply cut_shape; rewrite ?take_drop, ?length_take, ?length_drop; try done; lia.
Qed.

(** What has been written to the free space becomes part of the text. *)
Lemma sdsIncrLen_append s t xs :
  sds_is s t → zlen t + zlen xs < 2 ^ 31 →
  ∃ s', (s ← sds_write (sdsMakeRoomFor s (zlen xs)) (zlen t) xs; sdsIncrLen s (zlen xs)) = Some s' ∧
    sds_is s' (t ++ xs).
Proof.
  intros Hs Hl. destruct (make_room s t (zlen xs) Hs) as (tail & (-> & Ht & Hc) & Hr); [lia|lia|].
  change SDS_CAP with 2148532224 in Hc.
  rewrite write_tail by lia. rewrite bind_Some_eq. unfold sdsIncrLen. cbn [sh_len sh_free].
  destruct (zlen xs >=? 0) eqn:E; [|lia]. rewrite (wrap_small 32 (zlen xs)) by (split; lia).
  destruct (zlen tail >=? zlen xs) eqn:E2; [|lia].
  destruct (drop (length xs) (0 :: tail)) as [|c rest] eqn:Hd.
  { apply (f_equal length) in Hd. rewrite length_drop in Hd. simpl in Hd. lia. }
  pose proof (f_equal length Hd) as Hdl. rewrite length_drop in Hdl. simpl in Hdl.
  unfold set_hdr. cbn [sh_buf sh_len]. rewrite !wrap_small by (split; lia).
  rewrite (sds_put_shape _ _ _ _ rest) by (rewrite length_app; lia).
  eexists. split; [done|]. exists rest.
  split; [|rewrite length_app; change SDS_CAP with 2148532224; lia]. rewrite length_app. f_equal; lia.
Qed.

Lemma sdsRemoveFreeSpace_is s t :
  sds_is s t → sds_is (sdsRemoveFreeSpace s) t ∧ sdsAllocSize (sdsRemoveFreeSpace s) = 8 + zlen t + 1.
Proof.
  intros (tail & -> & Ht & Hc). change SDS_CAP with 2148532224 in Hc. unfold sdsRemoveFreeSpace.
  cbn [sh_len sh_free sh_buf]. rewrite zrealloc_shrink by (rewrite length_app; simpl; lia).
  replace (Z.to_nat (zlen t + 1)) with (length t + 1)%nat by lia. rewrite take_app_add. simpl. rewrite take_0.
  split.
  - exists []. apply set_hdr_shape; try done. change SDS_CAP with 2148532224. simpl. lia.
  - unfold sdsAllocSize, set_hdr. cbn [sh_len sh_free]. rewrite !wrap_small by (split; lia || (rewrite ?wrap_small by (split; lia); lia)).
    lia.
Qed.

Lemma sdsgrowzero_is s t n :
  sds_is s t → 0 ≤ n < 2 ^ 31 →
  ∃ s', sdsgrowzero s n = Some s' ∧ sds_is s' (t ++ replicate (Z.to_nat (n - zlen t)) 0).
Proof.
  intros Hs Hn. unfold sdsgrowzero. change (sh_len s) with (sdslen s). rewrite (sds_is_len _ _ Hs).
  destruct (n <=? zlen t) eqn:E.
  { exists s. replace (Z.to_nat (n - zlen t)) with 0%nat by lia. simpl. by rewrite app_nil_r. }
  destruct (make_room s t (n - zlen t) Hs) as (tail & (-> & Ht & Hc) & Hr); [lia|lia|].
  change SDS_CAP with 2148532224 in Hc. unfold sds_write. cbn [sh_buf sh_len sh_free].
  rewrite wr_at by (rewrite ?length_app, ?length_replicate; simpl; lia). rewrite bind_Some_eq.
  rewrite Nat2Z.id, take_app_length, length_replicate, <-drop_drop, drop_app_length.
  replace (Z.to_nat (n - zlen t + 1)) with (Z.to_nat (n - zlen t) + 1)%nat by lia.
  rewrite replicate_add, <-app_assoc, app_assoc. simpl.
  eexists. split; [done|]. rewrite Nat.add_1_r. simpl. exists (drop (Z.to_nat (n - zlen t)) tail).
  unfold set_hdr at 2. cbn [sh_buf].
  rewrite (wrap_small 32 (zlen t + zlen tail)), u32_s32, !(wrap_small 32) by (split; lia).
  unfold set_hdr. cbn [sh_len sh_buf]. rewrite u32_s32, !(wrap_small 32) by (split; lia).
  split; [f_equal; rewrite ?length_app, ?length_replicate, ?length_drop; lia|].
  rewrite length_app, length_replicate, length_drop. change SDS_CAP with 2148532224. lia.
Qed.

Lemma sds_put_bind {A} a b buf n c (k : sds → option A) :
  (s ← sds_put (Sds a b buf) n c; k s) = (b' ← wr1 buf n c; k (Sds a b b')).
Proof. unfold sds_put. cbn [sh_buf sh_len sh_free]. by destruct (wr1 buf n c). Qed.

(** A new end of the text. *)
Lemma put_end u rest a b n len free :
  (0 < length rest)%nat → n = zlen u → u32 len = zlen u → u32 free = zlen rest - 1 → zlen u < 2 ^ 31 →
  zlen u + zlen rest - 1 ≤ SDS_CAP →
  ∃ s', (b' ← wr1 (u ++ rest) n 0; Some (set_hdr (Sds a b b') len free)) = Some s' ∧ sds_is s' u.
Proof.
  intros Hl -> Hlen Hfree Hu Hc. destruct rest as [|c rest]; simpl in Hl; [lia|].
  rewrite wr1_app, bind_Some_eq by done. eexists. split; [done|]. exists rest.
  simpl in Hc, Hfree. unfold set_hdr. cbn [sh_buf]. rewrite Hlen, Hfree. split; [f_equal; lia|]. lia.
Qed.

Lemma sdscpylen_is s t b n xs :
  sds_is s t → rd b 0 n = Some xs → n < 2 ^ 31 → ∃ s', sdscpylen s b n = Some s' ∧ sds_is s' xs.
Proof.
  intros Hs Hrd Hl. destruct (rd_0_Some _ _ _ Hrd) as [Hx _]. unfold sdscpylen.
  assert (∃ tail, sds_shape (if u32 (sh_free s + sh_len s) <? n then sdsMakeRoomFor s (n - sh_len s) else s) t tail ∧
    n ≤ zlen t + zlen tail) as (tail & (Hs' & Ht & Hc) & Hn).
  { pose proof Hs as (tail & Hss & Ht & Hc). change SDS_CAP with 2148532224 in Hc.
    destruct (u32 (sh_free s + sh_len s) <? n) eqn:E; rewrite Hss in E |- *; cbn [sh_free sh_len] in *;
      rewrite wrap_small in E by (split; lia).
    - destruct (make_room s t (n - zlen t) Hs) as (tail' & Hm & Hr); [lia|lia|].
      exists tail'. rewrite <-Hss at 1. split; [done|lia].
    - exists tail. split; [split; [done|]; change SDS_CAP with 2148532224; lia|lia]. }
  cbv zeta. set (s1 := if _ <? n then _ else s) in Hs'.
  match goal with |- context [if ?c then (?a, ?x) else (s, ?y)] =>
    replace (if c then (a, x) else (s, y)) with (s1, u32 (sh_free s1 + sh_len s1))
      by (unfold s1; by destruct c) end.
  rewrite Hs', Hrd, bind_Some_eq. unfold sds_write. cbn [sh_buf sh_len sh_free].
  change SDS_CAP with 2148532224 in Hc.
  rewrite wr_at by (rewrite ?length_app; simpl; lia). rewrite bind_Some_eq, take_0, app_nil_l.
  simpl Z.to_nat. rewrite Nat.add_0_l. rewrite bind_Some_eq, sds_put_bind. apply put_end; rewrite ?u32_s32, ?length_drop, ?length_app; simpl; try lia.
  - rewrite wrap_small by (split; lia). lia.
  - rewrite !wrap_small by (split; lia || (rewrite wrap_small by (split; lia); lia)). lia.
  - change SDS_CAP with 2148532224. lia.
Qed.

(** The text up to the first NUL. *)
Fixpoint until_nul (t : bytes) : bytes :=
  match t with [] => [] | c :: t => if c =? 0 then [] else c :: until_nul t end.

Lemma strlen_until t rest : strlen (t ++ 0 :: rest) = Some (zlen (until_nul t)).
Proof.
  induction t as [|c t IH]; [done|]. simpl. destruct (c =? 0); [done|]. rewrite IH. simpl. f_equal. lia.
Qed.

Lemma until_nul_app t rest : until_nul (t ++ 0 :: rest) = until_nul t.
Proof. induction t as [|c t IH]; [done|]. simpl. destruct (c =? 0); [done|]. by rewrite IH. Qed.

Lemma until_nul_prefix t : ∃ rest, t = until_nul t ++ rest ∧ (rest = [] ∨ head rest = Some 0).
Proof.
  induction t as [|c t [rest [IH Hr]]]; [by exists []; split; [|left]|]. simpl. destruct (c =? 0) eqn:E.
  - exists (c :: t). split; [done|]. right. simpl. f_equal. lia.
  - exists rest. split; [simpl; by f_equal|done].
Qed.

Lemma sdsupdatelen_is s t : sds_is s t → ∃ s', sdsupdatelen s = Some s' ∧ sds_is s' (until_nul t).
Proof.
  intros (tail & -> & Ht & Hc). unfold sdsupdatelen. cbn [sh_buf sh_len sh_free].
  rewrite strlen_until, bind_Some_eq. eexists. split; [done|].
  destruct (until_nul_prefix t) as (rest & Hr & Hz). revert Hr. generalize (until_nul t). intros u ->.
  rewrite length_app in *. rewrite swrap_small by (try split; lia).
  destruct rest as [|c rest]; simpl in *.
  - exists tail. rewrite app_nil_r. apply set_hdr_shape; lia.
  - destruct Hz as [|[= ->]]; [done|]. exists (rest ++ 0 :: tail). rewrite <-app_assoc. simpl.
    apply set_hdr_shape; rewrite ?length_app; simpl; lia.
Qed.

(** ** Trimming and ranges *)

(** A character of the set, or NUL. *)
Definition in_cset (cset : bytes) (c : Z) : bool := existsb (λ x, x =? c) cset || (c =? 0).

Lemma strchr_run cset rest c :
  Forall (λ x, x ≠ 0) cset → strchr (cset ++ 0 :: rest) c = Some (in_cset cset c).
Proof.
  unfold in_cset. induction 1 as [|x cset Hx Hc IH]; cbn [app strchr existsb].
  - rewrite Z.eqb_sym. by destruct (c =? 0).
  - destruct (x =? c); [done|]. destruct (x =? 0) eqn:E0; [lia|]. exact IH.
Qed.

Fixpoint drop_front (P : Z → bool) (t : bytes) : bytes :=
  match t with [] => [] | c :: t' => if P c then drop_front P t' else t end.

(** Both ends: what [sdstrim] leaves. *)
Definition trim (P : Z → bool) (t : bytes) : bytes := reverse (drop_front P (reverse (drop_front P t))).

Lemma drop_front_split P t : ∃ p, t = p ++ drop_front P t ∧ Forall P p.
Proof.
  induction t as [|c t [p [Hp Hf]]]; [by exists []|]. simpl. destruct (P c) eqn:E; [|by exists []].
  exists (c :: p). split; [simpl; by f_equal|]. constructor; [by rewrite E|done].
Qed.

Lemma drop_front_head P t c t' : drop_front P t = c :: t' → P c = false.
Proof. induction t as [|x t IH]; [done|]. simpl. destruct (P x) eqn:E; [done|]. by intros [= -> ->]. Qed.

Lemma trim_left_run s t cset rest :
  sds_is s t → Forall (λ x, x ≠ 0) cset →
  loop (S (Z.to_nat (sdslen s))) (trim_left_body s (cset ++ 0 :: rest) (sdslen s - 1)) 0 =
    Some (zlen t - zlen (drop_front (in_cset cset) t)).
Proof.
  intros Hs Hcs. rewrite (sds_is_len _ _ Hs), Nat2Z.id. destruct Hs as (tail & -> & _).
  cut (∀ p q, t = p ++ q → loop (S (length q)) (trim_left_body (Sds (zlen t) (zlen tail) (t ++ 0 :: tail))
    (cset ++ 0 :: rest) (zlen t - 1)) (zlen p) = Some (zlen t - zlen (drop_front (in_cset cset) q))).
  { intros H. by apply (H [] t). }
  intros p q. revert p. induction q as [|c q IH]; intros p Ht; rewrite loop_S; unfold trim_left_body at 1.
  - rewrite app_nil_r in Ht. subst p. destruct (_ <=? _) eqn:E; [lia|]. simpl. f_equal. lia.
  - assert (zlen t = zlen p + 1 + zlen q) as Hl by (rewrite Ht, length_app; simpl; lia).
    destruct (_ <=? _) eqn:E; [|lia]. cbn [sh_buf].
    assert (rd1 (t ++ 0 :: tail) (zlen p) = Some c) as -> by (rewrite Ht, <-app_assoc; by apply rd1_app).
    rewrite bind_Some_eq, strchr_run by done. rewrite bind_Some_eq. simpl. destruct (in_cset cset c).
    + replace (zlen p + 1) with (zlen (p ++ [c])) by (rewrite length_app; simpl; lia).
      apply IH. by rewrite <-app_assoc.
    + f_equal. simpl. lia.
Qed.

Lemma drop_front_app P l1 l2 :
  Exists (λ c, P c = false) l1 → drop_front P (l1 ++ l2) = drop_front P l1 ++ l2.
Proof.
  induction l1 as [|c l1 IH]; intros H; [by apply Exists_nil in H|]. simpl. destruct (P c) eqn:E; [|done].
  apply IH. apply Exists_cons in H as [H|H]; [congruence|done].
Qed.

(** From the right, not beyond the first character. *)
Lemma trim_right_run s t cset rest :
  sds_is s t → Forall (λ x, x ≠ 0) cset →
  loop (S (Z.to_nat (sdslen s))) (trim_right_body s (cset ++ 0 :: rest) 0) (sdslen s - 1) =
    Some (Z.max (Z.min 0 (zlen t - 1)) (zlen (drop_front (in_cset cset) (reverse t)) - 1)).
Proof.
  intros Hs Hcs. rewrite (sds_is_len _ _ Hs), Nat2Z.id. destruct Hs as (tail & -> & _).
  cut (∀ u v, t = u ++ v →
    loop (S (length u)) (trim_right_body (Sds (zlen t) (zlen tail) (t ++ 0 :: tail)) (cset ++ 0 :: rest) 0)
      (zlen u - 1) =
    Some (Z.max (Z.min 0 (zlen u - 1)) (zlen (drop_front (in_cset cset) (reverse u)) - 1))).
  { intros H. apply (H t []). by rewrite app_nil_r. }
  intros u. induction u as [|c u IH] using rev_ind; intros v Ht; rewrite loop_S; unfold trim_right_body at 1.
  { done. }
  rewrite reverse_app, length_app. simpl. destruct (_ >? 0) eqn:E.
  - assert (rd1 (t ++ 0 :: tail) (Z.of_nat (length u + 1) - 1) = Some c) as ->.
    { rewrite Ht, <-!app_assoc. apply rd1_app. lia. }
    rewrite bind_Some_eq, strchr_run by done. rewrite bind_Some_eq. destruct (in_cset cset c).
    + replace (Z.of_nat (length u + 1) - 1 - 1) with (zlen u - 1) by lia.
      rewrite Nat.add_1_r. rewrite (IH ([c] ++ v)) by (by rewrite Ht, <-app_assoc). f_equal. lia.
    + f_equal. simpl. rewrite length_reverse. lia.
  - destruct u; [|simpl in E; lia]. simpl. f_equal. destruct (in_cset cset c); simpl; lia.
Qed.

(** Moving a part of the text to the front. *)
Lemma cut_front p u w a b tail :
  sds_memmove (Sds a b ((p ++ u ++ w) ++ 0 :: tail)) 0 (zlen p) (zlen u) =
    Some (Sds a b (u ++ drop (length u) (p ++ u ++ w ++ 0 :: tail))).
Proof.
  unfold sds_memmove, memmove. cbn [sh_buf sh_len sh_free].
  rewrite <-app_assoc, <-app_assoc, (rd_app p u) by done. rewrite bind_Some_eq.
  by rewrite wr_at by (rewrite ?length_app; simpl; lia).
Qed.

(** The common end of [sdstrim] and [sdsrange]: keep [u] of [p ++ u ++ w]. *)
Lemma keep_part p u w a b tail (move : bool) n len (free : Z → Z → Z) :
  (move = false → p = [] ∨ u = []) → n = zlen u → u32 len = zlen u →
  zlen (p ++ u ++ w) < 2 ^ 31 → zlen (p ++ u ++ w) + zlen tail ≤ SDS_CAP →
  u32 (free a b) = zlen p + zlen w + zlen tail →
  ∃ s', (s ← (if move then sds_memmove (Sds a b ((p ++ u ++ w) ++ 0 :: tail)) 0 (zlen p) n
              else Some (Sds a b ((p ++ u ++ w) ++ 0 :: tail)));
         s ← sds_put s n 0; Some (set_hdr s len (free (sh_len s) (sh_free s)))) = Some s' ∧ sds_is s' u.
Proof.
  intros Hm -> Hlen Ht Hc Hf. rewrite !length_app in Ht, Hc. destruct move.
  - rewrite cut_front, bind_Some_eq, sds_put_bind. cbn [sh_len sh_free].
    apply put_end; rewrite ?Hf, ?length_drop, ?length_app; simpl; try done; lia.
  - rewrite bind_Some_eq, sds_put_bind. cbn [sh_len sh_free]. destruct (Hm eq_refl) as [->| ->].
    + simpl. rewrite <-app_assoc. apply put_end; rewrite ?Hf, ?length_app; simpl in *; try done; lia.
    + simpl. rewrite <-app_assoc. apply (put_end []); rewrite ?Hf, ?length_app; simpl in *; try done; lia.
Qed.

(** What the two pointers of [sdstrim] delimit. *)
Lemma trim_split P t :
  ∃ p w, t = p ++ trim P t ++ w ∧ zlen p = zlen t - zlen (drop_front P t) ∧
    (if zlen t - zlen (drop_front P t) >? Z.max (Z.min 0 (zlen t - 1)) (zlen (drop_front P (reverse t)) - 1) then 0
     else Z.max (Z.min 0 (zlen t - 1)) (zlen (drop_front P (reverse t)) - 1) -
       (zlen t - zlen (drop_front P t)) + 1) = zlen (trim P t).
Proof.
  destruct (drop_front_split P t) as (p & Hp & Hpf). unfold trim.
  destruct (drop_front P t) as [|c q] eqn:Hd.
  - exists t, []. simpl. rewrite app_nil_r. split; [done|]. split; [lia|].
    assert (drop_front P (reverse t) = []) as ->.
    { rewrite app_nil_r in Hp. subst p. apply Forall_reverse in Hpf.
      induction Hpf as [|x p' Hx _ IH]; [done|]. simpl. by rewrite (Is_true_true_1 _ Hx). }
    simpl. destruct (_ >? _) eqn:E; lia.
  - assert (P c = false) as Hcf by by apply (drop_front_head P t c q).
    assert (Exists (λ c, P c = false) (reverse (c :: q))) as Hex.
    { apply Exists_exists. exists c. split; [|done]. apply elem_of_reverse. by left. }
    assert (drop_front P (reverse t) = drop_front P (reverse (c :: q)) ++ reverse p) as ->.
    { rewrite Hp at 1. by rewrite reverse_app, drop_front_app. }
    destruct (drop_front_split P (reverse (c :: q))) as (w & Hw & Hwf).
    set (u := drop_front P (reverse (c :: q))) in *.
    assert (c :: q = reverse u ++ reverse w) as Hcq.
    { by rewrite <-reverse_app, <-Hw, reverse_involutive. }
    exists p, (reverse w). rewrite <-Hcq. split; [done|].
    pose proof (f_equal length Hp) as Hpl. rewrite length_app in Hpl. split; [lia|].
    assert (u ≠ []).
    { intros Hu. rewrite Hu, app_nil_r in Hw. rewrite Hw in Hex.
      apply Exists_exists in Hex as (x & Hx & Hxf). rewrite Forall_forall in Hwf.
      specialize (Hwf x Hx). by rewrite Hxf in Hwf. }
    assert (0 < length u)%nat by (by destruct u; simpl; [|lia]).
    rewrite length_app, !length_reverse. destruct (_ >? _) eqn:E; lia.
Qed.

Lemma sdstrim_is s t cset rest :
  sds_is s t → Forall (λ x, x ≠ 0) cset →
  ∃ s', sdstrim s (cset ++ 0 :: rest) = Some s' ∧ sds_is s' (trim (in_cset cset) t).
Proof.
  intros Hs Hcs. unfold sdstrim. rewrite (trim_left_run s t), bind_Some_eq by done.
  rewrite (trim_right_run s t), bind_Some_eq by done. cbv zeta.
  destruct (trim_split (in_cset cset) t) as (p & w & Ht & Hp & ->). rewrite <-Hp.
  destruct Hs as (tail & -> & Hl & Hc). set (u := trim (in_cset cset) t) in *.
  pose proof (f_equal length Ht) as Htl. rewrite !length_app in Htl.
  replace (t ++ 0 :: tail) with ((p ++ u ++ w) ++ 0 :: tail) by (by rewrite <-Ht).
  rewrite Ht in Hl, Hc. pose proof Hl as Hl'. rewrite !length_app in Hl'.
  apply (keep_part p u w (zlen t) (zlen tail) tail _ _ _ (λ a b, b + s32 (a - zlen u))); try done.
  - intros Hz. left. destruct p; [done|]. simpl in Hz. lia.
  - rewrite u32_s32. apply wrap_small. split; lia.
  - change SDS_CAP with 2148532224 in Hc. rewrite length_app in Hc. rewrite !length_app in Hc.
    rewrite (swrap_small 32 (zlen t - zlen u)), wrap_small by (try split; lia). lia.
Qed.

(** The part of the text from [start] to [end], negative indexes counting from
    the end. *)
Definition range_bounds (n start end_ : Z) : Z * Z :=
  let start := if start <? 0 then Z.max 0 (n + start) else start in
  let end_ := if end_ <? 0 then Z.max 0 (n + end_) else end_ in
  (start, Z.min end_ (n - 1)).

Definition text_range (t : bytes) (start end_ : Z) : bytes :=
  let '(i, j) := range_bounds (zlen t) start end_ in
  take (Z.to_nat (j - i + 1)) (drop (Z.to_nat i) t).

Lemma sdsrange_is s t start end_ :
  sds_is s t → in_s 32 start → in_s 32 end_ → ∃ s', sdsrange s start end_ = Some s' ∧ sds_is s' (text_range t start end_).
Proof.
  intros Hs [Hs1 Hs2] [He1 He2]. unfold sdsrange, text_range, range_bounds. rewrite (sds_is_len _ _ Hs).
  pose proof (sds_is_short _ _ Hs) as Hl. simpl in Hs1, Hs2, He1, He2.
  destruct (zlen t =? 0) eqn:E0.
  { exists s. split; [done|]. destruct t; [|simpl in E0; lia]. by rewrite drop_nil, take_nil. }
  rewrite (swrap_small 32 (zlen t)) by (try split; lia).
  assert (∀ x, - 2 ^ 31 ≤ x < 2 ^ 31 → (if x <? 0 then Z.max 0 (s32 (zlen t + x)) else x) =
    if x <? 0 then Z.max 0 (zlen t + x) else x) as Hneg.
  { intros x Hx. destruct (x <? 0) eqn:?; [|done]. by rewrite swrap_small by (try split; lia). }
  rewrite !Hneg by lia. set (i := if start <? 0 then _ else _). set (j := if end_ <? 0 then _ else _).
  assert (0 ≤ i < 2 ^ 31) by (unfold i; destruct (start <? 0) eqn:?; lia).
  assert (0 ≤ j < 2 ^ 31) by (unfold j; destruct (end_ <? 0) eqn:?; lia).
  cbv zeta.
  set (u := take _ (drop _ t)).
  set (r := if negb _ then _ else _).
  assert (∃ p w, t = p ++ u ++ w ∧ r.2 = zlen u ∧
    (negb (r.1 =? 0) && negb (r.2 =? 0) = true → r.1 = zlen p) ∧
    (negb (r.1 =? 0) && negb (r.2 =? 0) = false → p = [] ∨ u = [])) as (p & w & Ht & Hn & Hp & Hz).
  { exists (take (Z.to_nat i) t), (drop (Z.to_nat (Z.min j (zlen t - 1) - i + 1)) (drop (Z.to_nat i) t)).
    unfold u. rewrite !take_drop. split; [done|]. rewrite length_take, length_drop.
    assert (i >? j = false → j < zlen t → s32 (j - i + 1) = j - i + 1).
    { intros. apply swrap_small; [lia|split; lia]. }
    assert (i >? j = false → zlen t ≤ j → i < zlen t → s32 (j - i + 1) ≠ 0).
    { intros. unfold swrap. change (2 ^ 32) with 4294967296. change (2 ^ (32 - 1)) with 2147483648. dlia. }
    assert (r.2 = Z.of_nat (Z.to_nat (Z.min j (zlen t - 1) - i + 1) `min` (length t - Z.to_nat i)) ∧
      (r.2 ≠ 0 → r.1 = i ∧ i < zlen t) ∧ (r.1 = 0 → i = 0 ∨ r.2 = 0)) as (Hq1 & Hq2 & Hq3).
    { unfold r. destruct (i >? j) eqn:?; simpl; [lia|].
      destruct (negb (s32 (j - i + 1) =? 0)) eqn:?, (i >=? zlen t) eqn:?, (j >=? zlen t) eqn:?; simpl; try lia.
      destruct (i >? zlen t - 1) eqn:?; lia. }
    split; [done|]. split.
    - intros Hr. rewrite length_take. lia.
    - intros Hr. destruct (decide (r.2 = 0)) as [H20|H20].
      + right. apply nil_length_inv. rewrite length_take, length_drop. lia.
      + left. destruct (Hq3 ltac:(lia)) as [->|]; [done|lia]. }
  destruct r as [start' n]. cbn [fst snd] in *. subst n.
  destruct Hs as (tail & -> & _ & Hc). pose proof (f_equal length Ht) as Htl. rewrite !length_app in Htl.
  replace (t ++ 0 :: tail) with ((p ++ u ++ w) ++ 0 :: tail) by (by rewrite <-Ht).
  set (move := negb (start' =? 0) && negb (zlen u =? 0)) in *.
  assert ((if move then sds_memmove (Sds (zlen t) (zlen tail) ((p ++ u ++ w) ++ 0 :: tail)) 0 start' (zlen u)
    else Some (Sds (zlen t) (zlen tail) ((p ++ u ++ w) ++ 0 :: tail))) =
    (if move then sds_memmove (Sds (zlen t) (zlen tail) ((p ++ u ++ w) ++ 0 :: tail)) 0 (zlen p) (zlen u)
    else Some (Sds (zlen t) (zlen tail) ((p ++ u ++ w) ++ 0 :: tail)))) as ->.
  { destruct move; [|done]. by rewrite Hp. }
  apply (keep_part p u w (zlen t) (zlen tail) tail _ _ _ (λ a b, s32 (b + (a - zlen u)))); try done.
  - rewrite u32_s32. apply wrap_small. split; lia.
  - rewrite <-Ht. done.
  - by rewrite <-Ht.
  - change SDS_CAP with 2148532224 in Hc. rewrite u32_s32, wrap_small by (split; lia). lia.
Qed.

(** ** Character by character *)

Lemma map_chars_is s t f (g : Z → Z) n :
  sds_is s t → (∀ c, c ∈ t → f c = Some (g c)) → n = length t →
  ∃ s', map_chars f s 0 n = Some s' ∧ sds_is s' (g <$> t).
Proof.
  intros (tail & -> & Ht & Hc) Hf ->.
  cut (∀ q p, t = p ++ q → map_chars f (Sds (zlen t) (zlen tail) ((g <$> p) ++ q ++ 0 :: tail)) (zlen p) (length q) =
    Some (Sds (zlen t) (zlen tail) ((g <$> t) ++ 0 :: tail))).
  { intros Hcut. eexists. split; [exact (Hcut t [] eq_refl)|]. exists tail.
    unfold sds_shape. rewrite !length_fmap. done. }
  induction q as [|c q IH]; intros p Hp; cbn [length map_chars].
  { rewrite app_nil_r in Hp. by subst p. }
  cbn [sh_buf]. rewrite <-app_comm_cons, rd1_app by (by rewrite length_fmap). rewrite bind_Some_eq, Hf, bind_Some_eq.
  2:{ rewrite Hp. apply elem_of_app. right. left. }
  unfold sds_put. cbn [sh_buf sh_len sh_free].
  rewrite wr1_app by (by rewrite length_fmap). rewrite !bind_Some_eq.
  replace (zlen p + 1) with (zlen (p ++ [c])) by (rewrite length_app; simpl; lia).
  specialize (IH (p ++ [c])). rewrite fmap_app, <-!app_assoc in IH. by apply IH.
Qed.

Lemma sdstolower_is s t : sds_is s t → ∃ s', sdstolower s = Some s' ∧ sds_is s' (to_lower <$> t).
Proof.
  intros Hs. apply (map_chars_is s t); [done|done|]. rewrite (sds_is_len _ _ Hs).
  pose proof (sds_is_short _ _ Hs). rewrite swrap_small by (try split; lia). lia.
Qed.

Lemma sdstoupper_is s t : sds_is s t → ∃ s', sdstoupper s = Some s' ∧ sds_is s' (to_upper <$> t).
Proof.
  intros Hs. apply (map_chars_is s t); [done|done|]. rewrite (sds_is_len _ _ Hs).
  pose proof (sds_is_short _ _ Hs). rewrite swrap_small by (try split; lia). lia.
Qed.

(** The character of [to] at the first place of [c] in [from]. *)
Fixpoint translate (from to : bytes) (c : Z) : Z :=
  match from, to with
  | x :: from, y :: to => if c =? x then y else translate from to c
  | _, _ => c
  end.

Lemma map_char_run from to c :
  length from = length to → map_char from to c 0 (length from) = Some (translate from to c).
Proof.
  cut (∀ from to p q, length from = length to → zlen p = zlen q →
    map_char (p ++ from) (q ++ to) c (zlen p) (length from) = Some (translate from to c)).
  { intros Hcut Hl. exact (Hcut from to [] [] Hl eq_refl). }
  clear. induction from as [|x from IH]; intros [|y to] p q Hl Hpq; try done.
  cbn [length map_char]. rewrite (rd1_app p x from _ eq_refl), bind_Some_eq. simpl. destruct (c =? x).
  { rewrite Hpq. by apply rd1_app. }
  specialize (IH to (p ++ [x]) (q ++ [y])). rewrite <-!app_assoc, !length_app in IH. simpl in IH.
  replace (zlen p + 1) with (Z.of_nat (length p + 1)) by lia. apply IH; [by injection Hl|lia].
Qed.

Lemma sdsmapchars_is s t from to :
  sds_is s t → length from = length to →
  ∃ s', sdsmapchars s from to (zlen from) = Some s' ∧ sds_is s' (translate from to <$> t).
Proof.
  intros Hs Hl. apply (map_chars_is s t); [done| |].
  - intros c _. rewrite Nat2Z.id. by apply map_char_run.
  - rewrite (sds_is_len _ _ Hs). lia.
Qed.

(** ** Numbers *)

Lemma ll2str_loop fuel v pre post :
  0 ≤ v → (length (dec v) ≤ fuel)%nat → (length (dec v) ≤ length post)%nat →
  loop fuel ll2str_body (pre ++ post, zlen pre, v) =
    Some (pre ++ reverse (dec v) ++ drop (length (dec v)) post, zlen pre + zlen (dec v)).
Proof.
  revert v pre post. induction fuel as [|fuel IH]; intros v pre post Hv Hf Hl.
  { pose proof (dec_length_pos v). lia. }
  rewrite loop_S. unfold ll2str_body. destruct post as [|y post].
  { pose proof (dec_length_pos v). simpl in Hl. lia. }
  rewrite wr1_app, bind_Some_eq by done. rewrite dec_eq in * by done. destruct (v <? 10) eqn:E.
  - destruct (v / 10 =? 0) eqn:E2; [|dlia]. rewrite Z.mod_small by lia. simpl. do 2 f_equal.
  - destruct (v / 10 =? 0) eqn:E2; [dlia|]. rewrite length_app in Hf, Hl. simpl in Hf, Hl.
    replace (zlen pre + 1) with (zlen (pre ++ [ch_0 + v mod 10])) by (rewrite length_app; simpl; lia).
    rewrite cons_middle, app_assoc. rewrite IH by (try dlia; rewrite ?length_app; simpl; lia).
    rewrite reverse_app, reverse_singleton, !length_app, <-!app_assoc. f_equal.
    f_equal; [cbn [length]; by rewrite (Nat.add_1_r (length (dec _)))|simpl; lia].
Qed.

Lemma reverse_loop fuel l pre post :
  (length l < 2 * fuel)%nat →
  loop fuel reverse_body (pre ++ l ++ post, zlen pre, zlen pre + zlen l - 1) = Some (pre ++ reverse l ++ post).
Proof.
  revert l pre post. induction fuel as [|fuel IH]; intros l pre post Hl; [lia|].
  rewrite loop_S. unfold reverse_body at 1. destruct l as [|x l].
  { destruct (_ <? _) eqn:E; [simpl in E; lia|done]. }
  destruct l as [|y l _] using rev_ind.
  { destruct (_ <? _) eqn:E; [simpl in E; lia|done]. }
  assert (zlen (x :: l ++ [y]) = zlen l + 2) as Hlen by (simpl; rewrite length_app; simpl; lia).
  assert (∀ u v, pre ++ (u :: l ++ [v]) ++ post = (pre ++ u :: l) ++ v :: post) as Heq.
  { intros u v. rewrite app_comm_cons, <-!app_assoc. done. }
  assert (∀ u, zlen pre + zlen (x :: l ++ [y]) - 1 = zlen (pre ++ u :: l)) as Hlast.
  { intros u. rewrite Hlen, length_app. simpl. lia. }
  destruct (_ <? _) eqn:E; [|lia].
  change (pre ++ (x :: l ++ [y]) ++ post) with (pre ++ x :: (l ++ [y]) ++ post).
  rewrite (rd1_app pre x ((l ++ [y]) ++ post) _ eq_refl), bind_Some_eq.
  change (pre ++ x :: (l ++ [y]) ++ post) with (pre ++ (x :: l ++ [y]) ++ post). rewrite Heq.
  rewrite (rd1_app (pre ++ x :: l) y _ _ (Hlast x)), bind_Some_eq. rewrite <-Heq.
  change (pre ++ (x :: l ++ [y]) ++ post) with (pre ++ x :: (l ++ [y]) ++ post).
  rewrite (wr1_app pre x y _ _ eq_refl), bind_Some_eq.
  change (pre ++ y :: (l ++ [y]) ++ post) with (pre ++ (y :: l ++ [y]) ++ post). rewrite Heq.
  rewrite (wr1_app (pre ++ y :: l) y x _ _ (Hlast y)), bind_Some_eq. rewrite <-Heq.
  replace (zlen pre + 1) with (zlen (pre ++ [y])) by (rewrite length_app; simpl; lia).
  replace (zlen pre + zlen (x :: l ++ [y]) - 1 - 1) with (zlen (pre ++ [y]) + zlen l - 1)
    by (rewrite Hlen, length_app; simpl; lia).
  replace (pre ++ (y :: l ++ [x]) ++ post) with ((pre ++ [y]) ++ l ++ x :: post) by (by rewrite <-!app_assoc; simpl; rewrite <-app_assoc).
  rewrite IH by lia. change (x :: l ++ [y]) with ([x] ++ l ++ [y]). rewrite !reverse_app, <-!app_assoc. done.
Qed.

Lemma sdsu2str_run b v (neg : bool) :
  in_u 64 v → zlen (dec v) + (if neg then 1 else 0) < zlen b →
  ∃ rest, sdsu2str b v neg = Some (zlen ((if (neg : bool) then [ch_minus] else []) ++ dec v),
    (if neg then [ch_minus] else []) ++ dec v ++ 0 :: rest).
Proof.
  intros Hv Hl. pose proof (length_dec_le20 v Hv) as H20. unfold sdsu2str.
  pose proof (ll2str_loop 20 v [] b ltac:(apply Hv) ltac:(lia) ltac:(destruct neg; lia)) as Hloop.
  cbn [app length] in Hloop. change (Z.of_nat 0) with 0 in Hloop. rewrite Hloop, bind_Some_eq.
  rewrite Z.add_0_l. cbv beta iota.
  set (r := reverse (dec v)) in *. assert (length r = length (dec v)) as Hr by apply length_reverse.
  set (post := drop (length (dec v)) b).
  assert (zlen post = zlen b - zlen (dec v)) as Hpost by (unfold post; rewrite length_drop; destruct neg; lia).
  assert (∃ rest, (if neg then b0 ← wr1 (r ++ post) (zlen (dec v)) ch_minus; Some (b0, zlen (dec v) + 1)
      else Some (r ++ post, zlen (dec v))) =
    Some ((r ++ (if neg then [ch_minus] else [])) ++ rest, zlen (r ++ if neg then [ch_minus] else [])) ∧
    (0 < length rest)%nat) as (rest & -> & Hrest).
  { destruct neg.
    - destruct post as [|y post']; [simpl in Hpost; lia|]. rewrite wr1_app, bind_Some_eq by lia.
      exists post'. rewrite <-app_assoc. split; [|simpl in Hpost; lia]. rewrite length_app, Hr. simpl. do 2 f_equal. lia.
    - exists post. rewrite app_nil_r, Hr. split; [done|lia]. }
  rewrite bind_Some_eq. destruct rest as [|y rest]; simpl in Hrest; [lia|].
  set (w := r ++ if neg then [ch_minus] else []) in *.
  rewrite wr1_app, bind_Some_eq by done.
  assert (length w < 2 * 22)%nat as Hw by (unfold w; rewrite length_app; destruct neg; simpl; lia).
  pose proof (reverse_loop 22 w [] (0 :: rest) Hw) as Hrev. cbn [app length] in Hrev.
  change (Z.of_nat 0) with 0 in Hrev. rewrite Z.add_0_l in Hrev. rewrite Hrev, bind_Some_eq.
  assert (reverse w = (if neg then [ch_minus] else []) ++ dec v) as ->.
  { unfold w, r. rewrite reverse_app, reverse_involutive. by destruct neg. }
  exists rest. rewrite <-app_assoc. f_equal. f_equal.
  rewrite swrap_small by (try split; lia). f_equal. unfold w.
  rewrite !length_app, Hr. lia.
Qed.

Lemma length_dec_le k n : (0 < k)%nat → 0 ≤ n < 10 ^ Z.of_nat k → (length (dec n) ≤ k)%nat.
Proof.
  revert n. induction k as [|k IH]; intros n Hk Hn; [lia|]. rewrite dec_eq by lia.
  destruct (n <? 10) eqn:E; [simpl; lia|]. rewrite Nat2Z.inj_succ, Z.pow_succ_r in Hn by lia.
  rewrite length_app. simpl. destruct k as [|k]; [simpl in Hn; lia|].
  specialize (IH (n / 10)). assert (0 ≤ n / 10 < 10 ^ Z.of_nat (S k)) by dlia. lia.
Qed.

Lemma sdsll2str_run b v :
  in_s 64 v → 21 ≤ zlen b →
  ∃ rest, sdsll2str b v = Some (zlen (dec_signed v), dec_signed v ++ 0 :: rest).
Proof.
  intros [Hv1 Hv2] Hb. simpl in Hv1, Hv2. unfold sdsll2str, dec_signed. destruct (v <? 0) eqn:E.
  - assert (u64 (s64 (- v)) = - v) as ->.
    { rewrite wrap_swrap by lia. apply wrap_small. split; lia. }
    pose proof (length_dec_le 19 (- v)).
    apply (sdsu2str_run b (- v) true); [split; lia|lia].
  - rewrite wrap_small by (split; lia). assert (in_u 64 v) as Hu by (split; lia). pose proof (length_dec_le20 v Hu).
    apply (sdsu2str_run b v false); [done|lia].
Qed.

Lemma sdsull2str_run b v :
  in_u 64 v → 21 ≤ zlen b → ∃ rest, sdsull2str b v = Some (zlen (dec v), dec v ++ 0 :: rest).
Proof. intros Hv Hb. pose proof (length_dec_le20 v Hv). apply (sdsu2str_run b v false); [done|lia]. Qed.

Lemma sdsfromlonglong_is v : in_s 64 v → ∃ s, sdsfromlonglong v = Some s ∧ sds_is s (dec_signed v).
Proof.
  intros Hv. unfold sdsfromlonglong.
  destruct (sdsll2str_run (fresh (Z.to_nat SDS_LLSTR_SIZE)) v Hv) as [rest ->]; [by rewrite length_fresh|].
  rewrite bind_Some_eq. apply sdsnewlen_Some; [by apply rd_prefix|].
  assert (length (dec_signed v) ≤ 21)%nat; [|lia]. destruct Hv as [Hv1 Hv2]. simpl in Hv1, Hv2. unfold dec_signed.
  destruct (v <? 0) eqn:E; simpl; [pose proof (length_dec_le20 (- v))|pose proof (length_dec_le20 v)];
    unfold in_u in *; lia.
Qed.

(** ** Formatting *)

(** What a conversion prints, and the arguments left. *)
Definition conversion_text (next : Z) (ap : list va) : option (bytes * list va) :=
  match ap with
  | VaStr str :: ap' => if next =? 115 then Some (until_nul str, ap') else None
  | VaSds t :: ap' => if next =? 83 then Some (sds_text t, ap') else None
  | VaInt n :: ap' => if next =? 105 then Some (dec_signed n, ap') else None
  | VaLongLong n :: ap' => if next =? 73 then Some (dec_signed n, ap') else None
  | VaUInt n :: ap' => if next =? 117 then Some (dec n, ap') else None
  | VaULongLong n :: ap' => if next =? 85 then Some (dec n, ap') else None
  | [] => None
  end.

Definition is_conversion (next : Z) : bool := existsb (Z.eqb next) [115; 83; 105; 73; 117; 85].

(** The text of a format; [None] for arguments of other types than it asks for
    and for a percent sign at its end. *)
Fixpoint fmt_text (fmt : bytes) (ap : list va) : option bytes :=
  match fmt with
  | [] => Some []
  | c :: fmt' =>
    if c =? 37 then
      match fmt' with
      | [] => None
      | next :: fmt'' =>
        if is_conversion next then
          '(x, ap) ← conversion_text next ap; y ← fmt_text fmt'' ap; Some (x ++ y)
        else y ← fmt_text fmt'' ap; Some (next :: y)
      end
    else y ← fmt_text fmt' ap; Some (c :: y)
  end.

(** The arguments have values of their types, strings end in NUL. *)
Definition va_ok (a : va) : Prop :=
  match a with
  | VaStr str => ∃ t rest, str = t ++ 0 :: rest
  | VaSds s => sds_is s (sds_text s)
  | VaInt n => in_s 32 n
  | VaLongLong n => in_s 64 n
  | VaUInt n => in_u 32 n
  | VaULongLong n => in_u 64 n
  end.

(** The string in the middle of the formatting: [i] is its length. *)
Definition fmt_state s (i : Z) t : Prop := i = zlen t ∧ ∃ c tail, sds_raw s t c tail.

Lemma fmt_append_run s i t str xs l :
  fmt_state s i t → rd str 0 l = Some xs → zlen t + l < 2 ^ 31 →
  ∃ s', fmt_append s i str l = Some (s', i + l) ∧ fmt_state s' (i + l) (t ++ xs).
Proof.
  intros (-> & c & tail & Hs) Hrd Hl. destruct (rd_0_Some _ _ _ Hrd) as [Hx _]. unfold fmt_append.
  assert (∃ tail', sds_raw (if sh_free s <? l then sdsMakeRoomFor s l else s) t c tail' ∧ l ≤ zlen tail')
    as (tail' & (-> & Ht & Hc) & Hr).
  { destruct (sh_free s <? l) eqn:E; [by apply (make_room_raw s t c tail); [|lia|]|].
    exists tail. split; [done|]. destruct Hs as (-> & _). simpl in E. lia. }
  rewrite Hrd, bind_Some_eq. unfold sds_write. cbn [sh_buf sh_len sh_free].
  change SDS_CAP with 2148532224 in Hc.
  rewrite wr_at by (rewrite ?length_app; simpl; lia). rewrite !bind_Some_eq.
  rewrite Nat2Z.id, take_app_length, app_assoc, <-drop_drop, drop_app_length.
  destruct (drop (length xs) (c :: tail')) as [|c' rest] eqn:Hd.
  { apply (f_equal length) in Hd. rewrite length_drop in Hd. simpl in Hd. lia. }
  pose proof (f_equal length Hd) as Hdl. rewrite length_drop in Hdl. simpl in Hdl.
  rewrite swrap_small by (try split; lia). eexists. split; [done|].
  split; [rewrite length_app; lia|]. exists c', rest. unfold set_hdr. cbn [sh_buf sh_len sh_free].
  rewrite !wrap_small by (split; lia). unfold sds_raw. rewrite length_app.
  change SDS_CAP with 2148532224. split; [f_equal; lia|lia].
Qed.

Lemma fmt_char_run s i t x :
  fmt_state s i t → 0 < sh_free s → zlen t + 1 < 2 ^ 31 →
  ∃ s', fmt_char s i x = Some (s', i + 1) ∧ fmt_state s' (i + 1) (t ++ [x]).
Proof.
  intros (-> & c & tail & -> & Ht & Hc) Hf Hl. cbn [sh_free] in Hf. unfold fmt_char, sds_put.
  cbn [sh_buf sh_len sh_free]. rewrite wr1_app, !bind_Some_eq by done.
  destruct tail as [|c' tail]; simpl in Hf; [lia|]. change SDS_CAP with 2148532224 in Hc. simpl in Hc.
  rewrite swrap_small by (try split; lia). eexists. split; [done|].
  split; [rewrite length_app; simpl; lia|]. exists c', tail. unfold set_hdr. cbn [sh_buf sh_len sh_free].
  rewrite !wrap_small by (split; simpl; lia). unfold sds_raw. rewrite length_app, <-app_assoc.
  change SDS_CAP with 2148532224. simpl. split; [f_equal; lia|lia].
Qed.

Lemma fmt_conversion_run s i t next ap x ap' :
  fmt_state s i t → Forall va_ok ap → conversion_text next ap = Some (x, ap') → zlen t + zlen x < 2 ^ 31 →
  ∃ s', fmt_conversion s i next ap = Some (s', i + zlen x, ap') ∧ fmt_state s' (i + zlen x) (t ++ x) ∧
    Forall va_ok ap'.
Proof.
  intros Hs Hap Hx Hl. unfold conversion_text in Hx. destruct ap as [|a ap]; [done|].
  apply Forall_cons in Hap as [Ha Hap].
  assert (∀ str, rd str 0 (zlen x) = Some x →
    ∃ s', ('(s, i) ← fmt_append s i str (zlen x); Some (s, i, ap)) = Some (s', i + zlen x, ap) ∧
      fmt_state s' (i + zlen x) (t ++ x) ∧ Forall va_ok ap) as Hgo.
  { intros str Hrd. destruct (fmt_append_run s i t str x (zlen x) Hs Hrd Hl) as (s' & -> & H').
    exists s'. by rewrite bind_Some_eq. }
  assert (zlen x < 2 ^ 31) by lia.
  destruct a as [str|u|n|n|n|n]; destruct (next =? _) eqn:E; try done; injection Hx as <- <-;
    apply Z.eqb_eq in E as ->; unfold fmt_conversion; simpl.
  - destruct Ha as (u & rest & ->). rewrite strlen_until, bind_Some_eq. rewrite until_nul_app in *.
    rewrite u32_s32, (wrap_small 32 (zlen (until_nul u))) by (split; lia). apply Hgo.
    destruct (until_nul_prefix u) as (w & Hw & _). rewrite Hw at 1. rewrite <-app_assoc. by apply rd_prefix.
  - rewrite (sds_is_len _ _ Ha), u32_s32, (wrap_small 32 (zlen (sds_text u))) by (split; lia). apply Hgo.
    rewrite <-(sds_is_len _ _ Ha) at 1. by apply sds_buf_rd.
  - destruct (sdsll2str_run (fresh (Z.to_nat SDS_LLSTR_SIZE)) n) as [rest ->];
      [destruct Ha as [Ha1 Ha2]; simpl in Ha1, Ha2; split; simpl; lia|by rewrite length_fresh|].
    rewrite bind_Some_eq, (wrap_small 32 (zlen (dec_signed n))) by (split; lia). apply Hgo. by apply rd_prefix.
  - destruct (sdsll2str_run (fresh (Z.to_nat SDS_LLSTR_SIZE)) n) as [rest ->];
      [done|by rewrite length_fresh|].
    rewrite bind_Some_eq, (wrap_small 32 (zlen (dec_signed n))) by (split; lia). apply Hgo. by apply rd_prefix.
  - destruct (sdsull2str_run (fresh (Z.to_nat SDS_LLSTR_SIZE)) n) as [rest ->];
      [destruct Ha as [Ha1 Ha2]; simpl in Ha1, Ha2; split; simpl; lia|by rewrite length_fresh|].
    rewrite bind_Some_eq, (wrap_small 32 (zlen (dec n))) by (split; lia). apply Hgo. by apply rd_prefix.
  - destruct (sdsull2str_run (fresh (Z.to_nat SDS_LLSTR_SIZE)) n) as [rest ->];
      [done|by rewrite length_fresh|].
    rewrite bind_Some_eq, (wrap_small 32 (zlen (dec n))) by (split; lia). apply Hgo. by apply rd_prefix.
Qed.

Lemma fmt_conversion_other s i next ap :
  is_conversion next = false →
  fmt_conversion s i next ap = ('(s, i) ← fmt_char s i next; Some (s, i, ap)).
Proof.
  unfold is_conversion, fmt_conversion. simpl. intros Hn.
  repeat match goal with |- context [next =? ?k] => destruct (next =? k) eqn:?; [lia|] end. done.
Qed.

Lemma fmt_loop fuel pre fmt rest s i t ap out :
  Forall (λ c, c ≠ 0) fmt → fmt_state s i t → Forall va_ok ap → fmt_text fmt ap = Some out →
  zlen t + zlen out + 1 < 2 ^ 31 → (length fmt < fuel)%nat →
  ∃ s' i', loop fuel (fmt_body (pre ++ fmt ++ 0 :: rest)) (zlen pre, s, i, ap) = Some (s', i') ∧
    fmt_state s' i' (t ++ out).
Proof.
  revert fuel fmt pre s i t ap out. induction fuel as [|fuel IH]; intros fmt pre s i t ap out Hf Hs Hap Ho Hl Hfu; [lia|].
  rewrite loop_S. unfold fmt_body at 1. destruct fmt as [|c fmt].
  { simpl in Ho. injection Ho as <-. cbn [app]. rewrite (rd1_app pre 0 rest _ eq_refl), bind_Some_eq. simpl.
    rewrite app_nil_r. by exists s, i. }
  apply Forall_cons in Hf as [Hc Hf]. cbn [app]. rewrite (rd1_app pre c _ _ eq_refl), bind_Some_eq.
  destruct (c =? 0) eqn:E0; [lia|]. clear E0.
  assert (∃ s1, (if sh_free s =? 0 then sdsMakeRoomFor s 1 else s) = s1 ∧ fmt_state s1 i t ∧ 0 < sh_free s1)
    as (s1 & -> & Hs1 & Hfree).
  { pose proof Hs as (Hi & x & tail & Hraw). destruct (sh_free s =? 0) eqn:E.
    - destruct (make_room_raw s t x tail 1 Hraw) as (tail' & Hr' & Hlt); [lia|lia|].
      eexists. split; [done|]. split; [split; [done|]; by exists x, tail'|].
      destruct Hr' as (-> & _). simpl. lia.
    - exists s. split; [done|]. split; [done|]. destruct Hraw as (-> & _). simpl in *. lia. }
  assert (∀ k (fmt' : bytes) s' i' x ap' y, fmt_state s' i' (t ++ x) → Forall va_ok ap' →
    fmt_text fmt' ap' = Some y → x ++ y = out → c :: fmt = k ++ fmt' → (0 < length k)%nat →
    ∃ s2 i2, loop fuel (fmt_body (pre ++ c :: fmt ++ 0 :: rest)) (zlen pre + zlen k, s', i', ap') = Some (s2, i2) ∧
      fmt_state s2 i2 (t ++ out)) as Hgo.
  { intros k fmt' s' i' x ap' y Hs' Hap' Hy Hxy Hk Hkl.
    replace (pre ++ c :: fmt ++ 0 :: rest) with ((pre ++ k) ++ fmt' ++ 0 :: rest)
      by (by rewrite app_comm_cons, Hk, <-!app_assoc).
    replace (zlen pre + zlen k) with (zlen (pre ++ k)) by (rewrite length_app; lia).
    pose proof (f_equal length Hk) as Hkl2. rewrite length_app in Hkl2. simpl in Hkl2, Hfu.
    rewrite <-Hxy, length_app in Hl. rewrite <-Hxy, (app_assoc t x y).
    apply (IH fmt' (pre ++ k) s' i' (t ++ x) ap' y); try done; [|rewrite length_app; lia|lia].
    assert (Forall (λ c, c ≠ 0) (c :: fmt)) as Hall by by constructor.
    rewrite Hk in Hall. by apply Forall_app in Hall as [_ ?]. }
  cbn [fmt_text] in Ho. destruct (c =? 37) eqn:E.
  - destruct fmt as [|next fmt]; [done|].
    assert (rd1 (pre ++ c :: (next :: fmt) ++ 0 :: rest) (zlen pre + 1) = Some next) as ->.
    { rewrite cons_middle, app_assoc. apply rd1_app. rewrite length_app. simpl. lia. }
    rewrite bind_Some_eq. destruct (is_conversion next) eqn:Ec.
    + destruct (conversion_text next ap) as [[x ap']|] eqn:Ex; [|done]. simpl in Ho.
      destruct (fmt_text fmt ap') as [y|] eqn:Ey; [|done]. simpl in Ho. injection Ho as <-.
      rewrite length_app in Hl.
      destruct (fmt_conversion_run s1 i t next ap x ap' Hs1 Hap Ex) as (s' & -> & Hs' & Hap'); [lia|].
      rewrite bind_Some_eq. apply (Hgo [c; next] fmt s' _ x ap' y); done || (simpl; lia).
    + rewrite fmt_conversion_other by done. destruct (fmt_text fmt ap) as [y|] eqn:Ey; [|done].
      simpl in Ho. injection Ho as <-. simpl in Hl.
      destruct (fmt_char_run s1 i t next Hs1) as (s' & -> & Hs'); [lia|lia|]. rewrite !bind_Some_eq.
      apply (Hgo [c; next] fmt s' _ [next] ap y); done || (simpl; lia).
  - destruct (fmt_text fmt ap) as [y|] eqn:Ey; [|done]. simpl in Ho. injection Ho as <-. simpl in Hl.
    destruct (fmt_char_run s1 i t c Hs1) as (s' & -> & Hs'); [lia|lia|]. rewrite bind_Some_eq.
    apply (Hgo [c] fmt s' _ [c] ap y); done || (simpl; lia).
Qed.

Lemma sdscatfmt_is s t fmt rest ap out :
  sds_is s t → Forall (λ c, c ≠ 0) fmt → Forall va_ok ap → fmt_text fmt ap = Some out →
  zlen t + zlen out + 1 < 2 ^ 31 →
  ∃ s', sdscatfmt s (fmt ++ 0 :: rest) ap = Some s' ∧ sds_is s' (t ++ out).
Proof.
  intros Hs Hf Hap Ho Hl. unfold sdscatfmt. pose proof (sds_is_short _ _ Hs) as Hsh.
  rewrite (sds_is_len _ _ Hs), swrap_small by (try split; lia).
  destruct (fmt_loop (S (length (fmt ++ 0 :: rest))) [] fmt rest s (zlen t) t ap out) as (s' & i' & Hloop & Hi & Hs');
    [done| |done|done|done|rewrite length_app; lia|].
  { split; [done|]. destruct Hs as (tail & Hs). by exists 0, tail. }
  cbn [app length] in Hloop. change (Z.of_nat 0) with 0 in Hloop. rewrite Hloop, bind_Some_eq. destruct Hs' as (c & tail & -> & Ht & Hc). subst i'.
  rewrite sds_put_shape by done. eexists. split; [done|]. by exists tail.
Qed.
End ops.
