(* ===== verification/SdsArgs.v ===== *)
(** * Comparing, splitting, quoting and parsing lines of dynamic strings *)

From S2P Require Import Prelude Util Glob Object Sds SdsText.

#[local] Open Scope Z_scope.

Abbreviation no_nul := (Forall (λ c : Z, c ≠ 0)).

(** ** Splitting at a separator *)

(** [splits sep t ts]: [ts] are the pieces of [t] between the occurrences of
    [sep], taken from the left without overlaps. *)
Inductive splits (sep : bytes) : bytes → list bytes → Prop :=
  | splits_last t :
      (∀ a b, t ≠ a ++ sep ++ b) → splits sep t [t]
  | splits_next a t ts :
      (∀ a' b', a ++ sep ++ t = a' ++ sep ++ b' → (length a ≤ length a')%nat) →
      splits sep t ts → splits sep (a ++ sep ++ t) (a :: ts).

(** The pieces with the separator between them. *)
Fixpoint join_text (sep : bytes) (ts : list bytes) : bytes :=
  match ts with
  | [] => []
  | [t] => t
  | t :: ts => t ++ sep ++ join_text sep ts
  end.

Lemma splits_nonempty sep t ts : splits sep t ts → ts ≠ [].
Proof. by destruct 1. Qed.

Lemma splits_join sep t ts : splits sep t ts → join_text sep ts = t.
Proof.
  induction 1 as [t Ht|a t ts Ha Hs IH]; [done|]. pose proof (splits_nonempty _ _ _ Hs) as Hne.
  destruct ts as [|u ts]; [done|]. change (join_text sep (a :: u :: ts)) with (a ++ sep ++ join_text sep (u :: ts)).
  by rewrite IH.
Qed.

Lemma splits_length sep t ts : sep ≠ [] → splits sep t ts → (length ts ≤ S (length t))%nat.
Proof.
  intros Hsep. induction 1 as [t Ht|a t ts Ha Hs IH]; simpl; [lia|]. rewrite !length_app.
  destruct sep; [done|]. simpl. lia.
Qed.

Section split.
Context {alloc : Allocator} {strings : StringLib}.
Context (sep srest : bytes) (len : Z).
Context (Hsep : 0 < zlen sep).
Context (Hlen : len < 2 ^ 30).

(** No separator starts in the first [length w] places. *)
Definition no_sep_before (w t : bytes) : Prop :=
  ∀ a b, w ++ t = a ++ sep ++ b → (length w ≤ length a)%nat.

Definition slots_ok (t : tokens) : Prop :=
  zlen (toks t) < slots t ≤ 2 * zlen (toks t) + 5.

Lemma memcmp_eq a b : length a = length b → (memcmp a b =? 0) = bool_decide (a = b).
Proof.
  intros Hl. apply eq_bool_prop_intro. rewrite bool_decide_spec, <-text_compare_eq, <-(memcmp_sign a b Hl).
  destruct (Z.compare_spec (memcmp a b) 0), (Z.eqb_spec (memcmp a b) 0); simpl; (done || lia).
Qed.

(** The test at a place: whether the text there starts with the separator. *)
Lemma split_test pre x t :
  x = take (length sep) t → zlen x = zlen sep →
  (if zlen sep =? 1 then
     c ← rd1 (pre ++ t) (zlen pre); y ← rd1 (sep ++ srest) 0;
     if c =? y then Some true
     else xs ← rd (pre ++ t) (zlen pre) (zlen sep); ys ← rd (sep ++ srest) 0 (zlen sep); Some (memcmp xs ys =? 0)
   else xs ← rd (pre ++ t) (zlen pre) (zlen sep); ys ← rd (sep ++ srest) 0 (zlen sep); Some (memcmp xs ys =? 0))
  = Some (bool_decide (x = sep)).
Proof using Hsep.
  intros -> Hx. set (x := take _ t) in *. rewrite <-(take_drop (length sep) t). fold x. set (t' := drop _ t).
  assert ((xs ← rd (pre ++ x ++ t') (zlen pre) (zlen sep); ys ← rd (sep ++ srest) 0 (zlen sep);
           Some (memcmp xs ys =? 0)) = Some (bool_decide (x = sep))) as Hcmp.
  { rewrite (rd_app pre x t'), bind_Some_eq by lia. rewrite rd_prefix, bind_Some_eq by done.
    by rewrite memcmp_eq by lia. }
  rewrite Hcmp. clear Hcmp. destruct (zlen sep =? 1) eqn:E; [|done].
  destruct x as [|c [|]]; simpl in Hx; [lia| |lia]. destruct sep as [|y [|]]; simpl in *; [lia| |lia].
  rewrite (rd1_app pre c _ _ eq_refl), bind_Some_eq.
  destruct (Z.eqb_spec c y) as [->|]; [by rewrite bool_decide_eq_true_2|done].
Qed.

Lemma store_token_run t b start n xs :
  zlen (toks t) < slots t → rd b start n = Some xs → n < 2 ^ 31 →
  ∃ s, store_token t b start n = Some (Tokens (slots t) (toks t ++ [s])) ∧ sds_is s xs.
Proof.
  intros Ht Hrd Hn. unfold store_token. destruct (_ <? _) eqn:E; [clear E|lia].
  destruct (rd_Some _ _ _ _ Hrd) as (_ & _ & _ & Hl & _). rewrite Hrd, bind_Some_eq.
  destruct (sdsnewlen_Some xs n xs) as (s & -> & Hs); [|done|].
  { rewrite <-(app_nil_r xs) at 1. by apply rd_prefix. }
  rewrite bind_Some_eq. by exists s.
Qed.

Lemma no_sep_nil t : no_sep_before [] t.
Proof. intros a b _. simpl. lia. Qed.

Lemma no_sep_step w c t :
  no_sep_before w (c :: t) → take (length sep) (c :: t) ≠ sep → no_sep_before (w ++ [c]) t.
Proof.
  intros Hw Hne a b Hab. rewrite <-app_assoc in Hab. pose proof (Hw a b Hab). rewrite length_app. simpl.
  destruct (decide (length a = length w)) as [Hl|]; [|lia].
  symmetry in Hl. apply app_inj_1 in Hab as [-> Hab]; [|done]. destruct Hne.
  cbn [app] in Hab. by rewrite Hab, take_app_length.
Qed.

Lemma no_sep_end w t : no_sep_before w t → zlen t < zlen sep → splits sep (w ++ t) [w ++ t].
Proof.
  intros Hw Hl. constructor. intros a b Hab. pose proof (Hw a b Hab) as Ha.
  apply (f_equal length) in Hab. rewrite !length_app in Hab. lia.
Qed.

Lemma split_loop fuel pre w t rest tk :
  len = zlen (pre ++ w ++ t) → no_sep_before w t → slots_ok tk → zlen (toks tk) <= zlen pre →
  (length t < fuel)%nat →
  ∃ ss ts tk', ('(tk, start) ← loop fuel (split_body (pre ++ w ++ t ++ rest) len (sep ++ srest) (zlen sep))
                    (tk, zlen pre, zlen pre + zlen w);
                store_token tk (pre ++ w ++ t ++ rest) start (len - start)) = Some tk' ∧
    toks tk' = toks tk ++ ss ∧ Forall2 sds_is ss ts ∧ splits sep (w ++ t) ts.
Proof using Hsep Hlen.
  revert pre w t tk. induction fuel as [|fuel IH]; intros pre w t tk Hl Hw Hsl Hpre Hf; [lia|].
  rewrite loop_S. unfold split_body at 1. rewrite !length_app in Hl.
  destruct (_ <? len - _) eqn:E.
  2:{ rewrite bind_Some_eq. destruct Hsl as [Hsl _].
      destruct (store_token_run tk (pre ++ w ++ t ++ rest) (zlen pre) (len - zlen pre) (w ++ t) Hsl) as (s & -> & Hs).
      { rewrite (app_assoc w). apply rd_app; [done|]. rewrite length_app. lia. }
      { lia. }
      eexists [s], [w ++ t], _. split; [done|]. split; [done|]. split; [by constructor|].
      apply no_sep_end; [done|lia]. }
  set (tk1 := if slots tk <? _ then _ else tk).
  assert (toks tk1 = toks tk ∧ zlen (toks tk) + 2 ≤ slots tk1 ≤ 2 * zlen (toks tk) + 5) as [Htk1 Hsl1].
  { unfold tk1, slots_ok in *. destruct (slots tk <? _) eqn:E2; simpl; [|split; [done|lia]].
    rewrite swrap_small by (try split; lia). split; [done|lia]. }
  assert (zlen pre + zlen w = zlen (pre ++ w)) as Hj by (rewrite length_app; lia).
  replace (pre ++ w ++ t ++ rest) with ((pre ++ w) ++ t ++ rest) by (by rewrite <-!app_assoc).
  rewrite Hj, (split_test (pre ++ w) (take (length sep) t)); [|rewrite take_app_le by lia; done|rewrite length_take; lia].
  rewrite bind_Some_eq. destruct (bool_decide_reflect (take (length sep) t = sep)) as [Heq|Hne].
  - assert (t = sep ++ drop (length sep) t) as Ht by (rewrite <-Heq at 1; by rewrite take_drop).
    clear Heq. revert Ht. generalize (drop (length sep) t). intros t' ->.
    destruct (store_token_run tk1 ((pre ++ w) ++ (sep ++ t') ++ rest) (zlen pre) (zlen (pre ++ w) - zlen pre) w)
      as (s & -> & Hs).
    { rewrite Htk1. lia. }
    { rewrite <-app_assoc. apply rd_app; [done|lia]. }
    { rewrite !length_app in *. lia. }
    rewrite bind_Some_eq. cbn [toks slots].
    destruct (IH (pre ++ w ++ sep) [] t' (Tokens (slots tk1) (toks tk1 ++ [s]))) as (ss & ts & tk' & Hrun & Htoks & Hss & Hts).
    { rewrite !length_app in *. simpl. lia. }
    { apply no_sep_nil. }
    { unfold slots_ok. cbn [slots toks]. rewrite Htk1, length_app. simpl. lia. }
    { cbn [toks]. rewrite Htk1, !length_app. simpl. lia. }
    { rewrite length_app in Hf. lia. }
    exists (s :: ss), (w :: ts), tk'. split.
    { rewrite <-Hrun. cbn [app]. rewrite <-!app_assoc. f_equal. f_equal. f_equal; [f_equal|]; rewrite !length_app; simpl; lia. }
    split; [by rewrite Htoks; cbn [toks]; rewrite Htk1, <-app_assoc|]. split; [by constructor|]. by constructor.
  - destruct t as [|c t]; [simpl in *; lia|].
    destruct (IH pre (w ++ [c]) t tk1) as (ss & ts & tk' & Hrun & Htoks & Hss & Hts).
    { rewrite !length_app. simpl in *. lia. }
    { by apply no_sep_step. }
    { unfold slots_ok. rewrite Htk1. lia. }
    { by rewrite Htk1. }
    { simpl in Hf. lia. }
    exists ss, ts, tk'. split.
    { rewrite <-Hrun. rewrite <-!app_assoc. cbn [app]. f_equal. f_equal. f_equal. rewrite !length_app. simpl. lia. }
    split; [by rewrite Htoks, Htk1|]. split; [done|]. by rewrite <-app_assoc in Hts.
Qed.
End split.

Section lines.
Context {alloc : Allocator} {strings : StringLib}.

(** [sdssplitlen] cuts a string of up to 2^30 bytes at the occurrences of the
    separator, taken from the left without overlaps: the pieces with the separator
    between them are the string again, none of them but for the overlap holds a
    separator, the token array never overflows and nothing outside the string is
    read.  The empty string has no pieces at all. *)
Theorem sdssplitlen_correct t rest sep srest :
  sep ≠ [] → zlen t < 2 ^ 30 → zlen sep < 2 ^ 31 →
  ∃ ss ts, sdssplitlen (t ++ rest) (zlen t) (sep ++ srest) (zlen sep) = Some (Some ss) ∧
    Forall2 sds_is ss ts ∧
    match t with [] => ts = [] | _ => splits sep t ts ∧ join_text sep ts = t end.
Proof.
  intros Hne Ht Hsep. unfold sdssplitlen. assert (0 < zlen sep) as Hpos by (destruct sep; simpl; done || lia).
  destruct (_ || _) eqn:E; [lia|]. clear E. destruct (zlen t =? 0) eqn:E.
  { destruct t; [|simpl in E; lia]. by exists [], []. }
  destruct (split_loop sep srest (zlen t) Hpos Ht (S (Z.to_nat (zlen t))) [] [] t rest (Tokens 5 []))
    as (ss & ts & tk & Hrun & Htoks & Hss & Hts);
    [done|apply no_sep_nil|unfold slots_ok; simpl; lia|simpl; lia|lia|].
  cbn [app length] in Hrun. change (Z.of_nat 0 + Z.of_nat 0) with 0 in Hrun. change (Z.of_nat 0) with 0 in Hrun.
  exists ss, ts. split; [|split; [done|]].
  - revert Hrun. destruct (loop _ _ _) as [[tk' start]|]; [|done]. rewrite !bind_Some_eq.
    intros ->. by rewrite bind_Some_eq, Htoks.
  - pose proof (splits_join _ _ _ Hts). destruct t; [simpl in E; lia|done].
Qed.

(** [sdscmp] orders strings byte by byte and shorter first, whatever bytes they
    hold, and reads nothing outside them. *)
Theorem sdscmp_correct s1 t1 s2 t2 :
  sds_is s1 t1 → sds_is s2 t2 → ∃ c, sdscmp s1 s2 = Some c ∧ (c ?= 0) = text_compare t1 t2.
Proof.
  intros H1 H2. unfold sdscmp. rewrite (sds_is_len _ _ H1), (sds_is_len _ _ H2).
  pose proof (sds_is_short _ _ H1) as Hl1. pose proof (sds_is_short _ _ H2) as Hl2.
  set (n := min (length t1) (length t2)).
  assert ((if zlen t1 <? zlen t2 then zlen t1 else zlen t2) = Z.of_nat n) as ->.
  { destruct (zlen t1 <? zlen t2) eqn:E; lia. }
  assert (∀ s t, sds_is s t → (n ≤ length t)%nat → rd (sh_buf s) 0 (Z.of_nat n) = Some (take n t)) as Hrd.
  { intros s t (tail & -> & _) Hn. cbn [sh_buf]. rewrite <-(take_drop n t) at 1. rewrite <-app_assoc.
    apply rd_prefix. rewrite length_take. lia. }
  rewrite (Hrd s1 t1), bind_Some_eq, (Hrd s2 t2), bind_Some_eq by (done || lia).
  rewrite (text_compare_prefix t1 t2 n eq_refl).
  pose proof (memcmp_sign (take n t1) (take n t2)) as Hs. rewrite !length_take in Hs.
  specialize (Hs ltac:(lia)). rewrite <-Hs.
  destruct (Z.eqb_spec (memcmp (take n t1) (take n t2)) 0) as [->|Hne].
  - eexists. split; [done|]. rewrite s32_len_diff by lia. simpl. by rewrite (Z.compare_sub (zlen t1)).
  - eexists. split; [done|]. by destruct (Z.compare_spec (memcmp (take n t1) (take n t2)) 0).
Qed.

(** ** Joining *)

Definition c_string (t : bytes) : bytes := t ++ [0].

Lemma sdscat_c_string s t xs :
  sds_is s t → Forall (λ c, c ≠ 0) xs → zlen t + zlen xs < 2 ^ 31 →
  ∃ s', sdscat s (c_string xs) = Some s' ∧ sds_is s' (t ++ xs).
Proof. apply sdscat_is. Qed.

Lemma join_args_is s t sep ts :
  sds_is s t → Forall (λ c, c ≠ 0) sep → Forall (Forall (λ c, c ≠ 0)) ts →
  zlen t + zlen (join_text sep ts) < 2 ^ 31 →
  ∃ s', join_args s (c_string <$> ts) (c_string sep) = Some s' ∧ sds_is s' (t ++ join_text sep ts).
Proof.
  intros Hs Hsep Hts Hl. revert s t Hs Hl. induction Hts as [|x ts Hx Hts IH]; intros s t Hs Hl.
  { exists s. by rewrite app_nil_r. }
  assert (zlen x ≤ zlen (join_text sep (x :: ts))) as Hxl.
  { destruct ts; simpl; rewrite ?length_app; lia. }
  destruct (sdscat_c_string s t x Hs Hx) as (s1 & Hcat & Hs1); [lia|].
  rewrite fmap_cons. cbn [join_args]. rewrite Hcat, bind_Some_eq.
  destruct ts as [|y ts]; [by exists s1|].
  change (join_text sep (x :: y :: ts)) with (x ++ sep ++ join_text sep (y :: ts)) in *.
  rewrite !length_app in Hl. rewrite fmap_cons. change (c_string y :: (c_string <$> ts)) with (c_string <$> y :: ts).
  destruct (sdscat_c_string s1 (t ++ x) sep Hs1 Hsep) as (s2 & -> & Hs2); [rewrite length_app; lia|].
  rewrite bind_Some_eq. destruct (IH s2 ((t ++ x) ++ sep) Hs2) as (s3 & -> & Hs3); [rewrite !length_app; lia|].
  exists s3. split; [done|]. by rewrite <-!app_assoc in Hs3.
Qed.

Lemma sdsjoin_is sep ts :
  Forall (λ c, c ≠ 0) sep → Forall (Forall (λ c, c ≠ 0)) ts → zlen (join_text sep ts) < 2 ^ 31 →
  ∃ s, sdsjoin (c_string <$> ts) (c_string sep) = Some s ∧ sds_is s (join_text sep ts).
Proof.
  intros Hsep Hts Hl. unfold sdsjoin. destruct sdsempty_is as (s & -> & Hs). rewrite bind_Some_eq.
  by apply (join_args_is s []).
Qed.

(** ** Lines of arguments: the grammar *)

(** The text that the escape after a backslash stands for. *)
Definition escape_char (n : Z) : Z :=
  if n =? 110 then 10 else if n =? 114 then 13 else if n =? 116 then 9
  else if n =? 98 then 8 else if n =? 97 then 7 else n.

Definition hex_byte (a b : Z) : Z := u8 (hex_digit_to_int a * 16 + hex_digit_to_int b).

(** The escape [\xHH] at the front. *)
Definition hex_front (l : bytes) : option (Z * bytes) :=
  match l with
  | c :: x :: a :: b :: l' =>
    if (c =? 92) && (x =? 120) && is_hex_digit a && is_hex_digit b then Some (hex_byte a b, l') else None
  | _ => None
  end.

(** A closing quote must be followed by a blank or the end. *)
Definition closed (l : bytes) : bool := match l with [] => true | n :: _ => isspace n end.

Definition is_blank (c : Z) : bool := existsb (Z.eqb c) [32; 10; 13; 9].

(** One step inside of a token: what it adds to the token, the line left, the
    quotes and whether the token is done; [None] for unbalanced quotes. *)
Definition scan_step (q : quotes) (l : bytes) : option (bytes * bytes * quotes * bool) :=
  match q, l with
  | Unquoted, [] => Some ([], [], Unquoted, true)
  | Unquoted, c :: l =>
    if is_blank c then Some ([], l, Unquoted, true)
    else if c =? 34 then Some ([], l, Inq, false)
    else if c =? 39 then Some ([], l, Insq, false)
    else Some ([c], l, Unquoted, false)
  | _, [] => None
  | Inq, c :: l =>
    match hex_front (c :: l) with
    | Some (x, l) => Some ([x], l, Inq, false)
    | None =>
      match l with
      | n :: l' =>
        if c =? 92 then Some ([escape_char n], l', Inq, false)
        else if c =? 34 then (if closed l then Some ([], l, Inq, true) else None)
        else Some ([c], l, Inq, false)
      | [] => if c =? 34 then Some ([], [], Inq, true) else Some ([c], [], Inq, false)
      end
    end
  | Insq, c :: l =>
    match l with
    | n :: l' =>
      if (c =? 92) && (n =? 39) then Some ([39], l', Insq, false)
      else if c =? 39 then (if closed l then Some ([], l, Insq, true) else None)
      else Some ([c], l, Insq, false)
    | [] => if c =? 39 then Some ([], [], Insq, true) else Some ([c], [], Insq, false)
    end
  end.

(** A token and the line behind it; the fuel is the length of the line. *)
Fixpoint scan (n : nat) (q : quotes) (l : bytes) : option (bytes * bytes) :=
  match n with
  | O => None
  | S n =>
    '(x, l, q, done) ← scan_step q l;
    if (done : bool) then Some (x, l) else '(y, l) ← scan n q l; Some (x ++ y, l)
  end.

Fixpoint skip_blanks (l : bytes) : bytes :=
  match l with c :: l' => if isspace c then skip_blanks l' else l | [] => [] end.

Fixpoint args (n : nat) (l : bytes) : option (list bytes) :=
  match n with
  | O => None
  | S n =>
    match skip_blanks l with
    | [] => Some []
    | l => '(x, l) ← scan (S (length l)) Unquoted l; xs ← args n l; Some (x :: xs)
    end
  end.

(** The arguments of a line. *)
Definition line_args (l : bytes) : option (list bytes) := args (S (length l)) l.

(** Reading the line at a place: what is left, then the terminator. *)
Lemma rd1_line pre l rest k off :
  off = zlen pre + Z.of_nat k → (k ≤ length l)%nat → rd1 (pre ++ l ++ 0 :: rest) off = Some (nth k l 0).
Proof.
  intros -> Hk. rewrite rd1_lookup by lia. replace (Z.to_nat _) with (length pre + k)%nat by lia.
  rewrite lookup_app_r by lia. replace (length pre + k - length pre)%nat with k by lia.
  destruct (decide (k = length l)) as [->|].
  - rewrite list_lookup_middle by done. by rewrite nth_overflow.
  - rewrite lookup_app_l by lia. destruct (lookup_lt_is_Some_2 l k) as [x Hx]; [lia|].
    rewrite Hx. by rewrite (nth_lookup_Some _ _ _ _ Hx).
Qed.

(** The escape is recognised where the grammar says, without reading behind the terminator. *)
Lemma hex_escape_run pre l rest :
  ∃ h, hex_escape (pre ++ l ++ 0 :: rest) (zlen pre) = Some h ∧
    match h with
    | Some (a, b) => ∃ l', l = 92 :: 120 :: a :: b :: l' ∧ hex_front l = Some (hex_byte a b, l')
    | None => hex_front l = None
    end.
Proof.
  unfold hex_escape. pose proof (rd1_line pre l rest) as Hrd.
  rewrite (Hrd 0%nat (zlen pre)), bind_Some_eq by lia.
  destruct l as [|c l]; [by eexists|]. simpl nth. destruct (c =? 92) eqn:E0; simpl negb; cbv iota.
  2:{ eexists. split; [done|]. simpl. destruct l as [|x [|a [|b l]]]; [done..|]. by rewrite E0. }
  rewrite (Hrd 1%nat (zlen pre + 1)), bind_Some_eq by (simpl; lia).
  destruct l as [|x l]; [by eexists|]. simpl nth. destruct (x =? 120) eqn:E1; simpl negb; cbv iota.
  2:{ eexists. split; [done|]. simpl. destruct l as [|a [|b l]]; [done..|]. by rewrite E0, E1. }
  rewrite (Hrd 2%nat (zlen pre + 2)), bind_Some_eq by (simpl; lia).
  destruct l as [|a l]; [by eexists|]. simpl nth. destruct (is_hex_digit a) eqn:E2; simpl negb; cbv iota.
  2:{ eexists. split; [done|]. simpl. destruct l as [|b l]; [done..|]. by rewrite E0, E1, E2. }
  rewrite (Hrd 3%nat (zlen pre + 3)), bind_Some_eq by (simpl; lia).
  destruct l as [|b l]; [by eexists|]. simpl nth. eexists. split; [done|].
  destruct (is_hex_digit b) eqn:E3; simpl; rewrite E0, E1, E2, E3; [|done].
  exists l. simpl. split; [|done]. by repeat f_equal; lia.
Qed.

Lemma cat_char s t c :
  sds_is s t → zlen t + 1 < 2 ^ 31 → ∃ s', sdscatlen s [c] 1 = Some s' ∧ sds_is s' (t ++ [c]).
Proof. intros Hs Ht. by apply (sdscatlen_all s t [c]). Qed.

(** What a step of the scanner does to the line [pre ++ l], in the middle of a token. *)
Definition step_ok (pre l : bytes) (t : bytes) (r : option (bytes * bytes * quotes * bool))
    (o : option (option (Z * quotes * sds * bool))) : Prop :=
  match r with
  | None => o = Some None
  | Some (x, l', q', done) =>
    ∃ s' k, o = Some (Some (zlen pre + zlen k - 1, q', s', done)) ∧ sds_is s' (t ++ x) ∧
      l = k ++ l' ∧ (0 < length k)%nat ∧ (length x ≤ length k)%nat
  end.

Lemma step_intro pre k l' t x q s done p :
  p = zlen pre + zlen k - 1 → sds_is s (t ++ x) → (0 < length k)%nat → (length x ≤ length k)%nat →
  step_ok pre (k ++ l') t (Some (x, l', q, done)) (Some (Some (p, q, s, done))).
Proof. intros -> Hs Hk Hx. by exists s, k. Qed.

Lemma quote_ends_run pre l rest :
  no_nul l → (0 < length l)%nat →
  quote_ends (pre ++ l ++ 0 :: rest) (zlen pre) = Some (closed (tail l)).
Proof.
  intros Hl Hlen. unfold quote_ends. rewrite (rd1_line pre l rest 1) by lia. rewrite bind_Some_eq.
  destruct l as [|c [|n l]]; [simpl in Hlen; lia|done|]. simpl.
  inversion_clear Hl as [|? ? _ Hl']. inversion_clear Hl' as [|? ? Hn _]. by destruct (n =? 0) eqn:E; [lia|].
Qed.

Lemma inq_run pre l rest s t :
  no_nul l → sds_is s t → zlen t + 1 < 2 ^ 31 →
  step_ok pre l t (scan_step Inq l)
    (r ← inq_step (pre ++ l ++ 0 :: rest) (zlen pre) s; Some (stay Inq r)).
Proof.
  intros Hl Hs Ht. unfold inq_step.
  destruct (hex_escape_run pre l rest) as (h & -> & Hh). rewrite bind_Some_eq.
  destruct h as [[a b]|].
  { destruct Hh as (l' & Heq & Hf). destruct (cat_char s t (hex_byte a b) Hs Ht) as (s' & Hc & Hs').
    fold (hex_byte a b). rewrite Hc, !bind_Some_eq. subst l. unfold scan_step. rewrite Hf.
    apply (step_intro pre [92; 120; a; b]); simpl; (done || lia). }
  rewrite (rd1_line pre l rest 0 (zlen pre)), bind_Some_eq by lia.
  destruct l as [|c l]; [done|]. unfold scan_step. rewrite Hh. clear Hh. cbn [nth].
  pose proof (quote_ends_run pre (c :: l) rest Hl) as Hq. cbn [tail length] in Hq.
  pose proof (rd1_line pre (c :: l) rest 1 (zlen pre + 1)) as Hn. cbn [nth length] in Hn.
  assert (∀ x, ∃ s', (current ← sdscatlen s [x] 1; Some (Some (zlen pre, current, false))) = Some (Some (zlen pre, s', false))
    ∧ sds_is s' (t ++ [x])) as Hplain.
  { intros x. destruct (cat_char s t x Hs Ht) as (s' & -> & Hs'). by exists s'. }
  inversion_clear Hl as [|? ? Hc Hl']. destruct (c =? 92) eqn:E92.
  - rewrite Hn, bind_Some_eq by lia. assert (c =? 34 = false) as -> by lia. assert (c =? 0 = false) as -> by lia.
    destruct l as [|n l]; cbn [nth negb andb Z.eqb].
    + destruct (Hplain c) as (s' & -> & Hs'). rewrite bind_Some_eq. apply (step_intro pre [c]); simpl; (done || lia).
    + inversion_clear Hl' as [|? ? Hn0 _]. destruct (n =? 0) eqn:E; [lia|]. cbn [negb]. fold (escape_char n).
      destruct (cat_char s t (escape_char n) Hs Ht) as (s' & -> & Hs'). rewrite !bind_Some_eq.
      apply (step_intro pre [c; n]); simpl; (done || lia).
  - rewrite bind_Some_eq. cbn [andb]. assert (c =? 0 = false) as -> by lia.
    assert (∀ l0 : bytes, step_ok pre (c :: l0) t (Some ([c], l0, Inq, false))
      (r ← current ← sdscatlen s [c] 1; Some (Some (zlen pre, current, false)); Some (stay Inq r))) as Hcont.
    { intros l0. destruct (Hplain c) as (s' & -> & Hs'). rewrite bind_Some_eq. apply (step_intro pre [c]); simpl; (done || lia). }
    destruct (c =? 34) eqn:E34.
    2:{ destruct l; apply Hcont. }
    rewrite Hq, !bind_Some_eq by lia. destruct l as [|n l]; [|destruct (closed (n :: l)); [|done]];
      apply (step_intro pre [c]); rewrite ?app_nil_r; simpl; (done || lia).
Qed.

Lemma insq_run pre l rest s t :
  no_nul l → sds_is s t → zlen t + 1 < 2 ^ 31 →
  step_ok pre l t (scan_step Insq l)
    (r ← insq_step (pre ++ l ++ 0 :: rest) (zlen pre) s; Some (stay Insq r)).
Proof.
  intros Hl Hs Ht. unfold insq_step. rewrite (rd1_line pre l rest 0 (zlen pre)), bind_Some_eq by lia.
  destruct l as [|c l]; [done|]. unfold scan_step. cbn [nth].
  pose proof (quote_ends_run pre (c :: l) rest Hl) as Hq. cbn [tail length] in Hq.
  pose proof (rd1_line pre (c :: l) rest 1 (zlen pre + 1)) as Hn. cbn [nth length] in Hn.
  inversion_clear Hl as [|? ? Hc Hl']. assert (c =? 0 = false) as -> by lia.
  assert (∀ l0 : bytes, step_ok pre (c :: l0) t (Some ([c], l0, Insq, false))
    (r ← current ← sdscatlen s [c] 1; Some (Some (zlen pre, current, false)); Some (stay Insq r))) as Hcont.
  { intros l0. destruct (cat_char s t c Hs Ht) as (s' & -> & Hs'). rewrite !bind_Some_eq. apply (step_intro pre [c]); simpl; (done || lia). }
  destruct (c =? 92) eqn:E92; [rewrite Hn by lia|]; rewrite bind_Some_eq; cbn [andb].
  - assert (c =? 39 = false) as -> by lia. destruct l as [|n l]; cbn [nth]; [apply Hcont|].
    destruct (n =? 39) eqn:E; [|apply Hcont].
    destruct (cat_char s t 39 Hs Ht) as (s' & -> & Hs'). rewrite !bind_Some_eq.
    apply (step_intro pre [c; n]); simpl; (done || lia).
  - destruct (c =? 39) eqn:E39; [|destruct l; apply Hcont].
    rewrite Hq, !bind_Some_eq by lia. destruct l as [|n l]; [|destruct (closed (n :: l)); [|done]];
      apply (step_intro pre [c]); rewrite ?app_nil_r; simpl; (done || lia).
Qed.

(** One step of the token loop, the advance to the next character included. *)
Definition consumes (pre l : bytes) (t x l' : bytes) (s' : sds) (p : Z) : Prop :=
  sds_is s' (t ++ x) ∧ ∃ k, p = zlen (pre ++ k) ∧ l = k ++ l' ∧ (length x ≤ length k)%nat ∧
    (l ≠ [] → 0 < length k)%nat.

Lemma token_body_run pre l rest q s t :
  no_nul l → sds_is s t → zlen t + 1 < 2 ^ 31 →
  match scan_step q l with
  | None => token_body (pre ++ l ++ 0 :: rest) (zlen pre, q, s) = Some (inr None)
  | Some (x, l', q', done) => ∃ s' p,
    token_body (pre ++ l ++ 0 :: rest) (zlen pre, q, s) =
      Some (if (done : bool) then inr (Some (p, s')) else inl (p, q', s')) ∧
    consumes pre l t x l' s' p
  end.
Proof.
  intros Hl Hs Ht. unfold token_body.
  assert ((q = Unquoted ∧ l = []) ∨ step_ok pre l t (scan_step q l)
    (token_step (pre ++ l ++ 0 :: rest) (zlen pre) q s)) as [[-> ->]|Hstep].
  { destruct q; simpl token_step; [|right; by apply inq_run|right; by apply insq_run].
    unfold unquoted_step. rewrite (rd1_line pre l rest 0 (zlen pre)), bind_Some_eq by lia.
    destruct l as [|c l]; [by left|right]. inversion_clear Hl as [|? ? Hc Hl']. cbn [nth].
    unfold scan_step. assert (is_blank c = (c =? 32) || (c =? 10) || (c =? 13) || (c =? 9) || (c =? 0)) as <-.
    { unfold is_blank. simpl. lia. }
    destruct (is_blank c); [apply (step_intro pre [c]); rewrite ?app_nil_r; simpl; (done || lia)|].
    destruct (c =? 34); [apply (step_intro pre [c]); rewrite ?app_nil_r; simpl; (done || lia)|].
    destruct (c =? 39); [apply (step_intro pre [c]); rewrite ?app_nil_r; simpl; (done || lia)|].
    destruct (cat_char s t c Hs Ht) as (s' & -> & Hs'). rewrite bind_Some_eq.
    apply (step_intro pre [c]); simpl; (done || lia). }
  - cbn [token_step]. unfold unquoted_step. cbn [app scan_step].
    rewrite (rd1_app pre 0 rest _ eq_refl), !bind_Some_eq. cbn.
    rewrite (rd1_app pre 0 rest _ eq_refl). cbn. exists s, (zlen pre). split; [done|].
    split; [by rewrite app_nil_r|]. exists []. by rewrite app_nil_r.
  - destruct (scan_step q l) as [[[[x l'] q'] dn]|]; [|by rewrite Hstep, bind_Some_eq].
    destruct Hstep as (s' & k & -> & Hs' & -> & Hk & Hx). rewrite bind_Some_eq.
    destruct (@exists_last _ k) as (k' & c & ->); [destruct k; [simpl in Hk; lia|done]|].
    assert (c ≠ 0) as Hc. { apply Forall_app in Hl as [Hl _]. by apply Forall_app in Hl as [_ Hl%Forall_inv]. }
    rewrite length_app in *. simpl in Hk, Hx. cbn [length].
    replace (pre ++ ((k' ++ [c]) ++ l') ++ 0 :: rest) with ((pre ++ k') ++ c :: l' ++ 0 :: rest)
      by (by rewrite <-!app_assoc).
    rewrite rd1_app by (rewrite length_app; lia). rewrite bind_Some_eq. destruct (c =? 0) eqn:E; [lia|].
    eexists s', _. split; [by destruct dn|]. split; [done|]. exists (k' ++ [c]).
    split; [rewrite !length_app; simpl; lia|]. split; [done|]. rewrite length_app. simpl. split; [lia|lia].
Qed.

Lemma no_nul_suffix k l : no_nul (k ++ l) → no_nul l.
Proof. by intros [_ ?]%Forall_app. Qed.

Lemma token_loop fuel pre l rest q s t :
  no_nul l → sds_is s t → zlen t + zlen l + 1 < 2 ^ 31 → (length l < fuel)%nat →
  match scan fuel q l with
  | None => loop fuel (token_body (pre ++ l ++ 0 :: rest)) (zlen pre, q, s) = Some None
  | Some (x, l') => ∃ s' p,
    loop fuel (token_body (pre ++ l ++ 0 :: rest)) (zlen pre, q, s) = Some (Some (p, s')) ∧
    consumes pre l t x l' s' p
  end.
Proof.
  revert pre l q s t. induction fuel as [|fuel IH]; intros pre l q s t Hl Hs Ht Hf; [lia|].
  rewrite loop_S. cbn [scan]. pose proof (token_body_run pre l rest q s t Hl Hs ltac:(lia)) as Hstep.
  destruct (scan_step q l) as [[[[x l'] q'] dn]|] eqn:Eq; [|by rewrite Hstep].
  destruct Hstep as (s1 & p & -> & Hs1 & k & -> & -> & Hx & Hk). rewrite bind_Some_eq. destruct dn.
  { exists s1, (zlen (pre ++ k)). split; [done|]. split; [done|]. by exists k. }
  assert (0 < length k)%nat as Hk'.
  { apply Hk. intros [-> ->]%app_eq_nil. by destruct q. }
  rewrite !length_app in *.
  specialize (IH (pre ++ k) l' q' s1 (t ++ x) (no_nul_suffix _ _ Hl) Hs1).
  rewrite !length_app in IH. specialize (IH ltac:(lia) ltac:(lia)).
  replace (pre ++ (k ++ l') ++ 0 :: rest) with ((pre ++ k) ++ l' ++ 0 :: rest) by (by rewrite <-!app_assoc).
  destruct (scan fuel q' l') as [[y l'']|]; [|by rewrite IH].
  destruct IH as (s2 & p2 & Hrun & Hs2 & k2 & -> & -> & Hy & _). rewrite bind_Some_eq.
  exists s2, (zlen ((pre ++ k) ++ k2)). split; [exact Hrun|]. split; [by rewrite <-app_assoc in Hs2|].
  exists (k ++ k2). rewrite <-!app_assoc, !length_app. split; [done|]. split; [done|]. lia.
Qed.

Lemma scan_step_shorter q l x l' q' dn :
  scan_step q l = Some (x, l', q', dn) → (l = [] ∧ dn = true) ∨ (length l' < length l)%nat.
Proof.
  unfold scan_step, hex_front. destruct q, l as [|c l]; try done.
  - intros [= <- <- <- <-]. by left.
  - intros E. right. repeat case_match; simplify_eq; simpl; lia.
  - intros E. right. repeat case_match; simplify_eq; simpl; lia.
  - intros E. right. repeat case_match; simplify_eq; simpl; lia.
Qed.

Lemma scan_fuel n m q l :
  (length l < n)%nat → (length l < m)%nat → scan n q l = scan m q l.
Proof.
  revert m q l. induction n as [|n IH]; intros m q l Hn Hm; [lia|]. destruct m as [|m]; [lia|].
  cbn [scan]. destruct (scan_step q l) as [[[[x l'] q'] dn]|] eqn:E; [|done]. rewrite !bind_Some_eq.
  destruct dn; [done|]. destruct (scan_step_shorter _ _ _ _ _ _ E) as [[_ ?]|]; [done|].
  by rewrite (IH m) by lia.
Qed.

Lemma scan_shorter n q l x l' : scan n q l = Some (x, l') → l ≠ [] → (length l' < length l)%nat.
Proof.
  revert q l x. induction n as [|n IH]; intros q l x; [done|]. cbn [scan].
  destruct (scan_step q l) as [[[[y l1] q'] dn]|] eqn:E; [|done]. rewrite bind_Some_eq.
  intros Hs Hl. destruct (scan_step_shorter _ _ _ _ _ _ E) as [[-> _]|Hlt]; [done|].
  destruct dn; [by simplify_eq|]. destruct (scan n q' l1) as [[z l2]|] eqn:E2; [|done].
  rewrite bind_Some_eq in Hs. simplify_eq. destruct (decide (l1 = [])) as [->|Hne].
  - destruct n as [|n]; [done|]. destruct q'; simpl in E2; simplify_eq. simpl in *. lia.
  - pose proof (IH _ _ _ E2 Hne). lia.
Qed.

(** ** The whole line *)

Lemma skip_blanks_split l : ∃ k, l = k ++ skip_blanks l.
Proof.
  induction l as [|c l [k IH]]; [by exists []|]. simpl. destruct (isspace c); [|by exists []].
  exists (c :: k). simpl. by rewrite <-IH.
Qed.

Lemma args_fuel n m l : (length l < n)%nat → (length l < m)%nat → args n l = args m l.
Proof.
  revert m l. induction n as [|n IH]; intros m l Hn Hm; [lia|]. destruct m as [|m]; [lia|]. cbn [args].
  destruct (skip_blanks_split l) as [k Hk]. pose proof (f_equal length Hk) as Hlen. rewrite length_app in Hlen.
  destruct (skip_blanks l) as [|c l1]; [done|]. destruct (scan _ _ _) as [[x l']|] eqn:E; [|done].
  pose proof (scan_shorter _ _ _ _ _ E ltac:(done)). rewrite !bind_Some_eq. by rewrite (IH m) by lia.
Qed.

Lemma blank_loop fuel pre l rest :
  no_nul l → (length l < fuel)%nat →
  ∃ k, loop fuel (blank_body (pre ++ l ++ 0 :: rest)) (zlen pre) = Some (zlen (pre ++ k)) ∧
    l = k ++ skip_blanks l.
Proof.
  revert pre l. induction fuel as [|fuel IH]; intros pre l Hl Hf; [lia|]. rewrite loop_S. unfold blank_body at 1.
  rewrite (rd1_line pre l rest 0 (zlen pre)), bind_Some_eq by lia. destruct l as [|c l]; simpl nth.
  { exists []. by rewrite app_nil_r. }
  inversion_clear Hl as [|? ? Hc Hl']. destruct (c =? 0) eqn:E; [lia|]. cbn [negb andb skip_blanks].
  destruct (isspace c); [|exists []; by rewrite app_nil_r].
  simpl in Hf. destruct (IH (pre ++ [c]) l Hl') as (k & Hrun & Hk); [lia|]. exists (c :: k).
  replace (zlen pre + 1) with (zlen (pre ++ [c])) by (rewrite length_app; simpl; lia).
  replace (pre ++ (c :: l) ++ 0 :: rest) with ((pre ++ [c]) ++ l ++ 0 :: rest) by (by rewrite <-app_assoc).
  rewrite Hrun, <-app_assoc. simpl. split; [done|]. by f_equal.
Qed.

Lemma splitargs_body_eq line p vector :
  splitargs_body line (p, vector) =
  (p ← loop (length line) (blank_body line) p;
   c ← rd1 line p;
   if c =? 0 then Some (inr (Some vector))
   else
     current ← sdsempty;
     r ← loop (S (length line)) (token_body line) (p, Unquoted, current);
     match r with
     | Some (p, current) => Some (inl (p, vector ++ [current]))
     | None => Some (inr None)
     end).
Proof. done. Qed.

Lemma args_loop fuel line pre l rest ss :
  line = pre ++ l ++ 0 :: rest → no_nul l → zlen l + 1 < 2 ^ 31 → (length l < fuel)%nat →
  match args fuel l with
  | None => loop fuel (splitargs_body line) (zlen pre, ss) = Some None
  | Some ts => ∃ ss', loop fuel (splitargs_body line) (zlen pre, ss) = Some (Some (ss ++ ss')) ∧ Forall2 sds_is ss' ts
  end.
Proof.
  intros Hline. revert pre l ss Hline. induction fuel as [|fuel IH]; intros pre l ss Hline Hl Ht Hf; [lia|].
  rewrite loop_S, splitargs_body_eq. cbn [args].
  assert (length line = length pre + (length l + S (length rest)))%nat as Hlen.
  { subst. rewrite !length_app. simpl. lia. }
  destruct (blank_loop (length line) pre l rest Hl) as (k & Hb & Hk); [lia|]. rewrite <-Hline in Hb.
  rewrite Hb, bind_Some_eq. destruct (skip_blanks l) as [|c l1] eqn:El.
  { rewrite app_nil_r in Hk. subst k line. rewrite (app_assoc pre l), (rd1_app (pre ++ l) 0 rest _ eq_refl), bind_Some_eq.
    exists []. by rewrite app_nil_r. }
  rewrite Hk in Hline, Hl, Ht, Hf, Hlen. clear Hb Hk El l.
  assert (line = (pre ++ k) ++ (c :: l1) ++ 0 :: rest) as Hline' by (by rewrite Hline, <-!app_assoc).
  apply no_nul_suffix in Hl. rewrite length_app in Ht, Hf, Hlen.
  assert (c ≠ 0) as Hc by (by inversion Hl).
  assert (rd1 line (zlen (pre ++ k)) = Some c) as -> by (rewrite Hline'; by apply rd1_app).
  rewrite bind_Some_eq. destruct (c =? 0) eqn:E; [lia|].
  destruct sdsempty_is as (s0 & -> & Hs0). rewrite bind_Some_eq.
  pose proof (token_loop (S (length line)) (pre ++ k) (c :: l1) rest Unquoted s0 [] Hl Hs0) as Htok.
  rewrite <-Hline' in Htok. specialize (Htok ltac:(cbn [length] in *; lia) ltac:(cbn [length] in *; lia)).
  rewrite (scan_fuel (S (length line)) (S (length (c :: l1))) Unquoted (c :: l1)) in Htok by lia.
  destruct (scan _ _ _) as [[x l']|]; [|rewrite Htok, bind_Some_eq; exact eq_refl].
  destruct Htok as (s1 & p & -> & Hs1 & k2 & -> & Heq & _ & Hk2). rewrite !bind_Some_eq.
  specialize (Hk2 ltac:(done)). pose proof (f_equal length Heq) as Hl2. rewrite length_app in Hl2.
  rewrite Heq in Hline', Hl. apply no_nul_suffix in Hl. pose proof (f_equal length Heq) as HH. rewrite length_app in HH.
  specialize (IH ((pre ++ k) ++ k2) l' (ss ++ [s1])).
  specialize (IH ltac:(by rewrite Hline', <-!app_assoc) Hl ltac:(lia) ltac:(lia)).
  destruct (args fuel l') as [ts|]; [|done]. destruct IH as (ss' & -> & Hss). rewrite bind_Some_eq.
  exists (s1 :: ss'). rewrite <-app_assoc. split; [done|]. by constructor.
Qed.

(** ** Quoting and parsing back *)

Definition repr_text (xs : bytes) : bytes := [34] ++ mjoin (repr_char <$> xs) ++ [34].

Lemma repr_cons x xs : mjoin (repr_char <$> x :: xs) = repr_char x ++ mjoin (repr_char <$> xs).
Proof. done. Qed.

Lemma repr_chars_is s t pre xs rest :
  sds_is s t → zlen t + zlen (mjoin (repr_char <$> xs)) < 2 ^ 31 →
  ∃ s', repr_chars s (pre ++ xs ++ rest) (zlen pre) (length xs) = Some s' ∧
    sds_is s' (t ++ mjoin (repr_char <$> xs)).
Proof.
  revert s t pre. induction xs as [|x xs IH]; intros s t pre Hs Hl.
  { exists s. by rewrite app_nil_r. }
  rewrite repr_cons in *. rewrite length_app in Hl.
  cbn [repr_chars length]. change (pre ++ (x :: xs) ++ rest) with (pre ++ x :: xs ++ rest).
  rewrite (rd1_app pre x _ _ eq_refl), bind_Some_eq.
  destruct (sdscatlen_all s t (repr_char x) Hs) as (s1 & -> & Hs1); [lia|]. rewrite bind_Some_eq.
  destruct (IH s1 (t ++ repr_char x) (pre ++ [x]) Hs1) as (s2 & Hrun & Hs2); [rewrite length_app; lia|].
  exists s2. rewrite <-!app_assoc in *. split; [|done]. rewrite <-Hrun. f_equal. rewrite length_app. simpl. lia.
Qed.

Lemma sdscatrepr_is s t xs rest :
  sds_is s t → zlen t + zlen (repr_text xs) < 2 ^ 31 →
  ∃ s', sdscatrepr s (xs ++ rest) (zlen xs) = Some s' ∧ sds_is s' (t ++ repr_text xs).
Proof.
  intros Hs Hl. unfold repr_text in *. rewrite !length_app in Hl. cbn [length] in Hl. unfold sdscatrepr.
  destruct (cat_char s t 34 Hs) as (s1 & -> & Hs1); [lia|]. rewrite bind_Some_eq, Nat2Z.id.
  destruct (repr_chars_is s1 (t ++ [34]) [] xs rest Hs1) as (s2 & Hrun & Hs2); [rewrite length_app; simpl; lia|].
  cbn [app length] in Hrun. change (Z.of_nat 0) with 0 in Hrun. rewrite Hrun, bind_Some_eq.
  destruct (cat_char s2 _ 34 Hs2) as (s3 & -> & Hs3); [rewrite !length_app; simpl; lia|].
  exists s3. split; [done|]. by rewrite <-!app_assoc in Hs3.
Qed.

Lemma hex_front_plain c l : c ≠ 92 → hex_front (c :: l) = None.
Proof. intros Hc. destruct l as [|x [|a [|b l]]]; simpl; [done..|]. by destruct (c =? 92) eqn:?; [lia|]. Qed.

Lemma hex_front_escape n l : n ≠ 120 → hex_front (92 :: n :: l) = None.
Proof. intros Hn. destruct l as [|a [|b l]]; simpl; [done..|]. by destruct (n =? 120) eqn:?; [lia|]. Qed.

Lemma hex_digit_inv d : 0 ≤ d < 16 → is_hex_digit (hex_digit d) = true ∧ hex_digit_to_int (hex_digit d) = d.
Proof.
  intros Hd.
  assert (Forall (λ d, is_hex_digit (hex_digit d) = true ∧ hex_digit_to_int (hex_digit d) = d) (seqZ 0 16)) as Hall
    by (by repeat constructor).
  rewrite Forall_forall in Hall. apply Hall, elem_of_seqZ. lia.
Qed.

Lemma scan_repr_char c l :
  in_u 8 c → l ≠ [] → scan_step Inq (repr_char c ++ l) = Some ([c], l, Inq, false).
Proof.
  intros Hc Hl. unfold repr_char.
  repeat match goal with
  | |- context [if ?b then [92; _] else _] => destruct b eqn:?
  end;
  [assert (c = 92 ∨ c = 34) as [-> | ->] by lia; cbn [app]; unfold scan_step; by rewrite hex_front_escape
  |assert (c = 10) as -> by lia; cbn [app]; unfold scan_step; by rewrite hex_front_escape
  |assert (c = 13) as -> by lia; cbn [app]; unfold scan_step; by rewrite hex_front_escape
  |assert (c = 9) as -> by lia; cbn [app]; unfold scan_step; by rewrite hex_front_escape
  |assert (c = 7) as -> by lia; cbn [app]; unfold scan_step; by rewrite hex_front_escape
  |assert (c = 8) as -> by lia; cbn [app]; unfold scan_step; by rewrite hex_front_escape|].
  destruct (isprint c); cbn [app]; unfold scan_step.
  - rewrite hex_front_plain by lia. destruct l as [|n l]; [done|].
    destruct (c =? 92) eqn:?; [lia|]. by destruct (c =? 34) eqn:?; [lia|].
  - destruct Hc as [Hc1 Hc2]. change (2 ^ 8) with 256 in Hc2.
    destruct (hex_digit_inv (c / 16)) as [H1 H2]; [dlia|]. destruct (hex_digit_inv (c mod 16)) as [H3 H4]; [dlia|].
    unfold hex_front. rewrite H1, H3. cbn. unfold hex_byte. rewrite H2, H4.
    rewrite wrap_small by (split; dlia). do 5 f_equal. dlia.
Qed.

Lemma scan_repr n xs l :
  is_bytes xs → closed l = true → (length (mjoin (repr_char <$> xs)) + S (length l) < n)%nat →
  scan n Inq (mjoin (repr_char <$> xs) ++ 34 :: l) = Some (xs, l).
Proof.
  intros Hxs Hl. revert n. induction Hxs as [|x xs Hx Hxs IH]; intros n Hn.
  - destruct n as [|n]; [simpl in Hn; lia|]. cbn [fmap list_fmap mjoin list_join app scan scan_step].
    rewrite hex_front_plain by done. destruct l as [|y l]; [done|]. cbn [Z.eqb]. cbn -[closed]. by rewrite Hl.
  - rewrite repr_cons, <-app_assoc in *.
    destruct n as [|n]; [lia|]. cbn [scan].
    rewrite scan_repr_char, bind_Some_eq; [|done|by destruct (mjoin (repr_char <$> xs))].
    assert (0 < length (repr_char x))%nat by (unfold repr_char; repeat case_match; simpl; lia).
    rewrite length_app in Hn. rewrite IH by lia. done.
Qed.

Lemma scan_repr_text n xs l :
  is_bytes xs → closed l = true → (length (repr_text xs ++ l) < n)%nat →
  scan n Unquoted (repr_text xs ++ l) = Some (xs, l).
Proof.
  intros Hxs Hl Hn. unfold repr_text in *. rewrite <-!app_assoc in *. destruct n as [|n]; [lia|].
  cbn [app] in *. cbn [scan scan_step is_blank existsb]. cbn -[mjoin scan].
  cbn [length] in Hn. rewrite length_app in Hn. cbn [length] in Hn. rewrite scan_repr; (done || lia).
Qed.

Lemma args_repr n ts :
  Forall is_bytes ts → (length (join_text [32%Z] (repr_text <$> ts)) < n)%nat →
  args n (join_text [32] (repr_text <$> ts)) = Some ts ∧
  (args n (32 :: join_text [32] (repr_text <$> ts)) = Some ts).
Proof.
  intros Hts. revert n. induction Hts as [|x ts Hx Hts IH]; intros n Hn; (destruct n as [|n]; [lia|]); [done|].
  assert (∃ l, join_text [32] (repr_text <$> x :: ts) = repr_text x ++ l ∧ closed l = true ∧
    ((length l < n)%nat → args n l = Some ts)) as (l & Heq & Hl & Hargs).
  { destruct ts as [|y ts].
    - exists []. rewrite app_nil_r. split; [done|]. split; [done|]. by destruct n; [simpl; lia|].
    - exists ([32] ++ join_text [32] (repr_text <$> y :: ts)). split; [done|]. split; [done|].
      intros Hlt. cbn [app length] in Hlt. destruct (IH n) as [_ IH2]; [lia|]. exact IH2. }
  rewrite Heq in *. rewrite length_app in Hn. pose proof (eq_refl : length (repr_text x) = S (length (mjoin (repr_char <$> x) ++ [34]))) as Hlr.
  assert (skip_blanks (repr_text x ++ l) = repr_text x ++ l) as Hskip by done.
  assert (args (S n) (repr_text x ++ l) = Some (x :: ts)) as Hgo.
  { cbn [args]. rewrite Hskip. change (repr_text x ++ l) with (34 :: (mjoin (repr_char <$> x) ++ [34]) ++ l) at 1.
    cbv iota. change (34 :: (mjoin (repr_char <$> x) ++ [34]) ++ l) with (repr_text x ++ l).
    rewrite scan_repr_text by (done || lia). rewrite bind_Some_eq. rewrite Hargs by lia. done. }
  split; [done|]. rewrite <-Hgo. done.
Qed.

Lemma repr_text_no_nul xs : is_bytes xs → no_nul (repr_text xs).
Proof.
  intros Hxs. unfold repr_text. constructor; [done|]. apply Forall_app. split; [|by constructor].
  induction Hxs as [|x xs Hx Hxs IH]; [constructor|]. rewrite repr_cons. apply Forall_app. split; [|done].
  unfold repr_char. destruct Hx as [Hx1 Hx2].
  destruct (isprint x) eqn:E; [unfold isprint in E|]; repeat case_match;
    repeat (apply Forall_cons; split); try apply Forall_nil; try done; try lia; unfold hex_digit; case_match; dlia.
Qed.

Lemma join_repr_no_nul ts : Forall is_bytes ts → no_nul (join_text [32] (repr_text <$> ts)).
Proof.
  induction 1 as [|x ts Hx Hts IH]; [constructor|]. destruct ts as [|y ts]; [by apply repr_text_no_nul|].
  change (join_text [32] (repr_text <$> x :: y :: ts)) with (repr_text x ++ [32] ++ join_text [32] (repr_text <$> y :: ts)).
  apply Forall_app. split; [by apply repr_text_no_nul|]. by constructor.
Qed.

(** A line of quoted arguments, as it is built from the operations. *)
Fixpoint quote_args (s : sds) (ts : list bytes) : option sds :=
  match ts with
  | [] => Some s
  | t :: ts =>
    s ← sdscatrepr s t (zlen t);
    match ts with
    | [] => Some s
    | _ => s ← sdscatlen s [32] 1; quote_args s ts
    end
  end.

Lemma quote_args_is s t ts :
  sds_is s t → zlen t + zlen (join_text [32] (repr_text <$> ts)) < 2 ^ 31 →
  ∃ s', quote_args s ts = Some s' ∧ sds_is s' (t ++ join_text [32] (repr_text <$> ts)).
Proof.
  revert s t. induction ts as [|x ts IH]; intros s t Hs Hl; [exists s; by rewrite app_nil_r|].
  cbn [quote_args].
  assert (zlen (repr_text x) ≤ zlen (join_text [32] (repr_text <$> x :: ts))) as Hle.
  { destruct ts as [|y ts]; [done|].
    change (join_text [32] (repr_text <$> x :: y :: ts)) with (repr_text x ++ [32] ++ join_text [32] (repr_text <$> y :: ts)).
    rewrite length_app. lia. }
  destruct (sdscatrepr_is s t x [] Hs) as (s1 & Hrun & Hs1); [lia|]. rewrite app_nil_r in Hrun.
  rewrite Hrun, bind_Some_eq. destruct ts as [|y ts]; [by exists s1|].
  change (join_text [32] (repr_text <$> x :: y :: ts)) with (repr_text x ++ [32] ++ join_text [32] (repr_text <$> y :: ts)) in *.
  rewrite (length_app (repr_text x)), (length_app [32]) in Hl. change (length [32]) with 1%nat in Hl.
  destruct (cat_char s1 _ 32 Hs1) as (s2 & -> & Hs2); [rewrite (length_app t); lia|]. rewrite bind_Some_eq.
  destruct (IH s2 _ Hs2) as (s3 & -> & Hs3).
  { rewrite (length_app (t ++ _)), (length_app t). change (length [32]) with 1%nat. lia. }
  exists s3. by rewrite <-!app_assoc in Hs3.
Qed.

Lemma sdssplitargs_run l rest :
  no_nul l → zlen l + 1 < 2 ^ 31 →
  match line_args l with
  | Some ts => ∃ ss, sdssplitargs (l ++ 0 :: rest) = Some (Some ss) ∧ Forall2 sds_is ss ts
  | None => sdssplitargs (l ++ 0 :: rest) = Some None
  end.
Proof.
  intros Hl Ht. unfold line_args, sdssplitargs.
  rewrite (args_fuel _ (S (length (l ++ 0 :: rest)))) by (rewrite ?length_app; lia).
  pose proof (args_loop (S (length (l ++ 0 :: rest))) (l ++ 0 :: rest) [] l rest [] eq_refl Hl Ht) as H.
  specialize (H ltac:(rewrite length_app; lia)). exact H.
Qed.

(** C24: [sdssplitargs] reads a line the way the grammar [line_args] says: arguments
    apart by blanks, double quotes with escapes and hexadecimal bytes, single
    quotes where only the quote itself is escaped, a closing quote followed by a
    blank or the end; [NULL] for unbalanced quotes.  It never reads behind the
    terminator of the line, the longest escape at the very end included. *)
Theorem sdssplitargs_correct l rest :
  no_nul l → zlen l + 1 < 2 ^ 31 →
  match line_args l with
  | Some ts => ∃ ss, sdssplitargs (l ++ 0 :: rest) = Some (Some ss) ∧ Forall2 sds_is ss ts
  | None => sdssplitargs (l ++ 0 :: rest) = Some None
  end.
Proof. apply sdssplitargs_run. Qed.

(** C23: [sdscatrepr] and [sdssplitargs] are inverse to each other: arguments of any
    bytes at all, quoted one after the other with spaces between them, are read
    back as they were. *)
Theorem sdscatrepr_splitargs_roundtrip ts :
  Forall is_bytes ts → zlen (join_text [32] (repr_text <$> ts)) + 1 < 2 ^ 31 →
  ∃ s ss, (s ← sdsempty; quote_args s ts) = Some s ∧
    sdssplitargs (sh_buf s) = Some (Some ss) ∧ Forall2 sds_is ss ts.
Proof.
  intros Hts Hl. destruct sdsempty_is as (s0 & -> & Hs0). rewrite bind_Some_eq.
  destruct (quote_args_is s0 [] ts Hs0) as (s & -> & Hs); [change (zlen (@nil Z)) with 0; lia|].
  exists s. destruct Hs as (tail & -> & _). cbn [sh_buf app].
  pose proof (sdssplitargs_run (join_text [32] (repr_text <$> ts)) tail) as Hrun.
  unfold line_args in Hrun. rewrite (proj1 (args_repr _ ts Hts (Nat.lt_succ_diag_r _))) in Hrun.
  destruct Hrun as (ss & Hrun & Hss); [by apply join_repr_no_nul|done|by exists ss].
Qed.
End lines.

Section witnesses.
#[local] Existing Instance poison_allocator.
#[local] Existing Instance diff_string_lib.

Lemma sdssplitlen_correct_witness :
  ∃ ss ts, sdssplitlen [1; 2; 9; 9; 9; 4] 6 [9; 9] 2 = Some (Some ss) ∧ Forall2 sds_is ss ts ∧
    splits [9; 9] [1; 2; 9; 9; 9; 4] ts ∧ join_text [9; 9] ts = [1; 2; 9; 9; 9; 4].
Proof. apply (sdssplitlen_correct [1; 2; 9; 9; 9; 4] [] [9; 9] []); [done|by vm_compute|by vm_compute]. Defined.

Lemma sdscmp_correct_witness :
  ∃ c, sdscmp (Sds 1 0 [255; 0]) (Sds 2 0 [255; 0; 0]) = Some c ∧ (c ?= 0) = Lt.
Proof. apply (sdscmp_correct _ [255] _ [255; 0]); by exists []. Defined.

(** The line [a "b\x41"], and one whose quote is not closed. *)
Lemma sdssplitargs_correct_witness :
  (∃ ss, sdssplitargs [97; 32; 34; 98; 92; 120; 52; 49; 34; 0] = Some (Some ss) ∧ Forall2 sds_is ss [[97]; [98; 65]]) ∧
  sdssplitargs [97; 32; 34; 98; 0] = Some None.
Proof.
  split.
  - apply (sdssplitargs_correct [97; 32; 34; 98; 92; 120; 52; 49; 34] []); [by repeat constructor|by vm_compute].
  - apply (sdssplitargs_correct [97; 32; 34; 98] []); [by repeat constructor|by vm_compute].
Defined.

Lemma sdscatrepr_splitargs_roundtrip_witness :
  ∃ s ss, (s ← sdsempty; quote_args s [[0; 34; 200]; []; [92; 10]]) = Some s ∧
    sdssplitargs (sh_buf s) = Some (Some ss) ∧ Forall2 sds_is ss [[0; 34; 200]; []; [92; 10]].
Proof. apply sdscatrepr_splitargs_roundtrip; [by repeat (constructor; try done)|by vm_compute]. Defined.
End witnesses.
