(* ===== verification/SdsRefine.v ===== *)
(** * Dynamic strings refine byte strings: any sequence of operations *)

From S2P Require Import Prelude Util Glob Object Sds SdsText SdsArgs.

#[local] Open Scope Z_scope.

(** An operation on one string, with its arguments. *)
Inductive sop :=
  | OpCatLen (xs : bytes)
  | OpCat (xs : bytes)
  | OpCatSelf
  | OpCatFmt (fmt : bytes) (ap : list va)
  | OpCatRepr (xs : bytes)
  | OpCpyLen (xs : bytes)
  | OpGrowZero (n : Z)
  (* bytes read into the free space, then [sdsIncrLen] *)
  | OpAppend (xs : bytes)
  | OpCut (n : Z)
  | OpTrim (cset : bytes)
  | OpRange (start end_ : Z)
  | OpLower
  | OpUpper
  | OpMapChars (from to : bytes)
  | OpUpdateLen
  | OpRemoveFree
  | OpDup
  | OpClear.

(** What an operation does to the text: the specification. *)
Definition text_op (t : bytes) (op : sop) : bytes :=
  match op with
  | OpCatLen xs | OpCat xs | OpAppend xs => t ++ xs
  | OpCatSelf => t ++ t
  | OpCatFmt fmt ap => t ++ default [] (fmt_text fmt ap)
  | OpCatRepr xs => t ++ repr_text xs
  | OpCpyLen xs => xs
  | OpGrowZero n => t ++ replicate (Z.to_nat (n - zlen t)) 0
  | OpCut n => take (Z.to_nat (zlen t - n)) t
  | OpTrim cset => trim (in_cset cset) t
  | OpRange start end_ => text_range t start end_
  | OpLower => to_lower <$> t
  | OpUpper => to_upper <$> t
  | OpMapChars from to => translate from to <$> t
  | OpUpdateLen => until_nul t
  | OpRemoveFree | OpDup => t
  | OpClear => []
  end.

(** Lengths stay below 2^31, C strings hold no NUL, formats fit their arguments. *)
Definition op_ok (t : bytes) (op : sop) : Prop :=
  zlen (text_op t op) + 1 < 2 ^ 31 ∧
  match op with
  | OpCat xs | OpTrim xs => no_nul xs
  | OpCatFmt fmt ap => no_nul fmt ∧ Forall va_ok ap ∧ is_Some (fmt_text fmt ap)
  | OpGrowZero n => 0 ≤ n < 2 ^ 31
  | OpCut n => 0 < n ≤ zlen t
  | OpRange start end_ => in_s 32 start ∧ in_s 32 end_
  | OpMapChars from to => length from = length to
  | _ => True
  end.

Section refine.
Context {alloc : Allocator}.

Definition run_op (s : sds) (op : sop) : option sds :=
  match op with
  | OpCatLen xs => sdscatlen s xs (zlen xs)
  | OpCat xs => sdscat s (c_string xs)
  | OpCatSelf => sdscatsds s s
  | OpCatFmt fmt ap => sdscatfmt s (c_string fmt) ap
  | OpCatRepr xs => sdscatrepr s xs (zlen xs)
  | OpCpyLen xs => sdscpylen s xs (zlen xs)
  | OpGrowZero n => sdsgrowzero s n
  | OpAppend xs => s' ← sds_write (sdsMakeRoomFor s (zlen xs)) (sdslen s) xs; sdsIncrLen s' (zlen xs)
  | OpCut n => sdsIncrLen s (- n)
  | OpTrim cset => sdstrim s (c_string cset)
  | OpRange start end_ => sdsrange s start end_
  | OpLower => sdstolower s
  | OpUpper => sdstoupper s
  | OpMapChars from to => sdsmapchars s from to (zlen from)
  | OpUpdateLen => sdsupdatelen s
  | OpRemoveFree => Some (sdsRemoveFreeSpace s)
  | OpDup => sdsdup s
  | OpClear => sdsclear s
  end.

Lemma run_op_is s t op :
  sds_is s t → op_ok t op → ∃ s', run_op s op = Some s' ∧ sds_is s' (text_op t op).
Proof.
  intros Hs [Hl Hop]. destruct op; cbn [run_op text_op op_ok] in *; rewrite ?length_app in Hl.
  - apply sdscatlen_all; [done|lia].
  - apply sdscat_is; [done|done|lia].
  - apply (sdscatsds_is s t s t); [done|done|lia].
  - destruct Hop as (Hf & Hap & out & Ho). rewrite Ho in Hl |- *. simpl in Hl.
    apply (sdscatfmt_is s t fmt [] ap out); (done || lia).
  - pose proof (sdscatrepr_is s t xs [] Hs) as Hrun. rewrite app_nil_r in Hrun. apply Hrun. lia.
  - apply (sdscpylen_is s t); [done| |lia]. pose proof (rd_prefix xs [] (zlen xs) eq_refl) as Hrd. by rewrite app_nil_r in Hrd.
  - by apply sdsgrowzero_is.
  - rewrite (sds_is_len _ _ Hs). apply sdsIncrLen_append; [done|lia].
  - destruct (sdsIncrLen_neg s t (- n) Hs) as (s' & Hrun & Hs'); [lia|]. by exists s'.
  - by apply sdstrim_is.
  - destruct Hop. by apply sdsrange_is.
  - by apply sdstolower_is.
  - by apply sdstoupper_is.
  - by apply sdsmapchars_is.
  - by apply sdsupdatelen_is.
  - eexists. split; [done|]. by apply sdsRemoveFreeSpace_is.
  - by apply sdsdup_is.
  - by apply (sdsclear_is s t).
Qed.

Fixpoint run_ops (s : sds) (ops : list sop) : option sds :=
  match ops with [] => Some s | op :: ops => s ← run_op s op; run_ops s ops end.

Fixpoint ops_ok (t : bytes) (ops : list sop) : Prop :=
  match ops with [] => True | op :: ops => op_ok t op ∧ ops_ok (text_op t op) ops end.


(** [sdscatfmt] appends what its format says: strings up to their NUL, dynamic
    strings with all their bytes, signed and unsigned integers of 32 and 64 bits in
    decimal, the least value of a [long long] included, and other characters as
    they are. *)
Theorem sdscatfmt_correct s t fmt rest ap out :
  sds_is s t → no_nul fmt → Forall va_ok ap → fmt_text fmt ap = Some out → zlen t + zlen out + 1 < 2 ^ 31 →
  ∃ s', sdscatfmt s (fmt ++ 0 :: rest) ap = Some s' ∧ sds_is s' (t ++ out).
Proof. apply sdscatfmt_is. Qed.

(** A percent sign at the end of the format: the terminator is taken for the
    character to print, and the loop goes on behind it. *)
Lemma sdscatfmt_percent_at_end s t fmt :
  sds_is s t → fmt = [37; 0] → zlen t + 2 < 2 ^ 31 → sdscatfmt s fmt [] = None.
Proof.
  intros Hs -> Hl. unfold sdscatfmt. change (S (length [37; 0])) with 3%nat.
  rewrite (sds_is_len _ _ Hs), swrap_small by (pose proof (sds_is_short _ _ Hs); try split; lia).
  rewrite loop_S. unfold fmt_body at 1. change (rd1 [37; 0] 0) with (Some 37). rewrite bind_Some_eq.
  change (37 =? 0) with false. change (37 =? 37) with true. cbv iota zeta.
  change (rd1 [37; 0] (0 + 1)) with (Some 0). rewrite bind_Some_eq, fmt_conversion_other by done.
  destruct (fmt_char _ _ _) as [[s' i']|]; [|done]. rewrite !bind_Some_eq. rewrite loop_S.
  unfold fmt_body at 1. change (rd1 [37; 0] (0 + 2)) with (@None Z). done.
Qed.

End refine.

Section witnesses.
#[local] Existing Instance poison_allocator.


Lemma sdscatfmt_correct_witness :
  ∃ s', sdscatfmt (Sds 1 0 [65; 0]) [37; 115; 37; 37; 37; 105; 0] [VaStr [98; 99; 0; 7]; VaInt (-12)] = Some s' ∧
    sds_is s' [65; 98; 99; 37; 45; 49; 50].
Proof.
  apply (sdscatfmt_correct (Sds 1 0 [65; 0]) [65] [37; 115; 37; 37; 37; 105] []
    [VaStr [98; 99; 0; 7]; VaInt (-12)] [98; 99; 37; 45; 49; 50]).
  - exists []. by vm_compute.
  - by repeat constructor.
  - repeat constructor; try by vm_compute. by exists [98; 99], [7].
  - by vm_compute.
  - by vm_compute.
Defined.
End witnesses.
