(* ===== verification/Rio.v ===== *)
(** * Streams with a checksum: [rio.c], [rio.h]

    A stream has a device behind a pair of function pointers ([Device]); the
    device modelled is the buffer in memory.  The laws of a device
    ([DeviceLaws]) are all that the functions on streams rely on. *)

From S2P Require Import Prelude Util Crc Sds SdsText.

#[local] Open Scope Z_scope.

(** ** Devices *)

(** The methods [write] and [read]: the new device, and whether all of the bytes
    were written, or the bytes read; [false] and [None] are the result 0. *)
Class Device (D : Type) := {
  dev_write : D → bytes → option (D * bool);
  dev_read : D → Z → option (D * option bytes);
}.

(** [dev_out d t]: [t] was written to [d]; [dev_in d l]: [l] is left to be read. *)
Class DeviceLaws (D : Type) `{!Device D} := {
  dev_out : D → bytes → Prop;
  dev_in : D → bytes → Prop;
  dev_write_ok d t bs :
    dev_out d t → zlen t + zlen bs < 2 ^ 31 →
    ∃ d', dev_write d bs = Some (d', true) ∧ dev_out d' (t ++ bs);
  dev_read_ok d bs rest :
    dev_in d (bs ++ rest) → ∃ d', dev_read d (zlen bs) = Some (d', Some bs) ∧ dev_in d' rest;
  dev_read_short d l n :
    dev_in d l → zlen l < n < 2 ^ 64 → ∃ d' pre l', dev_read d n = Some (d', None) ∧ l = pre ++ l' ∧ dev_in d' l';
  dev_in_inj d l l' : dev_in d l → dev_in d l' → l = l';
}.

(** ** Streams *)

(** [struct _rio].  The method [update_cksum] is [NULL] or updates the CRC64. *)
Record rio (D : Type) := Rio {
  io : D;
  update_cksum : bool;
  cksum : Z;
  processed_bytes : Z;
  max_processing_chunk : Z;
}.
Arguments Rio {D}.
Arguments io {D}.
Arguments update_cksum {D}.
Arguments cksum {D}.
Arguments processed_bytes {D}.
Arguments max_processing_chunk {D}.

Section rio.
Context {D : Type} `{!Device D}.
Implicit Types (r : rio D) (buf : bytes).

Definition set_io r (d : D) : rio D :=
  Rio d (update_cksum r) (cksum r) (processed_bytes r) (max_processing_chunk r).
Definition set_update_cksum r (b : bool) : rio D :=
  Rio (io r) b (cksum r) (processed_bytes r) (max_processing_chunk r).
Definition set_max_processing_chunk r (n : Z) : rio D :=
  Rio (io r) (update_cksum r) (cksum r) (processed_bytes r) n.
Definition add_processed r (n : Z) : rio D :=
  Rio (io r) (update_cksum r) (cksum r) (u64 (processed_bytes r + n)) (max_processing_chunk r).

Definition rioGenericUpdateChecksum r buf (len : Z) : option (rio D) :=
  c ← crc64 (cksum r) buf len;
  Some (Rio (io r) (update_cksum r) c (processed_bytes r) (max_processing_chunk r)).

Definition call_update_cksum r buf (len : Z) : option (rio D) :=
  if update_cksum r then rioGenericUpdateChecksum r buf len else Some r.

(** The size of the next block. *)
Definition chunk_size r (len : Z) : Z :=
  if negb (max_processing_chunk r =? 0) && (max_processing_chunk r <? len) then max_processing_chunk r else len.

Definition write_body (st : rio D * bytes) : option (rio D * bytes + rio D * bool) :=
  let '(r, buf) := st in
  if zlen buf =? 0 then Some (inr (r, true))
  else
    let n := chunk_size r (zlen buf) in
    block ← rd buf 0 n;
    r ← call_update_cksum r block n;
    '(d, ok) ← dev_write (io r) block;
    let r := set_io r d in
    if (ok : bool) then Some (inl (add_processed r n, drop (Z.to_nat n) buf)) else Some (inr (r, false)).

(** [buf] holds the bytes to write; [false] for the result 0. *)
Definition rioWrite r buf : option (rio D * bool) := loop (S (length buf)) write_body (r, buf).

(** The state of the loop holds what was read, and the length left to be read. *)
Definition read_body (st : rio D * bytes * Z) : option (rio D * bytes * Z + rio D * option bytes) :=
  let '(r, buf, len) := st in
  if len =? 0 then Some (inr (r, Some buf))
  else
    let n := chunk_size r len in
    '(d, block) ← dev_read (io r) n;
    let r := set_io r d in
    match block with
    | Some block =>
      r ← call_update_cksum r block n;
      Some (inl (add_processed r n, buf ++ block, len - n))
    | None => Some (inr (r, None))
    end.

Definition rioRead r (len : Z) : option (rio D * option bytes) :=
  loop (S (Z.to_nat len)) read_body (r, [], len).
End rio.

(** ** The buffer in memory *)

Record rio_buffer := RioBuffer { ptr : sds; pos : Z }.

Section buffer.
Context {alloc : Allocator}.

Definition rioBufferWrite (d : rio_buffer) (buf : bytes) : option (rio_buffer * bool) :=
  s ← sdscatlen (ptr d) buf (zlen buf);
  Some (RioBuffer s (pos d + zlen buf), true).

Definition rioBufferRead (d : rio_buffer) (len : Z) : option (rio_buffer * option bytes) :=
  if u64 (sdslen (ptr d) - pos d) <? len then Some (d, None)
  else
    bs ← rd (sh_buf (ptr d)) (pos d) len;
    Some (RioBuffer (ptr d) (pos d + len), Some bs).

#[export] Instance buffer_device : Device rio_buffer :=
  {| dev_write := rioBufferWrite; dev_read := rioBufferRead |}.

Definition rioInitWithBuffer (s : sds) : rio rio_buffer := Rio (RioBuffer s 0) false 0 0 0.

(** The buffer is a device: what is written is appended to the string, what is
    read are its bytes from the position on. *)
Definition buffer_out (d : rio_buffer) (t : bytes) : Prop := sds_is (ptr d) t.
Definition buffer_in (d : rio_buffer) (l : bytes) : Prop :=
  ∃ pre, sds_is (ptr d) (pre ++ l) ∧ pos d = zlen pre.

#[export] Program Instance buffer_device_laws : DeviceLaws rio_buffer :=
  {| dev_out := buffer_out; dev_in := buffer_in |}.
Next Obligation.
  intros d t bs Hd Hl. destruct (sdscatlen_all (ptr d) t bs Hd Hl) as (s & Hrun & Hs).
  exists (RioBuffer s (pos d + zlen bs)). split; [|done]. cbn [dev_write buffer_device].
  unfold rioBufferWrite. by rewrite Hrun, bind_Some_eq.
Qed.
Next Obligation.
  intros d bs rest (pre & Hs & Hp). pose proof (sds_is_short _ _ Hs) as Hl. rewrite !length_app in Hl.
  exists (RioBuffer (ptr d) (pos d + zlen bs)). split.
  - cbn [dev_read buffer_device]. unfold rioBufferRead. rewrite (sds_is_len _ _ Hs), !length_app, Hp.
    rewrite wrap_small by (split; lia). destruct (_ <? _) eqn:E; [lia|clear E].
    destruct Hs as (tail & -> & _). cbn [sh_buf]. rewrite <-!app_assoc, rd_app by done. by rewrite bind_Some_eq.
  - exists (pre ++ bs). cbn [ptr pos]. split; [by rewrite <-app_assoc|]. rewrite length_app. lia.
Qed.
Next Obligation.
  intros d l n (pre & Hs & Hp) Hn. pose proof (sds_is_short _ _ Hs) as Hl. rewrite length_app in Hl.
  exists d, [], l. split; [|split; [done|by exists pre]].
  cbn [dev_read buffer_device]. unfold rioBufferRead. rewrite (sds_is_len _ _ Hs), length_app, Hp.
  rewrite wrap_small by (split; lia). by destruct (_ <? _) eqn:E; [|lia].
Qed.
Next Obligation.
  intros d l l' (pre & Hs & Hp) (pre' & Hs' & Hp'). apply sds_is_text in Hs, Hs'. rewrite Hs in Hs'.
  by apply app_inj_1 in Hs' as [_ ?]; [|lia].
Qed.
End buffer.

(** ** What writing and reading do *)

Section laws.
Context {D : Type} `{!Device D} `{!DeviceLaws D}.
Implicit Types (r : rio D).

(** The checksum after [bs] more. *)
Definition cksum_after (r : rio D) (bs : bytes) : Z :=
  if update_cksum r then crc64_ref (cksum r) bs else cksum r.

(** From [r] to [r']: [bs] went through the stream. *)
Definition passed (r r' : rio D) (bs : bytes) : Prop :=
  cksum r' = cksum_after r bs ∧ update_cksum r' = update_cksum r ∧
  max_processing_chunk r' = max_processing_chunk r ∧
  u64 (processed_bytes r') = u64 (processed_bytes r + zlen bs).

Lemma passed_nil r : passed r r [].
Proof. unfold passed, cksum_after. rewrite Z.add_0_r. by destruct (update_cksum r). Qed.

Lemma passed_trans r1 r2 r3 b1 b2 : passed r1 r2 b1 → passed r2 r3 b2 → passed r1 r3 (b1 ++ b2).
Proof.
  intros (Hc1 & Hu1 & Hm1 & Hp1) (Hc2 & Hu2 & Hm2 & Hp2). unfold passed, cksum_after in *.
  rewrite Hc2, Hu2, Hu1, Hm2, Hc1, length_app. split; [|split; [done|split; [done|]]].
  - destruct (update_cksum r1); [|done]. unfold crc64_ref. by rewrite foldl_app.
  - rewrite Hp2. unfold wrap in *. rewrite <-Zplus_mod_idemp_l, Hp1, Zplus_mod_idemp_l. f_equal. lia.
Qed.

Lemma chunk_size_range r len :
  0 ≤ max_processing_chunk r → 0 < len → 0 < chunk_size r len ≤ len.
Proof. intros ? ?. unfold chunk_size. destruct (_ && _) eqn:E; lia. Qed.

Lemma call_update_run r bs :
  is_bytes bs →
  ∃ r', call_update_cksum r bs (zlen bs) = Some r' ∧ io r' = io r ∧ passed r (add_processed r' (zlen bs)) bs.
Proof.
  intros Hbs. unfold call_update_cksum, rioGenericUpdateChecksum, passed, cksum_after.
  destruct (update_cksum r) eqn:E.
  - rewrite crc64_run, bind_Some_eq by done. eexists. split; [done|]. split; [done|]. cbn.
    split; [done|]. split; [done|]. split; [done|]. unfold wrap. by rewrite Z.mod_mod.
  - exists r. split; [done|]. split; [done|]. cbn. split; [done|]. split; [done|]. split; [done|].
    unfold wrap. by rewrite Z.mod_mod.
Qed.

Lemma rioWrite_run r t bs :
  0 ≤ max_processing_chunk r → dev_out (io r) t → is_bytes bs → zlen t + zlen bs < 2 ^ 31 →
  ∃ r', rioWrite r bs = Some (r', true) ∧ dev_out (io r') (t ++ bs) ∧ passed r r' bs.
Proof.
  unfold rioWrite. intros Hm. assert (length bs < S (length bs))%nat as Hf by lia. revert Hf.
  generalize (S (length bs)) as fuel. intros fuel. revert r t bs Hm.
  induction fuel as [|fuel IH]; intros r t bs Hm Hf Hd Hbs Hl; [lia|]. rewrite loop_S. unfold write_body at 1.
  destruct (zlen bs =? 0) eqn:E0.
  { destruct bs; [|simpl in E0; lia]. exists r. rewrite app_nil_r. split; [done|]. split; [done|]. apply passed_nil. }
  destruct (chunk_size_range r (zlen bs) Hm) as [Hn1 Hn2]; [lia|]. set (n := chunk_size r (zlen bs)) in *.
  rewrite rd_take, bind_Some_eq by lia. set (block := take (Z.to_nat n) bs).
  assert (zlen block = n) as Hbl by (unfold block; rewrite length_take; lia).
  assert (bs = block ++ drop (Z.to_nat n) bs) as Hsplit by (unfold block; by rewrite take_drop).
  assert (is_bytes block ∧ is_bytes (drop (Z.to_nat n) bs)) as [Hb1 Hb2].
  { rewrite Hsplit in Hbs. by apply Forall_app in Hbs. }
  destruct (call_update_run r block Hb1) as (r1 & Hup & Hio & Hpass). rewrite Hbl in Hup, Hpass.
  rewrite Hup, bind_Some_eq, Hio.
  destruct (dev_write_ok (io r) t block Hd) as (d' & -> & Hd'); [lia|]. rewrite bind_Some_eq.
  assert (length (drop (Z.to_nat n) bs) = (length bs - Z.to_nat n)%nat) as Hdl by apply length_drop.
  destruct (IH (add_processed (set_io r1 d') n) (t ++ block) (drop (Z.to_nat n) bs)) as (r' & Hrun & Hout & Hpass');
    [|lia|done|done|rewrite length_app; lia|].
  { destruct Hpass as (_ & _ & Hm' & _). cbn in *. by rewrite Hm'. }
  exists r'. split; [exact Hrun|]. rewrite Hsplit at 1. rewrite app_assoc. split; [done|].
  rewrite Hsplit. apply (passed_trans r (add_processed (set_io r1 d') n)); [|done]. exact Hpass.
Qed.

Lemma rioRead_run r bs rest :
  0 ≤ max_processing_chunk r → dev_in (io r) (bs ++ rest) → is_bytes bs →
  ∃ r', rioRead r (zlen bs) = Some (r', Some bs) ∧ dev_in (io r') rest ∧ passed r r' bs.
Proof.
  unfold rioRead. intros Hm Hin Hbs. rewrite Nat2Z.id.
  assert (∀ fuel r acc bs, (length bs < fuel)%nat → 0 ≤ max_processing_chunk r → dev_in (io r) (bs ++ rest) →
    is_bytes bs → ∃ r', loop fuel read_body (r, acc, zlen bs) = Some (r', Some (acc ++ bs)) ∧
      dev_in (io r') rest ∧ passed r r' bs) as Hgo; [|apply (Hgo _ r []); (done || lia)].
  clear. induction fuel as [|fuel IH]; intros r acc bs Hf Hm Hin Hbs; [lia|]. rewrite loop_S. unfold read_body at 1.
  destruct (zlen bs =? 0) eqn:E0.
  { destruct bs; [|simpl in E0; lia]. exists r. rewrite app_nil_r. split; [done|]. split; [done|]. apply passed_nil. }
  destruct (chunk_size_range r (zlen bs) Hm) as [Hn1 Hn2]; [lia|]. set (n := chunk_size r (zlen bs)) in *.
  set (block := take (Z.to_nat n) bs).
  assert (zlen block = n) as Hbl by (unfold block; rewrite length_take; lia).
  assert (bs = block ++ drop (Z.to_nat n) bs) as Hsplit by (unfold block; by rewrite take_drop).
  assert (is_bytes block ∧ is_bytes (drop (Z.to_nat n) bs)) as [Hb1 Hb2].
  { rewrite Hsplit in Hbs. by apply Forall_app in Hbs. }
  rewrite Hsplit, <-app_assoc in Hin. destruct (dev_read_ok (io r) block _ Hin) as (d' & Hrd & Hd').
  rewrite Hbl in Hrd. rewrite Hrd, bind_Some_eq.
  destruct (call_update_run (set_io r d') block Hb1) as (r1 & Hup & Hio & Hpass). rewrite Hbl in Hup, Hpass.
  rewrite Hup, bind_Some_eq.
  assert (length (drop (Z.to_nat n) bs) = (length bs - Z.to_nat n)%nat) as Hdl by apply length_drop.
  destruct (IH (add_processed r1 n) (acc ++ block) (drop (Z.to_nat n) bs)) as (r' & Hrun & Hin' & Hpass');
    [lia| | |done|].
  { destruct Hpass as (_ & _ & Hm' & _). cbn in *. by rewrite Hm'. }
  { cbn. by rewrite Hio. }
  exists r'. split.
  { rewrite Hdl in Hrun. replace (zlen bs - n) with (Z.of_nat (length bs - Z.to_nat n)) by lia.
    rewrite Hrun, <-app_assoc, <-Hsplit. done. }
  split; [done|]. rewrite Hsplit. apply (passed_trans r (add_processed r1 n)); [|done]. exact Hpass.
Qed.

(** Too few bytes left: the result is 0. *)
Lemma rioRead_short r l n :
  0 ≤ max_processing_chunk r → dev_in (io r) l → is_bytes l → zlen l < n < 2 ^ 64 →
  ∃ r' pre l', rioRead r n = Some (r', None) ∧ l = pre ++ l' ∧ dev_in (io r') l' ∧
    max_processing_chunk r' = max_processing_chunk r.
Proof.
  unfold rioRead. intros Hm Hin Hl Hn.
  assert (∀ fuel r acc l n, (Z.to_nat n < fuel)%nat → 0 ≤ max_processing_chunk r → dev_in (io r) l → is_bytes l →
    zlen l < n < 2 ^ 64 → ∃ r' pre l', loop fuel read_body (r, acc, n) = Some (r', None) ∧ l = pre ++ l' ∧
      dev_in (io r') l' ∧ max_processing_chunk r' = max_processing_chunk r) as Hgo;
    [|by apply (Hgo _ r [] l); [lia|..]].
  clear. induction fuel as [|fuel IH]; intros r acc l n Hf Hm Hin Hl Hn; [lia|]. rewrite loop_S. unfold read_body at 1.
  destruct (n =? 0) eqn:E0; [lia|]. destruct (chunk_size_range r n Hm) as [Hn1 Hn2]; [lia|].
  set (c := chunk_size r n) in *. destruct (decide (zlen l < c)) as [Hlt|Hge].
  { destruct (dev_read_short (io r) l c Hin) as (d' & pre & l' & -> & Hl' & Hin'); [lia|].
    rewrite bind_Some_eq. by exists (set_io r d'), pre, l'. }
  set (block := take (Z.to_nat c) l).
  assert (zlen block = c) as Hbl by (unfold block; rewrite length_take; lia).
  assert (l = block ++ drop (Z.to_nat c) l) as Hsplit by (unfold block; by rewrite take_drop).
  assert (is_bytes block ∧ is_bytes (drop (Z.to_nat c) l)) as [Hb1 Hb2].
  { rewrite Hsplit in Hl. by apply Forall_app in Hl. }
  rewrite Hsplit in Hin. destruct (dev_read_ok (io r) block _ Hin) as (d' & Hrd & Hd').
  rewrite Hbl in Hrd. rewrite Hrd, bind_Some_eq.
  destruct (call_update_run (set_io r d') block Hb1) as (r1 & Hup & Hio & Hpass). rewrite Hbl in Hup, Hpass.
  rewrite Hup, bind_Some_eq.
  destruct (IH (add_processed r1 c) (acc ++ block) (drop (Z.to_nat c) l) (n - c))
    as (r' & pre & l' & Hrun & Hl' & Hin' & Hm'); [lia| | |done| |].
  - destruct Hpass as (_ & _ & Hm' & _). cbn in *. by rewrite Hm'.
  - cbn. by rewrite Hio.
  - rewrite length_drop. lia.
  - exists r', (block ++ pre), l'. rewrite <-app_assoc, <-Hl', <-Hsplit. split; [done|]. split; [done|]. split; [done|].
    rewrite Hm'. by destruct Hpass as (_ & _ & -> & _).
Qed.
End laws.
