(* ===== verification/Rdb.v ===== *)
(** * The dump format: [rdb.c], [rdb.h]

    Saving and loading of string objects, keys and whole databases, over a
    stream with a checksum.  The values of keys other than strings are behind the
    interface [Value].  [RdbFormat] and [RdbDump] prove that a dump loads back. *)

From S2P Require Import Prelude Endian Util Lzf Glob Crc Object Sds Rio.

#[local] Open Scope Z_scope.

Definition REDIS_RDB_VERSION : Z := 6.
Definition REDIS_RDB_6BITLEN : Z := 0.
Definition REDIS_RDB_14BITLEN : Z := 1.
Definition REDIS_RDB_32BITLEN : Z := 2.
Definition REDIS_RDB_ENCVAL : Z := 3.
Definition REDIS_RDB_LENERR : Z := 2 ^ 32 - 1.

Definition REDIS_RDB_ENC_INT8 : Z := 0.
Definition REDIS_RDB_ENC_INT16 : Z := 1.
Definition REDIS_RDB_ENC_INT32 : Z := 2.
Definition REDIS_RDB_ENC_LZF : Z := 3.

Definition REDIS_RDB_TYPE_STRING : Z := 0.

Definition rdbIsObjectType (t : Z) : bool := ((0 <=? t) && (t <=? 4)) || ((9 <=? t) && (t <=? 13)).

Definition REDIS_RDB_OPCODE_EXPIRETIME_MS : Z := 252.
Definition REDIS_RDB_OPCODE_EXPIRETIME : Z := 253.
Definition REDIS_RDB_OPCODE_SELECTDB : Z := 254.
Definition REDIS_RDB_OPCODE_EOF : Z := 255.

(** ** The environment *)

(** Where blocks of memory lie, and what an array on the stack holds before it
    is written: the hash table of [lzf_compress]. *)
Class ProcessMemory := {
  address : bytes → Z;
  address_ok b : zlen b < 2 ^ 32 → MAX_OFF ≤ address b ∧ address b + zlen b < 2 ^ 64;
  stack_htab : LZF_STATE;
  stack_htab_ok i : in_u 64 (stack_htab i);
}.

(** The fields of [server] that matter here; [masterhost] is whether it is set. *)
Record config := Config {
  rdb_compression : bool;
  rdb_checksum : bool;
  loading_process_events_interval_bytes : Z;
  masterhost : bool;
}.

(** ** Saving: functions that return a number of bytes, or -1 *)

(** The stream may be [NULL], to count bytes only. *)
Definition W (D : Type) := option (rio D) → option (option (rio D) * Z).

Definition retW {D} (n : Z) : W D := λ rdb, Some (rdb, n).
(** [if ((n = f(rdb)) == -1) return -1; k] *)
Definition bindW {D} (f : W D) (k : Z → W D) : W D := λ rdb,
  '(rdb, n) ← f rdb;
  if n =? -1 then Some (rdb, -1) else k n rdb.
(** A call in the option monad. *)
Definition liftW {A D} (x : option A) (k : A → W D) : W D := λ rdb, x ← x; k x rdb.

(** ** Loading *)

(** How the process may end: [redisPanic], a failed [redisAssert], or [exit(1)]. *)
Inductive death := Panicked | AssertFailed | ShortRead | TooManyDbs | WrongChecksum.

Definition L (D A : Type) := rio D → option (rio D * A + death).

Definition retL {D A} (a : A) : L D A := λ r, Some (inl (r, a)).
Definition bindL {D A B} (p : L D A) (k : A → L D B) : L D B := λ r,
  x ← p r;
  match x with
  | inl (r, a) => k a r
  | inr e => Some (inr e)
  end.
Definition liftL {D A B} (x : option A) (k : A → L D B) : L D B := λ r, x ← x; k x r.
Definition dieL {D A} (e : death) : L D A := λ _, Some (inr e).

Declare Scope rdb_scope.
Delimit Scope rdb_scope with rdb.
Notation "n <- f ';;' k" := (bindW f (λ n, k%rdb)) (at level 100, f at next level, k at level 200, right associativity) : rdb_scope.
Notation "'callw' x <- e ';;' k" := (liftW e (λ x, k%rdb)) (at level 100, x pattern, e at level 99, k at level 200, right associativity) : rdb_scope.
Notation "x <-- p ';;' k" := (bindL p (λ x, k%rdb)) (at level 100, p at next level, k at level 200, right associativity) : rdb_scope.
Notation "'calll' x <- e ';;' k" := (liftL e (λ x, k%rdb)) (at level 100, x pattern, e at level 99, k at level 200, right associativity) : rdb_scope.
#[local] Open Scope rdb_scope.

(** ** Integers in text *)

Fixpoint strtoll_space (s : bytes) : option bytes :=
  match s with [] => None | c :: s' => if isspace c then strtoll_space s' else Some s end.

(** The digits from the front, and what is behind them. *)
Fixpoint strtoll_digits (acc : Z) (s : bytes) : option (Z * bytes) :=
  match s with
  | [] => None
  | c :: s' => if (48 <=? c) && (c <=? 57) then strtoll_digits (acc * 10 + (c - 48)) s' else Some (acc, s)
  end.

(** The number that [strtoll(s, &endptr, 10)] finds, whatever its size, and what
    is behind it. *)
Definition strtoll_scan (s : bytes) : option (option (Z * bytes)) :=
  s1 ← strtoll_space s;
  let '(neg, s2) := match s1 with c :: s' => if c =? 45 then (true, s') else if c =? 43 then (false, s') else (false, s1) | [] => (false, s1) end in
  c ← rd1 s2 0;
  if (48 <=? c) && (c <=? 57) then
    '(v, rest) ← strtoll_digits 0 s2;
    Some (Some (if neg : bool then - v else v, rest))
  else Some None.

(** The value, saturated, and [endptr] as the rest of the block; without a digit
    the value is 0 and [endptr] is [s]. *)
Definition strtoll (s : bytes) : option (Z * bytes) :=
  r ← strtoll_scan s;
  Some (match r with Some (v, rest) => (Z.max LLONG_MIN (Z.min LLONG_MAX v), rest) | None => (0, s) end).

(** [errno == ERANGE] *)
Definition strtoll_erange (s : bytes) : option bool :=
  r ← strtoll_scan s;
  Some (match r with Some (v, _) => (v <? LLONG_MIN) || (LLONG_MAX <? v) | None => false end).

(** ** String objects in memory: [object.c] *)

Section objects.
Context {alloc : Allocator}.

(** Shared integers have the same value. *)
Definition createStringObjectFromLongLong (value : Z) : option robj :=
  if (PORT_LONG_MIN <=? value) && (value <=? PORT_LONG_MAX) then Some (IntObj value)
  else s ← sdsfromlonglong value; Some (SdsObj (sds_text s)).

(** [s] is followed by its terminator. *)
Definition tryObjectEncoding (o : robj) : option robj :=
  match o with
  | IntObj _ => Some o
  | SdsObj s =>
    if zlen s <=? 21 then
      v ← string2l (s ++ [0]) (zlen s);
      Some (match v with Some value => IntObj value | None => o end)
    else Some o
  end.
End objects.

Section save.
Context {D : Type} `{!Device D} {alloc : Allocator} {mem : ProcessMemory} (cfg : config).

Definition rdbWriteRaw (p : bytes) : W D := λ rdb,
  match rdb with
  | Some r => '(r, ok) ← rioWrite r p; Some (Some r, if (ok : bool) then s32 (zlen p) else -1)
  | None => Some (None, s32 (zlen p))
  end.

Definition rdbSaveType (type : Z) : W D := rdbWriteRaw [u8 type].

(** [htonl]: the bytes of the result in memory are big-endian. *)
Definition htonl_bytes (v : Z) : bytes := reverse (le_enc 4 v).

Definition rdbSaveLen (len : Z) : W D :=
  if len <? Z.shiftl 1 6 then
    n <- rdbWriteRaw [Z.lor (Z.land len 0xFF) (Z.shiftl REDIS_RDB_6BITLEN 6)] ;; retW 1
  else if len <? Z.shiftl 1 14 then
    n <- rdbWriteRaw [Z.lor (Z.land (Z.shiftr len 8) 0xFF) (Z.shiftl REDIS_RDB_14BITLEN 6); Z.land len 0xFF] ;; retW 2
  else
    n <- rdbWriteRaw [Z.shiftl REDIS_RDB_32BITLEN 6] ;;
    n <- rdbWriteRaw (htonl_bytes len) ;; retW (1 + 4).

(** The bytes of the encoding; none when the value does not fit. *)
Definition rdbEncodeInteger (value : Z) : bytes :=
  if (- Z.shiftl 1 7 <=? value) && (value <=? Z.shiftl 1 7 - 1) then
    [Z.lor (Z.shiftl REDIS_RDB_ENCVAL 6) REDIS_RDB_ENC_INT8; Z.land value 0xFF]
  else if (- Z.shiftl 1 15 <=? value) && (value <=? Z.shiftl 1 15 - 1) then
    [Z.lor (Z.shiftl REDIS_RDB_ENCVAL 6) REDIS_RDB_ENC_INT16; Z.land value 0xFF; Z.land (Z.shiftr value 8) 0xFF]
  else if (- Z.shiftl 1 31 <=? value) && (value <=? Z.shiftl 1 31 - 1) then
    [Z.lor (Z.shiftl REDIS_RDB_ENCVAL 6) REDIS_RDB_ENC_INT32; Z.land value 0xFF; Z.land (Z.shiftr value 8) 0xFF;
     Z.land (Z.shiftr value 16) 0xFF; Z.land (Z.shiftr value 24) 0xFF]
  else [].

(** [s] is a block of at least [len] bytes. *)
Definition rdbTryIntegerEncoding (s : bytes) (len : Z) : option bytes :=
  '(value, endptr) ← strtoll s;
  c ← rd1 endptr 0;
  if negb (c =? 0) then Some []
  else
    '(_, buf) ← ll2string (fresh 32) 32 value;
    n ← strlen buf;
    if negb (n =? len) then Some []
    else
      xs ← rd buf 0 len; ys ← rd s 0 len;
      if bool_decide (xs = ys) then Some (rdbEncodeInteger value) else Some [].

(** 0 when the string cannot be compressed. *)
Definition rdbSaveLzfStringObject (s : bytes) (len : Z) : W D :=
  if len <=? 4 then retW 0
  else
    let outlen := len - 4 in
    callw text <- rd s 0 len ;;
    callw (comprlen, out) <- lzf_compress (address s) text (u32 len) (u32 outlen) stack_htab (zmalloc (outlen + 1)) ;;
    if comprlen =? 0 then retW 0
    else
      n1 <- rdbWriteRaw [Z.lor (Z.shiftl REDIS_RDB_ENCVAL 6) REDIS_RDB_ENC_LZF] ;;
      n2 <- rdbSaveLen (u32 comprlen) ;;
      n3 <- rdbSaveLen (u32 len) ;;
      callw c <- rd out 0 comprlen ;;
      n4 <- rdbWriteRaw c ;;
      retW (s32 (n1 + n2 + n3 + n4)).

(** [[len][data]] *)
Definition save_verbatim (s : bytes) (len : Z) : W D :=
  n <- rdbSaveLen (u32 len) ;;
  if len >? 0 then callw p <- rd s 0 len ;; m <- rdbWriteRaw p ;; retW (s32 (n + len))
  else retW n.

Definition rdbSaveRawString (s : bytes) (len : Z) : W D :=
  callw buf <- (if len <=? 11 then rdbTryIntegerEncoding s len else Some []) ;;
  if zlen buf >? 0 then n <- rdbWriteRaw buf ;; retW (zlen buf)
  else
    n <- (if rdb_compression cfg && (len >? 20) then rdbSaveLzfStringObject s len else retW 0) ;;
    if n >? 0 then retW n else save_verbatim s len.

Definition rdbSaveLongLongAsStringObject (value : Z) : W D :=
  let buf := rdbEncodeInteger value in
  if zlen buf >? 0 then rdbWriteRaw buf
  else
    callw (enclen, buf) <- ll2string (fresh 32) 32 value ;;
    callw p <- (check enclen <? 32 ;; rd buf 0 enclen) ;;
    n <- rdbSaveLen (u32 enclen) ;;
    m <- rdbWriteRaw p ;;
    retW (s32 (n + m)).

Definition rdbSaveStringObject (obj : robj) : W D :=
  match obj with
  | IntObj n => rdbSaveLongLongAsStringObject n
  | SdsObj s => rdbSaveRawString (s ++ [0]) (zlen s)
  end.

(** An [int64_t] in the byte order of the host. *)
Definition rdbSaveMillisecondTime `{!Host} (t : Z) : W D := rdbWriteRaw (host_enc 8 t).
End save.

Section load.
Context {D : Type} `{!Device D} {alloc : Allocator}.

Definition rdbRead (len : Z) : L D (option bytes) := λ r,
  '(r, b) ← rioRead r len; Some (inl (r, b)).

(** -1 when nothing could be read. *)
Definition rdbLoadType : L D Z :=
  b <-- rdbRead 1 ;;
  match b with
  | Some b => calll t <- rd1 b 0 ;; retL t
  | None => retL (-1)
  end.

Definition rdbLoadTime `{!Host} : L D Z :=
  b <-- rdbRead 4 ;; match b with Some b => retL (s32 (host_dec b)) | None => retL (-1) end.

Definition rdbLoadMillisecondTime `{!Host} : L D Z :=
  b <-- rdbRead 8 ;; match b with Some b => retL (s64 (host_dec b)) | None => retL (-1) end.

Definition rdbLoadObjectType : L D Z :=
  type <-- rdbLoadType ;; retL (if (type =? -1) || negb (rdbIsObjectType type) then -1 else type).

(** [ntohl] of four bytes in memory. *)
Definition ntohl_bytes (b : bytes) : Z := le_dec (reverse b).

(** The length and [isencoded]. *)
Definition rdbLoadLen : L D (Z * bool) :=
  b <-- rdbRead 1 ;;
  match b with
  | None => retL (REDIS_RDB_LENERR, false)
  | Some b =>
    calll c <- rd1 b 0 ;;
    let type := Z.shiftr (Z.land c 0xC0) 6 in
    if type =? REDIS_RDB_ENCVAL then retL (Z.land c 0x3F, true)
    else if type =? REDIS_RDB_6BITLEN then retL (Z.land c 0x3F, false)
    else if type =? REDIS_RDB_14BITLEN then
      b <-- rdbRead 1 ;;
      match b with
      | None => retL (REDIS_RDB_LENERR, false)
      | Some b => calll c' <- rd1 b 0 ;; retL (Z.lor (Z.shiftl (Z.land c 0x3F) 8) c', false)
      end
    else
      b <-- rdbRead 4 ;;
      match b with
      | None => retL (REDIS_RDB_LENERR, false)
      | Some b => retL (ntohl_bytes b, false)
      end
  end.

(** The value of the bytes of an encoding. *)
Definition integer_of (enctype : Z) (enc : bytes) : Z :=
  if enctype =? REDIS_RDB_ENC_INT8 then s8 (le_dec enc)
  else if enctype =? REDIS_RDB_ENC_INT16 then s16 (le_dec enc)
  else s32 (le_dec enc).

(** [NULL] is [None]. *)
Definition rdbLoadIntegerObject (enctype : Z) (encode : bool) : L D (option robj) :=
  if negb ((enctype =? REDIS_RDB_ENC_INT8) || (enctype =? REDIS_RDB_ENC_INT16) || (enctype =? REDIS_RDB_ENC_INT32))
  then dieL Panicked
  else
    enc <-- rdbRead (if enctype =? REDIS_RDB_ENC_INT8 then 1 else if enctype =? REDIS_RDB_ENC_INT16 then 2 else 4) ;;
    match enc with
    | None => retL None
    | Some enc =>
      let val := integer_of enctype enc in
      if encode then calll o <- createStringObjectFromLongLong val ;; retL (Some o)
      else calll s <- sdsfromlonglong val ;; retL (Some (SdsObj (sds_text s)))
    end.

Definition rdbLoadLzfStringObject : L D (option robj) :=
  clen <-- rdbLoadLen ;;
  if clen.1 =? REDIS_RDB_LENERR then retL None
  else
    len <-- rdbLoadLen ;;
    if len.1 =? REDIS_RDB_LENERR then retL None
    else
      calll val <- sdsnewlen None len.1 ;;
      c <-- rdbRead clen.1 ;;
      match c with
      | None => retL None
      | Some c =>
        calll dst <- rd (sh_buf val) 0 len.1 ;;
        calll x <- lzf_decompress c clen.1 len.1 dst ;;
        match x with
        | inl (n, out) => if n =? 0 then retL None else retL (Some (SdsObj out))
        | inr _ => retL None
        end
      end.

Definition rdbGenericLoadStringObject (encode : bool) : L D (option robj) :=
  x <-- rdbLoadLen ;;
  let '(len, isencoded) := x in
  if (isencoded : bool) then
    if (len =? REDIS_RDB_ENC_INT8) || (len =? REDIS_RDB_ENC_INT16) || (len =? REDIS_RDB_ENC_INT32)
    then rdbLoadIntegerObject len encode
    else if len =? REDIS_RDB_ENC_LZF then rdbLoadLzfStringObject
    else dieL Panicked
  else if len =? REDIS_RDB_LENERR then retL None
  else if len =? 0 then retL (Some (SdsObj []))
  else
    b <-- rdbRead len ;;
    retL (SdsObj <$> b).

Definition rdbLoadStringObject : L D (option robj) := rdbGenericLoadStringObject false.
Definition rdbLoadEncodedStringObject : L D (option robj) := rdbGenericLoadStringObject true.
End load.

(** ** Keys and databases *)

(** The values of keys: their type byte, and how they are saved and loaded. *)
Class Value (D V : Type) := {
  rdbObjectType : V → Z;
  rdbSaveObject : V → W D;
  rdbLoadObject : Z → L D (option V);
}.

(** A database; its dictionaries are finite maps. *)
Record redisDb (V : Type) := RedisDb { db_dict : gmap bytes V; db_expires : gmap bytes Z }.
Arguments RedisDb {V}.
Arguments db_dict {V}.
Arguments db_expires {V}.

(** The order in which the iterator of a dictionary returns its entries. *)
Class DictOrder := {
  iteration {V} : gmap bytes V → list (bytes * V);
  iteration_perm {V} (m : gmap bytes V) : iteration m ≡ₚ map_to_list m;
}.

(** [REDIS0006] *)
Definition rdb_magic : bytes := [82; 69; 68; 73; 83; 48; 48; 48; 48 + REDIS_RDB_VERSION].

Section dump.
Context {D V : Type} `{!Device D} {alloc : Allocator} {mem : ProcessMemory} {host : Host} {order : DictOrder}.
Context `{!Value D V} (cfg : config).

Definition rdbSaveObjectType (o : V) : W D := rdbSaveType (rdbObjectType o).

Definition rdbSavedObjectLen (o : V) : option Z :=
  '(_, len) ← rdbSaveObject o None;
  check negb (len =? -1) ;; Some len.

(** 1 when the key was saved, 0 when it is expired already. *)
Definition rdbSaveKeyValuePair (key : bytes) (val : V) (expiretime now : Z) : W D :=
  if negb (expiretime =? -1) && (expiretime <? now) then retW 0
  else
    n <- (if negb (expiretime =? -1)
          then n <- rdbSaveType REDIS_RDB_OPCODE_EXPIRETIME_MS ;; rdbSaveMillisecondTime expiretime
          else retW 0) ;;
    n <- rdbSaveObjectType val ;;
    n <- rdbSaveStringObject cfg (SdsObj key) ;;
    n <- rdbSaveObject val ;;
    retW 1.

Definition getExpire (db : redisDb V) (key : bytes) : option Z :=
  if (size (db_expires db) =? 0)%nat then Some (-1)
  else
    match db_expires db !! key with
    | None => Some (-1)
    | Some w => check bool_decide (is_Some (db_dict db !! key)) ;; Some w
    end.

Fixpoint save_entries (db : redisDb V) (now : Z) (es : list (bytes * V)) : W D :=
  match es with
  | [] => retW 0
  | (key, o) :: es =>
    callw expire <- getExpire db key ;;
    n <- rdbSaveKeyValuePair key o expire now ;;
    save_entries db now es
  end.

Fixpoint save_dbs (j : Z) (dbs : list (redisDb V)) (now : Z) : W D :=
  match dbs with
  | [] => retW 0
  | db :: dbs =>
    n <- (if (size (db_dict db) =? 0)%nat then retW 0
          else
            n <- rdbSaveType REDIS_RDB_OPCODE_SELECTDB ;;
            n <- rdbSaveLen j ;;
            save_entries db now (iteration (db_dict db))) ;;
    save_dbs (j + 1) dbs now
  end.

(** [cksum = rdb->cksum; memrev64ifbe(&cksum); rioWrite(rdb,&cksum,8)] *)
Definition save_cksum : W D := λ rdb,
  r ← rdb;
  b ← memrev64ifbe (host_enc 8 (cksum r)) 0;
  '(r, ok) ← rioWrite r b;
  Some (Some r, if (ok : bool) then 0 else -1).

(** [REDIS_OK] is 0, [REDIS_ERR] is -1. *)
Definition rdbSaveRio (dbs : list (redisDb V)) (now : Z) : W D := λ rdb,
  r ← rdb;
  let r := if rdb_checksum cfg then set_update_cksum r true else r in
  (n <- rdbWriteRaw rdb_magic ;;
   n <- save_dbs 0 dbs now ;;
   n <- rdbSaveType REDIS_RDB_OPCODE_EOF ;;
   save_cksum) (Some r).

(** ** Loading a dump *)

(** A call that must not fail: [goto eoferr]. *)
Definition needL {A} (p : L D (option A)) : L D A :=
  x <-- p ;; match x with Some x => retL x | None => dieL ShortRead end.
Definition needTypeL : L D Z :=
  type <-- rdbLoadType ;; if type =? -1 then dieL ShortRead else retL type.

Definition atoi (s : bytes) : option Z := x ← strtoll s; Some (s32 x.1).

(** The type of what comes next, and the expire time before it, or -1. *)
Definition load_type : L D (Z * Z) :=
  type <-- needTypeL ;;
  if type =? REDIS_RDB_OPCODE_EXPIRETIME then
    t <-- rdbLoadTime ;;
    if t =? -1 then dieL ShortRead
    else type <-- needTypeL ;; retL (type, s64 (t * 1000))
  else if type =? REDIS_RDB_OPCODE_EXPIRETIME_MS then
    t <-- rdbLoadMillisecondTime ;;
    if t =? -1 then dieL ShortRead
    else type <-- needTypeL ;; retL (type, t)
  else retL (type, -1).

(** [key->ptr] of a string that is not integer encoded. *)
Definition key_text (o : robj) : option bytes := match o with SdsObj s => Some s | IntObj _ => None end.

(** Without the cluster's index of slots and the clients that wait for a list;
    [None] is a failed assertion, here and in [setExpire]. *)
Definition dbAdd (db : redisDb V) (key : bytes) (val : V) : option (redisDb V) :=
  match db_dict db !! key with
  | Some _ => None
  | None => Some (RedisDb (<[key := val]> (db_dict db)) (db_expires db))
  end.

Definition setExpire (db : redisDb V) (key : bytes) (when : Z) : option (redisDb V) :=
  match db_dict db !! key with
  | None => None
  | Some _ => Some (RedisDb (db_dict db) (<[key := when]> (db_expires db)))
  end.

(** Add the new object, and set the expire time if needed. *)
Definition load_key_into (db : redisDb V) (key : bytes) (val : V) (expiretime : Z) : option (redisDb V) :=
  db ← dbAdd db key val;
  if expiretime =? -1 then Some db else setExpire db key expiretime.

(** The databases, and the number of the selected one. *)
Definition load_state : Type := list (redisDb V) * Z.

(** One round of the loop: [inr] at the end of the dump. *)
Definition load_body (now : Z) (st : load_state) : L D (load_state + load_state) :=
  let '(dbs, cur) := st in
  te <-- load_type ;;
  let '(type, expiretime) := te in
  if type =? REDIS_RDB_OPCODE_EOF then retL (inr st)
  else if type =? REDIS_RDB_OPCODE_SELECTDB then
    dbid <-- rdbLoadLen ;;
    if dbid.1 =? REDIS_RDB_LENERR then dieL ShortRead
    else if dbid.1 >=? zlen dbs then dieL TooManyDbs
    else retL (inl (dbs, dbid.1))
  else
    key <-- needL rdbLoadStringObject ;;
    val <-- needL (rdbLoadObject type) ;;
    if negb (masterhost cfg) && negb (expiretime =? -1) && (expiretime <? now) then retL (inl st)
    else
      calll key <- key_text key ;;
      calll db <- dbs !! Z.to_nat cur ;;
      match load_key_into db key val expiretime with
      | None => dieL AssertFailed
      | Some db => retL (inl (<[Z.to_nat cur := db]> dbs, cur))
      end.

Fixpoint load_loop (fuel : nat) (now : Z) (st : load_state) : L D load_state :=
  match fuel with
  | O => λ _, None
  | S n =>
    x <-- load_body now st ;;
    match x with
    | inl st => load_loop n now st
    | inr st => retL st
    end
  end.

Definition get_cksum : L D Z := λ r, Some (inl (r, cksum r)).

Definition verify_cksum (rdbver : Z) : L D unit :=
  if (rdbver >=? 5) && rdb_checksum cfg then
    expected <-- get_cksum ;;
    b <-- needL (rdbRead 8) ;;
    calll b <- memrev64ifbe b 0 ;;
    let cksum := host_dec b in
    if cksum =? 0 then retL tt
    else if negb (cksum =? expected) then dieL WrongChecksum
    else retL tt
  else retL tt.

(** The databases are those of the server at the start; [None] is [REDIS_ERR]. *)
Definition rdbLoadRio (fuel : nat) (dbs : list (redisDb V)) (now : Z) : L D (option (list (redisDb V))) :=
  buf <-- needL (rdbRead 9) ;;
  if negb (bool_decide (take 5 buf = [82; 69; 68; 73; 83])) then retL None
  else
    calll rdbver <- atoi (drop 5 buf ++ [0]) ;;
    if (rdbver <? 1) || (rdbver >? REDIS_RDB_VERSION) then retL None
    else
      st <-- load_loop fuel now (dbs, 0) ;;
      u <-- verify_cksum rdbver ;;
      retL (Some st.1).

(** From a device at the start of the file. *)
Definition rdbLoad (fuel : nat) (d : D) (dbs : list (redisDb V)) (now : Z) :
    option (rio D * option (list (redisDb V)) + death) :=
  rdbLoadRio fuel dbs now (Rio d (rdb_checksum cfg) 0 0 (loading_process_events_interval_bytes cfg)).
End dump.

(** ** String values *)

Section string_value.
Context {D : Type} `{!Device D} {alloc : Allocator} {mem : ProcessMemory} (cfg : config).

(** The branch [REDIS_RDB_TYPE_STRING] of [rdbLoadObject]. *)
Definition load_string_value (rdbtype : Z) : L D (option robj) :=
  if rdbtype =? REDIS_RDB_TYPE_STRING then
    o <-- rdbLoadEncodedStringObject ;;
    match o with
    | None => retL None
    | Some o => calll o <- tryObjectEncoding o ;; retL (Some o)
    end
  else dieL Panicked.

#[export] Instance string_value : Value D robj :=
  {| rdbObjectType _ := REDIS_RDB_TYPE_STRING;
     rdbSaveObject := rdbSaveStringObject cfg;
     rdbLoadObject := load_string_value |}.
End string_value.

(** ** Concrete environments, for evaluating the definitions *)

Program Definition low_memory : ProcessMemory := {| address _ := MAX_OFF; stack_htab _ := 0 |}.
Next Obligation. intros b Hb. cbn. change MAX_OFF with 8192. lia. Qed.
Next Obligation. done. Qed.

Program Definition list_order : DictOrder := {| iteration V m := map_to_list m |}.
Next Obligation. done. Qed.

Section samples.
#[local] Existing Instances poison_allocator low_memory list_order be_host.

Definition sample_config : config := Config true true 7 false.
#[local] Existing Instance string_value.

(** Keys [a] to [c]: a number, a compressible text, and one with an expire time. *)
Definition sample_dbs : list (redisDb robj) :=
  [RedisDb (<[[97] := SdsObj [45; 49; 50; 48]]> (<[[98] := SdsObj (replicate 80 120)]> ∅)) ∅;
   RedisDb ∅ ∅;
   RedisDb (<[[99] := IntObj (2 ^ 40)]> ∅) (<[[99] := 5000]> ∅)].

Definition sample_dump : option bytes :=
  s ← sdsempty;
  x ← rdbSaveRio (Value0 := string_value sample_config) sample_config sample_dbs 1000 (Some (rioInitWithBuffer s));
  r ← x.1;
  Some (sds_text (ptr (io r))).

Definition sample_loaded : option (option (list (redisDb robj))) :=
  t ← sample_dump;
  s ← sdsnewlen (Some t) (zlen t);
  x ← rdbLoad (Value0 := string_value sample_config) sample_config 200 (RioBuffer s 0) (replicate 3 (RedisDb ∅ ∅)) 2000;
  match x with inl (_, o) => Some o | inr _ => None end.

Definition db_lists (db : redisDb robj) : list (bytes * robj) * list (bytes * Z) :=
  (map_to_list (db_dict db), map_to_list (db_expires db)).

Example sample_round_trip :
  option_map (option_map (map db_lists)) sample_loaded =
  Some (Some [([([98], SdsObj (replicate 80 120)); ([97], IntObj (-120))], []); ([], []);
              ([([99], IntObj (2 ^ 40))], [([99], 5000)])]).
Proof. vm_compute. reflexivity. Qed.
End samples.
