(* ===== verification/RdbFormat.v ===== *)
(** * What the functions of [Rdb] write and read

    [writes f bs n]: [f] appends [bs] to any stream and returns [n], also for
    the stream [NULL]; [reads p bs a]: [p] takes [bs] from any stream, whatever
    is behind, and returns [a].  Both compose along the monads. *)

From S2P Require Import Prelude Endian Util Lzf Glob Crc Object Sds SdsText Rio Rdb.

#[local] Open Scope Z_scope.
#[local] Open Scope rdb_scope.

(** ** Bytes *)

Lemma six_bits x : 0 ≤ x < 64 → Z.land x 255 = x ∧ Z.lor x 0 = x ∧ Z.lor x 64 = 64 + x.
Proof.
  intros Hx. pose proof (check_range (λ x, (Z.land x 255 =? x) && (Z.lor x 0 =? x) && (Z.lor x 64 =? 64 + x)) 64
    eq_refl x Hx) as H. lia.
Qed.

(** The two bits of the type, and the six bits behind. *)
Lemma len_byte c : 0 ≤ c < 256 → Z.shiftr (Z.land c 192) 6 = c / 64 ∧ Z.land c 63 = c mod 64.
Proof.
  intros Hc. pose proof (check_range (λ c, (Z.shiftr (Z.land c 192) 6 =? c / 64) && (Z.land c 63 =? c mod 64)) 256
    eq_refl c Hc) as H. lia.
Qed.

Lemma lor_shift_byte a b : 0 ≤ a < 64 → 0 ≤ b < 256 → Z.lor (Z.shiftl a 8) b = a * 256 + b.
Proof. intros Ha Hb. rewrite Z.shiftl_mul_pow2 by lia. by apply (lor_add a b 8). Qed.

(** ** Combinators *)

Section combinators.
Context {D : Type} `{!Device D} `{!DeviceLaws D}.
Implicit Types (r : rio D).

Definition writes (f : W D) (bs : bytes) (n : Z) : Prop :=
  is_bytes bs ∧ f None = Some (None, n) ∧
  ∀ r t, 0 ≤ max_processing_chunk r → dev_out (io r) t → zlen t + zlen bs < 2 ^ 31 →
    ∃ r', f (Some r) = Some (Some r', n) ∧ dev_out (io r') (t ++ bs) ∧ passed r r' bs.

Definition reads {A} (p : L D A) (bs : bytes) (a : A) : Prop :=
  is_bytes bs →
  ∀ r rest, 0 ≤ max_processing_chunk r → dev_in (io r) (bs ++ rest) →
    ∃ r', p r = Some (inl (r', a)) ∧ dev_in (io r') rest ∧ passed r r' bs.

Lemma passed_chunk r r' bs : passed r r' bs → 0 ≤ max_processing_chunk r → 0 ≤ max_processing_chunk r'.
Proof. intros (_ & _ & -> & _). done. Qed.

Lemma writes_ret n : writes (retW n) [] n.
Proof.
  split; [constructor|]. split; [done|]. intros r t Hm Ht _. exists r. rewrite app_nil_r.
  split; [done|]. split; [done|]. apply passed_nil.
Qed.

Lemma writes_bind f k b1 n1 b2 n2 :
  n1 ≠ -1 → writes f b1 n1 → writes (k n1) b2 n2 → writes (bindW f k) (b1 ++ b2) n2.
Proof.
  intros Hn (Hb1 & Hf0 & Hf) (Hb2 & Hk0 & Hk). split; [by apply Forall_app|]. unfold bindW. split.
  - rewrite Hf0, bind_Some_eq. by destruct (Z.eqb_spec n1 (-1)).
  - intros r t Hm Ht Hl. rewrite length_app in Hl. destruct (Hf r t Hm Ht) as (r1 & -> & Ht1 & Hp1); [lia|].
    rewrite bind_Some_eq. destruct (Z.eqb_spec n1 (-1)); [done|].
    destruct (Hk r1 (t ++ b1)) as (r2 & -> & Ht2 & Hp2); [by eapply passed_chunk|done|rewrite length_app; lia|].
    exists r2. split; [done|]. split; [by rewrite app_assoc|]. by eapply passed_trans.
Qed.

Lemma writes_bind_nil f k b1 n1 n2 :
  n1 ≠ -1 → writes f b1 n1 → writes (k n1) [] n2 → writes (bindW f k) b1 n2.
Proof. intros Hn Hf Hk. rewrite <-(app_nil_r b1). by eapply writes_bind. Qed.

Lemma writes_lift {A} (x : option A) a k bs n : x = Some a → writes (k a) bs n → writes (liftW x k) bs n.
Proof. by intros ->. Qed.

Lemma writes_raw p : is_bytes p → zlen p < 2 ^ 31 → writes (rdbWriteRaw p) p (zlen p).
Proof.
  intros Hp Hl. assert (s32 (zlen p) = zlen p) as Hs by (apply swrap_small; [lia|split; lia]).
  split; [done|]. split; [unfold rdbWriteRaw; by rewrite Hs|]. intros r t Hm Ht Hlen. unfold rdbWriteRaw.
  destruct (rioWrite_run r t p Hm Ht Hp Hlen) as (r' & -> & Ht' & Hpass). rewrite bind_Some_eq, Hs. by exists r'.
Qed.

Lemma writes_eq f bs n bs' n' : writes f bs n → bs = bs' → n = n' → writes f bs' n'.
Proof. by intros ? <- <-. Qed.

Lemma reads_ret {A} (a : A) : reads (retL a) [] a.
Proof. intros _ r rest Hm Hin. exists r. split; [done|]. split; [done|]. apply passed_nil. Qed.

Lemma reads_bind {A B} (p : L D A) (k : A → L D B) b1 a b2 b :
  reads p b1 a → reads (k a) b2 b → reads (bindL p k) (b1 ++ b2) b.
Proof.
  intros Hp Hk [Hb1 Hb2]%Forall_app r rest Hm Hin. rewrite <-app_assoc in Hin. unfold bindL.
  destruct (Hp Hb1 r _ Hm Hin) as (r1 & -> & Hin1 & Hp1). rewrite bind_Some_eq.
  destruct (Hk Hb2 r1 rest) as (r2 & -> & Hin2 & Hp2); [by eapply passed_chunk|done|].
  exists r2. split; [done|]. split; [done|]. by eapply passed_trans.
Qed.

Lemma reads_bind_nil {A B} (p : L D A) (k : A → L D B) b1 a b :
  reads p b1 a → reads (k a) [] b → reads (bindL p k) b1 b.
Proof. intros Hp Hk. rewrite <-(app_nil_r b1). by eapply reads_bind. Qed.

Lemma reads_lift {A B} (x : option A) a (k : A → L D B) bs b :
  x = Some a → reads (k a) bs b → reads (liftL x k) bs b.
Proof. by intros ->. Qed.

Lemma reads_read bs n : n = zlen bs → reads (rdbRead n) bs (Some bs).
Proof.
  intros -> Hbs r rest Hm Hin. unfold rdbRead.
  destruct (rioRead_run r bs rest Hm Hin Hbs) as (r' & -> & Hin' & Hpass). rewrite bind_Some_eq. by exists r'.
Qed.

Lemma reads_eq {A} (p : L D A) bs a bs' a' : reads p bs a → bs = bs' → a = a' → reads p bs' a'.
Proof. by intros ? <- <-. Qed.
End combinators.

(** ** Lengths *)

(** 00|LLLLLL, 01|LLLLLL LLLLLLLL, or 10|000000 and four bytes. *)
Definition len_bytes (len : Z) : bytes :=
  if len <? 64 then [len]
  else if len <? 16384 then [64 + len / 256; len mod 256]
  else 128 :: reverse (le_enc 4 len).

Lemma length_len_bytes len : 1 ≤ zlen (len_bytes len) ≤ 5.
Proof.
  unfold len_bytes. destruct (_ <? 64); [simpl; lia|]. destruct (_ <? 16384); [simpl; lia|].
  cbn [length]. rewrite length_reverse, length_le_enc. lia.
Qed.

Lemma reverse_bytes bs : is_bytes bs → is_bytes (reverse bs).
Proof. intros H. by rewrite Forall_reverse. Qed.

Lemma len_bytes_bytes len : 0 ≤ len → is_bytes (len_bytes len).
Proof.
  intros Hlen. unfold len_bytes, in_u. destruct (_ <? 64) eqn:E1; [repeat constructor; lia|].
  destruct (_ <? 16384) eqn:E2; [repeat constructor; dlia|].
  constructor; [lia|]. apply reverse_bytes, le_enc_bytes.
Qed.

Section lengths.
Context {D : Type} `{!Device D} `{!DeviceLaws D}.

Lemma rdbSaveLen_writes len : 0 ≤ len < 2 ^ 32 → writes (D := D) (rdbSaveLen len) (len_bytes len) (zlen (len_bytes len)).
Proof.
  intros Hlen. unfold rdbSaveLen, len_bytes. change (Z.shiftl 1 6) with 64. change (Z.shiftl 1 14) with 16384.
  change (Z.shiftl REDIS_RDB_6BITLEN 6) with 0. change (Z.shiftl REDIS_RDB_14BITLEN 6) with 64.
  change (Z.shiftl REDIS_RDB_32BITLEN 6) with 128.
  destruct (len <? 64) eqn:E1; [|destruct (len <? 16384) eqn:E2].
  - destruct (six_bits len) as (-> & -> & _); [lia|]. rewrite <-(app_nil_r [len]).
    eapply writes_bind; [|apply writes_raw; [repeat constructor; unfold in_u; lia|done]|apply writes_ret]. done.
  - rewrite !land_255. assert (Z.shiftr len 8 = len / 256) as -> by (by rewrite Z.shiftr_div_pow2).
    rewrite (Z.mod_small (len / 256)) by dlia. destruct (six_bits (len / 256)) as (_ & _ & ->); [dlia|].
    rewrite <-(app_nil_r [_; _]).
    eapply writes_bind; [|apply writes_raw; [repeat constructor; unfold in_u; dlia|done]|apply writes_ret]. done.
  - cbn [length]. rewrite length_reverse, length_le_enc. change (128 :: ?l) with ([128] ++ l).
    eapply writes_bind; [|apply writes_raw; [repeat constructor; unfold in_u; lia|done]|]; [done|].
    rewrite <-(app_nil_r (reverse _)).
    eapply writes_bind; [|apply writes_raw; [apply reverse_bytes, le_enc_bytes|]|apply writes_ret];
      unfold htonl_bytes; rewrite length_reverse, length_le_enc; done.
Qed.

Lemma rdbLoadLen_reads len : 0 ≤ len < 2 ^ 32 → reads (D := D) rdbLoadLen (len_bytes len) (len, false).
Proof.
  intros Hlen. unfold rdbLoadLen, len_bytes.
  destruct (len <? 64) eqn:E1; [|destruct (len <? 16384) eqn:E2].
  - eapply reads_bind_nil; [by apply reads_read|]. cbv beta iota. eapply reads_lift; [done|].
    destruct (len_byte len) as [-> ->]; [lia|]. rewrite (Z.div_small len), Z.mod_small by lia. apply reads_ret.
  - change [?a; ?b] with ([a] ++ [b]). eapply reads_bind; [by apply reads_read|]. cbv beta iota.
    eapply reads_lift; [done|]. destruct (len_byte (64 + len / 256)) as [-> ->]; [dlia|].
    assert ((64 + len / 256) / 64 = 1) as -> by dlia. assert ((64 + len / 256) mod 64 = len / 256) as -> by dlia.
    change (1 =? REDIS_RDB_ENCVAL) with false. change (1 =? REDIS_RDB_6BITLEN) with false.
    change (1 =? REDIS_RDB_14BITLEN) with true. cbv iota.
    eapply reads_bind_nil; [by apply reads_read|]. cbv beta iota. eapply reads_lift; [done|].
    rewrite lor_shift_byte by dlia. eapply reads_eq; [apply reads_ret|done|]. f_equal. dlia.
  - change (128 :: ?l) with ([128] ++ l). eapply reads_bind; [by apply reads_read|]. cbv beta iota.
    eapply reads_lift; [done|]. change (Z.shiftr (Z.land 128 192) 6) with 2.
    change (2 =? REDIS_RDB_ENCVAL) with false. change (2 =? REDIS_RDB_6BITLEN) with false.
    change (2 =? REDIS_RDB_14BITLEN) with false. cbv iota.
    eapply reads_bind_nil; [apply reads_read; by rewrite length_reverse, length_le_enc|]. cbv beta iota.
    unfold ntohl_bytes. rewrite reverse_involutive, wrap_le_dec_enc, wrap_small by done. apply reads_ret.
Qed.

(** The header of an encoded string. *)
Lemma rdbLoadLen_encoded e : 0 ≤ e < 64 → reads (D := D) rdbLoadLen [192 + e] (e, true).
Proof.
  intros He. unfold rdbLoadLen. eapply reads_bind_nil; [by apply reads_read|]. cbv beta iota.
  eapply reads_lift; [done|]. destruct (len_byte (192 + e)) as [-> ->]; [lia|].
  assert ((192 + e) / 64 = 3) as -> by dlia. assert ((192 + e) mod 64 = e) as -> by dlia. apply reads_ret.
Qed.
End lengths.

(** ** Integers *)

Lemma shiftr_div z k : 0 ≤ k → Z.shiftr z k = z / 2 ^ k.
Proof. apply Z.shiftr_div_pow2. Qed.

(** The encoding of a value: its type and its size. *)
Definition int_enc (v : Z) : option (Z * nat) :=
  if bool_decide (in_s 8 v) then Some (REDIS_RDB_ENC_INT8, 1%nat)
  else if bool_decide (in_s 16 v) then Some (REDIS_RDB_ENC_INT16, 2%nat)
  else if bool_decide (in_s 32 v) then Some (REDIS_RDB_ENC_INT32, 4%nat)
  else None.

Lemma rdbEncodeInteger_eq v :
  rdbEncodeInteger v = match int_enc v with Some (e, n) => (192 + e) :: le_enc n v | None => [] end.
Proof.
  unfold rdbEncodeInteger, int_enc.
  assert (∀ k m, m = 2 ^ (k - 1) → (- m <=? v) && (v <=? m - 1) = bool_decide (in_s k v)) as Hr.
  { intros k m ->. unfold in_s. case_bool_decide; lia. }
  rewrite (Hr 8 (Z.shiftl 1 7)), (Hr 16 (Z.shiftl 1 15)), (Hr 32 (Z.shiftl 1 31)) by done.
  rewrite !land_255, !shiftr_div by lia.
  case_bool_decide; [done|]. case_bool_decide; [done|]. case_bool_decide; [|done].
  cbn [le_enc]. rewrite !Z.div_div by lia. done.
Qed.

Lemma int_enc_range v e n :
  int_enc v = Some (e, n) →
  in_s (8 * Z.of_nat n) v ∧ ((e = 0 ∧ n = 1%nat) ∨ (e = 1 ∧ n = 2%nat) ∨ (e = 2 ∧ n = 4%nat)).
Proof.
  unfold int_enc. repeat case_bool_decide; intros [= <- <-]; (split; [done|]); [left|right; left|right; right]; done.
Qed.

Lemma dec_signed_no_nul v : Forall (λ c, c ≠ 0) (dec_signed v).
Proof.
  assert (∀ n, 0 ≤ n → Forall (λ c, c ≠ 0) (dec n)) as Hd.
  { intros n Hn. eapply Forall_impl; [by apply dec_digits|]. unfold is_digit. intros c Hc. change ch_0 with 48 in Hc. lia. }
  unfold dec_signed. destruct (v <? 0) eqn:E; [constructor; [done|]|]; apply Hd; lia.
Qed.

Lemma dec_signed_bytes v : is_bytes (dec_signed v).
Proof.
  assert (∀ n, 0 ≤ n → is_bytes (dec n)) as Hd.
  { intros n Hn. eapply Forall_impl; [by apply dec_digits|]. unfold is_digit, in_u. intros c Hc.
    change ch_0 with 48 in Hc. change ch_9 with 57 in Hc. lia. }
  unfold dec_signed. destruct (v <? 0) eqn:E; [constructor; [done|]|]; apply Hd; lia.
Qed.

(** [strtoll] returns on every terminated string. *)
Lemma strtoll_space_run s rest :
  Forall (λ c, c ≠ 0) s → ∃ s', strtoll_space (s ++ 0 :: rest) = Some (s' ++ 0 :: rest) ∧ Forall (λ c, c ≠ 0) s'.
Proof.
  induction 1 as [|c s Hc Hs IH]; [by exists []|]. cbn [app strtoll_space]. destruct (isspace c); [done|].
  exists (c :: s). split; [done|by constructor].
Qed.

Lemma strtoll_digits_run acc s rest :
  0 ≤ acc → ∃ v l, strtoll_digits acc (s ++ 0 :: rest) = Some (v, l) ∧ 0 ≤ v ∧ l ≠ [].
Proof.
  revert acc. induction s as [|c s IH]; intros acc Ha; [by exists acc, (0 :: rest)|]. cbn [app strtoll_digits].
  destruct (_ && _) eqn:E; [apply IH; lia|]. by exists acc, (c :: s ++ 0 :: rest).
Qed.

Lemma split_nul t rest : ∃ s rest', t ++ 0 :: rest = s ++ 0 :: rest' ∧ Forall (λ c, c ≠ 0) s.
Proof.
  induction t as [|c t (s & rest' & IH & Hs)]; [by exists [], rest|]. destruct (decide (c = 0)) as [->|Hc].
  - by exists [], (t ++ 0 :: rest).
  - exists (c :: s), rest'. simpl. rewrite IH. split; [done|by constructor].
Qed.

Lemma strtoll_scan_run t rest :
  ∃ r, strtoll_scan (t ++ 0 :: rest) = Some r ∧ match r with Some (v, l) => l ≠ [] | None => True end.
Proof.
  destruct (split_nul t rest) as (s & rest' & -> & Hs). clear t rest. unfold strtoll_scan.
  destruct (strtoll_space_run s rest' Hs) as (s1 & -> & Hs1). rewrite bind_Some_eq.
  set (neg_s2 := match s1 ++ 0 :: rest' with [] => _ | c :: s' => _ end).
  assert (∃ neg s2, neg_s2 = (neg, s2 ++ 0 :: rest')) as (neg & s2 & ->).
  { unfold neg_s2. destruct s1 as [|c s1]; cbn [app].
    - change (0 =? 45) with false. change (0 =? 43) with false. by exists false, [].
    - destruct (c =? 45); [by exists true, s1|]. destruct (c =? 43); [by exists false, s1|]. by exists false, (c :: s1). }
  destruct (s2 ++ 0 :: rest') as [|c l2] eqn:E2; [by destruct s2|]. change (rd1 (c :: l2) 0) with (Some c).
  rewrite bind_Some_eq, <-E2. destruct (_ && _); [|by exists None].
  destruct (strtoll_digits_run 0 s2 rest') as (v & l & -> & Hv & Hl); [lia|]. rewrite bind_Some_eq. by eexists.
Qed.

Lemma strtoll_run t rest :
  ∃ v l, strtoll (t ++ 0 :: rest) = Some (v, l) ∧ in_s 64 v ∧ l ≠ [].
Proof.
  unfold strtoll. destruct (strtoll_scan_run t rest) as (r & -> & Hr). rewrite bind_Some_eq. destruct r as [[v l]|].
  - eexists _, l. split; [done|]. split; [|done]. unfold LLONG_MIN, LLONG_MAX. split; lia.
  - eexists 0, _. split; [done|]. split; [split; lia|by destruct t].
Qed.

(** ** Compressed strings *)

Lemma repeat_from_bytes n off o : is_bytes (repeat_from n off o) → is_bytes o.
Proof.
  revert o. induction n as [|n IH]; intros o H; [done|]. cbn [repeat_from] in H. apply IH in H.
  by apply Forall_app in H as [? _].
Qed.

Lemma encodes_bytes ts : tokens_ok ts → is_bytes (expand ts) → is_bytes (encodes ts).
Proof.
  induction 1 as [|ts t Hts IH Ht]; [constructor|]. rewrite expand_snoc, encodes_snoc. intros Hb.
  apply Forall_app. destruct t as [l|off len]; simpl in Hb, Ht |- *.
  - apply Forall_app in Hb as [Hb Hl]. split; [by apply IH|]. constructor; [unfold in_u; lia|done].
  - split; [by apply IH; eapply repeat_from_bytes|]. change MAX_OFF with 8192 in Ht. unfold in_u.
    destruct (len <? 7) eqn:E; repeat constructor; dlia.
Qed.

(** ** Strings *)

(** The encodings of a text. *)
Inductive string_enc (t : bytes) : bytes → Prop :=
  | enc_int v e n :
      dec_signed v = t → int_enc v = Some (e, n) → string_enc t ((192 + e) :: le_enc n v)
  | enc_lzf ts :
      tokens_ok ts → expand ts = t → t ≠ [] → zlen (encodes ts) < 2 ^ 31 →
      string_enc t ([195] ++ len_bytes (zlen (encodes ts)) ++ len_bytes (zlen t) ++ encodes ts)
  | enc_raw : string_enc t (len_bytes (zlen t) ++ t).

Section strings.
Context {D : Type} `{!Device D} `{!DeviceLaws D} {alloc : Allocator} {mem : ProcessMemory} (cfg : config).

(** Strings of the server are at most 512MB long. *)
Definition MAX_STRING : Z := 2 ^ 29.

Lemma rdbTryIntegerEncoding_run t rest :
  zlen t ≤ 11 →
  ∃ enc, rdbTryIntegerEncoding (t ++ 0 :: rest) (zlen t) = Some enc ∧
    (enc = [] ∨ ∃ v e n, dec_signed v = t ∧ int_enc v = Some (e, n) ∧ enc = (192 + e) :: le_enc n v).
Proof.
  intros Ht. unfold rdbTryIntegerEncoding. destruct (strtoll_run t rest) as (v & l & -> & Hv & Hl).
  rewrite bind_Some_eq. destruct l as [|c l]; [done|]. change (rd1 (c :: l) 0) with (Some c). rewrite bind_Some_eq.
  destruct (negb (c =? 0)); [exists []; by auto|]. pose proof (length_dec_signed v Hv) as Hdl.
  rewrite ll2string_fits by (rewrite ?length_fresh; simpl; done || lia). rewrite bind_Some_eq.
  rewrite strlen_app, bind_Some_eq by apply dec_signed_no_nul.
  destruct (negb (_ =? zlen t)) eqn:E; [exists []; by auto|].
  rewrite (rd_prefix (dec_signed v)), bind_Some_eq by lia. rewrite (rd_prefix t), bind_Some_eq by done.
  case_bool_decide as Heq; [|exists []; by auto]. eexists. split; [done|]. rewrite rdbEncodeInteger_eq.
  destruct (int_enc v) as [[e n]|] eqn:Ei; [right|by left]. by exists v, e, n.
Qed.

Lemma writes_bytes f bs n : writes (D := D) f bs n → is_bytes bs.
Proof. by intros [? _]. Qed.

(** A header byte and what follows it. *)
Lemma string_enc_bytes t e : is_bytes t → string_enc t e → is_bytes e.
Proof.
  intros Ht [v k n Hv Hk|ts Hok Hts Hne Hl|].
  - constructor; [|apply le_enc_bytes]. apply int_enc_range in Hk. unfold in_u. lia.
  - apply Forall_app. split; [by constructor; [|constructor]|]. apply Forall_app. split; [apply len_bytes_bytes; lia|].
    apply Forall_app. split; [apply len_bytes_bytes; lia|]. apply encodes_bytes; [done|by rewrite Hts].
  - apply Forall_app. split; [apply len_bytes_bytes; lia|done].
Qed.

Lemma rdbSaveLzfStringObject_writes t rest :
  is_bytes t → 20 < zlen t ≤ MAX_STRING → zlen rest < 2 ^ 31 →
  writes (D := D) (rdbSaveLzfStringObject (t ++ rest) (zlen t)) [] 0 ∨
  ∃ e, string_enc t e ∧ writes (D := D) (rdbSaveLzfStringObject (t ++ rest) (zlen t)) e (zlen e).
Proof.
  intros Hb Ht Hr. change MAX_STRING with 536870912 in Ht. unfold rdbSaveLzfStringObject.
  destruct (zlen t <=? 4) eqn:E; [lia|clear E].
  destruct (address_ok (t ++ rest)) as [Ha1 Ha2]; [rewrite length_app; lia|]. rewrite length_app in Ha2.
  destruct (lzf_compress_run (address (t ++ rest)) t (zlen t - 4) Ha1 ltac:(lia) ltac:(lia) ltac:(lia) ltac:(lia)
    stack_htab (zmalloc (zlen t - 4 + 1))) as (n & out & Hrun & Hol & Hn & Hcase);
    [lia|unfold zmalloc; rewrite length_fresh; lia|apply stack_htab_ok|].
  assert (liftL_eq : ∀ k : bytes → W D, liftW (rd (t ++ rest) 0 (zlen t)) k = k t).
  { intros k. unfold liftW. by rewrite rd_prefix. }
  rewrite liftL_eq, !wrap_small by (split; lia).
  destruct (n =? 0) eqn:E0.
  { left. eapply writes_lift; [exact Hrun|]. cbv beta iota. rewrite E0. apply writes_ret. }
  right. destruct Hcase as [->|(ts & Hts & Hok & Hex)]; [done|].
  assert (zlen (encodes ts) = n) as Hln by (rewrite <-Hts, length_take; lia).
  exists ([195] ++ len_bytes (zlen (encodes ts)) ++ len_bytes (zlen t) ++ encodes ts).
  pose proof (length_len_bytes n). pose proof (length_len_bytes (zlen t)).
  assert (t ≠ []) as Hne by (intros ->; simpl in Ht; lia).
  split; [apply enc_lzf; (done || lia)|]. eapply writes_lift; [exact Hrun|]. cbv beta iota. rewrite E0.
  change (Z.lor (Z.shiftl REDIS_RDB_ENCVAL 6) REDIS_RDB_ENC_LZF) with 195.
  rewrite Hln. eapply writes_bind; [|apply writes_raw; [by repeat constructor|done]|]; [done|].
  rewrite wrap_small by (split; lia).
  eapply writes_bind; [|apply rdbSaveLen_writes; lia|]; [lia|].
  eapply writes_bind; [|apply rdbSaveLen_writes; lia|]; [lia|].
  eapply writes_lift; [rewrite rd_take by lia; by rewrite Hts|].
  eapply writes_bind_nil; [|apply writes_raw; [apply encodes_bytes; [done|by rewrite Hex]|lia]|]; [lia|].
  eapply writes_eq; [apply writes_ret|done|].
  rewrite swrap_small; rewrite ?length_app; cbn [length]; [lia|lia|split; lia].
Qed.

Lemma save_verbatim_writes t rest :
  is_bytes t → zlen t ≤ MAX_STRING →
  writes (D := D) (save_verbatim (t ++ rest) (zlen t)) (len_bytes (zlen t) ++ t) (zlen (len_bytes (zlen t) ++ t)).
Proof.
  intros Hb Ht. change MAX_STRING with 536870912 in Ht. unfold save_verbatim. rewrite wrap_small by (split; lia).
  pose proof (length_len_bytes (zlen t)). rewrite length_app.
  eapply writes_bind; [|apply rdbSaveLen_writes; lia|]; [lia|].
  destruct (zlen t >? 0) eqn:E.
  - eapply writes_lift; [by apply rd_prefix|].
    eapply writes_bind_nil; [|apply writes_raw; [done|lia]|]; [lia|].
    eapply writes_eq; [apply writes_ret|done|]. rewrite swrap_small; [lia|lia|split; lia].
  - destruct t; [|simpl in E; lia]. eapply writes_eq; [apply writes_ret|done|]. simpl. lia.
Qed.

Lemma rdbSaveRawString_writes t rest :
  is_bytes t → zlen t ≤ MAX_STRING → zlen rest < 2 ^ 30 →
  ∃ e, string_enc t e ∧ writes (D := D) (rdbSaveRawString cfg (t ++ 0 :: rest) (zlen t)) e (zlen e).
Proof.
  intros Hb Ht Hr. unfold rdbSaveRawString.
  assert (∃ buf, (if zlen t <=? 11 then rdbTryIntegerEncoding (t ++ 0 :: rest) (zlen t) else Some []) = Some buf ∧
    (buf = [] ∨ ∃ v e n, dec_signed v = t ∧ int_enc v = Some (e, n) ∧ buf = (192 + e) :: le_enc n v)) as (buf & -> & Hbuf).
  { destruct (zlen t <=? 11) eqn:E; [apply rdbTryIntegerEncoding_run; lia|exists []; by auto]. }
  assert (∀ k : bytes → W D, liftW (Some buf) k = k buf) as -> by done.
  destruct Hbuf as [->|(v & e & n & Hv & Hi & ->)].
  2:{ assert (string_enc t ((192 + e) :: le_enc n v)) as Henc by by apply enc_int.
      exists ((192 + e) :: le_enc n v). split; [done|]. destruct (_ >? 0) eqn:E; [|simpl in E; lia].
      apply int_enc_range in Hi.
      assert (zlen ((192 + e) :: le_enc n v) = 1 + Z.of_nat n) as Hl by (cbn [length]; rewrite length_le_enc; lia).
      eapply writes_bind_nil; [|apply writes_raw; [by eapply string_enc_bytes|lia]|apply writes_ret]. lia. }
  cbn [length]. change (Z.of_nat 0 >? 0) with false. cbv iota.
  assert (∀ f : W D, (writes f [] 0 ∨ ∃ e, string_enc t e ∧ writes f e (zlen e)) →
    ∃ e, string_enc t e ∧ writes (n <- f ;; if n >? 0 then retW n else save_verbatim (t ++ 0 :: rest) (zlen t)) e (zlen e)) as Hgo.
  { intros f [Hf|(e & He & Hf)].
    - exists (len_bytes (zlen t) ++ t). split; [apply enc_raw|]. 
      eapply (writes_bind _ _ [] 0 (len_bytes (zlen t) ++ t)); [done|exact Hf|]. by apply save_verbatim_writes.
    - exists e. split; [done|]. eapply writes_bind_nil; [|exact Hf|]; [lia|].
      assert (0 < zlen e) by (destruct He; simpl; lia || (rewrite ?length_app; pose proof (length_len_bytes (zlen t)); simpl; lia)).
      destruct (_ >? 0) eqn:E; [apply writes_ret|lia]. }
  apply Hgo. destruct (_ && _) eqn:E; [|left; apply writes_ret].
  apply rdbSaveLzfStringObject_writes; [done|lia|]. cbn [length]. lia.
Qed.
Lemma rdbSaveLongLong_writes v :
  in_s 64 v →
  ∃ e, string_enc (dec_signed v) e ∧ writes (D := D) (rdbSaveLongLongAsStringObject v) e (zlen e).
Proof.
  intros Hv. unfold rdbSaveLongLongAsStringObject. rewrite rdbEncodeInteger_eq.
  pose proof (length_dec_signed v Hv) as Hl. destruct (int_enc v) as [[e n]|] eqn:Ei.
  - exists ((192 + e) :: le_enc n v). split; [by apply enc_int|].
    destruct (_ >? 0) eqn:E; [|simpl in E; lia]. apply int_enc_range in Ei.
    apply writes_raw; [|cbn [length]; rewrite length_le_enc; lia].
    constructor; [unfold in_u; lia|apply le_enc_bytes].
  - exists (len_bytes (zlen (dec_signed v)) ++ dec_signed v). split; [apply enc_raw|].
    cbn [length]. change (Z.of_nat 0 >? 0) with false. cbv iota.
    eapply writes_lift; [apply ll2string_fits; rewrite ?length_fresh; simpl; done || lia|]. cbv beta iota.
    eapply writes_lift.
    { destruct (_ <? 32) eqn:E; [|lia]. by apply rd_prefix. }
    rewrite wrap_small by (split; lia). pose proof (length_len_bytes (zlen (dec_signed v))). rewrite length_app.
    eapply writes_bind; [|apply rdbSaveLen_writes; lia|]; [lia|].
    eapply writes_bind_nil; [|apply writes_raw; [apply dec_signed_bytes; done|lia]|]; [lia|].
    eapply writes_eq; [apply writes_ret|done|]. rewrite swrap_small; [lia|lia|split; lia].
Qed.

(** The objects that are saved. *)
Definition saveable (o : robj) : Prop :=
  match o with SdsObj t => is_bytes t ∧ zlen t ≤ MAX_STRING | IntObj v => in_s 64 v end.

Lemma saveable_text o : saveable o → is_bytes (robj_text o) ∧ zlen (robj_text o) ≤ MAX_STRING.
Proof.
  destruct o as [t|v]; [done|]. intros Hv. split; [by apply dec_signed_bytes|]. pose proof (length_dec_signed v Hv).
  change MAX_STRING with 536870912. simpl. lia.
Qed.

Lemma rdbSaveStringObject_writes o :
  saveable o → ∃ e, string_enc (robj_text o) e ∧ writes (D := D) (rdbSaveStringObject cfg o) e (zlen e).
Proof.
  destruct o as [t|v]; cbn [saveable robj_text rdbSaveStringObject].
  - intros [Hb Ht]. by apply rdbSaveRawString_writes.
  - apply rdbSaveLongLong_writes.
Qed.

(** ** Loading strings *)

Lemma integer_of_le_enc v e n : int_enc v = Some (e, n) → integer_of e (le_enc n v) = v.
Proof.
  intros (Hv & Hc)%int_enc_range. unfold integer_of.
  destruct Hc as [[-> ->]|[[-> ->]|[-> ->]]]; cbn [Z.eqb]; cbv iota.
  - apply (swrap_le_dec_enc 1); [lia|done].
  - apply (swrap_le_dec_enc 2); [lia|done].
  - apply (swrap_le_dec_enc 4); [lia|done].
Qed.

Lemma rdbLoadIntegerObject_reads v e n encode :
  int_enc v = Some (e, n) →
  reads (D := D) (rdbLoadIntegerObject e encode) (le_enc n v) (Some (if encode then IntObj v else SdsObj (dec_signed v))).
Proof.
  intros Hi. pose proof (int_enc_range _ _ _ Hi) as [Hv Hc]. unfold rdbLoadIntegerObject.
  assert (in_s 64 v) as Hv64 by (destruct Hc as [[_ ->]|[[_ ->]|[_ ->]]]; unfold in_s in *; simpl in *; lia).
  assert (negb ((e =? REDIS_RDB_ENC_INT8) || (e =? REDIS_RDB_ENC_INT16) || (e =? REDIS_RDB_ENC_INT32)) = false ∧
    (if e =? REDIS_RDB_ENC_INT8 then 1 else if e =? REDIS_RDB_ENC_INT16 then 2 else 4) = Z.of_nat n) as [-> ->].
  { by destruct Hc as [[-> ->]|[[-> ->]|[-> ->]]]. }
  eapply reads_bind_nil; [apply reads_read; by rewrite length_le_enc|]. cbv beta iota zeta.
  rewrite (integer_of_le_enc v e n Hi). destruct encode.
  - eapply reads_lift; [|apply reads_ret]. unfold createStringObjectFromLongLong, PORT_LONG_MIN, PORT_LONG_MAX.
    destruct Hv64 as [H1 H2]. simpl in H1, H2. by destruct (_ && _) eqn:E; [|lia].
  - destruct (sdsfromlonglong_is v Hv64) as (s & Hs & Hst). eapply reads_lift; [exact Hs|].
    rewrite (sds_is_text _ _ Hst). apply reads_ret.
Qed.

Lemma rdbLoadLzf_reads ts t :
  tokens_ok ts → expand ts = t → t ≠ [] → is_bytes t → zlen t ≤ MAX_STRING → zlen (encodes ts) < 2 ^ 31 →
  reads (D := D) rdbLoadLzfStringObject (len_bytes (zlen (encodes ts)) ++ len_bytes (zlen t) ++ encodes ts)
    (Some (SdsObj t)).
Proof.
  intros Hok Hex Hne Hb Ht Hl. change MAX_STRING with 536870912 in Ht. unfold rdbLoadLzfStringObject.
  eapply reads_bind; [apply rdbLoadLen_reads; lia|]. cbn [fst]. destruct (_ =? REDIS_RDB_LENERR) eqn:E; [unfold REDIS_RDB_LENERR in E; lia|clear E].
  eapply reads_bind; [apply rdbLoadLen_reads; lia|]. cbn [fst]. destruct (_ =? REDIS_RDB_LENERR) eqn:E; [unfold REDIS_RDB_LENERR in E; lia|clear E].
  destruct (sdsnewlen_None (zlen t)) as (s & Hs & tail & -> & _); [lia|].
  eapply reads_lift; [exact Hs|]. eapply reads_bind_nil; [by apply reads_read|]. cbv beta iota.
  rewrite Nat2Z.id. cbn [sh_buf].
  eapply reads_lift; [apply rd_prefix; by rewrite length_replicate|].
  assert (ts ≠ []) as Hts by (intros ->; by rewrite <-Hex in Hne).
  assert (is_bytes (encodes ts)) as Hbe by (apply encodes_bytes; [done|by rewrite Hex]).
  assert (encodes ts ≠ []) as Hene.
  { pose proof (length_encodes ts). intros Hnil. rewrite Hnil in H. destruct ts; [done|simpl in H; lia]. }
  assert (zlen (replicate (length t) 0) = zlen t) as Hrl by (by rewrite length_replicate).
  destruct (decompress_encodes ts (replicate (length t) 0) Hok Hts) as [rest Hd]; [rewrite Hex; lia|].
  rewrite Hrl, Hex in Hd.
  destruct (decompress_run (encodes ts) (replicate (length t) 0) Hbe Hene) as (r & Hr & Hr2).
  rewrite Hrl, Hd in Hr. injection Hr as <-.
  destruct (Hr2 _ _ eq_refl) as (_ & _ & _ & _ & _ & _ & Hol & _). rewrite Hrl, length_app in Hol.
  destruct rest; [|simpl in Hol; lia]. rewrite app_nil_r in Hd.
  eapply reads_lift; [exact Hd|]. cbv beta iota.
  destruct (zlen t =? 0) eqn:E; [destruct t; [done|simpl in E; lia]|]. apply reads_ret.
Qed.

(** The object that is loaded: integers may stay encoded. *)
Lemma rdbGenericLoad_reads t e encode :
  string_enc t e → is_bytes t → zlen t ≤ MAX_STRING →
  ∃ o, reads (D := D) (rdbGenericLoadStringObject encode) e (Some o) ∧ robj_text o = t ∧ saveable o ∧
    (encode = false → o = SdsObj t).
Proof.
  intros He Hb Ht. unfold rdbGenericLoadStringObject. destruct He as [v k n Hv Hi|ts Hok Hex Hne Hl|].
  - pose proof (int_enc_range _ _ _ Hi) as [Hv' Hc].
    exists (if encode then IntObj v else SdsObj (dec_signed v)). split; [|split; [by destruct encode|split; [|by intros ->; rewrite Hv]]].
    + change (?a :: ?l) with ([a] ++ l). eapply reads_bind; [apply rdbLoadLen_encoded; lia|]. cbv beta iota.
      assert ((k =? REDIS_RDB_ENC_INT8) || (k =? REDIS_RDB_ENC_INT16) || (k =? REDIS_RDB_ENC_INT32) = true) as ->.
      { by destruct Hc as [[-> _]|[[-> _]|[-> _]]]. }
      by apply rdbLoadIntegerObject_reads.
    + destruct encode; cbn; [|by rewrite Hv].
      destruct Hc as [[_ ->]|[[_ ->]|[_ ->]]]; unfold in_s in *; simpl in *; lia.
  - exists (SdsObj t). split; [|done].
    eapply reads_bind; [apply (rdbLoadLen_encoded 3); lia|]. cbv beta iota.
    change ((3 =? REDIS_RDB_ENC_INT8) || (3 =? REDIS_RDB_ENC_INT16) || (3 =? REDIS_RDB_ENC_INT32)) with false.
    change (3 =? REDIS_RDB_ENC_LZF) with true. cbv iota. by apply rdbLoadLzf_reads.
  - exists (SdsObj t). split; [|done]. change MAX_STRING with 536870912 in Ht.
    eapply reads_bind; [apply rdbLoadLen_reads; lia|]. cbv beta iota.
    destruct (_ =? REDIS_RDB_LENERR) eqn:E; [unfold REDIS_RDB_LENERR in E; lia|]. clear E.
    destruct (zlen t =? 0) eqn:E; [destruct t; [apply reads_ret|simpl in E; lia]|].
    eapply reads_bind_nil; [by apply reads_read|]. apply reads_ret.
Qed.
End strings.
