(* ===== verification/RdbDump.v ===== *)
(** * A dump loads back: databases, expire times, the checksum *)

From S2P Require Import Prelude Endian Util Lzf Glob Crc Object Sds SdsText Rio Rdb RdbFormat.

#[local] Open Scope Z_scope.
#[local] Open Scope rdb_scope.

(** ** Adding a key *)

Lemma load_key_into_eq {V} (db : redisDb V) k v ex :
  db_dict db !! k = None →
  load_key_into db k v ex = Some (RedisDb (<[k := v]> (db_dict db)) (if ex =? -1 then db_expires db else <[k := ex]> (db_expires db))).
Proof.
  intros Hk. unfold load_key_into, dbAdd. rewrite Hk, bind_Some_eq. destruct (ex =? -1); [done|].
  unfold setExpire. cbn [db_dict db_expires]. by rewrite lookup_insert_eq.
Qed.

(** ** What a type of values promises *)

Class ValueLaws (D V : Type) `{!Device D} `{!DeviceLaws D} `{!Value D V} := {
  value_ok : V → Prop;
  (* the same for the clients *)
  value_equiv : V → V → Prop;
  value_type o : 0 ≤ rdbObjectType o < REDIS_RDB_OPCODE_EXPIRETIME_MS;
  value_save_load o :
    value_ok o →
    ∃ e n o', n ≠ -1 ∧ writes (rdbSaveObject o) e n ∧
      reads (rdbLoadObject (rdbObjectType o)) e (Some o') ∧ value_equiv o o';
}.

(** ** String values *)

Section string_value.
Context {D : Type} `{!Device D} `{!DeviceLaws D} {alloc : Allocator} {mem : ProcessMemory} (cfg : config).

Lemma tryObjectEncoding_run o :
  saveable o → ∃ o', tryObjectEncoding o = Some o' ∧ robj_text o' = robj_text o ∧ saveable o'.
Proof.
  destruct o as [t|v]; [|by exists (IntObj v)]. intros [Hb Ht]. unfold tryObjectEncoding.
  destruct (zlen t <=? 21); [|by exists (SdsObj t)].
  destruct (string2l_run t [0]) as (r & -> & Hr). rewrite bind_Some_eq.
  destruct r as [v|]; [|by exists (SdsObj t)]. destruct (proj1 (Hr v) eq_refl) as [Hv ->].
  exists (IntObj v). split; [done|]. split; [done|exact Hv].
Qed.

#[export] Program Instance string_value_laws : ValueLaws D robj (Value0 := string_value cfg) :=
  {| value_ok := saveable; value_equiv o o' := robj_text o' = robj_text o |}.
Next Obligation. done. Qed.
Next Obligation.
  intros o Ho. destruct (rdbSaveStringObject_writes cfg o Ho) as (e & He & Hw).
  destruct (saveable_text o Ho) as [Hb Ht].
  destruct (rdbGenericLoad_reads (D := D) (robj_text o) e true He Hb Ht) as (o1 & Hr & Ho1 & Hs1 & _).
  destruct (tryObjectEncoding_run o1 Hs1) as (o2 & Ho2 & Heq & _).
  exists e, (zlen e), o2. split; [lia|]. split; [exact Hw|]. split; [|congruence].
  cbn [rdbLoadObject string_value rdbObjectType]. unfold load_string_value. cbn [Z.eqb].
  eapply reads_bind_nil; [exact Hr|]. cbv beta iota. eapply reads_lift; [exact Ho2|]. apply reads_ret.
Qed.
End string_value.

(** ** Reading parts of a dump *)

Section parts.
Context {D V : Type} `{!Device D} `{!DeviceLaws D} `{!Value D V} {alloc : Allocator}.

Lemma rdbSaveType_writes t : in_u 8 t → writes (D := D) (rdbSaveType t) [t] 1.
Proof.
  intros Ht. unfold rdbSaveType. rewrite wrap_small by done. apply writes_raw; [by constructor|done].
Qed.

Lemma needTypeL_reads t : in_u 8 t → reads (D := D) needTypeL [t] t.
Proof.
  intros Ht. unfold needTypeL, rdbLoadType. eapply reads_bind_nil.
  - eapply reads_bind_nil; [by apply reads_read|]. cbv beta iota. eapply reads_lift; [done|]. apply reads_ret.
  - destruct (t =? -1) eqn:E; [unfold in_u in Ht; lia|]. apply reads_ret.
Qed.

Lemma needL_reads {A} (p : L D (option A)) bs a : reads p bs (Some a) → reads (needL p) bs a.
Proof. intros Hp. unfold needL. eapply reads_bind_nil; [exact Hp|]. apply reads_ret. Qed.
End parts.

(** ** Keys with their values and expire times *)

(** The expire time of a key, -1 for none. *)
Definition expire_of {V} (db : redisDb V) (k : bytes) : Z := default (-1) (db_expires db !! k).

(** Whether an expire time lies in the past. *)
Definition expired (now ex : Z) : bool := negb (ex =? -1) && (ex <? now).

Section dump.
Context {D V : Type} `{!Device D} `{!DeviceLaws D} `{!Value D V} `{!ValueLaws D V}.
Context {alloc : Allocator} {mem : ProcessMemory} {order : DictOrder}.
(* the host that saves and the one that loads; the configurations of both *)
Context {host1 host2 : Host} (cfg1 cfg2 : config).

(** The databases a server can hold. *)
Definition db_ok (db : redisDb V) : Prop :=
  (∀ k o, db_dict db !! k = Some o → is_bytes k ∧ zlen k ≤ MAX_STRING ∧ value_ok o) ∧
  (∀ k ex, db_expires db !! k = Some ex → is_Some (db_dict db !! k) ∧ in_s 64 ex ∧ ex ≠ -1).

(** Expire times are stored in the byte order of the host that saves. *)
Definition same_order (db : redisDb V) : Prop :=
  @big_endian host1 = @big_endian host2 ∨ db_expires db = ∅.

Lemma host_dec_enc_other n v :
  @big_endian host1 = @big_endian host2 → @host_dec host2 (@host_enc host1 n v) = wrap (8 * Z.of_nat n) v.
Proof. intros Hb. rewrite <-(@host_dec_enc host2 n v). unfold host_enc. by rewrite Hb. Qed.

Lemma load_type_expire ex t :
  @big_endian host1 = @big_endian host2 → in_s 64 ex → ex ≠ -1 → in_u 8 t →
  reads (D := D) (load_type (host := host2)) ([REDIS_RDB_OPCODE_EXPIRETIME_MS] ++ @host_enc host1 8 ex ++ [t]) (t, ex).
Proof.
  intros Hb Hex Hne Ht. unfold load_type. eapply reads_bind; [by apply needTypeL_reads|]. cbv beta iota.
  change (REDIS_RDB_OPCODE_EXPIRETIME_MS =? REDIS_RDB_OPCODE_EXPIRETIME) with false.
  change (REDIS_RDB_OPCODE_EXPIRETIME_MS =? REDIS_RDB_OPCODE_EXPIRETIME_MS) with true. cbv iota.
  eapply reads_bind.
  { unfold rdbLoadMillisecondTime. eapply reads_bind_nil; [apply reads_read|].
    - unfold host_enc. by destruct big_endian; rewrite ?length_reverse, length_le_enc.
    - cbv beta iota. apply reads_ret. }
  cbv beta iota. rewrite (host_dec_enc_other 8 ex Hb), swrap_wrap_small by done.
  destruct (ex =? -1) eqn:E; [lia|]. eapply reads_bind_nil; [by apply needTypeL_reads|]. apply reads_ret.
Qed.

Lemma load_type_plain t :
  0 ≤ t < REDIS_RDB_OPCODE_EXPIRETIME_MS ∨ t = REDIS_RDB_OPCODE_SELECTDB ∨ t = REDIS_RDB_OPCODE_EOF →
  reads (D := D) (load_type (host := host2)) [t] (t, -1).
Proof.
  intros Ht. unfold REDIS_RDB_OPCODE_EXPIRETIME_MS, REDIS_RDB_OPCODE_SELECTDB, REDIS_RDB_OPCODE_EOF in Ht.
  unfold load_type. eapply reads_bind_nil; [apply needTypeL_reads; unfold in_u; lia|].
  destruct (t =? REDIS_RDB_OPCODE_EXPIRETIME) eqn:E1; [unfold REDIS_RDB_OPCODE_EXPIRETIME in E1; lia|].
  destruct (t =? REDIS_RDB_OPCODE_EXPIRETIME_MS) eqn:E2; [unfold REDIS_RDB_OPCODE_EXPIRETIME_MS in E2; lia|].
  apply reads_ret.
Qed.

(** The selected database after a key was loaded. *)
Definition load_key (now : Z) (st : load_state (V := V)) (k : bytes) (o : V) (ex : Z) : option load_state :=
  let '(dbs, cur) := st in
  if negb (masterhost cfg2) && expired now ex then Some st
  else
    db ← dbs !! Z.to_nat cur;
    db ← load_key_into db k o ex;
    Some (<[Z.to_nat cur := db]> dbs, cur).

Lemma load_body_key now st k o ex st' t b1 b2 b3 :
  reads (load_type (host := host2)) b1 (t, ex) → 0 ≤ t < REDIS_RDB_OPCODE_EXPIRETIME_MS →
  reads rdbLoadStringObject b2 (Some (SdsObj k)) → reads (rdbLoadObject t) b3 (Some o) →
  load_key now st k o ex = Some st' →
  reads (D := D) (load_body (host := host2) cfg2 now st) (b1 ++ b2 ++ b3) (inl st').
Proof.
  intros H1 Ht H2 H3 Hst. unfold REDIS_RDB_OPCODE_EXPIRETIME_MS in Ht. destruct st as [dbs cur]. unfold load_body.
  eapply reads_bind; [exact H1|]. cbv beta iota.
  destruct (t =? REDIS_RDB_OPCODE_EOF) eqn:E1; [unfold REDIS_RDB_OPCODE_EOF in E1; lia|].
  destruct (t =? REDIS_RDB_OPCODE_SELECTDB) eqn:E2; [unfold REDIS_RDB_OPCODE_SELECTDB in E2; lia|].
  eapply reads_bind; [apply needL_reads, H2|]. cbv beta. eapply reads_bind_nil; [apply needL_reads, H3|]. cbv beta.
  unfold load_key, expired in Hst. rewrite andb_assoc in Hst.
  destruct (negb (masterhost cfg2) && negb (ex =? -1) && (ex <? now)); [injection Hst as <-; apply reads_ret|].
  destruct (dbs !! Z.to_nat cur) as [db|] eqn:Edb; [|done]. rewrite bind_Some_eq in Hst.
  eapply reads_lift; [done|]. cbv beta. eapply reads_lift; [done|]. cbv beta.
  destruct (load_key_into db k o ex) as [db'|]; [|done]. rewrite bind_Some_eq in Hst. injection Hst as <-. apply reads_ret.
Qed.

(** One key: what saving it writes is nothing when it is expired, and otherwise
    loads as the key, an equivalent value and the expire time. *)
Lemma save_key_load now1 k o ex :
  is_bytes k → zlen k ≤ MAX_STRING → value_ok o → (ex = -1 ∨ in_s 64 ex ∧ @big_endian host1 = @big_endian host2) →
  ∃ e n o', n ≠ -1 ∧ writes (D := D) (rdbSaveKeyValuePair (host := host1) cfg1 k o ex now1) e n ∧ value_equiv o o' ∧
    if expired now1 ex then e = []
    else (0 < length e)%nat ∧ ∀ now2 st st', load_key now2 st k o' ex = Some st' →
      reads (D := D) (load_body (host := host2) cfg2 now2 st) e (inl st').
Proof.
  intros Hk Hkl Ho Hex. destruct (value_save_load o Ho) as (e3 & n3 & o' & Hn3 & Hw3 & Hr3 & Heq).
  pose proof (value_type o) as Ht.
  assert (in_u 8 (rdbObjectType o)) as Ht8 by (unfold REDIS_RDB_OPCODE_EXPIRETIME_MS in Ht; unfold in_u; lia).
  destruct (rdbSaveStringObject_writes (D := D) cfg1 (SdsObj k)) as (e2 & He2 & Hw2); [by split|].
  destruct (rdbGenericLoad_reads (D := D) k e2 false He2 Hk Hkl) as (ok & Hr2 & _ & _ & Hok).
  rewrite (Hok eq_refl) in Hr2. clear Hok ok.
  unfold rdbSaveKeyValuePair. fold (expired now1 ex). destruct (expired now1 ex) eqn:Eex.
  { exists [], 0, o'. split; [done|]. split; [apply writes_ret|done]. }
  assert (∃ e1 n1, n1 ≠ -1 ∧ writes (D := D) (if negb (ex =? -1)
      then n <- rdbSaveType REDIS_RDB_OPCODE_EXPIRETIME_MS ;; rdbSaveMillisecondTime (H := host1) ex
      else retW 0) e1 n1 ∧ reads (D := D) (load_type (host := host2)) (e1 ++ [rdbObjectType o]) (rdbObjectType o, ex))
    as (e1 & n1 & Hn1 & Hw1 & Hr1).
  { destruct (ex =? -1) eqn:E; cbn [negb].
    - assert (ex = -1) as -> by lia. exists [], 0. split; [done|]. split; [apply writes_ret|].
      apply load_type_plain. by left.
    - destruct Hex as [|[Hex Hb]]; [lia|].
      assert (length (@host_enc host1 8 ex) = 8%nat) as Hl.
      { unfold host_enc. by destruct big_endian; rewrite ?length_reverse, length_le_enc. }
      exists ([REDIS_RDB_OPCODE_EXPIRETIME_MS] ++ @host_enc host1 8 ex), 8. split; [done|]. split.
      + eapply writes_bind; [|by apply rdbSaveType_writes|]; [done|]. eapply writes_eq; [apply writes_raw| |].
        * unfold host_enc. destruct big_endian; [apply reverse_bytes|]; apply le_enc_bytes.
        * by rewrite Hl.
        * done.
        * by rewrite Hl.
      + rewrite <-app_assoc. apply load_type_expire; (done || lia). }
  exists (e1 ++ [rdbObjectType o] ++ e2 ++ e3), 1, o'. split; [done|]. split; [|split; [done|]].
  - eapply writes_bind; [exact Hn1|exact Hw1|]. eapply writes_bind; [|by apply rdbSaveType_writes|]; [done|].
    eapply writes_bind; [|exact Hw2|]; [lia|]. eapply writes_bind_nil; [exact Hn3|exact Hw3|]. apply writes_ret.
  - split; [rewrite !length_app; simpl; lia|]. intros now2 st st' Hst. rewrite (app_assoc e1).
    by eapply load_body_key.
Qed.
(** ** Sequences of rounds of the loading loop *)

Context (now1 now2 : Z).

(** [loads n st bs st']: reading [bs] takes [n] rounds, from [st] to [st']. *)
Inductive loads : nat → load_state (V := V) → bytes → load_state → Prop :=
  | loads_nil st : loads 0 st [] st
  | loads_step n st b st1 bs st2 :
      (0 < length b)%nat → reads (D := D) (load_body (host := host2) cfg2 now2 st) b (inl st1) →
      loads n st1 bs st2 → loads (S n) st (b ++ bs) st2.

Lemma loads_app n1 n2 st1 st2 st3 b1 b2 :
  loads n1 st1 b1 st2 → loads n2 st2 b2 st3 → loads (n1 + n2) st1 (b1 ++ b2) st3.
Proof.
  induction 1 as [|n st b st1 bs st2 Hb Hr Hl IH]; intros H2; [done|].
  rewrite <-app_assoc. simpl. econstructor; [done|exact Hr|]. by apply IH.
Qed.

Lemma loads_length n st bs st' : loads n st bs st' → (n ≤ length bs)%nat.
Proof. induction 1; [done|]. rewrite length_app. lia. Qed.

Lemma load_loop_reads n fuel st bs st' :
  loads n st bs st' → (n < fuel)%nat →
  reads (D := D) (load_loop (host := host2) cfg2 fuel now2 st) (bs ++ [REDIS_RDB_OPCODE_EOF]) st'.
Proof.
  intros Hl. revert fuel. induction Hl as [st|n st b st1 bs st2 Hb Hr Hl IH]; intros fuel Hf;
    (destruct fuel as [|fuel]; [lia|]); cbn [load_loop].
  - cbn [app]. apply (reads_bind_nil _ _ _ (inr st)); [|apply reads_ret]. destruct st as [dbs cur]. unfold load_body.
    eapply reads_bind_nil; [apply load_type_plain; by right; right|]. cbv beta iota.
    change (REDIS_RDB_OPCODE_EOF =? REDIS_RDB_OPCODE_EOF) with true. apply reads_ret.
  - rewrite <-app_assoc. eapply reads_bind; [exact Hr|]. cbv beta iota. apply IH. lia.
Qed.

(** ** Databases *)

(** Whether a key survives saving and loading. *)
Definition keeps (db : redisDb V) (k : bytes) : bool :=
  negb (expired now1 (expire_of db k)) && (masterhost cfg2 || negb (expired now2 (expire_of db k))).

(** [db'] holds what is kept of the keys [ks] of [db], and nothing else. *)
Definition loaded_keys (db : redisDb V) (ks : list bytes) (db' : redisDb V) : Prop :=
  ∀ k, if bool_decide (k ∈ ks) && keeps db k
       then ∃ o o', db_dict db !! k = Some o ∧ db_dict db' !! k = Some o' ∧ value_equiv o o' ∧
              db_expires db' !! k = db_expires db !! k
       else db_dict db' !! k = None ∧ db_expires db' !! k = None.

(** All of the keys. *)
Definition db_loaded (db db' : redisDb V) : Prop :=
  ∀ k, match db_dict db !! k with
       | Some o =>
         if keeps db k
         then ∃ o', db_dict db' !! k = Some o' ∧ value_equiv o o' ∧ db_expires db' !! k = db_expires db !! k
         else db_dict db' !! k = None ∧ db_expires db' !! k = None
       | None => db_dict db' !! k = None ∧ db_expires db' !! k = None
       end.

Lemma getExpire_run db k : db_ok db → getExpire db k = Some (expire_of db k).
Proof.
  intros [_ Hx]. unfold getExpire, expire_of. destruct (size (db_expires db) =? 0)%nat eqn:E.
  - apply Nat.eqb_eq, map_size_empty_inv in E. by rewrite E, lookup_empty.
  - destruct (db_expires db !! k) as [ex|] eqn:Ek; [|done]. destruct (Hx k ex Ek) as [Hin _].
    by rewrite bool_decide_eq_true_2.
Qed.

(** One more key of [db]. *)
Lemma load_key_step db ks db' k o o' dbs cur :
  db_ok db → db_dict db !! k = Some o → value_equiv o o' → k ∉ ks → expired now1 (expire_of db k) = false →
  dbs !! Z.to_nat cur = Some db' → loaded_keys db ks db' →
  ∃ db'', load_key now2 (dbs, cur) k o' (expire_of db k) = Some (<[Z.to_nat cur := db'']> dbs, cur) ∧
    loaded_keys db (ks ++ [k]) db''.
Proof.
  intros Hok Ho Heq Hk Hex Hdb Hl. pose proof (Hl k) as Hkk. rewrite bool_decide_eq_false_2 in Hkk by done.
  destruct Hkk as [Hd0 Hx0]. unfold load_key.
  assert (keeps db k = negb (negb (masterhost cfg2) && expired now2 (expire_of db k))) as Hkeep.
  { unfold keeps. rewrite Hex. by destruct (masterhost cfg2), (expired now2 _). }
  destruct (negb (masterhost cfg2) && expired now2 (expire_of db k)) eqn:E.
  - exists db'. rewrite list_insert_id by done. split; [done|]. intros j. specialize (Hl j).
    destruct (decide (j = k)) as [->|Hne].
    + rewrite Hkeep, andb_false_r. by split.
    + rewrite (bool_decide_ext (j ∈ ks ++ [k]) (j ∈ ks)) by set_solver. exact Hl.
  - rewrite Hdb, bind_Some_eq, load_key_into_eq by done. rewrite bind_Some_eq. eexists. split; [done|].
    assert (db_expires db !! k = if expire_of db k =? -1 then None else Some (expire_of db k)) as Hx.
    { unfold expire_of. destruct (db_expires db !! k) as [ex|] eqn:Ek; [|done]. cbn.
      destruct (ex =? -1) eqn:Em; [|done]. destruct Hok as [_ Hx]. apply Hx in Ek. lia. }
    intros j. specialize (Hl j). destruct (decide (j = k)) as [->|Hne].
    + rewrite bool_decide_eq_true_2, Hkeep by set_solver. cbn [andb negb]. exists o, o'.
      split; [done|]. destruct (expire_of db k =? -1); cbn; rewrite ?lookup_insert_eq; (split; [done|split; [done|]]); congruence.
    + rewrite (bool_decide_ext (j ∈ ks ++ [k]) (j ∈ ks)) by set_solver.
      destruct (expire_of db k =? -1); cbn; rewrite ?lookup_insert_ne by done; exact Hl.
Qed.

Lemma save_entries_load db es :
  db_ok db → same_order db → NoDup es.*1 → (∀ k o, (k, o) ∈ es → db_dict db !! k = Some o) →
  ∃ e, writes (D := D) (save_entries (host := host1) cfg1 db now1 es) e 0 ∧
    ∀ dbs cur ks db', dbs !! Z.to_nat cur = Some db' → loaded_keys db ks db' → (∀ k, k ∈ es.*1 → k ∉ ks) →
      ∃ n db'', loads n (dbs, cur) e (<[Z.to_nat cur := db'']> dbs, cur) ∧ loaded_keys db (ks ++ es.*1) db''.
Proof.
  intros Hok Hord. induction es as [|[k o] es IH]; intros Hnd Hes.
  { exists []. split; [apply writes_ret|]. intros dbs cur ks db' Hdb Hl _. exists 0%nat, db'.
    rewrite list_insert_id, app_nil_r by done. split; [constructor|done]. }
  rewrite fmap_cons in Hnd. apply NoDup_cons in Hnd as [Hk Hnd]. cbn [fst] in Hk.
  destruct IH as (e2 & Hw2 & Hl2); [done|by intros; apply Hes; right|].
  assert (db_dict db !! k = Some o) as Ho by (apply Hes; by left).
  destruct (proj1 Hok k o Ho) as (Hkb & Hkl & Hvo).
  assert (expire_of db k = -1 ∨ in_s 64 (expire_of db k) ∧ @big_endian host1 = @big_endian host2) as Hex.
  { unfold expire_of. destruct (db_expires db !! k) as [ex|] eqn:Ek; [right|by left].
    split; [by apply (proj2 Hok) in Ek as (_ & ? & _)|]. destruct Hord as [|Hem]; [done|]. by rewrite Hem, lookup_empty in Ek. }
  destruct (save_key_load now1 k o (expire_of db k) Hkb Hkl Hvo Hex) as (e1 & n1 & o' & Hn1 & Hw1 & Heq & He1).
  exists (e1 ++ e2). split.
  { cbn [save_entries]. eapply writes_lift; [by apply getExpire_run|]. eapply writes_bind; [exact Hn1|exact Hw1|exact Hw2]. }
  intros dbs cur ks db' Hdb Hl Hks. rewrite fmap_cons in Hks |- *. cbn [fst] in Hks |- *.
  assert (k ∉ ks) as Hkks by (apply Hks; by left).
  change (ks ++ k :: es.*1) with (ks ++ [k] ++ es.*1). rewrite app_assoc.
  assert (∀ j, j ∈ es.*1 → j ∉ ks ++ [k]) as Hks2.
  { intros j Hj. rewrite elem_of_app, list_elem_of_singleton. intros [Hj2| ->]; [|done]. by apply (Hks j); [right|]. }
  destruct (expired now1 (expire_of db k)) eqn:Ee.
  - subst e1. apply (Hl2 dbs cur (ks ++ [k]) db' Hdb); [|done]. intros j. specialize (Hl j).
    destruct (decide (j = k)) as [->|Hne].
    + unfold keeps. rewrite Ee, andb_false_r. rewrite bool_decide_eq_false_2 in Hl by done. exact Hl.
    + rewrite (bool_decide_ext (j ∈ ks ++ [k]) (j ∈ ks)) by set_solver. exact Hl.
  - destruct He1 as [Hpos Hr1].
    destruct (load_key_step db ks db' k o o' dbs cur Hok Ho Heq Hkks Ee Hdb Hl) as (db1 & Hst & Hl1).
    destruct (Hl2 (<[Z.to_nat cur := db1]> dbs) cur (ks ++ [k]) db1) as (n & db2 & Hls & Hl3); [|done|done|].
    { apply list_lookup_insert_eq. by eapply lookup_lt_Some. }
    rewrite list_insert_insert_eq in Hls. exists (S n), db2. split; [|done].
    econstructor; [exact Hpos|by apply Hr1|exact Hls].
Qed.
Definition empty_db : redisDb V := RedisDb ∅ ∅.

Lemma loaded_keys_nil db : loaded_keys db [] empty_db.
Proof. intros k. by rewrite bool_decide_eq_false_2 by set_solver. Qed.

Lemma loaded_keys_all db db' :
  loaded_keys db (iteration (db_dict db)).*1 db' → db_loaded db db'.
Proof.
  intros Hl k. specialize (Hl k).
  assert (k ∈ (iteration (db_dict db)).*1 ↔ is_Some (db_dict db !! k)) as Hin.
  { rewrite iteration_perm. rewrite list_elem_of_fmap. split.
    - intros ([k' o] & -> & Ho). apply elem_of_map_to_list in Ho. by eexists.
    - intros [o Ho]. exists (k, o). split; [done|]. by apply elem_of_map_to_list. }
  rewrite (bool_decide_ext _ _ Hin) in Hl. destruct (db_dict db !! k) as [o|] eqn:Ek.
  - rewrite bool_decide_eq_true_2 in Hl by done. cbn [andb] in Hl. destruct (keeps db k); [|done].
    destruct Hl as (o1 & o' & [= <-] & ? & ? & ?). by exists o'.
  - by rewrite bool_decide_eq_false_2 in Hl by (by intros [? ?]).
Qed.

Lemma load_select dbs cur j :
  0 ≤ j < zlen dbs → zlen dbs < 2 ^ 31 →
  reads (D := D) (load_body (host := host2) cfg2 now2 (dbs, cur)) ([REDIS_RDB_OPCODE_SELECTDB] ++ len_bytes j) (inl (dbs, j)).
Proof.
  intros Hj Hl. unfold load_body. eapply reads_bind; [apply load_type_plain; by right; left|]. cbv beta iota.
  change (REDIS_RDB_OPCODE_SELECTDB =? REDIS_RDB_OPCODE_EOF) with false.
  change (REDIS_RDB_OPCODE_SELECTDB =? REDIS_RDB_OPCODE_SELECTDB) with true. cbv iota.
  eapply reads_bind_nil; [apply rdbLoadLen_reads; lia|]. cbn [fst].
  destruct (j =? REDIS_RDB_LENERR) eqn:E1; [unfold REDIS_RDB_LENERR in E1; lia|].
  destruct (j >=? zlen dbs) eqn:E2; [lia|]. apply reads_ret.
Qed.

Lemma save_dbs_load dbs j :
  Forall db_ok dbs → Forall same_order dbs → 0 ≤ j → j + zlen dbs < 2 ^ 31 →
  ∃ e, writes (D := D) (save_dbs (host := host1) cfg1 j dbs now1) e 0 ∧
    ∀ pre cur, zlen pre = j → ∃ n dbs' cur',
      loads n (pre ++ replicate (length dbs) empty_db, cur) e (pre ++ dbs', cur') ∧ Forall2 db_loaded dbs dbs'.
Proof.
  intros Hok Hord. revert j Hord. induction Hok as [|db dbs Hdb Hok IH]; intros j Hord Hj Hl.
  { exists []. split; [apply writes_ret|]. intros pre cur _. exists 0%nat, [], cur. split; [constructor|done]. }
  apply Forall_cons in Hord as [Hod Hord]. cbn [length] in Hl.
  destruct (IH (j + 1) Hord) as (e2 & Hw2 & Hl2); [lia|lia|]. cbn [save_dbs].
  destruct (size (db_dict db) =? 0)%nat eqn:E.
  { apply Nat.eqb_eq, map_size_empty_inv in E. exists e2. split.
    - apply (writes_bind _ _ [] 0 e2); [done|apply writes_ret|exact Hw2].
    - intros pre cur Hpre. destruct (Hl2 (pre ++ [empty_db]) cur) as (n & dbs' & cur' & Hls & Hf).
      { rewrite length_app. simpl. lia. }
      rewrite <-!app_assoc in Hls. exists n, (empty_db :: dbs'), cur'. split; [exact Hls|]. constructor; [|done].
      intros k. by rewrite E, lookup_empty. }
  destruct (save_entries_load db (iteration (db_dict db)) Hdb Hod) as (e1 & Hw1 & Hl1).
  { rewrite iteration_perm. apply NoDup_fst_map_to_list. }
  { intros k o. rewrite iteration_perm. apply elem_of_map_to_list. }
  exists (([REDIS_RDB_OPCODE_SELECTDB] ++ len_bytes j ++ e1) ++ e2). pose proof (length_len_bytes j). split.
  - apply (writes_bind _ _ _ 0); [done| |exact Hw2].
    eapply writes_bind; [|by apply rdbSaveType_writes|]; [done|].
    eapply writes_bind; [|apply rdbSaveLen_writes; lia|exact Hw1]. lia.
  - intros pre cur Hpre. cbn [length replicate].
    set (st0 := pre ++ empty_db :: replicate (length dbs) empty_db).
    assert (zlen st0 = j + 1 + zlen dbs) as Hst0 by (unfold st0; rewrite length_app; cbn [length]; rewrite length_replicate; lia).
    destruct (Hl1 st0 j [] empty_db) as (n1 & db' & Hls1 & Hdb').
    { unfold st0. by rewrite list_lookup_middle by lia. }
    { apply loaded_keys_nil. }
    { set_solver. }
    assert (<[Z.to_nat j := db']> st0 = pre ++ db' :: replicate (length dbs) empty_db) as Hins.
    { unfold st0. rewrite insert_app_r_alt by lia. by replace (Z.to_nat j - length pre)%nat with 0%nat by lia. }
    rewrite Hins in Hls1. destruct (Hl2 (pre ++ [db']) j) as (n2 & dbs' & cur' & Hls2 & Hf).
    { rewrite length_app. simpl. lia. }
    rewrite <-!app_assoc in Hls2. exists (S n1 + n2)%nat, (db' :: dbs'), cur'. split; [|constructor; [|done]].
    + eapply loads_app; [|exact Hls2]. rewrite app_assoc. econstructor; [simpl; lia|apply load_select; lia|exact Hls1].
    + apply loaded_keys_all. exact Hdb'.
Qed.

(** ** The dump *)

(** What is checksummed: the magic string, the databases, the end. *)
Definition dump_of (body : bytes) : bytes :=
  body ++ le_enc 8 (if rdb_checksum cfg1 then crc64_ref 0 body else 0).

Lemma save_cksum_run r t :
  0 ≤ max_processing_chunk r → dev_out (io r) t → in_u 64 (cksum r) → zlen t + 8 < 2 ^ 31 →
  ∃ r', save_cksum (host := host1) (Some r) = Some (Some r', 0) ∧ dev_out (io r') (t ++ le_enc 8 (cksum r)).
Proof.
  intros Hm Ht Hc Hl. unfold save_cksum. rewrite bind_Some_eq.
  pose proof (@store_le host1 8 [] [] (cksum r)) as Hst. rewrite !app_nil_r in Hst. cbn [app length memrev_ifbe] in Hst.
  change (Z.of_nat 0) with 0 in Hst. rewrite Hst, bind_Some_eq by (by right; right).
  destruct (rioWrite_run r t (le_enc 8 (cksum r)) Hm Ht) as (r' & -> & Hout & _);
    [apply le_enc_bytes|rewrite length_le_enc; lia|]. rewrite bind_Some_eq. by exists r'.
Qed.

Lemma verify_cksum_run r c ver rest :
  0 ≤ max_processing_chunk r → dev_in (io r) (le_enc 8 c ++ rest) → in_u 64 c →
  (rdb_checksum cfg2 = true → c = 0 ∨ c = cksum r) →
  ∃ r', verify_cksum (D := D) (host := host2) cfg2 ver r = Some (inl (r', tt)) ∧
    (ver = REDIS_RDB_VERSION → rdb_checksum cfg2 = true → dev_in (io r') rest).
Proof.
  intros Hm Hin Hc Hcase. unfold verify_cksum. destruct ((ver >=? 5) && rdb_checksum cfg2) eqn:E.
  2:{ exists r. split; [done|]. intros -> Hck. by rewrite Hck in E. }
  unfold bindL at 1, get_cksum. rewrite bind_Some_eq. cbv beta iota. unfold bindL at 1.
  destruct (needL_reads _ _ _ (reads_read (D := D) (le_enc 8 c) 8 ltac:(by rewrite length_le_enc)) (le_enc_bytes 8 c) r rest Hm Hin)
    as (r' & -> & Hin' & _). rewrite bind_Some_eq. cbv beta iota.
  pose proof (@load_le host2 8 c ltac:(by right; right)) as Hld. cbn [memrev_ifbe] in Hld.
  unfold liftL. destruct (memrev64ifbe (le_enc 8 c) 0) as [b|]; [|done]. cbn in Hld. injection Hld as Hld.
  rewrite bind_Some_eq, Hld, wrap_small by done. destruct (c =? 0) eqn:E0; [by exists r'|].
  apply andb_true_iff in E as [_ E]. destruct (Hcase E) as [-> | ->]; [done|]. rewrite Z.eqb_refl. by exists r'.
Qed.

Lemma rdb_save_load_run dbs :
  Forall db_ok dbs → Forall same_order dbs → zlen dbs < 2 ^ 31 →
  ∃ body, is_bytes body ∧
    (∀ r, 0 ≤ max_processing_chunk r → dev_out (io r) [] → cksum r = 0 → update_cksum r = false →
       zlen (dump_of body) < 2 ^ 31 →
       ∃ r', rdbSaveRio (host := host1) cfg1 dbs now1 (Some r) = Some (Some r', 0) ∧ dev_out (io r') (dump_of body)) ∧
    (∀ d rest fuel, dev_in d (dump_of body ++ rest) → (length body < fuel)%nat →
       0 ≤ loading_process_events_interval_bytes cfg2 →
       ∃ r' dbs', rdbLoad (host := host2) cfg2 fuel d (replicate (length dbs) empty_db) now2 = Some (inl (r', Some dbs')) ∧
         Forall2 db_loaded dbs dbs' ∧ (rdb_checksum cfg2 = true → dev_in (io r') rest)).
Proof.
  intros Hok Hord Hl. destruct (save_dbs_load dbs 0 Hok Hord) as (e & Hw & Hld); [lia|lia|].
  destruct (Hld [] 0 eq_refl) as (n & dbs' & cur' & Hls & Hf). clear Hld. cbn [app] in Hls.
  assert (is_bytes rdb_magic) as Hmb by (by repeat constructor).
  assert (writes (D := D) (n <- rdbWriteRaw rdb_magic ;; n <- save_dbs (host := host1) cfg1 0 dbs now1 ;; rdbSaveType REDIS_RDB_OPCODE_EOF)
    (rdb_magic ++ e ++ [REDIS_RDB_OPCODE_EOF]) 1) as Hwb.
  { eapply writes_bind; [|by apply writes_raw|]; [done|]. eapply writes_bind; [|exact Hw|by apply rdbSaveType_writes]. done. }
  set (body := rdb_magic ++ e ++ [REDIS_RDB_OPCODE_EOF]) in *.
  assert (is_bytes body) as Hbb by apply Hwb.
  exists body. split; [done|]. split.
  - intros r Hm Hout Hc Hu Hlen. unfold rdbSaveRio. rewrite bind_Some_eq.
    set (r0 := if rdb_checksum cfg1 then set_update_cksum r true else r).
    assert (io r0 = io r ∧ max_processing_chunk r0 = max_processing_chunk r ∧ cksum r0 = 0 ∧
      update_cksum r0 = rdb_checksum cfg1) as (Hio & Hm0 & Hc0 & Hu0).
    { unfold r0. by destruct (rdb_checksum cfg1). }
    unfold dump_of in Hlen. rewrite length_app, length_le_enc in Hlen.
    destruct Hwb as (_ & _ & Hwb). destruct (Hwb r0 []) as (r1 & Hrun & Hout1 & Hp); [lia|by rewrite Hio|cbn [length]; lia|].
    cbn [app] in Hout1. pose proof Hp as (Hc1 & _ & Hm1 & _).
    assert (cksum r1 = if rdb_checksum cfg1 then crc64_ref 0 body else 0) as Hck.
    { rewrite Hc1. unfold cksum_after. by rewrite Hu0, Hc0. }
    destruct (save_cksum_run r1 body) as (r2 & Hrun2 & Hout2); [lia|done| |lia|].
    { rewrite Hck. destruct (rdb_checksum cfg1); [by apply crc64_ref_range|done]. }
    exists r2. split; [|unfold dump_of; by rewrite <-Hck].
    revert Hrun. unfold bindW. destruct (rdbWriteRaw rdb_magic (Some r0)) as [[q1 m1]|]; [|done]. rewrite !bind_Some_eq.
    destruct (m1 =? -1); [done|]. destruct (save_dbs _ _ _ _ q1) as [[q2 m2]|]; [|done]. rewrite !bind_Some_eq.
    destruct (m2 =? -1); [done|]. intros ->. rewrite bind_Some_eq. exact Hrun2.
  - intros d rest fuel Hin Hfuel Hint. unfold rdbLoad.
    set (r := Rio d (rdb_checksum cfg2) 0 0 (loading_process_events_interval_bytes cfg2)).
    pose proof (loads_length _ _ _ _ Hls) as Hnl.
    unfold dump_of in Hin. rewrite <-app_assoc in Hin. unfold body in Hin at 1. rewrite <-app_assoc in Hin.
    unfold rdbLoadRio, bindL at 1.
    destruct (needL_reads _ _ _ (reads_read (D := D) rdb_magic 9 eq_refl) Hmb r _ Hint Hin) as (r1 & -> & Hin1 & Hp1).
    rewrite bind_Some_eq. change (negb (bool_decide (take 5 rdb_magic = [82; 69; 68; 73; 83]))) with false. cbv beta iota.
    unfold liftL at 1. change (atoi (drop 5 rdb_magic ++ [0])) with (Some 6). rewrite bind_Some_eq.
    change ((6 <? 1) || (6 >? REDIS_RDB_VERSION)) with false. cbv iota. unfold bindL at 1.
    assert (length body = (length e + 10)%nat) as Hbl by (unfold body; rewrite !length_app; simpl; lia).
    assert (is_bytes (e ++ [REDIS_RDB_OPCODE_EOF])) as Heb by (by apply Forall_app in Hbb as [_ ?]).
    destruct (load_loop_reads n fuel _ e _ Hls ltac:(lia) Heb r1 _ (passed_chunk _ _ _ Hp1 Hint) Hin1) as (r2 & -> & Hin2 & Hp2).
    rewrite bind_Some_eq. cbv beta iota. unfold bindL at 1.
    pose proof (passed_trans _ _ _ _ _ Hp1 Hp2) as Hp. fold body in Hp. pose proof Hp as (Hc2 & _ & _ & _).
    destruct (verify_cksum_run r2 (if rdb_checksum cfg1 then crc64_ref 0 body else 0) 6 rest) as (r3 & -> & Hin3);
      [by eapply passed_chunk|exact Hin2| | |].
    { destruct (rdb_checksum cfg1); [by apply crc64_ref_range|done]. }
    { intros Hck. rewrite Hc2. unfold cksum_after. cbn [update_cksum cksum r]. rewrite Hck.
      destruct (rdb_checksum cfg1); [by right|by left]. }
    rewrite bind_Some_eq. cbn [fst]. exists r3, dbs'. split; [done|]. split; [exact Hf|]. by apply Hin3.
Qed.
End dump.
