(* ===== verification/RdbParse.v ===== *)
(** * Loading arbitrary bytes

    Where [RdbFormat] says that what was saved is loaded, this file goes the
    other way: a function that loads anything good from a stream has read some
    bytes from its front, and reads the same from every stream with these bytes
    ([parses]).  So a dump that is accepted carries the right checksum, and no
    part of a dump is taken for the whole. *)

From S2P Require Import Prelude Endian Util Lzf Glob Crc Object Sds SdsText Rio Rdb RdbFormat RdbDump.

#[local] Open Scope Z_scope.
#[local] Open Scope rdb_scope.

(** ** Combinators *)

Section combinators.
Context {D : Type} `{!Device D} `{!DeviceLaws D}.

(** The results in [good] come from bytes read, and have the property [post]. *)
Definition parses {A} (p : L D A) (good post : A → Prop) : Prop :=
  ∀ r l r' a, 0 ≤ max_processing_chunk r → is_bytes l → dev_in (io r) l → p r = Some (inl (r', a)) → good a →
    post a ∧ ∃ bs rest, l = bs ++ rest ∧ reads p bs a.

(** [p] has no result in [good]. *)
Definition never {A} (p : L D A) (good : A → Prop) : Prop :=
  ∀ r r' a, p r = Some (inl (r', a)) → ¬ good a.

Definition any {A} (a : A) : Prop := True.

Lemma never_ret {A} (a : A) (good : A → Prop) : ¬ good a → never (retL a : L D A) good.
Proof. by intros Ha r r' a' [= _ <-]. Qed.

Lemma never_die {A} e (good : A → Prop) : never (dieL e : L D A) good.
Proof. by intros r r' a [=]. Qed.

Lemma parses_die {A} e (good post : A → Prop) : parses (dieL e : L D A) good post.
Proof. by intros r l r' a _ _ _ [=]. Qed.

Lemma parses_ret {A} (a : A) (good post : A → Prop) : (good a → post a) → parses (retL a : L D A) good post.
Proof.
  intros Ha r l r' a' _ _ _ [= _ <-] Hg. split; [by apply Ha|]. exists [], l. split; [done|apply reads_ret].
Qed.

Lemma parses_lift {A B} (x : option A) (k : A → L D B) good post :
  (∀ a, x = Some a → parses (k a) good post) → parses (liftL x k) good post.
Proof.
  intros Hk r l r' b Hm Hl Hin Hrun Hg. unfold liftL in Hrun. destruct x as [a|] eqn:Ex; [|done].
  rewrite bind_Some_eq in Hrun. exact (Hk a eq_refl r l r' b Hm Hl Hin Hrun Hg).
Qed.

(** What reading did is determined by what it returns. *)
Lemma reads_inl {A} (p : L D A) bs a r r' rest :
  reads p bs a → is_bytes bs → 0 ≤ max_processing_chunk r → dev_in (io r) (bs ++ rest) →
  p r = Some (inl (r', a)) → dev_in (io r') rest ∧ passed r r' bs.
Proof.
  intros Hp Hb Hm Hin Hrun. destruct (Hp Hb r rest Hm Hin) as (r1 & Hrun1 & Hin1 & Hp1).
  rewrite Hrun in Hrun1. injection Hrun1 as ->. by split.
Qed.

Lemma parses_bind {A B} (p : L D A) (k : A → L D B) g1 q1 good post :
  parses p g1 q1 → (∀ a, g1 a → q1 a → parses (k a) good post) → (∀ a, g1 a ∨ never (k a) good) →
  parses (bindL p k) good post.
Proof.
  intros Hp Hk Hn r l r' b Hm Hl Hin Hrun Hg. unfold bindL in Hrun.
  destruct (p r) as [[[r1 a]|e]|] eqn:Er; [rewrite bind_Some_eq in Hrun|done|done].
  destruct (Hn a) as [Ha|Ha]; [|by destruct (Ha _ _ _ Hrun)].
  destruct (Hp r l r1 a Hm Hl Hin Er Ha) as (Hq & b1 & rest & -> & Hr1). apply Forall_app in Hl as [Hb1 Hrest].
  destruct (reads_inl _ _ _ _ _ _ Hr1 Hb1 Hm Hin Er) as [Hin1 Hp1].
  destruct (Hk a Ha Hq r1 rest r' b (passed_chunk _ _ _ Hp1 Hm) Hrest Hin1 Hrun Hg) as (Hpost & b2 & rest2 & -> & Hr2).
  split; [done|]. exists (b1 ++ b2), rest2. split; [by rewrite app_assoc|]. by eapply reads_bind.
Qed.

(** When every result of the first part goes on. *)
Lemma parses_seq {A B} (p : L D A) (k : A → L D B) q1 good post :
  parses p any q1 → (∀ a, q1 a → parses (k a) good post) → parses (bindL p k) good post.
Proof.
  intros Hp Hk. apply (parses_bind p k any q1); [exact Hp|by auto|]. intros a. by left.
Qed.

Lemma parses_weaken {A} (p : L D A) (g q g' q' : A → Prop) :
  parses p g q → (∀ a, g' a → g a) → (∀ a, g' a → q a → q' a) → parses p g' q'.
Proof.
  intros Hp Hg Hq r l r' a Hm Hl Hin Hrun Ha. destruct (Hp r l r' a Hm Hl Hin Hrun (Hg a Ha)) as [Hqa Hr].
  split; [by apply Hq|exact Hr].
Qed.

Lemma parses_read n :
  0 ≤ n < 2 ^ 64 → parses (rdbRead n) is_Some (λ b, ∃ bs, b = Some bs ∧ is_bytes bs ∧ zlen bs = n).
Proof.
  intros Hn r l r' a Hm Hl Hin Hrun Ha. unfold rdbRead in Hrun. destruct (decide (zlen l < n)) as [Hlt|Hge].
  { destruct (rioRead_short r l n Hm Hin Hl) as (r1 & _ & _ & Hr1 & _); [lia|]. rewrite Hr1, bind_Some_eq in Hrun.
    injection Hrun as <- <-. by destruct Ha. }
  set (bs := take (Z.to_nat n) l).
  assert (zlen bs = n) as Hbl by (unfold bs; rewrite length_take; lia).
  assert (l = bs ++ drop (Z.to_nat n) l) as Hsplit by (unfold bs; by rewrite take_drop).
  assert (is_bytes bs) as Hbb by (rewrite Hsplit in Hl; by apply Forall_app in Hl as [? _]).
  rewrite Hsplit in Hin. destruct (rioRead_run r bs _ Hm Hin Hbb) as (r1 & Hr1 & _). rewrite Hbl in Hr1.
  rewrite Hr1, bind_Some_eq in Hrun. injection Hrun as <- <-. split; [by exists bs|].
  exists bs, (drop (Z.to_nat n) l). split; [done|]. by apply reads_read.
Qed.

(** A call that must not fail. *)
Lemma parses_needL {A} (p : L D (option A)) (q : option A → Prop) :
  parses p is_Some q → parses (needL p) any (λ a, q (Some a)).
Proof.
  intros Hp. unfold needL. eapply parses_bind; [exact Hp| |].
  - intros a [x ->] Hq. by apply parses_ret.
  - intros [a|]; [left; by eexists|right; apply never_die].
Qed.
End combinators.


(** The step past a read: [b] is what was read, or the read failed. *)
Ltac parse_read b Hb Hl :=
  eapply parses_bind; [apply parses_read; try lia|intros _ _ (b & -> & Hb & Hl); cbv beta iota|
    intros [?|]; [left; by eexists|right; cbv beta iota]].

Lemma rd1_byte bs i c : is_bytes bs → rd1 bs i = Some c → in_u 8 c.
Proof.
  intros Hb Hc. unfold rd1 in Hc. destruct (0 <=? i); [|done]. eapply (Forall_lookup_1 (in_u 8)); [exact Hb|exact Hc].
Qed.

(** ** Strings *)

Section strings.
Context {D : Type} `{!Device D} `{!DeviceLaws D} {alloc : Allocator} {mem : ProcessMemory}.

(** The length, or the number of the encoding. *)
Definition len_good (x : Z * bool) : Prop := x.1 ≠ REDIS_RDB_LENERR.
Definition len_range (x : Z * bool) : Prop := 0 ≤ x.1 < 2 ^ 32.

Lemma rdbLoadLen_parses : parses (D := D) rdbLoadLen len_good len_range.
Proof.
  unfold rdbLoadLen. parse_read b Hb Hl; [|apply never_ret; intros H; by apply H].
  apply parses_lift. intros c Hc. apply (rd1_byte _ _ _ Hb) in Hc. destruct (len_byte c Hc) as [-> ->].
  assert (0 ≤ c mod 64 < 64) as Hm by dlia.
  destruct (_ =? REDIS_RDB_ENCVAL); [apply parses_ret; intros _; unfold len_range; cbn [fst]; lia|].
  destruct (_ =? REDIS_RDB_6BITLEN); [apply parses_ret; intros _; unfold len_range; cbn [fst]; lia|].
  destruct (_ =? REDIS_RDB_14BITLEN).
  - parse_read b2 Hb2 Hl2; [|apply never_ret; intros H; by apply H].
    apply parses_lift. intros c2 Hc2. apply (rd1_byte _ _ _ Hb2) in Hc2. apply parses_ret. intros _.
    rewrite lor_shift_byte by done. unfold len_range, in_u in *. cbn [fst]. lia.
  - parse_read b2 Hb2 Hl2; [|apply never_ret; intros H; by apply H].
    apply parses_ret. intros _. unfold len_range, ntohl_bytes. cbn [fst].
    pose proof (le_dec_range (reverse b2) (reverse_bytes _ Hb2)) as Hr.
    rewrite length_reverse in Hr. by replace (length b2) with 4%nat in Hr by lia.
Qed.

Lemma rdbLoadIntegerObject_parses e encode : parses (D := D) (rdbLoadIntegerObject e encode) is_Some any.
Proof.
  unfold rdbLoadIntegerObject. destruct (negb _); [apply parses_die|].
  parse_read b Hb Hl; [destruct (_ =? REDIS_RDB_ENC_INT8); [|destruct (_ =? REDIS_RDB_ENC_INT16)]; lia| |apply never_ret; by intros [? ?]].
  cbv zeta. by destruct encode; apply parses_lift; intros o _; apply parses_ret.
Qed.

Lemma rdbLoadLzf_parses : parses (D := D) rdbLoadLzfStringObject is_Some any.
Proof.
  unfold rdbLoadLzfStringObject.
  eapply parses_bind; [apply rdbLoadLen_parses|intros [clen e] Hg Hr|intros [clen e]]; unfold len_good, len_range in *; cbn [fst] in *.
  2:{ destruct (Z.eqb_spec clen REDIS_RDB_LENERR); [right; apply never_ret; by intros [? ?]|by left]. }
  destruct (Z.eqb_spec clen REDIS_RDB_LENERR); [done|].
  eapply parses_bind; [apply rdbLoadLen_parses|intros [len e'] Hg' Hr'|intros [len e']]; unfold len_good, len_range in *; cbn [fst] in *.
  2:{ destruct (Z.eqb_spec len REDIS_RDB_LENERR); [right; apply never_ret; by intros [? ?]|by left]. }
  destruct (Z.eqb_spec len REDIS_RDB_LENERR); [done|]. apply parses_lift. intros val _.
  parse_read b Hb Hl; [|apply never_ret; by intros [? ?]].
  apply parses_lift. intros dst _. apply parses_lift. intros [[k out]|err] _; [|apply parses_ret; by intros [? ?]].
  destruct (k =? 0); by apply parses_ret.
Qed.

Lemma rdbGenericLoad_parses encode : parses (D := D) (rdbGenericLoadStringObject encode) is_Some any.
Proof.
  unfold rdbGenericLoadStringObject.
  eapply parses_bind; [apply rdbLoadLen_parses|intros [len enc] Hg Hr|intros [len enc]]; unfold len_good, len_range in *; cbn [fst] in *.
  - destruct enc.
    + destruct (_ || _); [apply rdbLoadIntegerObject_parses|].
      destruct (len =? REDIS_RDB_ENC_LZF); [apply rdbLoadLzf_parses|apply parses_die].
    + destruct (Z.eqb_spec len REDIS_RDB_LENERR); [done|]. destruct (len =? 0); [by apply parses_ret|].
      parse_read b Hb Hl; [by apply parses_ret|apply never_ret; by intros [? ?]].
  - destruct (Z.eqb_spec len REDIS_RDB_LENERR) as [->|]; [right|by left].
    destruct enc; [apply never_die|apply never_ret; by intros [? ?]].
Qed.
End strings.

(** ** Values *)

(** What loading arbitrary bytes needs from a type of values. *)
Class ValueParser (D V : Type) `{!Device D} `{!DeviceLaws D} `{!Value D V} :=
  value_parses t : parses (rdbLoadObject t) is_Some any.

#[export] Instance string_value_parser {D} `{!Device D} `{!DeviceLaws D} {alloc : Allocator} {mem : ProcessMemory}
    (cfg : config) : ValueParser D robj (Value0 := string_value cfg).
Proof.
  intros t. cbn [rdbLoadObject string_value]. unfold load_string_value. destruct (_ =? _); [|apply parses_die].
  eapply parses_bind; [apply rdbGenericLoad_parses|intros _ [o ->] _|intros [o|]; [left; by eexists|right]].
  - apply parses_lift. intros o' _. by apply parses_ret.
  - apply never_ret. by intros [? ?].
Qed.

(** ** The loop *)

Section dump.
Context {D V : Type} `{!Device D} `{!DeviceLaws D} `{!Value D V} `{!ValueParser D V}.
Context {alloc : Allocator} {host : Host} (cfg : config) (now : Z).

Lemma needTypeL_parses : parses (D := D) needTypeL any any.
Proof.
  unfold needTypeL. eapply (parses_bind _ _ (λ t, t ≠ -1) any).
  - unfold rdbLoadType. parse_read b Hb Hl; [|apply never_ret; intros Hne; by apply Hne]. apply parses_lift. intros t _. by apply parses_ret.
  - intros t Ht _. destruct (Z.eqb_spec t (-1)); [done|]. by apply parses_ret.
  - intros t. destruct (Z.eqb_spec t (-1)); [right; apply never_die|by left].
Qed.

Lemma load_type_parses : parses (D := D) load_type any any.
Proof.
  unfold load_type. eapply parses_seq; [apply needTypeL_parses|intros type _].
  assert (∀ (p : L D Z) (f : Z → Z), parses p (λ t, t ≠ -1) any →
    parses (t <-- p ;; if t =? -1 then dieL ShortRead else type <-- needTypeL ;; retL (type, f t)) any any) as Hgo.
  { intros p f Hp. eapply parses_bind; [exact Hp|intros t Ht _|intros t].
    - destruct (Z.eqb_spec t (-1)); [done|]. eapply parses_seq; [apply needTypeL_parses|intros ty _]. by apply parses_ret.
    - destruct (Z.eqb_spec t (-1)); [right; apply never_die|by left]. }
  destruct (_ =? _); [|destruct (_ =? _); [|by apply parses_ret]].
  - apply (Hgo _ (λ t, s64 (t * 1000))). unfold rdbLoadTime. parse_read b Hb Hl; [by apply parses_ret|apply never_ret; intros Hne; by apply Hne].
  - apply (Hgo _ (λ t, t)). unfold rdbLoadMillisecondTime.
    parse_read b Hb Hl; [by apply parses_ret|apply never_ret; intros Hne; by apply Hne].
Qed.

Lemma load_body_parses (st : load_state (V := V)) : parses (load_body cfg now st) any any.
Proof.
  destruct st as [dbs cur]. unfold load_body. eapply parses_seq; [apply load_type_parses|intros [t ex] _].
  destruct (t =? _); [by apply parses_ret|]. destruct (t =? _).
  { eapply parses_bind; [apply rdbLoadLen_parses|intros [len e] Hg _|intros [len e]]; unfold len_good in *; cbn [fst] in *.
    - destruct (Z.eqb_spec len REDIS_RDB_LENERR); [done|]. destruct (_ >=? _); [apply parses_die|by apply parses_ret].
    - destruct (Z.eqb_spec len REDIS_RDB_LENERR); [right; apply never_die|by left]. }
  eapply parses_seq; [apply parses_needL, rdbGenericLoad_parses|intros key _].
  eapply parses_seq; [apply parses_needL, value_parses|intros val _].
  destruct (_ && _); [by apply parses_ret|]. apply parses_lift. intros k _. apply parses_lift. intros db _.
  destruct (load_key_into db k val ex); [by apply parses_ret|apply parses_die].
Qed.

Lemma load_loop_parses fuel (st : load_state (V := V)) : parses (load_loop cfg fuel now st) any any.
Proof.
  revert st. induction fuel as [|fuel IH]; intros st; [by intros r l r' a _ _ _ [=]|]. cbn [load_loop].
  eapply parses_seq; [apply load_body_parses|]. intros [st'|st'] _; [apply IH|by apply parses_ret].
Qed.

(** More fuel changes nothing. *)
Lemma load_loop_fuel fuel fuel' (st : load_state (V := V)) r x :
  (fuel ≤ fuel')%nat → load_loop cfg fuel now st r = Some x → load_loop (D := D) cfg fuel' now st r = Some x.
Proof.
  revert fuel' st r. induction fuel as [|fuel IH]; intros fuel' st r Hf; [done|].
  destruct fuel' as [|fuel']; [lia|]. cbn [load_loop]. unfold bindL.
  destruct (load_body cfg now st r) as [[[r1 [st'|st']]|e]|]; rewrite ?bind_Some_eq; try done.
  apply IH. lia.
Qed.

(** ** The whole dump *)

Lemma needL_read_inv n l r r' b :
  0 ≤ n < 2 ^ 64 → 0 ≤ max_processing_chunk r → is_bytes l → dev_in (io r) l →
  needL (rdbRead n) r = Some (inl (r', b)) →
  ∃ rest, l = b ++ rest ∧ zlen b = n ∧ dev_in (io r') rest ∧ passed r r' b.
Proof.
  intros Hn Hm Hl Hin Hrun. destruct (decide (zlen l < n)) as [Hlt|Hge].
  { destruct (rioRead_short r l n Hm Hin Hl) as (r1 & _ & _ & Hr1 & _); [lia|].
    unfold needL, bindL, rdbRead in Hrun. by rewrite Hr1, !bind_Some_eq in Hrun. }
  set (bs := take (Z.to_nat n) l).
  assert (zlen bs = n) as Hbl by (unfold bs; rewrite length_take; lia).
  assert (l = bs ++ drop (Z.to_nat n) l) as Hsplit by (unfold bs; by rewrite take_drop).
  assert (is_bytes bs) as Hbb by (rewrite Hsplit in Hl; by apply Forall_app in Hl as [? _]).
  rewrite Hsplit in Hin.
  destruct (needL_reads _ _ _ (reads_read (D := D) bs n (eq_sym Hbl)) Hbb r _ Hm Hin) as (r1 & Hr1 & Hin1 & Hp1).
  rewrite Hrun in Hr1. injection Hr1 as <- <-. by eexists.
Qed.

Lemma verify_cksum_inv r l ver r' x :
  0 ≤ max_processing_chunk r → is_bytes l → dev_in (io r) l → 5 ≤ ver → rdb_checksum cfg = true →
  verify_cksum (D := D) cfg ver r = Some (inl (r', x)) →
  ∃ c rest, l = le_enc 8 c ++ rest ∧ in_u 64 c ∧ (c = 0 ∨ c = cksum r) ∧ dev_in (io r') rest.
Proof.
  intros Hm Hl Hin Hver Hck. unfold verify_cksum. rewrite Hck. destruct (ver >=? 5) eqn:E; [clear E|lia]. cbn [andb].
  unfold bindL at 1, get_cksum. rewrite bind_Some_eq. cbv beta iota. unfold bindL at 1.
  destruct (needL (rdbRead 8) r) as [[[r1 b]|e]|] eqn:E1; rewrite ?bind_Some_eq; try done.
  destruct (needL_read_inv 8 l r r1 b) as (rest & -> & Hbl & Hin1 & Hp1); [lia|done..|].
  apply Forall_app in Hl as [Hb _]. assert (b = le_enc 8 (le_dec b)) as Hbe.
  { replace 8%nat with (length b) by lia. by rewrite le_enc_dec. }
  assert (in_u 64 (le_dec b)) as Hc.
  { pose proof (le_dec_range b Hb) as Hr. by replace (length b) with 8%nat in Hr by lia. }
  pose proof (@load_le host 8 (le_dec b) ltac:(by right; right)) as Hld. rewrite <-Hbe in Hld. cbn [memrev_ifbe] in Hld.
  unfold liftL. destruct (memrev64ifbe b 0) as [b'|]; [|done]. cbn in Hld. injection Hld as Hld.
  rewrite bind_Some_eq, Hld, wrap_small by done. intros Hrun. exists (le_dec b), rest.
  rewrite <-Hbe. split; [done|]. split; [done|].
  destruct (Z.eqb_spec (le_dec b) 0) as [Hz|Hz]; [injection Hrun as <- _; split; [by left|done]|].
  destruct (Z.eqb_spec (le_dec b) (cksum r)) as [He|He]; [|done]. injection Hrun as <- _. split; [by right|done].
Qed.

(** An accepted stream: the magic string and the version, the databases, and a
    checksum that is 0 or right. *)
Lemma rdbLoad_inv fuel d l dbs r' dbs' :
  is_bytes l → dev_in d l → 0 ≤ loading_process_events_interval_bytes cfg → rdb_checksum cfg = true →
  rdbLoad cfg fuel d dbs now = Some (inl (r', Some dbs')) →
  ∃ head body rest ver cur,
    l = head ++ body ++ rest ∧ is_bytes (head ++ body) ∧ zlen head = 9 ∧ take 5 head = [82; 69; 68; 73; 83] ∧
    atoi (drop 5 head ++ [0]) = Some ver ∧ 1 ≤ ver ≤ REDIS_RDB_VERSION ∧
    reads (load_loop (D := D) cfg fuel now (dbs, 0)) body (dbs', cur) ∧
    (5 ≤ ver → ∃ c rest', rest = le_enc 8 c ++ rest' ∧ in_u 64 c ∧ (c = 0 ∨ c = crc64_ref 0 (head ++ body)) ∧
       dev_in (io r') rest').
Proof.
  intros Hl Hin Hint Hck. unfold rdbLoad. set (r := Rio d _ 0 0 _). unfold rdbLoadRio, bindL at 1.
  destruct (needL (rdbRead 9) r) as [[[r1 head]|e]|] eqn:E1; rewrite ?bind_Some_eq; try done.
  destruct (needL_read_inv 9 l r r1 head) as (rest1 & -> & Hhl & Hin1 & Hp1); [lia|done..|].
  case_bool_decide as Htake; [|done]. cbn [negb]. unfold liftL.
  destruct (atoi _) as [ver|] eqn:Ea; rewrite ?bind_Some_eq; [|done].
  destruct (_ || _) eqn:Ever; [done|]. unfold bindL at 1.
  destruct (load_loop cfg fuel now (dbs, 0) r1) as [[[r2 [dbs2 cur]]|e]|] eqn:E2; rewrite ?bind_Some_eq; try done.
  assert (0 ≤ max_processing_chunk r1) as Hm1 by by eapply passed_chunk.
  apply Forall_app in Hl as [Hhb Hrb].
  destruct (load_loop_parses fuel (dbs, 0) r1 rest1 r2 (dbs2, cur) Hm1 Hrb Hin1 E2 I) as (_ & body & rest & -> & Hr).
  apply Forall_app in Hrb as [Hbb Hrb]. destruct (reads_inl _ _ _ _ _ _ Hr Hbb Hm1 Hin1 E2) as [Hin2 Hp2].
  unfold bindL. destruct (verify_cksum cfg ver r2) as [[[r3 u]|e]|] eqn:E3; rewrite ?bind_Some_eq; try done.
  cbn [fst]. intros [= <- <-]. exists head, body, rest, ver, cur.
  split; [done|]. split; [by apply Forall_app|]. do 3 (split; [done|]). split; [lia|]. split; [done|]. intros Hver.
  destruct (verify_cksum_inv r2 rest ver r3 u) as (c & rest' & Hrest & Hc & Hcase & Hin3);
    [by eapply passed_chunk|done..|].
  exists c, rest'. split; [done|]. split; [done|]. split; [|done].
  destruct Hcase as [?|Hcase]; [by left|right]. pose proof (passed_trans _ _ _ _ _ Hp1 Hp2) as (Hcs & _).
  rewrite Hcase, Hcs. unfold cksum_after. cbn [update_cksum cksum r]. by rewrite Hck.
Qed.
End dump.
