(* ===== verification/RdbSafe.v ===== *)
(** * Loading arbitrary bytes is safe

    On any input the loader returns or ends the process, and it takes no more
    rounds than there are bytes; with one exception ([bad]): a compressed string
    whose compressed length is 0 makes [lzf_decompress] read behind its input. *)

From S2P Require Import Prelude Endian Util Lzf Glob Crc Object Sds SdsText Rio Rdb RdbFormat RdbDump RdbParse.

#[local] Open Scope Z_scope.
#[local] Open Scope rdb_scope.

(** A byte from which [rdbLoadLen] may read the length 0. *)
Definition zero_length (c : Z) : Prop := c = 0 ∨ c = 64 ∨ 128 ≤ c.

(** The header of a compressed string, and a compressed length that may be 0. *)
Definition bad (l : bytes) : Prop := ∃ pre c rest, l = pre ++ 195 :: c :: rest ∧ zero_length c.

Lemma bad_app pre l : bad l → bad (pre ++ l).
Proof. intros (pre' & c & rest & -> & Hc). exists (pre ++ pre'), c, rest. by rewrite <-app_assoc. Qed.

(** Objects that can exist. *)
Definition object_ok (o : robj) : Prop := match o with SdsObj t => is_bytes t | IntObj v => in_s 64 v end.

(** ** Combinators *)

Section combinators.
Context {D : Type} `{!Device D} `{!DeviceLaws D}.

(** With [l] left, the result [x] is undefined only when [ub l]; when it is a
    value, at least [n] bytes were taken and the value has [post]. *)
Definition run_ok {A} (ub : bytes → Prop) (n : nat) (post : A → Prop) (l : bytes) (x : option (rio D * A + death)) : Prop :=
  match x with
  | None => ub l
  | Some (inl (r', a)) =>
    post a ∧ ∃ bs l', l = bs ++ l' ∧ (n ≤ length bs)%nat ∧ dev_in (io r') l' ∧ 0 ≤ max_processing_chunk r'
  | Some (inr _) => True
  end.

Definition safe {A} (ub : bytes → Prop) (n : nat) (p : L D A) (post : A → Prop) : Prop :=
  ∀ r l, 0 ≤ max_processing_chunk r → is_bytes l → dev_in (io r) l → run_ok ub n post l (p r).

(** Behind the bytes [bs]. *)
Lemma run_ok_app {A} (ub ub' : bytes → Prop) n (post : A → Prop) bs l x :
  run_ok ub n post l x → (ub l → ub' (bs ++ l)) → run_ok ub' (length bs + n) post (bs ++ l) x.
Proof.
  intros Hx Hub. destruct x as [[[r a]|e]|]; cbn in *; [|done|by apply Hub].
  destruct Hx as (Ha & bs2 & l' & -> & Hn & Hin & Hm). split; [done|]. exists (bs ++ bs2), l'.
  rewrite <-app_assoc, length_app. split; [done|]. split; [lia|done].
Qed.

Lemma run_ok_weaken {A} (ub ub' : bytes → Prop) n n' (post post' : A → Prop) l x :
  run_ok ub n post l x → (ub l → ub' l) → (n' ≤ n)%nat → (∀ a, post a → post' a) → run_ok ub' n' post' l x.
Proof.
  intros Hx Hub Hn Hq. destruct x as [[[r a]|e]|]; cbn in *; [|done|by apply Hub].
  destruct Hx as (Ha & bs & l' & -> & Hn' & Hin & Hm). split; [by apply Hq|]. exists bs, l'. split; [done|]. split; [lia|done].
Qed.

Lemma safeL_ret {A} ub (a : A) (post : A → Prop) : post a → safe ub 0 (retL a) post.
Proof. intros Ha r l Hm Hl Hin. split; [done|]. exists [], l. by repeat split. Qed.

Lemma safeL_die {A} ub n e (post : A → Prop) : safe ub n (dieL e) post.
Proof. by intros r l Hm Hl Hin. Qed.

Lemma safeL_lift {A B} ub n (x : option A) a (k : A → L D B) post : x = Some a → safe ub n (k a) post → safe ub n (liftL x k) post.
Proof. by intros ->. Qed.

Lemma safeL_bind {A B} (ub : bytes → Prop) n m (p : L D A) (k : A → L D B) q post :
  (∀ pre l, ub l → ub (pre ++ l)) →
  safe ub n p q → (∀ a, q a → safe ub m (k a) post) → safe ub (n + m) (bindL p k) post.
Proof.
  intros Hub Hp Hk r l Hm Hl Hin. specialize (Hp r l Hm Hl Hin). unfold bindL.
  destruct (p r) as [[[r1 a]|e]|]; [|done..]. rewrite bind_Some_eq. destruct Hp as (Ha & bs & l' & -> & Hn & Hin1 & Hm1).
  apply Forall_app in Hl as [Hb Hl]. eapply run_ok_weaken; [|intros H; exact H| |by intros].
  - eapply run_ok_app; [exact (Hk a Ha r1 l' Hm1 Hl Hin1)|by apply Hub].
  - lia.
Qed.

Lemma safeL_bind0 {A B} (ub : bytes → Prop) n (p : L D A) (k : A → L D B) q post :
  (∀ pre l, ub l → ub (pre ++ l)) →
  safe ub n p q → (∀ a, q a → safe ub 0 (k a) post) → safe ub n (bindL p k) post.
Proof. intros Hub Hp Hk. rewrite <-(Nat.add_0_r n). by eapply safeL_bind. Qed.

(** What a read returns. *)
Definition read_ok (n : Z) (b : option bytes) : Prop := from_option (λ b, is_bytes b ∧ zlen b = n) True b.

Lemma safe_read ub n : 0 ≤ n < 2 ^ 64 → safe ub 0 (rdbRead n) (read_ok n).
Proof.
  intros Hn r l Hm Hl Hin. unfold rdbRead. destruct (decide (zlen l < n)) as [Hlt|Hge].
  { destruct (rioRead_short r l n Hm Hin Hl) as (r1 & pre & l' & -> & Hl' & Hin1 & Hm1); [lia|]. rewrite bind_Some_eq.
    split; [done|]. exists pre, l'. split; [done|]. split; [lia|]. split; [done|lia]. }
  set (bs := take (Z.to_nat n) l).
  assert (zlen bs = n) as Hbl by (unfold bs; rewrite length_take; lia).
  assert (l = bs ++ drop (Z.to_nat n) l) as Hsplit by (unfold bs; by rewrite take_drop).
  assert (is_bytes bs) as Hbb by (rewrite Hsplit in Hl; by apply Forall_app in Hl as [? _]).
  rewrite Hsplit in Hin. destruct (rioRead_run r bs _ Hm Hin Hbb) as (r1 & Hr1 & Hin1 & Hp1). rewrite Hbl in Hr1.
  rewrite Hr1, bind_Some_eq. split; [done|]. exists bs, (drop (Z.to_nat n) l). split; [done|]. split; [lia|].
  split; [done|]. by eapply passed_chunk.
Qed.

(** A read of at least one byte that must not fail. *)
Lemma safe_needL_read ub n : 0 ≤ n < 2 ^ 64 → safe ub (Z.to_nat n) (needL (rdbRead n)) (λ b, is_bytes b ∧ zlen b = n).
Proof.
  intros Hn r l Hm Hl Hin. pose proof (safe_read ub n Hn r l Hm Hl Hin) as Hs.
  destruct (needL (rdbRead n) r) as [[[r1 b]|e]|] eqn:E; [|done|].
  - destruct (needL_read_inv n l r r1 b Hn Hm Hl Hin E) as (rest & -> & Hb & Hin1 & Hp1).
    apply Forall_app in Hl as [Hbb _]. split; [done|]. exists b, rest. split; [done|]. split; [lia|]. split; [done|].
    by eapply passed_chunk.
  - unfold needL, bindL in E. destruct (rdbRead n r) as [[[r1 [b|]]|e]|]; rewrite ?bind_Some_eq in E; done.
Qed.
End combinators.

(** ** Strings *)

Section strings.
Context {D : Type} `{!Device D} `{!DeviceLaws D} {alloc : Allocator} {mem : ProcessMemory}.

Lemma rdbRead_eq (r r' : rio D) n b : rioRead r n = Some (r', b) → rdbRead n r = Some (inl (r', b)).
Proof. unfold rdbRead. by intros ->. Qed.

Lemma liftL_Some {A B} (a : A) (k : A → L D B) : liftL (Some a) k = k a.
Proof. done. Qed.

(** What [rdbLoadLen] does, by its first byte. *)
Lemma rdbLoadLen_run r l :
  0 ≤ max_processing_chunk r → is_bytes l → dev_in (io r) l →
  ∃ r' len enc bs l', rdbLoadLen r = Some (inl (r', (len, enc))) ∧ l = bs ++ l' ∧ dev_in (io r') l' ∧
    0 ≤ max_processing_chunk r' ∧ 0 ≤ len < 2 ^ 32 ∧
    (enc = true → bs = [192 + len]) ∧ (len = 0 → ∃ c rest, l = c :: rest ∧ zero_length c).
Proof.
  intros Hm Hl Hin. destruct l as [|c l].
  { destruct (rioRead_short r [] 1 Hm Hin Hl) as (r1 & pre & l' & Hrun & Hl' & Hin1 & Hm1); [simpl; lia|].
    exists r1, REDIS_RDB_LENERR, false, pre, l'. unfold rdbLoadLen, bindL at 1. rewrite (rdbRead_eq _ _ _ _ Hrun), bind_Some_eq.
    split; [done|]. split; [done|]. split; [done|]. split; [lia|done]. }
  apply Forall_cons in Hl as [Hc Hl]. destruct (len_byte c Hc) as [Hc1 Hc2]. unfold in_u in Hc.
  destruct (rioRead_run r [c] l Hm Hin) as (r1 & Hrun & Hin1 & Hp1); [by constructor|].
  assert (0 ≤ max_processing_chunk r1) as Hm1 by by eapply passed_chunk.
  unfold rdbLoadLen, bindL at 1. change (zlen [c]) with 1 in Hrun. rewrite (rdbRead_eq _ _ _ _ Hrun), bind_Some_eq.
  cbv beta iota. unfold liftL at 1. change (rd1 [c] 0) with (Some c). rewrite bind_Some_eq, Hc1, Hc2.
  assert (0 ≤ c mod 64 < 64) as Hm64 by dlia.
  destruct (Z.eqb_spec (c / 64) REDIS_RDB_ENCVAL) as [He|He]; unfold REDIS_RDB_ENCVAL in He.
  { exists r1, (c mod 64), true, [c], l. split; [done|]. split; [done|]. split; [done|]. split; [done|].
    split; [lia|]. split; [intros _; f_equal; dlia|]. intros _. exists c, l. split; [done|]. right; right. dlia. }
  destruct (Z.eqb_spec (c / 64) REDIS_RDB_6BITLEN) as [He0|He0]; unfold REDIS_RDB_6BITLEN in He0.
  { exists r1, (c mod 64), false, [c], l. split; [done|]. split; [done|]. split; [done|]. split; [done|].
    split; [lia|]. split; [done|]. intros Hz. exists c, l. split; [done|]. left. dlia. }
  assert (∀ (n : Z) (f : bytes → L D (Z * bool)) (g : bytes → Z), 0 ≤ n < 2 ^ 64 →
    (∀ b, is_bytes b → zlen b = n → f b = retL (g b, false) ∧ 0 ≤ g b < 2 ^ 32) →
    (∀ b, is_bytes b → zlen b = n → g b = 0 → zero_length c) →
    ∃ r' len enc bs l', (b <-- rdbRead n ;; match b with None => retL (REDIS_RDB_LENERR, false) | Some b => f b end) r1 =
        Some (inl (r', (len, enc))) ∧ c :: l = bs ++ l' ∧ dev_in (io r') l' ∧
      0 ≤ max_processing_chunk r' ∧ 0 ≤ len < 2 ^ 32 ∧
      (enc = true → bs = [192 + len]) ∧ (len = 0 → ∃ c0 rest, c :: l = c0 :: rest ∧ zero_length c0)) as Hgo.
  { intros n f g Hn Hf Hz. pose proof (safe_read (λ _, False) n Hn r1 l Hm1 Hl Hin1) as Hs. unfold bindL.
    assert (∃ r2 b, rdbRead n r1 = Some (inl (r2, b))) as (r2 & b & Hr2).
    { unfold rdbRead in Hs |- *. destruct (rioRead r1 n) as [[r2 b]|]; [|done]. by exists r2, b. }
    rewrite Hr2 in Hs |- *. rewrite bind_Some_eq. destruct Hs as (Hb & bs & l' & -> & _ & Hin2 & Hm2).
    destruct b as [b|].
    - destruct Hb as [Hbb Hbl]. destruct (Hf b Hbb Hbl) as [-> Hg]. exists r2, (g b), false, (c :: bs), l'.
      split; [done|]. split; [done|]. split; [done|]. split; [done|]. split; [done|]. split; [done|].
      intros Hg0. exists c, (bs ++ l'). split; [done|]. by apply (Hz b).
    - exists r2, REDIS_RDB_LENERR, false, (c :: bs), l'.
      split; [done|]. split; [done|]. split; [done|]. split; [done|]. split; [done|]. split; [done|]. done. }
  destruct (Z.eqb_spec (c / 64) REDIS_RDB_14BITLEN) as [He1|He1]; unfold REDIS_RDB_14BITLEN in He1.
  - apply (Hgo 1 _ (λ b, c mod 64 * 256 + default 0 (rd1 b 0))); [lia| |].
    + intros b Hb Hbl. destruct b as [|c2 [|? ?]]; [done| |simpl in Hbl; lia]. apply Forall_cons in Hb as [Hc2' _].
      change (rd1 [c2] 0) with (Some c2). rewrite liftL_Some, lor_shift_byte by done.
      split; [done|]. unfold in_u in Hc2'. change (default 0 (Some c2)) with c2. lia.
    + intros b Hb Hbl. destruct b as [|c2 [|? ?]]; [done| |simpl in Hbl; lia]. apply Forall_cons in Hb as [Hc2' _].
      change (rd1 [c2] 0) with (Some c2). unfold in_u in Hc2'. change (default 0 (Some c2)) with c2. intros Hz. right; left. dlia.
  - apply (Hgo 4 _ ntohl_bytes); [lia| |].
    + intros b Hb Hbl. split; [done|]. unfold ntohl_bytes.
      pose proof (le_dec_range (reverse b) (reverse_bytes _ Hb)) as Hr. rewrite length_reverse in Hr.
      by replace (length b) with 4%nat in Hr by lia.
    + intros b _ _ _. right; right. dlia.
Qed.

Lemma rdbLoadLen_safe ub : safe (D := D) ub 0 rdbLoadLen len_range.
Proof.
  intros r l Hm Hl Hin. destruct (rdbLoadLen_run r l Hm Hl Hin) as (r' & len & enc & bs & l' & -> & Hs & Hin' & Hm' & Hr & _).
  split; [exact Hr|]. exists bs, l'. split; [done|]. split; [lia|done].
Qed.

(** An object that is not integer encoded, or none. *)
Definition raw_object (o : option robj) : Prop := ∀ o', o = Some o' → ∃ t, o' = SdsObj t ∧ is_bytes t.

(** Also integers, when they may be encoded. *)
Definition good_object (encode : bool) (o : option robj) : Prop :=
  ∀ o', o = Some o' → object_ok o' ∧ (encode = false → ∃ t, o' = SdsObj t).

Lemma raw_object_Sds t : is_bytes t → raw_object (Some (SdsObj t)).
Proof. intros Ht o [= <-]. by exists t. Qed.

Lemma raw_object_good encode o : raw_object o → good_object encode o.
Proof. intros Ho o' Ho'. destruct (Ho o' Ho') as (t & -> & Ht). split; [exact Ht|]. by exists t. Qed.

Lemma rdbLoadIntegerObject_safe ub e encode :
  (∀ pre l, ub l → ub (pre ++ l)) →
  safe (D := D) ub 0 (rdbLoadIntegerObject e encode) (good_object encode).
Proof.
  intros Hub. unfold rdbLoadIntegerObject. destruct (negb _); [apply safeL_die|].
  eapply safeL_bind0; [done|apply safe_read; by destruct (e =? REDIS_RDB_ENC_INT8), (e =? REDIS_RDB_ENC_INT16)|].
  intros [b|] _; [|by apply safeL_ret]. cbv zeta. set (v := integer_of e b).
  assert (in_s 64 v) as Hv.
  { unfold v, integer_of. pose proof (swrap_range 8 (le_dec b) ltac:(done)). pose proof (swrap_range 16 (le_dec b) ltac:(done)).
    pose proof (swrap_range 32 (le_dec b) ltac:(done)). unfold in_s in *. destruct (e =? _); [|destruct (e =? _)]; lia. }
  destruct encode.
  - eapply (safeL_lift _ _ _ (IntObj v)); [|apply safeL_ret; by intros o' [= <-]]. unfold createStringObjectFromLongLong, PORT_LONG_MIN, PORT_LONG_MAX.
    destruct Hv as [H1 H2]. simpl in H1, H2. by destruct (_ && _) eqn:E; [|lia].
  - destruct (sdsfromlonglong_is v Hv) as (s & Hs & Hst). eapply safeL_lift; [exact Hs|]. apply safeL_ret.
    rewrite (sds_is_text _ _ Hst). apply raw_object_good, raw_object_Sds. by apply dec_signed_bytes.
Qed.

Lemma sdsnewlen_zeros n :
  0 ≤ n → ∃ s, sdsnewlen None n = Some s ∧ ∃ dst, rd (sh_buf s) 0 n = Some dst ∧ zlen dst = n ∧ is_bytes dst.
Proof.
  intros Hn. unfold sdsnewlen. rewrite bind_Some_eq.
  replace (Z.to_nat (n + 1)) with (Z.to_nat n + 1)%nat by lia. rewrite replicate_add. simpl.
  rewrite (sds_put_shape _ _ _ _ []) by (rewrite length_replicate; lia). eexists. split; [done|]. cbn [sh_buf].
  exists (replicate (Z.to_nat n) 0). rewrite rd_prefix by (rewrite length_replicate; lia).
  split; [done|]. rewrite length_replicate. split; [lia|]. by apply Forall_replicate.
Qed.

(** After the lengths: only an empty input is read beyond its end. *)
Lemma lzf_tail_safe clen :
  0 ≤ clen < 2 ^ 32 →
  safe (D := D) (λ _, clen = 0) 0
    (len <-- rdbLoadLen ;;
     if len.1 =? REDIS_RDB_LENERR then retL None
     else
       calll val <- sdsnewlen None len.1 ;;
       c <-- rdbRead clen ;;
       match c with
       | None => retL None
       | Some c =>
         calll dst <- rd (sh_buf val) 0 len.1 ;;
         calll x <- lzf_decompress c clen len.1 dst ;;
         match x with
         | inl (n, out) => if n =? 0 then retL None else retL (Some (SdsObj out))
         | inr _ => retL None
         end
       end) raw_object.
Proof.
  intros Hc. eapply safeL_bind0; [done|apply rdbLoadLen_safe|]. intros [len enc] Hlen. unfold len_range in Hlen. cbn [fst] in *.
  destruct (_ =? REDIS_RDB_LENERR); [by apply safeL_ret|].
  destruct (sdsnewlen_zeros len) as (s & Hs & dst & Hdst & Hdl & Hdb); [lia|]. eapply safeL_lift; [exact Hs|].
  eapply safeL_bind0; [done|apply safe_read; lia|]. intros [c|] Hcc; [|by apply safeL_ret]. destruct Hcc as [Hcb Hcl].
  eapply safeL_lift; [exact Hdst|]. cbv beta. destruct (decide (c = [])) as [->|Hne].
  - intros r l Hm Hl Hin. by rewrite <-Hcl.
  - destruct (decompress_run c dst Hcb Hne) as (x & Hx & Hxo). rewrite Hcl, Hdl in Hx.
    eapply safeL_lift; [exact Hx|]. cbv beta. destruct x as [[n out]|e]; [|by apply safeL_ret].
    destruct (n =? 0); apply safeL_ret; [done|]. apply raw_object_Sds.
    destruct (Hxo n out eq_refl) as (_ & _ & _ & _ & _ & _ & _ & Hb). by apply Hb.
Qed.

Definition bad_head (l : bytes) : Prop := ∃ c rest, l = c :: rest ∧ zero_length c.

Lemma rdbLoadLzf_safe : safe (D := D) bad_head 0 rdbLoadLzfStringObject raw_object.
Proof.
  intros r l Hm Hl Hin. unfold rdbLoadLzfStringObject, bindL at 1.
  destruct (rdbLoadLen_run r l Hm Hl Hin) as (r1 & clen & enc & bs & l1 & -> & -> & Hin1 & Hm1 & Hr & _ & Hz).
  rewrite bind_Some_eq. cbn [fst]. apply Forall_app in Hl as [Hb Hl1].
  destruct (_ =? REDIS_RDB_LENERR).
  { split; [done|]. exists bs, l1. split; [done|]. split; [lia|done]. }
  pose proof (lzf_tail_safe clen Hr r1 l1 Hm1 Hl1 Hin1) as Hs.
  eapply (run_ok_weaken bad_head); [eapply run_ok_app; [exact Hs|exact Hz]|done|lia|done].
Qed.

Lemma rdbGenericLoad_safe encode :
  safe (D := D) bad 0 (rdbGenericLoadStringObject encode) (good_object encode).
Proof.
  intros r l Hm Hl Hin. unfold rdbGenericLoadStringObject, bindL at 1.
  destruct (rdbLoadLen_run r l Hm Hl Hin) as (r1 & len & enc & bs & l1 & -> & -> & Hin1 & Hm1 & Hr & He & _).
  rewrite bind_Some_eq. apply Forall_app in Hl as [Hb Hl1].
  assert (∀ (ub : bytes → Prop) (p : L D (option robj)), safe ub 0 p (good_object encode) →
    (ub l1 → bad (bs ++ l1)) → run_ok bad 0 (good_object encode) (bs ++ l1) (p r1)) as Hgo.
  { intros ub p Hp Hub. eapply (run_ok_weaken bad); [eapply run_ok_app; [by apply Hp|exact Hub]|..]; (done || lia). }
  destruct enc.
  - destruct (_ || _).
    { apply (Hgo (λ _, False)); [|done]. by apply rdbLoadIntegerObject_safe. }
    destruct (Z.eqb_spec len REDIS_RDB_ENC_LZF) as [->|]; [|by apply (Hgo (λ _, False)); [apply safeL_die|]].
    apply (Hgo bad_head).
    + intros r2 l2 Hm2 Hl2 Hin2. eapply run_ok_weaken; [by apply rdbLoadLzf_safe|done|lia|]. apply raw_object_good.
    + intros (c & rest & -> & Hc). rewrite (He eq_refl). exists [], c, rest. by split.
  - apply (Hgo (λ _, False)); [|done]. destruct (_ =? REDIS_RDB_LENERR); [by apply safeL_ret|].
    destruct (len =? 0); [by apply safeL_ret, raw_object_good, raw_object_Sds|].
    eapply safeL_bind0; [done|apply safe_read; lia|]. intros [b|] Hbb; apply safeL_ret; [|done].
    apply raw_object_good, raw_object_Sds, Hbb.
Qed.
End strings.

(** ** Values *)

Class ValueSafe (D V : Type) `{!Device D} `{!DeviceLaws D} `{!Value D V} := {
  value_wf : V → Prop;
  value_safe t : safe bad 0 (rdbLoadObject t) (λ o, ∀ v, o = Some v → value_wf v);
}.

Lemma tryObjectEncoding_total o : object_ok o → ∃ o', tryObjectEncoding o = Some o' ∧ object_ok o'.
Proof.
  destruct o as [t|v]; [|by exists (IntObj v)]. intros Ht. unfold tryObjectEncoding. destruct (_ <=? 21); [|by eexists].
  destruct (string2l_run t [0]) as (x & -> & Hx). rewrite bind_Some_eq. eexists. split; [done|].
  destruct x as [v|]; [|done]. by apply (Hx v).
Qed.

#[export] Instance string_value_safe {D} `{!Device D} `{!DeviceLaws D} {alloc : Allocator} {mem : ProcessMemory}
    (cfg : config) : ValueSafe D robj (Value0 := string_value cfg).
Proof.
  exists object_ok. intros t. cbn [rdbLoadObject string_value]. unfold load_string_value. destruct (_ =? _); [|apply safeL_die].
  eapply safeL_bind0; [by apply bad_app|apply rdbGenericLoad_safe|]. intros [o|] Ho; [|by apply safeL_ret].
  destruct (tryObjectEncoding_total o) as (o' & Ho' & Hok); [by apply Ho|]. eapply safeL_lift; [exact Ho'|].
  apply safeL_ret. by intros v [= <-].
Qed.

(** ** The loop *)

Section dump.
Context {D V : Type} `{!Device D} `{!DeviceLaws D} `{!Value D V} `{!ValueSafe D V}.
Context {alloc : Allocator} {mem : ProcessMemory} {host : Host} (cfg : config) (now : Z).

Lemma safe_needL {A} ub n (p : L D (option A)) (q : option A → Prop) :
  (∀ pre l, ub l → ub (pre ++ l)) → safe ub n p q → safe ub n (needL p) (λ a, q (Some a)).
Proof. intros Hub Hp. eapply safeL_bind0; [done|exact Hp|]. intros [a|] Ha; [by apply safeL_ret|apply safeL_die]. Qed.

Lemma needTypeL_safe : safe (D := D) bad 1 needTypeL any.
Proof.
  assert (safe (D := D) bad 1 (b <-- needL (rdbRead 1) ;; calll t <- rd1 b 0 ;; if t =? -1 then dieL ShortRead else retL t) any) as Hs.
  { eapply (safeL_bind0 bad 1); [by apply bad_app|apply (safe_needL_read bad 1); lia|]. intros b [Hb Hl].
    destruct b as [|t [|? ?]]; [done| |simpl in Hl; lia]. apply (safeL_lift _ _ _ t); [done|].
    destruct (t =? -1); [apply safeL_die|by apply safeL_ret]. }
  intros r l Hm Hl Hin. specialize (Hs r l Hm Hl Hin). unfold needTypeL, rdbLoadType, needL, bindL, liftL, retL, dieL in *.
  destruct (rdbRead 1 r) as [[[r1 [b|]]|e]|]; cbn in *; [|done..].
  destruct (b !! Z.to_nat 0) as [t|]; cbn in *; [exact Hs|done].
Qed.

(** An expire time fits its type. *)
Definition time_ok (te : Z * Z) : Prop := in_s 64 te.2.

Lemma load_type_safe : safe (D := D) bad 1 load_type time_ok.
Proof.
  unfold load_type. eapply safeL_bind0; [by apply bad_app|apply needTypeL_safe|intros type _].
  assert (∀ (p : L D Z) (f : Z → Z), safe bad 0 p (λ t, in_s 64 (f t)) →
    safe bad 0 (t <-- p ;; if t =? -1 then dieL ShortRead else type <-- needTypeL ;; retL (type, f t)) time_ok) as Hgo.
  { intros p f Hp. eapply safeL_bind0; [by apply bad_app|exact Hp|intros t Ht]. destruct (_ =? -1); [apply safeL_die|].
    intros r l Hm Hl Hin. eapply (run_ok_weaken bad bad 1); [|done|lia|intros a Ha; exact Ha]. revert r l Hm Hl Hin.
    eapply safeL_bind0; [by apply bad_app|apply needTypeL_safe|intros ty _]. by apply safeL_ret. }
  destruct (_ =? _); [|destruct (_ =? _); [|by apply safeL_ret]].
  - apply (Hgo _ (λ t, s64 (t * 1000))). unfold rdbLoadTime.
    eapply safeL_bind0; [by apply bad_app|by apply safe_read|]. intros [b|] _; apply safeL_ret; [by apply swrap_range|done].
  - apply (Hgo _ (λ t, t)). unfold rdbLoadMillisecondTime.
    eapply safeL_bind0; [by apply bad_app|by apply safe_read|]. intros [b|] _; apply safeL_ret; [by apply swrap_range|done].
Qed.

(** What the code relies on: keys are bytes, values are well formed, and only
    keys that exist have an expire time. *)
Definition db_wf (db : redisDb V) : Prop :=
  (∀ k o, db_dict db !! k = Some o → is_bytes k ∧ value_wf o) ∧
  (∀ k ex, db_expires db !! k = Some ex → is_Some (db_dict db !! k) ∧ in_s 64 ex ∧ ex ≠ -1).

Lemma db_wf_add db k v ex db' :
  db_wf db → is_bytes k → value_wf v → in_s 64 ex → load_key_into db k v ex = Some db' → db_wf db'.
Proof.
  intros [Hd Hx] Hk Hv Hex Hrun. destruct (db_dict db !! k) as [|] eqn:Ek; [by unfold load_key_into, dbAdd in Hrun; rewrite Ek in Hrun|].
  rewrite load_key_into_eq in Hrun by done. injection Hrun as <-.
  assert (∀ k' o, <[k:=v]> (db_dict db) !! k' = Some o → is_bytes k' ∧ value_wf o) as Hd'.
  { intros k' o [[<- <-]|[_ Ho]]%lookup_insert_Some; [done|by apply Hd]. }
  assert (∀ k', is_Some (db_dict db !! k') → is_Some (<[k:=v]> (db_dict db) !! k')) as Hsome.
  { intros k' Hk'. apply lookup_insert_is_Some'. by right. }
  destruct (Z.eqb_spec ex (-1)); (split; [exact Hd'|]); cbn [db_dict db_expires]; intros k' ex'.
  - intros (? & ?)%Hx. by auto.
  - intros [[<- <-]|[_ (? & ?)%Hx]]%lookup_insert_Some; [|by auto]. split; [|done]. rewrite lookup_insert_eq. by eexists.
Qed.

(** The state of the loop, with [n] databases. *)
Definition state_ok (n : nat) (st : load_state (V := V)) : Prop :=
  0 ≤ st.2 < zlen st.1 ∧ length st.1 = n ∧ Forall db_wf st.1.

Definition body_post (n : nat) (x : load_state (V := V) + load_state (V := V)) : Prop :=
  match x with inl st | inr st => state_ok n st end.

Lemma load_body_safe n st : state_ok n st → safe (D := D) bad 1 (load_body cfg now st) (body_post n).
Proof.
  destruct st as [dbs cur]. intros Hst. unfold load_body.
  eapply safeL_bind0; [by apply bad_app|apply load_type_safe|intros [t ex] Hex].
  destruct (t =? _); [by apply safeL_ret|]. destruct (t =? _).
  { eapply safeL_bind0; [by apply bad_app|apply rdbLoadLen_safe|]. intros [len e] Hr. unfold len_range in Hr. cbn [fst] in *.
    destruct (_ =? REDIS_RDB_LENERR); [apply safeL_die|]. destruct (len >=? zlen dbs) eqn:E; [apply safeL_die|].
    apply safeL_ret. destruct Hst as (_ & ? & ?). split; [cbn; lia|done]. }
  eapply safeL_bind0; [by apply bad_app|apply safe_needL; [by apply bad_app|apply rdbGenericLoad_safe]|].
  intros key Hkey. destruct (Hkey key eq_refl) as [Hkb Hraw]. destruct (Hraw eq_refl) as [k ->]. cbn in Hkb. clear Hkey Hraw.
  eapply safeL_bind0; [by apply bad_app|apply safe_needL; [by apply bad_app|apply value_safe]|]. intros val Hval.
  destruct (_ && _); [by apply safeL_ret|]. apply (safeL_lift _ _ _ k); [done|].
  destruct Hst as (Hcur & Hlen & Hwf). cbn [fst snd] in *.
  destruct (lookup_lt_is_Some_2 dbs (Z.to_nat cur)) as [db Hdb]; [lia|]. eapply safeL_lift; [exact Hdb|]. cbv beta.
  destruct (load_key_into db k val ex) as [db'|] eqn:Eadd; [|apply safeL_die]. apply safeL_ret. split; cbn [fst snd]; rewrite length_insert; [done|].
  split; [done|]. apply Forall_insert; [done|]. eapply db_wf_add; [|exact Hkb|by apply Hval|exact Hex|exact Eadd].
  by eapply Forall_lookup_1.
Qed.

Lemma load_loop_safe n fuel st r l :
  state_ok n st → 0 ≤ max_processing_chunk r → is_bytes l → dev_in (io r) l → (length l < fuel)%nat →
  run_ok bad 0 (state_ok n) l (load_loop (D := D) cfg fuel now st r).
Proof.
  revert st r l. induction fuel as [|fuel IH]; intros st r l Hst Hm Hl Hin Hf; [lia|]. cbn [load_loop]. unfold bindL.
  pose proof (load_body_safe n st Hst r l Hm Hl Hin) as Hs.
  destruct (load_body cfg now st r) as [[[r1 x]|e]|]; [|done..]. rewrite bind_Some_eq.
  destruct Hs as (Hx & bs & l' & -> & Hbs & Hin1 & Hm1). apply Forall_app in Hl as [Hb Hl']. rewrite length_app in Hf.
  destruct x as [st'|st'].
  - eapply (run_ok_weaken bad); [eapply run_ok_app; [apply (IH st' r1 l'); (done || lia)|by apply bad_app]|done|lia|done].
  - split; [done|]. exists bs, l'. split; [done|]. split; [lia|done].
Qed.

Lemma verify_cksum_safe ver : safe (D := D) bad 0 (verify_cksum cfg ver) any.
Proof.
  unfold verify_cksum. destruct (_ && _); [|by apply safeL_ret].
  eapply (safeL_bind0 _ 0 _ _ any); [by apply bad_app| |intros expected _].
  { intros r l Hm Hl Hin. split; [done|]. exists [], l. by repeat split. }
  intros r l Hm Hl Hin. eapply (run_ok_weaken bad bad 8); [|done|lia|by intros]. revert r l Hm Hl Hin.
  eapply (safeL_bind0 bad 8); [by apply bad_app|apply (safe_needL_read bad 8); lia|]. intros b [Hb Hl].
  assert (b = le_enc 8 (le_dec b)) as Hbe.
  { replace 8%nat with (length b) by lia. by rewrite le_enc_dec. }
  pose proof (@load_le host 8 (le_dec b) ltac:(by right; right)) as Hld. rewrite <-Hbe in Hld. cbn [memrev_ifbe] in Hld.
  destruct (memrev64ifbe b 0) as [b'|] eqn:E; [|done]. apply (safeL_lift _ _ _ b'); [done|]. cbv zeta.
  destruct (_ =? 0); [by apply safeL_ret|]. destruct (negb _); [apply safeL_die|by apply safeL_ret].
Qed.

Lemma rdbLoad_safe_run fuel d l dbs :
  is_bytes l → dev_in d l → 0 ≤ loading_process_events_interval_bytes cfg → dbs ≠ [] → Forall db_wf dbs →
  (length l < fuel)%nat →
  run_ok bad 0 (λ o, ∀ dbs', o = Some dbs' → Forall db_wf dbs' ∧ length dbs' = length dbs) l (rdbLoad cfg fuel d dbs now).
Proof.
  intros Hl Hin Hint Hdbs Hwf Hf. unfold rdbLoad. set (post := λ o : option (list (redisDb V)), _). set (r := Rio d _ 0 0 _). unfold rdbLoadRio, bindL at 1.
  pose proof (safe_needL_read bad 9 ltac:(lia) r l Hint Hl Hin) as Hs.
  destruct (needL (rdbRead 9) r) as [[[r1 head]|e]|]; [|done..]. rewrite bind_Some_eq.
  destruct Hs as ([Hhb Hhl] & bs & l' & -> & _ & Hin1 & Hm1). apply Forall_app in Hl as [Hb Hl']. rewrite length_app in Hf.
  eapply (run_ok_weaken bad bad (length bs + 0)); [|done|lia|by intros a Ha; exact Ha].
  eapply run_ok_app; [|by apply bad_app].
  destruct (negb _); [by apply (safeL_ret bad None post)|]. unfold liftL.
  destruct (strtoll_run (drop 5 head) []) as (v & rest & Hv & _). unfold atoi. rewrite Hv, !bind_Some_eq.
  destruct (_ || _); [by apply (safeL_ret bad None post)|]. unfold bindL at 1.
  assert (state_ok (length dbs) (dbs, 0)) as Hst by (split; [destruct dbs; simpl; [done|lia]|done]).
  pose proof (load_loop_safe (length dbs) fuel (dbs, 0) r1 l' Hst Hm1 Hl' Hin1 ltac:(lia)) as Hs.
  destruct (load_loop cfg fuel now (dbs, 0) r1) as [[[r2 st]|e]|]; [|done..]. rewrite bind_Some_eq.
  destruct Hs as ((_ & Hlen & Hwf') & bs2 & l2 & -> & _ & Hin2 & Hm2). apply Forall_app in Hl' as [_ Hl2].
  eapply (run_ok_weaken bad bad (length bs2 + 0)); [|done|lia|by intros a Ha; exact Ha].
  eapply run_ok_app; [|by apply bad_app].
  assert (safe (D := D) bad 0 (u <-- verify_cksum cfg (s32 (v, rest).1) ;; retL (Some st.1)) post) as Hv2.
  { eapply safeL_bind0; [by apply bad_app|apply verify_cksum_safe|]. intros _ _. apply safeL_ret. by intros dbs' [= <-]. }
  by apply Hv2.
Qed.
End dump.
