(* ===== verification/RdbCorrect.v ===== *)
(** * The dump format: what is promised

    A dump loads back, on any device and with any type of values that keep their
    laws; what is accepted has the right checksum and is not a part of a longer
    dump; loading is safe on arbitrary bytes. *)

From S2P Require Import Prelude Endian Util Lzf Glob Crc Object Sds SdsText Rio Rdb RdbFormat RdbDump RdbParse RdbSafe.

#[local] Open Scope Z_scope.
#[local] Open Scope rdb_scope.

(** ** Strings *)

Section strings.
Context {D : Type} `{!Device D} `{!DeviceLaws D} {alloc : Allocator} {mem : ProcessMemory}.

(** C26: a string object, integer encoded or not, is saved in some bytes, whatever
    encoding is chosen; the number returned is their length, also when they are
    only counted (as [rdbSavedObjectLen] does with the stream [NULL]); and from
    these bytes an object with the same text is loaded, byte for byte what was
    written and nothing behind.  Without [encode] it is a raw string. *)
Theorem rdb_string_roundtrip cfg o :
  saveable o →
  ∃ e,
    rdbSaveStringObject (D := D) cfg o None = Some (None, zlen e) ∧
    (∀ r t, 0 ≤ max_processing_chunk r → dev_out (io r) t → zlen t + zlen e < 2 ^ 31 →
       ∃ r', rdbSaveStringObject cfg o (Some r) = Some (Some r', zlen e) ∧ dev_out (io r') (t ++ e)) ∧
    (∀ encode r rest, 0 ≤ max_processing_chunk r → dev_in (io r) (e ++ rest) →
       ∃ r' o', rdbGenericLoadStringObject encode r = Some (inl (r', Some o')) ∧ dev_in (io r') rest ∧
         robj_text o' = robj_text o ∧ (encode = false → o' = SdsObj (robj_text o))).
Proof.
  intros Ho. destruct (rdbSaveStringObject_writes (D := D) cfg o Ho) as (e & He & Hw).
  destruct (saveable_text o Ho) as [Hb Ht]. pose proof (string_enc_bytes _ _ Hb He) as Heb.
  exists e. split; [by apply Hw|]. split.
  - intros r t Hm Hout Hl. destruct Hw as (_ & _ & Hw). destruct (Hw r t Hm Hout Hl) as (r' & ? & ? & _). by exists r'.
  - intros encode r rest Hm Hin.
    destruct (rdbGenericLoad_reads (D := D) (robj_text o) e encode He Hb Ht) as (o' & Hr & Htext & _ & Hraw).
    destruct (Hr Heb r rest Hm Hin) as (r' & Hrun & Hin' & _). by exists r', o'.
Qed.
End strings.

(** ** Dumps *)

Section dump.
Context {D V : Type} `{!Device D} `{!DeviceLaws D} `{!Value D V}.
Context {alloc : Allocator} {mem : ProcessMemory} {order : DictOrder}.

(** C25: the databases of a server are saved as a dump that ends with its
    checksum, and from this dump, whatever follows it, a server on any host with
    any settings loads: the same keys in the same databases, with equivalent
    values and the same expire times, but for the keys that had expired when the
    dump was written, or, on a master, when it is read.  Expire times need hosts
    of the same byte order ([same_order]). *)
Theorem rdb_save_load `{!ValueLaws D V} {host1 host2 : Host} cfg1 cfg2 now1 now2 (dbs : list (redisDb V)) :
  Forall db_ok dbs → Forall (same_order (host1 := host1) (host2 := host2)) dbs → zlen dbs < 2 ^ 31 →
  0 ≤ loading_process_events_interval_bytes cfg2 →
  ∃ body, let dump := body ++ le_enc 8 (if rdb_checksum cfg1 then crc64_ref 0 body else 0) in
    (∀ r, 0 ≤ max_processing_chunk r → dev_out (io r) [] → cksum r = 0 → update_cksum r = false → zlen dump < 2 ^ 31 →
       ∃ r', rdbSaveRio (host := host1) cfg1 dbs now1 (Some r) = Some (Some r', 0) ∧ dev_out (io r') dump) ∧
    (∀ d rest fuel, dev_in d (dump ++ rest) → (length dump ≤ fuel)%nat →
       ∃ r' dbs', rdbLoad (host := host2) cfg2 fuel d (replicate (length dbs) empty_db) now2 = Some (inl (r', Some dbs')) ∧
         Forall2 (db_loaded cfg2 now1 now2) dbs dbs' ∧ (rdb_checksum cfg2 = true → dev_in (io r') rest)).
Proof.
  intros Hok Hord Hl Hint.
  destruct (rdb_save_load_run (D := D) cfg1 cfg2 now1 now2 dbs Hok Hord Hl) as (body & _ & Hs & Hld).
  exists body. split; [exact Hs|]. intros d rest fuel Hin Hf. rewrite length_app, length_le_enc in Hf.
  apply (Hld d rest fuel); [exact Hin|lia|done].
Qed.

Context `{!ValueParser D V} {host : Host} (cfg : config) (now : Z).

Lemma magic_version head body : take 9 (head ++ body) = rdb_magic → zlen head = 9 → atoi (drop 5 head ++ [0]) = Some 6.
Proof. intros Ht Hl. rewrite take_app_length' in Ht by lia. by subst head. Qed.

(** a stream of this version that is accepted with checksums on is data and
    their checksum: the CRC64 of all the bytes before it, or 0 for a dump without. *)
Theorem rdb_load_checked fuel d l dbs r' dbs' :
  is_bytes l → dev_in d l → 0 ≤ loading_process_events_interval_bytes cfg → rdb_checksum cfg = true →
  take 9 l = rdb_magic →
  rdbLoad cfg fuel d dbs now = Some (inl (r', Some dbs')) →
  ∃ data c rest, l = data ++ le_enc 8 c ++ rest ∧ in_u 64 c ∧ (c = 0 ∨ c = crc64_ref 0 data) ∧ dev_in (io r') rest.
Proof.
  intros Hl Hin Hint Hck Hmagic Hrun.
  destruct (rdbLoad_inv cfg now fuel d l dbs r' dbs' Hl Hin Hint Hck Hrun)
    as (head & body & rest & ver & cur & -> & _ & Hhl & _ & Hver & _ & _ & Hc).
  rewrite (magic_version head (body ++ rest)) in Hver by done. injection Hver as <-.
  destruct Hc as (c & rest' & -> & Hcr & Hcase & Hin'); [done|].
  exists (head ++ body), c, rest'. by rewrite <-app_assoc.
Qed.

Lemma load_loop_reads_fuel fuel fuel' (st : load_state (V := V)) bs x :
  (fuel ≤ fuel')%nat → reads (load_loop (D := D) cfg fuel now st) bs x → reads (load_loop (D := D) cfg fuel' now st) bs x.
Proof.
  intros Hf Hr Hb r rest Hm Hin. destruct (Hr Hb r rest Hm Hin) as (r' & Hrun & Hin' & Hp).
  exists r'. split; [by eapply load_loop_fuel|]. by split.
Qed.

(** Two runs of a loader from one state have read the same. *)
Lemma reads_same {A} (p : L D A) b1 b2 a1 a2 l1 l2 d :
  reads p b1 a1 → reads p b2 a2 → is_bytes b1 → is_bytes b2 → dev_in d (b1 ++ l1) → b1 ++ l1 = b2 ++ l2 →
  a1 = a2 ∧ l1 = l2.
Proof.
  intros H1 H2 Hb1 Hb2 Hin Heq. set (r := Rio d false 0 0 0).
  destruct (H1 Hb1 r l1 ltac:(done) Hin) as (r1 & Hr1 & Hin1 & _). rewrite Heq in Hin.
  destruct (H2 Hb2 r l2 ltac:(done) Hin) as (r2 & Hr2 & Hin2 & _). rewrite Hr1 in Hr2. injection Hr2 as <- <-.
  split; [done|]. by eapply dev_in_inj.
Qed.

(** C27: no proper part of a dump is taken for the whole: when a stream of this
    version is accepted up to its end, then no stream with only a front part of
    it is accepted, however it is cut. *)
Theorem rdb_load_truncated fuel fuel' d d' l l2 dbs r1 dbs1 :
  is_bytes (l ++ l2) → l2 ≠ [] → 0 ≤ loading_process_events_interval_bytes cfg → rdb_checksum cfg = true →
  take 9 l = rdb_magic →
  dev_in d (l ++ l2) → rdbLoad cfg fuel d dbs now = Some (inl (r1, Some dbs1)) → dev_in (io r1) [] →
  dev_in d' l → ∀ r2 dbs2, rdbLoad cfg fuel' d' dbs now ≠ Some (inl (r2, Some dbs2)).
Proof.
  intros Hl Hl2 Hint Hck Hmagic Hin Hrun Hend Hin' r2 dbs2 Hrun'. apply Hl2. clear Hl2. pose proof Hl as Hl'. apply Forall_app in Hl' as [Hl' _].
  destruct (rdbLoad_inv cfg now fuel d (l ++ l2) dbs r1 dbs1 Hl Hin Hint Hck Hrun)
    as (h1 & b1 & t1 & v1 & c1 & Heq1 & Hb1 & Hh1 & _ & Hv1 & _ & Hr1 & Hc1).
  destruct (rdbLoad_inv cfg now fuel' d' l dbs r2 dbs2 Hl' Hin' Hint Hck Hrun')
    as (h2 & b2 & t2 & v2 & c2 & Heq2 & Hb2 & Hh2 & _ & Hv2 & _ & Hr2 & Hc2).
  rewrite Heq2, <-!app_assoc in Heq1. apply app_inj_1 in Heq1 as [<- Heq1]; [|lia].
  rewrite Heq2 in Hmagic. rewrite (magic_version _ _ Hmagic Hh2) in Hv1, Hv2. injection Hv1 as <-. injection Hv2 as <-.
  destruct Hc1 as (k1 & e1 & -> & _ & _ & He1); [done|]. destruct Hc2 as (k2 & e2 & -> & _ & _ & _); [done|].
  assert (e1 = []) as -> by by eapply dev_in_inj.
  apply Forall_app in Hb1 as [Hhb Hb1]. apply Forall_app in Hb2 as [_ Hb2].
  rewrite Heq2, <-!app_assoc in Hin. destruct (rioRead_run (Rio d false 0 0 0) h2 _ ltac:(done) Hin Hhb) as (r0 & _ & Hin0 & _).
  pose proof (load_loop_reads_fuel fuel (fuel + fuel') _ _ _ ltac:(lia) Hr1) as Hr1'.
  pose proof (load_loop_reads_fuel fuel' (fuel + fuel') _ _ _ ltac:(lia) Hr2) as Hr2'.
  destruct (reads_same _ _ _ _ _ _ _ _ Hr2' Hr1' Hb2 Hb1 Hin0 Heq1) as [_ Hrest].
  apply (f_equal length) in Hrest. rewrite !length_app, !length_le_enc in Hrest. destruct l2; [done|simpl in Hrest; lia].
Qed.


(** C29: whatever the bytes are that are accepted, the databases loaded are well
    formed: as many as before, their keys are byte strings, their values well
    formed (texts are bytes, integers fit their type), and every expire time
    belongs to a key, fits its type and is not the mark for none. *)
Theorem rdb_loaded_wf `{!ValueSafe D V} d l dbs r' dbs' :
  is_bytes l → dev_in d l → 0 ≤ loading_process_events_interval_bytes cfg → dbs ≠ [] → Forall db_wf dbs →
  rdbLoad cfg (S (length l)) d dbs now = Some (inl (r', Some dbs')) →
  Forall db_wf dbs' ∧ length dbs' = length dbs.
Proof.
  intros Hl Hin Hint Hdbs Hwf Hrun.
  pose proof (rdbLoad_safe_run cfg now (S (length l)) d l dbs Hl Hin Hint Hdbs Hwf ltac:(lia)) as Hs.
  rewrite Hrun in Hs. by apply Hs.
Qed.
End dump.

(** ** Two defects *)

Section defects.
#[local] Existing Instances poison_allocator low_memory.

Definition stream_of (t : bytes) : option (rio rio_buffer) := s ← sdsnewlen (Some t) (zlen t); Some (rioInitWithBuffer s).

(** A compressed string whose compressed length is 0: [lzf_decompress] reads a
    byte of an empty block. *)
Lemma lzf_empty_input_read :
  (r ← stream_of [195; 0; 5]; rdbGenericLoadStringObject false r) = None.
Proof. vm_compute. reflexivity. Qed.

(** An expire time that is loaded on a host of the other byte order is a
    different time. *)
Lemma expire_time_not_portable :
  (s ← sdsempty;
   x ← rdbSaveMillisecondTime (H := le_host) 1000 (Some (rioInitWithBuffer s));
   r ← x.1;
   y ← rdbLoadMillisecondTime (H := be_host) (rioInitWithBuffer (ptr (io r)));
   match y with inl (_, t) => Some t | inr _ => None end) = Some (-1728537831980138496).
Proof. vm_compute. reflexivity. Qed.
End defects.

(** ** Instances at concrete inputs *)

Section witnesses.
#[local] Existing Instances poison_allocator low_memory list_order.
#[local] Instance sample_value : Value rio_buffer robj := string_value sample_config.
#[local] Instance sample_laws : ValueLaws rio_buffer robj := string_value_laws sample_config.
#[local] Instance sample_parser : ValueParser rio_buffer robj := string_value_parser sample_config.
#[local] Instance sample_safe : ValueSafe rio_buffer robj := string_value_safe sample_config.

Definition buffer_of (t : bytes) : rio_buffer := RioBuffer (Sds (zlen t) 0 (t ++ [0])) 0.

Lemma buffer_of_in t : zlen t < 2 ^ 31 → dev_in (buffer_of t) t.
Proof. intros Ht. exists []. split; [|done]. exists []. split; [done|]. change SDS_CAP with 2148532224. simpl. lia. Qed.

(** The dump of an empty server. *)
Definition empty_dump : bytes := rdb_magic ++ [255; 220; 179; 67; 240; 90; 220; 242; 86].

Lemma empty_db_wf : Forall db_wf [empty_db (V := robj)].
Proof. by repeat constructor. Qed.

Definition load_bytes (t : bytes) := rdbLoad (host := be_host) sample_config 20 (buffer_of t) [empty_db (V := robj)] 0.

Lemma rdb_string_roundtrip_witness :
  saveable (SdsObj [45; 49; 50; 48]) ∧
  ∃ e, rdbSaveStringObject (D := rio_buffer) sample_config (SdsObj [45; 49; 50; 48]) None = Some (None, zlen e) ∧
    (zlen e < 100 → ∃ r' o', rdbGenericLoadStringObject false (Rio (buffer_of e) true 0 0 3) = Some (inl (r', Some o')) ∧
       o' = SdsObj [45; 49; 50; 48]).
Proof.
  assert (saveable (SdsObj [45; 49; 50; 48])) as Ho by (split; [repeat constructor|]; done).
  split; [done|]. destruct (rdb_string_roundtrip (D := rio_buffer) sample_config _ Ho) as (e & H1 & _ & H2).
  exists e. split; [exact H1|]. intros He.
  destruct (H2 false (Rio (buffer_of e) true 0 0 3) []) as (r' & o' & Hrun & _ & _ & Ho'); [done| |].
  { rewrite app_nil_r. apply buffer_of_in. lia. }
  exists r', o'. split; [exact Hrun|by apply Ho'].
Defined.

Lemma sample_dbs_ok : Forall (db_ok (V := robj)) sample_dbs.
Proof.
  assert (∀ n x, 0 ≤ x < 256 → is_bytes (replicate n x)) as Hrep by (by intros n x ?; apply Forall_replicate).
  unfold sample_dbs. apply Forall_cons; split; [|apply Forall_cons; split; [|apply Forall_cons; split; [|by apply Forall_nil]]];
    (split; intros k x Hk; cbn [db_dict db_expires] in Hk;
      repeat (apply lookup_insert_Some in Hk as [[<- <-]|[_ Hk]]); try done).
  - split; [by repeat constructor|]. split; [done|]. split; [by repeat constructor|done].
  - split; [by repeat constructor|]. split; [done|]. split; [by apply Hrep|done].
  - split; [by repeat constructor|]. by split.
Qed.

Lemma rdb_load_checked_witness :
  match load_bytes empty_dump with
  | Some (inl (r', Some dbs')) =>
    ∃ data c rest, empty_dump = data ++ le_enc 8 c ++ rest ∧ in_u 64 c ∧ (c = 0 ∨ c = crc64_ref 0 data) ∧ dev_in (io r') rest
  | _ => False
  end.
Proof.
  assert (is_bytes empty_dump) as Hb by (vm_compute; by repeat constructor).
  destruct (load_bytes empty_dump) as [[[r' [dbs'|]]|]|] eqn:E; [|vm_compute in E; discriminate E..].
  exact (rdb_load_checked (host := be_host) sample_config 0 20 (buffer_of empty_dump) empty_dump [empty_db] r' dbs'
    Hb (buffer_of_in empty_dump eq_refl) ltac:(done) eq_refl eq_refl E).
Defined.

Lemma rdb_load_truncated_witness :
  match load_bytes (take 12 empty_dump) with Some (inl (_, Some _)) => False | _ => True end.
Proof.
  assert (is_bytes (take 12 empty_dump ++ drop 12 empty_dump)) as Hb by (vm_compute; by repeat constructor).
  assert (dev_in (buffer_of empty_dump) (take 12 empty_dump ++ drop 12 empty_dump)) as Hin.
  { rewrite take_drop. by apply buffer_of_in. }
  destruct (load_bytes empty_dump) as [[[r' [dbs'|]]|]|] eqn:E; [|vm_compute in E; discriminate E..].
  assert (dev_in (io r') []) as Hend.
  { vm_compute in E. injection E as <- _. exists empty_dump. split; [|done]. exists []. done. }
  destruct (load_bytes (take 12 empty_dump)) as [[[r2 [dbs2|]]|]|] eqn:E2; try exact I.
  exact (rdb_load_truncated (host := be_host) sample_config 0 20 20 (buffer_of empty_dump) (buffer_of (take 12 empty_dump))
    (take 12 empty_dump) (drop 12 empty_dump) [empty_db] r' dbs' Hb ltac:(done) ltac:(done) eq_refl eq_refl Hin E Hend
    (buffer_of_in (take 12 empty_dump) eq_refl) r2 dbs2 E2).
Defined.

(** The front of a dump with a key, and a type byte. *)
Definition cut_dump : bytes := rdb_magic ++ [254; 0; 0; 1; 97; 5; 104; 101].


(** The dump of a key [a] with the value 5 and an expire time. *)
Definition key_dump : bytes :=
  rdb_magic ++ [254; 0; 252; 0; 0; 0; 0; 0; 0; 3; 232; 0; 1; 97; 192; 5; 255; 0; 0; 0; 0; 0; 0; 0; 0].

Lemma rdb_loaded_wf_witness :
  match rdbLoad (host := be_host) sample_config (S (length key_dump)) (buffer_of key_dump) [empty_db (V := robj)] 0 with
  | Some (inl (_, Some dbs')) => Forall db_wf dbs' ∧ length dbs' = 1%nat
  | _ => False
  end.
Proof.
  destruct (rdbLoad (host := be_host) sample_config (S (length key_dump)) (buffer_of key_dump) [empty_db (V := robj)] 0)
    as [[[r' [dbs'|]]|]|] eqn:E; [|vm_compute in E; discriminate E..].
  exact (rdb_loaded_wf (host := be_host) sample_config 0 (buffer_of key_dump) key_dump [empty_db (V := robj)] r' dbs'
    ltac:(vm_compute; by repeat constructor) (buffer_of_in key_dump eq_refl) ltac:(done) ltac:(done) empty_db_wf E).
Defined.

Lemma rdb_save_load_witness :
  Forall (db_ok (V := robj)) sample_dbs ∧
  ∃ body, let dump := body ++ le_enc 8 (crc64_ref 0 body) in
    zlen dump < 2 ^ 31 →
    ∃ r' dbs', rdbLoad (host := be_host) sample_config (length dump) (buffer_of dump) (replicate 3 (empty_db (V := robj))) 2000 =
        Some (inl (r', Some dbs')) ∧ Forall2 (db_loaded sample_config 1000 2000) sample_dbs dbs'.
Proof.
  split; [exact sample_dbs_ok|].
  destruct (rdb_save_load (D := rio_buffer) (host1 := be_host) (host2 := be_host) sample_config sample_config 1000 2000 sample_dbs)
    as (body & _ & Hload); [exact sample_dbs_ok|repeat (apply Forall_cons; split); [by left..|by apply Forall_nil]|done..|].
  exists body. intros dump Hl.
  destruct (Hload (buffer_of dump) [] (length dump)) as (r' & dbs' & Hrun & Hdbs & _); [|done|].
  { rewrite app_nil_r. by apply buffer_of_in. }
  exists r', dbs'. split; [exact Hrun|exact Hdbs].
Defined.
End witnesses.
