(* ===== verification/Ziplist.v ===== *)
(** * Encoded lists in one block of memory: [ziplist.c], [ziplist.h]

    A ziplist is the block of its bytes; a pointer into it is an offset, so that
    it stays valid when the block is moved.  [ZiplistSpec] relates the bytes to a
    list of entries, [ZiplistOps] and [ZiplistRefine] prove what the operations do. *)

From S2P Require Import Prelude Endian Util Object.

#[local] Open Scope Z_scope.

Definition ZIP_END : Z := 255.
Definition ZIP_BIGLEN : Z := 254.

Definition ZIP_STR_MASK : Z := 0xc0.
Definition ZIP_STR_06B : Z := 0.
Definition ZIP_STR_14B : Z := 0x40.
Definition ZIP_STR_32B : Z := 0x80.
Definition ZIP_INT_16B : Z := 0xc0.
Definition ZIP_INT_32B : Z := 0xd0.
Definition ZIP_INT_64B : Z := 0xe0.
Definition ZIP_INT_24B : Z := 0xf0.
Definition ZIP_INT_8B : Z := 0xfe.
Definition ZIP_INT_IMM_MASK : Z := 0x0f.
Definition ZIP_INT_IMM_MIN : Z := 0xf1.
Definition ZIP_INT_IMM_MAX : Z := 0xfd.

Definition INT24_MAX : Z := 0x7fffff.
Definition INT24_MIN : Z := - INT24_MAX - 1.

Definition UINT16_MAX : Z := 0xffff.
Definition UCHAR_MAX : Z := 0xff.

Definition ZIP_IS_STR (enc : Z) : bool := Z.land enc ZIP_STR_MASK <? ZIP_STR_MASK.

Definition ZIPLIST_HEADER_SIZE : Z := 10.
Definition ZIPLIST_HEAD : Z := 0.
Definition ZIPLIST_TAIL : Z := 1.

Section code.
Context {host : Host} {alloc : Allocator}.
Implicit Types (zl : bytes) (p : Z).

(** ** The header *)

(** [intrev32ifbe(ZIPLIST_BYTES(zl))] and so on, and assigning to them. *)
Definition get_u32 zl p : option Z := b ← rd zl p 4; intrev32ifbe (host_dec b).
Definition set_u32 zl p (v : Z) : option bytes := v ← intrev32ifbe (u32 v); wr zl p (host_enc 4 v).

Definition ZIPLIST_BYTES zl : option Z := get_u32 zl 0.
Definition set_BYTES zl (v : Z) : option bytes := set_u32 zl 0 v.
Definition ZIPLIST_TAIL_OFFSET zl : option Z := get_u32 zl 4.
Definition set_TAIL_OFFSET zl (v : Z) : option bytes := set_u32 zl 4 v.

(** Without the conversion. *)
Definition ZIPLIST_LENGTH zl : option Z := b ← rd zl 8 2; Some (host_dec b).
Definition set_LENGTH zl (v : Z) : option bytes := v ← intrev16ifbe (u16 v); wr zl 8 (host_enc 2 v).

Definition ZIPLIST_ENTRY_HEAD : Z := ZIPLIST_HEADER_SIZE.
Definition ZIPLIST_ENTRY_TAIL zl : option Z := ZIPLIST_TAIL_OFFSET zl.
Definition ZIPLIST_ENTRY_END zl : option Z := n ← ZIPLIST_BYTES zl; Some (n - 1).

Definition ZIPLIST_INCR_LENGTH zl (incr : Z) : option bytes :=
  n ← ZIPLIST_LENGTH zl;
  if n <? UINT16_MAX then n ← intrev16ifbe n; set_LENGTH zl (n + incr) else Some zl.

(** ** Entries *)

Record zlentry := ZlEntry {
  prevrawlensize : Z;
  prevrawlen : Z;
  lensize : Z;
  zlen_ : Z;
  headersize : Z;
  encoding : Z;
}.

Definition ZIP_ENTRY_ENCODING zl p : option Z :=
  c ← rd1 zl p; Some (if c <? ZIP_STR_MASK then Z.land c ZIP_STR_MASK else c).

Definition zipIntSize (encoding : Z) : Z :=
  if encoding =? ZIP_INT_8B then 1
  else if encoding =? ZIP_INT_16B then 2
  else if encoding =? ZIP_INT_24B then 3
  else if encoding =? ZIP_INT_32B then 4
  else if encoding =? ZIP_INT_64B then 8
  else 0.

(** [buf], up to [len]; with the pointer [NULL] the function returns only its
    length. *)
Definition zipEncodeLength_buf (encoding rawlen : Z) : bytes :=
  if ZIP_IS_STR encoding then
    if rawlen <=? 0x3f then [Z.lor ZIP_STR_06B rawlen]
    else if rawlen <=? 0x3fff then [Z.lor ZIP_STR_14B (Z.land (Z.shiftr rawlen 8) 0x3f); Z.land rawlen 0xff]
    else [ZIP_STR_32B; Z.land (Z.shiftr rawlen 24) 0xff; Z.land (Z.shiftr rawlen 16) 0xff;
          Z.land (Z.shiftr rawlen 8) 0xff; Z.land rawlen 0xff]
  else [encoding].

(** The block and the number of bytes written. *)
Definition zipEncodeLength zl p (encoding rawlen : Z) : option (bytes * Z) :=
  let buf := zipEncodeLength_buf encoding rawlen in
  zl ← wr zl p buf; Some (zl, zlen buf).

(** The encoding, the size of the header field and the length. *)
Definition ZIP_DECODE_LENGTH zl p : option (Z * Z * Z) :=
  encoding ← ZIP_ENTRY_ENCODING zl p;
  if encoding <? ZIP_STR_MASK then
    c0 ← rd1 zl p;
    if encoding =? ZIP_STR_06B then Some (encoding, 1, Z.land c0 0x3f)
    else if encoding =? ZIP_STR_14B then
      c1 ← rd1 zl (p + 1);
      Some (encoding, 2, Z.lor (Z.shiftl (Z.land c0 0x3f) 8) c1)
    else
      c1 ← rd1 zl (p + 1); c2 ← rd1 zl (p + 2); c3 ← rd1 zl (p + 3); c4 ← rd1 zl (p + 4);
      Some (encoding, 5, u32 (Z.lor (Z.lor (Z.lor (Z.shiftl c1 24) (Z.shiftl c2 16)) (Z.shiftl c3 8)) c4))
  else Some (encoding, 1, zipIntSize encoding).

(** [zipPrevEncodeLength(NULL,len)] *)
Definition zipPrevEncodeLength_size (len : Z) : Z := if len <? ZIP_BIGLEN then 1 else 5.

Definition zipPrevEncodeLengthForceLarge zl p (len : Z) : option bytes :=
  zl ← wr1 zl p ZIP_BIGLEN;
  zl ← wr zl (p + 1) (host_enc 4 len);
  memrev32ifbe zl (p + 1).

Definition zipPrevEncodeLength zl p (len : Z) : option (bytes * Z) :=
  if len <? ZIP_BIGLEN then zl ← wr1 zl p (u8 len); Some (zl, 1)
  else zl ← zipPrevEncodeLengthForceLarge zl p len; Some (zl, 5).

Definition ZIP_DECODE_PREVLENSIZE zl p : option Z :=
  c ← rd1 zl p; Some (if c <? ZIP_BIGLEN then 1 else 5).

(** The size and the length of the previous entry. *)
Definition ZIP_DECODE_PREVLEN zl p : option (Z * Z) :=
  prevlensize ← ZIP_DECODE_PREVLENSIZE zl p;
  if prevlensize =? 1 then c ← rd1 zl p; Some (prevlensize, c)
  else
    b ← rd zl (p + 1) 4;
    b ← memrev32ifbe b 0;
    Some (prevlensize, host_dec b).

Definition zipPrevLenByteDiff zl p (len : Z) : option Z :=
  prevlensize ← ZIP_DECODE_PREVLENSIZE zl p;
  Some (s32 (u32 (zipPrevEncodeLength_size len - prevlensize))).

Definition zipRawEntryLength zl p : option Z :=
  prevlensize ← ZIP_DECODE_PREVLENSIZE zl p;
  '(_, lensize, len) ← ZIP_DECODE_LENGTH zl (p + prevlensize);
  Some (u32 (prevlensize + lensize + len)).

(** The value and its encoding, if there is one. *)
Definition zipTryEncoding (entry : bytes) (entrylen : Z) : option (option (Z * Z)) :=
  if (entrylen >=? 32) || (entrylen =? 0) then Some None
  else
    v ← string2ll entry entrylen;
    Some (value ← v;
      Some (value,
        if (0 <=? value) && (value <=? 12) then u8 (ZIP_INT_IMM_MIN + value)
        else if (- 2 ^ 7 <=? value) && (value <=? 2 ^ 7 - 1) then ZIP_INT_8B
        else if (- 2 ^ 15 <=? value) && (value <=? 2 ^ 15 - 1) then ZIP_INT_16B
        else if (INT24_MIN <=? value) && (value <=? INT24_MAX) then ZIP_INT_24B
        else if (- 2 ^ 31 <=? value) && (value <=? 2 ^ 31 - 1) then ZIP_INT_32B
        else ZIP_INT_64B)).

Definition zipSaveInteger zl p (value encoding : Z) : option bytes :=
  if encoding =? ZIP_INT_8B then wr1 zl p (u8 value)
  else if encoding =? ZIP_INT_16B then zl ← wr zl p (host_enc 2 (s16 value)); memrev16ifbe zl p
  else if encoding =? ZIP_INT_24B then
    i32 ← memrev32ifbe (host_enc 4 (s32 (Z.shiftl value 8))) 0;
    b ← rd i32 1 3;
    wr zl p b
  else if encoding =? ZIP_INT_32B then zl ← wr zl p (host_enc 4 (s32 value)); memrev32ifbe zl p
  else if encoding =? ZIP_INT_64B then zl ← wr zl p (host_enc 8 value); memrev64ifbe zl p
  else if (ZIP_INT_IMM_MIN <=? encoding) && (encoding <=? ZIP_INT_IMM_MAX) then Some zl
  else None.

Definition zipLoadInteger zl p (encoding : Z) : option Z :=
  if encoding =? ZIP_INT_8B then c ← rd1 zl p; Some (s8 c)
  else if encoding =? ZIP_INT_16B then b ← rd zl p 2; b ← memrev16ifbe b 0; Some (s16 (host_dec b))
  else if encoding =? ZIP_INT_32B then b ← rd zl p 4; b ← memrev32ifbe b 0; Some (s32 (host_dec b))
  else if encoding =? ZIP_INT_24B then
    b ← rd zl p 3;
    i32 ← wr (host_enc 4 0) 1 b;
    i32 ← memrev32ifbe i32 0;
    Some (Z.shiftr (s32 (host_dec i32)) 8)
  else if encoding =? ZIP_INT_64B then b ← rd zl p 8; b ← memrev64ifbe b 0; Some (s64 (host_dec b))
  else if (ZIP_INT_IMM_MIN <=? encoding) && (encoding <=? ZIP_INT_IMM_MAX) then Some (Z.land encoding ZIP_INT_IMM_MASK - 1)
  else None.

Definition zipEntry zl p : option zlentry :=
  '(prevrawlensize, prevrawlen) ← ZIP_DECODE_PREVLEN zl p;
  '(encoding, lensize, len) ← ZIP_DECODE_LENGTH zl (p + prevrawlensize);
  Some (ZlEntry prevrawlensize prevrawlen lensize len (u32 (prevrawlensize + lensize)) encoding).

(** ** Blocks *)

Definition ziplistNew : option bytes :=
  let bytes := ZIPLIST_HEADER_SIZE + 1 in
  let zl := zmalloc bytes in
  zl ← set_BYTES zl bytes;
  zl ← set_TAIL_OFFSET zl ZIPLIST_HEADER_SIZE;
  zl ← wr zl 8 (host_enc 2 0);
  wr1 zl (bytes - 1) ZIP_END.

Definition ziplistResize zl (len : Z) : option bytes :=
  let zl := zrealloc zl len in
  zl ← set_BYTES zl len;
  wr1 zl (len - 1) ZIP_END.

(** The state of the loop: [zl], [p] and [curlen]. *)
Definition cascade_body (st : bytes * Z * Z) : option (bytes * Z * Z + bytes) :=
  let '(zl, p, curlen) := st in
  c ← rd1 zl p;
  if c =? ZIP_END then Some (inr zl)
  else
    cur ← zipEntry zl p;
    let rawlen := u32 (headersize cur + zlen_ cur) in
    let rawlensize := zipPrevEncodeLength_size rawlen in
    c ← rd1 zl (p + rawlen);
    if c =? ZIP_END then Some (inr zl)
    else
      next ← zipEntry zl (p + rawlen);
      if prevrawlen next =? rawlen then Some (inr zl)
      else if prevrawlensize next <? rawlensize then
        let extra := rawlensize - prevrawlensize next in
        zl ← ziplistResize zl (u32 (curlen + extra));
        let np := p + rawlen in
        tail ← ZIPLIST_TAIL_OFFSET zl;
        zl ← (if negb (tail =? np) then set_TAIL_OFFSET zl (tail + extra) else Some zl);
        zl ← memmove zl (np + rawlensize) (np + prevrawlensize next) (curlen - np - prevrawlensize next - 1);
        '(zl, _) ← zipPrevEncodeLength zl np rawlen;
        Some (inl (zl, p + rawlen, curlen + extra))
      else if prevrawlensize next >? rawlensize then
        zl ← zipPrevEncodeLengthForceLarge zl (p + rawlen) rawlen; Some (inr zl)
      else
        '(zl, _) ← zipPrevEncodeLength zl (p + rawlen) rawlen; Some (inr zl).

(** Each round passes an entry of at least two bytes. *)
Definition __ziplistCascadeUpdate zl p : option bytes :=
  curlen ← ZIPLIST_BYTES zl;
  loop (length zl) cascade_body (zl, p, curlen).

(** [for (i = 0; p[0] != ZIP_END && i < num; i++)]: the state is [p] and
    [deleted], which is [i]. *)
Definition zl_skip_body zl (num : Z) (st : Z * Z) : option (Z * Z + Z * Z) :=
  let '(p, deleted) := st in
  c ← rd1 zl p;
  if negb (c =? ZIP_END) && (deleted <? num) then
    n ← zipRawEntryLength zl p;
    Some (inl (p + n, deleted + 1))
  else Some (inr (p, deleted)).

Definition __ziplistDelete zl p (num : Z) : option bytes :=
  first ← zipEntry zl p;
  let first_p := p in
  '(p, deleted) ← loop (length zl) (zl_skip_body zl num) (p, 0);
  let totlen := u32 (p - first_p) in
  if totlen >? 0 then
    c ← rd1 zl p;
    '(zl, nextdiff) ← (if negb (c =? ZIP_END) then
       nextdiff ← zipPrevLenByteDiff zl p (prevrawlen first);
       let p := p - nextdiff in
       '(zl, _) ← zipPrevEncodeLength zl p (prevrawlen first);
       t ← ZIPLIST_TAIL_OFFSET zl;
       zl ← set_TAIL_OFFSET zl (t - totlen);
       tail ← zipEntry zl p;
       c ← rd1 zl (p + u32 (headersize tail + zlen_ tail));
       zl ← (if negb (c =? ZIP_END) then t ← ZIPLIST_TAIL_OFFSET zl; set_TAIL_OFFSET zl (t + nextdiff) else Some zl);
       n ← ZIPLIST_BYTES zl;
       zl ← memmove zl first_p p (n - p - 1);
       Some (zl, nextdiff)
     else
       zl ← set_TAIL_OFFSET zl (first_p - prevrawlen first);
       Some (zl, 0));
    n ← ZIPLIST_BYTES zl;
    zl ← ziplistResize zl (u32 (n - totlen + nextdiff));
    zl ← ZIPLIST_INCR_LENGTH zl (- deleted);
    if negb (nextdiff =? 0) then __ziplistCascadeUpdate zl first_p else Some zl
  else Some zl.

(** The new entry's previous length. *)
Definition insert_prevlen zl p : option Z :=
  c ← rd1 zl p;
  if negb (c =? ZIP_END) then '(_, prevlen) ← ZIP_DECODE_PREVLEN zl p; Some prevlen
  else
    ptail ← ZIPLIST_ENTRY_TAIL zl;
    c ← rd1 zl ptail;
    if negb (c =? ZIP_END) then zipRawEntryLength zl ptail else Some 0.

Definition __ziplistInsert zl p (s : bytes) (slen : Z) : option bytes :=
  curlen ← ZIPLIST_BYTES zl;
  prevlen ← insert_prevlen zl p;
  enc ← zipTryEncoding s slen;
  (* [encoding] stays 0 when the entry cannot be encoded *)
  let '(value, encoding) := default (123456789, 0) enc in
  let reqlen := (if enc is Some _ then zipIntSize encoding else slen)
                + zipPrevEncodeLength_size prevlen + zlen (zipEncodeLength_buf encoding slen) in
  c ← rd1 zl p;
  nextdiff ← (if negb (c =? ZIP_END) then zipPrevLenByteDiff zl p (u32 reqlen) else Some 0);
  zl ← ziplistResize zl (u32 (curlen + reqlen + nextdiff));
  c ← rd1 zl p;
  zl ← (if negb (c =? ZIP_END) then
    zl ← memmove zl (p + reqlen) (p - nextdiff) (curlen - p - 1 + nextdiff);
    '(zl, _) ← zipPrevEncodeLength zl (p + reqlen) (u32 reqlen);
    t ← ZIPLIST_TAIL_OFFSET zl;
    zl ← set_TAIL_OFFSET zl (t + reqlen);
    tail ← zipEntry zl (p + reqlen);
    c ← rd1 zl (p + (reqlen + headersize tail + zlen_ tail));
    if negb (c =? ZIP_END) then t ← ZIPLIST_TAIL_OFFSET zl; set_TAIL_OFFSET zl (t + nextdiff) else Some zl
  else set_TAIL_OFFSET zl p);
  zl ← (if negb (nextdiff =? 0) then __ziplistCascadeUpdate zl (p + reqlen) else Some zl);
  '(zl, n1) ← zipPrevEncodeLength zl p prevlen;
  '(zl, n2) ← zipEncodeLength zl (p + n1) encoding slen;
  let p := p + n1 + n2 in
  zl ← (if ZIP_IS_STR encoding then b ← rd s 0 slen; wr zl p b else zipSaveInteger zl p value encoding);
  ZIPLIST_INCR_LENGTH zl 1.

(** ** The interface *)

Definition ziplistPush zl (s : bytes) (slen where_ : Z) : option bytes :=
  p ← (if where_ =? ZIPLIST_HEAD then Some ZIPLIST_ENTRY_HEAD else ZIPLIST_ENTRY_END zl);
  __ziplistInsert zl p s slen.

(** The state of both loops: [p], [prevlen] (backward only) and [index]; the
    condition is evaluated from left to right, with its side effect. *)
Definition index_back_body zl (st : Z * Z * Z) : option (Z * Z * Z + Z * Z) :=
  let '(p, prevlen, index) := st in
  if prevlen >? 0 then
    if index =? 0 then Some (inr (p, index - 1))
    else
      let p := p - prevlen in
      '(_, prevlen) ← ZIP_DECODE_PREVLEN zl p;
      Some (inl (p, prevlen, index - 1))
  else Some (inr (p, index)).

Definition index_forw_body zl (st : Z * Z) : option (Z * Z + Z * Z) :=
  let '(p, index) := st in
  c ← rd1 zl p;
  if negb (c =? ZIP_END) then
    if index =? 0 then Some (inr (p, index - 1))
    else n ← zipRawEntryLength zl p; Some (inl (p + n, index - 1))
  else Some (inr (p, index)).

(** [NULL] is [None]. *)
Definition ziplistIndex zl (index : Z) : option (option Z) :=
  '(p, index) ← (if index <? 0 then
     let index := - index - 1 in
     p ← ZIPLIST_ENTRY_TAIL zl;
     c ← rd1 zl p;
     if negb (c =? ZIP_END) then
       '(_, prevlen) ← ZIP_DECODE_PREVLEN zl p;
       loop (length zl) (index_back_body zl) (p, prevlen, index)
     else Some (p, index)
   else loop (length zl) (index_forw_body zl) (ZIPLIST_ENTRY_HEAD, index));
  c ← rd1 zl p;
  Some (if (c =? ZIP_END) || (index >? 0) then None else Some p).

Definition ziplistNext zl p : option (option Z) :=
  c ← rd1 zl p;
  if c =? ZIP_END then Some None
  else
    n ← zipRawEntryLength zl p;
    let p := p + n in
    c ← rd1 zl p;
    Some (if c =? ZIP_END then None else Some p).

Definition ziplistPrev zl p : option (option Z) :=
  c ← rd1 zl p;
  if c =? ZIP_END then
    p ← ZIPLIST_ENTRY_TAIL zl;
    c ← rd1 zl p;
    Some (if c =? ZIP_END then None else Some p)
  else if p =? ZIPLIST_ENTRY_HEAD then Some None
  else
    '(_, prevlen) ← ZIP_DECODE_PREVLEN zl p;
    check prevlen >? 0 ;; Some (Some (p - prevlen)).

(** [None] for the result 0, else the bytes of a string, or an integer. *)
Definition ziplistGet zl (p : option Z) : option (option (bytes + Z)) :=
  match p with
  | None => Some None
  | Some p =>
    c ← rd1 zl p;
    if c =? ZIP_END then Some None
    else
      entry ← zipEntry zl p;
      if ZIP_IS_STR (encoding entry) then
        s ← rd zl (p + headersize entry) (zlen_ entry); Some (Some (inl s))
      else
        v ← zipLoadInteger zl (p + headersize entry) (encoding entry); Some (Some (inr v))
  end.

Definition ziplistInsert zl p (s : bytes) (slen : Z) : option bytes := __ziplistInsert zl p s slen.

(** Returns [zl] and [p]. *)
Definition ziplistDelete zl p : option (bytes * Z) :=
  zl ← __ziplistDelete zl p 1; Some (zl, p).

Definition ziplistDeleteRange zl (index num : Z) : option bytes :=
  p ← ziplistIndex zl (s32 index);
  match p with
  | None => Some zl
  | Some p => __ziplistDelete zl p num
  end.

Definition ziplistCompare zl p (sstr : bytes) (slen : Z) : option bool :=
  c ← rd1 zl p;
  if c =? ZIP_END then Some false
  else
    entry ← zipEntry zl p;
    if ZIP_IS_STR (encoding entry) then
      if zlen_ entry =? slen then
        a ← rd zl (p + headersize entry) slen; b ← rd sstr 0 slen; Some (bool_decide (a = b))
      else Some false
    else
      e ← zipTryEncoding sstr slen;
      match e with
      | Some (sval, _) =>
        zval ← zipLoadInteger zl (p + headersize entry) (encoding entry); Some (zval =? sval)
      | None => Some false
      end.

(** The state: [p], [skipcnt], [vencoding] and [vll]. *)
Definition zl_find_body zl (vstr : bytes) (vlen skip : Z) (st : Z * Z * Z * Z) : option (Z * Z * Z * Z + option Z) :=
  let '(p, skipcnt, vencoding, vll) := st in
  c ← rd1 zl p;
  if c =? ZIP_END then Some (inr None)
  else
    prevlensize ← ZIP_DECODE_PREVLENSIZE zl p;
    '(encoding, lensize, len) ← ZIP_DECODE_LENGTH zl (p + prevlensize);
    let q := p + prevlensize + lensize in
    if skipcnt =? 0 then
      if ZIP_IS_STR encoding then
        found ← (if len =? vlen then a ← rd zl q vlen; b ← rd vstr 0 vlen; Some (bool_decide (a = b)) else Some false);
        Some (if (found : bool) then inr (Some p) else inl (q + len, skip, vencoding, vll))
      else
        '(vencoding, vll) ← (if vencoding =? 0 then
            e ← zipTryEncoding vstr vlen;
            Some (match e with Some (v, enc) => (enc, v) | None => (UCHAR_MAX, vll) end)
          else Some (vencoding, vll));
        check negb (vencoding =? 0) ;;
        found ← (if negb (vencoding =? UCHAR_MAX) then ll ← zipLoadInteger zl q encoding; Some (ll =? vll) else Some false);
        Some (if (found : bool) then inr (Some p) else inl (q + len, skip, vencoding, vll))
    else Some (inl (q + len, skipcnt - 1, vencoding, vll)).

Definition ziplistFind zl p (vstr : bytes) (vlen skip : Z) : option (option Z) :=
  loop (length zl) (zl_find_body zl vstr vlen skip) (p, 0, 0, 0).

Definition count_body zl (st : Z * Z) : option (Z * Z + Z) :=
  let '(p, len) := st in
  c ← rd1 zl p;
  if negb (c =? ZIP_END) then n ← zipRawEntryLength zl p; Some (inl (p + n, len + 1)) else Some (inr len).

(** The length, and the list with its length stored. *)
Definition ziplistLen zl : option (Z * bytes) :=
  n ← ZIPLIST_LENGTH zl;
  n ← intrev16ifbe n;
  if n <? UINT16_MAX then Some (n, zl)
  else
    len ← loop (length zl) (count_body zl) (ZIPLIST_HEADER_SIZE, 0);
    zl ← (if len <? UINT16_MAX then set_LENGTH zl len else Some zl);
    Some (len, zl).

Definition ziplistBlobLen zl : option Z := ZIPLIST_BYTES zl.
End code.
