(* ===== verification/ZiplistSpec.v ===== *)
(** * The bytes of a ziplist as a list of entries *)

From S2P Require Import Prelude Endian Util Object Ziplist.

#[local] Open Scope Z_scope.

(** ** What is kept in an entry *)

Inductive item :=
  | Str (s : bytes)
  | Num (enc v : Z)
  | Hole (x : Z) (rest : bytes). (* room where an entry is still to be written *)

(** The byte strings and integers that are the same for a client have the same text. *)
Definition item_text (it : item) : bytes :=
  match it with Str s => s | Num _ v => dec_signed v | Hole _ _ => [] end.

Definition num_ok (enc v : Z) : Prop :=
  enc = ZIP_INT_8B ∧ in_s 8 v ∨ enc = ZIP_INT_16B ∧ in_s 16 v ∨ enc = ZIP_INT_24B ∧ in_s 24 v ∨
  enc = ZIP_INT_32B ∧ in_s 32 v ∨ enc = ZIP_INT_64B ∧ in_s 64 v ∨
  ZIP_INT_IMM_MIN ≤ enc ≤ ZIP_INT_IMM_MAX ∧ v = enc - ZIP_INT_IMM_MIN.

Definition item_ok (it : item) : Prop :=
  match it with Str s => zlen s < 2 ^ 32 | Num enc v => num_ok enc v | Hole _ _ => False end.

Definition item_enc (it : item) : Z :=
  match it with
  | Str s => if zlen s <=? 0x3f then ZIP_STR_06B else if zlen s <=? 0x3fff then ZIP_STR_14B else ZIP_STR_32B
  | Num enc _ | Hole enc _ => enc
  end.

(** The length field or encoding byte, and the payload. *)
Definition item_head (it : item) : bytes :=
  match it with Str s => zipEncodeLength_buf 0 (zlen s) | Num enc _ | Hole enc _ => [enc] end.
Definition item_data (it : item) : bytes :=
  match it with Str s => s | Num enc v => le_enc (Z.to_nat (zipIntSize enc)) v | Hole _ rest => rest end.

(** An entry: the width of its field for the previous length, that length, the item. *)
Record pentry := PEntry { large : bool; prevl : Z; itm : item }.

Definition prev_size (l : bool) : Z := if l then 5 else 1.
Definition prev_bytes (l : bool) (n : Z) : bytes := if l then ZIP_BIGLEN :: le_enc 4 n else [n].

Definition pe_bytes (e : pentry) : bytes :=
  prev_bytes (large e) (prevl e) ++ item_head (itm e) ++ item_data (itm e).
Definition pe_len (e : pentry) : Z := zlen (pe_bytes e).

Definition pe_ok (e : pentry) : Prop :=
  item_ok (itm e) ∧ 0 ≤ prevl e < (if large e then 2 ^ 32 else ZIP_BIGLEN) ∧ pe_len e < 2 ^ 32.

Lemma length_prev_bytes l n : zlen (prev_bytes l n) = prev_size l.
Proof. destruct l; [|done]. unfold prev_bytes. cbn [length]. by rewrite length_le_enc. Qed.

Lemma prev_size_pos l : prev_size l = 1 ∨ prev_size l = 5.
Proof. destruct l; auto. Qed.

Lemma pe_len_eq e : pe_len e = prev_size (large e) + zlen (item_head (itm e)) + zlen (item_data (itm e)).
Proof. unfold pe_len, pe_bytes. rewrite !length_app, <-(length_prev_bytes (large e) (prevl e)). lia. Qed.

Lemma item_head_length it : 1 ≤ zlen (item_head it) ≤ 5.
Proof.
  destruct it as [s|enc v|x rest]; [|simpl; lia..]. unfold item_head, zipEncodeLength_buf.
  change (ZIP_IS_STR 0) with true. cbv iota. destruct (_ <=? 0x3f); [simpl; lia|]. destruct (_ <=? 0x3fff); simpl; lia.
Qed.

Lemma pe_len_pos e : 2 ≤ pe_len e.
Proof. rewrite pe_len_eq. pose proof (item_head_length (itm e)). destruct (prev_size_pos (large e)); lia. Qed.

Lemma num_ok_enc enc v : num_ok enc v → 192 ≤ enc < 255.
Proof.
  unfold num_ok, ZIP_INT_8B, ZIP_INT_16B, ZIP_INT_24B, ZIP_INT_32B, ZIP_INT_64B, ZIP_INT_IMM_MIN, ZIP_INT_IMM_MAX. lia.
Qed.

Lemma IS_STR_item it : item_ok it → ZIP_IS_STR (item_enc it) = match it with Str _ => true | _ => false end.
Proof.
  destruct it as [s|enc v|x rest]; cbn; [| |done].
  - intros _. destruct (_ <=? 0x3f); [done|]. by destruct (_ <=? 0x3fff).
  - intros Hn%num_ok_enc. unfold ZIP_IS_STR, ZIP_STR_MASK.
    assert (forallb (λ x, negb (Z.land x 0xc0 <? 0xc0)) (seqZ 192 63) = true) as Hall by by vm_compute.
    rewrite forallb_forall in Hall. specialize (Hall enc).
    rewrite negb_true_iff in Hall. apply Hall, list_elem_of_In, elem_of_seqZ. lia.
Qed.

(** ** Integers in memory *)

Section integers.
Context {host : Host}.

Lemma host_load n v :
  int_width n → in_u (8 * Z.of_nat n) v → intrev_ifbe n (host_dec (le_enc n v)) = Some v.
Proof.
  intros Hn Hv. unfold host_dec. destruct big_endian eqn:E.
  - assert (intrev_ifbe n = intrev n) as -> by (destruct Hn as [->|[->| ->]]; cbn;
      unfold intrev16ifbe, intrev32ifbe, intrev64ifbe; by rewrite E).
    rewrite intrev_spec by done. f_equal. by apply rev_le_dec_involutive.
  - assert (∀ x, intrev_ifbe n x = Some x) as -> by (intros x; destruct Hn as [->|[->| ->]]; cbn;
      unfold intrev16ifbe, intrev32ifbe, intrev64ifbe; by rewrite E).
    f_equal. rewrite wrap_le_dec_enc. by apply wrap_small.
Qed.

Lemma le_enc_wrap n v : le_enc n (wrap (8 * Z.of_nat n) v) = le_enc n v.
Proof. rewrite <-(le_enc_mod n v), pow256_pow2. done. Qed.

Lemma host_store n v :
  int_width n → ∃ v', intrev_ifbe n (wrap (8 * Z.of_nat n) v) = Some v' ∧ host_enc n v' = le_enc n v.
Proof.
  intros Hn. unfold host_enc. destruct big_endian eqn:E.
  - assert (intrev_ifbe n = intrev n) as -> by (destruct Hn as [->|[->| ->]]; cbn;
      unfold intrev16ifbe, intrev32ifbe, intrev64ifbe; by rewrite E).
    rewrite intrev_spec by done. eexists. split; [done|]. rewrite le_enc_wrap.
    set (bs := reverse (le_enc n v)).
    assert (length bs = n) as Hl by (unfold bs; by rewrite length_reverse, length_le_enc).
    rewrite <-Hl at 1. rewrite le_enc_dec by apply Forall_reverse, le_enc_bytes. unfold bs. by rewrite reverse_involutive.
  - exists (wrap (8 * Z.of_nat n) v). split; [|apply le_enc_wrap].
    destruct Hn as [->|[->| ->]]; cbn; unfold intrev16ifbe, intrev32ifbe, intrev64ifbe; by rewrite E.
Qed.

Lemma load_bytes n bs :
  int_width n → length bs = n → (b ← memrev_ifbe n bs 0; Some (host_dec b)) = Some (le_dec bs).
Proof.
  intros Hn Hl. pose proof (memrev_ifbe_spec n [] bs [] Hn Hl) as Hm. rewrite !app_nil_r in Hm. cbn [app length] in Hm.
  change (Z.of_nat 0) with 0 in Hm. rewrite Hm, bind_Some_eq. unfold host_dec. destruct big_endian; by rewrite ?reverse_involutive.
Qed.

Lemma get_u32_run pre v post p :
  p = zlen pre → in_u 32 v → get_u32 (pre ++ le_enc 4 v ++ post) p = Some v.
Proof.
  intros Hp Hv. unfold get_u32. rewrite (rd_app pre (le_enc 4 v)) by (rewrite ?length_le_enc; done).
  rewrite bind_Some_eq. apply (host_load 4); [by right; left|done].
Qed.

Lemma set_u32_run pre old post p v :
  p = zlen pre → length old = 4%nat → set_u32 (pre ++ old ++ post) p v = Some (pre ++ le_enc 4 v ++ post).
Proof.
  intros Hp Hl. unfold set_u32. destruct (host_store 4 v) as (v' & Hv' & Henc); [by right; left|].
  change (intrev32ifbe (u32 v)) with (intrev_ifbe 4 (wrap (8 * Z.of_nat 4) v)). rewrite Hv', bind_Some_eq, Henc.
  apply wr_app; [done|by rewrite length_le_enc].
Qed.
End integers.

(** ** Reading entries *)

Section reading.
Context {host : Host}.
Implicit Types (zl pre post : bytes) (p : Z).

Lemma rd1_cons pre x l p : p = zlen pre → rd1 (pre ++ x :: l) p = Some x.
Proof. apply rd1_app. Qed.

(** The byte at offset [k] behind [pre]. *)
Lemma rd1_at pre bs post p k x :
  p = zlen pre + Z.of_nat k → bs !! k = Some x → rd1 (pre ++ bs ++ post) p = Some x.
Proof.
  intros -> Hx. rewrite rd1_lookup by lia. rewrite lookup_app_r by lia.
  replace (Z.to_nat (zlen pre + Z.of_nat k) - length pre)%nat with k by lia.
  by apply lookup_app_l_Some.
Qed.

Lemma str_len_small n : 0 ≤ n < 64 → Z.lor ZIP_STR_06B n = n ∧ Z.land n 0xc0 = 0 ∧ Z.land n 0x3f = n.
Proof.
  intros Hn. pose proof (check_range (λ n, (Z.lor ZIP_STR_06B n =? n) && (Z.land n 0xc0 =? 0) && (Z.land n 0x3f =? n)) 64
    ltac:(by vm_compute) n Hn). lia.
Qed.

Lemma str_len_middle n :
  0 ≤ n < 64 → Z.land n 0x3f = n ∧ Z.lor ZIP_STR_14B n = 64 + n ∧ Z.land (64 + n) 0xc0 = 64 ∧ Z.land (64 + n) 0x3f = n.
Proof.
  intros Hn. pose proof (check_range (λ n, (Z.land n 0x3f =? n) && (Z.lor ZIP_STR_14B n =? 64 + n) &&
    (Z.land (64 + n) 0xc0 =? 64) && (Z.land (64 + n) 0x3f =? n)) 64 ltac:(by vm_compute) n Hn). lia.
Qed.

Lemma four_bytes n :
  in_u 32 n →
  u32 (Z.lor (Z.lor (Z.lor (Z.shiftl (n / 2 ^ 24 mod 256) 24) (Z.shiftl (n / 2 ^ 16 mod 256) 16))
    (Z.shiftl (n / 2 ^ 8 mod 256) 8)) (n mod 256)) = n.
Proof.
  unfold in_u. intros Hn. rewrite !Z.shiftl_mul_pow2 by lia.
  set (a := n / 2 ^ 24 mod 256). set (b := n / 2 ^ 16 mod 256). set (c := n / 2 ^ 8 mod 256). set (d := n mod 256).
  assert (0 ≤ a < 256 ∧ 0 ≤ b < 256 ∧ 0 ≤ c < 256 ∧ 0 ≤ d < 256) as (Ha & Hb & Hc & Hd) by (unfold a, b, c, d; dlia).
  rewrite (lor_add a) by lia.
  replace (a * 2 ^ 24 + b * 2 ^ 16) with ((a * 256 + b) * 2 ^ 16) by lia. rewrite lor_add by lia.
  replace ((a * 256 + b) * 2 ^ 16 + c * 2 ^ 8) with (((a * 256 + b) * 256 + c) * 2 ^ 8) by lia. rewrite lor_add by lia.
  assert (((a * 256 + b) * 256 + c) * 2 ^ 8 + d = n) as -> by (unfold a, b, c, d; dlia).
  by apply wrap_small.
Qed.

Lemma ZIP_DECODE_LENGTH_run pre it post p :
  item_ok it → p = zlen pre →
  ZIP_DECODE_LENGTH (pre ++ item_head it ++ post) p =
    Some (item_enc it, zlen (item_head it), zlen (item_data it)).
Proof.
  intros Hit Hp. unfold ZIP_DECODE_LENGTH, ZIP_ENTRY_ENCODING.
  destruct it as [s|enc v|x rest]; [| |done]; cbn [item_head item_enc item_data] in *.
  - unfold zipEncodeLength_buf. change (ZIP_IS_STR 0) with true. cbv iota. simpl in Hit.
    destruct (Z.leb_spec (zlen s) 0x3f) as [H1|H1].
    { destruct (str_len_small (zlen s)) as (-> & Hl & Hm); [lia|].
      rewrite (rd1_at pre _ post p 0 (zlen s)) by (done || lia). rewrite !bind_Some_eq.
      destruct (zlen s <? ZIP_STR_MASK) eqn:E; unfold ZIP_STR_MASK in *; [|lia]. rewrite Hl.
      change (0 <? 192) with true. change (0 =? ZIP_STR_06B) with true. cbv iota. by rewrite Hm. }
    destruct (Z.leb_spec (zlen s) 0x3fff) as [H2|H2].
    { rewrite Z.shiftr_div_pow2, land_255 by lia. change (2 ^ 8) with 256.
      destruct (str_len_middle (zlen s / 256)) as (-> & -> & Hl & Hm); [dlia|].
      rewrite (rd1_at pre _ post p 0 (64 + zlen s / 256)) by (done || lia). rewrite !bind_Some_eq.
      destruct (64 + zlen s / 256 <? ZIP_STR_MASK) eqn:E; unfold ZIP_STR_MASK in *; [|dlia]. rewrite Hl.
      change (64 <? 192) with true. change (64 =? ZIP_STR_06B) with false. change (64 =? ZIP_STR_14B) with true. cbv iota.
      rewrite (rd1_at pre _ post (p + 1) 1 (zlen s mod 256)) by (done || lia). rewrite bind_Some_eq, Hm.
      rewrite Z.shiftl_mul_pow2, lor_add by dlia. change (2 ^ 8) with 256. do 3 f_equal. dlia. }
    rewrite !Z.shiftr_div_pow2, !land_255 by lia. match goal with |- context [rd1 (pre ++ ?x ++ post)] => set (bs := x) end.
    rewrite (rd1_at pre bs post p 0 ZIP_STR_32B) by (done || lia). rewrite !bind_Some_eq.
    change (ZIP_STR_32B <? ZIP_STR_MASK) with true. cbv iota. change (Z.land ZIP_STR_32B ZIP_STR_MASK) with 128.
    change (128 <? ZIP_STR_MASK) with true. change (128 =? ZIP_STR_06B) with false. change (128 =? ZIP_STR_14B) with false. cbv iota.
    rewrite (rd1_at pre bs post (p + 1) 1 (zlen s / 2 ^ 24 mod 256)) by (done || lia).
    rewrite (rd1_at pre bs post (p + 2) 2 (zlen s / 2 ^ 16 mod 256)) by (done || lia).
    rewrite (rd1_at pre bs post (p + 3) 3 (zlen s / 2 ^ 8 mod 256)) by (done || lia).
    rewrite (rd1_at pre bs post (p + 4) 4 (zlen s mod 256)) by (done || lia). rewrite !bind_Some_eq.
    rewrite four_bytes by (split; lia). done.
  - pose proof (num_ok_enc _ _ Hit) as He. rewrite (rd1_at pre [enc] post p 0 enc) by (done || lia). rewrite !bind_Some_eq.
    destruct (enc <? ZIP_STR_MASK) eqn:E; unfold ZIP_STR_MASK in *; [lia|]. rewrite E, length_le_enc.
    assert (0 ≤ zipIntSize enc) by (unfold zipIntSize; repeat case_match; lia). do 3 f_equal. lia.
Qed.

Lemma PREVLENSIZE_run pre (l : bool) (n : Z) post p :
  0 ≤ n < (if l then 2 ^ 32 else ZIP_BIGLEN) → p = zlen pre →
  ZIP_DECODE_PREVLENSIZE (pre ++ prev_bytes l n ++ post) p = Some (prev_size l).
Proof.
  intros Hn Hp. unfold ZIP_DECODE_PREVLENSIZE, ZIP_BIGLEN in *. destruct l; cbn [prev_bytes prev_size].
  - by rewrite (rd1_at pre _ post p 0 254) by (done || lia).
  - rewrite (rd1_at pre _ post p 0 n) by (done || lia). rewrite bind_Some_eq. by destruct (n <? 254) eqn:E; [|lia].
Qed.

Lemma PREVLEN_run pre (l : bool) (n : Z) post p :
  0 ≤ n < (if l then 2 ^ 32 else ZIP_BIGLEN) → p = zlen pre →
  ZIP_DECODE_PREVLEN (pre ++ prev_bytes l n ++ post) p = Some (prev_size l, n).
Proof.
  intros Hn Hp. unfold ZIP_DECODE_PREVLEN. rewrite (PREVLENSIZE_run pre l n post p Hn Hp), bind_Some_eq.
  destruct l; cbn [prev_size Z.eqb Pos.eqb].
  - cbn [prev_bytes]. change (pre ++ (ZIP_BIGLEN :: le_enc 4 n) ++ post) with (pre ++ [ZIP_BIGLEN] ++ le_enc 4 n ++ post).
    rewrite app_assoc, (rd_app (pre ++ [ZIP_BIGLEN]) (le_enc 4 n)); rewrite ?length_app, ?length_le_enc; [|simpl; lia|done].
    rewrite bind_Some_eq. pose proof (load_le 4 n ltac:(by right; left)) as Hld. cbn [memrev_ifbe] in Hld.
    destruct (memrev32ifbe (le_enc 4 n) 0) as [b|]; [|done]. cbn in Hld. injection Hld as Hld.
    rewrite bind_Some_eq, Hld, wrap_small by done. done.
  - cbn [prev_bytes]. rewrite (rd1_at pre _ post p 0 n) by (done || lia). by rewrite bind_Some_eq.
Qed.

Definition entry_of (e : pentry) : zlentry :=
  ZlEntry (prev_size (large e)) (prevl e) (zlen (item_head (itm e))) (zlen (item_data (itm e)))
    (prev_size (large e) + zlen (item_head (itm e))) (item_enc (itm e)).

Lemma pe_bytes_app e post : pe_bytes e ++ post = prev_bytes (large e) (prevl e) ++ item_head (itm e) ++ item_data (itm e) ++ post.
Proof. unfold pe_bytes. by rewrite <-!app_assoc. Qed.

Lemma pe_decode pre e post p :
  pe_ok e → p = zlen pre →
  ZIP_DECODE_PREVLEN (pre ++ pe_bytes e ++ post) p = Some (prev_size (large e), prevl e) ∧
  ZIP_DECODE_PREVLENSIZE (pre ++ pe_bytes e ++ post) p = Some (prev_size (large e)) ∧
  ZIP_DECODE_LENGTH (pre ++ pe_bytes e ++ post) (p + prev_size (large e)) =
    Some (item_enc (itm e), zlen (item_head (itm e)), zlen (item_data (itm e))).
Proof.
  intros (Hit & Hpl & _) Hp. rewrite pe_bytes_app. split; [by apply PREVLEN_run|]. split; [by apply PREVLENSIZE_run|].
  rewrite app_assoc. apply ZIP_DECODE_LENGTH_run; [done|]. rewrite length_app, <-(length_prev_bytes (large e) (prevl e)). lia.
Qed.

Lemma zipEntry_run pre e post p :
  pe_ok e → p = zlen pre → zipEntry (pre ++ pe_bytes e ++ post) p = Some (entry_of e).
Proof.
  intros He Hp. destruct (pe_decode pre e post p He Hp) as (H1 & _ & H3). unfold zipEntry.
  rewrite H1, bind_Some_eq, H3, bind_Some_eq. unfold entry_of. do 2 f_equal.
  pose proof (item_head_length (itm e)). rewrite wrap_small; [done|]. destruct (prev_size_pos (large e)); split; lia.
Qed.

Lemma zipRawEntryLength_run pre e post p :
  pe_ok e → p = zlen pre → zipRawEntryLength (pre ++ pe_bytes e ++ post) p = Some (pe_len e).
Proof.
  intros He Hp. destruct (pe_decode pre e post p He Hp) as (_ & H2 & H3). unfold zipRawEntryLength.
  rewrite H2, bind_Some_eq, H3, bind_Some_eq, <-pe_len_eq. pose proof (pe_len_pos e). destruct He as (_ & _ & He).
  rewrite wrap_small by (split; lia). done.
Qed.

(** The first byte of an entry is not the end mark. *)
Lemma pe_first_byte pre e post p :
  pe_ok e → p = zlen pre → ∃ c, rd1 (pre ++ pe_bytes e ++ post) p = Some c ∧ (c =? ZIP_END) = false.
Proof.
  intros (_ & Hpl & _) Hp. rewrite pe_bytes_app. unfold prev_bytes, ZIP_BIGLEN, ZIP_END in *. destruct (large e).
  - exists 254. split; [|done]. by apply rd1_app.
  - exists (prevl e). split; [by apply rd1_app|lia].
Qed.

Lemma item_data_rd pre e post p :
  p = zlen pre + prev_size (large e) + zlen (item_head (itm e)) →
  rd (pre ++ pe_bytes e ++ post) p (zlen (item_data (itm e))) = Some (item_data (itm e)).
Proof.
  intros ->. rewrite pe_bytes_app, !app_assoc, <-app_assoc. apply rd_app; [|done].
  rewrite !length_app, <-(length_prev_bytes (large e) (prevl e)). lia.
Qed.

(** Integers of 8, 16, 32 and 64 bits. *)
Lemma load_int n pre v post p :
  int_width n → in_s (8 * Z.of_nat n) v → p = zlen pre →
  (b ← rd (pre ++ le_enc n v ++ post) p (Z.of_nat n); b ← memrev_ifbe n b 0; Some (swrap (8 * Z.of_nat n) (host_dec b))) = Some v.
Proof.
  intros Hn Hv Hp. rewrite (rd_app pre (le_enc n v)) by (rewrite ?length_le_enc; done). rewrite bind_Some_eq.
  pose proof (load_bytes n (le_enc n v) Hn (length_le_enc _ _)) as Hl.
  destruct (memrev_ifbe n (le_enc n v) 0) as [b|]; [|done]. rewrite bind_Some_eq in Hl |- *. injection Hl as ->.
  rewrite wrap_le_dec_enc, swrap_wrap_small; [done| |done]. destruct Hn as [->|[->| ->]]; lia.
Qed.

(** The tests on the encoding of an immediate integer. *)
Lemma imm_tests e :
  ZIP_INT_IMM_MIN ≤ e ≤ ZIP_INT_IMM_MAX →
  (e =? ZIP_INT_8B) = false ∧ (e =? ZIP_INT_16B) = false ∧ (e =? ZIP_INT_32B) = false ∧ (e =? ZIP_INT_24B) = false ∧
  (e =? ZIP_INT_64B) = false ∧ (ZIP_INT_IMM_MIN <=? e) = true ∧ (e <=? ZIP_INT_IMM_MAX) = true ∧
  Z.land e ZIP_INT_IMM_MASK = e - 240 ∧ zipIntSize e = 0.
Proof.
  unfold ZIP_INT_IMM_MIN, ZIP_INT_IMM_MAX. intros He.
  pose proof (check_range (λ i, let e := 241 + i in negb (e =? ZIP_INT_8B) && negb (e =? ZIP_INT_16B) &&
    negb (e =? ZIP_INT_32B) && negb (e =? ZIP_INT_24B) && negb (e =? ZIP_INT_64B) &&
    (Z.land e ZIP_INT_IMM_MASK =? e - 240) && (zipIntSize e =? 0)) 13 ltac:(by vm_compute) (e - 241) ltac:(lia)) as Hc.
  cbv beta zeta in Hc. replace (241 + (e - 241)) with e in Hc by lia. rewrite !andb_true_iff, !negb_true_iff in Hc.
  destruct Hc as [[[[[[-> ->] ->] ->] ->] H1] H2]. repeat (split; [done || lia|]). lia.
Qed.

Lemma zipLoadInteger_run pre enc v post p :
  num_ok enc v → p = zlen pre →
  zipLoadInteger (pre ++ le_enc (Z.to_nat (zipIntSize enc)) v ++ post) p enc = Some v.
Proof.
  intros Hok Hp. destruct Hok as [[-> Hv]|[[-> Hv]|[[-> Hv]|[[-> Hv]|[[-> Hv]|[Henc ->]]]]]]; unfold zipLoadInteger.
  - change (le_enc (Z.to_nat (zipIntSize ZIP_INT_8B)) v) with [v mod 256]. change (ZIP_INT_8B =? ZIP_INT_8B) with true.
    cbv iota. cbn [app]. rewrite (rd1_app pre) by done. rewrite bind_Some_eq. change (v mod 256) with (wrap 8 v).
    by rewrite swrap_wrap_small.
  - by apply (load_int 2); [left|..].
  - change (Z.to_nat (zipIntSize ZIP_INT_24B)) with 3%nat.
    change (ZIP_INT_24B =? ZIP_INT_8B) with false. change (ZIP_INT_24B =? ZIP_INT_16B) with false.
    change (ZIP_INT_24B =? ZIP_INT_32B) with false. change (ZIP_INT_24B =? ZIP_INT_24B) with true. cbv iota.
    rewrite (rd_app pre (le_enc 3 v)) by (rewrite ?length_le_enc; done). rewrite bind_Some_eq.
    assert (host_enc 4 0 = [0] ++ [0; 0; 0] ++ []) as -> by (unfold host_enc; by destruct big_endian).
    rewrite (wr_app [0] [0; 0; 0] [] 1 (le_enc 3 v)) by (by rewrite ?length_le_enc). rewrite bind_Some_eq, app_nil_r.
    pose proof (load_bytes 4 ([0] ++ le_enc 3 v) ltac:(by right; left) ltac:(by rewrite length_app, length_le_enc)) as Hl.
    cbn [memrev_ifbe] in Hl. destruct (memrev32ifbe ([0] ++ le_enc 3 v) 0) as [b|]; [|done].
    rewrite bind_Some_eq in Hl |- *. injection Hl as ->. f_equal.
    match goal with |- Z.shiftr (s32 ?x) 8 = _ => assert (x = wrap 32 (v * 256)) as -> by (unfold wrap; dlia) end.
    destruct Hv as [Hv1 Hv2]. simpl in Hv1, Hv2.
    rewrite swrap_wrap_small by (done || split; simpl; lia). rewrite Z.shiftr_div_pow2 by lia. change (2 ^ 8) with 256.
    by apply Z.div_mul.
  - by apply (load_int 4); [right; left|..].
  - by apply (load_int 8); [right; right|..].
  - destruct (imm_tests enc Henc) as (-> & -> & -> & -> & -> & -> & -> & -> & _). cbn [andb]. f_equal.
    unfold ZIP_INT_IMM_MIN. lia.
Qed.

(** Storing an integer over as many bytes as it needs. *)
Lemma store_int n pre mid v post p :
  int_width n → length mid = n → p = zlen pre →
  (zl ← wr (pre ++ mid ++ post) p (host_enc n v); memrev_ifbe n zl p) = Some (pre ++ le_enc n v ++ post).
Proof.
  intros Hn Hl ->. rewrite wr_app; [|done|by unfold host_enc; destruct big_endian; rewrite ?length_reverse, length_le_enc].
  rewrite bind_Some_eq. by apply store_le.
Qed.

Lemma host_enc_s n v : (0 < n)%nat → host_enc n (swrap (8 * Z.of_nat n) v) = host_enc n v.
Proof.
  intros Hn. unfold host_enc. assert (le_enc n (swrap (8 * Z.of_nat n) v) = le_enc n v) as ->; [|done].
  rewrite <-le_enc_mod, <-(le_enc_mod n v), !pow256_pow2. f_equal. apply wrap_swrap. lia.
Qed.

Lemma zipSaveInteger_run pre mid enc v post p :
  num_ok enc v → length mid = Z.to_nat (zipIntSize enc) → p = zlen pre →
  zipSaveInteger (pre ++ mid ++ post) p v enc = Some (pre ++ le_enc (Z.to_nat (zipIntSize enc)) v ++ post).
Proof.
  intros Hok Hl Hp. destruct Hok as [[-> Hv]|[[-> Hv]|[[-> Hv]|[[-> Hv]|[[-> Hv]|[Henc ->]]]]]]; unfold zipSaveInteger.
  - change (Z.to_nat (zipIntSize ZIP_INT_8B)) with 1%nat in *. change (ZIP_INT_8B =? ZIP_INT_8B) with true. cbv iota.
    by apply (wr_app pre mid post).
  - rewrite (host_enc_s 2) by lia. by apply (store_int 2); [left|..].
  - change (Z.to_nat (zipIntSize ZIP_INT_24B)) with 3%nat in *.
    change (ZIP_INT_24B =? ZIP_INT_8B) with false. change (ZIP_INT_24B =? ZIP_INT_16B) with false.
    change (ZIP_INT_24B =? ZIP_INT_24B) with true. cbv iota. rewrite (host_enc_s 4) by lia.
    pose proof (store_le 4 [] [] (Z.shiftl v 8) ltac:(by right; left)) as Hs. rewrite !app_nil_r in Hs. cbn [app length] in Hs.
    change (Z.of_nat 0) with 0 in Hs. cbn [memrev_ifbe] in Hs. rewrite Hs, bind_Some_eq.
    rewrite Z.shiftl_mul_pow2 by lia. change (2 ^ 8) with 256.
    assert (le_enc 4 (v * 256) = [0] ++ le_enc 3 v ++ []) as ->.
    { rewrite app_nil_r. cbn [le_enc app]. rewrite Z.mod_mul, Z.div_mul by lia. done. }
    rewrite (rd_app [0] (le_enc 3 v) []) by (by rewrite ?length_le_enc). rewrite bind_Some_eq.
    apply wr_app; [done|by rewrite length_le_enc].
  - change (s32 v) with (swrap (8 * Z.of_nat 4) v). rewrite (host_enc_s 4 v) by lia. by apply (store_int 4); [right; left|..].
  - by apply (store_int 8); [right; right|..].
  - destruct (imm_tests enc Henc) as (-> & -> & -> & -> & -> & -> & -> & _ & Hz). cbn [andb].
    rewrite Hz in *. by destruct mid.
Qed.
End reading.

(** ** Whole blocks *)

Definition header (tot tail c : Z) : bytes := le_enc 4 tot ++ le_enc 4 tail ++ le_enc 2 c.

Definition pes_bytes (ps : list pentry) : bytes := mjoin (pe_bytes <$> ps).
Definition body_len (ps : list pentry) : Z := zlen (pes_bytes ps).

(** The offset behind [ps]. *)
Definition off (ps : list pentry) : Z := ZIPLIST_HEADER_SIZE + body_len ps.

Definition layout (tot tail c : Z) (ps : list pentry) : bytes := header tot tail c ++ pes_bytes ps ++ [ZIP_END].

(** Each entry records the length of the one before it. *)
Fixpoint chain (prev : Z) (ps : list pentry) : Prop :=
  match ps with
  | [] => True
  | e :: ps => prevl e = prev ∧ chain (pe_len e) ps
  end.

Lemma length_header tot tail c : zlen (header tot tail c) = ZIPLIST_HEADER_SIZE.
Proof. unfold header. rewrite !length_app, !length_le_enc. done. Qed.

Lemma pes_bytes_app ps qs : pes_bytes (ps ++ qs) = pes_bytes ps ++ pes_bytes qs.
Proof. unfold pes_bytes. by rewrite fmap_app, join_app. Qed.

Lemma pes_bytes_cons e ps : pes_bytes (e :: ps) = pe_bytes e ++ pes_bytes ps.
Proof. done. Qed.

Lemma body_len_app ps qs : body_len (ps ++ qs) = body_len ps + body_len qs.
Proof. unfold body_len. rewrite pes_bytes_app, length_app. lia. Qed.

Lemma body_len_cons e ps : body_len (e :: ps) = pe_len e + body_len ps.
Proof. unfold body_len, pe_len. rewrite pes_bytes_cons, length_app. lia. Qed.

Lemma body_len_length ps : 2 * zlen ps ≤ body_len ps.
Proof.
  induction ps as [|e ps IH]; [done|]. rewrite body_len_cons. cbn [length]. pose proof (pe_len_pos e). lia.
Qed.

Lemma off_app ps qs : off (ps ++ qs) = off ps + body_len qs.
Proof. unfold off. rewrite body_len_app. lia. Qed.

Lemma chain_app prev ps qs :
  chain prev (ps ++ qs) ↔ chain prev ps ∧ chain (List.last (pe_len <$> ps) prev) qs.
Proof.
  revert prev. induction ps as [|e ps IH]; intros prev; [simpl; tauto|]. cbn [app chain fmap list_fmap]. rewrite IH.
  assert (List.last (pe_len e :: (pe_len <$> ps)) prev = List.last (pe_len <$> ps) (pe_len e)) as ->.
  { destruct ps as [|e2 ps]; [done|]. rewrite !fmap_cons. generalize (pe_len e2), (pe_len e), prev. clear.
    induction (pe_len <$> ps) as [|z l IH]; intros; [done|]. apply IH. }
  tauto.
Qed.

Section blocks.
Context {host : Host} {alloc : Allocator}.
Implicit Types (X pre post : bytes) (ps : list pentry).

(** *** The fields of the header *)

Lemma header_bytes tot tail c X :
  header tot tail c ++ X = [] ++ le_enc 4 tot ++ (le_enc 4 tail ++ le_enc 2 c ++ X).
Proof. unfold header. by rewrite <-!app_assoc. Qed.
Lemma header_tail tot tail c X :
  header tot tail c ++ X = le_enc 4 tot ++ le_enc 4 tail ++ (le_enc 2 c ++ X).
Proof. unfold header. by rewrite <-!app_assoc. Qed.
Lemma header_length tot tail c X :
  header tot tail c ++ X = (le_enc 4 tot ++ le_enc 4 tail) ++ le_enc 2 c ++ X.
Proof. unfold header. by rewrite <-!app_assoc. Qed.

Lemma BYTES_run tot tail c X : in_u 32 tot → ZIPLIST_BYTES (header tot tail c ++ X) = Some tot.
Proof. intros. rewrite header_bytes. by apply get_u32_run. Qed.

Lemma set_BYTES_run tot tail c X v : set_BYTES (header tot tail c ++ X) v = Some (header v tail c ++ X).
Proof. rewrite header_bytes, (header_bytes v). apply set_u32_run; [done|by rewrite length_le_enc]. Qed.

Lemma TAIL_run tot tail c X : in_u 32 tail → ZIPLIST_TAIL_OFFSET (header tot tail c ++ X) = Some tail.
Proof. intros. rewrite header_tail. apply get_u32_run; [by rewrite length_le_enc|done]. Qed.

Lemma set_TAIL_run tot tail c X v : set_TAIL_OFFSET (header tot tail c ++ X) v = Some (header tot v c ++ X).
Proof. rewrite header_tail, (header_tail tot v). apply set_u32_run; by rewrite length_le_enc. Qed.

Lemma LENGTH_run tot tail c X : ZIPLIST_LENGTH (header tot tail c ++ X) = Some (host_dec (le_enc 2 c)).
Proof.
  unfold ZIPLIST_LENGTH. rewrite header_length, (rd_app (le_enc 4 tot ++ le_enc 4 tail) (le_enc 2 c));
    by rewrite ?length_app, ?length_le_enc.
Qed.

Lemma set_LENGTH_run tot tail c X v : set_LENGTH (header tot tail c ++ X) v = Some (header tot tail v ++ X).
Proof.
  unfold set_LENGTH. destruct (host_store 2 v) as (v' & Hv' & Henc); [by left|].
  change (intrev16ifbe (u16 v)) with (intrev_ifbe 2 (wrap (8 * Z.of_nat 2) v)). rewrite Hv', bind_Some_eq, Henc.
  rewrite header_length, (header_length tot tail v). apply wr_app; by rewrite ?length_app, ?length_le_enc.
Qed.

(** The raw count reaches its maximum exactly when the count does. *)
Lemma raw_count c : in_u 16 c → (host_dec (le_enc 2 c) <? UINT16_MAX) = (c <? UINT16_MAX).
Proof.
  intros Hc. unfold in_u, host_dec, UINT16_MAX in *. destruct big_endian.
  - change (reverse (le_enc 2 c)) with [c / 256 mod 256; c mod 256].
    change (le_dec [c / 256 mod 256; c mod 256]) with (c / 256 mod 256 + 256 * (c mod 256 + 256 * 0)).
    apply eq_bool_prop_intro. rewrite !Is_true_true, !Z.ltb_lt. dlia.
  - rewrite wrap_le_dec_enc, wrap_small by done. done.
Qed.

Lemma INCR_run tot tail c X k :
  in_u 16 c →
  ZIPLIST_INCR_LENGTH (header tot tail c ++ X) k = Some (header tot tail (if c <? UINT16_MAX then c + k else c) ++ X).
Proof.
  intros Hc. unfold ZIPLIST_INCR_LENGTH. rewrite LENGTH_run, bind_Some_eq, raw_count by done.
  destruct (c <? UINT16_MAX); [|done]. change intrev16ifbe with (intrev_ifbe 2).
  rewrite (host_load 2) by (by try left). rewrite bind_Some_eq. apply set_LENGTH_run.
Qed.

(** *** Resizing *)

Lemma resize_keep tot tail c A B n :
  ZIPLIST_HEADER_SIZE + 1 + zlen A ≤ n < 2 ^ 32 →
  ∃ g, ziplistResize (header tot tail c ++ A ++ B) n = Some (header n tail c ++ A ++ g ++ [ZIP_END]) ∧
    zlen g = n - (ZIPLIST_HEADER_SIZE + 1) - zlen A.
Proof.
  unfold ZIPLIST_HEADER_SIZE. intros Hn. unfold ziplistResize.
  pose proof (length_header tot tail c) as Hh. unfold ZIPLIST_HEADER_SIZE in Hh.
  assert (∃ y, zrealloc (header tot tail c ++ A ++ B) n = header tot tail c ++ A ++ y ∧ zlen y = n - 10 - zlen A) as (y & -> & Hy).
  { unfold zrealloc. rewrite !take_app, (take_ge (header _ _ _)), (take_ge A), <-!app_assoc by lia. eexists. split; [done|].
    rewrite !length_app, length_take, length_fresh. lia. }
  rewrite set_BYTES_run, bind_Some_eq. destruct (exists_last (l := y)) as (g & b & ->); [intros ->; simpl in Hy; lia|].
  rewrite length_app in Hy. cbn [length] in Hy. exists g. split; [|lia].
  pose proof (length_header n tail c) as Hh2. unfold ZIPLIST_HEADER_SIZE in Hh2.
  rewrite !app_assoc. apply (wr1_app _ b ZIP_END []). rewrite !length_app. lia.
Qed.

Lemma write_prev_large pre mid post p n :
  length mid = 5%nat → p = zlen pre →
  zipPrevEncodeLengthForceLarge (pre ++ mid ++ post) p n = Some (pre ++ prev_bytes true n ++ post).
Proof.
  intros Hl ->. unfold zipPrevEncodeLengthForceLarge. destruct mid as [|b mid]; [done|]. simpl in Hl.
  rewrite <-app_comm_cons, (wr1_app pre b) by done. rewrite bind_Some_eq.
  assert (∀ l, pre ++ ZIP_BIGLEN :: l = (pre ++ [ZIP_BIGLEN]) ++ l) as Hcons by (intros l; by rewrite <-app_assoc).
  rewrite Hcons. rewrite (wr_app _ mid); [|rewrite length_app; simpl; lia|
    unfold host_enc; destruct big_endian; rewrite ?length_reverse, length_le_enc; lia].
  rewrite bind_Some_eq. pose proof (store_le 4 (pre ++ [ZIP_BIGLEN]) post n ltac:(by right; left)) as Hs.
  cbn [memrev_ifbe] in Hs. rewrite length_app in Hs. replace (zlen pre + 1) with (Z.of_nat (length pre + length [ZIP_BIGLEN])) by (simpl; lia).
  rewrite Hs. by rewrite <-Hcons.
Qed.
Lemma write_prev pre mid post p n :
  0 ≤ n < 2 ^ 32 → zlen mid = zipPrevEncodeLength_size n → p = zlen pre →
  zipPrevEncodeLength (pre ++ mid ++ post) p n =
    Some (pre ++ prev_bytes (negb (n <? ZIP_BIGLEN)) n ++ post, zipPrevEncodeLength_size n).
Proof.
  intros Hn Hl Hp. unfold zipPrevEncodeLength, zipPrevEncodeLength_size in *. destruct (n <? ZIP_BIGLEN) eqn:E.
  - destruct mid as [|b [|? ?]]; [done| |simpl in Hl; lia]. cbn [app negb prev_bytes]. rewrite (wr1_app pre b) by done.
    rewrite bind_Some_eq. unfold ZIP_BIGLEN in E. rewrite wrap_small by (split; lia). done.
  - cbn [negb]. rewrite write_prev_large by (done || lia). by rewrite bind_Some_eq.
Qed.

(** *** Reading at an entry *)

Lemma at_entry tot tail c ps1 e ps2 rest :
  header tot tail c ++ pes_bytes (ps1 ++ e :: ps2) ++ rest =
    (header tot tail c ++ pes_bytes ps1) ++ pe_bytes e ++ (pes_bytes ps2 ++ rest).
Proof. by rewrite pes_bytes_app, pes_bytes_cons, <-!app_assoc. Qed.

Lemma off_zlen tot tail c ps : off ps = zlen (header tot tail c ++ pes_bytes ps).
Proof. rewrite length_app. pose proof (length_header tot tail c). unfold off, body_len. lia. Qed.

Lemma layout_entry tot tail c ps1 e ps2 :
  layout tot tail c (ps1 ++ e :: ps2) = (header tot tail c ++ pes_bytes ps1) ++ pe_bytes e ++ (pes_bytes ps2 ++ [ZIP_END]).
Proof. apply at_entry. Qed.

Lemma layout_zipEntry tot tail c ps1 e ps2 :
  pe_ok e → zipEntry (layout tot tail c (ps1 ++ e :: ps2)) (off ps1) = Some (entry_of e).
Proof. intros He. rewrite layout_entry. apply zipEntry_run; [done|apply off_zlen]. Qed.

Lemma layout_raw_length tot tail c ps1 e ps2 :
  pe_ok e → zipRawEntryLength (layout tot tail c (ps1 ++ e :: ps2)) (off ps1) = Some (pe_len e).
Proof. intros He. rewrite layout_entry. apply zipRawEntryLength_run; [done|apply off_zlen]. Qed.

Lemma layout_first tot tail c ps1 e ps2 :
  pe_ok e → ∃ b, rd1 (layout tot tail c (ps1 ++ e :: ps2)) (off ps1) = Some b ∧ (b =? ZIP_END) = false.
Proof. intros He. rewrite layout_entry. apply pe_first_byte; [done|apply off_zlen]. Qed.

Lemma layout_end tot tail c ps : rd1 (layout tot tail c ps) (off ps) = Some ZIP_END.
Proof. unfold layout. rewrite app_assoc. apply rd1_app, off_zlen. Qed.

Lemma length_layout tot tail c ps : zlen (layout tot tail c ps) = off ps + 1.
Proof. unfold layout. rewrite app_assoc, length_app. pose proof (off_zlen tot tail c ps). cbn [length]. lia. Qed.

Lemma layout_BYTES tot tail c ps : in_u 32 tot → ZIPLIST_BYTES (layout tot tail c ps) = Some tot.
Proof. apply BYTES_run. Qed.

Lemma layout_TAIL tot tail c ps : in_u 32 tail → ZIPLIST_TAIL_OFFSET (layout tot tail c ps) = Some tail.
Proof. apply TAIL_run. Qed.

Lemma layout_set_TAIL tot tail c ps v : set_TAIL_OFFSET (layout tot tail c ps) v = Some (layout tot v c ps).
Proof. apply set_TAIL_run. Qed.

Lemma layout_INCR tot tail c ps k :
  in_u 16 c → ZIPLIST_INCR_LENGTH (layout tot tail c ps) k = Some (layout tot tail (if c <? UINT16_MAX then c + k else c) ps).
Proof. apply INCR_run. Qed.

(** Whether there is an entry at the offset behind [ps1]. *)
Lemma layout_at_end tot tail c ps1 ps2 :
  Forall pe_ok ps2 → ∃ b, rd1 (layout tot tail c (ps1 ++ ps2)) (off ps1) = Some b ∧ (b =? ZIP_END) = bool_decide (ps2 = []).
Proof.
  destruct ps2 as [|e ps2].
  - intros _. rewrite app_nil_r. exists ZIP_END. split; [apply layout_end|done].
  - intros [He _]%Forall_cons. by apply layout_first.
Qed.
End blocks.

(** ** The abstract state *)

(** The offset of the last entry. *)
Definition tail_off (ps : list pentry) : Z := off (removelast ps).

(** The count is exact below the maximum. *)
Definition count_ok (c : Z) (ps : list pentry) : Prop := in_u 16 c ∧ (c < UINT16_MAX → c = zlen ps).

Definition head_small (ps : list pentry) : Prop := match ps with e :: _ => large e = false | [] => True end.

Definition wf (ps : list pentry) : Prop := Forall pe_ok ps ∧ chain 0 ps ∧ head_small ps ∧ off ps + 1 < 2 ^ 32.

Definition zl_rep (zl : bytes) (ps : list pentry) : Prop :=
  ∃ c, zl = layout (off ps + 1) (tail_off ps) c ps ∧ count_ok c ps ∧ wf ps.

Definition items (ps : list pentry) : list item := itm <$> ps.

(** The texts of the entries: what a client sees. *)
Definition zl_is (zl : bytes) (l : list bytes) : Prop := ∃ ps, zl_rep zl ps ∧ item_text <$> items ps = l.

Lemma tail_off_snoc ps e : tail_off (ps ++ [e]) = off ps.
Proof. unfold tail_off. by rewrite removelast_last. Qed.

Lemma off_pos ps : ZIPLIST_HEADER_SIZE ≤ off ps.
Proof. unfold off, body_len. lia. Qed.

Lemma tail_off_range ps : ZIPLIST_HEADER_SIZE ≤ tail_off ps ≤ off ps.
Proof.
  unfold tail_off. split; [apply off_pos|]. destruct ps as [|e ps] using rev_ind; [done|].
  rewrite removelast_last, off_app. unfold body_len. lia.
Qed.
