(* ===== verification/ZiplistOps.v ===== *)
(** * What the operations of a ziplist do to its entries *)

From S2P Require Import Prelude Endian Util Object Ziplist ZiplistSpec.

#[local] Open Scope Z_scope.

(** ** The cascade

    [rawlen] is the length of the entry before; entries are widened as long as the
    length before them no longer fits their field, and the last one reached is
    updated in place. *)
Fixpoint cascade (rawlen : Z) (ps : list pentry) : list pentry :=
  match ps with
  | [] => []
  | n :: ps' =>
    if prevl n =? rawlen then ps
    else if negb (large n) && (ZIP_BIGLEN <=? rawlen) then
      let n' := PEntry true rawlen (itm n) in n' :: cascade (pe_len n') ps'
    else PEntry (large n) rawlen (itm n) :: ps'
  end.

Definition chain_tail (ps : list pentry) : Prop := match ps with [] => True | n :: ps => chain (pe_len n) ps end.

Lemma pe_len_set l l' m m' it : pe_len (PEntry l' m' it) = pe_len (PEntry l m it) + prev_size l' - prev_size l.
Proof. rewrite !pe_len_eq. cbn [large itm]. lia. Qed.

Lemma cascade_items rawlen ps : items (cascade rawlen ps) = items ps.
Proof.
  unfold items. revert rawlen. induction ps as [|n ps IH]; intros rawlen; [done|]. cbn [cascade].
  destruct (_ =? _); [done|]. destruct (_ && _); cbn; [by rewrite IH|done].
Qed.

Lemma cascade_chain rawlen ps : chain_tail ps → chain rawlen (cascade rawlen ps).
Proof.
  revert rawlen. induction ps as [|n ps IH]; intros rawlen Hc; [done|]. cbn [cascade].
  destruct (Z.eqb_spec (prevl n) rawlen) as [Heq|Hne]; [by split|]. destruct (_ && _).
  - split; [done|]. apply IH. destruct ps as [|m ps]; [done|]. by destruct Hc.
  - split; [done|]. destruct n as [l m it]. cbn [large itm]. by rewrite (pe_len_set l l m rawlen), Z.add_simpl_r.
Qed.

Lemma cascade_length rawlen ps : body_len ps ≤ body_len (cascade rawlen ps) ≤ body_len ps + 4 * zlen ps.
Proof.
  revert rawlen. induction ps as [|n ps IH]; intros rawlen; [done|]. cbn [cascade].
  destruct (_ =? _); [lia|]. destruct n as [l m it]. cbn [large itm]. destruct (negb l && _) eqn:E; rewrite !body_len_cons.
  - specialize (IH (pe_len (PEntry true rawlen it))). pose proof (pe_len_set l true m rawlen it) as Hx.
    destruct l; [done|]. cbn [prev_size length] in *. lia.
  - rewrite (pe_len_set l l m rawlen). cbn [length]. lia.
Qed.

Lemma cascade_ok rawlen ps :
  0 ≤ rawlen < 2 ^ 32 → body_len ps + 4 * zlen ps < 2 ^ 32 → Forall pe_ok ps → Forall pe_ok (cascade rawlen ps).
Proof.
  revert rawlen. induction ps as [|n ps IH]; intros rawlen Hr Hl Hok; [done|].
  apply Forall_cons in Hok as [Hn Hok]. rewrite body_len_cons in Hl. cbn [length] in Hl. cbn [cascade].
  destruct (_ =? _); [by constructor|]. destruct n as [l m it]. destruct Hn as (Hit & Hm & Hn). cbn [large prevl itm] in *.
  pose proof (pe_len_set l true m rawlen it) as Hlt. pose proof (pe_len_set l l m rawlen it) as Hll.
  pose proof (pe_len_pos (PEntry true rawlen it)). pose proof (body_len_length ps).
  destruct (negb l && _) eqn:E.
  - destruct l; [done|]. cbn [prev_size] in Hlt. constructor; [split; [done|]; cbn [large prevl]; lia|]. apply IH; (done || lia).
  - constructor; [|done]. split; [done|]. cbn [large prevl]. destruct l; [lia|]. unfold ZIP_BIGLEN in *. lia.
Qed.

Lemma tail_off_app_cons ps e qs : tail_off (ps ++ e :: qs) = off ps + (if decide (qs = []) then 0 else pe_len e + tail_off qs - ZIPLIST_HEADER_SIZE).
Proof.
  destruct qs as [|z qs _] using rev_ind; [by rewrite tail_off_snoc, Z.add_0_r|].
  destruct (decide _) as [Heq|_]; [by apply app_nil in Heq as [_ ?]|]. rewrite app_comm_cons, app_assoc, !tail_off_snoc, off_app, body_len_cons.
  unfold off. lia.
Qed.

(** ** Moving bytes *)

Lemma split_at {A} (l : list A) (k : nat) : (k ≤ length l)%nat → ∃ l1 l2, l = l1 ++ l2 ∧ length l1 = k.
Proof. intros Hk. exists (take k l), (drop k l). by rewrite take_drop, length_take_le. Qed.

(** The same block cut at the source and at the destination. *)
Lemma memmove_cut {A} (b pre mid post d1 d2 d3 : list A) dst src n :
  b = pre ++ mid ++ post → b = d1 ++ d2 ++ d3 → length d2 = length mid →
  dst = zlen d1 → src = zlen pre → n = zlen mid → memmove b dst src n = Some (d1 ++ mid ++ d3).
Proof.
  intros H1 H2 Hl Hd Hs Hn. unfold memmove. rewrite H1 at 1. rewrite (rd_app pre mid post) by done. rewrite bind_Some_eq, H2.
  by apply wr_app.
Qed.

Section ops.
Context {host : Host} {alloc : Allocator}.

(** The tail moves with a widened entry, unless that is the tail. *)
Lemma cascade_tail ps1 e n ps3 rawlen :
  large n = false →
  tail_off (ps1 ++ e :: PEntry true rawlen (itm n) :: ps3) =
    let t := tail_off (ps1 ++ e :: n :: ps3) in if t =? off (ps1 ++ [e]) then t else t + 4.
Proof.
  intros Hn. cbv zeta. rewrite !tail_off_app_cons, off_app, body_len_cons. pose proof (tail_off_range ps3) as Hr3.
  unfold ZIPLIST_HEADER_SIZE in Hr3. set (n' := PEntry true rawlen (itm n)).
  destruct (decide (n :: ps3 = [])) as [|_]; [done|]. destruct (decide (n' :: ps3 = [])) as [|_]; [done|].
  change (n :: ps3) with ([] ++ n :: ps3). change (n' :: ps3) with ([] ++ n' :: ps3). rewrite !tail_off_app_cons.
  assert (pe_len n' = pe_len n + 4) as Hn'.
  { unfold n'. destruct n as [ln mn itn]. cbn [large itm] in *. subst ln. rewrite (pe_len_set false true mn). cbn [prev_size]. lia. }
  pose proof (pe_len_pos n). change (off []) with 10. change (body_len []) with 0.
  unfold ZIPLIST_HEADER_SIZE. destruct (decide (ps3 = [])); destruct (_ =? _) eqn:E; lia.
Qed.

(** Four bytes are made free behind a field of one byte. *)
Lemma shift_right (P : bytes) b T g len :
  zlen g = 4 → ZIP_BIGLEN ≤ len < 2 ^ 32 →
  (zl ← memmove (P ++ ([b] ++ T ++ g) ++ [ZIP_END]) (zlen P + 5) (zlen P + 1) (zlen T); zipPrevEncodeLength zl (zlen P) len) =
    Some (P ++ prev_bytes true len ++ T ++ [ZIP_END], 5).
Proof.
  intros Hg Hlen. destruct (split_at ([b] ++ T ++ g) 5) as (J & M & HJM & HJ); [rewrite !length_app; simpl; lia|].
  assert (length M = length T) as HM by (apply (f_equal length) in HJM; rewrite !length_app in HJM; simpl in HJM; lia).
  rewrite (memmove_cut _ (P ++ [b]) T (g ++ [ZIP_END]) (P ++ J) M [ZIP_END]);
    [|by rewrite <-!app_assoc|by rewrite HJM, <-!app_assoc|done|rewrite ?length_app; cbn [length]; lia..].
  unfold ZIP_BIGLEN in Hlen.
  assert (zipPrevEncodeLength_size len = 5 ∧ negb (len <? ZIP_BIGLEN) = true) as [Hsz Hn].
  { unfold zipPrevEncodeLength_size, ZIP_BIGLEN. by destruct (_ <? _) eqn:E; [lia|]. }
  rewrite bind_Some_eq, <-app_assoc, write_prev by (rewrite ?Hsz; done || lia). by rewrite Hn, Hsz.
Qed.

(** What a round reads, and what it does then. *)
Lemma cascade_read tot tail c ps1 e n ps3 curlen :
  pe_ok e → pe_ok n →
  let zl := layout tot tail c (ps1 ++ e :: n :: ps3) in
  let np := off (ps1 ++ [e]) in
  let rawlen := pe_len e in
  let rawlensize := zipPrevEncodeLength_size rawlen in
  cascade_body (zl, off ps1, curlen) =
    if prevl n =? rawlen then Some (inr zl)
    else if prev_size (large n) <? rawlensize then
      let extra := rawlensize - prev_size (large n) in
      zl ← ziplistResize zl (u32 (curlen + extra));
      t ← ZIPLIST_TAIL_OFFSET zl;
      zl ← (if negb (t =? np) then set_TAIL_OFFSET zl (t + extra) else Some zl);
      zl ← memmove zl (np + rawlensize) (np + prev_size (large n)) (curlen - np - prev_size (large n) - 1);
      '(zl, _) ← zipPrevEncodeLength zl np rawlen;
      Some (inl (zl, np, curlen + extra))
    else if prev_size (large n) >? rawlensize then
      zl ← zipPrevEncodeLengthForceLarge zl np rawlen; Some (inr zl)
    else
      '(zl, _) ← zipPrevEncodeLength zl np rawlen; Some (inr zl).
Proof.
  intros He Hn zl np rawlen rawlensize. unfold cascade_body.
  destruct (layout_first tot tail c ps1 e (n :: ps3) He) as (b & Hb & Hbe). fold zl in Hb.
  rewrite Hb, bind_Some_eq, Hbe. clear b Hb Hbe.
  assert (zipEntry zl (off ps1) = Some (entry_of e)) as -> by by apply layout_zipEntry. rewrite bind_Some_eq.
  cbn [headersize zlen_ entry_of]. rewrite <-pe_len_eq. destruct He as (Hit & Hpl & Hel). pose proof (pe_len_pos e).
  rewrite wrap_small by (split; lia).
  assert (off ps1 + pe_len e = np) as -> by (unfold np; rewrite off_app, body_len_cons; unfold body_len; simpl; lia).
  assert (zl = layout tot tail c ((ps1 ++ [e]) ++ n :: ps3)) as Hps by (unfold zl; by rewrite <-app_assoc).
  destruct (layout_first tot tail c (ps1 ++ [e]) n ps3 Hn) as (b & Hb & Hbe). rewrite <-Hps in Hb. fold np in Hb.
  rewrite Hb, bind_Some_eq, Hbe. clear b Hb Hbe.
  assert (zipEntry zl np = Some (entry_of n)) as -> by (rewrite Hps; by apply layout_zipEntry).
  rewrite bind_Some_eq. done.
Qed.

Lemma cascade_step tot c ps1 e n ps3 :
  pe_ok e → pe_ok n →
  tot = off (ps1 ++ e :: n :: ps3) + 1 → tot + 4 < 2 ^ 32 →
  prevl n ≠ pe_len e → large n = false → ZIP_BIGLEN ≤ pe_len e →
  let n' := PEntry true (pe_len e) (itm n) in
  cascade_body (layout tot (tail_off (ps1 ++ e :: n :: ps3)) c (ps1 ++ e :: n :: ps3), off ps1, tot) =
    Some (inl (layout (tot + 4) (tail_off (ps1 ++ e :: n' :: ps3)) c (ps1 ++ e :: n' :: ps3), off (ps1 ++ [e]), tot + 4)).
Proof.
  intros He Hn Htot Hlt Hne Hsmall Hbig n'. rewrite cascade_read by done. cbv zeta.
  destruct (Z.eqb_spec (prevl n) (pe_len e)); [done|]. destruct He as (Hit & Hpl & Hel).
  set (ps := ps1 ++ e :: n :: ps3) in *. set (zl := layout tot (tail_off ps) c ps).
  assert (ps = (ps1 ++ [e]) ++ n :: ps3) as Hps by (unfold ps; by rewrite <-app_assoc).
  assert (zipPrevEncodeLength_size (pe_len e) = 5) as Hsz by (unfold zipPrevEncodeLength_size, ZIP_BIGLEN in *; by destruct (_ <? _) eqn:E; [lia|]).
  rewrite Hsz, Hsmall. cbn [prev_size]. change (1 <? 5) with true. change (5 - 1) with 4. cbv iota.
  rewrite wrap_small by (pose proof (off_pos ps); unfold ZIPLIST_HEADER_SIZE in *; split; lia).
  (* the block, cut at the field of the next entry *)
  set (A := pes_bytes (ps1 ++ [e])). set (T := item_head (itm n) ++ item_data (itm n) ++ pes_bytes ps3).
  assert (zl = header tot (tail_off ps) c ++ (A ++ [prevl n] ++ T) ++ [ZIP_END]) as Hzl.
  { unfold zl, layout. rewrite Hps at 2. rewrite pes_bytes_app, pes_bytes_cons. unfold A, T, pe_bytes. rewrite Hsmall.
    cbn [prev_bytes]. by rewrite <-!app_assoc. }
  pose proof (off_zlen tot (tail_off ps) c ps) as Hoffps. pose proof (length_header tot (tail_off ps) c) as Hhd.
  assert (off ps = ZIPLIST_HEADER_SIZE + zlen A + 1 + zlen T) as Hlen.
  { unfold off, body_len. rewrite Hps, pes_bytes_app, pes_bytes_cons. unfold A, T, pe_bytes. rewrite Hsmall, !length_app.
    cbn [prev_bytes length]. lia. }
  rewrite Hzl. destruct (resize_keep tot (tail_off ps) c (A ++ [prevl n] ++ T) [ZIP_END] (tot + 4)) as (g & -> & Hg).
  { rewrite !length_app. unfold ZIPLIST_HEADER_SIZE in *. cbn [length]. lia. }
  rewrite !length_app in Hg. cbn [length] in Hg. rewrite bind_Some_eq.
  pose proof (tail_off_range ps). unfold ZIPLIST_HEADER_SIZE in *.
  rewrite TAIL_run by (split; lia). rewrite bind_Some_eq.
  pose proof (cascade_tail ps1 e n ps3 (pe_len e) Hsmall) as Htail. fold n' ps in Htail. cbv zeta in Htail.
  assert ((if negb (tail_off ps =? off (ps1 ++ [e])) then set_TAIL_OFFSET (header (tot + 4) (tail_off ps) c ++ (A ++ [prevl n] ++ T) ++ g ++ [ZIP_END]) (tail_off ps + 4)
    else Some (header (tot + 4) (tail_off ps) c ++ (A ++ [prevl n] ++ T) ++ g ++ [ZIP_END])) =
    Some (header (tot + 4) (tail_off (ps1 ++ e :: n' :: ps3)) c ++ (A ++ [prevl n] ++ T) ++ g ++ [ZIP_END])) as ->.
  { rewrite Htail. destruct (_ =? _); [done|]. apply set_TAIL_run. }
  rewrite bind_Some_eq. set (tl := tail_off (ps1 ++ e :: n' :: ps3)).
  pose proof (off_zlen (tot + 4) tl c (ps1 ++ [e])) as HoffA. fold A in HoffA. rewrite HoffA.
  set (P := header (tot + 4) tl c ++ A) in *.
  assert (header (tot + 4) tl c ++ (A ++ [prevl n] ++ T) ++ g ++ [ZIP_END] = P ++ ([prevl n] ++ T ++ g) ++ [ZIP_END]) as ->
    by (unfold P; by rewrite <-!app_assoc).
  assert (zlen P = 10 + zlen A) as HP by (unfold P; rewrite length_app; pose proof (length_header (tot + 4) tl c); unfold ZIPLIST_HEADER_SIZE in *; lia).
  replace (tot - zlen P - 1 - 1) with (zlen T) by lia.
  pose proof (shift_right P (prevl n) T g (pe_len e) ltac:(lia) (conj Hbig Hel)) as Hs.
  revert Hs. destruct (memmove _ _ _ _) as [zl2|]; [|done]. rewrite !bind_Some_eq. intros ->.
  rewrite bind_Some_eq. do 4 f_equal. unfold layout.
  replace (ps1 ++ e :: n' :: ps3) with ((ps1 ++ [e]) ++ n' :: ps3) by (by rewrite <-app_assoc).
  rewrite pes_bytes_app, pes_bytes_cons. unfold P, A, T, n', pe_bytes. cbn [large prevl itm]. by rewrite <-!app_assoc.
Qed.
(** The field of the next entry, rewritten in place. *)
Lemma set_prev tot tail c ps1 n ps3 l m :
  header tot tail c ++ pes_bytes ps1 ++ prev_bytes l m ++ item_head (itm n) ++ item_data (itm n) ++ pes_bytes ps3 ++ [ZIP_END] =
  layout tot tail c (ps1 ++ PEntry l m (itm n) :: ps3).
Proof. unfold layout. rewrite pes_bytes_app, pes_bytes_cons. unfold pe_bytes. by rewrite <-!app_assoc. Qed.

Lemma tail_off_same ps1 n ps3 m : tail_off (ps1 ++ PEntry (large n) m (itm n) :: ps3) = tail_off (ps1 ++ n :: ps3).
Proof.
  rewrite !tail_off_app_cons. destruct n as [l k it]. cbn [large itm]. by rewrite (pe_len_set l l k m), Z.add_simpl_r.
Qed.

Lemma off_same ps1 n ps3 m : off (ps1 ++ PEntry (large n) m (itm n) :: ps3) = off (ps1 ++ n :: ps3).
Proof.
  rewrite !off_app, !body_len_cons. destruct n as [l k it]. cbn [large itm]. by rewrite (pe_len_set l l k m), Z.add_simpl_r.
Qed.

Lemma cascade_stop tot tail c ps1 e n ps3 curlen :
  pe_ok e → pe_ok n → prevl n ≠ pe_len e → negb (large n) && (ZIP_BIGLEN <=? pe_len e) = false →
  cascade_body (layout tot tail c (ps1 ++ e :: n :: ps3), off ps1, curlen) =
    Some (inr (layout tot tail c (ps1 ++ e :: PEntry (large n) (pe_len e) (itm n) :: ps3))).
Proof.
  intros He Hn Hne Hno. rewrite cascade_read by done. cbv zeta. destruct (Z.eqb_spec (prevl n) (pe_len e)); [done|].
  destruct He as (_ & _ & Hel). pose proof (pe_len_pos e).
  replace (ps1 ++ e :: n :: ps3) with ((ps1 ++ [e]) ++ n :: ps3) by (by rewrite <-app_assoc).
  replace (ps1 ++ e :: PEntry (large n) (pe_len e) (itm n) :: ps3) with
    ((ps1 ++ [e]) ++ PEntry (large n) (pe_len e) (itm n) :: ps3) by (by rewrite <-app_assoc).
  rewrite layout_entry, pe_bytes_app. set (np := off (ps1 ++ [e])).
  pose proof (length_prev_bytes (large n) (prevl n)) as Hl. unfold zipPrevEncodeLength_size.
  destruct (pe_len e <? ZIP_BIGLEN) eqn:E; destruct (large n) eqn:El; cbn [prev_size] in *.
  - change (5 <? 1) with false. change (5 >? 1) with true. cbv iota.
    rewrite write_prev_large by (lia || apply off_zlen). rewrite bind_Some_eq. do 2 f_equal.
    rewrite <-(set_prev tot tail c (ps1 ++ [e]) n ps3 true (pe_len e)). by rewrite <-!app_assoc.
  - change (1 <? 1) with false. change (1 >? 1) with false. cbv iota.
    rewrite write_prev by (try apply off_zlen; unfold zipPrevEncodeLength_size; rewrite ?E; lia). rewrite bind_Some_eq, E.
    rewrite <-(set_prev tot tail c (ps1 ++ [e]) n ps3 false (pe_len e)). by rewrite <-!app_assoc.
  - change (5 <? 5) with false. change (5 >? 5) with false. cbv iota.
    rewrite write_prev by (try apply off_zlen; unfold zipPrevEncodeLength_size; rewrite ?E; lia). rewrite bind_Some_eq, E.
    rewrite <-(set_prev tot tail c (ps1 ++ [e]) n ps3 true (pe_len e)). by rewrite <-!app_assoc.
  - cbn [negb andb] in Hno. lia.
Qed.

Lemma cascade_loop ps2 ps1 e fuel c :
  Forall pe_ok (e :: ps2) → off (ps1 ++ e :: ps2) + 1 + 4 * zlen ps2 < 2 ^ 32 → (length ps2 < fuel)%nat →
  let ps := ps1 ++ e :: ps2 in let qs := ps1 ++ e :: cascade (pe_len e) ps2 in
  loop fuel cascade_body (layout (off ps + 1) (tail_off ps) c ps, off ps1, off ps + 1) =
    Some (layout (off qs + 1) (tail_off qs) c qs).
Proof.
  revert ps1 e fuel. induction ps2 as [|n ps3 IH]; intros ps1 e fuel Hok Hlt Hf; (destruct fuel as [|fuel]; [lia|]); cbv zeta.
  - rewrite loop_S. cbn [cascade]. unfold cascade_body. apply Forall_cons in Hok as [He _].
    set (ps := ps1 ++ [e]). destruct (layout_first (off ps + 1) (tail_off ps) c ps1 e [] He) as (b & Hb & Hbe). fold ps in Hb.
    rewrite Hb, bind_Some_eq, Hbe.
    assert (zipEntry (layout (off ps + 1) (tail_off ps) c ps) (off ps1) = Some (entry_of e)) as -> by by apply layout_zipEntry.
    rewrite bind_Some_eq. cbn [headersize zlen_ entry_of]. rewrite <-pe_len_eq. destruct He as (Hit & Hpl & Hel). pose proof (pe_len_pos e).
    rewrite wrap_small by (split; lia).
    assert (off ps1 + pe_len e = off ps) as -> by (unfold ps; rewrite off_app, body_len_cons; unfold body_len; simpl; lia).
    by rewrite layout_end.
  - apply Forall_cons in Hok as [He Hok]. apply Forall_cons in Hok as [Hn Hok]. cbn [length] in Hlt, Hf. rewrite loop_S. cbn [cascade].
    destruct (Z.eqb_spec (prevl n) (pe_len e)) as [Heq|Hne].
    { rewrite cascade_read by done. cbv zeta. by rewrite (proj2 (Z.eqb_eq _ _) Heq). }
    destruct (negb (large n) && (ZIP_BIGLEN <=? pe_len e)) eqn:Ew.
    + apply andb_true_iff in Ew as [El Eb]. apply negb_true_iff in El.
      rewrite cascade_step by (done || lia). set (n' := PEntry true (pe_len e) (itm n)).
      assert (off (ps1 ++ e :: n :: ps3) + 4 = off (ps1 ++ e :: n' :: ps3)) as Hoff.
      { rewrite !off_app, !body_len_cons. unfold n'. destruct n as [ln mn itn]. cbn [large itm] in *. subst ln.
        rewrite (pe_len_set false true mn (pe_len e)). cbn [prev_size]. lia. }
      assert (pe_ok n') as Hn'.
      { destruct n as [ln mn itn], Hn as (Hit & _ & Hl). cbn [large itm] in *. subst ln. pose proof (pe_len_pos e).
        split; [done|]. split; [cbn; destruct He as (_ & _ & ?); lia|]. unfold n' in *. cbn [itm] in *.
        rewrite (pe_len_set false true mn (pe_len e)). cbn [prev_size].
        rewrite off_app, !body_len_cons in Hlt. unfold off, ZIPLIST_HEADER_SIZE, body_len in *. lia. }
      replace (off (ps1 ++ e :: n :: ps3) + 1 + 4) with (off (ps1 ++ e :: n' :: ps3) + 1) by lia.
      replace (ps1 ++ e :: n' :: ps3) with ((ps1 ++ [e]) ++ n' :: ps3) in * by (by rewrite <-app_assoc).
      rewrite (IH (ps1 ++ [e]) n' fuel); [by rewrite <-app_assoc|by constructor| |lia]. lia.
    + rewrite cascade_stop by done.
      replace (ps1 ++ e :: n :: ps3) with ((ps1 ++ [e]) ++ n :: ps3) by (by rewrite <-app_assoc).
      replace (ps1 ++ e :: PEntry (large n) (pe_len e) (itm n) :: ps3) with
        ((ps1 ++ [e]) ++ PEntry (large n) (pe_len e) (itm n) :: ps3) by (by rewrite <-app_assoc).
      by rewrite off_same, tail_off_same.
Qed.

(** The fuel of every loop, the length of the block, exceeds the number of entries. *)
Lemma layout_fuel tot tail c ps : (length ps < length (layout tot tail c ps))%nat.
Proof.
  pose proof (length_layout tot tail c ps) as Hl. pose proof (body_len_length ps). unfold off, ZIPLIST_HEADER_SIZE in Hl. lia.
Qed.

Lemma cascade_run ps1 e ps2 c :
  Forall pe_ok (e :: ps2) → off (ps1 ++ e :: ps2) + 1 + 4 * zlen ps2 < 2 ^ 32 →
  let ps := ps1 ++ e :: ps2 in let qs := ps1 ++ e :: cascade (pe_len e) ps2 in
  __ziplistCascadeUpdate (layout (off ps + 1) (tail_off ps) c ps) (off ps1) =
    Some (layout (off qs + 1) (tail_off qs) c qs).
Proof.
  intros Hok Hlt ps qs. unfold __ziplistCascadeUpdate. pose proof (off_pos ps) as Hp. unfold ZIPLIST_HEADER_SIZE in Hp.
  rewrite layout_BYTES, bind_Some_eq by (unfold ps in *; split; lia).
  apply cascade_loop; [done..|]. pose proof (layout_fuel (off ps + 1) (tail_off ps) c ps) as Hl.
  unfold ps in Hl at 1. rewrite length_app in Hl. cbn [length] in Hl. lia.
Qed.
End ops.
