(* ===== verification/ZiplistUpdate.v ===== *)
(** * Insertion and deletion in a ziplist *)

From S2P Require Import Prelude Endian Util Object Ziplist ZiplistSpec ZiplistOps.

#[local] Open Scope Z_scope.

(** ** The item made of a byte string *)

(** An integer is kept when the text is the one it would be printed as. *)
Definition item_of (s : bytes) : item :=
  match zipTryEncoding s (zlen s) with Some (Some (v, enc)) => Num enc v | _ => Str s end.

Lemma zipTryEncoding_spec s :
  ∃ r, zipTryEncoding s (zlen s) = Some r ∧
    match r with
    | Some (v, enc) => num_ok enc v ∧ s = dec_signed v
    | None => ∀ v, in_s 64 v → s ≠ dec_signed v
    end.
Proof.
  unfold zipTryEncoding. destruct ((zlen s >=? 32) || (zlen s =? 0)) eqn:E.
  { exists None. split; [done|]. intros v Hv ->. pose proof (length_dec_signed v Hv).
    assert (zlen (dec_signed v) = 0) as Hz by lia. unfold dec_signed in Hz. case_match; [done|].
    pose proof (dec_length_pos v ltac:(lia)). lia. }
  destruct (string2ll_spec s []) as (r & Hr & Hspec). rewrite app_nil_r in Hr. rewrite Hr, bind_Some_eq.
  destruct r as [v|]; cycle 1.
  { exists None. split; [done|]. intros v Hv Hs. discriminate (proj2 (Hspec v) (conj Hv Hs)). }
  destruct (proj1 (Hspec v) eq_refl) as [Hv Hs]. eexists. split; [done|]. split; [|done].
  unfold num_ok, in_s, INT24_MIN, INT24_MAX, ZIP_INT_IMM_MIN, ZIP_INT_IMM_MAX in *.
  destruct ((0 <=? v) && (v <=? 12)) eqn:E1.
  { repeat right. rewrite wrap_small by (split; lia). lia. }
  destruct ((- 2 ^ 7 <=? v) && _) eqn:E2; [left; split; [done|simpl in *; lia]|].
  destruct ((- 2 ^ 15 <=? v) && _) eqn:E3; [right; left; split; [done|simpl in *; lia]|].
  destruct ((_ <=? v) && (v <=? 0x7fffff)) eqn:E4; [do 2 right; left; split; [done|simpl in *; lia]|].
  destruct ((- 2 ^ 31 <=? v) && _) eqn:E5; [do 3 right; left; split; [done|simpl in *; lia]|].
  do 4 right; left. split; [done|simpl in *; lia].
Qed.

Lemma item_of_text s : item_text (item_of s) = s.
Proof. unfold item_of. destruct (zipTryEncoding_spec s) as ([[v enc]|] & -> & Hr); [|done]. by destruct Hr as [_ ->]. Qed.

Lemma item_of_ok s : zlen s < 2 ^ 32 → item_ok (item_of s).
Proof. unfold item_of. destruct (zipTryEncoding_spec s) as ([[v enc]|] & -> & Hr); [|done]. by destruct Hr. Qed.

Lemma item_data_num enc v : zlen (item_data (Num enc v)) = zipIntSize enc.
Proof. cbn. rewrite length_le_enc. unfold zipIntSize. repeat case_match; done. Qed.

(** What [__ziplistInsert] computes about the new entry. *)
Lemma encode_spec s :
  ∃ enc, zipTryEncoding s (zlen s) = Some enc ∧
    let '(value, encoding) := default (123456789, 0) enc in
    (if enc is Some _ then zipIntSize encoding else zlen s) = zlen (item_data (item_of s)) ∧
    zipEncodeLength_buf encoding (zlen s) = item_head (item_of s) ∧
    match item_of s with
    | Str t => t = s ∧ ZIP_IS_STR encoding = true
    | Num e v => e = encoding ∧ v = value ∧ num_ok e v ∧ ZIP_IS_STR encoding = false
    | Hole _ _ => False
    end.
Proof.
  unfold item_of. destruct (zipTryEncoding_spec s) as (enc & -> & Hr). exists enc. split; [done|].
  destruct enc as [[v enc]|]; cbn [default from_option id].
  - destruct Hr as [Hok Hs]. rewrite item_data_num. split; [done|].
    assert (ZIP_IS_STR enc = false) as Hi by exact (IS_STR_item (Num enc v) Hok).
    unfold zipEncodeLength_buf. rewrite Hi. done.
  - done.
Qed.

(** ** Entries behind a change *)

Definition wide (len : Z) : bool := negb (len <? ZIP_BIGLEN).

(** The entries that follow an entry of [len] bytes, after its length changed. *)
Definition relink (len : Z) (ps : list pentry) : list pentry :=
  match ps with
  | [] => []
  | n :: ps => let n' := PEntry (wide len) len (itm n) in n' :: cascade (pe_len n') ps
  end.

Definition last_len (ps : list pentry) : Z := List.last (pe_len <$> ps) 0.

Definition insert_entries (ps1 : list pentry) (it : item) (ps2 : list pentry) : list pentry :=
  let e := PEntry (wide (last_len ps1)) (last_len ps1) it in ps1 ++ e :: relink (pe_len e) ps2.

Definition delete_entries (ps1 ps2 : list pentry) : list pentry := ps1 ++ relink (last_len ps1) ps2.

(** Room for [k] more bytes, and for widening every entry. *)
Definition room (ps : list pentry) (k : Z) : Prop := off ps + 1 + k + 4 * zlen ps < 2 ^ 32.

Lemma wide_size len : prev_size (wide len) = zipPrevEncodeLength_size len.
Proof. unfold wide, zipPrevEncodeLength_size. by destruct (_ <? _). Qed.

Lemma wide_range len : 0 ≤ len < 2 ^ 32 → 0 ≤ len < (if wide len then 2 ^ 32 else ZIP_BIGLEN).
Proof. unfold wide. destruct (Z.ltb_spec len ZIP_BIGLEN); cbn; lia. Qed.

Lemma relink_items len ps : items (relink len ps) = items ps.
Proof. destruct ps as [|n ps]; [done|]. unfold items, relink. cbn. f_equal. apply cascade_items. Qed.

Lemma relink_chain len ps : chain_tail ps → chain len (relink len ps).
Proof.
  destruct ps as [|n ps]; [done|]. intros Hc. cbn. split; [done|]. apply cascade_chain.
  destruct ps as [|m ps]; [done|]. by destruct Hc.
Qed.

Lemma chain_id len ps : chain len ps → cascade len ps = ps.
Proof. destruct ps as [|n ps]; [done|]. intros [Hn _]. cbn [cascade]. by rewrite Hn, Z.eqb_refl. Qed.

Lemma relink_length len ps : body_len (relink len ps) ≤ body_len ps + 4 * zlen ps.
Proof.
  destruct ps as [|n ps]; [done|]. cbn [relink]. rewrite !body_len_cons. destruct n as [l m it]. cbn [itm].
  rewrite (pe_len_set l (wide len) m len it).
  pose proof (cascade_length (pe_len (PEntry l m it) + prev_size (wide len) - prev_size l) ps).
  cbn [length]. destruct (prev_size_pos l), (prev_size_pos (wide len)); lia.
Qed.

Lemma relink_ok len ps :
  0 ≤ len < 2 ^ 32 → body_len ps + 4 * zlen ps < 2 ^ 32 → Forall pe_ok ps → Forall pe_ok (relink len ps).
Proof.
  intros Hlen Hb Hok. destruct ps as [|n ps]; [done|]. apply Forall_cons in Hok as [(Hit & Hm & Hn) Hok]. cbn [relink].
  destruct n as [l m it]. cbn [itm] in *. rewrite body_len_cons in Hb. cbn [length] in Hb.
  pose proof (pe_len_set l (wide len) m len it) as Hs. pose proof (pe_len_pos (PEntry (wide len) len it)).
  pose proof (body_len_length ps). pose proof (pe_len_pos (PEntry l m it)).
  assert (pe_len (PEntry (wide len) len it) < 2 ^ 32) as Hl by (destruct (prev_size_pos l), (prev_size_pos (wide len)); lia).
  constructor.
  - split; [done|]. split; [|done]. by apply wide_range.
  - apply cascade_ok; [lia| |done]. lia.
Qed.

Lemma last_len_range ps : Forall pe_ok ps → 0 ≤ last_len ps < 2 ^ 32.
Proof.
  unfold last_len. destruct ps as [|e ps _] using rev_ind; [done|]. rewrite fmap_app. simpl. rewrite last_last.
  rewrite Forall_app, Forall_singleton. intros [_ (_ & _ & ?)]. pose proof (pe_len_pos e). lia.
Qed.

Lemma last_len_nil : last_len [] = 0.
Proof. done. Qed.

Lemma last_len_snoc ps e : last_len (ps ++ [e]) = pe_len e.
Proof. unfold last_len. rewrite fmap_app. apply last_last. Qed.

(** The tail is the last entry, [last_len] before the end. *)
Lemma tail_off_last ps : tail_off ps = off ps - last_len ps.
Proof.
  destruct ps as [|e ps _] using rev_ind; [done|]. rewrite tail_off_snoc, last_len_snoc, off_app, body_len_cons.
  unfold body_len. simpl. lia.
Qed.

(** ** Writing an entry *)

Section update.
Context {host : Host} {alloc : Allocator}.

Lemma write_entry {R} (K : bytes → option R) pre mid post p m s enc :
  zlen s < 2 ^ 32 → 0 ≤ m < 2 ^ 32 → p = zlen pre →
  zipTryEncoding s (zlen s) = Some enc →
  let e := PEntry (wide m) m (item_of s) in
  let '(value, encoding) := default (123456789, 0) enc in
  zlen mid = pe_len e →
  ('(zl, n1) ← zipPrevEncodeLength (pre ++ mid ++ post) p m;
   '(zl, n2) ← zipEncodeLength zl (p + n1) encoding (zlen s);
   zl ← (if ZIP_IS_STR encoding then b ← rd s 0 (zlen s); wr zl (p + n1 + n2) b
         else zipSaveInteger zl (p + n1 + n2) value encoding);
   K zl) = K (pre ++ pe_bytes e ++ post).
Proof.
  intros Hs Hm Hp Henc e. destruct (encode_spec s) as (enc' & Henc' & Hspec). rewrite Henc in Henc'. injection Henc' as <-.
  destruct (default (123456789, 0) enc) as [value encoding]. destruct Hspec as (_ & Hhead & Hit). intros Hmid.
  rewrite pe_len_eq in Hmid. unfold e in Hmid. cbn [large itm] in Hmid. rewrite wide_size in Hmid.
  pose proof (item_head_length (item_of s)) as Hhl.
  assert (0 ≤ zipPrevEncodeLength_size m) as Hsz by (rewrite <-wide_size; destruct (prev_size_pos (wide m)); lia).
  destruct (split_at mid (Z.to_nat (zipPrevEncodeLength_size m))) as (m1 & mid2 & -> & Hm1); [lia|].
  rewrite length_app in Hmid. destruct (split_at mid2 (length (item_head (item_of s)))) as (m2 & m3 & -> & Hm2); [lia|].
  rewrite length_app in Hmid. rewrite <-!app_assoc, write_prev by (done || lia). rewrite bind_Some_eq. fold (wide m).
  unfold zipEncodeLength. rewrite Hhead. rewrite (app_assoc pre), (wr_app (pre ++ _) m2);
    [|rewrite length_app, <-wide_size, <-(length_prev_bytes (wide m) m); lia|done].
  rewrite !bind_Some_eq. set (q := p + _ + _). rewrite (app_assoc (pre ++ _)).
  set (pre' := (pre ++ _) ++ _). assert (q = zlen pre') as Hq.
  { unfold q, pre'. rewrite !length_app, <-wide_size, <-(length_prev_bytes (wide m) m). lia. }
  assert ((if ZIP_IS_STR encoding then b ← rd s 0 (zlen s); wr (pre' ++ m3 ++ post) q b
    else zipSaveInteger (pre' ++ m3 ++ post) q value encoding) = Some (pre' ++ item_data (item_of s) ++ post)) as ->.
  { pose proof (item_of_text s) as Htext. assert (zlen m3 = zlen (item_data (item_of s))) as Hm3 by lia.
    destruct (item_of s) as [t|ec v|]; [| |done]; cbn [item_data] in *.
    - destruct Hit as [-> ->]. pose proof (rd_prefix s [] (zlen s) eq_refl) as Hrd. rewrite app_nil_r in Hrd.
      rewrite Hrd, bind_Some_eq. apply wr_app; [done|lia].
    - destruct Hit as (-> & -> & Hok & ->). apply zipSaveInteger_run; [done| |done]. rewrite length_le_enc in Hm3. lia. }
  rewrite bind_Some_eq. unfold pre', e, pe_bytes. cbn [large prevl itm]. by rewrite <-!app_assoc.
Qed.

Lemma insert_prevlen_run c ps1 ps2 :
  Forall pe_ok (ps1 ++ ps2) → chain 0 (ps1 ++ ps2) → off (ps1 ++ ps2) < 2 ^ 32 →
  insert_prevlen (layout (off (ps1 ++ ps2) + 1) (tail_off (ps1 ++ ps2)) c (ps1 ++ ps2)) (off ps1) = Some (last_len ps1).
Proof.
  intros Hok Hch Hlt. unfold insert_prevlen. destruct ps2 as [|n ps2].
  - rewrite app_nil_r in *. rewrite layout_end, bind_Some_eq. change (ZIP_END =? ZIP_END) with true. cbn [negb]. cbv iota.
    unfold ZIPLIST_ENTRY_TAIL. pose proof (tail_off_range ps1). unfold ZIPLIST_HEADER_SIZE in *.
    rewrite layout_TAIL by (split; lia). rewrite bind_Some_eq. destruct ps1 as [|e ps1 _] using rev_ind.
    { change (tail_off []) with (off []). by rewrite layout_end. }
    rewrite tail_off_snoc, last_len_snoc. apply Forall_app in Hok as [_ [He _]%Forall_cons].
    destruct (layout_first (off (ps1 ++ [e]) + 1) (off ps1) c ps1 e [] He) as (b & -> & Hbe). rewrite bind_Some_eq, Hbe. cbn [negb].
    by rewrite layout_raw_length.
  - apply Forall_app in Hok as [_ [Hn _]%Forall_cons]. apply chain_app in Hch as [_ [Hprev _]].
    set (tot := off _ + 1). set (tl := tail_off _).
    destruct (layout_first tot tl c ps1 n ps2 Hn) as (b & -> & Hbe). rewrite bind_Some_eq, Hbe. cbn [negb].
    rewrite layout_entry. destruct (pe_decode (header tot tl c ++ pes_bytes ps1) n (pes_bytes ps2 ++ [ZIP_END]) (off ps1) Hn) as (-> & _ & _);
      [apply off_zlen|]. by rewrite bind_Some_eq, Hprev.
Qed.

(** Making room in front of an entry, whose first field changes its width by [d]. *)
Lemma insert_shift P l m T g L :
  2 ≤ L < 2 ^ 32 → 4 ≤ zlen P →
  let d := zipPrevEncodeLength_size L - prev_size l in
  zlen g = L + d →
  ∃ G, zlen G = L ∧
    (zl ← memmove (P ++ prev_bytes l m ++ T ++ g ++ [ZIP_END]) (zlen P + L) (zlen P - d) (zipPrevEncodeLength_size L + zlen T);
     zipPrevEncodeLength zl (zlen P + L) L) = Some (P ++ G ++ prev_bytes (wide L) L ++ T ++ [ZIP_END], zipPrevEncodeLength_size L).
Proof.
  intros HL HP. cbv zeta. intros Hg. pose proof (length_prev_bytes l m) as Hl. rewrite <-wide_size in *.
  pose proof (prev_size_pos l). pose proof (prev_size_pos (wide L)).
  destruct (split_at (P ++ prev_bytes l m) (Z.to_nat (zlen P + prev_size l - prev_size (wide L)))) as (Q & X & HQX & HQ);
    [rewrite length_app; lia|].
  assert (zlen X = prev_size (wide L)) as HX by (apply (f_equal length) in HQX; rewrite !length_app in HQX; lia).
  destruct (split_at (prev_bytes l m ++ T ++ g) (Z.to_nat L)) as (G & M & HGM & HG); [rewrite !length_app; lia|].
  assert (length M = length (X ++ T)) as HM.
  { apply (f_equal length) in HGM. rewrite !length_app in HGM. rewrite length_app. lia. }
  exists G. split; [lia|].
  rewrite (memmove_cut _ Q (X ++ T) (g ++ [ZIP_END]) (P ++ G) M [ZIP_END]).
  - rewrite bind_Some_eq, <-!app_assoc, (app_assoc P), write_prev; [|lia|by rewrite HX, wide_size|rewrite length_app; lia].
    fold (wide L). by rewrite <-!app_assoc, wide_size.
  - by rewrite app_assoc, HQX, <-!app_assoc.
  - rewrite <-!app_assoc. f_equal. rewrite (app_assoc G), <-HGM. by rewrite <-!app_assoc.
  - done.
  - rewrite length_app. lia.
  - lia.
  - rewrite length_app. lia.
Qed.

Lemma hole_exists G : 2 ≤ zlen G → ∃ h, pe_bytes h = G.
Proof.
  destruct G as [|x [|y G]]; [simpl; lia|simpl; lia|]. intros _. by exists (PEntry false x (Hole y G)).
Qed.

Lemma off_snoc ps e : off (ps ++ [e]) = off ps + pe_len e.
Proof. rewrite off_app, body_len_cons. unfold body_len. simpl. lia. Qed.

Lemma tail_off_cons e qs : tail_off (e :: qs) = if decide (qs = []) then ZIPLIST_HEADER_SIZE else pe_len e + tail_off qs.
Proof.
  change (e :: qs) with ([] ++ e :: qs) at 1. rewrite tail_off_app_cons. change (off []) with ZIPLIST_HEADER_SIZE.
  unfold ZIPLIST_HEADER_SIZE. case_decide; lia.
Qed.

(** [zl] from its first byte at [p] to the cascade: room for [L] bytes is made. *)
Definition open_room (zl : bytes) (p curlen reqlen : Z) (K : bytes → option bytes) : option bytes :=
  c ← rd1 zl p;
  nextdiff ← (if negb (c =? ZIP_END) then zipPrevLenByteDiff zl p (u32 reqlen) else Some 0);
  zl ← ziplistResize zl (u32 (curlen + reqlen + nextdiff));
  c ← rd1 zl p;
  zl ← (if negb (c =? ZIP_END) then
    zl ← memmove zl (p + reqlen) (p - nextdiff) (curlen - p - 1 + nextdiff);
    '(zl, _) ← zipPrevEncodeLength zl (p + reqlen) (u32 reqlen);
    t ← ZIPLIST_TAIL_OFFSET zl;
    zl ← set_TAIL_OFFSET zl (t + reqlen);
    tail ← zipEntry zl (p + reqlen);
    c ← rd1 zl (p + (reqlen + headersize tail + zlen_ tail));
    if negb (c =? ZIP_END) then t ← ZIPLIST_TAIL_OFFSET zl; set_TAIL_OFFSET zl (t + nextdiff) else Some zl
  else set_TAIL_OFFSET zl p);
  zl ← (if negb (nextdiff =? 0) then __ziplistCascadeUpdate zl (p + reqlen) else Some zl);
  K zl.

Lemma open_room_end c ps L :
  2 ≤ L → off ps + 1 + L < 2 ^ 32 →
  ∃ h, pe_len h = L ∧
    ∀ K, open_room (layout (off ps + 1) (tail_off ps) c ps) (off ps) (off ps + 1) L K =
      K (layout (off (ps ++ [h]) + 1) (tail_off (ps ++ [h])) c (ps ++ [h])).
Proof.
  intros HL Hlt. pose proof (off_pos ps) as Hp. unfold ZIPLIST_HEADER_SIZE in Hp. set (tl := tail_off ps).
  destruct (resize_keep (off ps + 1) tl c (pes_bytes ps ++ [ZIP_END]) [] (off ps + 1 + L)) as (g & Hres & Hg).
  { rewrite length_app. unfold off, body_len, ZIPLIST_HEADER_SIZE in *. cbn [length]. lia. }
  rewrite length_app in Hg. cbn [length] in Hg.
  assert (zlen ([ZIP_END] ++ g) = L) as HG by (unfold off, body_len, ZIPLIST_HEADER_SIZE in *; cbn [app length]; lia).
  destruct (hole_exists ([ZIP_END] ++ g)) as (h & Hh); [lia|]. exists h.
  assert (pe_len h = L) as HhL by (unfold pe_len; by rewrite Hh). split; [done|]. intros K.
  assert (∀ t, header (off ps + 1 + L) t c ++ (pes_bytes ps ++ [ZIP_END]) ++ g ++ [ZIP_END] =
    layout (off ps + 1 + L) t c (ps ++ [h])) as Hlay.
  { intros t. unfold layout. rewrite pes_bytes_app. change (pes_bytes [h]) with (pe_bytes h ++ []).
    rewrite app_nil_r, Hh, <-!app_assoc. done. }
  rewrite Hlay, app_nil_r in Hres. change (header (off ps + 1) tl c ++ pes_bytes ps ++ [ZIP_END]) with (layout (off ps + 1) tl c ps) in Hres.
  assert (rd1 (layout (off ps + 1 + L) tl c (ps ++ [h])) (off ps) = Some ZIP_END) as Hrd.
  { rewrite layout_entry, Hh. apply rd1_app, off_zlen. }
  unfold open_room. rewrite layout_end, bind_Some_eq. change (ZIP_END =? ZIP_END) with true. cbn [negb]. cbv iota. rewrite bind_Some_eq.
  assert (u32 (off ps + 1 + L + 0) = off ps + 1 + L) as -> by (rewrite wrap_small by (split; lia); lia).
  rewrite Hres, bind_Some_eq, Hrd, bind_Some_eq. change (ZIP_END =? ZIP_END) with true. cbn [negb]. cbv iota.
  rewrite layout_set_TAIL, bind_Some_eq. change (0 =? 0) with true. cbn [negb]. cbv iota. rewrite bind_Some_eq.
  rewrite off_snoc, tail_off_snoc, HhL. do 2 f_equal. lia.
Qed.

Lemma u32_diff a b : 0 ≤ a < 2 ^ 30 → 0 ≤ b < 2 ^ 30 → s32 (u32 (a - b)) = a - b.
Proof. intros Ha Hb. apply swrap_wrap_small; [lia|]. split; simpl; lia. Qed.

(** The entry behind the room, and the tail. *)
Lemma open_room_tail ps1 h n ps3 L :
  pe_len h = L →
  let n' := PEntry (wide L) L (itm n) in
  let d := prev_size (wide L) - prev_size (large n) in
  tail_off (ps1 ++ h :: n' :: ps3) =
    if decide (ps3 = []) then tail_off (ps1 ++ n :: ps3) + L else tail_off (ps1 ++ n :: ps3) + L + d.
Proof.
  intros HL. cbv zeta. rewrite !tail_off_app_cons, tail_off_cons. destruct (decide (_ :: ps3 = [])); [done|].
  destruct n as [l m it]. cbn [itm large]. rewrite (pe_len_set l (wide L) m L it), HL. unfold ZIPLIST_HEADER_SIZE.
  destruct (decide (ps3 = [])); lia.
Qed.

(** The tail moves by [r], and by [d] more when the entry in front of which it moves is not the tail. *)
Lemma move_tail N t0 c ps1 n ps3 (f : Z → Z) d (g : zlentry → Z) :
  pe_ok n → Forall pe_ok ps3 → in_u 32 t0 → in_u 32 (f t0) → g (entry_of n) = off (ps1 ++ [n]) →
  (t ← ZIPLIST_TAIL_OFFSET (layout N t0 c (ps1 ++ n :: ps3));
   zl ← set_TAIL_OFFSET (layout N t0 c (ps1 ++ n :: ps3)) (f t);
   tail ← zipEntry zl (off ps1);
   c ← rd1 zl (g tail);
   if negb (c =? ZIP_END) then t ← ZIPLIST_TAIL_OFFSET zl; set_TAIL_OFFSET zl (t + d) else Some zl) =
  Some (layout N (if decide (ps3 = []) then f t0 else f t0 + d) c (ps1 ++ n :: ps3)).
Proof.
  intros Hn Hok Ht Htr Hg. rewrite layout_TAIL, bind_Some_eq, layout_set_TAIL, bind_Some_eq, layout_zipEntry, bind_Some_eq by done.
  rewrite Hg. destruct (layout_at_end N (f t0) c (ps1 ++ [n]) ps3 Hok) as (b & Hb & Hbe).
  rewrite <-app_assoc in Hb at 1. cbn [app] in Hb. rewrite Hb, bind_Some_eq, Hbe.
  case_bool_decide; (destruct (decide (ps3 = [])); [|]); try done. cbn [negb].
  rewrite layout_TAIL, bind_Some_eq by done. apply layout_set_TAIL.
Qed.

(** The state before the tail is moved. *)
Lemma open_room_moved c tl ps1 n ps3 L :
  pe_ok n → 2 ≤ L → room (ps1 ++ n :: ps3) L → (large n = true → 4 ≤ L) →
  let ps := ps1 ++ n :: ps3 in
  let d := prev_size (wide L) - prev_size (large n) in
  let N := off ps + 1 + L + d in
  ∃ h, pe_len h = L ∧ ∀ K,
    open_room (layout (off ps + 1) tl c ps) (off ps1) (off ps + 1) L K =
      (zl ← (let zl := layout N tl c (ps1 ++ h :: PEntry (wide L) L (itm n) :: ps3) in
         t ← ZIPLIST_TAIL_OFFSET zl;
         zl ← set_TAIL_OFFSET zl (t + L);
         tail ← zipEntry zl (off ps1 + L);
         c ← rd1 zl (off ps1 + (L + headersize tail + zlen_ tail));
         if negb (c =? ZIP_END) then t ← ZIPLIST_TAIL_OFFSET zl; set_TAIL_OFFSET zl (t + d) else Some zl);
       zl ← (if negb (d =? 0) then __ziplistCascadeUpdate zl (off ps1 + L) else Some zl);
       K zl).
Proof.
  intros Hn HL Hroom Hfit ps d N. unfold room in Hroom. fold ps in Hroom. unfold open_room.
  destruct (layout_first (off ps + 1) tl c ps1 n ps3 Hn) as (b & Hb & Hbe). fold ps in Hb. rewrite Hb.
  assert (zlen ps = zlen ps1 + 1 + zlen ps3) as Hzps by (unfold ps; rewrite length_app; cbn [length]; lia).
  pose proof (off_pos ps) as Hp. pose proof (off_pos ps1) as Hp1. unfold ZIPLIST_HEADER_SIZE in Hp, Hp1.
  rewrite (wrap_small 32 L) by (split; lia).
  assert (zipPrevLenByteDiff (layout (off ps + 1) tl c ps) (off ps1) L = Some d) as Hdiff.
  { unfold zipPrevLenByteDiff. unfold ps at 2. rewrite layout_entry.
    destruct (pe_decode (header (off ps + 1) tl c ++ pes_bytes ps1) n (pes_bytes ps3 ++ [ZIP_END]) (off ps1) Hn) as (_ & -> & _);
      [apply off_zlen|]. rewrite bind_Some_eq, <-wide_size, u32_diff; [done|..];
      destruct (prev_size_pos (wide L)), (prev_size_pos (large n)); lia. }
  assert (0 ≤ L + d ≤ L + 4) as HLd.
  { unfold d, wide. destruct (large n); cbn [prev_size]; [specialize (Hfit eq_refl)|]; destruct (negb _); cbn [prev_size]; lia. }
  assert (off ps = off ps1 + body_len (n :: ps3)) as Hoff by (unfold ps; apply off_app).
  assert (u32 (off ps + 1 + L + d) = N) as HuN by (rewrite wrap_small; [done|split; lia]).
  destruct (resize_keep (off ps + 1) tl c (pes_bytes ps) [ZIP_END] N) as (g & Hres & Hg).
  { unfold N, off, body_len, ZIPLIST_HEADER_SIZE in *. lia. }
  assert (zlen g = L + d) as HgL by (unfold N, off, body_len, ZIPLIST_HEADER_SIZE in *; lia). clear Hg.
  set (P := header N tl c ++ pes_bytes ps1). set (T := item_head (itm n) ++ item_data (itm n) ++ pes_bytes ps3).
  assert (header N tl c ++ pes_bytes ps ++ g ++ [ZIP_END] = P ++ pe_bytes n ++ (pes_bytes ps3 ++ g ++ [ZIP_END])) as Hblk by apply at_entry.
  rewrite Hblk in Hres. assert (off ps1 = zlen P) as HP by apply off_zlen.
  destruct (pe_first_byte P n (pes_bytes ps3 ++ g ++ [ZIP_END]) (off ps1) Hn HP) as (b2 & Hb2 & Hbe2).
  assert (P ++ pe_bytes n ++ (pes_bytes ps3 ++ g ++ [ZIP_END]) = P ++ prev_bytes (large n) (prevl n) ++ T ++ g ++ [ZIP_END]) as HPT
    by (unfold T, pe_bytes; by rewrite <-!app_assoc).
  rewrite HPT in Hres, Hb2.
  assert (body_len (n :: ps3) = prev_size (large n) + zlen T) as HT.
  { rewrite body_len_cons, pe_len_eq. unfold T, body_len. rewrite !length_app. lia. }
  assert (off ps + 1 - off ps1 - 1 + d = prev_size (wide L) + zlen T) as Hn1 by (unfold d; lia).
  destruct (insert_shift P (large n) (prevl n) T g L) as (G & HG & Hsh); [lia|lia|by rewrite <-wide_size|].
  cbv zeta in Hsh. rewrite <-!wide_size in Hsh. fold d in Hsh. rewrite <-HP, <-Hn1 in Hsh.
  destruct (hole_exists G) as (h & HhG); [lia|]. exists h. split; [unfold pe_len; by rewrite HhG|]. intros K.
  rewrite bind_Some_eq, Hbe. cbn [negb]. rewrite Hdiff, bind_Some_eq, HuN. unfold layout at 1. rewrite Hres, bind_Some_eq, Hb2, bind_Some_eq, Hbe2.
  cbn [negb]. revert Hsh. destruct (memmove _ _ _ _) as [zl2|]; [|done]. rewrite !bind_Some_eq. intros ->. rewrite bind_Some_eq.
  assert (P ++ G ++ prev_bytes (wide L) L ++ T ++ [ZIP_END] = layout N tl c (ps1 ++ h :: PEntry (wide L) L (itm n) :: ps3)) as ->.
  { unfold layout. rewrite pes_bytes_app, !pes_bytes_cons, HhG. unfold P, T, pe_bytes. cbn [large prevl itm]. by rewrite <-!app_assoc. }
  done.
Qed.

Lemma open_room_middle c ps1 n ps3 L :
  Forall pe_ok (n :: ps3) → chain_tail (n :: ps3) → 2 ≤ L → room (ps1 ++ n :: ps3) L → (large n = true → 4 ≤ L) →
  let ps := ps1 ++ n :: ps3 in
  ∃ h, pe_len h = L ∧
    let qs := ps1 ++ h :: relink L (n :: ps3) in
    ∀ K, open_room (layout (off ps + 1) (tail_off ps) c ps) (off ps1) (off ps + 1) L K =
      K (layout (off qs + 1) (tail_off qs) c qs).
Proof.
  intros Hok Hch HL Hroom Hfit ps. apply Forall_cons in Hok as [Hn Hok].
  destruct (open_room_moved c (tail_off ps) ps1 n ps3 L Hn HL Hroom Hfit) as (h & HG & Hopen). fold ps in Hopen. cbv zeta in Hopen.
  exists h. split; [done|]. intros qs K. rewrite Hopen. clear Hopen. unfold room in Hroom. fold ps in Hroom.
  set (d := prev_size (wide L) - prev_size (large n)). set (N := off ps + 1 + L + d). set (n' := PEntry (wide L) L (itm n)).
  assert (pe_len n' = pe_len n + d) as Hn'len.
  { unfold n', d. destruct n as [l m it]. cbn [itm large]. rewrite (pe_len_set l (wide L) m L it). lia. }
  assert (off ps = off ps1 + (pe_len n + body_len ps3)) as Hoff by (unfold ps; by rewrite off_app, body_len_cons).
  assert (0 ≤ body_len ps3) as Hb3 by (unfold body_len; lia).
  assert (zlen ps = zlen ps1 + 1 + zlen ps3) as Hzps by (unfold ps; rewrite length_app; cbn [length]; lia).
  pose proof (off_pos ps1) as Hp1. pose proof (tail_off_range ps) as Hr. unfold ZIPLIST_HEADER_SIZE in Hp1, Hr.
  assert (d ≤ 4) as Hd4 by (unfold d; destruct (prev_size_pos (wide L)), (prev_size_pos (large n)); lia).
  assert (pe_ok n') as Hn'.
  { pose proof (pe_len_pos n). destruct Hn as (Hit & _ & _). split; [done|]. split; [apply (wide_range L); lia|]. lia. }
  assert (off ps1 + L = off (ps1 ++ [h])) as -> by (by rewrite off_snoc, HG).
  pose proof (open_room_tail ps1 h n ps3 L HG) as Htl. cbv zeta in Htl. fold n' d ps in Htl.
  assert (ps1 ++ h :: n' :: ps3 = (ps1 ++ [h]) ++ n' :: ps3) as Has by by rewrite <-app_assoc.
  rewrite Has. rewrite (move_tail N (tail_off ps) c (ps1 ++ [h]) n' ps3 (λ t, t + L) d (λ tail, off ps1 + (L + headersize tail + zlen_ tail)));
    [|done|done|split; lia|split; lia|].
  2: { cbn [headersize zlen_ entry_of]. rewrite !off_snoc, HG, (pe_len_eq n'). lia. }
  rewrite <-Htl, bind_Some_eq. rewrite Has.
  assert (N = off ((ps1 ++ [h]) ++ n' :: ps3) + 1) as -> by (unfold N; rewrite off_app, off_snoc, body_len_cons; lia).
  unfold qs. cbn [relink]. fold n'. cbv zeta. destruct (Z.eqb_spec d 0) as [Hd|Hd]; cbn [negb].
  - rewrite bind_Some_eq, chain_id; [|by rewrite Hn'len, Hd, Z.add_0_r]. rewrite <-app_assoc. done.
  - rewrite cascade_run; [|by constructor|]. { rewrite bind_Some_eq, <-app_assoc. done. }
    rewrite off_app, off_snoc, body_len_cons. lia.
Qed.

Lemma item_of_length s : zlen s < 2 ^ 32 → zlen (item_head (item_of s)) + zlen (item_data (item_of s)) ≤ zlen s + 9.
Proof.
  intros Hs. pose proof (item_head_length (item_of s)) as Hh. pose proof (item_of_text s) as Ht.
  pose proof (item_of_ok s Hs) as Hok. destruct (item_of s) as [t|enc v|]; [| |done].
  - cbn [item_data]. cbn in Ht. subst t. lia.
  - rewrite item_data_num. cbn [item_head length]. unfold zipIntSize. repeat case_match; lia.
Qed.

Definition incr_count (c k : Z) : Z := if c <? UINT16_MAX then c + k else c.

Lemma pe_len_same h e ps1 qs :
  pe_len h = pe_len e → off (ps1 ++ h :: qs) = off (ps1 ++ e :: qs) ∧ tail_off (ps1 ++ h :: qs) = tail_off (ps1 ++ e :: qs).
Proof. intros He. by rewrite !off_app, !body_len_cons, !tail_off_app_cons, He. Qed.

(** The entry is written into the room made. *)
Lemma close_room tot tail c ps1 h qs s enc m :
  zlen s < 2 ^ 32 → 0 ≤ m < 2 ^ 32 → in_u 16 c → zipTryEncoding s (zlen s) = Some enc →
  let e := PEntry (wide m) m (item_of s) in
  pe_len h = pe_len e →
  let '(value, encoding) := default (123456789, 0) enc in
  let zl := layout tot tail c (ps1 ++ h :: qs) in
  ('(zl, n1) ← zipPrevEncodeLength zl (off ps1) m;
   '(zl, n2) ← zipEncodeLength zl (off ps1 + n1) encoding (zlen s);
   zl ← (if ZIP_IS_STR encoding then b ← rd s 0 (zlen s); wr zl (off ps1 + n1 + n2) b
         else zipSaveInteger zl (off ps1 + n1 + n2) value encoding);
   ZIPLIST_INCR_LENGTH zl 1) = Some (layout tot tail (incr_count c 1) (ps1 ++ e :: qs)).
Proof.
  intros Hs Hm Hc Henc e He.
  pose proof (write_entry (λ zl, ZIPLIST_INCR_LENGTH zl 1) (header tot tail c ++ pes_bytes ps1) (pe_bytes h)
    (pes_bytes qs ++ [ZIP_END]) (off ps1) m s enc Hs Hm (off_zlen tot tail c ps1) Henc) as Hw. cbv zeta in Hw. fold e in Hw.
  destruct (default (123456789, 0) enc) as [value encoding]. cbv zeta. rewrite layout_entry, Hw by exact He.
  rewrite <-layout_entry. by apply layout_INCR.
Qed.

Definition fits (ps1 : list pentry) (it : item) (ps2 : list pentry) : Prop :=
  match ps2 with
  | n :: _ => large n = true → 4 ≤ pe_len (PEntry (wide (last_len ps1)) (last_len ps1) it)
  | [] => True
  end.

Lemma wf_split ps1 ps2 :
  wf (ps1 ++ ps2) → Forall pe_ok ps1 ∧ Forall pe_ok ps2 ∧ chain 0 ps1 ∧ chain (last_len ps1) ps2 ∧ 0 ≤ last_len ps1 < 2 ^ 32.
Proof.
  intros (Hok & Hch & _ & _). apply Forall_app in Hok as [H1 H2]. apply chain_app in Hch as [H3 H4].
  repeat (split; [done|]). by apply last_len_range.
Qed.

Lemma chain_tail_of m ps : chain m ps → chain_tail ps.
Proof. destruct ps as [|n ps]; [done|]. by intros [_ ?]. Qed.

Lemma zl_insert_run c ps1 ps2 s :
  wf (ps1 ++ ps2) → in_u 16 c → room (ps1 ++ ps2) (zlen s + 14) → fits ps1 (item_of s) ps2 →
  let ps := ps1 ++ ps2 in
  let qs := insert_entries ps1 (item_of s) ps2 in
  __ziplistInsert (layout (off ps + 1) (tail_off ps) c ps) (off ps1) s (zlen s) =
    Some (layout (off qs + 1) (tail_off qs) (incr_count c 1) qs).
Proof.
  intros Hwf Hc Hroom Hfit ps qs. destruct (wf_split _ _ Hwf) as (Hok1 & Hok2 & _ & Hch2 & Hlast).
  destruct Hwf as (Hok & Hch & _ & Hlt). pose proof (off_pos ps) as Hp. unfold ZIPLIST_HEADER_SIZE in Hp.
  unfold room in Hroom. fold ps in Hok, Hch, Hlt, Hroom. unfold __ziplistInsert.
  rewrite layout_BYTES, bind_Some_eq by (split; lia). 
  assert (insert_prevlen (layout (off ps + 1) (tail_off ps) c ps) (off ps1) = Some (last_len ps1)) as ->
    by (apply insert_prevlen_run; [done..|fold ps; lia]).
  rewrite bind_Some_eq. set (m := last_len ps1) in *. set (e := PEntry (wide m) m (item_of s)).
  destruct (encode_spec s) as (enc & Henc & Hspec). rewrite Henc, bind_Some_eq.
  pose proof (item_of_length s ltac:(lia)) as Hil. assert (prev_size (wide m) ≤ 5) as Hpm by (destruct (prev_size_pos (wide m)); lia).
  pose proof (pe_len_eq e) as Hel. cbn [e large itm] in Hel. pose proof (pe_len_pos e) as Hpos.
  assert (room ps (pe_len e)) as Hroome by (unfold room; lia).
  assert (∃ h, pe_len h = pe_len e ∧ ∀ K, open_room (layout (off ps + 1) (tail_off ps) c ps) (off ps1) (off ps + 1) (pe_len e) K =
    K (layout (off qs + 1) (tail_off qs) c (ps1 ++ h :: relink (pe_len e) ps2))) as (h & Hh & Hopen).
  { unfold qs, insert_entries. fold m e. cbv zeta. destruct ps2 as [|n ps3].
    - unfold ps in *. rewrite app_nil_r in *.
      destruct (open_room_end c ps1 (pe_len e)) as (h & Hh & Ho); [lia|lia|].
      exists h. split; [done|]. intros K. rewrite Ho. cbn [relink]. by rewrite !off_snoc, !tail_off_snoc, Hh.
    - destruct (open_room_middle c ps1 n ps3 (pe_len e)) as (h & Hh & Ho); [done|by eapply chain_tail_of|lia|done|exact Hfit|].
      exists h. split; [done|]. intros K. fold ps in Ho. rewrite Ho. cbv zeta.
      by destruct (pe_len_same h e ps1 (relink (pe_len e) (n :: ps3)) Hh) as [-> ->]. }
  pose proof (close_room (off qs + 1) (tail_off qs) c ps1 h (relink (pe_len e) ps2) s enc m ltac:(lia) Hlast Hc Henc Hh) as Hcl.
  destruct (default (123456789, 0) enc) as [value encoding]. destruct Hspec as (-> & -> & _). cbv zeta in Hcl.
  rewrite <-wide_size. assert (zlen (item_data (item_of s)) + prev_size (wide m) + zlen (item_head (item_of s)) = pe_len e) as -> by lia.
  etransitivity; [|exact Hcl].
  exact (Hopen (λ zl,
    '(zl, n1) ← zipPrevEncodeLength zl (off ps1) m;
    '(zl, n2) ← zipEncodeLength zl (off ps1 + n1) encoding (zlen s);
    zl ← (if ZIP_IS_STR encoding then b ← rd s 0 (zlen s); wr zl (off ps1 + n1 + n2) b
          else zipSaveInteger zl (off ps1 + n1 + n2) value encoding);
    ZIPLIST_INCR_LENGTH zl 1)).
Qed.

(** ** Deleting *)

Lemma zl_skip_run tot tail c num ps1 ds ps2 k fuel :
  Forall pe_ok (ds ++ ps2) → (num = k + zlen ds ∨ k + zlen ds ≤ num ∧ ps2 = []) → (length ds < fuel)%nat →
  loop fuel (zl_skip_body (layout tot tail c (ps1 ++ ds ++ ps2)) num) (off ps1, k) = Some (off (ps1 ++ ds), k + zlen ds).
Proof.
  revert ps1 k fuel. induction ds as [|e ds IH]; intros ps1 k fuel Hok Hnum Hf; (destruct fuel as [|fuel]; [lia|]); rewrite loop_S; cbn [length] in *.
  - unfold zl_skip_body. cbn [app] in *. destruct (layout_at_end tot tail c ps1 ps2 Hok) as (b & -> & Hb).
    rewrite bind_Some_eq, Hb, app_nil_r, Z.add_0_r. case_bool_decide as E; cbn [negb andb]; [done|].
    destruct Hnum as [->|[_ ?]]; [|done]. by rewrite (proj2 (Z.ltb_ge k (k + Z.of_nat 0))) by lia.
  - cbn [app] in *. apply Forall_cons in Hok as [He Hok]. unfold zl_skip_body at 1.
    destruct (layout_first tot tail c ps1 e (ds ++ ps2) He) as (b & -> & Hbe). rewrite bind_Some_eq, Hbe. cbn [negb andb].
    rewrite (proj2 (Z.ltb_lt k num)) by lia. rewrite layout_raw_length, bind_Some_eq, <-off_snoc by done.
    specialize (IH (ps1 ++ [e]) (k + 1) fuel). rewrite <-!app_assoc in IH. cbn [app] in IH. rewrite IH; [|done|destruct Hnum as [?|[? ?]]; [left; lia|right; split; [lia|done]]|lia].
    do 2 f_equal. lia.
Qed.

(** An entry after a long one has a wide field, so there is room for the field to be rewritten. *)
Lemma deleted_room m d ds n :
  pe_ok d → prevl d = m → prev_size (wide m) - prev_size (large n) ≤ body_len (d :: ds) - 2.
Proof.
  intros (_ & Hd & _) <-. rewrite body_len_cons, pe_len_eq. pose proof (item_head_length (itm d)).
  assert (0 ≤ body_len ds) by (unfold body_len; lia). unfold wide, ZIP_BIGLEN in *.
  destruct (large n), (large d), (_ <? 254) eqn:E; cbn [prev_size negb]; lia.
Qed.

(** The field of the entry behind the deleted ones is rewritten, over them where it is wider. *)
Lemma delete_rewrite tot tl c ps1 ds n ps3 m :
  0 ≤ m < 2 ^ 32 → prev_size (wide m) - prev_size (large n) ≤ body_len ds - 2 →
  let d := prev_size (wide m) - prev_size (large n) in
  let n' := PEntry (wide m) m (itm n) in
  ∃ h, pe_len h = body_len ds - d ∧
    zipPrevEncodeLength (layout tot tl c (ps1 ++ ds ++ n :: ps3)) (off (ps1 ++ ds) - d) m =
      Some (layout tot tl c (ps1 ++ h :: n' :: ps3), zipPrevEncodeLength_size m).
Proof.
  intros Hm Hd d n'. destruct (split_at (pes_bytes ds ++ prev_bytes (large n) (prevl n)) (Z.to_nat (body_len ds - d))) as (D & X & HDX & HD).
  { rewrite length_app. unfold body_len in *. pose proof (length_prev_bytes (large n) (prevl n)).
    unfold d. destruct (prev_size_pos (wide m)), (prev_size_pos (large n)); lia. }
  assert (zlen X = prev_size (wide m)) as HX.
  { apply (f_equal length) in HDX. rewrite !length_app in HDX. pose proof (length_prev_bytes (large n) (prevl n)).
    unfold d, body_len in *. lia. }
  destruct (hole_exists D) as (h & HhD); [unfold d in *; lia|]. exists h. split; [unfold pe_len, d in *; rewrite HhD; lia|].
  assert (layout tot tl c (ps1 ++ ds ++ n :: ps3) = (header tot tl c ++ pes_bytes ps1 ++ D) ++ X ++
    (item_head (itm n) ++ item_data (itm n) ++ pes_bytes ps3 ++ [ZIP_END])) as ->.
  { unfold layout. rewrite !pes_bytes_app, pes_bytes_cons. unfold pe_bytes. rewrite <-!app_assoc. do 2 f_equal.
    rewrite (app_assoc D), <-HDX. by rewrite <-!app_assoc. }
  rewrite write_prev; [|done|by rewrite HX, wide_size|].
  - fold (wide m). do 2 f_equal. unfold layout. rewrite pes_bytes_app, !pes_bytes_cons, HhD. unfold n', pe_bytes. cbn [large prevl itm].
    by rewrite <-!app_assoc.
  - rewrite off_app, !length_app. unfold off, d in *. pose proof (length_header tot tl c). unfold body_len in *. lia.
Qed.

Lemma delete_tail ps1 ds n ps3 m :
  let d := prev_size (wide m) - prev_size (large n) in
  tail_off (ps1 ++ PEntry (wide m) m (itm n) :: ps3) =
    let t := tail_off (ps1 ++ ds ++ n :: ps3) in
    if decide (ps3 = []) then t - body_len ds else t - body_len ds + d.
Proof.
  cbv zeta. rewrite app_assoc, !tail_off_app_cons, off_app. destruct n as [l k it]. cbn [itm large].
  rewrite (pe_len_set l (wide m) k m it). destruct (decide (ps3 = [])); lia.
Qed.

(** The entries behind are moved to the front, and the block is shrunk. *)
Lemma delete_close tot tl c ps1 h qs totlen d :
  in_u 32 tot → tot - totlen + d = off (ps1 ++ qs) + 1 → tot - totlen + d < 2 ^ 32 →
  ∃ zl, memmove (layout tot tl c (ps1 ++ h :: qs)) (off ps1) (off (ps1 ++ [h])) (body_len qs) = Some zl ∧
    ZIPLIST_BYTES zl = Some tot ∧
    ziplistResize zl (u32 (tot - totlen + d)) = Some (layout (off (ps1 ++ qs) + 1) tl c (ps1 ++ qs)).
Proof.
  intros Htot HN Hlt. destruct (split_at (pe_bytes h ++ pes_bytes qs) (length (pes_bytes qs))) as (M & Y & HMY & HM); [rewrite length_app; lia|].
  exists ((header tot tl c ++ pes_bytes ps1) ++ pes_bytes qs ++ Y ++ [ZIP_END]). split; [|split].
  - apply (memmove_cut _ (header tot tl c ++ pes_bytes (ps1 ++ [h])) (pes_bytes qs) [ZIP_END] (header tot tl c ++ pes_bytes ps1) M (Y ++ [ZIP_END])).
    + unfold layout. rewrite !pes_bytes_app, !pes_bytes_cons. unfold pes_bytes at 5. cbn. rewrite app_nil_r, <-!app_assoc. done.
    + unfold layout. rewrite !pes_bytes_app, !pes_bytes_cons, <-!app_assoc. do 2 f_equal. by rewrite app_assoc, HMY, <-app_assoc.
    + done.
    + apply off_zlen.
    + apply off_zlen.
    + done.
  - rewrite <-app_assoc. by apply BYTES_run.
  - rewrite <-app_assoc, (app_assoc (pes_bytes ps1)), <-pes_bytes_app. pose proof (off_pos (ps1 ++ qs)) as Hp. unfold ZIPLIST_HEADER_SIZE in Hp.
    rewrite wrap_small, HN by (split; lia).
    destruct (resize_keep tot tl c (pes_bytes (ps1 ++ qs)) (Y ++ [ZIP_END]) (off (ps1 ++ qs) + 1)) as (g & -> & Hg).
    { unfold off, body_len, ZIPLIST_HEADER_SIZE in *. lia. }
    assert (g = []) as -> by (destruct g; [done|unfold off, body_len in Hg; cbn [length] in Hg; lia]). done.
Qed.

Lemma last_len_chain ps1 d ds : chain 0 (ps1 ++ d :: ds) → prevl d = last_len ps1.
Proof. by intros [_ [Hd _]]%chain_app. Qed.

Lemma chain_tail_app m ds ps : ds ≠ [] → chain m (ds ++ ps) → chain_tail ps.
Proof.
  destruct ds as [|d ds _] using rev_ind; [done|]. rewrite <-app_assoc. cbn [app]. intros _ [_ Hc]%chain_app.
  by eapply chain_tail_of, Hc.
Qed.

Lemma tail_off_ge ps n qs : off ps ≤ tail_off (ps ++ n :: qs).
Proof.
  rewrite tail_off_app_cons. pose proof (tail_off_range qs). pose proof (pe_len_pos n). unfold ZIPLIST_HEADER_SIZE in *.
  case_decide; lia.
Qed.

(** A step that a hypothesis and the goal share. *)
Ltac peel Hb :=
  revert Hb;
  match goal with |- (?x ≫= _) = _ → _ => destruct x; [rewrite !bind_Some_eq; intros Hb|done] end.

(** The part of [__ziplistDelete] that rewrites the entry behind, moves the tail and the entries. *)
Definition delete_move (zl : bytes) (first_p p totlen m : Z) : option (bytes * Z) :=
  c ← rd1 zl p;
  if negb (c =? ZIP_END) then
    nextdiff ← zipPrevLenByteDiff zl p m;
    let p := p - nextdiff in
    '(zl, _) ← zipPrevEncodeLength zl p m;
    t ← ZIPLIST_TAIL_OFFSET zl;
    zl ← set_TAIL_OFFSET zl (t - totlen);
    tail ← zipEntry zl p;
    c ← rd1 zl (p + u32 (headersize tail + zlen_ tail));
    zl ← (if negb (c =? ZIP_END) then t ← ZIPLIST_TAIL_OFFSET zl; set_TAIL_OFFSET zl (t + nextdiff) else Some zl);
    n ← ZIPLIST_BYTES zl;
    zl ← memmove zl first_p p (n - p - 1);
    Some (zl, nextdiff)
  else
    zl ← set_TAIL_OFFSET zl (first_p - m);
    Some (zl, 0).

Lemma delete_start c ps1 d0 ds ps2 num :
  let dl := d0 :: ds in
  let ps := ps1 ++ dl ++ ps2 in
  let zl := layout (off ps + 1) (tail_off ps) c ps in
  wf ps → (num = zlen dl ∨ zlen dl ≤ num ∧ ps2 = []) →
  __ziplistDelete zl (off ps1) num =
    ('(zl, nextdiff) ← delete_move zl (off ps1) (off (ps1 ++ dl)) (body_len dl) (last_len ps1);
     n ← ZIPLIST_BYTES zl;
     zl ← ziplistResize zl (u32 (n - body_len dl + nextdiff));
     zl ← ZIPLIST_INCR_LENGTH zl (- zlen dl);
     if negb (nextdiff =? 0) then __ziplistCascadeUpdate zl (off ps1) else Some zl).
Proof.
  intros dl ps zl Hwf Hnum. destruct (wf_split _ _ Hwf) as (_ & Hok2 & _ & _ & _).
  assert (prevl d0 = last_len ps1) as Hd0 by (eapply (last_len_chain ps1 d0 (ds ++ ps2)), Hwf).
  pose proof Hok2 as Hok3. cbn [dl app] in Hok3. apply Forall_cons in Hok3 as [Hd0ok _].
  destruct Hwf as (_ & _ & _ & Hlt).
  assert (off ps = off ps1 + body_len dl + body_len ps2) as Hoff by (unfold ps; by rewrite !off_app, body_len_app, Z.add_assoc).
  assert (2 ≤ body_len dl) as Hdl2 by (unfold dl; rewrite body_len_cons; pose proof (pe_len_pos d0); unfold body_len; lia).
  assert (0 ≤ body_len ps2) as Hb3 by (unfold body_len; lia). pose proof (off_pos ps1) as Hp1. unfold ZIPLIST_HEADER_SIZE in Hp1.
  unfold __ziplistDelete.
  assert (zipEntry zl (off ps1) = Some (entry_of d0)) as -> by by apply layout_zipEntry.
  rewrite bind_Some_eq. cbn [prevrawlen entry_of]. rewrite Hd0.
  assert (loop (length zl) (zl_skip_body zl num) (off ps1, 0) = Some (off (ps1 ++ dl), zlen dl)) as ->.
  { pose proof (layout_fuel (off ps + 1) (tail_off ps) c ps) as Hf. apply zl_skip_run; [done|done|]. unfold ps in Hf at 1.
    rewrite !length_app in Hf. unfold zl. lia. }
  rewrite bind_Some_eq. assert (u32 (off (ps1 ++ dl) - off ps1) = body_len dl) as ->.
  { rewrite off_app. replace (off ps1 + body_len dl - off ps1) with (body_len dl) by lia. apply wrap_small. split; lia. }
  rewrite (proj2 (Z.gtb_lt (body_len dl) 0)) by lia. unfold delete_move. destruct (rd1 zl (off (ps1 ++ dl))); done.
Qed.

Lemma delete_move_middle c ps1 d0 ds n ps3 :
  let dl := d0 :: ds in
  let ps := ps1 ++ dl ++ n :: ps3 in
  let m := last_len ps1 in
  let d := prev_size (wide m) - prev_size (large n) in
  let n' := PEntry (wide m) m (itm n) in
  wf ps → pe_ok n' →
  ∃ h, delete_move (layout (off ps + 1) (tail_off ps) c ps) (off ps1) (off (ps1 ++ dl)) (body_len dl) m =
    (zl ← memmove (layout (off ps + 1) (tail_off (ps1 ++ n' :: ps3)) c (ps1 ++ h :: n' :: ps3))
            (off ps1) (off (ps1 ++ [h])) (body_len (n' :: ps3));
     Some (zl, d)).
Proof.
  intros dl ps m d n' Hwf Hn'. destruct (wf_split _ _ Hwf) as (_ & Hok2 & _ & _ & Hlast). fold m in Hlast.
  assert (prevl d0 = m) as Hd0 by (eapply (last_len_chain ps1 d0 (ds ++ n :: ps3)), Hwf).
  apply Forall_app in Hok2 as [Hokd [Hn Hok3]%Forall_cons]. apply Forall_cons in Hokd as [Hd0ok _].
  pose proof (deleted_room m d0 ds n Hd0ok Hd0) as Hdr. fold dl d in Hdr. destruct Hwf as (_ & _ & _ & Hlt).
  pose proof (delete_tail ps1 dl n ps3 m) as Htl. cbv zeta in Htl. fold d n' ps in Htl. set (tl := tail_off ps) in *.
  assert (ps = (ps1 ++ dl) ++ n :: ps3) as Hps by (unfold ps; by rewrite <-app_assoc).
  destruct (layout_first (off ps + 1) tl c (ps1 ++ dl) n ps3 Hn) as (b & Hb & Hbe). rewrite <-Hps in Hb.
  destruct (delete_rewrite (off ps + 1) tl c ps1 dl n ps3 m Hlast Hdr) as (h & Hh & Hrw). fold ps d n' in Hh, Hrw. exists h.
  assert (off (ps1 ++ dl) - d = off (ps1 ++ [h])) as Hq by (rewrite off_snoc, off_app, Hh; lia). rewrite Hq in Hrw.
  assert (zipPrevLenByteDiff (layout (off ps + 1) tl c ps) (off (ps1 ++ dl)) m = Some d) as Hdiff.
  { unfold zipPrevLenByteDiff. rewrite Hps at 2. rewrite layout_entry.
    destruct (pe_decode (header (off ps + 1) tl c ++ pes_bytes (ps1 ++ dl)) n (pes_bytes ps3 ++ [ZIP_END]) (off (ps1 ++ dl)) Hn) as (_ & -> & _);
      [apply off_zlen|]. rewrite bind_Some_eq, <-wide_size, u32_diff; [done|..];
      destruct (prev_size_pos (wide m)), (prev_size_pos (large n)); lia. }
  unfold delete_move. rewrite Hb, bind_Some_eq, Hbe, Hdiff, bind_Some_eq. cbv zeta. cbn [negb]. rewrite Hq, Hrw, bind_Some_eq.
  pose proof (tail_off_range (ps1 ++ n' :: ps3)) as Hr. pose proof (tail_off_range ps) as Hr2. unfold ZIPLIST_HEADER_SIZE in Hr, Hr2.
  assert (off (ps1 ++ h :: n' :: ps3) = off ps) as Hoff.
  { unfold ps. rewrite !off_app, body_len_app, !body_len_cons, Hh. unfold n', d. destruct n as [l k it]. cbn [itm large].
    rewrite (pe_len_set l (wide m) k m it). lia. }
  pose proof (move_tail (off ps + 1) tl c (ps1 ++ [h]) n' ps3 (λ t, t - body_len dl) d
    (λ tail, off (ps1 ++ [h]) + u32 (headersize tail + zlen_ tail))) as Hmv.
  cbv beta in Hmv. rewrite <-Htl, <-!app_assoc in Hmv. cbn [app] in Hmv.
  assert (off (ps1 ++ dl) ≤ tl) as Htl2 by (unfold tl; rewrite Hps; apply tail_off_ge).
  rewrite off_app in Htl2. pose proof (off_pos ps1) as Hp1. unfold ZIPLIST_HEADER_SIZE in Hp1.
  specialize (Hmv Hn' Hok3 ltac:(split; lia) ltac:(split; unfold body_len in *; lia)).
  match type of Hmv with ?G → _ => assert G as Hg end.
  { cbn [headersize zlen_ entry_of]. rewrite <-pe_len_eq, off_snoc. destruct Hn' as (_ & _ & Hl). pose proof (pe_len_pos n').
    rewrite wrap_small by (split; lia). rewrite off_app, !body_len_cons. change (body_len []) with 0. lia. }
  specialize (Hmv Hg). do 4 peel Hmv. rewrite Hmv, bind_Some_eq, layout_BYTES, bind_Some_eq by (split; lia).
  assert (off ps + 1 - off (ps1 ++ [h]) - 1 = body_len (n' :: ps3)) as ->; [|done].
  rewrite <-Hoff. rewrite off_snoc, off_app, body_len_cons. lia.
Qed.

(** Deleting the entries [dl]. *)
Lemma delete_run c ps1 d0 ds ps2 num :
  let dl := d0 :: ds in
  let ps := ps1 ++ dl ++ ps2 in
  wf ps → in_u 16 c → room ps 0 → (num = zlen dl ∨ zlen dl ≤ num ∧ ps2 = []) →
  let qs := delete_entries ps1 ps2 in
  __ziplistDelete (layout (off ps + 1) (tail_off ps) c ps) (off ps1) num =
    Some (layout (off qs + 1) (tail_off qs) (incr_count c (- zlen dl)) qs).
Proof.
  intros dl ps Hwf Hc Hroom Hnum qs. unfold room in Hroom. unfold ps, dl. rewrite delete_start by done. fold dl ps.
  assert (off ps = off ps1 + body_len dl + body_len ps2) as Hoff by (unfold ps; by rewrite !off_app, body_len_app, Z.add_assoc).
  assert (zlen ps = zlen ps1 + zlen dl + zlen ps2) as Hzps by (unfold ps; rewrite !length_app; lia).
  assert (0 ≤ body_len dl ∧ 0 ≤ body_len ps2) as [Hbd Hb2] by (unfold body_len; lia).
  pose proof (off_pos ps1) as Hp1. unfold ZIPLIST_HEADER_SIZE in Hp1. destruct (wf_split _ _ Hwf) as (Hok1 & Hok2 & _ & Hch2 & Hlast).
  destruct ps2 as [|n ps3].
  - assert (ps = ps1 ++ dl) as Hps by (unfold ps; by rewrite app_nil_r). assert (body_len [] = 0) as Hb0 by done.
    unfold delete_move. rewrite Hps, layout_end, bind_Some_eq. change (ZIP_END =? ZIP_END) with true. cbn [negb]. cbv iota. rewrite <-Hps.
    rewrite layout_set_TAIL, !bind_Some_eq, layout_BYTES, bind_Some_eq, <-tail_off_last by (split; lia).
    replace (u32 (off ps + 1 - body_len dl + 0)) with (off ps1 + 1) by (rewrite wrap_small; [lia|split; lia]).
    unfold layout at 1. rewrite Hps at 2. rewrite pes_bytes_app, <-app_assoc.
    destruct (resize_keep (off ps + 1) (tail_off ps1) c (pes_bytes ps1) (pes_bytes dl ++ [ZIP_END]) (off ps1 + 1)) as (g & -> & Hg).
    { unfold off, body_len, ZIPLIST_HEADER_SIZE in *. lia. }
    assert (g = []) as -> by (destruct g; [done|unfold off, body_len in Hg; cbn [length] in Hg; lia]).
    rewrite bind_Some_eq. change (header (off ps1 + 1) (tail_off ps1) c ++ pes_bytes ps1 ++ [] ++ [ZIP_END]) with (layout (off ps1 + 1) (tail_off ps1) c ps1).
    rewrite layout_INCR, bind_Some_eq by done. unfold qs, delete_entries. cbn [relink]. by rewrite app_nil_r.
  - set (m := last_len ps1) in *. set (d := prev_size (wide m) - prev_size (large n)). set (n' := PEntry (wide m) m (itm n)).
    pose proof (chain_tail_app m dl (n :: ps3) ltac:(done) Hch2) as Hct. cbn [chain_tail] in Hct.
    apply Forall_app in Hok2 as [_ [Hn Hok3]%Forall_cons]. rewrite body_len_cons in Hoff. cbn [length] in Hzps.
    assert (0 ≤ body_len ps3) as Hb3 by (unfold body_len; lia). pose proof (pe_len_pos n) as Hnp. pose proof (pe_len_pos d0) as Hdp.
    assert (pe_len n' = pe_len n + d) as Hn'len.
    { unfold n', d. destruct n as [l k it]. cbn [itm large]. rewrite (pe_len_set l (wide m) k m it). lia. }
    assert (d ≤ 4) as Hd4 by (unfold d; destruct (prev_size_pos (wide m)), (prev_size_pos (large n)); lia).
    assert (pe_ok n') as Hn' by (destruct Hn as (Hit & _ & _); split; [done|split; [by apply (wide_range m)|lia]]).
    destruct (delete_move_middle c ps1 d0 ds n ps3 Hwf Hn') as (h & Hmv). fold m dl d n' ps in Hmv. rewrite Hmv.
    assert (off (ps1 ++ n' :: ps3) = off ps - body_len dl + d) as Hoff' by (rewrite off_app, body_len_cons; lia).
    destruct (delete_close (off ps + 1) (tail_off (ps1 ++ n' :: ps3)) c ps1 h (n' :: ps3) (body_len dl) d) as (zl & -> & Hby & Hres);
      [split; lia|lia|lia|].
    rewrite !bind_Some_eq, Hby, bind_Some_eq, Hres, bind_Some_eq, layout_INCR, bind_Some_eq by done.
    fold (incr_count c (- zlen dl)). unfold qs, delete_entries. fold m. cbn [relink]. fold n'. cbv zeta.
    destruct (Z.eqb_spec d 0) as [Hd|Hd]; cbn [negb].
    + rewrite chain_id; [done|by rewrite Hn'len, Hd, Z.add_0_r].
    + rewrite cascade_run; [done|by constructor|]. lia.
Qed.

(** ** The operations keep the representation *)

Lemma insert_wf ps1 ps2 it :
  wf (ps1 ++ ps2) → item_ok it → pe_len (PEntry (wide (last_len ps1)) (last_len ps1) it) < 2 ^ 32 →
  room (ps1 ++ ps2) (pe_len (PEntry (wide (last_len ps1)) (last_len ps1) it)) → wf (insert_entries ps1 it ps2).
Proof.
  intros Hwf Hit Hl Hroom. destruct (wf_split _ _ Hwf) as (Hok1 & Hok2 & Hch1 & Hch2 & Hlast). unfold insert_entries.
  set (m := last_len ps1) in *. set (e := PEntry (wide m) m it) in *. cbv zeta. pose proof (pe_len_pos e) as Hp.
  unfold room in Hroom. rewrite off_app, length_app in Hroom. pose proof (relink_length (pe_len e) ps2) as Hr.
  pose proof (off_pos ps1) as Hp1. unfold ZIPLIST_HEADER_SIZE in Hp1.
  assert (pe_ok e) as He by (split; [done|split; [by apply (wide_range m)|done]]). split; [|split; [|split]].
  - apply Forall_app. split; [done|]. constructor; [done|]. apply relink_ok; [lia|lia|done].
  - apply chain_app. split; [done|]. split; [done|]. eapply relink_chain, chain_tail_of, Hch2.
  - destruct Hwf as (_ & _ & Hh & _). by destruct ps1.
  - rewrite off_app, body_len_cons. lia.
Qed.

Lemma delete_wf ps1 ds ps2 : wf (ps1 ++ ds ++ ps2) → ds ≠ [] → room (ps1 ++ ds ++ ps2) 0 → wf (delete_entries ps1 ps2).
Proof.
  intros Hwf Hds Hroom. destruct (wf_split _ _ Hwf) as (Hok1 & Hok2 & Hch1 & Hch2 & Hlast). unfold delete_entries.
  apply Forall_app in Hok2 as [_ Hok2]. apply chain_tail_app in Hch2; [|done].
  unfold room in Hroom. rewrite !off_app, !length_app, body_len_app in Hroom. pose proof (relink_length (last_len ps1) ps2) as Hr.
  pose proof (off_pos ps1) as Hp1. unfold ZIPLIST_HEADER_SIZE in Hp1. assert (0 ≤ body_len ds) by (unfold body_len; lia).
  split; [|split; [|split]].
  - apply Forall_app. split; [done|]. apply relink_ok; [lia|lia|done].
  - apply chain_app. split; [done|]. by apply relink_chain.
  - destruct Hwf as (_ & _ & Hh & _). destruct ps1 as [|e ps1]; [|done]. by destruct ps2.
  - rewrite off_app. lia.
Qed.

Lemma incr_count_ok c ps qs k :
  count_ok c ps → zlen qs = zlen ps + k → k ≤ 1 → count_ok (incr_count c k) qs.
Proof.
  unfold count_ok, incr_count, in_u, UINT16_MAX. intros [Hc Heq] Hlen Hk. destruct (Z.ltb_spec c 65535); [|split; lia].
  specialize (Heq ltac:(lia)). split; lia.
Qed.

Lemma cascade_count rawlen ps : length (cascade rawlen ps) = length ps.
Proof. pose proof (f_equal length (cascade_items rawlen ps)) as Hl. unfold items in Hl. by rewrite !length_fmap in Hl. Qed.

Lemma relink_count len ps : length (relink len ps) = length ps.
Proof. destruct ps as [|n ps]; [done|]. cbn. by rewrite cascade_count. Qed.

Lemma zl_insert_rep zl ps1 ps2 s :
  zl_rep zl (ps1 ++ ps2) → room (ps1 ++ ps2) (zlen s + 14) → fits ps1 (item_of s) ps2 →
  ∃ zl', __ziplistInsert zl (off ps1) s (zlen s) = Some zl' ∧ zl_rep zl' (insert_entries ps1 (item_of s) ps2).
Proof.
  intros (c & -> & Hc & Hwf) Hroom Hfit. rewrite zl_insert_run by (done || apply Hc). eexists. split; [done|].
  eexists. split; [done|]. split.
  - eapply incr_count_ok; [done| |done]. unfold insert_entries. rewrite !length_app. cbn [length]. rewrite relink_count. lia.
  - unfold room in Hroom. pose proof (off_pos (ps1 ++ ps2)) as Hp. unfold ZIPLIST_HEADER_SIZE in Hp.
    pose proof (item_of_length s ltac:(lia)) as Hil. apply insert_wf; [done|apply item_of_ok; lia|..];
    unfold room; rewrite ?pe_len_eq; cbn [large itm]; destruct (prev_size_pos (wide (last_len ps1))); lia.
Qed.

Lemma delete_rep zl ps1 ds ps2 num :
  zl_rep zl (ps1 ++ ds ++ ps2) → ds ≠ [] → room (ps1 ++ ds ++ ps2) 0 → (num = zlen ds ∨ zlen ds ≤ num ∧ ps2 = []) →
  ∃ zl', __ziplistDelete zl (off ps1) num = Some zl' ∧ zl_rep zl' (delete_entries ps1 ps2).
Proof.
  intros (c & -> & Hc & Hwf) Hds Hroom Hnum. destruct ds as [|d ds]; [done|]. rewrite (delete_run c ps1 d ds ps2) by (done || apply Hc).
  eexists. split; [done|]. eexists. split; [done|]. split; [|by eapply delete_wf].
  eapply incr_count_ok; [done| |lia]. unfold delete_entries. rewrite !length_app, relink_count. lia.
Qed.

(** Deleting no entry. *)
Lemma delete_none zl ps1 e ps2 : zl_rep zl (ps1 ++ e :: ps2) → __ziplistDelete zl (off ps1) 0 = Some zl.
Proof.
  intros (c & -> & _ & Hwf). destruct (wf_split _ _ Hwf) as (_ & Hok & _). unfold __ziplistDelete. pose proof Hok as [He _]%Forall_cons.
  rewrite layout_zipEntry, bind_Some_eq by done.
  destruct (layout_first (off (ps1 ++ e :: ps2) + 1) (tail_off (ps1 ++ e :: ps2)) c ps1 e ps2 He) as (b & Hb & Hbe).
  pose proof (layout_fuel (off (ps1 ++ e :: ps2) + 1) (tail_off (ps1 ++ e :: ps2)) c (ps1 ++ e :: ps2)) as Hf.
  destruct (length (layout _ _ _ _)) as [|fuel]; [lia|]. rewrite loop_S. unfold zl_skip_body. rewrite Hb, bind_Some_eq, Hbe.
  cbn [negb andb]. change (0 <? 0) with false. cbv iota. rewrite bind_Some_eq, Z.sub_diag. done.
Qed.
End update.
