(* ===== verification/ZiplistQuery.v ===== *)
(** * Walking through and reading a ziplist *)

From S2P Require Import Prelude Endian Util Object Ziplist ZiplistSpec ZiplistOps ZiplistUpdate.

#[local] Open Scope Z_scope.

Definition texts (ps : list pentry) : list bytes := item_text <$> items ps.

Lemma texts_app ps qs : texts (ps ++ qs) = texts ps ++ texts qs.
Proof. unfold texts, items. by rewrite !fmap_app. Qed.

Lemma texts_length ps : length (texts ps) = length ps.
Proof. unfold texts, items. by rewrite !length_fmap. Qed.

Lemma texts_cons e ps : texts (e :: ps) = item_text (itm e) :: texts ps.
Proof. done. Qed.

(** What [ziplistGet] gives out for an item. *)
Definition item_value (it : item) : bytes + Z :=
  match it with Str s => inl s | Num _ v => inr v | Hole _ _ => inl [] end.

Section query.
Context {host : Host} {alloc : Allocator}.

Lemma new_rep : ∃ zl, ziplistNew = Some zl ∧ zl_rep zl [].
Proof.
  unfold ziplistNew. cbv zeta. set (b := zmalloc _).
  assert (length b = 11%nat) as Hb by (unfold b, zmalloc; by rewrite length_fresh).
  destruct (split_at b 4) as (b1 & b' & -> & H1); [lia|]. rewrite length_app in Hb.
  destruct (split_at b' 4) as (b2 & b'' & -> & H2); [lia|]. rewrite length_app in Hb.
  destruct (split_at b'' 2) as (b3 & b4 & -> & H3); [lia|]. rewrite length_app in Hb. destruct b4 as [|x [|? ?]]; [simpl in Hb; lia| |simpl in Hb; lia].
  unfold set_BYTES. rewrite (set_u32_run [] b1 (b2 ++ b3 ++ [x]) 0) by done. rewrite bind_Some_eq. cbn [app].
  unfold set_TAIL_OFFSET. rewrite (set_u32_run (le_enc 4 11) b2 (b3 ++ [x])) by (rewrite ?length_le_enc; done). rewrite bind_Some_eq.
  rewrite (app_assoc (le_enc 4 _)).
  rewrite (wr_app (le_enc 4 11 ++ le_enc 4 10) b3 [x]) by (rewrite ?length_app, ?length_le_enc; unfold host_enc; destruct big_endian;
    rewrite ?length_reverse, ?length_le_enc; done).
  rewrite bind_Some_eq. assert (host_enc 2 0 = le_enc 2 0) as -> by (unfold host_enc; by destruct big_endian).
  rewrite app_assoc, (wr1_app _ x ZIP_END []) by (rewrite !length_app, !length_le_enc; done).
  eexists. split; [done|]. exists 0. split; [|split].
  - unfold layout, header. by rewrite <-!app_assoc.
  - split; [split; lia|done].
  - split; [done|]. split; [done|]. split; [done|]. unfold off, ZIPLIST_HEADER_SIZE, body_len. simpl. lia.
Qed.

(** ** Positions *)

Lemma forw_run tot tail c ps1 ps2 k fuel :
  Forall pe_ok ps2 → 0 ≤ k → (length ps2 < fuel)%nat →
  loop fuel (index_forw_body (layout tot tail c (ps1 ++ ps2))) (off ps1, k) =
    Some (if k <? zlen ps2 then (off (ps1 ++ take (Z.to_nat k) ps2), -1) else (off (ps1 ++ ps2), k - zlen ps2)).
Proof.
  revert ps1 k fuel. induction ps2 as [|e ps2 IH]; intros ps1 k fuel Hok Hk Hf; (destruct fuel as [|fuel]; [lia|]); rewrite loop_S; unfold index_forw_body at 1.
  - rewrite app_nil_r, layout_end, bind_Some_eq. change (ZIP_END =? ZIP_END) with true. cbn [negb length].
    destruct (Z.ltb_spec k (Z.of_nat 0)); [lia|]. by rewrite Z.sub_0_r.
  - apply Forall_cons in Hok as [He Hok]. cbn [length] in *.
    destruct (layout_first tot tail c ps1 e ps2 He) as (b & -> & Hbe). rewrite bind_Some_eq, Hbe. cbn [negb].
    destruct (Z.eqb_spec k 0) as [->|Hne].
    + destruct (Z.ltb_spec 0 (Z.of_nat (S (length ps2)))); [|lia]. by rewrite app_nil_r.
    + rewrite layout_raw_length, bind_Some_eq, <-off_snoc by done. specialize (IH (ps1 ++ [e]) (k - 1) fuel Hok ltac:(lia) ltac:(lia)).
      rewrite <-!app_assoc in IH. cbn [app] in IH. rewrite IH. replace (Z.to_nat k) with (S (Z.to_nat (k - 1))) by lia. cbn [take].
      destruct (Z.ltb_spec (k - 1) (zlen ps2)), (Z.ltb_spec k (Z.of_nat (S (length ps2)))); try lia; [done|]. do 2 f_equal. lia.
Qed.

Lemma layout_prevlen tot tail c ps1 e ps2 :
  pe_ok e → ZIP_DECODE_PREVLEN (layout tot tail c (ps1 ++ e :: ps2)) (off ps1) = Some (prev_size (large e), prevl e).
Proof. intros He. rewrite layout_entry. apply pe_decode; [done|apply off_zlen]. Qed.

Lemma last_len_pos ps : Forall pe_ok ps → (last_len ps >? 0) = bool_decide (ps ≠ []).
Proof.
  destruct ps as [|e ps _] using rev_ind; [done|]. intros _. rewrite last_len_snoc. pose proof (pe_len_pos e).
  rewrite bool_decide_true by by destruct ps. rewrite Z.gtb_ltb, (proj2 (Z.ltb_lt 0 (pe_len e))) by lia. done.
Qed.

Lemma back_run tot tail c ps1 e ps2 k fuel :
  Forall pe_ok (ps1 ++ e :: ps2) → chain 0 (ps1 ++ e :: ps2) → 0 ≤ k → (length ps1 < fuel)%nat →
  loop fuel (index_back_body (layout tot tail c (ps1 ++ e :: ps2))) (off ps1, prevl e, k) =
    Some (if k <? zlen ps1 then (off (take (length ps1 - Z.to_nat k) ps1), -1) else (off [], k - zlen ps1)).
Proof.
  revert e ps2 k fuel. induction ps1 as [|d ps1 IH] using rev_ind; intros e ps2 k fuel Hok Hch Hk Hf; (destruct fuel as [|fuel]; [lia|]);
    rewrite loop_S; unfold index_back_body at 1; rewrite (last_len_chain _ _ _ Hch), last_len_pos by by apply Forall_app in Hok as [? _].
  - rewrite bool_decide_false by tauto. cbn [length]. destruct (Z.ltb_spec k (Z.of_nat 0)); [lia|]. by rewrite Z.sub_0_r.
  - rewrite bool_decide_true by by destruct ps1. rewrite length_app in *. cbn [length] in *.
    destruct (Z.eqb_spec k 0) as [->|Hne].
    + destruct (Z.ltb_spec 0 (Z.of_nat (length ps1 + 1))); [|lia]. rewrite take_ge by (rewrite length_app; simpl; lia). done.
    + rewrite last_len_snoc, off_snoc, Z.add_simpl_r. rewrite <-!app_assoc in Hok, Hch |- *. cbn [app] in *.
      rewrite layout_prevlen by (apply Forall_app in Hok as [_ [? _]%Forall_cons]; done). rewrite bind_Some_eq.
      rewrite (IH d (e :: ps2) (k - 1) fuel Hok Hch) by lia.
      destruct (Z.ltb_spec (k - 1) (zlen ps1)), (Z.ltb_spec k (Z.of_nat (length ps1 + 1))); try lia.
      * rewrite take_app_le by lia. do 4 f_equal. lia.
      * do 2 f_equal. lia.
Qed.

(** The entry an index stands for, from the front or, negative, from the back. *)
Definition position (n : nat) (index : Z) : option nat :=
  let i := if index <? 0 then Z.of_nat n + index else index in
  if (0 <=? i) && (i <? Z.of_nat n) then Some (Z.to_nat i) else None.

Lemma Index_run zl ps index :
  zl_rep zl ps → ziplistIndex zl index = Some ((λ i, off (take i ps)) <$> position (length ps) index).
Proof.
  intros (c & -> & _ & Hok & Hch & _ & Hlt). unfold ziplistIndex, position.
  pose proof (layout_fuel (off ps + 1) (tail_off ps) c ps) as Hf. destruct (Z.ltb_spec index 0) as [Hneg|Hpos]; cycle 1.
  - rewrite (forw_run _ _ c [] ps index) by (done || lia). rewrite bind_Some_eq. cbn [app]. rewrite (proj2 (Z.leb_le 0 index)) by lia. cbn [andb].
    destruct (Z.ltb_spec index (zlen ps)) as [Hin|Hout].
    + destruct (layout_at_end (off ps + 1) (tail_off ps) c (take (Z.to_nat index) ps) (drop (Z.to_nat index) ps)) as (b & Hb & Hbe); [by apply Forall_drop|].
      rewrite take_drop in Hb. rewrite Hb, bind_Some_eq, Hbe, bool_decide_false; [done|].
      intros Hd%(f_equal length). rewrite length_drop in Hd. simpl in Hd. lia.
    + by rewrite layout_end.
  - unfold ZIPLIST_ENTRY_TAIL. pose proof (tail_off_range ps) as Hr. unfold ZIPLIST_HEADER_SIZE in Hr.
    rewrite layout_TAIL, bind_Some_eq by (split; lia). destruct ps as [|e ps _] using rev_ind.
    + change (tail_off []) with (off []). rewrite layout_end. cbn [length]. rewrite !bind_Some_eq. change (ZIP_END =? ZIP_END) with true.
      cbn [negb]. rewrite bind_Some_eq, layout_end, bind_Some_eq. change (ZIP_END =? ZIP_END) with true. cbn [orb].
      destruct (Z.leb_spec 0 (Z.of_nat 0 + index)); [lia|done].
    + rewrite tail_off_snoc in *. pose proof Hok as [Hok1 [He _]%Forall_cons]%Forall_app. rewrite length_app in *. cbn [length] in *.
      destruct (layout_first (off (ps ++ [e]) + 1) (off ps) c ps e [] He) as (b & -> & Hbe). rewrite bind_Some_eq, Hbe. cbn [negb].
      rewrite layout_prevlen, bind_Some_eq, back_run, bind_Some_eq by (done || lia).
      destruct (Z.ltb_spec (- index - 1) (zlen ps)) as [Hin|Hout].
      * set (i := (length ps - Z.to_nat (- index - 1))%nat).
        destruct (layout_at_end (off (ps ++ [e]) + 1) (off ps) c (take i ps) (drop i ps ++ [e])) as (b2 & Hb & Hbe2);
          [apply Forall_app; split; [by apply Forall_drop|by constructor]|].
        rewrite app_assoc, take_drop in Hb. rewrite Hb, bind_Some_eq, Hbe2, bool_decide_false by by destruct (drop i ps).
        destruct ((0 <=? _) && _) eqn:E; [|lia]. cbn. do 3 f_equal. replace (Z.to_nat (Z.of_nat (length ps + 1) + index)) with i by lia.
        by rewrite take_app_le by lia.
      * destruct (layout_at_end (off (ps ++ [e]) + 1) (off ps) c [] (ps ++ [e]) Hok) as (b2 & Hb & Hbe2). cbn [app] in Hb.
        rewrite Hb, bind_Some_eq, Hbe2, bool_decide_false by by destruct ps. cbn [orb].
        destruct (Z.gtb_spec (- index - 1 - zlen ps) 0); destruct ((0 <=? _) && _) eqn:E; try lia; [done|]. cbn. do 3 f_equal.
        by replace (Z.to_nat (Z.of_nat (length ps + 1) + index)) with 0%nat by lia.
Qed.

Lemma layout_snoc tot tail c ps1 e ps2 : layout tot tail c (ps1 ++ e :: ps2) = layout tot tail c ((ps1 ++ [e]) ++ ps2).
Proof. by rewrite <-app_assoc. Qed.

Lemma Next_run zl ps1 e ps2 :
  zl_rep zl (ps1 ++ e :: ps2) → ziplistNext zl (off ps1) = Some (if decide (ps2 = []) then None else Some (off (ps1 ++ [e]))).
Proof.
  intros (c & -> & _ & Hok & _). apply Forall_app in Hok as [_ [He Hok]%Forall_cons]. set (tot := off _ + 1). set (tl := tail_off _).
  unfold ziplistNext. destruct (layout_first tot tl c ps1 e ps2 He) as (b & -> & Hbe). rewrite bind_Some_eq, Hbe, layout_raw_length, bind_Some_eq by done.
  cbv zeta. rewrite <-off_snoc, layout_snoc. destruct (layout_at_end tot tl c (ps1 ++ [e]) ps2 Hok) as (b2 & -> & Hbe2).
  rewrite bind_Some_eq, Hbe2. by case_bool_decide; case_decide.
Qed.

Lemma Next_end_run zl ps : zl_rep zl ps → ziplistNext zl (off ps) = Some None.
Proof. intros (c & -> & _). unfold ziplistNext. by rewrite layout_end. Qed.

Lemma Prev_run zl ps1 ps2 :
  zl_rep zl (ps1 ++ ps2) → ziplistPrev zl (off ps1) = Some (if decide (ps1 = []) then None else Some (off (removelast ps1))).
Proof.
  intros (c & -> & _ & Hwf). destruct (wf_split _ _ Hwf) as (Hok1 & Hok2 & _ & Hch2 & Hlast). destruct Hwf as (_ & _ & _ & Hlt).
  set (tot := off _ + 1). set (tl := tail_off _). unfold ziplistPrev.
  destruct (layout_at_end tot tl c ps1 ps2 Hok2) as (b & -> & Hbe). rewrite bind_Some_eq, Hbe. destruct ps2 as [|e ps2].
  - rewrite bool_decide_true by done. unfold ZIPLIST_ENTRY_TAIL. pose proof (tail_off_range (ps1 ++ [])) as Hr. unfold ZIPLIST_HEADER_SIZE in Hr.
    rewrite layout_TAIL by (split; unfold tl; lia). rewrite bind_Some_eq, app_nil_r. unfold tl. rewrite app_nil_r.
    destruct ps1 as [|d ps1 _] using rev_ind.
    + change (tail_off []) with (off []). by rewrite layout_end.
    + rewrite tail_off_snoc, removelast_last. apply Forall_app in Hok1 as [_ [Hd _]%Forall_cons].
      destruct (layout_first tot (off ps1) c ps1 d [] Hd) as (b2 & -> & Hb2). rewrite bind_Some_eq, Hb2.
      rewrite decide_False by by destruct ps1. done.
  - rewrite bool_decide_false by done. unfold ZIPLIST_ENTRY_HEAD. apply Forall_cons in Hok2 as [He _]. destruct Hch2 as [Hprev _].
    destruct ps1 as [|d ps1 _] using rev_ind; [done|]. rewrite off_snoc, removelast_last. pose proof (pe_len_pos d) as Hdp.
    pose proof (off_pos ps1). rewrite (proj2 (Z.eqb_neq _ _)) by (unfold ZIPLIST_HEADER_SIZE in *; lia).
    rewrite <-off_snoc, layout_prevlen, bind_Some_eq, Hprev, last_len_snoc by done.
    destruct (pe_len d >? 0) eqn:E; [|lia]. rewrite decide_False by by destruct ps1. cbn. rewrite off_snoc. do 3 f_equal. lia.
Qed.

(** ** Values *)

Lemma read_value tot tail c ps1 e ps2 :
  pe_ok e →
  let zl := layout tot tail c (ps1 ++ e :: ps2) in
  let q := off ps1 + prev_size (large e) + zlen (item_head (itm e)) in
  match itm e with
  | Str s => rd zl q (zlen s) = Some s
  | Num enc v => zipLoadInteger zl q enc = Some v
  | Hole _ _ => False
  end.
Proof.
  intros (Hit & _ & _) zl q. pose proof (off_zlen tot tail c ps1) as Ho. destruct (itm e) as [s|enc v|] eqn:E; [| |done].
  - pose proof (item_data_rd (header tot tail c ++ pes_bytes ps1) e (pes_bytes ps2 ++ [ZIP_END]) q) as Hrd. rewrite E in Hrd.
    rewrite <-layout_entry in Hrd. apply Hrd. unfold q. lia.
  - unfold zl. rewrite layout_entry, pe_bytes_app, E. cbn [item_data].
    rewrite (app_assoc _ (prev_bytes _ _)), (app_assoc _ (item_head _)).
    apply zipLoadInteger_run; [done|]. rewrite !length_app. pose proof (length_prev_bytes (large e) (prevl e)). unfold q. rewrite Ho, length_app.
    lia.
Qed.

Lemma Get_run zl ps1 e ps2 : zl_rep zl (ps1 ++ e :: ps2) → ziplistGet zl (Some (off ps1)) = Some (Some (item_value (itm e))).
Proof.
  intros (c & -> & _ & Hok & _). apply Forall_app in Hok as [_ [He _]%Forall_cons]. set (tot := off _ + 1). set (tl := tail_off _).
  unfold ziplistGet. destruct (layout_first tot tl c ps1 e ps2 He) as (b & -> & Hbe). rewrite bind_Some_eq, Hbe, layout_zipEntry, bind_Some_eq by done.
  cbn [encoding headersize zlen_ entry_of]. rewrite IS_STR_item by apply He. pose proof (read_value tot tl c ps1 e ps2 He) as Hv. cbv zeta in Hv.
  rewrite Z.add_assoc. destruct (itm e) as [s|enc v|]; [| |done]; cbn [item_data item_enc item_value]; by rewrite Hv.
Qed.

Lemma Get_end_run zl ps : zl_rep zl ps → ziplistGet zl (Some (off ps)) = Some None.
Proof. intros (c & -> & _). unfold ziplistGet. by rewrite layout_end. Qed.

(** Comparing with a text goes through its encoding when the entry is an integer. *)
Lemma num_text enc v s :
  num_ok enc v →
  ∃ r, zipTryEncoding s (zlen s) = Some r ∧
    bool_decide (dec_signed v = s) = match r with Some (w, _) => v =? w | None => false end.
Proof.
  intros Hok. assert (in_s 64 v) as Hv.
  { unfold num_ok, in_s, ZIP_INT_IMM_MIN, ZIP_INT_IMM_MAX in *. simpl in *. lia. }
  destruct (zipTryEncoding_spec s) as (r & Hr & Hspec). exists r. split; [done|]. destruct r as [[w enc']|].
  - destruct Hspec as [_ ->]. destruct (Z.eqb_spec v w) as [->|Hne]; [by apply bool_decide_true|]. apply bool_decide_false.
    by intros ?%dec_signed_inj.
  - apply bool_decide_false. intros Heq. by apply (Hspec v).
Qed.

Lemma rd_text (s : bytes) : rd s 0 (zlen s) = Some s.
Proof. pose proof (rd_prefix s [] (zlen s) eq_refl) as Hrd. by rewrite app_nil_r in Hrd. Qed.

(** Strings are compared when their lengths are equal. *)
Lemma string_text (t s : bytes) zl q :
  rd zl q (zlen t) = Some t →
  (if zlen t =? zlen s then a ← rd zl q (zlen s); b ← rd s 0 (zlen s); Some (bool_decide (a = b)) else Some false) = Some (bool_decide (t = s)).
Proof.
  intros Hrd. destruct (Z.eqb_spec (zlen t) (zlen s)) as [Heq|Hne].
  - by rewrite <-Heq, Hrd, bind_Some_eq, Heq, rd_text.
  - rewrite bool_decide_false; [done|]. by intros ->.
Qed.

Lemma Compare_run zl ps1 e ps2 s :
  zl_rep zl (ps1 ++ e :: ps2) → ziplistCompare zl (off ps1) s (zlen s) = Some (bool_decide (item_text (itm e) = s)).
Proof.
  intros (c & -> & _ & Hok & _). apply Forall_app in Hok as [_ [He _]%Forall_cons]. set (tot := off _ + 1). set (tl := tail_off _).
  unfold ziplistCompare. destruct (layout_first tot tl c ps1 e ps2 He) as (b & -> & Hbe). rewrite bind_Some_eq, Hbe, layout_zipEntry, bind_Some_eq by done.
  cbn [encoding headersize zlen_ entry_of]. rewrite IS_STR_item by apply He. pose proof (read_value tot tl c ps1 e ps2 He) as Hv. cbv zeta in Hv.
  rewrite Z.add_assoc. destruct He as (Hit & _ & _). destruct (itm e) as [t|enc v|]; [| |done]; cbn [item_data item_enc item_text].
  - by apply string_text.
  - destruct (num_text enc v s Hit) as (r & -> & ->). rewrite bind_Some_eq. destruct r as [[w enc']|]; [|done]. by rewrite Hv.
Qed.

(** ** Searching *)

(** The first entry equal to [v], [cnt] entries being passed over before and [skip] between tests. *)
Fixpoint find_at (v : bytes) (skip : nat) (ts : list bytes) (cnt : nat) : option nat :=
  match ts with
  | [] => None
  | t :: ts =>
    match cnt with
    | O => if bool_decide (t = v) then Some 0%nat else S <$> find_at v skip ts skip
    | S cnt => S <$> find_at v skip ts cnt
    end
  end.

(** What is known of the encoding kept between the rounds. *)
Definition find_state (v : bytes) (ve vll : Z) : Prop :=
  ve = 0 ∨ ∃ r, zipTryEncoding v (zlen v) = Some r ∧ match r with Some (x, enc) => ve = enc ∧ vll = x | None => ve = UCHAR_MAX end.

Lemma find_encode v ve vll :
  find_state v ve vll →
  ∃ ve' vll' r, (if ve =? 0 then
      e ← zipTryEncoding v (zlen v); Some (match e with Some (x, enc) => (enc, x) | None => (UCHAR_MAX, vll) end)
    else Some (ve, vll)) = Some (ve', vll') ∧ find_state v ve' vll' ∧ negb (ve' =? 0) = true ∧
    zipTryEncoding v (zlen v) = Some r ∧
    match r with Some (x, _) => ve' ≠ UCHAR_MAX ∧ vll' = x | None => ve' = UCHAR_MAX end.
Proof.
  destruct (zipTryEncoding_spec v) as (r & Hr & Hspec).
  intros [->|(r' & Hr' & Hst)].
  - rewrite Hr. rewrite Z.eqb_refl, bind_Some_eq. destruct r as [[x enc]|].
    + destruct Hspec as [Hx%num_ok_enc _]. exists enc, x, (Some (x, enc)). split; [done|]. split; [right; eexists; split; [exact Hr|done]|].
      unfold UCHAR_MAX. split; [|split; [done|split; [lia|done]]]. destruct (Z.eqb_spec enc 0); [lia|done].
    + exists UCHAR_MAX, vll, None. split; [done|]. split; [right; eexists; split; [exact Hr|done]|]. done.
  - rewrite Hr in Hr'. injection Hr' as <-. destruct r as [[x enc]|].
    + destruct Hst as [-> ->], Hspec as [Hx%num_ok_enc _]. destruct (Z.eqb_spec enc 0); [lia|].
      exists enc, x, (Some (x, enc)). split; [done|]. split; [right; eexists; split; [exact Hr|done]|]. unfold UCHAR_MAX.
      destruct (Z.eqb_spec enc 0); [lia|]. split; [done|split; [done|split; [lia|done]]].
    + subst ve. exists UCHAR_MAX, vll, None. split; [done|]. split; [right; eexists; split; [exact Hr|done]|]. done.
Qed.

Lemma find_loop tot tail c v skip ps1 ps2 cnt ve vll fuel :
  Forall pe_ok ps2 → 0 ≤ skip → 0 ≤ cnt → find_state v ve vll → (length ps2 < fuel)%nat →
  loop fuel (zl_find_body (layout tot tail c (ps1 ++ ps2)) v (zlen v) skip) (off ps1, cnt, ve, vll) =
    Some ((λ i, off (ps1 ++ take i ps2)) <$> find_at v (Z.to_nat skip) (texts ps2) (Z.to_nat cnt)).
Proof.
  intros Hok Hskip. revert ps1 cnt ve vll fuel Hok.
  induction ps2 as [|e ps2 IH]; intros ps1 cnt ve vll fuel Hok Hcnt Hst Hf; (destruct fuel as [|fuel]; [lia|]); rewrite loop_S; unfold zl_find_body at 1.
  - rewrite app_nil_r, layout_end, bind_Some_eq. done.
  - apply Forall_cons in Hok as [He Hok]. cbn [length] in Hf. rewrite texts_cons.
    assert (∀ cnt' ve' vll', 0 ≤ cnt' → find_state v ve' vll' →
      loop fuel (zl_find_body (layout tot tail c (ps1 ++ e :: ps2)) v (zlen v) skip) (off ps1 + pe_len e, cnt', ve', vll') =
      Some ((λ i, off (ps1 ++ take i (e :: ps2))) <$> (S <$> find_at v (Z.to_nat skip) (texts ps2) (Z.to_nat cnt')))) as Hnext.
    { intros cnt' ve' vll' Hc' Hst'. rewrite <-off_snoc, layout_snoc, (IH (ps1 ++ [e])) by (done || lia).
      destruct (find_at _ _ _ _) as [i|]; [|done]. cbn. by rewrite <-app_assoc. }
    destruct (layout_first tot tail c ps1 e ps2 He) as (b & -> & Hbe). rewrite bind_Some_eq, Hbe.
    destruct (pe_decode (header tot tail c ++ pes_bytes ps1) e (pes_bytes ps2 ++ [ZIP_END]) (off ps1) He) as (_ & H2 & H3); [apply off_zlen|].
    rewrite <-layout_entry in H2, H3. rewrite H2, bind_Some_eq, H3, bind_Some_eq. cbv zeta.
    assert (off ps1 + prev_size (large e) + zlen (item_head (itm e)) + zlen (item_data (itm e)) = off ps1 + pe_len e) as -> by (rewrite pe_len_eq; lia).
    destruct (Z.eqb_spec cnt 0) as [->|Hne]; cycle 1.
    { replace (Z.to_nat cnt) with (S (Z.to_nat (cnt - 1))) by lia. cbn [find_at]. apply Hnext; [lia|done]. }
    change (Z.to_nat 0) with 0%nat. cbn [find_at]. rewrite IS_STR_item by apply He.
    pose proof (read_value tot tail c ps1 e ps2 He) as Hv. cbv zeta in Hv. destruct He as (Hit & _ & _).
    destruct (itm e) as [t|enc x|] eqn:Ee; [| |done]; cbn [item_text].
    + cbn [item_data]. rewrite string_text, bind_Some_eq by done. case_bool_decide.
      * cbn. by rewrite app_nil_r.
      * by apply Hnext.
    + destruct (find_encode v ve vll Hst) as (ve' & vll' & r & -> & Hst' & Hz & Hr & Hcase). rewrite bind_Some_eq, Hz. cbn [item_enc].
      destruct (num_text enc x v Hit) as (r' & Hr' & ->). rewrite Hr in Hr'. injection Hr' as <-.
      destruct r as [[w enc']|].
      * destruct Hcase as [Hve ->]. destruct (Z.eqb_spec ve' UCHAR_MAX); [done|]. cbn [negb]. rewrite Hv, !bind_Some_eq.
        destruct (x =? w); [cbn; by rewrite app_nil_r|by apply Hnext].
      * subst ve'. rewrite Z.eqb_refl. cbn [negb]. rewrite bind_Some_eq. by apply Hnext.
Qed.

Lemma Find_run zl ps1 ps2 v skip :
  zl_rep zl (ps1 ++ ps2) → 0 ≤ skip →
  ziplistFind zl (off ps1) v (zlen v) skip =
    Some ((λ i, off (ps1 ++ take i ps2)) <$> find_at v (Z.to_nat skip) (texts ps2) 0).
Proof.
  intros (c & -> & _ & Hwf) Hskip. destruct (wf_split _ _ Hwf) as (_ & Hok & _). unfold ziplistFind.
  apply find_loop; [done|done|done|by left|].
  pose proof (layout_fuel (off (ps1 ++ ps2) + 1) (tail_off (ps1 ++ ps2)) c (ps1 ++ ps2)) as Hf. rewrite length_app in Hf at 1. lia.
Qed.

(** ** The length *)

Lemma count_run tot tail c ps1 ps2 k fuel :
  Forall pe_ok ps2 → (length ps2 < fuel)%nat →
  loop fuel (count_body (layout tot tail c (ps1 ++ ps2))) (off ps1, k) = Some (k + zlen ps2).
Proof.
  revert ps1 k fuel. induction ps2 as [|e ps2 IH]; intros ps1 k fuel Hok Hf; (destruct fuel as [|fuel]; [lia|]); rewrite loop_S; unfold count_body at 1.
  - rewrite app_nil_r, layout_end, bind_Some_eq. change (ZIP_END =? ZIP_END) with true. cbn [negb length]. by rewrite Z.add_0_r.
  - apply Forall_cons in Hok as [He Hok]. cbn [length] in *.
    destruct (layout_first tot tail c ps1 e ps2 He) as (b & -> & Hbe). rewrite bind_Some_eq, Hbe. cbn [negb].
    rewrite layout_raw_length, bind_Some_eq, <-off_snoc, layout_snoc, IH by (done || lia). f_equal. lia.
Qed.

Lemma Len_run zl ps : zl_rep zl ps → ∃ zl', ziplistLen zl = Some (zlen ps, zl') ∧ zl_rep zl' ps.
Proof.
  intros (c & -> & [Hc Heq] & Hwf). unfold ziplistLen.
  assert (ZIPLIST_LENGTH (layout (off ps + 1) (tail_off ps) c ps) = Some (host_dec (le_enc 2 c))) as -> by apply LENGTH_run.
  rewrite bind_Some_eq. change intrev16ifbe with (intrev_ifbe 2). rewrite (host_load 2) by (by try left). rewrite bind_Some_eq.
  destruct (Z.ltb_spec c UINT16_MAX) as [Hlt|Hge].
  - rewrite (Heq Hlt). eexists. split; [done|]. by exists c; rewrite <-(Heq Hlt).
  - change ZIPLIST_HEADER_SIZE with (off []). pose proof (layout_fuel (off ps + 1) (tail_off ps) c ps) as Hf.
    pose proof (count_run (off ps + 1) (tail_off ps) c [] ps 0 (length (layout (off ps + 1) (tail_off ps) c ps)) (proj1 Hwf) Hf) as Hrun.
    cbn [app] in Hrun. rewrite Hrun, bind_Some_eq, Z.add_0_l. destruct (Z.ltb_spec (zlen ps) UINT16_MAX) as [Hl|Hl].
    + assert (set_LENGTH (layout (off ps + 1) (tail_off ps) c ps) (zlen ps) = Some (layout (off ps + 1) (tail_off ps) (zlen ps) ps)) as ->
        by apply set_LENGTH_run.
      eexists. split; [done|]. exists (zlen ps). split; [done|]. split; [|done]. unfold count_ok, in_u, UINT16_MAX in *. split; [lia|done].
    + eexists. split; [done|]. by exists c.
Qed.

Lemma BlobLen_run zl ps : zl_rep zl ps → ziplistBlobLen zl = Some (zlen zl).
Proof.
  intros (c & -> & _ & _ & _ & _ & Hlt). pose proof (off_pos ps). unfold ZIPLIST_HEADER_SIZE in *.
  unfold ziplistBlobLen. rewrite length_layout. apply layout_BYTES. split; lia.
Qed.
End query.
