(* ===== verification/ZiplistRefine.v ===== *)
(** * Properties of ziplists *)

From S2P Require Import Prelude Endian Util Object Ziplist ZiplistSpec ZiplistOps ZiplistUpdate ZiplistQuery.

#[local] Open Scope Z_scope.

(** ** What a client can do *)

Inductive op :=
  | OPush (s : bytes) (head : bool)
  | OInsert (index : Z) (s : bytes)
  | ODelete (index : Z)
  | ODeleteRange (index num : Z)
  | OGet (index : Z)
  | OContains (s : bytes)
  | OLen.

Inductive reply :=
  | RNone
  | RText (t : option bytes)
  | RBool (b : bool)
  | RInt (n : Z).

(** The text in which a value of [ziplistGet] is sent to a client. *)
Definition value_text (v : bytes + Z) : bytes := match v with inl s => s | inr n => dec_signed n end.

Lemma value_text_item it : item_ok it → value_text (item_value it) = item_text it.
Proof. by destruct it. Qed.

Section code.
Context {host : Host} {alloc : Allocator}.

Definition exec (zl : bytes) (o : op) : option (bytes * reply) :=
  match o with
  | OPush s head => zl ← ziplistPush zl s (zlen s) (if head then ZIPLIST_HEAD else ZIPLIST_TAIL); Some (zl, RNone)
  | OInsert index s =>
    p ← ziplistIndex zl index;
    match p with None => Some (zl, RNone) | Some p => zl ← ziplistInsert zl p s (zlen s); Some (zl, RNone) end
  | ODelete index =>
    p ← ziplistIndex zl index;
    match p with None => Some (zl, RNone) | Some p => '(zl, _) ← ziplistDelete zl p; Some (zl, RNone) end
  | ODeleteRange index num => zl ← ziplistDeleteRange zl index num; Some (zl, RNone)
  | OGet index => p ← ziplistIndex zl index; v ← ziplistGet zl p; Some (zl, RText (value_text <$> v))
  | OContains s =>
    p ← ziplistIndex zl 0;
    match p with
    | None => Some (zl, RBool false)
    | Some p => p ← ziplistFind zl p s (zlen s) 0; Some (zl, RBool (bool_decide (is_Some p)))
    end
  | OLen => '(n, zl) ← ziplistLen zl; Some (zl, RInt n)
  end.

Fixpoint exec_all (zl : bytes) (os : list op) : option (bytes * list reply) :=
  match os with
  | [] => Some (zl, [])
  | o :: os => '(zl, r) ← exec zl o; '(zl, rs) ← exec_all zl os; Some (zl, r :: rs)
  end.
End code.

(** ** The specification: a list of texts *)

Definition apply (l : list bytes) (o : op) : list bytes * reply :=
  match o with
  | OPush s head => (if head then s :: l else l ++ [s], RNone)
  | OInsert index s => (if position (length l) index is Some i then take i l ++ s :: drop i l else l, RNone)
  | ODelete index => (if position (length l) index is Some i then take i l ++ drop (S i) l else l, RNone)
  | ODeleteRange index num =>
    (if position (length l) index is Some i then take i l ++ drop (i + Z.to_nat num) l else l, RNone)
  | OGet index => (l, RText (position (length l) index ≫= λ i, l !! i))
  | OContains s => (l, RBool (bool_decide (s ∈ l)))
  | OLen => (l, RInt (zlen l))
  end.

Fixpoint apply_all (l : list bytes) (os : list op) : list bytes * list reply :=
  match os with
  | [] => (l, [])
  | o :: os => let '(l, r) := apply l o in let '(l, rs) := apply_all l os in (l, r :: rs)
  end.

(** A bound for the bytes of a text in any ziplist, however its neighbours change. *)
Definition cost (l : list bytes) : Z := foldr (λ s n, 18 + zlen s + n) 0 l.

(** An inserted text needs two bytes, unless it is put in front of all others:
    see [ziplistInsert_short_loses_data]. *)
Definition op_ok (l : list bytes) (o : op) : Prop :=
  match o with
  | OPush s _ => 11 + cost l + 18 + zlen s < 2 ^ 32
  | OInsert index s =>
    11 + cost l + 18 + zlen s < 2 ^ 32 ∧ (position (length l) index = Some 0%nat ∨ 2 ≤ zlen (item_data (item_of s)))
  | ODeleteRange index num => 11 + cost l < 2 ^ 32 ∧ in_s 32 index ∧ 0 ≤ num
  | _ => 11 + cost l < 2 ^ 32
  end.

Fixpoint ops_ok (l : list bytes) (os : list op) : Prop :=
  match os with [] => True | o :: os => op_ok l o ∧ ops_ok (apply l o).1 os end.

(** ** Lemmas *)

Lemma cost_app l k : cost (l ++ k) = cost l + cost k.
Proof. induction l as [|s l IH]; [done|]. cbn [app cost foldr]. fold (cost l) (cost (l ++ k)). rewrite IH. lia. Qed.

Lemma pe_len_cost e : pe_ok e → pe_len e + 4 ≤ 18 + zlen (item_text (itm e)).
Proof.
  intros (Hit & _ & _). rewrite pe_len_eq. pose proof (item_head_length (itm e)). destruct (itm e) as [s|enc v|]; [| |done].
  - cbn [item_data item_text]. destruct (prev_size_pos (large e)); lia.
  - rewrite item_data_num. cbn [item_head length item_text] in *. unfold zipIntSize.
    destruct (prev_size_pos (large e)); repeat case_match; lia.
Qed.

Lemma room_cost ps k : Forall pe_ok ps → 11 + cost (texts ps) + k < 2 ^ 32 → room ps k.
Proof.
  intros Hok Hc. assert (body_len ps + 4 * zlen ps ≤ cost (texts ps)) as Hb.
  { clear Hc. induction Hok as [|e ps He Hok IH]; [done|]. rewrite texts_cons, body_len_cons. cbn [cost foldr length]. fold (cost (texts ps)).
    pose proof (pe_len_cost e He). lia. }
  unfold room, off, ZIPLIST_HEADER_SIZE. lia.
Qed.

Lemma insert_items ps1 it ps2 : items (insert_entries ps1 it ps2) = items ps1 ++ it :: items ps2.
Proof. unfold insert_entries, items. cbv zeta. rewrite fmap_app, fmap_cons. do 2 f_equal. apply relink_items. Qed.

Lemma delete_items ps1 ps2 : items (delete_entries ps1 ps2) = items ps1 ++ items ps2.
Proof. unfold delete_entries, items. rewrite fmap_app. f_equal. apply relink_items. Qed.

Lemma insert_texts ps1 s ps2 : texts (insert_entries ps1 (item_of s) ps2) = texts ps1 ++ s :: texts ps2.
Proof. unfold texts. by rewrite insert_items, fmap_app, fmap_cons, item_of_text. Qed.

Lemma delete_texts ps1 ps2 : texts (delete_entries ps1 ps2) = texts ps1 ++ texts ps2.
Proof. unfold texts. by rewrite delete_items, fmap_app. Qed.

Lemma texts_take i ps : texts (take i ps) = take i (texts ps).
Proof. unfold texts, items. by rewrite !fmap_take. Qed.

Lemma texts_drop i ps : texts (drop i ps) = drop i (texts ps).
Proof. unfold texts, items. by rewrite !fmap_drop. Qed.

Lemma position_range n index i : position n index = Some i → (i < n)%nat.
Proof. unfold position. destruct (index <? 0); destruct (_ && _) eqn:E; (intros [= <-] || done); lia. Qed.

Lemma split_entry (ps : list pentry) i : (i < length ps)%nat → ∃ e, ps = take i ps ++ e :: drop (S i) ps ∧ ps !! i = Some e.
Proof. intros Hi. destruct (lookup_lt_is_Some_2 ps i Hi) as [e He]. exists e. split; [by rewrite take_drop_middle|done]. Qed.

Lemma find_at_spec v ts : bool_decide (is_Some (find_at v 0 ts 0)) = bool_decide (v ∈ ts).
Proof.
  apply bool_decide_ext. induction ts as [|t ts IH]; [rewrite elem_of_nil; by split; [intros [? ?]|]|]. cbn [find_at].
  rewrite elem_of_cons, <-IH. case_bool_decide as E; [subst; split; [by left|by eexists]|]. rewrite fmap_is_Some. naive_solver.
Qed.

Section proofs.
Context {host : Host} {alloc : Allocator}.

Lemma fits_head it ps : wf ps → fits [] it ps.
Proof. intros (_ & _ & Hh & _). destruct ps as [|n ps]; [done|]. intros Hl. simpl in Hh. congruence. Qed.

Lemma fits_long ps1 it ps2 : 2 ≤ zlen (item_data it) → fits ps1 it ps2.
Proof.
  intros Hd. destruct ps2 as [|n ps2]; [done|]. intros _. rewrite pe_len_eq. cbn [large itm]. pose proof (item_head_length it).
  destruct (prev_size_pos (wide (last_len ps1))); lia.
Qed.

Lemma Push_rep zl ps s (head : bool) :
  zl_rep zl ps → room ps (zlen s + 14) →
  ∃ zl', ziplistPush zl s (zlen s) (if head then ZIPLIST_HEAD else ZIPLIST_TAIL) = Some zl' ∧
    zl_rep zl' (if head then insert_entries [] (item_of s) ps else insert_entries ps (item_of s) []).
Proof.
  intros Hrep Hroom. destruct head; unfold ziplistPush.
  - change (ZIPLIST_HEAD =? ZIPLIST_HEAD) with true. cbv iota. rewrite bind_Some_eq. change ZIPLIST_ENTRY_HEAD with (off []).
    apply (zl_insert_rep zl [] ps); [done|done|]. apply fits_head. by destruct Hrep as (c & _ & _ & ?).
  - change (ZIPLIST_TAIL =? ZIPLIST_HEAD) with false. cbv iota. unfold ZIPLIST_ENTRY_END.
    pose proof (BlobLen_run zl ps Hrep) as Hb. unfold ziplistBlobLen in Hb. rewrite Hb, !bind_Some_eq.
    assert (zlen zl - 1 = off ps) as -> by (destruct Hrep as (c & -> & _); rewrite length_layout; lia).
    apply zl_insert_rep; rewrite ?app_nil_r; done.
Qed.

Lemma zl_rep_ok zl ps : zl_rep zl ps → Forall pe_ok ps.
Proof. by intros (c & _ & _ & ? & _). Qed.

Lemma zl_is_intro zl ps l : zl_rep zl ps → texts ps = l → zl_is zl l.
Proof. intros Hrep <-. by exists ps. Qed.

(** Deleting a range that starts at an entry. *)
Lemma delete_range_rep zl ps i num :
  zl_rep zl ps → (i < length ps)%nat → room ps 0 → 0 ≤ num →
  ∃ zl', __ziplistDelete zl (off (take i ps)) num = Some zl' ∧ zl_is zl' (take i (texts ps) ++ drop (i + Z.to_nat num) (texts ps)).
Proof.
  intros Hrep Hi Hroom Hnum. destruct (split_entry ps i Hi) as (e & Hps & He). destruct (decide (num = 0)) as [->|Hne].
  - exists zl. split.
    + rewrite Hps in Hrep. by eapply delete_none.
    + apply (zl_is_intro _ _ _ Hrep). by rewrite Nat.add_0_r, take_drop.
  - set (n := Z.to_nat num). assert (ps = take i ps ++ take n (drop i ps) ++ drop (i + n) ps) as Hcut.
    { rewrite <-drop_drop, take_drop. by rewrite take_drop. }
    assert (length (take n (drop i ps)) = min n (length ps - i)) as Hlen by (by rewrite length_take, length_drop).
    rewrite Hcut in Hrep, Hroom. destruct (delete_rep zl _ _ _ num Hrep) as (zl' & Hrun & Hrep').
    + intros Hnil%(f_equal length). rewrite Hlen in Hnil. simpl in Hnil. lia.
    + done.
    + rewrite Hlen. destruct (decide (n ≤ length ps - i)%nat); [left; lia|right]. split; [lia|]. apply drop_ge. lia.
    + exists zl'. split; [done|]. apply (zl_is_intro _ _ _ Hrep').
      by rewrite delete_texts, texts_take, texts_drop.
Qed.

Lemma exec_refines zl l o :
  zl_is zl l → op_ok l o → ∃ zl', exec zl o = Some (zl', (apply l o).2) ∧ zl_is zl' (apply l o).1.
Proof.
  intros (ps & Hrep & Hl) Ho. change (item_text <$> items ps) with (texts ps) in Hl. subst l. pose proof (zl_rep_ok zl ps Hrep) as Hok.
  destruct o as [s head|index s|index|index num|index|s|]; cbn [exec apply op_ok fst snd] in *.
  - destruct (Push_rep zl ps s head Hrep) as (zl' & -> & Hrep'); [apply room_cost; [done|lia]|]. exists zl'. split; [done|].
    apply (zl_is_intro _ _ _ Hrep'). destruct head; by rewrite insert_texts.
  - destruct Ho as [Hc Hfit]. rewrite (Index_run zl ps index Hrep), bind_Some_eq, texts_length in *.
    destruct (position (length ps) index) as [i|] eqn:Hp; [|by exists zl; split; [|exists ps]]. cbn [fmap option_fmap option_map].
    rewrite <-(take_drop i ps) in Hrep. destruct (zl_insert_rep zl _ _ s Hrep) as (zl' & Hrun & Hrep').
    + rewrite take_drop. apply room_cost; [done|lia].
    + destruct Hfit as [[= ->]|Hd]; [|by apply fits_long]. apply fits_head. by destruct Hrep as (c & _ & _ & ?).
    + unfold ziplistInsert. rewrite Hrun. exists zl'. split; [done|]. apply (zl_is_intro _ _ _ Hrep').
      by rewrite insert_texts, texts_take, texts_drop.
  - rewrite (Index_run zl ps index Hrep), bind_Some_eq, texts_length. destruct (position (length ps) index) as [i|] eqn:Hp;
      [|by exists zl; split; [|exists ps]]. cbn [fmap option_fmap option_map]. apply position_range in Hp as Hi.
    destruct (delete_range_rep zl ps i 1 Hrep Hi) as (zl' & Hrun & His); [apply room_cost; [done|lia]|lia|].
    unfold ziplistDelete. rewrite Hrun. exists zl'. split; [done|]. by replace (i + Z.to_nat 1)%nat with (S i) in His by lia.
  - destruct Ho as (Hc & Hin & Hnum). unfold ziplistDeleteRange. rewrite swrap_small by (done || lia).
    rewrite (Index_run zl ps index Hrep), bind_Some_eq, texts_length. destruct (position (length ps) index) as [i|] eqn:Hp;
      [|by exists zl; split; [|exists ps]]. cbn [fmap option_fmap option_map]. apply position_range in Hp as Hi.
    destruct (delete_range_rep zl ps i num Hrep Hi) as (zl' & Hrun & His); [apply room_cost; [done|lia]|lia|].
    rewrite Hrun. by exists zl'.
  - rewrite (Index_run zl ps index Hrep), bind_Some_eq, texts_length. exists zl. split; [|by exists ps].
    destruct (position (length ps) index) as [i|] eqn:Hp; [|done]. cbn [fmap option_fmap option_map].
    apply position_range in Hp as Hi. destruct (split_entry ps i Hi) as (e & Hps & He).
    assert (ziplistGet zl (Some (off (take i ps))) = Some (Some (item_value (itm e)))) as -> by (rewrite Hps in Hrep; by eapply Get_run).
    rewrite bind_Some_eq. cbn. rewrite value_text_item by by (eapply Forall_lookup_1 in Hok as [? _]).
    unfold texts, items. by rewrite !list_lookup_fmap, He.
  - rewrite (Index_run zl ps 0 Hrep), bind_Some_eq. exists zl. split; [|by exists ps]. destruct ps as [|e ps].
    + done.
    + change (position (length (e :: ps)) 0) with (Some 0%nat). cbn [fmap option_fmap option_map take].
      rewrite (Find_run zl [] (e :: ps) s 0 Hrep) by done. rewrite bind_Some_eq, <-find_at_spec. do 3 f_equal. apply bool_decide_ext.
      by rewrite fmap_is_Some.
  - destruct (Len_run zl ps Hrep) as (zl' & -> & Hrep'). exists zl'. rewrite texts_length. split; [done|]. by exists ps.
Qed.

Lemma exec_all_refines zl l os :
  zl_is zl l → ops_ok l os →
  ∃ zl', exec_all zl os = Some (zl', (apply_all l os).2) ∧ zl_is zl' (apply_all l os).1.
Proof.
  revert zl l. induction os as [|o os IH]; intros zl l Hzl Hok; [by exists zl|]. destruct Hok as [Ho Hos].
  destruct (exec_refines zl l o Hzl Ho) as (zl1 & Hrun & Hzl1). cbn [exec_all apply_all]. rewrite Hrun, bind_Some_eq.
  destruct (apply l o) as [l1 r] eqn:E. cbn [fst snd] in *. destruct (IH zl1 l1 Hzl1 Hos) as (zl2 & -> & Hzl2). rewrite bind_Some_eq.
  destruct (apply_all l1 os) as [l2 rs]. by exists zl2.
Qed.

(** Position [i], the end mark included. *)
Definition pos (ps : list pentry) (i : nat) : Z := off (take i ps).

Lemma resize_shrinks tot tail c A B N x :
  ZIPLIST_HEADER_SIZE + 1 + zlen A + 1 ≤ N < 2 ^ 32 →
  ∃ zl, ziplistResize (header tot tail c ++ A ++ x :: B) N = Some zl ∧ zlen zl = N ∧
    rd1 zl (ZIPLIST_HEADER_SIZE + zlen A) = Some x.
Proof.
  intros HN. destruct (resize_keep tot tail c (A ++ [x]) B N) as (g & Hr & Hg); [rewrite length_app; cbn [length]; lia|].
  rewrite length_app in Hg. cbn [length] in Hg. rewrite <-app_assoc in Hr. cbn [app] in Hr. eexists. split; [exact Hr|].
  pose proof (length_header N tail c) as Hh. split.
  - rewrite !length_app. cbn [length]. lia.
  - rewrite <-app_assoc, app_assoc. apply rd1_app. rewrite length_app. lia.
Qed.
End proofs.

(** ** The properties *)

Section properties.
Context {host : Host} {alloc : Allocator}.



(** [ziplistIndex] finds the entry of an index, from the front or the back,
    and NULL outside; [ziplistNext] and [ziplistPrev] go to the neighbour of any
    entry, and NULL at the ends; [ziplistPrev] of the end mark is the last entry. *)
Theorem ziplist_walk zl ps i :
  zl_rep zl ps → (i ≤ length ps)%nat →
  (∀ index, ziplistIndex zl index = Some (pos ps <$> position (length ps) index)) ∧
  ziplistNext zl (pos ps i) = Some (if decide (S i < length ps)%nat then Some (pos ps (S i)) else None) ∧
  ziplistPrev zl (pos ps i) = Some (if decide (i = 0%nat) then None else Some (pos ps (pred i))).
Proof.
  intros Hrep Hi. split; [intros index; by apply Index_run|]. unfold pos. split.
  - destruct (decide (i = length ps)) as [->|Hne].
    + rewrite take_ge by done. rewrite (Next_end_run zl ps Hrep). by case_decide; [lia|].
    + destruct (split_entry ps i ltac:(lia)) as (e & Hps & He). rewrite Hps in Hrep. rewrite (Next_run zl _ e _ Hrep), <-(take_S_r ps i e He).
      destruct (decide (drop (S i) ps = [])) as [Hd|Hd].
      * apply (f_equal length) in Hd. rewrite length_drop in Hd. cbn [length] in Hd. by rewrite decide_False by lia.
      * rewrite decide_True; [done|]. destruct (decide (S i < length ps)%nat); [done|]. exfalso. apply Hd, drop_ge. lia.
  - pose proof (take_drop i ps) as Hps. rewrite <-Hps in Hrep. rewrite (Prev_run zl (take i ps) (drop i ps) Hrep).
    destruct i as [|i]; [done|]. destruct (split_entry ps i ltac:(lia)) as (e & _ & He). rewrite (take_S_r ps i e He), removelast_last.
    rewrite decide_False by by destruct (take i ps). by rewrite decide_False.
Qed.

(** [ziplistFind] returns the first entry, among those [skip] entries apart
    from the start on, whose text is the one searched for, be it kept as a string
    or as an integer, and NULL if there is none. *)
Theorem ziplistFind_correct zl ps i v skip :
  zl_rep zl ps → (i ≤ length ps)%nat → 0 ≤ skip →
  ziplistFind zl (pos ps i) v (zlen v) skip =
    Some ((λ k, pos ps (i + k)) <$> find_at v (Z.to_nat skip) (drop i (texts ps)) 0).
Proof.
  intros Hrep Hi Hskip. pose proof (take_drop i ps) as Hps. rewrite <-Hps in Hrep. unfold pos.
  rewrite (Find_run zl (take i ps) (drop i ps) v skip Hrep Hskip), texts_drop. destruct (find_at _ _ _ _) as [k|]; [|done]. cbn.
  by rewrite take_take_drop.
Qed.

(** a text pushed is read back from the end: [ziplistGet] gives a value with
    that text, an integer exactly when the text is the canonical decimal notation
    of a 64-bit integer, and [ziplistCompare] with any text decides equality. *)
Theorem ziplist_push_get zl ps s t :
  zl_rep zl ps → room ps (zlen s + 14) →
  ∃ zl' p v, ziplistPush zl s (zlen s) ZIPLIST_TAIL = Some zl' ∧ ziplistIndex zl' (-1) = Some (Some p) ∧
    ziplistGet zl' (Some p) = Some (Some v) ∧ value_text v = s ∧
    (∀ n, v = inr n ↔ in_s 64 n ∧ s = dec_signed n) ∧
    ziplistCompare zl' p t (zlen t) = Some (bool_decide (s = t)).
Proof.
  intros Hrep Hroom. destruct (Push_rep zl ps s false Hrep Hroom) as (zl' & Hpush & Hrep'). cbv iota in Hpush.
  unfold insert_entries in Hrep'. cbv zeta in Hrep'. cbn [relink] in Hrep'. set (e := PEntry _ _ _) in Hrep'.
  assert (item_ok (item_of s)) as Hit.
  { apply item_of_ok. unfold room in Hroom. pose proof (off_pos ps). unfold ZIPLIST_HEADER_SIZE in *. lia. }
  exists zl', (off ps), (item_value (item_of s)). split; [done|]. split.
  { rewrite (Index_run zl' (ps ++ [e]) (-1) Hrep'). unfold position. rewrite length_app. cbn [length].
    change (-1 <? 0) with true. cbv iota. destruct ((0 <=? _) && _) eqn:E; [|lia]. cbn. do 2 f_equal.
    replace (Z.to_nat (Z.of_nat (length ps + 1) + -1)) with (length ps) by lia. by rewrite take_app_length. }
  split; [by apply (Get_run zl' ps e [])|]. split; [by rewrite value_text_item, item_of_text|]. split.
  - intros n. unfold item_of. destruct (zipTryEncoding_spec s) as (r & -> & Hr). destruct r as [[w enc]|]; cbn [item_value].
    + destruct Hr as [Hok ->]. split; [|by intros [_ ->%dec_signed_inj]]. intros [= ->]. split; [|done].
      unfold num_ok, in_s, ZIP_INT_IMM_MIN, ZIP_INT_IMM_MAX in *. simpl in *. lia.
    + split; [done|]. intros [Hn Hs]. by destruct (Hr n Hn).
  - rewrite (Compare_run zl' ps e [] t Hrep'). cbn [e itm]. by rewrite item_of_text.
Qed.

(** C32: when an entry of two bytes (a small integer behind a short entry) is
    inserted in front of an entry whose field has five bytes, the field is to
    shrink by more than the new entry needs: the block is shrunk before its bytes
    are moved, and [memmove] reads behind the end of the block. *)
Theorem ziplistInsert_short_unsafe zl ps1 n ps2 s :
  zl_rep zl (ps1 ++ n :: ps2) → large n = true →
  pe_len (PEntry (wide (last_len ps1)) (last_len ps1) (item_of s)) = 2 →
  ziplistInsert zl (off ps1) s (zlen s) = None.
Proof.
  intros (c & -> & _ & Hwf) Hlarge HL. destruct (wf_split _ _ Hwf) as (Hok1 & Hok2 & _ & _ & Hlast). destruct Hwf as (Hok & Hch & _ & Hlt).
  pose proof Hok2 as [Hn Hok3]%Forall_cons. set (ps := ps1 ++ n :: ps2) in *. set (e := PEntry _ _ _) in HL.
  pose proof (off_pos ps1) as Hp1. unfold ZIPLIST_HEADER_SIZE in Hp1. unfold ziplistInsert, __ziplistInsert.
  assert (off ps = off ps1 + pe_len n + body_len ps2) as Hoff by (unfold ps; by rewrite off_app, body_len_cons, Z.add_assoc).
  assert (6 ≤ pe_len n) as Hn6 by (rewrite pe_len_eq, Hlarge; pose proof (item_head_length (itm n)); cbn [prev_size]; lia).
  assert (0 ≤ body_len ps2) as Hb2 by (unfold body_len; lia).
  rewrite layout_BYTES, bind_Some_eq by (split; lia).
  assert (insert_prevlen (layout (off ps + 1) (tail_off ps) c ps) (off ps1) = Some (last_len ps1)) as ->
    by (apply insert_prevlen_run; [done..|fold ps; lia]).
  rewrite bind_Some_eq. destruct (encode_spec s) as (enc & -> & Hspec). rewrite bind_Some_eq. destruct (default (123456789, 0) enc) as [value encoding].
  destruct Hspec as (-> & -> & _). rewrite <-wide_size. pose proof (pe_len_eq e) as Hel. cbn [e large itm] in Hel. fold e in Hel.
  replace (zlen (item_data (item_of s)) + prev_size (wide (last_len ps1)) + zlen (item_head (item_of s))) with 2 by lia.
  destruct (layout_first (off ps + 1) (tail_off ps) c ps1 n ps2 Hn) as (b & Hb & Hbe). fold ps in Hb. rewrite Hb, bind_Some_eq, Hbe. cbn [negb].
  cbv zeta. change (u32 2) with 2.
  assert (zipPrevLenByteDiff (layout (off ps + 1) (tail_off ps) c ps) (off ps1) 2 = Some (-4)) as ->.
  { unfold zipPrevLenByteDiff. unfold ps at 3. rewrite layout_entry.
    destruct (pe_decode (header (off ps + 1) (tail_off ps) c ++ pes_bytes ps1) n (pes_bytes ps2 ++ [ZIP_END]) (off ps1) Hn) as (_ & -> & _);
      [apply off_zlen|]. by rewrite Hlarge. }
  rewrite bind_Some_eq. assert (u32 (off ps + 1 + 2 + -4) = off ps - 1) as -> by (rewrite wrap_small; [lia|split; lia]).
  destruct (resize_shrinks (off ps + 1) (tail_off ps) c (pes_bytes ps1) (le_enc 4 (prevl n) ++ item_head (itm n) ++ item_data (itm n) ++ pes_bytes ps2 ++ [ZIP_END])
    (off ps - 1) ZIP_BIGLEN) as (zl & Hres & Hlen & Hrd); [unfold off, body_len, ZIPLIST_HEADER_SIZE in *; lia|].
  assert (layout (off ps + 1) (tail_off ps) c ps = header (off ps + 1) (tail_off ps) c ++ pes_bytes ps1 ++ ZIP_BIGLEN ::
    (le_enc 4 (prevl n) ++ item_head (itm n) ++ item_data (itm n) ++ pes_bytes ps2 ++ [ZIP_END])) as ->.
  { unfold layout, ps. rewrite pes_bytes_app, pes_bytes_cons. unfold pe_bytes. rewrite Hlarge. unfold prev_bytes. by rewrite <-!app_assoc. }
  rewrite Hres, bind_Some_eq. change (ZIPLIST_HEADER_SIZE + zlen (pes_bytes ps1)) with (off ps1) in Hrd. rewrite Hrd, bind_Some_eq.
  change (ZIP_BIGLEN =? ZIP_END) with false. cbn [negb]. unfold memmove.
  destruct (rd zl (off ps1 - -4) (off ps + 1 - off ps1 - 1 + -4)) as [bs|] eqn:Hr; [|done].
  apply rd_Some in Hr as (_ & _ & Hr & _). exfalso. lia.
Qed.
End properties.

(** ** Concrete instances *)

#[local] Existing Instances be_host poison_allocator.

Ltac evaluate := vm_compute; repeat split; first [reflexivity | discriminate | intros; discriminate].

Definition sample_ops : list op :=
  [OPush [49; 50] false; OPush (replicate 260 97) true; OPush [45; 49; 50; 51; 52; 53] false; OInsert 1 [120; 121]; OGet (-1);
   OContains [49; 50]; ODelete 0; ODeleteRange (-2) 5; OLen; OInsert 0 [55]; OGet 0].


(** The state left behind when an entry of 300 bytes in front of three of 250 bytes is deleted. *)
Definition widened : list pentry :=
  [PEntry false 0 (Str (replicate 250 97)); PEntry true 253 (Str (replicate 250 98)); PEntry true 257 (Str (replicate 250 99));
   PEntry true 257 (Str [100; 100])].
Definition widen_ops : list op :=
  [OPush (replicate 250 97) false; OPush (replicate 250 98) false; OPush (replicate 250 99) false; OPush [100; 100] false;
   OPush (replicate 300 101) true; ODelete 0].
Definition widened_zl : bytes := layout (off widened + 1) (tail_off widened) 4 widened.

Lemma widened_rep : zl_rep widened_zl widened.
Proof. exists 4. split; [reflexivity|]. split; [evaluate|]. split; [|evaluate]. repeat constructor; evaluate. Qed.

Lemma widened_reached : (zl ← ziplistNew; fst <$> exec_all zl widen_ops) = Some widened_zl.
Proof. vm_compute. reflexivity. Qed.

Lemma ziplistInsert_short_unsafe_witness :
  (zl ← ziplistNew; fst <$> exec_all zl widen_ops) = Some widened_zl ∧
  ∃ p, ziplistIndex widened_zl 1 = Some (Some p) ∧ ziplistInsert widened_zl p [49] 1 = None.
Proof.
  split; [exact widened_reached|]. exists (off (take 1 widened)). split; [vm_compute; reflexivity|].
  exact (ziplistInsert_short_unsafe widened_zl (take 1 widened) (PEntry true 253 (Str (replicate 250 98))) (drop 2 widened) [49]
    widened_rep eq_refl ltac:(vm_compute; reflexivity)).
Defined.


Lemma ziplist_walk_witness :
  ziplistIndex widened_zl (-2) = Some (Some (pos widened 2)) ∧ ziplistNext widened_zl (pos widened 2) = Some (Some (pos widened 3)) ∧
  ziplistPrev widened_zl (pos widened 2) = Some (Some (pos widened 1)).
Proof.
  destruct (ziplist_walk widened_zl widened 2 widened_rep ltac:(vm_compute; lia)) as (Hi & Hn & Hp).
  split; [exact (Hi (-2))|]. split; [exact Hn|exact Hp].
Defined.

Lemma ziplistFind_correct_witness : ziplistFind widened_zl (pos widened 1) [100; 100] 2 1 = Some (Some (pos widened 3)).
Proof. exact (ziplistFind_correct widened_zl widened 1 [100; 100] 1 widened_rep ltac:(vm_compute; lia) ltac:(lia)). Defined.

Lemma ziplist_push_get_witness :
  ∃ zl' p v, ziplistPush widened_zl [45; 55] 2 ZIPLIST_TAIL = Some zl' ∧ ziplistGet zl' (Some p) = Some (Some v) ∧ value_text v = [45; 55] ∧
    ziplistCompare zl' p [45; 55] 2 = Some true.
Proof.
  destruct (ziplist_push_get widened_zl widened [45; 55] [45; 55] widened_rep ltac:(evaluate)) as (zl' & p & v & H1 & _ & H3 & H4 & _ & H6).
  exists zl', p, v. split; [exact H1|]. split; [exact H3|]. split; [exact H4|exact H6].
Defined.
