(* ===== verification/HashType.v ===== *)
(** * Hash objects: [t_hash.c]

    A small hash is a ziplist of fields and values in turn; a bigger one is a
    dictionary.  The dictionary compares its keys with [dictEncObjKeyCompare] and
    hashes them with [dictEncObjHash]; both depend only on the text of an object
    ([HashTypeSpec.key_object_text]), so that a key is kept here as its text. *)

From S2P Require Import Prelude Endian Util Glob Object Dict Sds Rdb Ziplist.

#[local] Open Scope Z_scope.

Definition REDIS_HT_MINFILL : Z := 10.

(** The settings of the server that are read here. *)
Record hash_config := HashConfig {
  hash_max_ziplist_entries : Z;
  hash_max_ziplist_value : Z;
}.

(** [o->encoding] and [o->ptr]. *)
Inductive hash_robj :=
  | HZiplist (zl : bytes)
  | HTable (d : dict bytes robj).

(** [hi->encoding], and the cursor. *)
Inductive hashTypeIterator :=
  | IterZiplist (fptr vptr : option Z)
  | IterTable (di : dictIterator) (de : option loc).

Section code.
Context {host : Host} {alloc : Allocator} {entries : EntryAllocator}.
Context (seed : Z) (addr : Z → Z) (g : dictGlobals) (cfg : hash_config).

(** ** Objects as numbers *)

(** [None] is [REDIS_ERR]. *)
Definition getLongLongFromObject (o : robj) : option (option Z) :=
  match o with
  | SdsObj s =>
    let p := s ++ [0] in
    '(value, eptr) ← strtoll p;
    erange ← strtoll_erange p;
    c ← rd1 p 0;
    e ← rd1 eptr 0;
    Some (if isspace c || negb (e =? 0) || (erange : bool) then None else Some value)
  | IntObj n => Some (Some n)
  end.

(** ** Objects as keys *)

Definition getDecodedObject (o : robj) : option bytes :=
  match o with
  | SdsObj s => Some s
  | IntObj n => '(_, buf) ← ll2string (fresh 32) 32 n; len ← strlen buf; rd buf 0 len
  end.

Definition dictSdsKeyCompare (key1 key2 : bytes) : bool :=
  if negb (zlen key1 =? zlen key2) then false else bool_decide (key1 = key2).

Definition dictEncObjKeyCompare (o1 o2 : robj) : option bool :=
  match o1, o2 with
  | IntObj m, IntObj n => Some (m =? n)
  | _, _ => o1 ← getDecodedObject o1; o2 ← getDecodedObject o2; Some (dictSdsKeyCompare o1 o2)
  end.

Definition dictEncObjHash (o : robj) : option Z :=
  match o with
  | SdsObj s => dictGenHashFunction seed s (s32 (zlen s))
  | IntObj n => '(len, buf) ← ll2string (fresh 32) 32 n; b ← rd buf 0 len; dictGenHashFunction seed b len
  end.

(** On the texts of the keys. *)
Definition hashDictType : dictType bytes robj :=
  DictType bytes robj (λ key, u32 (default 0 (dictGenHashFunction seed key (s32 (zlen key))))) None None
    (Some dictSdsKeyCompare) true true.

Definition htNeedsResize {K V : Type} (d : dict K V) : bool :=
  let size := dictSlots d in
  let used := dictSize d in
  negb (size =? 0) && negb (used =? 0) && (size >? DICT_HT_INITIAL_SIZE) && (used * 100 / size <? REDIS_HT_MINFILL).

(** ** Reading *)

(** The field is found at every second entry; [None] is [-1]. *)
Definition hashTypeFind (zl field : bytes) : option (option Z) :=
  fptr ← ziplistIndex zl ZIPLIST_HEAD;
  match fptr with
  | None => Some None
  | Some fptr => ziplistFind zl fptr field (zlen field) 1
  end.

Definition hashTypeGetFromZiplist (zl : bytes) (field : robj) : option (option (bytes + Z)) :=
  field ← getDecodedObject field;
  fptr ← hashTypeFind zl field;
  match fptr with
  | None => Some None
  | Some fptr =>
    vptr ← ziplistNext zl fptr;
    check bool_decide (is_Some vptr) ;;
    ret ← ziplistGet zl vptr;
    check bool_decide (is_Some ret) ;;
    Some ret
  end.

Definition hashTypeGetFromHashTable (d : dict bytes robj) (field : robj) : option (option robj * dict bytes robj) :=
  field ← getDecodedObject field;
  '(de, d) ← dictFind hashDictType g d field;
  match de with
  | None => Some (None, d)
  | Some p => e ← dict_entries d !! p; v ← de_val e; Some (Some v, d)
  end.

(** [createStringObject] or [createStringObjectFromLongLong] *)
Definition object_of_value (v : bytes + Z) : option robj :=
  match v with inl vstr => Some (SdsObj vstr) | inr vll => createStringObjectFromLongLong vll end.

Definition hashTypeGetObject (o : hash_robj) (field : robj) : option (option robj * hash_robj) :=
  match o with
  | HZiplist zl =>
    r ← hashTypeGetFromZiplist zl field;
    match r with
    | None => Some (None, o)
    | Some v => value ← object_of_value v; Some (Some value, o)
    end
  | HTable d => '(value, d) ← hashTypeGetFromHashTable d field; Some (value, HTable d)
  end.

Definition hashTypeExists (o : hash_robj) (field : robj) : option (bool * hash_robj) :=
  match o with
  | HZiplist zl => r ← hashTypeGetFromZiplist zl field; Some (bool_decide (is_Some r), o)
  | HTable d => '(value, d) ← hashTypeGetFromHashTable d field; Some (bool_decide (is_Some value), HTable d)
  end.

Definition hashTypeLength (o : hash_robj) : option (Z * hash_robj) :=
  match o with
  | HZiplist zl => '(n, zl) ← ziplistLen zl; Some (n / 2, HZiplist zl)
  | HTable d => Some (dictSize d, o)
  end.

(** ** Iterating *)

Definition hashTypeInitIterator (subject : hash_robj) : hashTypeIterator :=
  match subject with
  | HZiplist _ => IterZiplist None None
  | HTable _ => IterTable dictGetIterator None
  end.

Definition hashTypeReleaseIterator (o : hash_robj) (hi : hashTypeIterator) : option hash_robj :=
  match o, hi with
  | HTable d, IterTable di _ => d ← dictReleaseIterator addr d di; Some (HTable d)
  | HZiplist _, IterZiplist _ _ => Some o
  | _, _ => None
  end.

(** Whether there is a next pair, the hash and the iterator. *)
Definition hashTypeNext (o : hash_robj) (hi : hashTypeIterator) : option (bool * hash_robj * hashTypeIterator) :=
  match o, hi with
  | HZiplist zl, IterZiplist fptr vptr =>
    fptr ← match fptr with
      | None => check bool_decide (vptr = None) ;; ziplistIndex zl 0
      | Some _ => vptr ← vptr; ziplistNext zl vptr
      end;
    match fptr with
    | None => Some (false, o, hi)
    | Some fptr =>
      vptr ← ziplistNext zl fptr;
      check bool_decide (is_Some vptr) ;;
      Some (true, o, IterZiplist (Some fptr) vptr)
    end
  | HTable d, IterTable di _ =>
    '(de, d, di) ← dictNext addr d di;
    Some (bool_decide (is_Some de), HTable d, IterTable di de)
  | _, _ => None
  end.

Definition hashTypeCurrentFromZiplist (zl : bytes) (hi : hashTypeIterator) (key : bool) : option (bytes + Z) :=
  match hi with
  | IterZiplist fptr vptr => ret ← ziplistGet zl (if key then fptr else vptr); ret
  | IterTable _ _ => None
  end.

Definition hashTypeCurrentFromHashTable (d : dict bytes robj) (hi : hashTypeIterator) (key : bool) : option robj :=
  match hi with
  | IterTable _ (Some p) => e ← dict_entries d !! p; if key then Some (SdsObj (de_key e)) else de_val e
  | _ => None
  end.

Definition hashTypeCurrentObject (o : hash_robj) (hi : hashTypeIterator) (key : bool) : option robj :=
  match o with
  | HZiplist zl => v ← hashTypeCurrentFromZiplist zl hi key; object_of_value v
  | HTable d => hashTypeCurrentFromHashTable d hi key
  end.

(** ** Conversion *)

(** [while (hashTypeNext(hi) != REDIS_ERR)]: the state is the iterator and the new dictionary. *)
Definition convert_body (zl : bytes) (st : hashTypeIterator * dict bytes robj)
  : option (hashTypeIterator * dict bytes robj + dict bytes robj) :=
  let '(hi, d) := st in
  '(ok, _, hi) ← hashTypeNext (HZiplist zl) hi;
  if negb (ok : bool) then Some (inr d)
  else
    field ← hashTypeCurrentObject (HZiplist zl) hi true;
    field ← tryObjectEncoding field;
    value ← hashTypeCurrentObject (HZiplist zl) hi false;
    value ← tryObjectEncoding value;
    key ← getDecodedObject field;
    '(ret, d) ← dictAdd hashDictType g d key value;
    check ret =? DICT_OK ;;
    Some (inl (hi, d)).

Definition hashTypeConvertZiplist (zl : bytes) : option (dict bytes robj) :=
  loop (length zl) (convert_body zl) (hashTypeInitIterator (HZiplist zl), dictCreate).

(** To [REDIS_ENCODING_HT]; a hash table is not converted. *)
Definition hashTypeConvert (o : hash_robj) : option hash_robj :=
  match o with
  | HZiplist zl => d ← hashTypeConvertZiplist zl; Some (HTable d)
  | HTable _ => None
  end.

Definition too_long (o : robj) : bool :=
  match o with SdsObj s => zlen s >? hash_max_ziplist_value cfg | IntObj _ => false end.

(** [argv] from [start] to [end]. *)
Definition hashTypeTryConversion (o : hash_robj) (argv : list robj) : option hash_robj :=
  match o with
  | HTable _ => Some o
  | HZiplist _ => if existsb too_long argv then hashTypeConvert o else Some o
  end.

Definition hashTypeTryObjectEncoding (subject : hash_robj) (o : robj) : option robj :=
  match subject with HTable _ => tryObjectEncoding o | HZiplist _ => Some o end.

(** ** Writing *)

(** The branch of a ziplist: whether the field was there, and the ziplist. *)
Definition hashTypeSetZiplist (zl : bytes) (field value : robj) : option (bool * bytes) :=
  field ← getDecodedObject field;
  value ← getDecodedObject value;
  fptr ← hashTypeFind zl field;
  match fptr with
  | Some fptr =>
    vptr ← ziplistNext zl fptr;
    vptr ← vptr;
    '(zl, vptr) ← ziplistDelete zl vptr;
    zl ← ziplistInsert zl vptr value (zlen value);
    Some (true, zl)
  | None =>
    zl ← ziplistPush zl field (zlen field) ZIPLIST_TAIL;
    zl ← ziplistPush zl value (zlen value) ZIPLIST_TAIL;
    Some (false, zl)
  end.

(** Whether the field was there, and the hash. *)
Definition hashTypeSet (o : hash_robj) (field value : robj) : option (bool * hash_robj) :=
  match o with
  | HZiplist zl =>
    '(update, zl) ← hashTypeSetZiplist zl field value;
    '(n, o) ← hashTypeLength (HZiplist zl);
    o ← (if n >? hash_max_ziplist_entries cfg then hashTypeConvert o else Some o);
    Some (update, o)
  | HTable d =>
    key ← getDecodedObject field;
    '(r, d) ← dictReplace hashDictType g d key value;
    Some (r =? 0, HTable d)
  end.

Definition hashTypeDeleteZiplist (zl : bytes) (field : robj) : option (bool * bytes) :=
  field ← getDecodedObject field;
  fptr ← hashTypeFind zl field;
  match fptr with
  | None => Some (false, zl)
  | Some fptr =>
    '(zl, fptr) ← ziplistDelete zl fptr;
    '(zl, fptr) ← ziplistDelete zl fptr;
    Some (true, zl)
  end.

(** Whether the field was there, and the hash. *)
Definition hashTypeDelete (o : hash_robj) (field : robj) : option (bool * hash_robj) :=
  match o with
  | HZiplist zl => '(deleted, zl) ← hashTypeDeleteZiplist zl field; Some (deleted, HZiplist zl)
  | HTable d =>
    key ← getDecodedObject field;
    '(r, d) ← dictDelete hashDictType g d key;
    if r =? DICT_OK then
      if htNeedsResize d then '(_, d) ← dictResize g d; Some (true, HTable d) else Some (true, HTable d)
    else Some (false, HTable d)
  end.

Definition createHashObject : option hash_robj := zl ← ziplistNew; Some (HZiplist zl).

(** ** Commands, from the hash on *)

(** [hsetCommand]: the reply is whether the field is new. *)
Definition hset (o : hash_robj) (field value : robj) : option (bool * hash_robj) :=
  o ← hashTypeTryConversion o [field; value];
  field ← hashTypeTryObjectEncoding o field;
  value ← hashTypeTryObjectEncoding o value;
  '(update, o) ← hashTypeSet o field value;
  Some (negb update, o).

(** [hsetnxCommand] *)
Definition hsetnx (o : hash_robj) (field value : robj) : option (bool * hash_robj) :=
  o ← hashTypeTryConversion o [field; value];
  '(exists_, o) ← hashTypeExists o field;
  if exists_ : bool then Some (false, o)
  else
    field ← hashTypeTryObjectEncoding o field;
    value ← hashTypeTryObjectEncoding o value;
    '(_, o) ← hashTypeSet o field value;
    Some (true, o).

(** [hmsetCommand]: the arguments are fields and values in turn; [false] is the error reply. *)
Fixpoint hmset_loop (o : hash_robj) (argv : list robj) : option hash_robj :=
  match argv with
  | field :: value :: argv =>
    field ← hashTypeTryObjectEncoding o field;
    value ← hashTypeTryObjectEncoding o value;
    '(_, o) ← hashTypeSet o field value;
    hmset_loop o argv
  | _ => Some o
  end.

Definition hmset (o : hash_robj) (argv : list robj) : option (bool * hash_robj) :=
  if (2 + zlen argv) mod 2 =? 1 then Some (false, o)
  else
    o ← hashTypeTryConversion o argv;
    o ← hmset_loop o argv;
    Some (true, o).

Inductive hincrby_reply :=
  | NotANumber   (* the increment *)
  | NotAnInteger (* the value *)
  | WouldOverflow
  | Incremented (value : Z).

(** [hincrbyCommand] *)
Definition hincrby (o : hash_robj) (field incr : robj) : option (hincrby_reply * hash_robj) :=
  incr ← getLongLongFromObject incr;
  match incr with
  | None => Some (NotANumber, o)
  | Some incr =>
    '(current, o) ← hashTypeGetObject o field;
    value ← match current with Some current => getLongLongFromObject current | None => Some (Some 0) end;
    match value with
    | None => Some (NotAnInteger, o)
    | Some oldvalue =>
      if ((incr <? 0) && (oldvalue <? 0) && (incr <? s64 (LLONG_MIN - oldvalue))) ||
         ((incr >? 0) && (oldvalue >? 0) && (incr >? s64 (LLONG_MAX - oldvalue)))
      then Some (WouldOverflow, o)
      else
        let value := s64 (oldvalue + incr) in
        new ← createStringObjectFromLongLong value;
        field ← hashTypeTryObjectEncoding o field;
        '(_, o) ← hashTypeSet o field new;
        Some (Incremented value, o)
    end
  end.

(** [addReplyBulkCBuffer] or [addReplyBulkLongLong] *)
Definition bulk_of_value (v : bytes + Z) : option bytes :=
  match v with inl vstr => Some vstr | inr vll => '(len, buf) ← ll2string (fresh 64) 64 vll; rd buf 0 len end.

(** The bulk sent for a field, [None] for the null bulk. *)
Definition addHashFieldToReply (o : hash_robj) (field : robj) : option (option bytes * hash_robj) :=
  match o with
  | HZiplist zl =>
    r ← hashTypeGetFromZiplist zl field;
    match r with
    | None => Some (None, o)
    | Some v => b ← bulk_of_value v; Some (Some b, o)
    end
  | HTable d =>
    '(value, d) ← hashTypeGetFromHashTable d field;
    match value with
    | None => Some (None, HTable d)
    | Some value => b ← getDecodedObject value; Some (Some b, HTable d)
    end
  end.

(** [hgetCommand], [hmgetCommand] *)
Fixpoint hmget (o : hash_robj) (fields : list robj) : option (list (option bytes) * hash_robj) :=
  match fields with
  | [] => Some ([], o)
  | field :: fields => '(b, o) ← addHashFieldToReply o field; '(bs, o) ← hmget o fields; Some (b :: bs, o)
  end.

(** [hdelCommand]: how many were deleted, and whether the key was, too. *)
Fixpoint hdel_loop (o : hash_robj) (fields : list robj) (deleted : Z) : option (Z * bool * hash_robj) :=
  match fields with
  | [] => Some (deleted, false, o)
  | field :: fields =>
    '(b, o) ← hashTypeDelete o field;
    if b : bool then
      let deleted := deleted + 1 in
      '(n, o) ← hashTypeLength o;
      if n =? 0 then Some (deleted, true, o) else hdel_loop o fields deleted
    else hdel_loop o fields deleted
  end.

Definition hdel (o : hash_robj) (fields : list robj) : option (Z * bool * hash_robj) := hdel_loop o fields 0.

Definition addHashIteratorCursorToReply (o : hash_robj) (hi : hashTypeIterator) (key : bool) : option bytes :=
  match o with
  | HZiplist zl => v ← hashTypeCurrentFromZiplist zl hi key; bulk_of_value v
  | HTable d => value ← hashTypeCurrentFromHashTable d hi key; getDecodedObject value
  end.

(** [genericHgetallCommand]: whether the keys and whether the values are asked
    for.  The state is the hash, the iterator and the bulks sent, last first. *)
Definition getall_body (keys values : bool) (st : hash_robj * hashTypeIterator * list bytes)
  : option (hash_robj * hashTypeIterator * list bytes + hash_robj * hashTypeIterator * list bytes) :=
  let '(o, hi, out) := st in
  '(ok, o, hi) ← hashTypeNext o hi;
  if negb (ok : bool) then Some (inr (o, hi, out))
  else
    out ← (if keys then b ← addHashIteratorCursorToReply o hi true; Some (b :: out) else Some out);
    out ← (if values then b ← addHashIteratorCursorToReply o hi false; Some (b :: out) else Some out);
    Some (inl (o, hi, out)).

Definition genericHgetall (keys values : bool) (o : hash_robj) : option (list bytes * hash_robj) :=
  let multiplier := (if keys then 1 else 0) + (if values then 1 else 0) in
  '(n, o) ← hashTypeLength o;
  let length := s32 (n * multiplier) in
  '(o, hi, out) ← loop (S (Z.to_nat n)) (getall_body keys values) (o, hashTypeInitIterator o, []);
  o ← hashTypeReleaseIterator o hi;
  check zlen out =? length ;;
  Some (reverse out, o).
End code.
