(* ===== verification/HashNumber.v ===== *)
(** * Numbers in the text of an object: [strtoll] in [getLongLongFromObject] *)

From S2P Require Import Prelude Util Object Sds Rdb RdbFormat HashType.

#[local] Open Scope Z_scope.

(** Up to the first NUL. *)
Fixpoint c_string (t : bytes) : bytes :=
  match t with [] => [] | c :: t => if c =? 0 then [] else c :: c_string t end.

Definition digitb (c : Z) : bool := (48 <=? c) && (c <=? 57).
Definition digits_value (acc : Z) (ds : bytes) : Z := foldl (λ a c, a * 10 + (c - 48)) acc ds.

(** What the commands take for a number: an optional sign and digits, of 64
    bits, or nothing at all for 0. *)
Definition number_of (t : bytes) : option Z :=
  let s := c_string t in
  let '(neg, ds) := match s with c :: s' => if c =? 45 then (true, s') else if c =? 43 then (false, s') else (false, s) | [] => (false, s) end in
  match s, ds with
  | [], _ => Some 0
  | _, [] => None
  | _, _ =>
    if forallb digitb ds then
      let v := if neg : bool then - digits_value 0 ds else digits_value 0 ds in
      if (v <? LLONG_MIN) || (LLONG_MAX <? v) then None else Some v
    else None
  end.

Lemma c_string_split t : ∃ rest, t ++ [0] = c_string t ++ 0 :: rest ∧ Forall (λ c, c ≠ 0) (c_string t).
Proof.
  induction t as [|c t (rest & IH & Hs)]; [by exists []|]. cbn. destruct (Z.eqb_spec c 0) as [->|Hc].
  - by exists (t ++ [0]).
  - exists rest. rewrite IH. split; [done|by constructor].
Qed.

Lemma c_string_id t : Forall (λ c, c ≠ 0) t → c_string t = t.
Proof. induction 1 as [|c t Hc _ IH]; [done|]. cbn. destruct (Z.eqb_spec c 0); [done|]. by rewrite IH. Qed.

Lemma strtoll_digits_value acc ds rest :
  Forall (λ c, c ≠ 0) ds →
  if forallb digitb ds then strtoll_digits acc (ds ++ 0 :: rest) = Some (digits_value acc ds, 0 :: rest)
  else ∃ v c l, strtoll_digits acc (ds ++ 0 :: rest) = Some (v, c :: l) ∧ c ≠ 0.
Proof.
  intros Hds. revert acc. induction Hds as [|c ds Hc Hds IH]; intros acc; [done|]. cbn [forallb app strtoll_digits].
  change ((48 <=? c) && (c <=? 57)) with (digitb c). destruct (digitb c); cbn [andb]; [apply IH|]. eauto 10.
Qed.

Lemma dec_value n : 0 ≤ n → forallb digitb (dec n) = true ∧ digits_value 0 (dec n) = n ∧ dec n ≠ [].
Proof.
  revert n. apply dec_ind; intros n Hn.
  - rewrite dec_small by done. change ch_0 with 48. unfold digits_value, digitb. cbn. split; [lia|]. split; [lia|done].
  - intros (Hd & Hv & _). rewrite dec_step, forallb_app, Hd by done. change ch_0 with 48. unfold digits_value in *. rewrite foldl_app, Hv.
    unfold digitb. cbn. split; [dlia|]. split; [dlia|]. by destruct (dec (n / 10)).
Qed.

Lemma number_of_dec v : in_s 64 v → number_of (dec_signed v) = Some v.
Proof.
  intros Hv. unfold number_of. rewrite c_string_id by apply dec_signed_no_nul. unfold dec_signed.
  assert ((v <? LLONG_MIN) || (LLONG_MAX <? v) = false) as Hr by (unfold LLONG_MIN, LLONG_MAX, in_s in *; lia).
  destruct (v <? 0) eqn:E.
  - destruct (dec_value (- v)) as (Hd & Hval & Hne); [lia|]. change (ch_minus =? 45) with true. cbv iota beta.
    destruct (dec (- v)) as [|c ds]; [done|]. rewrite Hd, Hval, Z.opp_involutive, Hr. done.
  - destruct (dec_value v) as (Hd & Hval & Hne); [lia|]. destruct (dec v) as [|c ds]; [done|].
    assert (digitb c = true) as Hc by (cbn in Hd; by apply andb_true_iff in Hd as [? _]). unfold digitb in Hc.
    destruct (Z.eqb_spec c 45); [lia|]. destruct (Z.eqb_spec c 43); [lia|]. cbv iota beta. rewrite Hd, Hval, Hr. done.
Qed.

(** The number behind the sign. *)
Lemma strtoll_scan_value c s rest :
  Forall (λ c, c ≠ 0) (c :: s) → isspace c = false →
  let '(neg, ds) := if c =? 45 then (true, s) else if c =? 43 then (false, s) else (false, c :: s) in
  match ds with
  | [] => strtoll_scan (c :: s ++ 0 :: rest) = Some None
  | d :: _ =>
    if forallb digitb ds then
      strtoll_scan (c :: s ++ 0 :: rest) = Some (Some (if neg : bool then - digits_value 0 ds else digits_value 0 ds, 0 :: rest))
    else strtoll_scan (c :: s ++ 0 :: rest) = Some None ∨
      ∃ v e l, strtoll_scan (c :: s ++ 0 :: rest) = Some (Some (v, e :: l)) ∧ e ≠ 0
  end.
Proof.
  intros Hs Hsp. unfold strtoll_scan. cbn [strtoll_space]. rewrite Hsp, bind_Some_eq.
  set (p := if c =? 45 then (true, s) else _). set (q := if c =? 45 then (true, s ++ _) else _).
  assert (q = (p.1, p.2 ++ 0 :: rest)) as -> by (unfold p, q; by repeat case_match).
  assert (Forall (λ c, c ≠ 0) p.2) as Hp by (unfold p; apply Forall_cons in Hs as [? ?]; repeat case_match; by try constructor).
  clearbody p. clear Hs Hsp. destruct p as [neg [|d ds]]; [done|]. cbn [fst snd] in *.
  change (rd1 ((d :: ds) ++ 0 :: rest) 0) with (Some d). rewrite bind_Some_eq.
  change ((48 <=? d) && (d <=? 57)) with (digitb d).
  pose proof (strtoll_digits_value 0 (d :: ds) rest Hp) as Hrun. destruct (forallb digitb (d :: ds)) eqn:E.
  - assert (digitb d = true) as -> by (cbn in E; by apply andb_true_iff in E as [? _]). by rewrite Hrun, bind_Some_eq.
  - destruct (digitb d); [|by left]. right. destruct Hrun as (v & e & l & -> & He). rewrite bind_Some_eq. eauto 10.
Qed.

Lemma getLongLongFromObject_run o : robj_ok o → getLongLongFromObject o = Some (number_of (robj_text o)).
Proof.
  destruct o as [t|n]; intros Ho; [|cbn; by rewrite number_of_dec]. cbn [getLongLongFromObject robj_text].
  destruct (strtoll_scan_run t []) as (r & Hr & Hl). unfold strtoll, strtoll_erange. rewrite Hr, !bind_Some_eq.
  destruct (c_string_split t) as (rest & Heq & Hs). unfold number_of. rewrite Heq in *. destruct (c_string t) as [|c s]; cbn [app] in *.
  { assert (strtoll_scan (0 :: rest) = Some None) as Hn by done. rewrite Hn in Hr. by injection Hr as <-. }
  pose proof (strtoll_scan_value c s rest Hs) as Hscan. change (rd1 (c :: s ++ 0 :: rest) 0) with (Some c).
  apply Forall_cons in Hs as [Hc _]. destruct (isspace c) eqn:Hsp.
  - assert (digitb c = false ∧ c ≠ 45 ∧ c ≠ 43) as (Hd & H45 & H43) by (unfold isspace, digitb in *; lia).
    destruct (Z.eqb_spec c 45); [done|]. destruct (Z.eqb_spec c 43); [done|]. cbn [forallb]. rewrite Hd. cbn [andb].
    destruct r as [[v [|e l]]|]; [done|..]; cbv beta iota; rewrite !bind_Some_eq.
    + change (rd1 (e :: l) 0) with (Some e). by rewrite bind_Some_eq, Hsp.
    + change (rd1 (c :: s ++ 0 :: rest) 0) with (Some c). by rewrite bind_Some_eq, Hsp.
  - specialize (Hscan eq_refl). rewrite Hr in Hscan. destruct (if c =? 45 then _ else _) as [neg ds]. destruct ds as [|d ds].
    + injection Hscan as ->. cbv beta iota. rewrite !bind_Some_eq. change (rd1 (c :: s ++ 0 :: rest) 0) with (Some c).
      rewrite bind_Some_eq, Hsp. by destruct (Z.eqb_spec c 0).
    + destruct (forallb digitb (d :: ds)).
      * injection Hscan as ->. cbv beta iota. rewrite !bind_Some_eq. change (rd1 (0 :: rest) 0) with (Some 0). rewrite bind_Some_eq, Hsp.
        cbn [orb negb Z.eqb]. set (w := if neg : bool then _ else _). destruct ((w <? LLONG_MIN) || (LLONG_MAX <? w)) eqn:E; [done|].
        do 2 f_equal. lia.
      * destruct Hscan as [[= ->]|(v & e & l & [= ->] & He)]; cbv beta iota; rewrite !bind_Some_eq.
        -- change (rd1 (c :: s ++ 0 :: rest) 0) with (Some c). rewrite bind_Some_eq, Hsp. by destruct (Z.eqb_spec c 0).
        -- change (rd1 (e :: l) 0) with (Some e). rewrite bind_Some_eq, Hsp. by destruct (Z.eqb_spec e 0).
Qed.

Lemma number_of_range t v : number_of t = Some v → in_s 64 v.
Proof.
  unfold number_of. destruct (c_string t) as [|c s]; [by intros [= <-]|]. destruct (if c =? 45 then _ else _) as [neg [|d ds]]; [done|].
  destruct (forallb digitb (d :: ds)); [|done].
  cbv zeta. generalize (if neg then - digits_value 0 (d :: ds) else digits_value 0 (d :: ds)). intros w.
  destruct (_ || _) eqn:E; [done|]. intros [= <-].
  unfold LLONG_MIN, LLONG_MAX, in_s in *. lia.
Qed.
