(* ===== verification/HashTypeSpec.v ===== *)
(** * Hash objects as finite maps: the operations on each encoding *)

From S2P Require Import Prelude Endian Util Glob Object Dict DictSpec DictMap DictScan Sds SdsText Rdb RdbFormat.
From S2P Require Import Ziplist ZiplistSpec ZiplistOps ZiplistUpdate ZiplistQuery ZiplistRefine HashType.

#[local] Open Scope Z_scope.

(** ** Fields and values in turn *)

Definition pairs := list (bytes * bytes).

Fixpoint flat (kvs : pairs) : list bytes :=
  match kvs with [] => [] | (k, v) :: kvs => k :: v :: flat kvs end.

Lemma flat_app l1 l2 : flat (l1 ++ l2) = flat l1 ++ flat l2.
Proof. induction l1 as [|[k v] l1 IH]; [done|]. cbn. by rewrite IH. Qed.

Lemma flat_length kvs : length (flat kvs) = (2 * length kvs)%nat.
Proof. induction kvs as [|[k v] kvs IH]; [done|]. cbn [flat length]. lia. Qed.

Lemma find_at_flat_none f kvs : f ∉ kvs.*1 → find_at f 1 (flat kvs) 0 = None.
Proof.
  induction kvs as [|[k v] kvs IH]; [done|]. cbn. intros [Hk Hr]%not_elem_of_cons. rewrite bool_decide_false by congruence.
  by rewrite IH.
Qed.

Lemma find_at_flat_some f l1 v l2 :
  f ∉ l1.*1 → find_at f 1 (flat (l1 ++ (f, v) :: l2)) 0 = Some (2 * length l1)%nat.
Proof.
  induction l1 as [|[k w] l1 IH]; [by cbn; rewrite bool_decide_true|]. cbn. intros [Hk Hr]%not_elem_of_cons.
  rewrite bool_decide_false by congruence. rewrite IH by done. cbn. f_equal. lia.
Qed.

(** A field is in none of the pairs, or first in one of them. *)
Lemma keys_split f (kvs : pairs) : f ∉ kvs.*1 ∨ ∃ l1 v l2, kvs = l1 ++ (f, v) :: l2 ∧ f ∉ l1.*1.
Proof.
  induction kvs as [|[k v] kvs IH]; [left; set_solver|]. destruct (decide (k = f)) as [->|Hne].
  - right. exists [], v, kvs. split; [done|set_solver].
  - destruct IH as [Hn|(l1 & w & l2 & -> & Hn)]; [left; set_solver|]. right. exists ((k, v) :: l1), w, l2.
    split; [done|]. set_solver.
Qed.

Lemma texts_split ps l1 l2 : texts ps = l1 ++ l2 → ∃ ps1 ps2, ps = ps1 ++ ps2 ∧ texts ps1 = l1 ∧ texts ps2 = l2.
Proof.
  intros Ht. exists (take (length l1) ps), (drop (length l1) ps). rewrite take_drop, texts_take, texts_drop, Ht.
  by rewrite take_app_length, drop_app_length.
Qed.

Lemma texts_pair ps l1 k v l2 :
  texts ps = flat (l1 ++ (k, v) :: l2) →
  ∃ ps1 e1 e2 ps2, ps = ps1 ++ e1 :: e2 :: ps2 ∧ texts ps1 = flat l1 ∧ item_text (itm e1) = k ∧ item_text (itm e2) = v ∧ texts ps2 = flat l2.
Proof.
  rewrite flat_app. intros (ps1 & ps2 & -> & H1 & H2)%texts_split. cbn [flat] in H2.
  destruct ps2 as [|e1 [|e2 ps2]]; try discriminate H2. rewrite !texts_cons in H2. injection H2 as Hk Hv H2.
  by exists ps1, e1, e2, ps2.
Qed.

(** ** Pairs as a map *)

Definition pmap (kvs : pairs) : gmap bytes bytes := list_to_map kvs.

Lemma pmap_lookup_none f kvs : f ∉ kvs.*1 → pmap kvs !! f = None.
Proof. apply not_elem_of_list_to_map_1. Qed.

Lemma pmap_lookup_some f l1 v l2 : NoDup (l1 ++ (f, v) :: l2).*1 → pmap (l1 ++ (f, v) :: l2) !! f = Some v.
Proof. intros Hnd. apply elem_of_list_to_map_1; [done|]. set_solver. Qed.

Lemma pmap_snoc f v kvs : f ∉ kvs.*1 → pmap (kvs ++ [(f, v)]) = <[f := v]> (pmap kvs).
Proof.
  unfold pmap. induction kvs as [|[k x] kvs IH]; [done|]. cbn. intros [Hk Hr]%not_elem_of_cons. rewrite IH by done.
  by rewrite insert_insert_ne.
Qed.

Lemma pmap_update f v w l1 l2 : f ∉ l1.*1 → pmap (l1 ++ (f, v) :: l2) = <[f := v]> (pmap (l1 ++ (f, w) :: l2)).
Proof.
  unfold pmap. induction l1 as [|[k x] l1 IH]; cbn; [by rewrite insert_insert_eq|]. intros [Hk Hr]%not_elem_of_cons.
  rewrite insert_insert_ne by done. by rewrite IH.
Qed.

Lemma pmap_remove f v l1 l2 : NoDup (l1 ++ (f, v) :: l2).*1 → pmap (l1 ++ l2) = delete f (pmap (l1 ++ (f, v) :: l2)).
Proof.
  unfold pmap. induction l1 as [|[k x] l1 IH]; cbn; intros [Hk Hnd]%NoDup_cons.
  - rewrite delete_insert_id; [done|]. by apply not_elem_of_list_to_map_1.
  - rewrite delete_insert_ne by (rewrite fmap_app in Hk; set_solver). by rewrite IH.
Qed.

Lemma pmap_size kvs : NoDup kvs.*1 → size (pmap kvs) = length kvs.
Proof.
  unfold pmap. induction kvs as [|[k v] kvs IH]; [done|]. cbn. intros [Hk Hnd]%NoDup_cons.
  rewrite map_size_insert_None by by apply not_elem_of_list_to_map_1. by rewrite IH.
Qed.

(** ** Objects *)

Section objects.
Context {alloc : Allocator}.

Lemma getDecodedObject_run o : robj_ok o → getDecodedObject o = Some (robj_text o).
Proof.
  destruct o as [s|n]; [done|]. intros Hn. unfold getDecodedObject. pose proof (length_dec_signed n Hn).
  rewrite ll2string_fits by (rewrite ?length_fresh; simpl; done || lia). rewrite bind_Some_eq.
  rewrite strlen_app by apply dec_signed_no_nul. rewrite bind_Some_eq. by apply rd_prefix.
Qed.

Lemma tryObjectEncoding_text o :
  robj_ok o → ∃ o', tryObjectEncoding o = Some o' ∧ robj_text o' = robj_text o ∧ robj_ok o'.
Proof.
  destruct o as [t|v]; [|by exists (IntObj v)]. intros Ht. unfold tryObjectEncoding.
  destruct (zlen t <=? 21); [|by exists (SdsObj t)].
  destruct (string2l_run t [0]) as (r & -> & Hr). rewrite bind_Some_eq.
  destruct r as [v|]; [|by exists (SdsObj t)]. destruct (proj1 (Hr v) eq_refl) as [Hv ->].
  exists (IntObj v). split; [done|]. split; [done|exact Hv].
Qed.

Lemma ll_object n : in_s 64 n → createStringObjectFromLongLong n = Some (IntObj n).
Proof.
  intros Hn. unfold createStringObjectFromLongLong, PORT_LONG_MIN, Util.PORT_LONG_MAX.
  destruct ((_ <=? n) && (n <=? _)) eqn:E; [done|]. unfold in_s in Hn. simpl in Hn. lia.
Qed.

Lemma object_of_value_run v :
  (∀ n, v = inr n → in_s 64 n) → (∀ s, v = inl s → zlen s < 2 ^ 31) →
  ∃ o, object_of_value v = Some o ∧ robj_text o = value_text v ∧ robj_ok o.
Proof.
  intros Hn Hs. destruct v as [s|n]; [exists (SdsObj s); split; [done|]; split; [done|by apply Hs]|].
  specialize (Hn n eq_refl). exists (IntObj n). by rewrite <-(ll_object n Hn).
Qed.

Lemma bulk_of_value_run v : (∀ n, v = inr n → in_s 64 n) → bulk_of_value v = Some (value_text v).
Proof.
  intros Hn. destruct v as [s|n]; [done|]. specialize (Hn n eq_refl). unfold bulk_of_value. pose proof (length_dec_signed n Hn).
  rewrite ll2string_fits by (rewrite ?length_fresh; simpl; done || lia). rewrite bind_Some_eq. by apply rd_prefix.
Qed.

Context (seed : Z).

(** The hash function and the comparison of keys depend on the texts only. *)
Lemma key_object_text o1 o2 :
  robj_ok o1 → robj_ok o2 → is_bytes (robj_text o1) → in_u 32 seed →
  dictEncObjHash seed o1 = Some (hashFunction (hashDictType seed) (robj_text o1)) ∧
  dictEncObjKeyCompare o1 o2 = Some (dictCompareKeys (hashDictType seed) (robj_text o1) (robj_text o2)) ∧
  dictCompareKeys (hashDictType seed) (robj_text o1) (robj_text o2) = bool_decide (robj_text o1 = robj_text o2).
Proof.
  intros H1 H2 Hb Hseed. pose proof (robj_text_len o1 H1) as Hl.
  assert (∀ a b, dictSdsKeyCompare a b = bool_decide (a = b)) as Hcmp.
  { intros a b. unfold dictSdsKeyCompare. destruct (Z.eqb_spec (zlen a) (zlen b)) as [|Hne]; [done|]. cbn.
    rewrite bool_decide_false; [done|]. by intros ->. }
  split; [|split; [|apply Hcmp]].
  - destruct (hash_functions_correct seed (robj_text o1) (robj_text o1)) as [(h & Hh & Hin) _]; [done..|].
    assert (hashFunction (hashDictType seed) (robj_text o1) = h) as ->.
    { cbn [hashFunction hashDictType]. rewrite swrap_small by (lia || split; simpl; lia). rewrite Hh. cbn. by apply wrap_small. }
    destruct o1 as [s|n]; unfold dictEncObjHash.
    + cbn in *. by rewrite swrap_small by (lia || split; simpl; lia).
    + pose proof (length_dec_signed n H1). rewrite ll2string_fits by (rewrite ?length_fresh; simpl; done || lia).
      rewrite bind_Some_eq, rd_prefix, bind_Some_eq by done. exact Hh.
  - unfold dictEncObjKeyCompare. cbn [dictCompareKeys keyCompare hashDictType]. rewrite Hcmp.
    destruct o1 as [s|n], o2 as [t|m]; rewrite ?getDecodedObject_run, ?bind_Some_eq, ?Hcmp by done; try done.
    cbn [robj_text]. f_equal. destruct (Z.eqb_spec n m) as [->|Hne]; [by rewrite bool_decide_true|].
    rewrite bool_decide_false; [done|]. by intros ?%dec_signed_inj.
Qed.

#[export] Instance hashDictType_ok : DictTypeOk (hashDictType seed).
Proof.
  split.
  - intros k. by apply wrap_range.
  - intros a b. cbn. unfold dictSdsKeyCompare. destruct (Z.eqb_spec (zlen a) (zlen b)) as [|Hne]; [done|]. cbn.
    rewrite bool_decide_false; [done|]. by intros ->.
  - done.
Qed.
End objects.

(** ** The ziplist *)

Section ziplist.
Context {host : Host} {alloc : Allocator}.

Lemma hashTypeFind_run zl ps f :
  zl_rep zl ps → hashTypeFind zl f = Some ((λ i, off (take i ps)) <$> find_at f 1 (texts ps) 0).
Proof.
  intros Hrep. unfold hashTypeFind. rewrite (Index_run zl ps _ Hrep), bind_Some_eq. destruct ps as [|e ps]; [done|].
  change (position (length (e :: ps)) ZIPLIST_HEAD) with (Some 0%nat). cbn [fmap option_fmap option_map take].
  by apply (Find_run zl [] (e :: ps)).
Qed.

Lemma hashTypeFind_pair zl ps1 e1 e2 ps2 f l1 l2 :
  zl_rep zl (ps1 ++ e1 :: e2 :: ps2) → texts ps1 = flat l1 → f ∉ l1.*1 → item_text (itm e1) = f → texts ps2 = flat l2 →
  hashTypeFind zl f = Some (Some (off ps1)).
Proof.
  intros Hrep H1 Hf He H2. rewrite (hashTypeFind_run _ _ f Hrep), texts_app, !texts_cons, H1, H2, He.
  pose proof (find_at_flat_some f l1 (item_text (itm e2)) l2 Hf) as Hfind. rewrite flat_app in Hfind. cbn [flat] in Hfind. rewrite Hfind.
  cbn [fmap option_fmap option_map]. do 3 f_equal. rewrite <-flat_length, <-H1, texts_length. by rewrite take_app_length.
Qed.

Lemma num_ok_64 enc v : num_ok enc v → in_s 64 v.
Proof. unfold num_ok, in_s, ZIP_INT_IMM_MIN, ZIP_INT_IMM_MAX. simpl. lia. Qed.

(** What is read of an entry. *)
Lemma item_value_object e :
  pe_ok e → zlen (item_text (itm e)) < 2 ^ 31 →
  ∃ o, object_of_value (item_value (itm e)) = Some o ∧ robj_text o = item_text (itm e) ∧ robj_ok o.
Proof.
  intros (Hit & _ & _) Hl. rewrite <-(value_text_item _ Hit). apply object_of_value_run; destruct (itm e) as [t|enc v|]; try done.
  - intros n [= <-]. by eapply num_ok_64.
  - intros s [= <-]. exact Hl.
Qed.

Lemma GetFromZiplist_run zl kvs o :
  zl_is zl (flat kvs) → NoDup kvs.*1 → robj_ok o → Forall (λ kv, zlen kv.2 < 2 ^ 31) kvs →
  ∃ r, hashTypeGetFromZiplist zl o = Some r ∧ value_text <$> r = pmap kvs !! robj_text o ∧
    match r with
    | Some v => (∀ n, v = inr n → in_s 64 n) ∧ ∃ o', object_of_value v = Some o' ∧ robj_text o' = value_text v ∧ robj_ok o'
    | None => True
    end.
Proof.
  intros (ps & Hrep & Hps) Hnd Ho Hlen. change (item_text <$> items ps) with (texts ps) in Hps. unfold hashTypeGetFromZiplist.
  rewrite getDecodedObject_run, bind_Some_eq by done. set (f := robj_text o).
  destruct (keys_split f kvs) as [Hn|(l1 & v & l2 & -> & Hn)].
  - rewrite (hashTypeFind_run zl ps f Hrep), Hps, find_at_flat_none by done. exists None. split; [done|]. by rewrite pmap_lookup_none.
  - destruct (texts_pair ps l1 f v l2 Hps) as (ps1 & e1 & e2 & ps2 & -> & H1 & He1 & He2 & H2).
    rewrite (hashTypeFind_pair zl ps1 e1 e2 ps2 f l1 l2) by done. rewrite bind_Some_eq, (Next_run zl ps1 e1 (e2 :: ps2) Hrep), bind_Some_eq.
    rewrite decide_False by done. cbn [is_Some]. rewrite bool_decide_true by by eexists.
    pose proof Hrep as Hrep2. replace (ps1 ++ e1 :: e2 :: ps2) with ((ps1 ++ [e1]) ++ e2 :: ps2) in Hrep2 by by rewrite <-app_assoc.
    rewrite (Get_run zl (ps1 ++ [e1]) e2 ps2 Hrep2), bind_Some_eq, bool_decide_true by by eexists.
    exists (Some (item_value (itm e2))). split; [done|]. rewrite pmap_lookup_some by done.
    pose proof (zl_rep_ok _ _ Hrep) as [_ [_ [He2ok _]%Forall_cons]%Forall_cons]%Forall_app.
    cbn. rewrite value_text_item by apply He2ok. rewrite He2. split; [done|].
    destruct (item_value_object e2 He2ok) as (o' & Ho' & Ht & Hok).
    { rewrite He2. apply Forall_app in Hlen as [_ [Hl _]%Forall_cons]. exact Hl. }
    split; [|exists o'; by rewrite Ht, He2]. intros n Hn'. destruct He2ok as (Hit & _ & _).
    destruct (itm e2) as [t|enc w|]; [done| |done]. injection Hn' as <-. by eapply num_ok_64.
Qed.

Lemma texts_ok zl l : zl_is zl l → ∃ ps, zl_rep zl ps ∧ texts ps = l.
Proof. intros (ps & Hrep & Hps). by exists ps. Qed.

(** Behind an entry whose length it records, a new value always has room: the
    defect of [ziplistInsert_short_unsafe] does not concern hashes. *)
Lemma fits_relink ps1 it ps2 : fits ps1 it (relink (last_len ps1) ps2).
Proof.
  destruct ps2 as [|n ps2]; [done|]. cbn [relink fits large]. intros Hw. rewrite pe_len_eq. cbn [large itm]. rewrite Hw.
  pose proof (item_head_length it). cbn [prev_size]. lia.
Qed.

Lemma relink_texts len ps : texts (relink len ps) = texts ps.
Proof. unfold texts. by rewrite relink_items. Qed.

Lemma cost_cons t l : cost (t :: l) = 18 + zlen t + cost l.
Proof. done. Qed.

Lemma SetZiplist_run zl kvs f v :
  zl_is zl (flat kvs) → NoDup kvs.*1 → robj_ok f → robj_ok v →
  11 + cost (flat kvs) + 36 + zlen (robj_text f) + zlen (robj_text v) < 2 ^ 32 →
  ∃ zl' kvs', hashTypeSetZiplist zl f v = Some (bool_decide (is_Some (pmap kvs !! robj_text f)), zl') ∧
    zl_is zl' (flat kvs') ∧ NoDup kvs'.*1 ∧ pmap kvs' = <[robj_text f := robj_text v]> (pmap kvs) ∧
    (kvs' = kvs ++ [(robj_text f, robj_text v)] ∨
     ∃ l1 w l2, kvs = l1 ++ (robj_text f, w) :: l2 ∧ kvs' = l1 ++ (robj_text f, robj_text v) :: l2).
Proof.
  intros (ps & Hrep & Hps) Hnd Hf Hv Hroom. change (item_text <$> items ps) with (texts ps) in Hps. unfold hashTypeSetZiplist.
  rewrite !getDecodedObject_run, !bind_Some_eq by done. set (tf := robj_text f) in *. set (tv := robj_text v) in *.
  pose proof (zl_rep_ok _ _ Hrep) as Hok.
  destruct (keys_split tf kvs) as [Hn|(l1 & w & l2 & -> & Hn)].
  - rewrite (hashTypeFind_run zl ps tf Hrep), Hps, find_at_flat_none by done. rewrite bind_Some_eq.
    change ZIPLIST_TAIL with (if false then ZIPLIST_HEAD else ZIPLIST_TAIL).
    destruct (Push_rep zl ps tf false Hrep) as (zl1 & -> & Hrep1); [apply room_cost; [done|rewrite Hps; lia]|]. rewrite bind_Some_eq.
    pose proof (insert_texts ps tf []) as Ht1. change (texts []) with (@nil bytes) in Ht1. rewrite Hps in Ht1.
    destruct (Push_rep zl1 _ tv false Hrep1) as (zl2 & -> & Hrep2).
    { apply room_cost; [by eapply zl_rep_ok|]. rewrite Ht1, cost_app. cbn [cost foldr]. lia. }
    rewrite bind_Some_eq, pmap_lookup_none by done. exists zl2, (kvs ++ [(tf, tv)]). split; [done|]. split.
    + apply (zl_is_intro _ _ _ Hrep2). rewrite insert_texts, Ht1, flat_app, <-app_assoc. done.
    + split; [|split; [by apply pmap_snoc|by left]]. rewrite fmap_app. apply NoDup_app. split; [done|]. split; [|apply NoDup_singleton].
      intros x Hx. cbn. rewrite list_elem_of_singleton. by intros ->.
  - destruct (texts_pair ps l1 tf w l2 Hps) as (ps1 & e1 & e2 & ps2 & -> & H1 & He1 & He2 & H2).
    rewrite (hashTypeFind_pair zl ps1 e1 e2 ps2 tf l1 l2) by done. rewrite bind_Some_eq, (Next_run zl ps1 e1 (e2 :: ps2) Hrep), bind_Some_eq.
    rewrite decide_False by done. rewrite bind_Some_eq.
    assert (11 + cost (texts (ps1 ++ e1 :: e2 :: ps2)) < 2 ^ 32) as Hc by (rewrite Hps; lia).
    pose proof Hrep as Hrep2. replace (ps1 ++ e1 :: e2 :: ps2) with ((ps1 ++ [e1]) ++ [e2] ++ ps2) in Hrep2 by by rewrite <-app_assoc.
    destruct (delete_rep zl (ps1 ++ [e1]) [e2] ps2 1 Hrep2) as (zl1 & Hdel & Hrep3); [done| |by left|].
    { apply room_cost; [by eapply zl_rep_ok|]. rewrite <-app_assoc. cbn [app]. lia. }
    unfold ziplistDelete. rewrite Hdel, !bind_Some_eq. unfold ziplistInsert, delete_entries in *.
    destruct (zl_insert_rep zl1 (ps1 ++ [e1]) (relink (last_len (ps1 ++ [e1])) ps2) tv Hrep3) as (zl2 & Hins & Hrep4).
    { apply room_cost; [by eapply zl_rep_ok|]. rewrite !texts_app, relink_texts, H1, H2, texts_cons, He1, !cost_app, cost_cons.
      rewrite flat_app, cost_app in Hroom. cbn [flat] in Hroom. rewrite !cost_cons in Hroom. change (cost (texts [])) with 0. lia. }
    { apply fits_relink. }
    rewrite Hins, bind_Some_eq, pmap_lookup_some by done. exists zl2, (l1 ++ (tf, tv) :: l2). split; [done|]. split.
    + apply (zl_is_intro _ _ _ Hrep4). by rewrite insert_texts, texts_app, relink_texts, flat_app, H1, H2, texts_cons, He1, <-app_assoc.
    + split; [by rewrite fmap_app in *|]. split; [by apply pmap_update|]. right. by exists l1, w, l2.
Qed.

Lemma DeleteZiplist_run zl kvs f :
  zl_is zl (flat kvs) → NoDup kvs.*1 → robj_ok f → 11 + cost (flat kvs) < 2 ^ 32 →
  ∃ zl' kvs', hashTypeDeleteZiplist zl f = Some (bool_decide (is_Some (pmap kvs !! robj_text f)), zl') ∧
    zl_is zl' (flat kvs') ∧ NoDup kvs'.*1 ∧ pmap kvs' = delete (robj_text f) (pmap kvs) ∧ sublist kvs' kvs.
Proof.
  intros Hzl Hnd Hf Hroom. destruct (texts_ok _ _ Hzl) as (ps & Hrep & Hps). unfold hashTypeDeleteZiplist.
  rewrite !getDecodedObject_run, !bind_Some_eq by done. set (tf := robj_text f) in *.
  destruct (keys_split tf kvs) as [Hn|(l1 & w & l2 & -> & Hn)].
  - rewrite (hashTypeFind_run zl ps tf Hrep), Hps, find_at_flat_none by done. rewrite bind_Some_eq, pmap_lookup_none by done.
    exists zl, kvs. split; [done|]. split; [done|]. split; [done|]. split; [|done]. by rewrite delete_id by by apply pmap_lookup_none.
  - destruct (texts_pair ps l1 tf w l2 Hps) as (ps1 & e1 & e2 & ps2 & -> & H1 & He1 & He2 & H2).
    rewrite (hashTypeFind_pair zl ps1 e1 e2 ps2 tf l1 l2) by done. rewrite bind_Some_eq.
    destruct (delete_rep zl ps1 [e1] (e2 :: ps2) 1 Hrep) as (zl1 & Hdel & Hrep1); [done| |by left|].
    { apply room_cost; [by eapply zl_rep_ok|]. cbn [app]. rewrite Hps. lia. }
    unfold ziplistDelete. rewrite Hdel, !bind_Some_eq.
    pose proof (delete_texts ps1 (e2 :: ps2)) as Ht1. unfold delete_entries in Ht1, Hrep1. cbn [relink] in Ht1, Hrep1.
    set (n' := PEntry _ _ _) in Ht1, Hrep1. set (qs := cascade _ ps2) in Ht1, Hrep1. cbv zeta in Ht1, Hrep1.
    destruct (delete_rep zl1 ps1 [n'] qs 1 Hrep1) as (zl2 & -> & Hrep2); [done| |by left|].
    { apply room_cost; [by eapply zl_rep_ok|]. cbn [app]. rewrite Ht1, H1, texts_cons, He2, H2, cost_app, cost_cons.
      rewrite flat_app, cost_app in Hroom. cbn [flat] in Hroom. rewrite !cost_cons in Hroom. lia. }
    rewrite !bind_Some_eq, pmap_lookup_some by done. exists zl2, (l1 ++ l2). split; [done|]. split.
    + apply (zl_is_intro _ _ _ Hrep2). rewrite delete_texts, flat_app, H1, <-H2. f_equal.
      unfold qs, texts. by rewrite cascade_items.
    + split; [|split; [by apply pmap_remove|apply sublist_app; [done|by apply sublist_cons]]].
      rewrite fmap_app in *. cbn in Hnd. apply NoDup_app in Hnd as (Ha & Hb & [_ Hc]%NoDup_cons). apply NoDup_app.
      split; [done|]. split; [set_solver|done].
Qed.
End ziplist.

(** ** The dictionary *)

Definition texts_short (kvs : pairs) : Prop := Forall (λ kv, zlen kv.1 < 2 ^ 31 ∧ zlen kv.2 < 2 ^ 31) kvs.

Section table.
Context {alloc : Allocator} {locs : EntryAllocator} (seed : Z).

(** The dictionary [d] of objects stands for the map [M] of texts. *)
Definition ht_rep (d : dict bytes robj) (M : gmap bytes bytes) : Prop :=
  ∃ D : gmap bytes robj, dict_wf (hashDictType seed) d ∧ dict_map d = Some <$> D ∧ M = robj_text <$> D ∧
    map_Forall (λ _ o, robj_ok o) D.

Lemma ht_rep_size d M : ht_rep d M → size (dict_map d) = size M.
Proof. intros (D & _ & -> & -> & _). by rewrite !map_size_fmap. Qed.

Lemma ht_rep_create : ht_rep dictCreate ∅.
Proof.
  exists ∅. split; [apply dictCreate_wf|]. split; [|by rewrite fmap_empty].
  rewrite fmap_empty. unfold dict_map, abs, contents. cbn. by rewrite fmap_empty, map_to_list_empty.
Qed.

Lemma ht_rep_insert d d' M k v :
  ht_rep d M → dict_wf (hashDictType seed) d' → dict_map d' = <[k := Some v]> (dict_map d) → robj_ok v →
  ht_rep d' (<[k := robj_text v]> M).
Proof.
  intros (D & _ & HD & -> & Hok) Hwf Heq Hv. exists (<[k := v]> D). split; [done|].
  rewrite Heq, HD, !fmap_insert. split; [done|]. split; [done|]. by apply map_Forall_insert_2.
Qed.

Lemma ht_rep_lookup d M k : ht_rep d M →
  (M !! k = None ∧ dict_map d !! k = None) ∨
  ∃ o, dict_map d !! k = Some (Some o) ∧ M !! k = Some (robj_text o) ∧ robj_ok o.
Proof.
  intros (D & _ & -> & -> & Hok). rewrite !lookup_fmap. destruct (D !! k) as [o|] eqn:E; [right|by left].
  exists o. split; [done|]. split; [done|]. by eapply Hok.
Qed.

Lemma ht_add g d M k v :
  ht_rep d M → M !! k = None → Z.of_nat (size M) < 2 ^ 30 → robj_ok v →
  ∃ d', dictAdd (hashDictType seed) g d k v = Some (DICT_OK, d') ∧ ht_rep d' (<[k := robj_text v]> M).
Proof.
  intros Hd Hk Hsz Hv. pose proof Hd as (D & Hwf & _).
  destruct (run_dop_spec (hashDictType seed) g (DAdd k v) d Hwf) as (r & d' & ev & Hrun & Hwf' & Hspec & _);
    [by rewrite (ht_rep_size d M Hd)|done|]. cbn [run_dop] in Hrun.
  destruct (dictAdd (hashDictType seed) g d k v) as [[r0 d0]|]; [|done]. rewrite bind_Some_eq in Hrun. injection Hrun as <- <-.
  exists d0. destruct (ht_rep_lookup d M k Hd) as [[_ Hn]|(o & _ & Ho & _)]; [|congruence].
  inversion Hspec as [? ? Hnone|? ? ? Hsome| | | | | | | | | | | | | | | ]; subst; [|congruence].
  split; [done|]. by eapply ht_rep_insert.
Qed.

Lemma ht_replace g d M k v :
  ht_rep d M → Z.of_nat (size M) < 2 ^ 30 → robj_ok v →
  ∃ r d', dictReplace (hashDictType seed) g d k v = Some (r, d') ∧ (r =? 0) = bool_decide (is_Some (M !! k)) ∧
    ht_rep d' (<[k := robj_text v]> M).
Proof.
  intros Hd Hsz Hv. pose proof Hd as (D & Hwf & _).
  destruct (run_dop_spec (hashDictType seed) g (DReplace k v) d Hwf) as (r & d' & ev & Hrun & Hwf' & Hspec & _);
    [by rewrite (ht_rep_size d M Hd)|done|]. cbn [run_dop] in Hrun.
  destruct (dictReplace (hashDictType seed) g d k v) as [[r0 d0]|]; [|done]. rewrite bind_Some_eq in Hrun. injection Hrun as <- <-.
  exists r0, d0. split; [done|]. inversion Hspec as [| | | |? ? Hnone|? ? ? Hsome| | | | | | | | | | | ]; subst.
  - destruct (ht_rep_lookup d M k Hd) as [[-> _]|(o & Ho & _)]; [|congruence]. split; [done|]. by eapply ht_rep_insert.
  - destruct (ht_rep_lookup d M k Hd) as [[_ Hn]|(o & _ & -> & _)]; [congruence|]. split; [done|]. by eapply ht_rep_insert.
Qed.

Lemma ht_rep_same d d' M : ht_rep d M → dict_wf (hashDictType seed) d' → same d d' → ht_rep d' M.
Proof. intros (D & _ & HD & HM & Hok) Hwf Hs. exists D. by rewrite (dict_map_same d d' Hs). Qed.

Lemma ht_delete g d M k :
  ht_rep d M → Z.of_nat (size M) < 2 ^ 30 →
  ∃ r d', dictDelete (hashDictType seed) g d k = Some (r, d') ∧ (r =? DICT_OK) = bool_decide (is_Some (M !! k)) ∧
    ht_rep d' (delete k M).
Proof.
  intros Hd Hsz. pose proof Hd as (D & Hwf & HD & HM & Hok).
  destruct (run_dop_spec (hashDictType seed) g (DDelete k false) d Hwf) as (r & d' & ev & Hrun & Hwf' & Hspec & _);
    [by rewrite (ht_rep_size d M Hd)|done|]. cbn [run_dop] in Hrun.
  destruct (dictDelete (hashDictType seed) g d k) as [[r0 d0]|]; [|done]. rewrite bind_Some_eq in Hrun. injection Hrun as <- <-.
  exists r0, d0. split; [done|]. inversion Hspec as [| | | | | | | |? ? Hnone|? ? ? Hsome| | | | | | | ]; subst.
  - destruct (ht_rep_lookup d _ k Hd) as [[-> _]|(o & Ho & _)]; [|congruence]. split; [done|].
    exists (delete k D). split; [done|]. rewrite !fmap_delete, <-HD. split; [|split; [done|by apply map_Forall_delete]].
    rewrite delete_id by done. congruence.
  - destruct (ht_rep_lookup d _ k Hd) as [[_ Hn]|(o & _ & -> & _)]; [congruence|]. split; [done|].
    exists (delete k D). split; [done|]. rewrite !fmap_delete, <-HD. split; [done|split; [done|by apply map_Forall_delete]].
Qed.

Lemma ht_resize g d M :
  ht_rep d M → Z.of_nat (size M) < 2 ^ 30 → ∃ r d', dictResize g d = Some (r, d') ∧ ht_rep d' M.
Proof.
  intros Hd Hsz. pose proof Hd as (D & Hwf & HD & HM & Hok).
  destruct (run_dop_spec (hashDictType seed) g DResize d Hwf) as (r & d' & ev & Hrun & Hwf' & Hspec & _);
    [by rewrite (ht_rep_size d M Hd)|done|]. cbn [run_dop] in Hrun.
  destruct (dictResize g d) as [[r0 d0]|]; [|done]. rewrite bind_Some_eq in Hrun. injection Hrun as <- <-.
  exists r0, d0. split; [done|]. exists D. split; [done|]. split; [|done]. rewrite <-HD. by inversion Hspec.
Qed.

Lemma ht_size d M : ht_rep d M → dictSize d = Z.of_nat (size M).
Proof.
  intros Hd. rewrite <-(ht_rep_size d M Hd). destruct Hd as (D & Hwf & _). rewrite (dict_map_size (hashDictType seed) d Hwf).
  destruct Hwf as (b0 & b1 & Hrep). by eapply dictSize_entries.
Qed.

Lemma GetFromHashTable_run g d M o :
  ht_rep d M → robj_ok o →
  ∃ v d', hashTypeGetFromHashTable seed g d o = Some (v, d') ∧ ht_rep d' M ∧ robj_text <$> v = M !! robj_text o ∧
    match v with Some v => robj_ok v | None => True end.
Proof.
  intros Hd Ho. pose proof Hd as (D & Hwf & _). unfold hashTypeGetFromHashTable.
  rewrite getDecodedObject_run, bind_Some_eq by done. set (k := robj_text o).
  destruct (dictFind_run (hashDictType seed) g d k Hwf) as (r & d' & -> & Hwf' & Hs & Hr). rewrite bind_Some_eq.
  pose proof (ht_rep_same d d' M Hd Hwf' Hs) as Hd'. destruct r as [p|].
  - destruct Hr as [v Hp]. pose proof (map_present (hashDictType seed) d k p v Hwf Hp) as Hm.
    destruct (ht_rep_lookup d M k Hd) as [[_ Hn]|(ov & Hov & HM & Hok)]; [congruence|]. rewrite Hm in Hov. injection Hov as ->.
    destruct Hs as [Hc _]. rewrite <-Hc, contents_lookup in Hp. destruct (dict_entries d' !! p) as [e|]; [|done].
    injection Hp as He1 He2. rewrite bind_Some_eq, He2, bind_Some_eq. exists (Some ov), d'. by rewrite HM.
  - pose proof (map_absent (hashDictType seed) d k Hwf Hr) as Hm.
    destruct (ht_rep_lookup d M k Hd) as [[HM _]|(ov & Hov & _)]; [|congruence]. exists None, d'. by rewrite HM.
Qed.
End table.
