(* ===== verification/HashTypeRefine.v ===== *)
(** * Hash objects refine finite maps

    Iteration and conversion of both encodings, and sequences of the operations
    of [t_hash.c] against a finite map from texts to texts. *)

From S2P Require Import Prelude Endian Util Glob Object Dict DictSpec DictMap DictScan Sds SdsText Rdb RdbFormat.
From S2P Require Import Ziplist ZiplistSpec ZiplistOps ZiplistUpdate ZiplistQuery ZiplistRefine HashType HashNumber HashTypeSpec.

#[local] Open Scope Z_scope.

Lemma list_two_ind {A} (P : list A → Prop) :
  P [] → (∀ x, P [x]) → (∀ x y l, P l → P (x :: y :: l)) → ∀ l, P l.
Proof.
  intros H0 H1 H2 l. enough (P l ∧ ∀ x, P (x :: l)) by tauto. induction l as [|y l [IH1 IH2]]; [done|]. split; [done|]. intros x. by apply H2.
Qed.

(** ** Iterating over a ziplist *)

Section iterating.
Context {host : Host} {alloc : Allocator} (addr : Z → Z).

(** The entries [ds] were passed. *)
Definition iter_at (ds : list pentry) (hi : hashTypeIterator) : Prop :=
  (ds = [] ∧ hi = IterZiplist None None) ∨
  ∃ ps e1 e2, ds = ps ++ [e1; e2] ∧ hi = IterZiplist (Some (off ps)) (Some (off (ps ++ [e1]))).

Lemma iter_cursor zl ds ps fptr vptr :
  zl_rep zl (ds ++ ps) → iter_at ds (IterZiplist fptr vptr) →
  match fptr with
  | None => check bool_decide (vptr = None) ;; ziplistIndex zl 0
  | Some _ => vptr ← vptr; ziplistNext zl vptr
  end = Some (if decide (ps = []) then None else Some (off ds)).
Proof.
  intros Hrep [[-> [= -> ->]]|(qs & e1 & e2 & -> & [= -> ->])].
  - cbn [app] in Hrep. rewrite bool_decide_true by done. rewrite (Index_run zl ps 0 Hrep). by destruct ps.
  - rewrite bind_Some_eq. replace ((qs ++ [e1; e2]) ++ ps) with ((qs ++ [e1]) ++ e2 :: ps) in Hrep by by rewrite <-!app_assoc.
    rewrite (Next_run zl (qs ++ [e1]) e2 ps Hrep). by rewrite <-app_assoc.
Qed.

Lemma iter_is_ziplist ds hi : iter_at ds hi → ∃ fptr vptr, hi = IterZiplist fptr vptr.
Proof. intros [[_ ->]|(? & ? & ? & _ & ->)]; eauto. Qed.

Lemma next_pair zl ds e1 e2 ps hi :
  zl_rep zl (ds ++ e1 :: e2 :: ps) → iter_at ds hi →
  hashTypeNext addr (HZiplist zl) hi = Some (true, HZiplist zl, IterZiplist (Some (off ds)) (Some (off (ds ++ [e1])))) ∧
  iter_at (ds ++ [e1; e2]) (IterZiplist (Some (off ds)) (Some (off (ds ++ [e1])))).
Proof.
  intros Hrep Hat. destruct (iter_is_ziplist _ _ Hat) as (fptr & vptr & ->). split; [|right; by exists ds, e1, e2].
  unfold hashTypeNext. rewrite (iter_cursor zl ds (e1 :: e2 :: ps)) by done. rewrite decide_False by done. rewrite bind_Some_eq.
  rewrite (Next_run zl ds e1 (e2 :: ps) Hrep), decide_False by done. rewrite bind_Some_eq, bool_decide_true by by eexists. done.
Qed.

Lemma next_end zl ds hi : zl_rep zl ds → iter_at ds hi → hashTypeNext addr (HZiplist zl) hi = Some (false, HZiplist zl, hi).
Proof.
  intros Hrep Hat. destruct (iter_is_ziplist _ _ Hat) as (fptr & vptr & ->). rewrite <-(app_nil_r ds) in Hrep.
  unfold hashTypeNext. by rewrite (iter_cursor zl ds []).
Qed.

(** The objects at the cursor. *)
Lemma current_pair zl ds e1 e2 ps (key : bool) :
  zl_rep zl (ds ++ e1 :: e2 :: ps) → zlen (item_text (itm (if key then e1 else e2))) < 2 ^ 31 →
  ∃ o, hashTypeCurrentObject (HZiplist zl) (IterZiplist (Some (off ds)) (Some (off (ds ++ [e1])))) key = Some o ∧
    robj_text o = item_text (itm (if key then e1 else e2)) ∧ robj_ok o.
Proof.
  intros Hrep Hl. pose proof (zl_rep_ok _ _ Hrep) as [_ [H1 [H2 _]%Forall_cons]%Forall_cons]%Forall_app.
  destruct (item_value_object (if key then e1 else e2)) as (o & Ho & Ht & Hok); [by destruct key|done|].
  exists o. split; [|done]. unfold hashTypeCurrentObject, hashTypeCurrentFromZiplist. destruct key.
  - rewrite (Get_run zl ds e1 (e2 :: ps) Hrep), !bind_Some_eq. exact Ho.
  - replace (ds ++ e1 :: e2 :: ps) with ((ds ++ [e1]) ++ e2 :: ps) in Hrep by by rewrite <-app_assoc.
    rewrite (Get_run zl (ds ++ [e1]) e2 ps Hrep), !bind_Some_eq. exact Ho.
Qed.

(** A pair of texts is two entries. *)
Lemma flat_cons_entries ps f v kvs :
  texts ps = flat ((f, v) :: kvs) →
  ∃ e1 e2 qs, ps = e1 :: e2 :: qs ∧ item_text (itm e1) = f ∧ item_text (itm e2) = v ∧ texts qs = flat kvs.
Proof.
  intros (ps1 & e1 & e2 & qs & -> & H1 & He1 & He2 & H2)%(texts_pair ps [] f v kvs).
  destruct ps1; [|done]. by exists e1, e2, qs.
Qed.
End iterating.

(** ** Conversion *)

Section conversion.
Context {host : Host} {alloc : Allocator} {locs : EntryAllocator} (seed : Z) (addr : Z → Z) (g : dictGlobals).

Lemma convert_run zl ds ps kvs hi d M fuel :
  zl_rep zl (ds ++ ps) → texts ps = flat kvs → iter_at ds hi → ht_rep seed d M →
  texts_short kvs → NoDup kvs.*1 → (∀ f, f ∈ kvs.*1 → M !! f = None) →
  Z.of_nat (size M) + zlen kvs < 2 ^ 30 → (length kvs < fuel)%nat →
  ∃ d', loop fuel (convert_body seed addr g zl) (hi, d) = Some d' ∧ ht_rep seed d' (pmap kvs ∪ M).
Proof.
  revert ds ps hi d M fuel. induction kvs as [|[f v] kvs IH]; intros ds ps hi d M fuel Hrep Hps Hat Hd Hshort Hnd Hnew Hsz Hfuel;
    (destruct fuel as [|fuel]; [simpl in Hfuel; lia|]); rewrite loop_S; cbn [convert_body].
  - destruct ps as [|e ps]; [|discriminate Hps]. rewrite app_nil_r in Hrep. rewrite (next_end addr zl ds hi Hrep Hat), bind_Some_eq.
    exists d. split; [done|]. unfold pmap. cbn. by rewrite (left_id_L ∅ (∪)).
  - destruct (flat_cons_entries ps f v kvs Hps) as (e1 & e2 & qs & -> & He1 & He2 & Hqs).
    destruct (next_pair addr zl ds e1 e2 qs hi Hrep Hat) as [-> Hat']. rewrite bind_Some_eq. cbn [negb].
    apply Forall_cons in Hshort as [[Hf Hv] Hshort]. cbn [fst snd] in Hf, Hv. cbn in Hnd. apply NoDup_cons in Hnd as [Hfn Hnd].
    destruct (current_pair zl ds e1 e2 qs true Hrep) as (fo & -> & Hfo & Hfok); [by rewrite He1|]. rewrite bind_Some_eq.
    destruct (tryObjectEncoding_text fo Hfok) as (fo' & -> & Hft & Hfok'). rewrite bind_Some_eq.
    destruct (current_pair zl ds e1 e2 qs false Hrep) as (vo & -> & Hvo & Hvok); [by rewrite He2|]. rewrite bind_Some_eq.
    destruct (tryObjectEncoding_text vo Hvok) as (vo' & -> & Hvt & Hvok').
    rewrite bind_Some_eq, getDecodedObject_run, bind_Some_eq by done. rewrite He1 in Hfo. rewrite He2 in Hvo.
    rewrite Hft, Hfo. cbn [length] in Hsz. assert (M !! f = None) as HM by (apply Hnew; cbn; left).
    destruct (ht_add seed g d M f vo' Hd HM) as (d1 & -> & Hd1); [lia|done|]. rewrite bind_Some_eq. rewrite Hvt, Hvo in Hd1.
    rewrite Z.eqb_refl.
    destruct (λ Hrep', IH (ds ++ [e1; e2]) qs _ d1 (<[f := v]> M) fuel Hrep' Hqs Hat' Hd1 Hshort Hnd) as (d' & Hloop & Hd').
    + by rewrite <-app_assoc.
    + intros x Hx. rewrite lookup_insert_ne by (intros ->; done). apply Hnew. cbn. by right.
    + rewrite map_size_insert_None by done. lia.
    + simpl in Hfuel. lia.
    + exists d'. split; [exact Hloop|]. change (pmap ((f, v) :: kvs)) with (<[f := v]> (pmap kvs)).
      rewrite <-insert_union_r in Hd' by by apply pmap_lookup_none. by rewrite <-insert_union_l.
Qed.

Lemma Convert_run zl kvs :
  zl_is zl (flat kvs) → NoDup kvs.*1 → texts_short kvs → zlen kvs < 2 ^ 30 →
  ∃ d, hashTypeConvert seed addr g (HZiplist zl) = Some (HTable d) ∧ ht_rep seed d (pmap kvs).
Proof.
  intros Hzl Hnd Hshort Hsz. destruct (texts_ok _ _ Hzl) as (ps & Hrep & Hps).
  destruct (convert_run zl [] ps kvs (IterZiplist None None) dictCreate ∅ (length zl)) as (d & Hd & Hrep');
    [done..|by left|apply ht_rep_create|done|done|done|rewrite map_size_empty; lia| |].
  - pose proof (flat_length kvs) as Hl. rewrite <-Hps, texts_length in Hl.
    destruct Hrep as (c & -> & _). pose proof (length_layout (off ps + 1) (tail_off ps) c ps).
    unfold off in *. pose proof (body_len_length ps). change ZIPLIST_HEADER_SIZE with 10 in *. lia.
  - exists d. unfold hashTypeConvert, hashTypeConvertZiplist. cbn [hashTypeInitIterator]. rewrite Hd, bind_Some_eq.
    rewrite (right_id_L ∅ (∪)) in Hrep'. done.
Qed.
End conversion.

(** ** Each operation *)

Section operations.
Context {host : Host} {alloc : Allocator} {locs : EntryAllocator}.
Context (seed : Z) (addr : Z → Z) (g : dictGlobals) (cfg : hash_config).

(** The length of a text kept in a ziplist: [tryConversion] looks at strings only, and a number has at most 21 characters. *)
Definition text_limit : Z := Z.max 21 (hash_max_ziplist_value cfg).

(** A ziplist of [hash_max_ziplist_entries] pairs, and one more, is within 4 GB. *)
Definition config_ok : Prop :=
  0 ≤ hash_max_ziplist_entries cfg ∧ 11 + (hash_max_ziplist_entries cfg + 1) * (36 + 2 * text_limit) < 2 ^ 32.

Definition within_limit (kvs : pairs) : Prop := Forall (λ kv, zlen kv.1 ≤ text_limit ∧ zlen kv.2 ≤ text_limit) kvs.

(** The hash [o] stands for the map [M]. *)
Definition hash_is (o : hash_robj) (M : gmap bytes bytes) : Prop :=
  match o with
  | HZiplist zl =>
    ∃ kvs, zl_is zl (flat kvs) ∧ NoDup kvs.*1 ∧ M = pmap kvs ∧ zlen kvs ≤ hash_max_ziplist_entries cfg ∧ within_limit kvs
  | HTable d => ht_rep seed d M
  end.

Context (Hcfg : config_ok).

Lemma text_limit_bounds : 21 ≤ text_limit < 2 ^ 31.
Proof. destruct Hcfg. unfold text_limit in *. nia. Qed.

Lemma cost_limit kvs : within_limit kvs → cost (flat kvs) ≤ zlen kvs * (36 + 2 * text_limit).
Proof.
  induction 1 as [|[f v] kvs [Hf Hv] Hl IH]; [done|]. cbn [flat length fst snd] in *. rewrite !cost_cons. lia.
Qed.

Lemma cost_room kvs :
  within_limit kvs → zlen kvs ≤ hash_max_ziplist_entries cfg → 11 + cost (flat kvs) + 36 + 2 * text_limit < 2 ^ 32.
Proof. intros Hl%cost_limit Hn. pose proof text_limit_bounds. destruct Hcfg. nia. Qed.

Lemma limit_short kvs : within_limit kvs → texts_short kvs.
Proof. intros Hl. eapply Forall_impl; [exact Hl|]. intros [f v] [Hf Hv]. cbn in *. pose proof text_limit_bounds. lia. Qed.

Lemma create_is : ∃ o, createHashObject = Some o ∧ hash_is o ∅.
Proof.
  destruct new_rep as (zl & Hnew & Hrep). exists (HZiplist zl). unfold createHashObject. rewrite Hnew. split; [done|].
  exists []. split; [by exists []|]. split; [apply NoDup_nil_2|]. split; [done|]. split; [apply Hcfg|constructor].
Qed.

Lemma too_long_limit o : robj_ok o → too_long cfg o = false → zlen (robj_text o) ≤ text_limit.
Proof. intros Ho. unfold text_limit. destruct o as [s|n]; cbn; [lia|]. pose proof (length_dec_signed n Ho). lia. Qed.

Lemma convert_is zl M :
  hash_is (HZiplist zl) M → Z.of_nat (size M) < 2 ^ 30 →
  ∃ d, hashTypeConvert seed addr g (HZiplist zl) = Some (HTable d) ∧ ht_rep seed d M.
Proof.
  intros (kvs & Hzl & Hnd & -> & _ & Hl) Hsz. rewrite pmap_size in Hsz by done.
  apply (Convert_run seed addr g zl kvs Hzl Hnd (limit_short _ Hl)). lia.
Qed.

Definition is_table (o : hash_robj) : bool := match o with HTable _ => true | HZiplist _ => false end.

(** A ziplist takes these objects. *)
Definition limited (o : hash_robj) (argv : list robj) : Prop :=
  match o with HZiplist _ => Forall (λ a, zlen (robj_text a) ≤ text_limit) argv | HTable _ => True end.

Lemma TryConversion_is o M argv :
  hash_is o M → Forall robj_ok argv → Z.of_nat (size M) < 2 ^ 30 →
  ∃ o', hashTypeTryConversion seed addr g cfg o argv = Some o' ∧ hash_is o' M ∧ limited o' argv ∧
    is_table o' = is_table o || existsb (too_long cfg) argv.
Proof.
  intros Ho Hargs Hsz. unfold hashTypeTryConversion. destruct o as [zl|d]; [|by exists (HTable d)].
  destruct (existsb (too_long cfg) argv) eqn:E.
  - destruct (convert_is zl M Ho Hsz) as (d & -> & Hd). by exists (HTable d).
  - exists (HZiplist zl). split; [done|]. split; [done|]. split; [|done]. clear Ho. cbn [limited]. induction Hargs as [|a argv Ha Hargs IH]; [done|].
    cbn in E. apply orb_false_iff in E as [E1 E2]. constructor; [by apply too_long_limit|by apply IH].
Qed.

Lemma TryObjectEncoding_is o a :
  robj_ok a → ∃ a', hashTypeTryObjectEncoding o a = Some a' ∧ robj_text a' = robj_text a ∧ robj_ok a'.
Proof. intros Ha. destruct o as [zl|d]; [by exists a|]. by apply tryObjectEncoding_text. Qed.

Lemma within_limit_values kvs : within_limit kvs → Forall (λ kv : bytes * bytes, zlen kv.2 < 2 ^ 31) kvs.
Proof. intros Hl. eapply Forall_impl; [apply (limit_short _ Hl)|]. by intros kv [_ ?]. Qed.

Lemma GetObject_is o M f :
  hash_is o M → robj_ok f →
  ∃ v o', hashTypeGetObject seed g o f = Some (v, o') ∧ hash_is o' M ∧ robj_text <$> v = M !! robj_text f ∧
    match v with Some v => robj_ok v | None => True end ∧ is_table o' = is_table o.
Proof.
  intros Ho Hf. unfold hashTypeGetObject. destruct o as [zl|d].
  - pose proof Ho as (kvs & Hzl & Hnd & -> & _ & Hl).
    destruct (GetFromZiplist_run zl kvs f Hzl Hnd Hf (within_limit_values _ Hl)) as (r & -> & <- & Hr). rewrite bind_Some_eq.
    destruct r as [v|]; [|by exists None, (HZiplist zl)]. destruct Hr as (_ & o & -> & Ht & Hok).
    exists (Some o), (HZiplist zl). split; [done|]. split; [done|]. split; [|done]. cbn. by rewrite Ht.
  - destruct (GetFromHashTable_run seed g d M f Ho Hf) as (v & d' & -> & Hd' & Hv & Hok). by exists v, (HTable d').
Qed.

Lemma Exists_is o M f :
  hash_is o M → robj_ok f →
  ∃ o', hashTypeExists seed g o f = Some (bool_decide (is_Some (M !! robj_text f)), o') ∧ hash_is o' M ∧
    (∀ argv, limited o argv → limited o' argv) ∧ is_table o' = is_table o.
Proof.
  intros Ho Hf. unfold hashTypeExists. destruct o as [zl|d].
  - pose proof Ho as (kvs & Hzl & Hnd & -> & _ & Hl).
    destruct (GetFromZiplist_run zl kvs f Hzl Hnd Hf (within_limit_values _ Hl)) as (r & -> & <- & Hr). rewrite bind_Some_eq.
    exists (HZiplist zl). split; [by destruct r|done].
  - destruct (GetFromHashTable_run seed g d M f Ho Hf) as (v & d' & -> & Hd' & Hv & _). exists (HTable d').
    rewrite bind_Some_eq, <-Hv. split; [by destruct v|done].
Qed.

(** [hashTypeLength], also of a ziplist that is about to be converted. *)
Lemma Len_is zl kvs :
  zl_is zl (flat kvs) → ∃ zl', hashTypeLength (HZiplist zl) = Some (zlen kvs, HZiplist zl') ∧ zl_is zl' (flat kvs).
Proof.
  intros (ps & Hrep & Hps)%texts_ok. unfold hashTypeLength. destruct (Len_run zl ps Hrep) as (zl' & -> & Hrep').
  exists zl'. split; [|by exists ps]. rewrite bind_Some_eq. do 2 f_equal.
  rewrite <-(texts_length ps), Hps, flat_length, Nat2Z.inj_mul, Z.mul_comm. by apply Z.div_mul.
Qed.

Lemma Length_is o M :
  hash_is o M → ∃ o', hashTypeLength o = Some (Z.of_nat (size M), o') ∧ hash_is o' M ∧ is_table o' = is_table o.
Proof.
  intros Ho. destruct o as [zl|d].
  - destruct Ho as (kvs & Hzl & Hnd & -> & Hn & Hl). destruct (Len_is zl kvs Hzl) as (zl' & -> & Hzl').
    exists (HZiplist zl'). rewrite pmap_size by done. split; [done|]. split; [|done]. by exists kvs.
  - exists (HTable d). unfold hashTypeLength. by rewrite (ht_size seed d M Ho).
Qed.

(** More pairs than a ziplist is meant for. *)
Definition grown (M : gmap bytes bytes) : bool := Z.of_nat (size M) >? hash_max_ziplist_entries cfg.

(** Either the field is new or its value is replaced. *)
Lemma Set_is o M f v :
  hash_is o M → robj_ok f → robj_ok v → Z.of_nat (size M) < 2 ^ 30 - 1 →
  limited o [f; v] →
  ∃ o', hashTypeSet seed addr g cfg o f v = Some (bool_decide (is_Some (M !! robj_text f)), o') ∧
    hash_is o' (<[robj_text f := robj_text v]> M) ∧ is_table o' = is_table o || grown (<[robj_text f := robj_text v]> M).
Proof.
  intros Ho Hf Hv Hsz Hlim. unfold hashTypeSet. destruct o as [zl|d].
  - destruct Ho as (kvs & Hzl & Hnd & -> & Hn & Hl). apply Forall_cons in Hlim as [Hlf [Hlv _]%Forall_cons]. pose proof (cost_room kvs Hl Hn).
    destruct (SetZiplist_run zl kvs f v Hzl Hnd Hf Hv) as (zl' & kvs' & -> & Hzl' & Hnd' & HM & Hkvs); [lia|]. rewrite bind_Some_eq.
    destruct (Len_is zl' kvs' Hzl') as (zl2 & -> & Hzl2). rewrite bind_Some_eq, <-HM.
    assert (within_limit kvs' ∧ zlen kvs' ≤ zlen kvs + 1) as [Hl' Hlen].
    { unfold within_limit in *. destruct Hkvs as [->|(l1 & w & l2 & -> & ->)].
      - rewrite length_app. split; [|cbn; lia]. apply Forall_app. split; [done|]. by constructor.
      - rewrite !length_app. split; [|cbn; lia]. apply Forall_app in Hl as [? [_ ?]%Forall_cons]. apply Forall_app. split; [done|]. by constructor. }
    pose proof (pmap_size kvs Hnd) as Hs. unfold grown. rewrite pmap_size by done.
    destruct (zlen kvs' >? _) eqn:E; [|exists (HZiplist zl2); split; [done|]; split; [|done]; exists kvs'; repeat split; done || lia].
    destruct (Convert_run seed addr g zl2 kvs' Hzl2 Hnd' (limit_short _ Hl')) as (d & -> & Hd); [lia|]. by exists (HTable d).
  - rewrite getDecodedObject_run, bind_Some_eq by done.
    destruct (ht_replace seed g d M (robj_text f) v Ho) as (r & d' & -> & Hr & Hd'); [lia|done|].
    exists (HTable d'). by rewrite bind_Some_eq, Hr.
Qed.

Lemma Delete_is o M f :
  hash_is o M → robj_ok f → Z.of_nat (size M) < 2 ^ 30 →
  ∃ o', hashTypeDelete seed g o f = Some (bool_decide (is_Some (M !! robj_text f)), o') ∧
    hash_is o' (delete (robj_text f) M) ∧ is_table o' = is_table o.
Proof.
  intros Ho Hf Hsz. unfold hashTypeDelete. destruct o as [zl|d].
  - destruct Ho as (kvs & Hzl & Hnd & -> & Hn & Hl). pose proof (cost_room kvs Hl Hn). pose proof text_limit_bounds.
    destruct (DeleteZiplist_run zl kvs f Hzl Hnd Hf) as (zl' & kvs' & -> & Hzl' & Hnd' & HM & Hsub); [lia|]. rewrite bind_Some_eq.
    exists (HZiplist zl'). split; [done|]. split; [|done]. exists kvs'. pose proof (sublist_length _ _ Hsub).
    split; [done|]. split; [done|]. split; [done|]. split; [lia|].
    clear -Hsub Hl. induction Hsub as [|kv l1 l2 _ IH|kv l1 l2 _ IH]; [done|..]; apply Forall_cons in Hl as [Hkv Hl].
    + constructor; [done|by apply IH].
    + by apply IH.
  - rewrite getDecodedObject_run, bind_Some_eq by done. set (k := robj_text f).
    destruct (ht_delete seed g d M k Ho Hsz) as (r & d' & -> & Hr & Hd'). rewrite bind_Some_eq, Hr.
    case_bool_decide; [|by exists (HTable d')]. destruct (htNeedsResize d'); [|by exists (HTable d')].
    destruct (ht_resize seed g d' (delete k M) Hd') as (r2 & d2 & -> & Hd2); [|by exists (HTable d2)].
    assert (size (delete k M) ≤ size M)%nat by (rewrite map_size_delete; case_match; [apply Nat.le_pred_l|done]). lia.
Qed.

(** ** Commands *)

Lemma limited_text o argv argv' : robj_text <$> argv = robj_text <$> argv' → limited o argv → limited o argv'.
Proof.
  intros Heq. destruct o as [zl|d]; [|done]. cbn [limited]. set (P (t : bytes) := zlen t ≤ text_limit).
  change (Forall (P ∘ robj_text) argv → Forall (P ∘ robj_text) argv'). by rewrite <-!Forall_fmap, Heq.
Qed.

(** Encoding the two objects and setting them. *)
Lemma encode_set o M f v :
  hash_is o M → robj_ok f → robj_ok v → Z.of_nat (size M) < 2 ^ 30 - 1 → limited o [f; v] →
  ∃ o', (∀ B (k : bool * hash_robj → option B),
      (f ← hashTypeTryObjectEncoding o f; v ← hashTypeTryObjectEncoding o v; x ← hashTypeSet seed addr g cfg o f v; k x) =
      k (bool_decide (is_Some (M !! robj_text f)), o')) ∧
    hash_is o' (<[robj_text f := robj_text v]> M) ∧ is_table o' = is_table o || grown (<[robj_text f := robj_text v]> M).
Proof.
  intros Ho Hf Hv Hsz Hlim. destruct (TryObjectEncoding_is o f Hf) as (f' & -> & Hft & Hf').
  destruct (TryObjectEncoding_is o v Hv) as (v' & -> & Hvt & Hv'). rewrite <-Hft, <-Hvt.
  destruct (Set_is o M f' v') as (o' & Hset & Ho'); [done..|eapply limited_text; [|done]; cbn; by rewrite Hft, Hvt|].
  exists o'. split; [|done]. intros B k. by rewrite !bind_Some_eq, Hset.
Qed.

Lemma bool_decide_new {A} (x : option A) : negb (bool_decide (is_Some x)) = bool_decide (x = None).
Proof. by destruct x. Qed.

Lemma hset_is o M f v :
  hash_is o M → robj_ok f → robj_ok v → Z.of_nat (size M) < 2 ^ 30 - 1 →
  ∃ o', hset seed addr g cfg o f v = Some (bool_decide (M !! robj_text f = None), o') ∧
    hash_is o' (<[robj_text f := robj_text v]> M) ∧
    is_table o' = is_table o || existsb (too_long cfg) [f; v] || grown (<[robj_text f := robj_text v]> M).
Proof.
  intros Ho Hf Hv Hsz. unfold hset. destruct (TryConversion_is o M [f; v] Ho) as (o1 & -> & Ho1 & Hlim & <-); [by repeat constructor|lia|].
  rewrite bind_Some_eq. destruct (encode_set o1 M f v Ho1 Hf Hv Hsz Hlim) as (o2 & Hset & Ho2). exists o2. split; [|done].
  etransitivity; [apply Hset|]. by rewrite bool_decide_new.
Qed.

(** [M] with the field if it is new. *)
Definition insert_new (f v : bytes) (M : gmap bytes bytes) : gmap bytes bytes := if decide (M !! f = None) then <[f := v]> M else M.

Lemma grown_ziplist zl M : hash_is (HZiplist zl) M → grown M = false.
Proof. intros (kvs & _ & Hnd & -> & Hn & _). unfold grown. rewrite pmap_size by done. lia. Qed.

Lemma grown_table o M : hash_is o M → is_table o = is_table o || grown M.
Proof. intros Ho. destruct o as [zl|d]; [|done]. by rewrite (grown_ziplist zl M Ho). Qed.

Lemma hsetnx_is o M f v :
  hash_is o M → robj_ok f → robj_ok v → Z.of_nat (size M) < 2 ^ 30 - 1 →
  ∃ o', hsetnx seed addr g cfg o f v = Some (bool_decide (M !! robj_text f = None), o') ∧
    hash_is o' (insert_new (robj_text f) (robj_text v) M) ∧
    is_table o' = is_table o || existsb (too_long cfg) [f; v] || grown (insert_new (robj_text f) (robj_text v) M).
Proof.
  intros Ho Hf Hv Hsz. unfold hsetnx. destruct (TryConversion_is o M [f; v] Ho) as (o1 & -> & Ho1 & Hlim & <-); [by repeat constructor|lia|].
  rewrite bind_Some_eq. destruct (Exists_is o1 M f Ho1 Hf) as (o2 & -> & Ho2 & Hlim2 & <-). rewrite bind_Some_eq. unfold insert_new.
  destruct (M !! robj_text f) as [w|] eqn:E.
  { rewrite bool_decide_true by by eexists. exists o2. split; [done|]. split; [done|]. by apply grown_table. }
  rewrite bool_decide_false by by intros [? ?]. destruct (encode_set o2 M f v Ho2 Hf Hv Hsz (Hlim2 _ Hlim)) as (o3 & Hset & Ho3).
  exists o3. split; [|done]. etransitivity; [apply Hset|]. done.
Qed.

(** HMSET *)
Fixpoint set_pairs (M : gmap bytes bytes) (argv : list robj) : gmap bytes bytes :=
  match argv with f :: v :: argv => set_pairs (<[robj_text f := robj_text v]> M) argv | _ => M end.

Lemma size_insert_le (M : gmap bytes bytes) f v : (size M ≤ size (<[f := v]> M) ≤ S (size M))%nat.
Proof. rewrite map_size_insert. case_match; simpl; split; try done; apply Nat.le_succ_diag_r. Qed.

Lemma size_set_pairs M argv : (size M ≤ size (set_pairs M argv) ≤ size M + length argv)%nat.
Proof.
  revert M. induction argv as [|x|f v argv IH] using list_two_ind; intros M; [cbn; lia..|]. cbn [set_pairs length].
  specialize (IH (<[robj_text f := robj_text v]> M)). pose proof (size_insert_le M (robj_text f) (robj_text v)). lia.
Qed.

Lemma grown_mono (M1 M2 : gmap bytes bytes) : (size M1 ≤ size M2)%nat → grown M1 || grown M2 = grown M2.
Proof. unfold grown. lia. Qed.

Lemma limited_keep o o' b argv : limited o argv → is_table o' = is_table o || b → limited o' argv.
Proof. destruct o, o'; done. Qed.

Lemma limited_app o l1 l2 : limited o (l1 ++ l2) → limited o l1 ∧ limited o l2.
Proof. destruct o as [zl|d]; [|done]. apply Forall_app. Qed.

Lemma hmset_loop_is o M argv :
  hash_is o M → Forall robj_ok argv → Z.of_nat (size M) + zlen argv < 2 ^ 30 - 1 → limited o argv →
  ∃ o', hmset_loop seed addr g cfg o argv = Some o' ∧ hash_is o' (set_pairs M argv) ∧
    is_table o' = is_table o || grown (set_pairs M argv).
Proof.
  revert o M. induction argv as [|x|f v argv IH] using list_two_ind; intros o M Ho Hok Hsz Hlim;
    [exists o; by split_and!; [..|apply grown_table]..|].
  apply Forall_cons in Hok as [Hf [Hv Hok]%Forall_cons]. cbn [length] in Hsz. cbn [hmset_loop set_pairs].
  destruct (limited_app o [f; v] argv Hlim) as [Hlim1 Hlim2].
  destruct (encode_set o M f v Ho Hf Hv) as (o1 & Hset & Ho1 & Ht1); [lia|done|].
  pose proof (size_insert_le M (robj_text f) (robj_text v)).
  destruct (IH o1 _ Ho1 Hok) as (o2 & Hloop & Ho2 & Ht2); [lia|by eapply limited_keep|].
  exists o2. split; [etransitivity; [apply Hset|]; exact Hloop|]. split; [done|]. rewrite Ht2, Ht1, <-orb_assoc. f_equal.
  apply grown_mono, size_set_pairs.
Qed.

Lemma hmset_is o M argv :
  hash_is o M → Forall robj_ok argv → Z.of_nat (size M) + zlen argv < 2 ^ 30 - 1 →
  ∃ o', hmset seed addr g cfg o argv = Some (Z.even (zlen argv), o') ∧
    hash_is o' (if Z.even (zlen argv) then set_pairs M argv else M) ∧
    is_table o' = is_table o || (Z.even (zlen argv) && existsb (too_long cfg) argv) ||
      grown (if Z.even (zlen argv) then set_pairs M argv else M).
Proof.
  intros Ho Hok Hsz. unfold hmset. replace ((2 + zlen argv) mod 2) with (zlen argv mod 2) by (rewrite Zplus_mod, Z_mod_same_full, Z.add_0_l, Zmod_mod; done).
  rewrite Zmod_even. destruct (Z.even (zlen argv)); cbn [Z.eqb Pos.eqb andb].
  - destruct (TryConversion_is o M argv Ho Hok) as (o1 & -> & Ho1 & Hlim & <-); [lia|]. rewrite bind_Some_eq.
    destruct (hmset_loop_is o1 M argv Ho1 Hok Hsz Hlim) as (o2 & -> & Ho2). by exists o2.
  - exists o. rewrite orb_false_r. by split_and!; [..|apply grown_table].
Qed.

(** HINCRBY *)
Definition incr_result (M : gmap bytes bytes) (f i : bytes) : hincrby_reply * gmap bytes bytes :=
  match number_of i, default (Some 0) (number_of <$> M !! f) with
  | None, _ => (NotANumber, M)
  | _, None => (NotAnInteger, M)
  | Some n, Some v =>
    if bool_decide (in_s 64 (v + n)) then (Incremented (v + n), <[f := dec_signed (v + n)]> M) else (WouldOverflow, M)
  end.

(** The test does not overflow itself, and finds exactly the sums out of range. *)
Lemma overflow_test v n :
  in_s 64 v → in_s 64 n →
  ((n <? 0) && (v <? 0) && (n <? s64 (LLONG_MIN - v))) || ((n >? 0) && (v >? 0) && (n >? s64 (LLONG_MAX - v))) =
  negb (bool_decide (in_s 64 (v + n))).
Proof.
  intros Hv Hn. change (in_s 64 (v + n)) with (- 2 ^ 63 ≤ v + n < 2 ^ 63). unfold in_s in Hv, Hn. simpl in Hv, Hn.
  assert ((v <? 0) = true → s64 (LLONG_MIN - v) = LLONG_MIN - v) as H1
    by (intros; apply swrap_small; unfold LLONG_MIN, in_s; simpl; lia).
  assert ((v >? 0) = true → s64 (LLONG_MAX - v) = LLONG_MAX - v) as H2
    by (intros; apply swrap_small; unfold LLONG_MAX, in_s; simpl; lia).
  unfold LLONG_MIN, LLONG_MAX in *. destruct (v <? 0) eqn:E1, (v >? 0) eqn:E2; try rewrite H1 by done; try rewrite H2 by done;
    case_bool_decide; lia.
Qed.

Lemma TryObjectEncoding_limited o a a' : robj_text a' = robj_text a → limited o [a] → limited o [a'].
Proof. intros Ht. apply limited_text. cbn. by rewrite Ht. Qed.

Lemma hincrby_is o M f i :
  hash_is o M → robj_ok f → robj_ok i → Z.of_nat (size M) < 2 ^ 30 - 1 → limited o [f] →
  ∃ o', hincrby seed addr g cfg o f i = Some ((incr_result M (robj_text f) (robj_text i)).1, o') ∧
    hash_is o' (incr_result M (robj_text f) (robj_text i)).2 ∧
    is_table o' = is_table o || grown (incr_result M (robj_text f) (robj_text i)).2.
Proof.
  intros Ho Hf Hi Hsz Hlim. unfold hincrby, incr_result. rewrite getLongLongFromObject_run, bind_Some_eq by done.
  destruct (number_of (robj_text i)) as [n|] eqn:En; [|exists o; by split_and!; [..|apply grown_table]].
  destruct (GetObject_is o M f Ho Hf) as (cur & o1 & -> & Ho1 & <- & Hcur & Ht1). rewrite bind_Some_eq.
  assert (match cur with Some current => getLongLongFromObject current | None => Some (Some 0) end =
    Some (default (Some 0) (number_of <$> (robj_text <$> cur)))) as ->.
  { destruct cur as [c|]; [|done]. by apply getLongLongFromObject_run. }
  rewrite bind_Some_eq. destruct (default _ _) as [v|] eqn:Ev; [|exists o1; split_and!; [done..|rewrite <-Ht1; by apply grown_table]].
  assert (in_s 64 v) as Hv.
  { destruct cur; [exact (number_of_range _ _ Ev)|]. injection Ev as <-. split; done. }
  rewrite (overflow_test v n Hv) by by eapply number_of_range. case_bool_decide as Hin; cbn [negb fst snd];
    [|exists o1; split_and!; [done..|rewrite <-Ht1; by apply grown_table]].
  assert (s64 (v + n) = v + n) as -> by (by apply swrap_small).
  rewrite (ll_object (v + n) Hin), bind_Some_eq. destruct (TryObjectEncoding_is o1 f Hf) as (f' & -> & Hft & Hf'). rewrite bind_Some_eq, <-Hft.
  destruct (Set_is o1 M f' (IntObj (v + n)) Ho1 Hf' Hin Hsz) as (o2 & -> & Ho2 & Ht2); [|rewrite bind_Some_eq, <-Ht1; by exists o2].
  apply (limited_keep o o1 false); [|by rewrite orb_false_r]. apply (limited_text o [f; IntObj (v + n)]); [cbn; by rewrite Hft|].
  destruct o as [zl|d]; [|done]. apply Forall_cons in Hlim as [Hlf _]. repeat constructor; [done|]. cbn.
  pose proof (length_dec_signed (v + n) Hin). pose proof text_limit_bounds. lia.
Qed.

(** HMGET *)
Lemma FieldToReply_is o M f :
  hash_is o M → robj_ok f →
  ∃ o', addHashFieldToReply seed g o f = Some (M !! robj_text f, o') ∧ hash_is o' M ∧ is_table o' = is_table o.
Proof.
  intros Ho Hf. unfold addHashFieldToReply. destruct o as [zl|d].
  - pose proof Ho as (kvs & Hzl & Hnd & -> & _ & Hl).
    destruct (GetFromZiplist_run zl kvs f Hzl Hnd Hf (within_limit_values _ Hl)) as (r & -> & <- & Hr). rewrite bind_Some_eq.
    destruct r as [v|]; [|by exists (HZiplist zl)]. destruct Hr as [Hn _]. rewrite (bulk_of_value_run v Hn), bind_Some_eq. by exists (HZiplist zl).
  - destruct (GetFromHashTable_run seed g d M f Ho Hf) as (v & d' & -> & Hd' & <- & Hok). rewrite bind_Some_eq.
    destruct v as [v|]; [rewrite getDecodedObject_run, bind_Some_eq by done|]; by exists (HTable d').
Qed.

Lemma hmget_is o M fs :
  hash_is o M → Forall robj_ok fs →
  ∃ o', hmget seed g o fs = Some ((λ f, M !! robj_text f) <$> fs, o') ∧ hash_is o' M ∧ is_table o' = is_table o.
Proof.
  intros Ho Hok. revert o Ho. induction Hok as [|f fs Hf Hfs IH]; intros o Ho; [by exists o|]. cbn [hmget].
  destruct (FieldToReply_is o M f Ho Hf) as (o1 & -> & Ho1 & <-). rewrite bind_Some_eq.
  destruct (IH o1 Ho1) as (o2 & -> & Ho2 & <-). rewrite bind_Some_eq. by exists o2.
Qed.

(** HDEL *)
Definition delete_all (M : gmap bytes bytes) (fs : list robj) : gmap bytes bytes := foldl (λ M f, delete (robj_text f) M) M fs.

Lemma delete_all_size M fs : (size (delete_all M fs) ≤ size M)%nat.
Proof.
  revert M. induction fs as [|f fs IH]; intros M; [done|]. cbn. etransitivity; [apply IH|]. rewrite map_size_delete.
  case_match; [apply Nat.le_pred_l|done].
Qed.

Lemma hdel_loop_is o M fs n :
  hash_is o M → Forall robj_ok fs → Z.of_nat (size M) < 2 ^ 30 →
  ∃ o', hdel_loop seed g o fs n =
      Some (n + (Z.of_nat (size M) - Z.of_nat (size (delete_all M fs))), bool_decide (M ≠ ∅ ∧ delete_all M fs = ∅), o') ∧
    hash_is o' (delete_all M fs) ∧ is_table o' = is_table o.
Proof.
  intros Ho Hok. revert o M n Ho. induction Hok as [|f fs Hf Hfs IH]; intros o M n Ho Hsz.
  { exists o. split; [|done]. cbn. rewrite bool_decide_false by naive_solver. do 3 f_equal. lia. }
  cbn [hdel_loop]. destruct (Delete_is o M f Ho Hf Hsz) as (o1 & -> & Ho1 & Ht1). rewrite bind_Some_eq.
  change (delete_all M (f :: fs)) with (delete_all (delete (robj_text f) M) fs). set (M1 := delete (robj_text f) M) in *.
  pose proof (map_size_delete (robj_text f) M) as Hs. fold M1 in Hs. destruct (M !! robj_text f) as [v|] eqn:E.
  2:{ assert (M1 = M) as -> by by apply delete_id. rewrite bool_decide_false by by intros [? ?].
      rewrite <-Ht1. by apply IH. }
  assert (M ≠ ∅) as HM by (intros ->; done). assert (size M ≠ 0%nat) as Hn0 by (rewrite map_size_ne_0_lookup; by exists (robj_text f), v).
  rewrite bool_decide_true by by eexists. destruct (Length_is o1 M1 Ho1) as (o2 & -> & Ho2 & Ht2). rewrite bind_Some_eq.
  assert (Z.of_nat (size M) = Z.of_nat (size M1) + 1) as Hs1 by lia. destruct (Z.eqb_spec (Z.of_nat (size M1)) 0) as [H0|H0].
  - assert (M1 = ∅) as HM1 by (apply map_size_empty_inv; lia). exists o2. rewrite HM1 in *.
    assert (delete_all ∅ fs = ∅) as -> by (clear; induction fs as [|f fs IH]; [done|]; cbn; by rewrite delete_empty).
    rewrite bool_decide_true by done. split; [do 3 f_equal; lia|]. by rewrite Ht2.
  - assert (M1 ≠ ∅) as HM1 by (intros HM1; rewrite HM1 in H0; done).
    destruct (IH o2 M1 (n + 1) Ho2) as (o3 & -> & Ho3 & Ht3); [lia|]. exists o3. split; [|by rewrite Ht3, Ht2].
    do 2 f_equal; [f_equal; [lia|]]. apply bool_decide_ext. tauto.
Qed.
End operations.

(** ** All pairs *)

(** What is sent of a pair. *)
Definition sent (keys values : bool) (kv : bytes * bytes) : list bytes :=
  (if keys then [kv.1] else []) ++ (if values then [kv.2] else []).

Section getall.
Context {host : Host} {alloc : Allocator} {locs : EntryAllocator}.
Context (seed : Z) (addr : Z → Z) (keys values : bool).

(** One round of the loop at a pair. *)
Lemma getall_step o hi o' hi' k v out :
  hashTypeNext addr o hi = Some (true, o', hi') →
  addHashIteratorCursorToReply o' hi' true = Some k → addHashIteratorCursorToReply o' hi' false = Some v →
  getall_body addr keys values (o, hi, out) = Some (inl (o', hi', reverse (sent keys values (k, v)) ++ out)).
Proof. intros Hn Hk Hv. unfold getall_body. rewrite Hn, bind_Some_eq. cbn [negb]. rewrite Hk, Hv. by destruct keys, values. Qed.

Lemma cursor_ziplist_run zl ds e1 e2 ps (key : bool) :
  zl_rep zl (ds ++ e1 :: e2 :: ps) →
  addHashIteratorCursorToReply (HZiplist zl) (IterZiplist (Some (off ds)) (Some (off (ds ++ [e1])))) key =
  Some (item_text (itm (if key then e1 else e2))).
Proof.
  intros Hrep. pose proof (zl_rep_ok _ _ Hrep) as [_ [[H1 _] [[H2 _] _]%Forall_cons]%Forall_cons]%Forall_app.
  assert (∀ it, item_ok it → bulk_of_value (item_value it) = Some (item_text it)) as Hb.
  { intros it Hit. rewrite <-(value_text_item it Hit). apply bulk_of_value_run. intros n Hn.
    destruct it as [t|enc w|]; [done| |done]. injection Hn as <-. by eapply num_ok_64. }
  unfold addHashIteratorCursorToReply, hashTypeCurrentFromZiplist. destruct key.
  - rewrite (Get_run zl ds e1 (e2 :: ps) Hrep), !bind_Some_eq. by apply Hb.
  - replace (ds ++ e1 :: e2 :: ps) with ((ds ++ [e1]) ++ e2 :: ps) in Hrep by by rewrite <-app_assoc.
    rewrite (Get_run zl (ds ++ [e1]) e2 ps Hrep), !bind_Some_eq. by apply Hb.
Qed.

Lemma getall_ziplist_run zl ds ps kvs hi out fuel :
  zl_rep zl (ds ++ ps) → texts ps = flat kvs → iter_at ds hi → (length kvs < fuel)%nat →
  ∃ hi', loop fuel (getall_body addr keys values) (HZiplist zl, hi, out) =
      Some (HZiplist zl, hi', reverse (kvs ≫= sent keys values) ++ out) ∧ iter_at (ds ++ ps) hi'.
Proof.
  revert ds ps hi out fuel. induction kvs as [|[f v] kvs IH]; intros ds ps hi out fuel Hrep Hps Hat Hfuel;
    (destruct fuel as [|fuel]; [simpl in Hfuel; lia|]); rewrite loop_S.
  - destruct ps as [|e ps]; [|discriminate Hps]. rewrite app_nil_r in *. unfold getall_body. rewrite (next_end addr zl ds hi Hrep Hat), bind_Some_eq.
    by exists hi.
  - destruct (flat_cons_entries ps f v kvs Hps) as (e1 & e2 & qs & -> & He1 & He2 & Hqs).
    destruct (next_pair addr zl ds e1 e2 qs hi Hrep Hat) as [Hn Hat'].
    rewrite (getall_step _ _ _ _ f v out Hn) by (rewrite (cursor_ziplist_run zl ds e1 e2 qs _ Hrep), ?He1, ?He2; done).
    replace (ds ++ e1 :: e2 :: qs) with ((ds ++ [e1; e2]) ++ qs) in * by by rewrite <-app_assoc.
    destruct (IH _ qs _ (reverse (sent keys values (f, v)) ++ out) fuel Hrep Hqs Hat') as (hi' & Hloop & Hat2); [simpl in Hfuel; lia|].
    exists hi'. rewrite Hloop. split; [|done]. rewrite bind_cons, reverse_app, <-app_assoc. done.
Qed.

(** ** Of a table *)

Section table.
Context (d : dict bytes robj) (M : gmap bytes bytes) (b0 b1 : list (list loc)).
Context (Hd : ht_rep seed d M) (Hrep : dict_rep (hashDictType seed) d b0 b1).

Definition entry_texts (p : loc) : bytes * bytes :=
  match dict_entries d !! p with
  | Some e => (de_key e, match de_val e with Some v => robj_text v | None => [] end)
  | None => ([], [])
  end.

Lemma entry_present p : p ∈ mjoin b0 ++ mjoin b1 →
  ∃ e v, dict_entries d !! p = Some e ∧ de_val e = Some v ∧ M !! de_key e = Some (robj_text v) ∧
    entry_texts p = (de_key e, robj_text v) ∧ robj_ok v.
Proof.
  intros Hp. rewrite <-(elem_of_list_to_set (C := gset loc)), <-(rep_dom _ _ _ _ Hrep), elem_of_dom in Hp. destruct Hp as [e He].
  pose proof (map_present (hashDictType seed) d (de_key e) p (de_val e)) as Hm.
  rewrite contents_lookup, He in Hm. specialize (Hm ltac:(by exists b0, b1) eq_refl).
  destruct (ht_rep_lookup seed d M (de_key e) Hd) as [[_ Hn]|(v & Hv & HM & Hok)]; [congruence|]. rewrite Hm in Hv. injection Hv as Hv.
  exists e, v. unfold entry_texts. by rewrite He, Hv.
Qed.

Lemma entry_texts_perm : entry_texts <$> mjoin b0 ++ mjoin b1 ≡ₚ map_to_list M.
Proof.
  apply NoDup_Permutation; [|apply NoDup_map_to_list|].
  - apply NoDup_fmap_2_strong; [|apply (rep_nodup _ _ _ _ Hrep)]. intros p q Hp Hq Heq.
    destruct (entry_present p Hp) as (e & v & He & Hv & _ & Ht & _), (entry_present q Hq) as (e2 & v2 & He2 & Hv2 & _ & Ht2 & _).
    rewrite Ht, Ht2 in Heq. injection Heq as Hk _. apply (rep_keys _ _ _ _ Hrep p q (de_key e) (de_val e) (de_val e2)).
    + by rewrite contents_lookup, He.
    + by rewrite contents_lookup, He2, Hk.
  - intros [k t]. rewrite list_elem_of_fmap, elem_of_map_to_list. split.
    + intros (p & Heq & Hp). destruct (entry_present p Hp) as (e & v & _ & _ & HM & Ht & _). congruence.
    + intros HM. destruct (ht_rep_lookup seed d M k Hd) as [[Hn _]|(o & Ho & HM' & _)]; [congruence|].
      apply abs_lookup in Ho as [p Hp]; [|by eapply rep_keys]. rewrite contents_lookup in Hp.
      destruct (dict_entries d !! p) as [e|] eqn:He; [|done]. injection Hp as Hk Hv. exists p. unfold entry_texts. rewrite He, Hk, Hv.
      split; [congruence|]. rewrite <-(elem_of_list_to_set (C := gset loc)), <-(rep_dom _ _ _ _ Hrep), elem_of_dom. by eexists.
Qed.

Lemma getall_table_run fp it de rem out fuel :
  (∃ r it', dictNext addr d it = Some (r, d, it') ∧ next_result d b0 b1 false fp rem r it') →
  (∀ p, p ∈ rem → p ∈ mjoin b0 ++ mjoin b1) → (length rem < fuel)%nat →
  ∃ it', loop fuel (getall_body addr keys values) (HTable d, IterTable it de, out) =
      Some (HTable d, IterTable it' None, reverse ((entry_texts <$> rem) ≫= sent keys values) ++ out) ∧
    DictScan.pos d b0 b1 false fp it' [].
Proof.
  revert it de out fuel. induction rem as [|p rem IH]; intros it de out fuel (r & it' & Hnext & Hres) Hin Hfuel;
    (destruct fuel as [|fuel]; [simpl in Hfuel; lia|]); rewrite loop_S; destruct Hres as [-> Hpos].
  { unfold getall_body, hashTypeNext. rewrite Hnext, !bind_Some_eq. by exists it'. }
  destruct (entry_present p) as (e & v & He & Hv & _ & Ht & Hok); [by apply Hin; left|].
  rewrite (getall_step _ _ (HTable d) (IterTable it' (Some p)) (de_key e) (robj_text v)).
  - destruct (IH it' (Some p) (reverse (sent keys values (de_key e, robj_text v)) ++ out) fuel) as (it2 & Hloop & Hpos2).
    + by apply (dictNext_run (hashDictType seed)).
    + intros q Hq. apply Hin. by right.
    + simpl in Hfuel. lia.
    + exists it2. rewrite Hloop. split; [|done]. change (entry_texts <$> p :: rem) with (entry_texts p :: (entry_texts <$> rem)).
      by rewrite bind_cons, reverse_app, <-app_assoc, Ht.
  - unfold hashTypeNext. by rewrite Hnext, bind_Some_eq.
  - unfold addHashIteratorCursorToReply, hashTypeCurrentFromHashTable. by rewrite He, !bind_Some_eq.
  - unfold addHashIteratorCursorToReply, hashTypeCurrentFromHashTable. by rewrite He, bind_Some_eq, Hv, bind_Some_eq, getDecodedObject_run.
Qed.
End table.

Lemma sent_length (kvs : pairs) :
  zlen (kvs ≫= sent keys values) = zlen kvs * ((if keys then 1 else 0) + (if values then 1 else 0)).
Proof. induction kvs as [|kv kvs IH]; [done|]. rewrite bind_cons, length_app. cbn [length]. destruct keys, values; cbn [sent app length]; lia. Qed.

Lemma getall_is cfg o M :
  config_ok cfg → hash_is seed cfg o M → Z.of_nat (size M) < 2 ^ 30 →
  ∃ kvs o', genericHgetall addr keys values o = Some (kvs ≫= sent keys values, o') ∧ hash_is seed cfg o' M ∧ kvs ≡ₚ map_to_list M ∧
    is_table o' = is_table o.
Proof.
  intros Hcfg Ho Hsz. unfold genericHgetall. destruct (Length_is seed cfg o M Ho) as (o1 & -> & Ho1 & <-). rewrite bind_Some_eq, Nat2Z.id.
  set (mult := (if keys then 1 else 0) + (if values then 1 else 0)).
  assert (0 ≤ mult ≤ 2) as Hm by (unfold mult; destruct keys, values; lia).
  rewrite swrap_small by (try lia; unfold in_s; simpl; nia). destruct o1 as [zl|d].
  - pose proof Ho1 as (kvs & (ps & Hrep & Hps)%texts_ok & Hnd & -> & _ & Hl). rewrite pmap_size by done.
    destruct (getall_ziplist_run zl [] ps kvs (IterZiplist None None) [] (S (length kvs))) as (hi & Hloop & Hat); [done|done|by left|lia|].
    cbn [hashTypeInitIterator]. rewrite Hloop, bind_Some_eq. destruct (iter_is_ziplist _ _ Hat) as (fptr & vptr & ->).
    cbn [hashTypeReleaseIterator]. rewrite bind_Some_eq, app_nil_r, length_reverse, sent_length, Z.eqb_refl, reverse_involutive.
    exists kvs, (HZiplist zl). split; [done|]. split; [done|]. split; [|done]. unfold pmap. by rewrite map_to_list_to_map.
  - pose proof Ho1 as (D & (b0 & b1 & Hrep) & _).
    destruct (dictNext_first (hashDictType seed) addr d b0 b1 false Hrep) as (r & it & Hnext & Hres).
    pose proof (entry_texts_perm d M b0 b1 Ho1 Hrep) as Hperm. apply Permutation_length in Hperm as Hlen.
    rewrite length_map_to_list in Hlen.
    destruct (getall_table_run d M b0 b1 Ho1 Hrep (dictFingerprint addr d) dictGetIterator None (mjoin b0 ++ mjoin b1) [] (S (size M)))
      as (it2 & Hloop & Hpos); [by exists r, it|done|rewrite length_fmap in Hlen; lia|].
    cbn [hashTypeInitIterator]. rewrite Hloop, bind_Some_eq. cbn [hashTypeReleaseIterator].
    rewrite (release_unsafe addr d b0 b1 it2 Hpos), !bind_Some_eq, app_nil_r, length_reverse, sent_length, Hlen, Z.eqb_refl, reverse_involutive.
    by exists (entry_texts d <$> mjoin b0 ++ mjoin b1), (HTable d).
Qed.
End getall.
