(* ===== verification/HashCommands.v ===== *)
(** * Commands on hash objects refine operations on finite maps

    Sequences of the commands of [t_hash.c], from the creation of the hash on,
    against a finite map from texts to texts; when a ziplist becomes a table, and
    that it does not show. *)

From S2P Require Import Prelude Endian Util Glob Object Dict DictSpec DictMap DictScan Sds SdsText Rdb RdbFormat.
From S2P Require Import Ziplist ZiplistSpec ZiplistOps ZiplistUpdate ZiplistQuery ZiplistRefine HashType HashNumber HashTypeSpec HashTypeRefine.

#[local] Open Scope Z_scope.

(** ** Sequences of operations *)

Inductive hash_op :=
  | HSet (field value : robj)
  | HSetNx (field value : robj)
  | HMSet (argv : list robj)
  | HIncrBy (field incr : robj)
  | HGet (field : robj)
  | HMGet (fields : list robj)
  | HExists (field : robj)
  | HDel (fields : list robj)
  | HLen
  | HGetAll (keys values : bool).

(** What a client is told, as texts. *)
Inductive hash_reply :=
  | HBool (b : bool)
  | HIncr (r : hincrby_reply)
  | HText (t : option bytes)
  | HTexts (ts : list (option bytes))
  | HCount (n : Z)
  | HDeleted (n : Z) (key_removed : bool)
  | HItems (l : list bytes).

(** How many fields it can add. *)
Definition hash_op_weight (op : hash_op) : Z := match op with HMSet argv => Z.max 1 (zlen argv) | _ => 1 end.

Section runs.
Context {host : Host} {alloc : Allocator} {locs : EntryAllocator} (seed : Z) (addr : Z → Z) (cfg : hash_config).

(** [hincrbyCommand] does not look at the length of the field
    ([hincrby_ignores_limit]), so that the caller has to. *)
Definition hash_op_ok (op : hash_op) : Prop :=
  match op with
  | HSet f v | HSetNx f v => robj_ok f ∧ robj_ok v
  | HIncrBy f i => robj_ok f ∧ robj_ok i ∧ zlen (robj_text f) ≤ text_limit cfg
  | HMSet l | HMGet l | HDel l => Forall robj_ok l
  | HGet f | HExists f => robj_ok f
  | HLen | HGetAll _ _ => True
  end.

Definition run_hash_op (g : dictGlobals) (op : hash_op) (o : hash_robj) : option (hash_reply * hash_robj) :=
  match op with
  | HSet f v => '(b, o) ← hset seed addr g cfg o f v; Some (HBool b, o)
  | HSetNx f v => '(b, o) ← hsetnx seed addr g cfg o f v; Some (HBool b, o)
  | HMSet argv => '(b, o) ← hmset seed addr g cfg o argv; Some (HBool b, o)
  | HIncrBy f i => '(r, o) ← hincrby seed addr g cfg o f i; Some (HIncr r, o)
  | HGet f => '(v, o) ← hashTypeGetObject seed g o f; Some (HText (robj_text <$> v), o)
  | HMGet fs => '(ts, o) ← hmget seed g o fs; Some (HTexts ts, o)
  | HExists f => '(b, o) ← hashTypeExists seed g o f; Some (HBool b, o)
  | HDel fs => '(n, b, o) ← hdel seed g o fs; Some (HDeleted n b, o)
  | HLen => '(n, o) ← hashTypeLength o; Some (HCount n, o)
  | HGetAll keys values => '(l, o) ← genericHgetall addr keys values o; Some (HItems l, o)
  end.

(** The settings of the dictionaries may change between the operations. *)
Fixpoint run_hash_ops (ops : list (dictGlobals * hash_op)) (o : hash_robj) : option (list hash_reply * hash_robj) :=
  match ops with
  | [] => Some ([], o)
  | (g, op) :: ops => '(r, o) ← run_hash_op g op o; '(rs, o) ← run_hash_ops ops o; Some (r :: rs, o)
  end.

(** The specification: on the map [M] the reply is [r] and the map then [M']. *)
Definition spec_hash_op (M : gmap bytes bytes) (op : hash_op) (r : hash_reply) (M' : gmap bytes bytes) : Prop :=
  match op with
  | HSet f v => r = HBool (bool_decide (M !! robj_text f = None)) ∧ M' = <[robj_text f := robj_text v]> M
  | HSetNx f v => r = HBool (bool_decide (M !! robj_text f = None)) ∧ M' = insert_new (robj_text f) (robj_text v) M
  | HMSet argv => r = HBool (Z.even (zlen argv)) ∧ M' = if Z.even (zlen argv) then set_pairs M argv else M
  | HIncrBy f i =>
    r = HIncr (incr_result M (robj_text f) (robj_text i)).1 ∧ M' = (incr_result M (robj_text f) (robj_text i)).2
  | HGet f => r = HText (M !! robj_text f) ∧ M' = M
  | HMGet fs => r = HTexts ((λ f, M !! robj_text f) <$> fs) ∧ M' = M
  | HExists f => r = HBool (bool_decide (is_Some (M !! robj_text f))) ∧ M' = M
  | HDel fs =>
    r = HDeleted (Z.of_nat (size M) - Z.of_nat (size M')) (bool_decide (M ≠ ∅ ∧ M' = ∅)) ∧ M' = delete_all M fs
  | HLen => r = HCount (Z.of_nat (size M)) ∧ M' = M
  | HGetAll keys values => (∃ kvs, r = HItems (kvs ≫= sent keys values) ∧ kvs ≡ₚ map_to_list M) ∧ M' = M
  end.

Fixpoint spec_hash_ops (M : gmap bytes bytes) (ops : list hash_op) (rs : list hash_reply) (M' : gmap bytes bytes) : Prop :=
  match ops, rs with
  | [], [] => M' = M
  | op :: ops, r :: rs => ∃ M1, spec_hash_op M op r M1 ∧ spec_hash_ops M1 ops rs M'
  | _, _ => False
  end.

Lemma size_insert_grows (M : gmap bytes bytes) f v : Z.of_nat (size (<[f := v]> M)) ≤ Z.of_nat (size M) + 1.
Proof. pose proof (size_insert_le M f v). lia. Qed.

Lemma spec_hash_op_size M op r M' : spec_hash_op M op r M' → Z.of_nat (size M') ≤ Z.of_nat (size M) + hash_op_weight op.
Proof.
  destruct op as [f v|f v|argv|f i|f|fs|f|fs| |keys values]; cbn; intros [_ ->]; try lia.
  - apply size_insert_grows.
  - unfold insert_new. case_decide; [apply size_insert_grows|lia].
  - pose proof (size_set_pairs M argv). destruct (Z.even _); lia.
  - unfold incr_result. destruct (number_of _); [|cbn; lia]. destruct (default _ _); [|cbn; lia].
    case_bool_decide; [apply size_insert_grows|cbn; lia].
  - pose proof (delete_all_size M fs). lia.
Qed.

(** Equal but for the order of the pairs. *)
Definition same_reply (r1 r2 : hash_reply) : Prop :=
  r1 = r2 ∨ ∃ keys values kvs1 kvs2, r1 = HItems (kvs1 ≫= sent keys values) ∧ r2 = HItems (kvs2 ≫= sent keys values) ∧ kvs1 ≡ₚ kvs2.

Lemma spec_same_reply M op r1 r2 M1 M2 : spec_hash_op M op r1 M1 → spec_hash_op M op r2 M2 → same_reply r1 r2 ∧ M1 = M2.
Proof.
  destruct op as [| | | | | | | | |keys values]; cbn;
    [intros [-> ->] [-> ->]; split; [by left|done]..|].
  intros [(l1 & -> & H1) ->] [(l2 & -> & H2) ->]. split; [|done]. right. exists keys, values, l1, l2. split; [done|]. split; [done|]. by etransitivity.
Qed.

(** The objects whose length is looked at. *)
Definition new_objects (op : hash_op) : list robj :=
  match op with HSet f v | HSetNx f v => [f; v] | HMSet argv => if Z.even (zlen argv) then argv else [] | _ => [] end.

Context (Hcfg : config_ok cfg).

Lemma run_hash_op_spec g op o M :
  hash_is seed cfg o M → hash_op_ok op → Z.of_nat (size M) + hash_op_weight op < 2 ^ 30 - 1 →
  ∃ r o' M', run_hash_op g op o = Some (r, o') ∧ spec_hash_op M op r M' ∧ hash_is seed cfg o' M' ∧
    is_table o' = is_table o || existsb (too_long cfg) (new_objects op) || grown cfg M'.
Proof.
  intros Ho Hop Hsz. pose proof (grown_table seed cfg) as Hgr.
  destruct op as [f v|f v|argv|f i|f|fs|f|fs| |keys values]; cbn [run_hash_op spec_hash_op hash_op_ok new_objects hash_op_weight] in *.
  - destruct Hop as [Hf Hv]. destruct (hset_is seed addr g cfg Hcfg o M f v Ho Hf Hv) as (o' & -> & Ho'); [lia|]. rewrite bind_Some_eq. eauto 10.
  - destruct Hop as [Hf Hv]. destruct (hsetnx_is seed addr g cfg Hcfg o M f v Ho Hf Hv) as (o' & -> & Ho'); [lia|]. rewrite bind_Some_eq. eauto 10.
  - destruct (hmset_is seed addr g cfg Hcfg o M argv Ho Hop) as (o' & -> & Ho' & Ht); [lia|]. rewrite bind_Some_eq.
    eexists _, o', _. split; [done|]. split; [done|]. split; [exact Ho'|]. rewrite Ht. by destruct (Z.even _).
  - destruct Hop as (Hf & Hi & Hl). destruct (hincrby_is seed addr g cfg Hcfg o M f i Ho Hf Hi) as (o' & -> & Ho' & Ht).
    { lia. } { destruct o as [zl|d]; [|done]. by constructor. }
    rewrite bind_Some_eq. cbn [existsb]. rewrite orb_false_r. eauto 10.
  - destruct (GetObject_is seed g cfg Hcfg o M f Ho Hop) as (v & o' & -> & Ho' & <- & _ & Ht). rewrite bind_Some_eq.
    cbn [existsb]. rewrite orb_false_r, <-Ht. eauto 10.
  - destruct (hmget_is seed g cfg Hcfg o M fs Ho Hop) as (o' & -> & Ho' & Ht). rewrite bind_Some_eq. cbn [existsb]. rewrite orb_false_r, <-Ht. eauto 10.
  - destruct (Exists_is seed g cfg Hcfg o M f Ho Hop) as (o' & -> & Ho' & _ & Ht). rewrite bind_Some_eq. cbn [existsb]. rewrite orb_false_r, <-Ht. eauto 10.
  - unfold hdel. destruct (hdel_loop_is seed addr g cfg Hcfg o M fs 0 Ho Hop) as (o' & -> & Ho' & Ht); [lia|]. rewrite bind_Some_eq.
    cbn [existsb]. rewrite orb_false_r, <-Ht. eexists _, o', (delete_all M fs). rewrite Z.add_0_l. eauto 10.
  - destruct (Length_is seed cfg o M Ho) as (o' & -> & Ho' & Ht). rewrite bind_Some_eq. cbn [existsb]. rewrite orb_false_r, <-Ht. eauto 10.
  - destruct (getall_is seed addr keys values cfg o M Hcfg Ho) as (l & o' & -> & Ho' & Hl & Ht); [lia|]. rewrite bind_Some_eq.
    cbn [existsb]. rewrite orb_false_r, <-Ht. exists (HItems (l ≫= sent keys values)), o', M. split_and!; eauto.
Qed.

Definition hash_ops_weight (ops : list (dictGlobals * hash_op)) : Z := foldr (λ x n, hash_op_weight x.2 + n) 0 ops.

Lemma hash_ops_weight_pos ops : 0 ≤ hash_ops_weight ops.
Proof.
  unfold hash_ops_weight. induction ops as [|[g op] ops IH]; [done|]. cbn [foldr snd].
  assert (1 ≤ hash_op_weight op) by (destruct op; cbn; lia). lia.
Qed.

Lemma run_hash_ops_spec ops o M :
  hash_is seed cfg o M → Forall (λ x, hash_op_ok x.2) ops → Z.of_nat (size M) + hash_ops_weight ops < 2 ^ 30 - 1 →
  ∃ rs o' M', run_hash_ops ops o = Some (rs, o') ∧ spec_hash_ops M ops.*2 rs M' ∧ hash_is seed cfg o' M'.
Proof.
  revert o M. induction ops as [|[g op] ops IH]; intros o M Ho Hok Hsz; [by exists [], o, M|].
  apply Forall_cons in Hok as [Hop Hok]. cbn [hash_ops_weight foldr snd] in Hsz. fold (hash_ops_weight ops) in Hsz.
  pose proof (hash_ops_weight_pos ops). destruct (run_hash_op_spec g op o M Ho Hop) as (r & o1 & M1 & Hrun & Hsp & Ho1 & _); [lia|].
  pose proof (spec_hash_op_size _ _ _ _ Hsp). destruct (IH o1 M1 Ho1 Hok) as (rs & o' & M' & Hruns & Hsps & Ho'); [lia|].
  exists (r :: rs), o', M'. cbn [run_hash_ops]. rewrite Hrun, bind_Some_eq, Hruns, bind_Some_eq. split; [done|]. split; [|done].
  cbn. by exists M1.
Qed.
End runs.

Lemma zl_is_length {host : Host} zl l : zl_is zl l → zlen zl ≤ 11 + cost l.
Proof.
  intros (ps & Hrep & <-)%texts_ok. pose proof (room_cost ps (2 ^ 32 - 12 - cost (texts ps)) (zl_rep_ok _ _ Hrep)) as Hroom.
  destruct Hrep as (c & -> & _). rewrite length_layout. unfold room in Hroom. lia.
Qed.

(** ** The properties *)

Section properties.
Context {host : Host} {alloc : Allocator} {locs : EntryAllocator} (seed : Z) (addr : Z → Z) (cfg : hash_config).



(** C35: the encoding does not show: after the conversion of a ziplist every
    command answers as before it, but for the order of the pairs, and leaves
    the same map. *)
Theorem hash_encodings_agree g op zl M :
  config_ok cfg → hash_is seed cfg (HZiplist zl) M → hash_op_ok cfg op → Z.of_nat (size M) + hash_op_weight op < 2 ^ 30 - 1 →
  ∃ d r1 o1 r2 o2 M', hashTypeConvert seed addr g (HZiplist zl) = Some (HTable d) ∧
    run_hash_op seed addr cfg g op (HZiplist zl) = Some (r1, o1) ∧ run_hash_op seed addr cfg g op (HTable d) = Some (r2, o2) ∧
    same_reply r1 r2 ∧ hash_is seed cfg o1 M' ∧ hash_is seed cfg o2 M'.
Proof.
  intros Hcfg Ho Hop Hsz. destruct (convert_is seed addr g cfg Hcfg zl M Ho) as (d & Hconv & Hd).
  { assert (1 ≤ hash_op_weight op) by (destruct op; cbn; lia). lia. }
  destruct (run_hash_op_spec seed addr cfg Hcfg g op (HZiplist zl) M Ho Hop Hsz) as (r1 & o1 & M1 & Hrun1 & Hsp1 & Ho1 & _).
  destruct (run_hash_op_spec seed addr cfg Hcfg g op (HTable d) M Hd Hop Hsz) as (r2 & o2 & M2 & Hrun2 & Hsp2 & Ho2 & _).
  destruct (spec_same_reply M op r1 r2 M1 M2 Hsp1 Hsp2) as [Hr ->]. by exists d, r1, o1, r2, o2, M2.
Qed.

(** [hashTypeSet] itself does not look at lengths. *)
Lemma set_long_field g zl M f n :
  config_ok cfg → hash_is seed cfg (HZiplist zl) M → robj_ok f → in_s 64 n →
  M !! robj_text f = None → Z.of_nat (size M) < hash_max_ziplist_entries cfg → Z.of_nat (size M) < 2 ^ 30 - 1 →
  11 + hash_max_ziplist_entries cfg * (36 + 2 * text_limit cfg) + 57 + zlen (robj_text f) < 2 ^ 32 →
  ∃ zl' kvs, hashTypeSet seed addr g cfg (HZiplist zl) f (IntObj n) = Some (false, HZiplist zl') ∧
    zl_is zl' (flat kvs) ∧ (robj_text f, dec_signed n) ∈ kvs.
Proof.
  intros Hcfg (kvs & Hzl & Hnd & -> & Hlen & Hl) Hf Hin HM Hlt Hsz Hroom. pose proof (text_limit_bounds cfg Hcfg).
  pose proof (cost_limit cfg kvs Hl). pose proof (length_dec_signed n Hin). rewrite pmap_size in * by done. unfold hashTypeSet.
  destruct (SetZiplist_run zl kvs f (IntObj n) Hzl Hnd Hf Hin) as (zl' & kvs' & -> & Hzl' & Hnd' & HM' & Hkvs); [cbn [robj_text]; nia|].
  rewrite bind_Some_eq, HM. destruct (Len_is zl' kvs' Hzl') as (zl2 & -> & Hzl2). rewrite bind_Some_eq.
  destruct Hkvs as [->|(l1 & w & l2 & -> & _)]; [|by rewrite pmap_lookup_some in HM].
  rewrite length_app. cbn [length]. destruct (_ >? _) eqn:E; [lia|]. exists zl2, (kvs ++ [(robj_text f, dec_signed n)]).
  split; [done|]. split; [done|]. set_solver.
Qed.

(** C36: HINCRBY does not look at the length of a new field: it is put into the
    ziplist even when it is longer than [hash_max_ziplist_value], where HSET of
    the same field makes a table first. *)
Theorem hincrby_ignores_limit g zl M f i n :
  config_ok cfg → hash_is seed cfg (HZiplist zl) M → robj_ok f → robj_ok i → number_of (robj_text i) = Some n →
  M !! robj_text f = None → too_long cfg f = true → Z.of_nat (size M) < hash_max_ziplist_entries cfg → Z.of_nat (size M) < 2 ^ 30 - 1 →
  11 + hash_max_ziplist_entries cfg * (36 + 2 * text_limit cfg) + 57 + zlen (robj_text f) < 2 ^ 32 →
  (∃ zl' kvs, hincrby seed addr g cfg (HZiplist zl) f i = Some (Incremented n, HZiplist zl') ∧
    zl_is zl' (flat kvs) ∧ (robj_text f, dec_signed n) ∈ kvs ∧ hash_max_ziplist_value cfg < zlen (robj_text f)) ∧
  ∃ d, hset seed addr g cfg (HZiplist zl) f (IntObj n) = Some (true, HTable d).
Proof.
  intros Hcfg Ho Hf Hi Hn HM Hlong Hlt Hsz Hroom. pose proof (number_of_range _ _ Hn) as Hin. split.
  - destruct (set_long_field g zl M f n Hcfg Ho Hf Hin HM Hlt Hsz Hroom) as (zl' & kvs & Hset & Hzl & Hel).
    exists zl', kvs. split; [|split; [done|split; [done|]]; unfold too_long in Hlong; destruct f; [cbn; lia|done]].
    unfold hincrby. rewrite getLongLongFromObject_run, Hn, bind_Some_eq by done.
    destruct (GetObject_is seed g cfg Hcfg (HZiplist zl) M f Ho Hf) as (cur & o1 & Hget & _ & Hcur & _).
    assert (cur = None) as -> by (rewrite HM in Hcur; by destruct cur).
    assert (o1 = HZiplist zl) as ->.
    { unfold hashTypeGetObject in Hget. apply bind_Some in Hget as (r & _ & Hget). destruct r as [v|]; [|congruence].
      apply bind_Some in Hget as (v' & _ & Hget). congruence. }
    rewrite Hget, !bind_Some_eq. rewrite overflow_test by done. rewrite Z.add_0_l, bool_decide_true by done.
    cbn [negb]. rewrite swrap_small, ll_object, bind_Some_eq by (done || lia).
    cbn [hashTypeTryObjectEncoding]. by rewrite bind_Some_eq, Hset.
  - destruct (hset_is seed addr g cfg Hcfg (HZiplist zl) M f (IntObj n) Ho Hf Hin Hsz) as (o' & -> & _ & Ht).
    rewrite bool_decide_true by done. cbn [existsb] in Ht. rewrite Hlong in Ht. destruct o' as [|d]; [done|]. by exists d.
Qed.
End properties.

(** ** Concrete instances *)

#[local] Existing Instances be_host poison_allocator next_entry_allocator.

(** Three fields, texts of five bytes. *)
Definition sample_hash_config : hash_config := HashConfig 3 5.
Definition sample_globals : dictGlobals := DictGlobals true 5 false.
Definition sample_hash_addr (n : Z) : Z := 65536 * n.

Definition sample_hash_ops : list (dictGlobals * hash_op) :=
  (sample_globals,.) <$>
  [HMSet [SdsObj [97]; IntObj 12; SdsObj [49; 50]; SdsObj [120; 121]]; HSetNx (IntObj 12) (SdsObj [122]); HGet (IntObj 12);
   HIncrBy (SdsObj [97]) (SdsObj [45; 49; 57]); HIncrBy (IntObj 12) (IntObj 1); HDel [SdsObj [98]; IntObj 12]; HLen;
   HMSet [SdsObj [97]]; HIncrBy (SdsObj [99]) (IntObj 9223372036854775807); HIncrBy (SdsObj [99]) (SdsObj [43; 49]); HGetAll true true;
   HSet (SdsObj [100]) (SdsObj [49; 50; 51; 52; 53; 54]); HIncrBy (SdsObj [100]) (SdsObj [52; 52]); HExists (SdsObj [97]);
   HMGet [SdsObj [100]; SdsObj [101]]; HGetAll false true; HDel [SdsObj [97]; SdsObj [99]; SdsObj [100]; SdsObj [97]]; HGetAll true false].

Lemma sample_config_ok : config_ok sample_hash_config.
Proof. split; vm_compute; done. Qed.


(** The hash after three fields, and the next one, too many for a ziplist. *)
Definition sample_pairs : pairs := [([97], [49; 50]); ([98], [120; 121]); ([99], [])].
Definition sample_entries : list pentry :=
  [PEntry false 0 (Str [97]); PEntry false 3 (item_of [49; 50]); PEntry false 2 (Str [98]); PEntry false 3 (Str [120; 121]);
   PEntry false 4 (Str [99]); PEntry false 3 (Str [])].
Definition sample_zl : bytes := layout (off sample_entries + 1) (tail_off sample_entries) 6 sample_entries.

Lemma sample_zl_reached :
  (o ← createHashObject; snd <$> run_hash_ops 5381 sample_hash_addr sample_hash_config
    ((sample_globals,.) <$> [HSet (SdsObj [97]) (IntObj 12); HSet (SdsObj [98]) (SdsObj [120; 121]); HSet (SdsObj [99]) (SdsObj [])]) o) =
  Some (HZiplist sample_zl).
Proof. vm_compute. reflexivity. Qed.

Lemma sample_zl_is : hash_is 5381 sample_hash_config (HZiplist sample_zl) (pmap sample_pairs).
Proof.
  exists sample_pairs. split.
  - exists sample_entries. split; [|vm_compute; reflexivity]. exists 6. split; [reflexivity|]. split; [evaluate|].
    split; [|evaluate]. repeat constructor; evaluate.
  - split; [by apply (bool_decide_unpack (NoDup sample_pairs.*1)); vm_compute|]. split; [done|]. split; [done|].
    repeat constructor; vm_compute; done.
Qed.


Lemma hash_encodings_agree_witness :
  ∃ d r1 o1 r2 o2 M', hashTypeConvert 5381 sample_hash_addr sample_globals (HZiplist sample_zl) = Some (HTable d) ∧
    run_hash_op 5381 sample_hash_addr sample_hash_config sample_globals (HGetAll true true) (HZiplist sample_zl) = Some (r1, o1) ∧
    run_hash_op 5381 sample_hash_addr sample_hash_config sample_globals (HGetAll true true) (HTable d) = Some (r2, o2) ∧
    same_reply r1 r2 ∧ hash_is 5381 sample_hash_config o1 M' ∧ hash_is 5381 sample_hash_config o2 M'.
Proof.
  exact (hash_encodings_agree 5381 sample_hash_addr sample_hash_config sample_globals (HGetAll true true) sample_zl (pmap sample_pairs)
    sample_config_ok sample_zl_is I eq_refl).
Defined.

(** Room for five fields; a field of ten bytes. *)
Definition roomy_config : hash_config := HashConfig 5 5.
Definition long_field : robj := SdsObj (replicate 10 102).

Lemma roomy_config_ok : config_ok roomy_config.
Proof. split; vm_compute; done. Qed.

Lemma sample_zl_roomy : hash_is 5381 roomy_config (HZiplist sample_zl) (pmap sample_pairs).
Proof.
  destruct sample_zl_is as (kvs & Hzl & Hnd & HM & Hn & Hl). exists kvs. split; [done|]. split; [done|]. split; [done|].
  split; [unfold sample_hash_config, roomy_config in *; cbn in *; lia|exact Hl].
Qed.

Lemma hincrby_ignores_limit_witness :
  (∃ zl' kvs, hincrby 5381 sample_hash_addr sample_globals roomy_config (HZiplist sample_zl) long_field (IntObj 1) =
      Some (Incremented 1, HZiplist zl') ∧
    zl_is zl' (flat kvs) ∧ (robj_text long_field, dec_signed 1) ∈ kvs ∧ hash_max_ziplist_value roomy_config < zlen (robj_text long_field)) ∧
  ∃ d, hset 5381 sample_hash_addr sample_globals roomy_config (HZiplist sample_zl) long_field (IntObj 1) = Some (true, HTable d).
Proof.
  exact (hincrby_ignores_limit 5381 sample_hash_addr roomy_config sample_globals sample_zl (pmap sample_pairs) long_field (IntObj 1) 1
    roomy_config_ok sample_zl_roomy eq_refl ltac:(split; vm_compute; done) eq_refl eq_refl eq_refl eq_refl eq_refl eq_refl).
Defined.

(** Texts that are no integers but taken for one: the empty one, and one with a NUL behind the digits. *)
Example number_of_lenient :
  getLongLongFromObject (SdsObj []) = Some (Some 0) ∧ getLongLongFromObject (SdsObj [49; 50; 0; 120]) = Some (Some 12) ∧
  getLongLongFromObject (SdsObj [49; 50; 120]) = Some None.
Proof. by vm_compute. Qed.
