(* ===== verification/SetType.v ===== *)
(** * Set objects: [t_set.c]

    A set of integers only is an integer set while it is small; any other set is
    a dictionary without values.  As in a hash, the comparison and the hash
    function of the keys depend on their texts only, so that a key is kept as its
    text; which object of that text it is ([key_object]) is a parameter. *)

From S2P Require Import Prelude Endian Intset Util Object Dict Sds Rdb HashType.

#[local] Open Scope Z_scope.

(** [o->encoding] and [o->ptr]. *)
Inductive set_robj :=
  | SIntset (iset : intset)
  | STable (d : dict bytes unit).

Inductive setTypeIterator :=
  | SIterIntset (ii : Z)
  | SIterTable (di : dictIterator).

(** What [setTypeNext] stores: [*objele] or [*llele]. *)
Inductive set_ele :=
  | EleObj (o : robj)
  | EleInt (n : Z).

(** The set objects in memory. *)
Notation set_space := (gmap loc set_robj).

Definition REDIS_OP_UNION : Z := 0.
Definition REDIS_OP_DIFF : Z := 1.

Section code.
Context {host : Host} {alloc : Allocator} {entries : EntryAllocator}.
Context (seed : Z) (addr : Z → Z) (g : dictGlobals) (set_max_intset_entries : Z) (key_object : bytes → robj).

Definition setDictType : dictType bytes unit :=
  DictType bytes unit (λ key, u32 (default 0 (dictGenHashFunction seed key (s32 (zlen key))))) None None
    (Some dictSdsKeyCompare) true false.

(** [None] is [REDIS_ERR]. *)
Definition isObjectRepresentableAsLongLong (o : robj) : option (option Z) :=
  match o with
  | IntObj n => Some (Some n)
  | SdsObj s => string2ll (s ++ [0]) (zlen s)
  end.

Definition createSetObject : set_robj := STable dictCreate.

Definition createIntsetObject : option set_robj := iset ← intsetNew; Some (SIntset iset).

Definition setTypeCreate (value : robj) : option set_robj :=
  r ← isObjectRepresentableAsLongLong value;
  match r with Some _ => createIntsetObject | None => Some createSetObject end.

Definition setTypeSize (subject : set_robj) : option Z :=
  match subject with STable d => Some (dictSize d) | SIntset iset => intsetLen iset end.

(** ** Iterating *)

Definition setTypeInitIterator (subject : set_robj) : setTypeIterator :=
  match subject with STable _ => SIterTable dictGetIterator | SIntset _ => SIterIntset 0 end.

Definition setTypeReleaseIterator (subject : set_robj) (si : setTypeIterator) : option set_robj :=
  match subject, si with
  | STable d, SIterTable di => d ← dictReleaseIterator addr d di; Some (STable d)
  | SIntset _, SIterIntset _ => Some subject
  | _, _ => None
  end.

(** [None] for [-1]. *)
Definition setTypeNext (subject : set_robj) (si : setTypeIterator) : option (option set_ele * set_robj * setTypeIterator) :=
  match subject, si with
  | STable d, SIterTable di =>
    '(de, d, di) ← dictNext addr d di;
    match de with
    | None => Some (None, STable d, SIterTable di)
    | Some p => e ← dict_entries d !! p; Some (Some (EleObj (key_object (de_key e))), STable d, SIterTable di)
    end
  | SIntset iset, SIterIntset ii =>
    llele ← intsetGet iset (u32 ii);
    Some (option_map EleInt llele, subject, SIterIntset (s32 (ii + 1)))
  | _, _ => None
  end.

Definition setTypeNextObject (subject : set_robj) (si : setTypeIterator) : option (option robj * set_robj * setTypeIterator) :=
  '(ele, subject, si) ← setTypeNext subject si;
  match ele with
  | None => Some (None, subject, si)
  | Some (EleInt intele) => o ← createStringObjectFromLongLong intele; Some (Some o, subject, si)
  | Some (EleObj objele) => Some (Some objele, subject, si)
  end.

(** ** Conversion of an integer set to a dictionary *)

Definition set_convert_body (subject : set_robj) (st : setTypeIterator * dict bytes unit)
  : option (setTypeIterator * dict bytes unit + setTypeIterator * dict bytes unit) :=
  let '(si, d) := st in
  '(ele, _, si) ← setTypeNext subject si;
  match ele with
  | None => Some (inr (si, d))
  | Some (EleObj _) => None
  | Some (EleInt intele) =>
    element ← createStringObjectFromLongLong intele;
    key ← getDecodedObject element;
    '(ret, d) ← dictAdd setDictType g d key tt;
    check ret =? DICT_OK ;;
    Some (inl (si, d))
  end.

Definition setTypeConvert (setobj : set_robj) : option set_robj :=
  match setobj with
  | SIntset iset =>
    len ← intsetLen iset;
    '(_, d) ← dictExpand dictCreate len;
    '(si, d) ← loop (S (Z.to_nat len)) (set_convert_body setobj) (setTypeInitIterator setobj, d);
    _ ← setTypeReleaseIterator setobj si;
    Some (STable d)
  | STable _ => None
  end.

(** ** Single elements *)

(** [dictAdd(subject->ptr,value,NULL) == DICT_OK] *)
Definition set_dict_add (d : dict bytes unit) (value : robj) : option (bool * dict bytes unit) :=
  key ← getDecodedObject value;
  '(ret, d) ← dictAdd setDictType g d key tt;
  Some (ret =? DICT_OK, d).

Definition setTypeAdd (subject : set_robj) (value : robj) : option (bool * set_robj) :=
  match subject with
  | STable d => '(added, d) ← set_dict_add d value; Some (added, STable d)
  | SIntset iset =>
    llval ← isObjectRepresentableAsLongLong value;
    match llval with
    | Some llval =>
      '(iset, success) ← intsetAdd iset llval;
      if success : bool then
        len ← intsetLen iset;
        subject ← (if len >? set_max_intset_entries then setTypeConvert (SIntset iset) else Some (SIntset iset));
        Some (true, subject)
      else Some (false, SIntset iset)
    | None =>
      subject ← setTypeConvert subject;
      match subject with
      | STable d => '(added, d) ← set_dict_add d value; check (added : bool) ;; Some (true, STable d)
      | SIntset _ => None
      end
    end
  end.

Definition setTypeRemove (setobj : set_robj) (value : robj) : option (bool * set_robj) :=
  match setobj with
  | STable d =>
    key ← getDecodedObject value;
    '(ret, d) ← dictDelete setDictType g d key;
    if ret =? DICT_OK then
      if htNeedsResize d then '(_, d) ← dictResize g d; Some (true, STable d) else Some (true, STable d)
    else Some (false, STable d)
  | SIntset iset =>
    llval ← isObjectRepresentableAsLongLong value;
    match llval with
    | Some llval => '(iset, success) ← intsetRemove iset llval; Some (success, SIntset iset)
    | None => Some (false, setobj)
    end
  end.

Definition setTypeIsMember (subject : set_robj) (value : robj) : option (bool * set_robj) :=
  match subject with
  | STable d =>
    key ← getDecodedObject value;
    '(de, d) ← dictFind setDictType g d key;
    Some (bool_decide (is_Some de), STable d)
  | SIntset iset =>
    llval ← isObjectRepresentableAsLongLong value;
    match llval with
    | Some llval => b ← intsetFind iset llval; Some (b, subject)
    | None => Some (false, subject)
    end
  end.

(** The element, and what is left of the random numbers. *)
Definition setTypeRandomElement (setobj : set_robj) (rnd : list Z) : option (set_ele * set_robj * list Z) :=
  match setobj with
  | STable d =>
    '(de, d, rnd) ← dictGetRandomKey setDictType g d rnd;
    p ← de;
    e ← dict_entries d !! p;
    Some (EleObj (key_object (de_key e)), STable d, rnd)
  | SIntset iset => '(r, rnd) ← random rnd; v ← intsetRandom iset r; Some (EleInt v, setobj, rnd)
  end.

(** ** Commands on one set *)

(** [saddCommand] behind the lookup: how many were added. *)
Fixpoint sadd_loop (set : set_robj) (argv : list robj) (added : Z) : option (Z * set_robj) :=
  match argv with
  | [] => Some (added, set)
  | ele :: argv =>
    ele ← tryObjectEncoding ele;
    '(b, set) ← setTypeAdd set ele;
    sadd_loop set argv (if b : bool then added + 1 else added)
  end.

Definition sadd (set : option set_robj) (argv : list robj) : option (Z * set_robj) :=
  set ← match set with Some set => Some set | None => v ← head argv; setTypeCreate v end;
  sadd_loop set argv 0.

(** [sremCommand]: how many were deleted, and whether the key was, too. *)
Fixpoint srem_loop (set : set_robj) (argv : list robj) (deleted : Z) : option (Z * bool * set_robj) :=
  match argv with
  | [] => Some (deleted, false, set)
  | ele :: argv =>
    '(b, set) ← setTypeRemove set ele;
    if b : bool then
      let deleted := deleted + 1 in
      n ← setTypeSize set;
      if n =? 0 then Some (deleted, true, set) else srem_loop set argv deleted
    else srem_loop set argv deleted
  end.

Definition sismember (set : set_robj) (ele : robj) : option (bool * set_robj) :=
  ele ← tryObjectEncoding ele;
  setTypeIsMember set ele.

(** [spopCommand]: the element and the set; the random numbers as above. *)
Definition spop (set : set_robj) (rnd : list Z) : option (robj * set_robj * list Z) :=
  '(ele, set, rnd) ← setTypeRandomElement set rnd;
  match ele, set with
  | EleInt llele, SIntset iset =>
    ele ← createStringObjectFromLongLong llele;
    '(iset, _) ← intsetRemove iset llele;
    Some (ele, SIntset iset, rnd)
  | EleObj ele, _ => '(_, set) ← setTypeRemove set ele; Some (ele, set, rnd)
  | _, _ => None
  end.
End code.

(** ** Commands on several sets

    The objects are found by their keys already: [None] is a key that does not
    exist, and a key given twice is the same location twice. *)

(** [qsort] of the C library, whose order of equal elements is not specified. *)
Class Qsort := {
  qsort : (option loc → option loc → option Z) → list (option loc) → option (list (option loc));
  qsort_perm cmp l : (∀ x y, x ∈ l → y ∈ l → is_Some (cmp x y)) → ∃ l', qsort cmp l = Some l' ∧ l' ≡ₚ l;
}.

(** Either the texts sent, or what is stored under the destination key ([None]:
    nothing) and the number sent. *)
Inductive set_result :=
  | SetReply (texts : list bytes)
  | SetStored (dst : option set_robj) (n : Z).

Section several.
Context {host : Host} {alloc : Allocator} {entries : EntryAllocator} {sorting : Qsort}.
Context (seed : Z) (addr : Z → Z) (g : dictGlobals) (set_max_intset_entries : Z) (key_object : bytes → robj).

(** The elements of the set at [s], one call of [f] for each; the set is read anew every time. *)
Definition foreach_body {St} (s : loc) (f : set_ele → set_space * St → option (set_space * St)) (st : set_space * setTypeIterator * St)
  : option (set_space * setTypeIterator * St + set_space * setTypeIterator * St) :=
  let '(h, si, x) := st in
  o ← h !! s;
  '(ele, o, si) ← setTypeNext addr key_object o si;
  let h := <[s := o]> h in
  match ele with
  | None => Some (inr (h, si, x))
  | Some ele => '(h, x) ← f ele (h, x); Some (inl (h, si, x))
  end.

Definition set_foreach {St} (s : loc) (f : set_ele → set_space * St → option (set_space * St)) (h : set_space) (x : St)
  : option (set_space * St) :=
  o ← h !! s;
  n ← setTypeSize o;
  '(h, si, x) ← loop (S (Z.to_nat n)) (foreach_body s f) (h, setTypeInitIterator o, x);
  o ← h !! s;
  o ← setTypeReleaseIterator addr o si;
  Some (<[s := o]> h, x).

(** [setTypeNextObject] *)
Definition ele_object (ele : set_ele) : option robj :=
  match ele with EleInt n => createStringObjectFromLongLong n | EleObj o => Some o end.

(** [addReplyBulk] or [addReplyBulkLongLong] *)
Definition ele_bulk (ele : set_ele) : option bytes :=
  match ele with EleInt n => bulk_of_value (inr n) | EleObj o => getDecodedObject o end.

Definition size_at (h : set_space) (s : option loc) : option Z :=
  match s with None => Some 0 | Some s => o ← h !! s; setTypeSize o end.

Definition qsortCompareSetsByCardinality (h : set_space) (s1 s2 : option loc) : option Z :=
  p1 ← s1; p2 ← s2; n1 ← size_at h (Some p1); n2 ← size_at h (Some p2); Some (s32 (n1 - n2)).

Definition qsortCompareSetsByRevCardinality (h : set_space) (s1 s2 : option loc) : option Z :=
  n2 ← size_at h s2; n1 ← size_at h s1; Some (s32 (n2 - n1)).

Definition member_at (h : set_space) (s : loc) (ele : robj) : option (bool * set_space) :=
  o ← h !! s;
  '(b, o) ← setTypeIsMember seed g o ele;
  Some (b, <[s := o]> h).

(** [for (j = 1; j < setnum; j++)] of [sinterGenericCommand]: whether [j == setnum] in the end. *)
Fixpoint inter_others (first : option loc) (sets : list (option loc)) (ele : set_ele) (h : set_space) : option (bool * set_space) :=
  match sets with
  | [] => Some (true, h)
  | s :: sets =>
    if decide (s = first) then inter_others first sets ele h
    else
      s ← s;
      o ← h !! s;
      '(found, h) ← match ele, o with
        | EleInt intobj, SIntset iset => b ← intsetFind iset intobj; Some (b, h)
        | EleInt intobj, STable _ => eleobj ← createStringObjectFromLongLong intobj; member_at h s eleobj
        | EleObj eleobj, _ =>
          fast ← match eleobj, o with
            | IntObj n, SIntset iset => b ← intsetFind iset n; Some (negb b)
            | _, _ => Some false
            end;
          if fast : bool then Some (false, h) else member_at h s eleobj
        end;
      if found : bool then inter_others first sets ele h else Some (false, h)
  end.

(** The bulks sent, last first, and the destination, [NULL] unless the result is stored. *)
Definition inter_ele (store : bool) (first : option loc) (others : list (option loc)) (ele : set_ele)
    (st : set_space * (list bytes * option set_robj)) : option (set_space * (list bytes * option set_robj)) :=
  let '(h, (out, dst)) := st in
  '(all, h) ← inter_others first others ele h;
  if negb (all : bool) then Some (h, (out, dst))
  else if store then
    dst ← dst;
    eleobj ← ele_object ele;
    '(_, dst) ← setTypeAdd seed addr g set_max_intset_entries key_object dst eleobj;
    Some (h, (out, Some dst))
  else b ← ele_bulk ele; Some (h, (b :: out, dst)).

(** What is done with the destination. *)
Definition store_set (dst : set_robj) : option set_result :=
  n ← setTypeSize dst;
  Some (if n >? 0 then SetStored (Some dst) n else SetStored None 0).

(** [setkeys] is not empty: the commands take at least one key. *)
Definition sinterGeneric (h : set_space) (setobjs : list (option loc)) (store : bool) : option (set_result * set_space) :=
  if existsb (λ s, bool_decide (s = None)) setobjs then Some (if store then SetStored None 0 else SetReply [], h)
  else
    sets ← qsort (qsortCompareSetsByCardinality h) setobjs;
    dst ← (if store then dst ← createIntsetObject; Some (Some dst) else Some None);
    match sets with
    | Some first :: others =>
      '(h, (out, dst)) ← set_foreach first (inter_ele store (Some first) others) h ([], dst);
      if store then dst ← dst; r ← store_set dst; Some (r, h) else Some (SetReply (reverse out), h)
    | _ => None
    end.

(** Unions: [for (j = 0; j < setnum; j++)]. *)
Definition union_ele (ele : set_ele) (st : set_space * (set_robj * Z)) : option (set_space * (set_robj * Z)) :=
  let '(h, (dst, cardinality)) := st in
  ele ← ele_object ele;
  '(b, dst) ← setTypeAdd seed addr g set_max_intset_entries key_object dst ele;
  Some (h, (dst, if b : bool then s32 (cardinality + 1) else cardinality)).

Fixpoint union_sets (sets : list (option loc)) (h : set_space) (st : set_robj * Z) : option (set_space * (set_robj * Z)) :=
  match sets with
  | [] => Some (h, st)
  | None :: sets => union_sets sets h st
  | Some s :: sets => '(h, st) ← set_foreach s union_ele h st; union_sets sets h st
  end.

(** The inner loop of the first algorithm for differences: whether [j == setnum] in the end. *)
Fixpoint diff_others (first : option loc) (sets : list (option loc)) (ele : robj) (h : set_space) : option (bool * set_space) :=
  match sets with
  | [] => Some (true, h)
  | None :: sets => diff_others first sets ele h
  | Some s :: sets =>
    if decide (Some s = first) then Some (false, h)
    else '(b, h) ← member_at h s ele; if b : bool then Some (false, h) else diff_others first sets ele h
  end.

Definition diff_ele (first : option loc) (others : list (option loc)) (ele : set_ele) (st : set_space * (set_robj * Z))
  : option (set_space * (set_robj * Z)) :=
  let '(h, (dst, cardinality)) := st in
  ele ← ele_object ele;
  '(all, h) ← diff_others first others ele h;
  if all : bool then
    '(_, dst) ← setTypeAdd seed addr g set_max_intset_entries key_object dst ele;
    Some (h, (dst, s32 (cardinality + 1)))
  else Some (h, (dst, cardinality)).

(** The second algorithm: the sets behind the first one are taken away. *)
Definition remove_ele (ele : set_ele) (st : set_space * (set_robj * Z)) : option (set_space * (set_robj * Z)) :=
  let '(h, (dst, cardinality)) := st in
  ele ← ele_object ele;
  '(b, dst) ← setTypeRemove seed g dst ele;
  Some (h, (dst, if b : bool then s32 (cardinality - 1) else cardinality)).

Fixpoint diff_sets (head : bool) (sets : list (option loc)) (h : set_space) (st : set_robj * Z) : option (set_space * (set_robj * Z)) :=
  match sets with
  | [] => Some (h, st)
  | None :: sets => diff_sets false sets h st
  | Some s :: sets =>
    '(h, st) ← set_foreach s (if head then union_ele else remove_ele) h st;
    if st.2 =? 0 then Some (h, st) else diff_sets false sets h st
  end.

(** The work of both algorithms for differences. *)
Fixpoint diff_work (h : set_space) (first : Z) (sets : list (option loc)) (w : Z * Z) : option (Z * Z) :=
  match sets with
  | [] => Some w
  | None :: sets => diff_work h first sets w
  | Some s :: sets => n ← size_at h (Some s); diff_work h first sets (s64 (w.1 + first), s64 (w.2 + n))
  end.

(** The reply with the members of a temporary set. *)
Fixpoint send_set (fuel : nat) (o : set_robj) (si : setTypeIterator) : option (list bytes) :=
  match fuel with
  | O => None
  | S n =>
    '(ele, o, si) ← setTypeNextObject addr key_object o si;
    match ele with
    | None => _ ← setTypeReleaseIterator addr o si; Some []
    | Some ele => b ← getDecodedObject ele; out ← send_set n o si; Some (b :: out)
    end
  end.

Definition sunionDiffGeneric (h : set_space) (sets : list (option loc)) (store : bool) (op : Z) : option (set_result * set_space) :=
  first ← head sets;
  '(diff_algo, sets) ← (match first with
    | Some _ =>
      if op =? REDIS_OP_DIFF then
        n ← size_at h first;
        '(algo_one_work, algo_two_work) ← diff_work h n sets (0, 0);
        let diff_algo := if Z.quot algo_one_work 2 <=? algo_two_work then 1 else 2 in
        if (diff_algo =? 1) && (zlen sets >? 1) then
          others ← qsort (qsortCompareSetsByRevCardinality h) (tail sets);
          Some (diff_algo, first :: others)
        else Some (diff_algo, sets)
      else Some (1, sets)
    | None => Some (1, sets)
    end);
  dst ← createIntsetObject;
  '(h, (dst, cardinality)) ← (
    if op =? REDIS_OP_UNION then union_sets sets h (dst, 0)
    else match first with
      | Some s =>
        if diff_algo =? 1 then set_foreach s (diff_ele first (tail sets)) h (dst, 0)
        else diff_sets true sets h (dst, 0)
      | None => Some (h, (dst, 0))
      end);
  if store then r ← store_set dst; Some (r, h)
  else
    n ← setTypeSize dst;
    out ← send_set (S (Z.to_nat n)) dst (setTypeInitIterator dst);
    check zlen out =? cardinality ;;
    Some (SetReply out, h).
End several.
