(* ===== verification/SetKeys.v ===== *)
(** * The set commands on keys: [t_set.c]

    The key space is a map from keys, here numbers, to set objects.  Objects are
    not shared between keys, so that two keys name the same object exactly when
    they are the same key. *)

From S2P Require Import Prelude Endian Intset Util Object Dict Sds Rdb HashType SetType.

#[local] Open Scope Z_scope.

Section code.
Context {host : Host} {alloc : Allocator} {entries : EntryAllocator} {sorting : Qsort}.
Context (seed : Z) (addr : Z → Z) (g : dictGlobals) (set_max_intset_entries : Z) (key_object : bytes → robj).

(** ** Members of one set *)

Definition saddCommand (h : set_space) (key : loc) (argv : list robj) : option (Z * set_space) :=
  '(added, set) ← sadd seed addr g set_max_intset_entries key_object (h !! key) argv;
  Some (added, <[key := set]> h).

Definition sremCommand (h : set_space) (key : loc) (argv : list robj) : option (Z * set_space) :=
  match h !! key with
  | None => Some (0, h)
  | Some set =>
    '(deleted, keyremoved, set) ← srem_loop seed g set argv 0;
    Some (deleted, if keyremoved : bool then delete key h else <[key := set]> h)
  end.

Definition smoveCommand (h : set_space) (src dst : loc) (ele : robj) : option (bool * set_space) :=
  ele ← tryObjectEncoding ele;
  match h !! src with
  | None => Some (false, h)
  | Some srcset =>
    if decide (src = dst) then '(b, srcset) ← setTypeIsMember seed g srcset ele; Some (b, <[src := srcset]> h)
    else
      '(b, srcset) ← setTypeRemove seed g srcset ele;
      let h := <[src := srcset]> h in
      if negb (b : bool) then Some (false, h)
      else
        n ← setTypeSize srcset;
        let h := if n =? 0 then delete src h else h in
        dstset ← match h !! dst with Some dstset => Some dstset | None => setTypeCreate ele end;
        '(_, dstset) ← setTypeAdd seed addr g set_max_intset_entries key_object dstset ele;
        Some (true, <[dst := dstset]> h)
  end.

Definition sismemberCommand (h : set_space) (key : loc) (ele : robj) : option (bool * set_space) :=
  match h !! key with
  | None => Some (false, h)
  | Some set => '(b, set) ← sismember seed g set ele; Some (b, <[key := set]> h)
  end.

Definition scardCommand (h : set_space) (key : loc) : option Z :=
  match h !! key with None => Some 0 | Some set => setTypeSize set end.

(** ** Random members: the bulk sent ([None]: the null bulk) and the random numbers left *)

Definition spopCommand (h : set_space) (key : loc) (rnd : list Z) : option (option bytes * set_space * list Z) :=
  match h !! key with
  | None => Some (None, h, rnd)
  | Some set =>
    '(ele, set, rnd) ← spop seed g key_object set rnd;
    b ← getDecodedObject ele;
    n ← setTypeSize set;
    Some (Some b, if n =? 0 then delete key h else <[key := set]> h, rnd)
  end.

Definition srandmemberCommand (h : set_space) (key : loc) (rnd : list Z) : option (option bytes * set_space * list Z) :=
  match h !! key with
  | None => Some (None, h, rnd)
  | Some set =>
    '(ele, set, rnd) ← setTypeRandomElement seed g key_object set rnd;
    b ← ele_bulk ele;
    Some (Some b, <[key := set]> h, rnd)
  end.

Definition SRANDMEMBER_SUB_STRATEGY_MUL : Z := 3.

(** [while(count--)] *)
Fixpoint random_bulks (count : nat) (set : set_robj) (rnd : list Z) : option (list bytes * set_robj * list Z) :=
  match count with
  | O => Some ([], set, rnd)
  | S count =>
    '(ele, set, rnd) ← setTypeRandomElement seed g key_object set rnd;
    b ← ele_bulk ele;
    '(out, set, rnd) ← random_bulks count set rnd;
    Some (b :: out, set, rnd)
  end.

(** [while((encoding = setTypeNext(si,&ele,&llele)) != -1)] *)
Definition copy_body (st : set_robj * setTypeIterator * dict bytes unit)
  : option (set_robj * setTypeIterator * dict bytes unit + set_robj * setTypeIterator * dict bytes unit) :=
  let '(set, si, d) := st in
  '(ele, set, si) ← setTypeNext addr key_object set si;
  match ele with
  | None => Some (inr (set, si, d))
  | Some ele =>
    ele ← ele_object ele;
    '(added, d) ← set_dict_add seed g d ele;
    check (added : bool) ;;
    Some (inl (set, si, d))
  end.

(** [while(size > count)] *)
Fixpoint remove_random (n : nat) (d : dict bytes unit) (rnd : list Z) : option (dict bytes unit * list Z) :=
  match n with
  | O => Some (d, rnd)
  | S n =>
    '(de, d, rnd) ← dictGetRandomKey (setDictType seed) g d rnd;
    p ← de;
    e ← dict_entries d !! p;
    '(_, d) ← dictDelete (setDictType seed) g d (de_key e);
    remove_random n d rnd
  end.

(** [while(added < count)] *)
Definition pick_body (count : Z) (st : set_robj * dict bytes unit * Z * list Z)
  : option (set_robj * dict bytes unit * Z * list Z + set_robj * dict bytes unit * list Z) :=
  let '(set, d, added, rnd) := st in
  if added <? count then
    '(ele, set, rnd) ← setTypeRandomElement seed g key_object set rnd;
    ele ← ele_object ele;
    '(b, d) ← set_dict_add seed g d ele;
    Some (inl (set, d, if b : bool then added + 1 else added, rnd))
  else Some (inr (set, d, rnd)).

(** [while((de = dictNext(di)) != NULL)] *)
Fixpoint send_dict (fuel : nat) (d : dict bytes unit) (di : dictIterator) : option (list bytes) :=
  match fuel with
  | O => None
  | S n =>
    '(de, d, di) ← dictNext addr d di;
    match de with
    | None => _ ← dictReleaseIterator addr d di; Some []
    | Some p =>
      e ← dict_entries d !! p;
      b ← getDecodedObject (key_object (de_key e));
      out ← send_dict n d di;
      Some (b :: out)
    end
  end.

(** The dictionary of [count] members, fewer than the set has. *)
Definition random_dict (set : set_robj) (size count : Z) (rnd : list Z) : option (set_robj * dict bytes unit * list Z) :=
  let d := dictCreate in
  if u64 (count * SRANDMEMBER_SUB_STRATEGY_MUL) >? size then
    '(set, si, d) ← loop (S (Z.to_nat size)) copy_body (set, setTypeInitIterator set, d);
    set ← setTypeReleaseIterator addr set si;
    check dictSize d =? size ;;
    '(d, rnd) ← remove_random (Z.to_nat (size - count)) d rnd;
    Some (set, d, rnd)
  else loop (S (length rnd)) (pick_body count) (set, d, 0, rnd).

Definition srandmemberWithCount (h : set_space) (key : loc) (l : Z) (rnd : list Z) : option (list bytes * set_space * list Z) :=
  '(count, uniq) ← (if l >=? 0 then Some (u32 l, true) else check negb (l =? - 2 ^ 63) ;; Some (- l, false));
  match h !! key with
  | None => Some ([], h, rnd)
  | Some set =>
    size ← setTypeSize set;
    if count =? 0 then Some ([], h, rnd)
    else if negb (uniq : bool) then
      '(out, set, rnd) ← random_bulks (Z.to_nat count) set rnd;
      Some (out, <[key := set]> h, rnd)
    else if count >=? size then
      '(r, h) ← sunionDiffGeneric seed addr g set_max_intset_entries key_object h [Some key] false REDIS_OP_UNION;
      match r with SetReply out => Some (out, h, rnd) | SetStored _ _ => None end
    else
      '(set, d, rnd) ← random_dict set size count rnd;
      out ← send_dict (S (Z.to_nat (dictSize d))) d dictGetIterator;
      Some (out, <[key := set]> h, rnd)
  end.

(** ** Several sets *)

Definition lookup_set (h : set_space) (key : loc) : option loc := match h !! key with Some _ => Some key | None => None end.

(** What becomes of the destination key: [dbDelete] and [dbAdd]. *)
Definition store_key (r : set_result * set_space) (dstkey : loc) : option (Z * set_space) :=
  match r with
  | (SetStored dst n, h) =>
    let h := delete dstkey h in
    Some (n, match dst with Some o => <[dstkey := o]> h | None => h end)
  | _ => None
  end.

Definition sinterCommand (h : set_space) (keys : list loc) : option (list bytes * set_space) :=
  '(r, h) ← sinterGeneric seed addr g set_max_intset_entries key_object h (lookup_set h <$> keys) false;
  match r with SetReply out => Some (out, h) | SetStored _ _ => None end.

Definition sinterstoreCommand (h : set_space) (dstkey : loc) (keys : list loc) : option (Z * set_space) :=
  r ← sinterGeneric seed addr g set_max_intset_entries key_object h (lookup_set h <$> keys) true;
  store_key r dstkey.

(** [sunionCommand] and [sdiffCommand] *)
Definition sunionDiffCommand (op : Z) (h : set_space) (keys : list loc) : option (list bytes * set_space) :=
  '(r, h) ← sunionDiffGeneric seed addr g set_max_intset_entries key_object h (lookup_set h <$> keys) false op;
  match r with SetReply out => Some (out, h) | SetStored _ _ => None end.

Definition sunionDiffStoreCommand (op : Z) (h : set_space) (dstkey : loc) (keys : list loc) : option (Z * set_space) :=
  r ← sunionDiffGeneric seed addr g set_max_intset_entries key_object h (lookup_set h <$> keys) true op;
  store_key r dstkey.
End code.

(** ** Commands *)

Inductive set_op :=
  | SADD (key : loc) (argv : list robj)
  | SREM (key : loc) (argv : list robj)
  | SMOVE (src dst : loc) (ele : robj)
  | SISMEMBER (key : loc) (ele : robj)
  | SCARD (key : loc)
  | SINTER (keys : list loc)
  | SINTERSTORE (dst : loc) (keys : list loc)
  | SUNION (keys : list loc)
  | SUNIONSTORE (dst : loc) (keys : list loc)
  | SDIFF (keys : list loc)
  | SDIFFSTORE (dst : loc) (keys : list loc).

Inductive set_reply :=
  | SNumber (n : Z)
  | SItems (texts : list bytes).

Section run.
Context {host : Host} {alloc : Allocator} {entries : EntryAllocator} {sorting : Qsort}.
Context (seed : Z) (addr : Z → Z) (set_max_intset_entries : Z) (key_object : bytes → robj).

Definition run_set_op (g : dictGlobals) (op : set_op) (h : set_space) : option (set_reply * set_space) :=
  match op with
  | SADD key argv => '(n, h) ← saddCommand seed addr g set_max_intset_entries key_object h key argv; Some (SNumber n, h)
  | SREM key argv => '(n, h) ← sremCommand seed g h key argv; Some (SNumber n, h)
  | SMOVE src dst ele =>
    '(b, h) ← smoveCommand seed addr g set_max_intset_entries key_object h src dst ele; Some (SNumber (Z.b2z b), h)
  | SISMEMBER key ele => '(b, h) ← sismemberCommand seed g h key ele; Some (SNumber (Z.b2z b), h)
  | SCARD key => n ← scardCommand h key; Some (SNumber n, h)
  | SINTER keys => '(ts, h) ← sinterCommand seed addr g set_max_intset_entries key_object h keys; Some (SItems ts, h)
  | SINTERSTORE dst keys => '(n, h) ← sinterstoreCommand seed addr g set_max_intset_entries key_object h dst keys; Some (SNumber n, h)
  | SUNION keys => '(ts, h) ← sunionDiffCommand seed addr g set_max_intset_entries key_object REDIS_OP_UNION h keys; Some (SItems ts, h)
  | SUNIONSTORE dst keys =>
    '(n, h) ← sunionDiffStoreCommand seed addr g set_max_intset_entries key_object REDIS_OP_UNION h dst keys; Some (SNumber n, h)
  | SDIFF keys => '(ts, h) ← sunionDiffCommand seed addr g set_max_intset_entries key_object REDIS_OP_DIFF h keys; Some (SItems ts, h)
  | SDIFFSTORE dst keys =>
    '(n, h) ← sunionDiffStoreCommand seed addr g set_max_intset_entries key_object REDIS_OP_DIFF h dst keys; Some (SNumber n, h)
  end.

(** One command after the other, each with the state of the dictionary module at its time. *)
Fixpoint run_set_ops (ops : list (dictGlobals * set_op)) (h : set_space) : option (list set_reply * set_space) :=
  match ops with
  | [] => Some ([], h)
  | (g, op) :: ops =>
    '(r, h) ← run_set_op g op h;
    '(rs, h) ← run_set_ops ops h;
    Some (r :: rs, h)
  end.
End run.
