(* ===== verification/SetTypeSpec.v ===== *)
(** * Set objects as finite sets of texts: the operations on each encoding *)

From S2P Require Import Prelude Endian Intset Util Object Dict DictSpec DictMap DictScan Sds SdsText Rdb RdbFormat.
From S2P Require Import ZiplistRefine HashType HashTypeSpec SetType.

#[local] Open Scope Z_scope.

(** ** The dictionary *)

Section table.
Context {alloc : Allocator} {locs : EntryAllocator} (seed : Z).

#[export] Instance setDictType_ok : DictTypeOk (setDictType seed).
Proof.
  split.
  - intros k. by apply wrap_range.
  - intros a b. cbn. unfold dictSdsKeyCompare. destruct (Z.eqb_spec (zlen a) (zlen b)) as [|Hne]; [done|]. cbn.
    rewrite bool_decide_false; [done|]. by intros ->.
  - done.
Qed.

(** The keys of the dictionary are the texts [X]. *)
Definition tab_rep (d : dict bytes unit) (X : gset bytes) : Prop :=
  dict_wf (setDictType seed) d ∧ X = dom (dict_map d).

Lemma tab_rep_size d X : tab_rep d X → size (dict_map d) = size X.
Proof. intros [_ ->]. by rewrite size_dom. Qed.

Lemma tab_create : tab_rep dictCreate ∅.
Proof.
  split; [apply dictCreate_wf|]. unfold dict_map, abs, contents. cbn. rewrite fmap_empty, map_to_list_empty. symmetry. apply dom_empty_L.
Qed.

(** What an operation of the dictionary does to the keys. *)
Lemma tab_op g d X op :
  tab_rep d X → Z.of_nat (size X) < 2 ^ 30 → dop_pre op →
  ∃ r d' ev, run_dop (setDictType seed) g op d = Some (r, d') ∧ dict_wf (setDictType seed) d' ∧
    spec_dop (setDictType seed) (dict_map d) op r (dict_map d') ev.
Proof.
  intros Hd Hsz Hpre. pose proof Hd as [Hwf _].
  destruct (run_dop_spec (setDictType seed) g op d Hwf) as (r & d' & ev & Hrun & Hwf' & Hspec & _);
    [by rewrite (tab_rep_size d X Hd)|done|]. by exists r, d', ev.
Qed.

Lemma in_tab d X k : tab_rep d X → k ∈ X ↔ ∃ w, dict_map d !! k = Some w.
Proof. intros [_ ->]. by rewrite elem_of_dom. Qed.

Lemma tab_add g d X k :
  tab_rep d X → Z.of_nat (size X) < 2 ^ 30 →
  ∃ r d', dictAdd (setDictType seed) g d k tt = Some (r, d') ∧ (r =? DICT_OK) = bool_decide (k ∉ X) ∧ tab_rep d' ({[k]} ∪ X).
Proof.
  intros Hd Hsz. destruct (tab_op g d X (DAdd k tt) Hd Hsz I) as (r & d' & ev & Hrun & Hwf & Hspec). cbn [run_dop] in Hrun.
  apply bind_Some in Hrun as ([r0 d0] & Hrun & [= <- <-]). exists r0, d0. split; [done|]. pose proof (in_tab d X k Hd) as Hin.
  inversion Hspec as [? ? Hnone|? ? ? Hsome| | | | | | | | | | | | | | | ]; subst; destruct Hd as [_ ->].
  - split; [rewrite bool_decide_true; [done|]; rewrite Hin; intros [w Hw]; congruence|].
    split; [done|]. by rewrite <-H2, dom_insert_L.
  - split; [rewrite bool_decide_false; [done|]; rewrite Hin; naive_solver|]. split; [done|]. assert (k ∈ dom (dict_map d)) by (rewrite Hin; eauto). replace (dict_map d0) with (dict_map d) by done. set_solver.
Qed.

Lemma tab_delete g d X k :
  tab_rep d X → Z.of_nat (size X) < 2 ^ 30 →
  ∃ r d', dictDelete (setDictType seed) g d k = Some (r, d') ∧ (r =? DICT_OK) = bool_decide (k ∈ X) ∧ tab_rep d' (X ∖ {[k]}).
Proof.
  intros Hd Hsz. destruct (tab_op g d X (DDelete k false) Hd Hsz I) as (r & d' & ev & Hrun & Hwf & Hspec). cbn [run_dop] in Hrun.
  apply bind_Some in Hrun as ([r0 d0] & Hrun & [= <- <-]). exists r0, d0. split; [done|]. pose proof (in_tab d X k Hd) as Hin.
  inversion Hspec as [| | | | | | | |? ? Hnone|? ? ? Hsome| | | | | | | ]; subst; destruct Hd as [_ ->].
  - split; [rewrite bool_decide_false; [done|]; rewrite Hin; intros [w Hw]; congruence|]. split; [done|]. replace (dict_map d0) with (dict_map d) by done.
    assert (k ∉ dom (dict_map d)) by (rewrite Hin; intros [w Hw]; congruence). set_solver.
  - split; [rewrite bool_decide_true; [done|]; rewrite Hin; naive_solver|]. split; [done|]. by rewrite <-H2, dom_delete_L.
Qed.

Lemma tab_keep d X d' : tab_rep d X → dict_wf (setDictType seed) d' → dict_map d' = dict_map d → tab_rep d' X.
Proof. intros [_ ->] Hwf Hm. split; [done|]. by rewrite Hm. Qed.

Lemma tab_find g d X k :
  tab_rep d X →
  ∃ r d', dictFind (setDictType seed) g d k = Some (r, d') ∧ bool_decide (is_Some r) = bool_decide (k ∈ X) ∧ tab_rep d' X.
Proof.
  intros Hd. pose proof Hd as [Hwf _]. pose proof (in_tab d X k Hd) as Hin.
  destruct (dictFind_run (setDictType seed) g d k Hwf) as (r & d' & -> & Hwf' & Hs & Hr). exists r, d'. split; [done|].
  split; [|by apply (tab_keep d X d' Hd Hwf'), dict_map_same]. apply bool_decide_ext. rewrite Hin. destruct r as [p|].
  - destruct Hr as [w Hp]. pose proof (map_present (setDictType seed) d k p w Hwf Hp). split; eauto.
  - pose proof (map_absent (setDictType seed) d k Hwf Hr). split; [by intros [? ?]|]. intros [w Hw]. congruence.
Qed.

Lemma tab_resize g d X : tab_rep d X → Z.of_nat (size X) < 2 ^ 30 → ∃ r d', dictResize g d = Some (r, d') ∧ tab_rep d' X.
Proof.
  intros Hd Hsz. destruct (tab_op g d X DResize Hd Hsz I) as (r & d' & ev & Hrun & Hwf & Hspec). cbn [run_dop] in Hrun.
  apply bind_Some in Hrun as ([r0 d0] & Hrun & [= <- <-]). exists r0, d0. split; [done|].
  apply (tab_keep d X d0 Hd Hwf). by inversion Hspec.
Qed.

Lemma tab_expand d X n :
  tab_rep d X → Z.of_nat (size X) < 2 ^ 30 → 0 ≤ n ≤ 2 ^ 31 → ∃ r d', dictExpand d n = Some (r, d') ∧ tab_rep d' X.
Proof.
  intros Hd Hsz Hn. destruct (tab_op (DictGlobals true 5 false) d X (DExpand n) Hd Hsz Hn) as (r & d' & ev & Hrun & Hwf & Hspec). cbn [run_dop] in Hrun.
  apply bind_Some in Hrun as ([r0 d0] & Hrun & [= <- <-]). exists r0, d0. split; [done|].
  apply (tab_keep d X d0 Hd Hwf). by inversion Hspec.
Qed.

Lemma tab_size d X : tab_rep d X → dictSize d = Z.of_nat (size X).
Proof.
  intros Hd. rewrite <-(tab_rep_size d X Hd). destruct Hd as [Hwf _]. rewrite (dict_map_size (setDictType seed) d Hwf).
  destruct Hwf as (b0 & b1 & Hrep). by eapply dictSize_entries.
Qed.

(** The keys in the order of an iteration. *)
Definition tab_key (d : dict bytes unit) (p : loc) : bytes := match dict_entries d !! p with Some e => de_key e | None => [] end.

Lemma tab_present d X b0 b1 p :
  tab_rep d X → dict_rep (setDictType seed) d b0 b1 → p ∈ mjoin b0 ++ mjoin b1 → ∃ e, dict_entries d !! p = Some e ∧ de_key e ∈ X.
Proof.
  intros Hd Hrep Hp. rewrite <-(elem_of_list_to_set (C := gset loc)), <-(rep_dom _ _ _ _ Hrep), elem_of_dom in Hp. destruct Hp as [e He].
  exists e. split; [done|]. rewrite (in_tab d X _ Hd). exists (de_val e). apply (map_present (setDictType seed) d _ p); [by exists b0, b1|].
  by rewrite contents_lookup, He.
Qed.

Lemma tab_keys_perm d X b0 b1 :
  tab_rep d X → dict_rep (setDictType seed) d b0 b1 → tab_key d <$> mjoin b0 ++ mjoin b1 ≡ₚ elements X.
Proof.
  intros Hd Hrep. apply NoDup_Permutation; [|apply NoDup_elements|].
  - apply NoDup_fmap_2_strong; [|apply (rep_nodup _ _ _ _ Hrep)]. intros p q Hp Hq. unfold tab_key.
    destruct (tab_present d X b0 b1 p Hd Hrep Hp) as (e & He & _), (tab_present d X b0 b1 q Hd Hrep Hq) as (e2 & He2 & _).
    rewrite He, He2. intros Hk. apply (rep_keys _ _ _ _ Hrep p q (de_key e) (de_val e) (de_val e2)).
    + by rewrite contents_lookup, He.
    + by rewrite contents_lookup, He2, Hk.
  - intros k. rewrite list_elem_of_fmap, elem_of_elements. split.
    + intros (p & -> & Hp). destruct (tab_present d X b0 b1 p Hd Hrep Hp) as (e & He & Hin). unfold tab_key. by rewrite He.
    + intros [w Hw]%(in_tab d X k Hd). apply abs_lookup in Hw as [p Hp]; [|by eapply rep_keys]. rewrite contents_lookup in Hp.
      destruct (dict_entries d !! p) as [e|] eqn:He; [|done]. injection Hp as Hk Hv. exists p. unfold tab_key. rewrite He.
      split; [done|]. rewrite <-(elem_of_list_to_set (C := gset loc)), <-(rep_dom _ _ _ _ Hrep), elem_of_dom. by eexists.
Qed.
End table.

(** ** Integers *)

Section integers.
Context {host : Host} {alloc : Allocator}.

Lemma representable_run o :
  robj_ok o → ∃ r, isObjectRepresentableAsLongLong o = Some r ∧ ∀ v, r = Some v ↔ in_s 64 v ∧ robj_text o = dec_signed v.
Proof.
  destruct o as [s|n]; intros Ho; [destruct (string2ll_spec s [0]) as (r & Hr & Hspec); by exists r|].
  exists (Some n). split; [done|]. cbn. intros v. split; [intros [= <-]; done|]. intros [_ Heq%dec_signed_inj]. by subst.
Qed.

(** The texts of a list of integers. *)
Definition int_texts (l : list Z) : gset bytes := list_to_set (dec_signed <$> l).

Lemma in_int_texts v l : dec_signed v ∈ int_texts l ↔ v ∈ l.
Proof.
  unfold int_texts. rewrite elem_of_list_to_set, list_elem_of_fmap. split; [|by intros; exists v].
  intros (w & ->%dec_signed_inj & Hw). done.
Qed.

Lemma rep_nodup n iset l : rep n iset l → NoDup l.
Proof.
  intros R. pose proof (rep_sorted _ _ _ R) as Hs. clear R. induction Hs as [|x l Hs IH Hx]; [apply NoDup_nil_2|].
  apply NoDup_cons. split; [|done]. intros Hin. rewrite Forall_forall in Hx. specialize (Hx x Hin). lia.
Qed.

Lemma int_texts_size n iset l : rep n iset l → size (int_texts l) = length l.
Proof.
  intros R. unfold int_texts. rewrite size_list_to_set, length_fmap; [done|]. apply NoDup_fmap_2_strong; [|by eapply rep_nodup].
  intros x y _ _. apply dec_signed_inj.
Qed.

Lemma int_texts_perm n iset l : rep n iset l → dec_signed <$> l ≡ₚ elements (int_texts l).
Proof.
  intros R. unfold int_texts. rewrite elements_list_to_set; [done|]. apply NoDup_fmap_2_strong; [|by eapply rep_nodup].
  intros x y _ _. apply dec_signed_inj.
Qed.

Lemma rep_64 n iset l v : rep n iset l → v ∈ l → in_s 64 v.
Proof.
  intros R Hv. pose proof (rep_fits _ _ _ R) as Hf. rewrite Forall_forall in Hf. specialize (Hf v Hv).
  destruct (rep_width _ _ _ R) as [-> | [-> | ->]]; unfold in_s in *; simpl in *; lia.
Qed.

Lemma get_at n iset l i :
  rep n iset l → (i ≤ length l)%nat → intsetGet iset (u32 (Z.of_nat i)) = Some (l !! i).
Proof.
  intros R Hi. pose proof (rep_small _ _ _ R). rewrite wrap_small by (try lia; split; simpl; lia).
  unfold intsetGet. rewrite (rep_length _ _ _ R), bind_Some_eq. destruct (Z.of_nat i <? zlen l) eqn:E.
  - destruct (lookup_lt_is_Some_2 l i) as [v Hv]; [lia|]. rewrite (get_spec n iset l _ v R), Hv; [done|lia|by rewrite Nat2Z.id].
  - by rewrite lookup_ge_None_2 by lia.
Qed.
End integers.

(** ** Each operation *)

Definition ele_text (e : set_ele) : bytes := match e with EleObj o => robj_text o | EleInt n => dec_signed n end.
Definition ele_ok (e : set_ele) : Prop := match e with EleObj o => robj_ok o | EleInt n => in_s 64 n end.
Definition is_dict (o : set_robj) : bool := match o with STable _ => true | SIntset _ => false end.

(** The texts of 64 bit integers. *)
Definition int_text (t : bytes) : bool := match string2ll (t ++ [0]) (zlen t) with Some (Some _) => true | _ => false end.

Lemma int_text_spec t : int_text t = true ↔ ∃ v, in_s 64 v ∧ t = dec_signed v.
Proof.
  unfold int_text. destruct (string2ll_spec t [0]) as (r & -> & Hr). destruct r as [v|].
  - split; [|done]. intros _. exists v. by apply Hr.
  - split; [done|]. intros [v Hv%Hr]. done.
Qed.

Section operations.
Context {host : Host} {alloc : Allocator} {locs : EntryAllocator}.
Context (seed : Z) (addr : Z → Z) (g : dictGlobals) (set_max_intset_entries : Z) (key_object : bytes → robj).
Context (Hmax : 0 ≤ set_max_intset_entries < 2 ^ 28 - 1).
Context (Hkey : ∀ t, zlen t < 2 ^ 31 → robj_text (key_object t) = t ∧ robj_ok (key_object t)).

(** The set object [o] stands for the set [X] of texts. *)
Definition set_is (o : set_robj) (X : gset bytes) : Prop :=
  (∀ t, t ∈ X → zlen t < 2 ^ 31) ∧
  match o with
  | SIntset iset => ∃ n l, rep n iset l ∧ X = int_texts l ∧ zlen l ≤ set_max_intset_entries
  | STable d => tab_rep seed d X
  end.

Lemma int_texts_short l : Forall (in_s 64) l → ∀ t, t ∈ int_texts l → zlen t < 2 ^ 31.
Proof.
  intros Hl t. unfold int_texts. rewrite elem_of_list_to_set, list_elem_of_fmap. intros (v & -> & Hv).
  rewrite Forall_forall in Hl. pose proof (length_dec_signed v (Hl v Hv)). lia.
Qed.

Lemma rep_short n iset l : rep n iset l → ∀ t, t ∈ int_texts l → zlen t < 2 ^ 31.
Proof. intros R. apply int_texts_short. apply Forall_forall. intros v. by eapply rep_64. Qed.

Lemma create_set_is : set_is createSetObject ∅.
Proof. split; [set_solver|apply tab_create]. Qed.

Lemma create_intset_is : ∃ o, createIntsetObject = Some o ∧ set_is o ∅ ∧ is_dict o = false.
Proof.
  destruct intsetNew_spec as (iset & Hnew & R). exists (SIntset iset). unfold createIntsetObject. rewrite Hnew. split; [done|].
  split; [|done]. split; [set_solver|]. exists 2%nat, []. split; [done|]. split; [done|apply Hmax].
Qed.

Lemma size_is o X : set_is o X → setTypeSize o = Some (Z.of_nat (size X)).
Proof.
  intros [_ Ho]. destruct o as [iset|d]; cbn [setTypeSize]; [|by rewrite (tab_size seed d X Ho)].
  destruct Ho as (n & l & R & -> & _). unfold intsetLen. by rewrite (rep_length _ _ _ R), (int_texts_size n iset l R).
Qed.

(** *** Iterating *)

Definition set_at (o : set_robj) (si : setTypeIterator) (rem : list bytes) : Prop :=
  match o, si with
  | SIntset iset, SIterIntset ii =>
    ∃ n l i, rep n iset l ∧ ii = Z.of_nat i ∧ (i ≤ length l)%nat ∧ rem = dec_signed <$> drop i l
  | STable d, SIterTable it =>
    ∃ b0 b1 ps, dict_rep (setDictType seed) d b0 b1 ∧ rem = tab_key d <$> ps ∧ (∀ p, p ∈ ps → p ∈ mjoin b0 ++ mjoin b1) ∧
      ∃ r it', dictNext addr d it = Some (r, d, it') ∧ next_result d b0 b1 false (dictFingerprint addr d) ps r it'
  | _, _ => False
  end.

Lemma init_at o X : set_is o X → ∃ ts, set_at o (setTypeInitIterator o) ts ∧ ts ≡ₚ elements X.
Proof.
  intros [_ Ho]. destruct o as [iset|d]; cbn [setTypeInitIterator].
  - destruct Ho as (n & l & R & -> & _). exists (dec_signed <$> l). split; [|by eapply int_texts_perm].
    exists n, l, 0%nat. split; [done|]. split; [done|]. split; [lia|]. done.
  - pose proof Ho as [(b0 & b1 & Hrep) _]. exists (tab_key d <$> mjoin b0 ++ mjoin b1). split; [|by eapply tab_keys_perm].
    exists b0, b1, (mjoin b0 ++ mjoin b1). split; [done|]. split; [done|]. split; [done|].
    by apply (dictNext_first (setDictType seed) addr d b0 b1 false Hrep).
Qed.

Lemma next_none o si : set_at o si [] →
  ∃ si', setTypeNext addr key_object o si = Some (None, o, si') ∧ setTypeReleaseIterator addr o si' = Some o.
Proof.
  intros Hat. destruct o as [iset|d], si as [ii|it]; try done; cbn [setTypeNext set_at] in *.
  - destruct Hat as (n & l & i & R & -> & Hi & Hrem). symmetry in Hrem. apply fmap_nil_inv in Hrem.
    rewrite (get_at n iset l i R Hi), bind_Some_eq, lookup_ge_None_2.
    + by eexists.
    + apply (f_equal length) in Hrem. rewrite length_drop in Hrem. cbn in Hrem. lia.
  - destruct Hat as (b0 & b1 & ps & Hrep & Hrem & _ & r & it' & Hn & Hres). symmetry in Hrem. apply fmap_nil_inv in Hrem as ->.
    destruct Hres as [-> Hpos]. rewrite Hn, bind_Some_eq. exists (SIterTable it'). split; [done|].
    cbn [setTypeReleaseIterator]. by rewrite (release_unsafe addr d b0 b1 it' Hpos).
Qed.

Lemma next_some o X si t rem : set_is o X → set_at o si (t :: rem) →
  ∃ e si', setTypeNext addr key_object o si = Some (Some e, o, si') ∧ ele_text e = t ∧ ele_ok e ∧ set_at o si' rem.
Proof.
  intros [Hshort Ho] Hat. destruct o as [iset|d], si as [ii|it]; try done; cbn [setTypeNext set_at] in *.
  - destruct Hat as (n & l & i & R & -> & Hi & Hrem). destruct (l !! i) as [v|] eqn:E.
    2:{ apply lookup_ge_None in E. rewrite drop_ge in Hrem by done. done. }
    pose proof (lookup_lt_Some _ _ _ E) as Hlt. rewrite (drop_S _ _ _ E) in Hrem. injection Hrem as -> ->.
    rewrite (get_at n iset l i R Hi), E, bind_Some_eq. cbn [option_map]. exists (EleInt v), (SIterIntset (s32 (Z.of_nat i + 1))).
    split; [done|]. split; [done|]. split; [eapply rep_64; [done|by eapply list_elem_of_lookup_2]|].
    exists n, l, (S i). pose proof (rep_small _ _ _ R). rewrite swrap_small by (try lia; split; simpl; lia).
    split; [done|]. split; [lia|]. split; [lia|done].
  - destruct Hat as (b0 & b1 & ps & Hrep & Hrem & Hin & r & it' & Hn & Hres). destruct ps as [|p ps]; [done|]. injection Hrem as -> ->.
    destruct Hres as [-> Hpos]. rewrite Hn, bind_Some_eq.
    destruct (tab_present seed d X b0 b1 p Ho Hrep) as (e & He & Hel); [by apply Hin; left|]. rewrite He, bind_Some_eq.
    destruct (Hkey (de_key e)) as [Ht Hok]; [by apply Hshort|]. exists (EleObj (key_object (de_key e))), (SIterTable it').
    split; [done|]. split; [cbn; unfold tab_key; by rewrite He|]. split; [done|].
    exists b0, b1, ps. split; [done|]. split; [done|]. split; [intros q Hq; apply Hin; by right|].
    by apply (dictNext_run (setDictType seed)).
Qed.

(** *** Conversion *)

Lemma int_texts_snoc l i v : l !! i = Some v → int_texts (take (S i) l) = {[dec_signed v]} ∪ int_texts (take i l).
Proof.
  intros Hv. unfold int_texts. rewrite (take_S_r l i v Hv), fmap_app, list_to_set_app_L. cbn. set_solver.
Qed.

Lemma set_convert_run n iset l d i fuel :
  rep n iset l → tab_rep seed d (int_texts (take i l)) → (i ≤ length l)%nat → (length l - i < fuel)%nat →
  ∃ d', loop fuel (set_convert_body seed addr g key_object (SIntset iset)) (SIterIntset (Z.of_nat i), d) =
      Some (SIterIntset (s32 (zlen l + 1)), d') ∧ tab_rep seed d' (int_texts l).
Proof.
  intros R. pose proof (rep_small _ _ _ R) as Hsm. revert d i. induction fuel as [|fuel IH]; intros d i Hd Hi Hf; [lia|].
  rewrite loop_S. cbn [set_convert_body setTypeNext]. rewrite (get_at n iset l i R Hi), bind_Some_eq. destruct (l !! i) as [v|] eqn:E; cbn [option_map].
  - pose proof (lookup_lt_Some _ _ _ E) as Hlt. assert (in_s 64 v) as Hv by (eapply rep_64; [done|by eapply list_elem_of_lookup_2]).
    rewrite bind_Some_eq, (ll_object v Hv), bind_Some_eq, getDecodedObject_run, bind_Some_eq by done. cbn [robj_text].
    assert (size (int_texts (take i l)) ≤ length l)%nat as Hsz.
    { rewrite <-(int_texts_size n iset l R). apply subseteq_size. intros t. unfold int_texts. rewrite !elem_of_list_to_set, !list_elem_of_fmap.
      intros (x & -> & (j & Hj & _)%elem_of_take). exists x. split; [done|by eapply list_elem_of_lookup_2]. }
    destruct (tab_add seed g d _ (dec_signed v) Hd) as (r & d1 & -> & Hr & Hd1); [lia|]. rewrite bind_Some_eq.
    rewrite Hr, bool_decide_true.
    2:{ rewrite in_int_texts. intros Hin. apply elem_of_take in Hin as (j & Hj & Hji).
        pose proof (NoDup_lookup l i j v (rep_nodup n iset l R) E Hj). lia. }
    rewrite <-(int_texts_snoc l i v E) in Hd1. rewrite swrap_small by (try lia; split; simpl; lia).
    replace (Z.of_nat i + 1) with (Z.of_nat (S i)) by lia. apply IH; [done|lia|lia].
  - apply lookup_ge_None in E. assert (i = length l) as -> by lia. rewrite bind_Some_eq. exists d. split; [done|].
    by rewrite firstn_all in Hd.
Qed.

Lemma set_convert_is n iset l :
  rep n iset l → ∃ d, setTypeConvert seed addr g key_object (SIntset iset) = Some (STable d) ∧ tab_rep seed d (int_texts l).
Proof.
  intros R. pose proof (rep_small _ _ _ R) as Hsm. unfold setTypeConvert, intsetLen. rewrite (rep_length _ _ _ R), bind_Some_eq.
  destruct (tab_expand seed dictCreate ∅ (zlen l) (tab_create seed)) as (r & d & -> & Hd); [by rewrite size_empty|lia|]. rewrite bind_Some_eq.
  destruct (set_convert_run n iset l d 0 (S (Z.to_nat (zlen l))) R Hd) as (d' & Hrun & Hd'); [lia..|].
  cbn [setTypeInitIterator]. change (Z.of_nat 0) with 0 in Hrun. rewrite Hrun, bind_Some_eq. by exists d'.
Qed.

(** *** Single elements *)

Lemma dict_add_is d X v :
  tab_rep seed d X → robj_ok v → Z.of_nat (size X) < 2 ^ 30 →
  ∃ d', set_dict_add seed g d v = Some (bool_decide (robj_text v ∉ X), d') ∧ tab_rep seed d' ({[robj_text v]} ∪ X).
Proof.
  intros Hd Hv Hsz. unfold set_dict_add. rewrite getDecodedObject_run, bind_Some_eq by done.
  destruct (tab_add seed g d X (robj_text v) Hd Hsz) as (r & d' & -> & Hr & Hd'). exists d'. by rewrite bind_Some_eq, Hr.
Qed.

Lemma int_texts_eq l l' v : (∀ x, x ∈ l' ↔ x = v ∨ x ∈ l) → int_texts l' = {[dec_signed v]} ∪ int_texts l.
Proof.
  intros Hl. apply set_eq. intros t. unfold int_texts. rewrite elem_of_union, elem_of_singleton, !elem_of_list_to_set, !list_elem_of_fmap.
  split; [intros (x & -> & [->|Hx]%Hl); eauto|]. intros [->|(x & -> & Hx)]; [exists v|exists x]; split; try done; apply Hl; tauto.
Qed.

Lemma int_texts_diff l l' v : (∀ x, x ∈ l' ↔ x ≠ v ∧ x ∈ l) → int_texts l' = int_texts l ∖ {[dec_signed v]}.
Proof.
  intros Hl. apply set_eq. intros t. unfold int_texts. rewrite elem_of_difference, elem_of_singleton, !elem_of_list_to_set, !list_elem_of_fmap.
  split.
  - intros (x & -> & [Hne Hx]%Hl). split; [by exists x|]. by intros ?%dec_signed_inj.
  - intros [(x & -> & Hx) Hne]. exists x. split; [done|]. apply Hl. split; [|done]. by intros ->.
Qed.

Lemma short_insert (X : gset bytes) v : (∀ t, t ∈ X → zlen t < 2 ^ 31) → robj_ok v → ∀ t : bytes, t ∈ ({[robj_text v]} ∪ X : gset bytes) → zlen t < 2 ^ 31.
Proof. intros HX Hv t. rewrite elem_of_union, elem_of_singleton. intros [->|Ht]; [by apply robj_text_len|by apply HX]. Qed.

(** More members than an integer set is meant for. *)
Definition outgrown (X : gset bytes) : bool := Z.of_nat (size X) >? set_max_intset_entries.

Lemma Add_is o X v :
  set_is o X → robj_ok v → Z.of_nat (size X) < 2 ^ 30 →
  ∃ o', setTypeAdd seed addr g set_max_intset_entries key_object o v = Some (bool_decide (robj_text v ∉ X), o') ∧
    set_is o' ({[robj_text v]} ∪ X) ∧
    is_dict o' = is_dict o || negb (int_text (robj_text v)) || outgrown ({[robj_text v]} ∪ X).
Proof.
  intros [Hshort Ho] Hv Hsz. pose proof (short_insert X v Hshort Hv) as Hshort'. unfold setTypeAdd. destruct o as [iset|d].
  2:{ destruct (dict_add_is d X v Ho Hv Hsz) as (d' & -> & Hd'). rewrite bind_Some_eq. by exists (STable d'). }
  destruct Ho as (n & l & R & -> & Hlen). destruct (representable_run v Hv) as (r & -> & Hr). rewrite bind_Some_eq. destruct r as [w|].
  - destruct (proj1 (Hr w) eq_refl) as [Hw Ht]. rewrite Ht in *. pose proof (rep_small _ _ _ R).
    assert (int_text (dec_signed w) = true) as -> by (apply int_text_spec; eauto). cbn [is_dict negb orb].
    destruct (intsetAdd_spec n iset l w R Hw) as (iset' & n' & l' & -> & R' & _ & Hl'); [lia|]. rewrite bind_Some_eq.
    pose proof (int_texts_eq l l' w Hl') as HX. unfold outgrown. rewrite <-HX in *. rewrite (int_texts_size n' iset' l' R').
    rewrite (bool_decide_ext (dec_signed w ∉ int_texts l) (w ∉ l)) by by rewrite in_int_texts. destruct (decide (w ∈ l)) as [Hin|Hin].
    + rewrite bool_decide_false by tauto. assert (int_texts l' = int_texts l) as HX'.
      { rewrite HX. assert (dec_signed w ∈ int_texts l) by by apply in_int_texts. set_solver. }
      assert (length l' = length l) as Hll by by rewrite <-(int_texts_size n' iset' l' R'), HX', (int_texts_size n iset l R).
      exists (SIntset iset'). split; [done|]. split; [|cbn; lia]. split; [done|]. exists n', l'. split; [done|]. split; [done|lia].
    + rewrite bool_decide_true by done. unfold intsetLen. rewrite (rep_length _ _ _ R'), bind_Some_eq. destruct (zlen l' >? _) eqn:E.
      * destruct (set_convert_is n' iset' l' R') as (d & -> & Hd). rewrite bind_Some_eq. by exists (STable d).
      * rewrite bind_Some_eq. exists (SIntset iset'). split; [done|]. split; [|done]. split; [done|]. exists n', l'. split; [done|]. split; [done|lia].
  - assert (robj_text v ∉ int_texts l) as Hin.
    { unfold int_texts. rewrite elem_of_list_to_set, list_elem_of_fmap. intros (w & Hw & Hel).
      assert (None = Some w) by (apply Hr; split; [by eapply rep_64|done]). done. }
    assert (int_text (robj_text v) = false) as ->.
    { destruct (int_text (robj_text v)) eqn:E; [|done]. apply int_text_spec in E as (w & Hw & Ht).
      assert (None = Some w) by by apply Hr. done. }
    destruct (set_convert_is n iset l R) as (d & -> & Hd). rewrite bind_Some_eq.
    destruct (dict_add_is d (int_texts l) v Hd Hv Hsz) as (d' & -> & Hd'). rewrite bind_Some_eq, bool_decide_true by done.
    by exists (STable d').
Qed.

Lemma short_subset (X Y : gset bytes) : (∀ t, t ∈ X → zlen t < 2 ^ 31) → Y ⊆ X → ∀ t, t ∈ Y → zlen t < 2 ^ 31.
Proof. intros HX HY t Ht. by apply HX, HY. Qed.

Lemma Remove_is o X v :
  set_is o X → robj_ok v → Z.of_nat (size X) < 2 ^ 30 →
  ∃ o', setTypeRemove seed g o v = Some (bool_decide (robj_text v ∈ X), o') ∧ set_is o' (X ∖ {[robj_text v]}) ∧ is_dict o' = is_dict o.
Proof.
  intros [Hshort Ho] Hv Hsz. assert (∀ t, t ∈ X ∖ {[robj_text v]} → zlen t < 2 ^ 31) as Hshort' by (eapply short_subset; [done|set_solver]).
  unfold setTypeRemove. destruct o as [iset|d].
  - destruct Ho as (n & l & R & -> & Hlen). destruct (representable_run v Hv) as (r & -> & Hr). rewrite bind_Some_eq. destruct r as [w|].
    + destruct (proj1 (Hr w) eq_refl) as [Hw Ht]. rewrite Ht in *.
      destruct (intsetRemove_spec n iset l w R Hw) as (iset' & l' & -> & R' & Hl'). rewrite bind_Some_eq.
      rewrite (bool_decide_ext (dec_signed w ∈ int_texts l) (w ∈ l)) by apply in_int_texts. exists (SIntset iset'). split; [done|].
      rewrite <-(int_texts_diff l l' w Hl') in *. split; [|done]. split; [done|]. exists n, l'. split; [done|]. split; [done|].
      assert (l' ⊆ l) as Hsub by (intros x; rewrite Hl'; tauto). pose proof (NoDup_submseteq l' l (rep_nodup _ _ _ R') Hsub) as Hs.
      apply submseteq_length in Hs. lia.
    + assert (robj_text v ∉ int_texts l) as Hin.
      { unfold int_texts. rewrite elem_of_list_to_set, list_elem_of_fmap. intros (w & Hw & Hel).
        assert (None = Some w) by (apply Hr; split; [by eapply rep_64|done]). done. }
      rewrite bool_decide_false by done. exists (SIntset iset). split; [done|]. split; [|done].
      replace (int_texts l ∖ {[robj_text v]}) with (int_texts l) by set_solver. split; [done|]. by exists n, l.
  - rewrite getDecodedObject_run, bind_Some_eq by done.
    destruct (tab_delete seed g d X (robj_text v) Ho Hsz) as (r & d' & -> & Hr & Hd'). rewrite bind_Some_eq, Hr.
    case_bool_decide; [|by exists (STable d')]. destruct (htNeedsResize d'); [|by exists (STable d')].
    destruct (tab_resize seed g d' _ Hd') as (r2 & d2 & -> & Hd2); [|by exists (STable d2)].
    assert (size (X ∖ {[robj_text v]}) ≤ size X)%nat by (apply subseteq_size; set_solver). lia.
Qed.

Lemma IsMember_is o X v :
  set_is o X → robj_ok v →
  ∃ o', setTypeIsMember seed g o v = Some (bool_decide (robj_text v ∈ X), o') ∧ set_is o' X ∧ is_dict o' = is_dict o.
Proof.
  intros [Hshort Ho] Hv. unfold setTypeIsMember. destruct o as [iset|d].
  - destruct Ho as (n & l & R & -> & Hlen). destruct (representable_run v Hv) as (r & -> & Hr). rewrite bind_Some_eq.
    exists (SIntset iset). split; [|split; [|done]; split; [done|by exists n, l]]. destruct r as [w|].
    + destruct (proj1 (Hr w) eq_refl) as [Hw ->]. rewrite (intsetFind_spec n iset l w R Hw), bind_Some_eq. do 2 f_equal.
      apply bool_decide_ext. by rewrite in_int_texts.
    + rewrite bool_decide_false; [done|]. unfold int_texts. rewrite elem_of_list_to_set, list_elem_of_fmap. intros (w & Hw & Hel).
      assert (None = Some w) by (apply Hr; split; [by eapply rep_64|done]). done.
  - rewrite getDecodedObject_run, bind_Some_eq by done.
    destruct (tab_find seed g d X (robj_text v) Ho) as (r & d' & -> & Hr & Hd'). rewrite bind_Some_eq, Hr. by exists (STable d').
Qed.
End operations.
