(* ===== verification/SetAlgebra.v ===== *)
(** * Intersections, unions and differences of set objects

    The loops over the elements of sets in memory, and what they compute. *)

From S2P Require Import Prelude Endian Intset Util Object Dict DictSpec DictMap DictScan Sds SdsText Rdb RdbFormat.
From S2P Require Import ZiplistRefine HashType HashTypeSpec SetType SetTypeSpec.

#[local] Open Scope Z_scope.

(** ** Sets *)

Lemma elements_filter (P : bytes → Prop) `{∀ t, Decision (P t)} (X : gset bytes) ts :
  ts ≡ₚ elements X → filter P ts ≡ₚ elements (filter P X).
Proof.
  intros Hp. apply NoDup_Permutation.
  - apply NoDup_filter. rewrite Hp. apply NoDup_elements.
  - apply NoDup_elements.
  - intros t. rewrite list_elem_of_filter, elem_of_elements, elem_of_filter, Hp, elem_of_elements. done.
Qed.

Lemma subset_size_lt (ts : list bytes) (X : gset bytes) t :
  (∀ u, u ∈ ts → u ∈ X) → t ∈ X → t ∉ ts → (size (list_to_set ts : gset bytes) < size X)%nat.
Proof.
  intros Hsub Ht Hn. apply subset_size. split.
  - intros u. rewrite elem_of_list_to_set. apply Hsub.
  - intros Hc. specialize (Hc t Ht). by rewrite elem_of_list_to_set in Hc.
Qed.

Lemma size_add (D : gset bytes) (t : bytes) : size ({[t]} ∪ D) = if decide (t ∈ D) then size D else S (size D).
Proof.
  case_decide as Ht.
  - by replace ({[t]} ∪ D) with D by set_solver.
  - rewrite size_union by set_solver. by rewrite size_singleton.
Qed.

Lemma list_to_set_snoc (ts : list bytes) (t : bytes) : list_to_set (ts ++ [t]) = ({[t]} ∪ list_to_set ts : gset bytes).
Proof. set_solver. Qed.

Lemma elements_set (ts : list bytes) (X : gset bytes) : ts ≡ₚ elements X → list_to_set ts = X.
Proof. intros Hp. apply set_eq. intros t. by rewrite elem_of_list_to_set, Hp, elem_of_elements. Qed.

Lemma size_diff_le (X Y : gset bytes) : (size (X ∖ Y) ≤ size X)%nat.
Proof. apply subseteq_size. set_solver. Qed.

Lemma size_without (D : gset bytes) (t : bytes) : t ∈ D → size D = S (size (D ∖ {[t]})).
Proof.
  intros Ht. assert ({[t]} ∪ D ∖ {[t]} = D) as HD.
  { apply set_eq. intros u. rewrite elem_of_union, elem_of_difference, elem_of_singleton. destruct (decide (u = t)) as [->|]; tauto. }
  rewrite <-HD at 1. rewrite size_add, decide_False; [done|]. set_solver.
Qed.

Lemma size_list_to_set_le (ts : list bytes) : (size (list_to_set ts : gset bytes) ≤ length ts)%nat.
Proof.
  induction ts as [|t ts IH]; [done|]. change (size ({[t]} ∪ list_to_set ts : gset bytes) ≤ S (length ts))%nat. rewrite size_add. case_decide; lia.
Qed.

Lemma size_union_le (X Y : gset bytes) : (size (X ∪ Y) ≤ size X + size Y)%nat.
Proof. rewrite size_union_alt. pose proof (size_diff_le Y X). lia. Qed.

Lemma empty_minus (X : gset bytes) : ∅ ∖ X = ∅.
Proof. set_solver. Qed.

Lemma minus_empty (X : gset bytes) : X ∖ ∅ = X.
Proof. set_solver. Qed.

Lemma meet_empty (X : gset bytes) : X ∩ ∅ = ∅.
Proof. set_solver. Qed.

Lemma empty_meet (X : gset bytes) : ∅ ∩ X = ∅.
Proof. set_solver. Qed.

Lemma union_swap (t : bytes) (T X : gset bytes) : {[t]} ∪ T ∪ X = T ∪ ({[t]} ∪ X).
Proof. set_solver. Qed.

Lemma minus_present (t : bytes) (T X : gset bytes) : t ∈ X → ({[t]} ∪ T) ∖ X = T ∖ ({[t]} ∪ X).
Proof. set_solver. Qed.

Lemma minus_new (t : bytes) (T X : gset bytes) : t ∉ X → ({[t]} ∪ T) ∖ X = {[t]} ∪ T ∖ ({[t]} ∪ X).
Proof. intros Ht. apply set_eq. intros u. destruct (decide (u = t)) as [->|]; set_solver. Qed.

Lemma minus_both (t : bytes) (T X : gset bytes) : X ∖ ({[t]} ∪ T) = X ∖ {[t]} ∖ T.
Proof. set_solver. Qed.

Lemma meet_present (t : bytes) (T X : gset bytes) : t ∈ X → X ∩ ({[t]} ∪ T) = {[t]} ∪ (X ∖ {[t]}) ∩ T.
Proof. intros Ht. apply set_eq. intros u. destruct (decide (u = t)) as [->|]; set_solver. Qed.

Lemma meet_absent (t : bytes) (T X : gset bytes) : t ∉ X → X ∩ ({[t]} ∪ T) = X ∩ T.
Proof. set_solver. Qed.

Lemma minus_absent (t : bytes) (X : gset bytes) : t ∉ X → X ∖ {[t]} = X.
Proof. set_solver. Qed.

Section algebra.
Context {host : Host} {alloc : Allocator} {locs : EntryAllocator} {sorting : Qsort}.
Context (seed : Z) (addr : Z → Z) (g : dictGlobals) (set_max_intset_entries : Z) (key_object : bytes → robj).
Context (Hmax : 0 ≤ set_max_intset_entries < 2 ^ 28 - 1).
Context (Hkey : ∀ t, zlen t < 2 ^ 31 → robj_text (key_object t) = t ∧ robj_ok (key_object t)).

Notation is_set := (set_is seed set_max_intset_entries).

(** The objects in the heap [h] stand for the sets [H]. *)
Definition heap_is (h : set_space) (H : gmap loc (gset bytes)) : Prop := map_Forall2 (λ _ o X, is_set o X) h H.

Lemma heap_is_lookup h H s X : heap_is h H → H !! s = Some X → ∃ o, h !! s = Some o ∧ is_set o X.
Proof. intros Hh HX. specialize (Hh s). rewrite HX in Hh. inversion Hh; subst. eauto. Qed.

Lemma heap_is_none h H s : heap_is h H → H !! s = None → h !! s = None.
Proof. intros Hh HX. specialize (Hh s). rewrite HX in Hh. by inversion Hh. Qed.

(** A key that does not exist is an empty set. *)
Definition members (H : gmap loc (gset bytes)) (s : option loc) : gset bytes := default ∅ (p ← s; H !! p).

Lemma heap_is_update h H s o X : heap_is h H → H !! s = Some X → is_set o X → heap_is (<[s := o]> h) H.
Proof. intros Hh HX Ho. rewrite <-(insert_id H s X HX). by apply map_Forall2_insert_2. Qed.

Lemma set_size_bound o X : is_set o X → Z.of_nat (size X) ≤ 2 ^ 30.
Proof.
  intros [_ Ho]. destruct o as [iset|d].
  - destruct Ho as (n & l & R & -> & _). rewrite (int_texts_size n iset l R). pose proof (rep_small _ _ _ R). lia.
  - destruct Ho as [(b0 & b1 & Hrep) ->]. pose proof (rep_bound _ _ _ _ Hrep) as Hb. rewrite size_dom, (dict_map_size (setDictType seed)); [done|].
    by exists b0, b1.
Qed.

(** ** One set after the other *)

Section foreach.
Context {St : Type} (s : loc) (f : set_ele → set_space * St → option (set_space * St)) (H : gmap loc (gset bytes)).
Context (X : gset bytes) (o : set_robj) (Inv : list bytes → St → Prop).
Context (Ho : is_set o X).
Context (Hstep : ∀ ts e h x, Inv ts x → heap_is h H → h !! s = Some o → ele_ok e → ele_text e ∈ X → ele_text e ∉ ts → (∀ t, t ∈ ts → t ∈ X) →
  ∃ h' x', f e (h, x) = Some (h', x') ∧ Inv (ts ++ [ele_text e]) x' ∧ heap_is h' H ∧ h' !! s = Some o).

Lemma foreach_loop rem ts h si x fuel :
  set_at seed addr o si rem → ts ++ rem ≡ₚ elements X → Inv ts x → heap_is h H → h !! s = Some o → (length rem < fuel)%nat →
  ∃ h' si' x', loop fuel (foreach_body addr key_object s f) (h, si, x) = Some (h', si', x') ∧ Inv (ts ++ rem) x' ∧ heap_is h' H ∧
    h' !! s = Some o ∧ setTypeReleaseIterator addr o si' = Some o.
Proof.
  revert rem ts h si x. induction fuel as [|fuel IH]; intros rem ts h si x Hat Hperm HI Hh Hs Hf; [lia|].
  rewrite loop_S. cbn [foreach_body]. rewrite Hs, bind_Some_eq. destruct rem as [|t rem].
  - destruct (next_none seed addr key_object o si Hat) as (si' & -> & Hrel). rewrite bind_Some_eq, insert_id by done.
    exists h, si', x. by rewrite app_nil_r.
  - destruct (next_some seed addr set_max_intset_entries key_object Hkey o X si t rem Ho Hat) as (e & si' & -> & Ht & He & Hat').
    rewrite bind_Some_eq, insert_id by done. assert (NoDup (ts ++ t :: rem)) as Hnd by (rewrite Hperm; apply NoDup_elements).
    destruct (Hstep ts e h x HI Hh Hs He) as (h1 & x1 & -> & HI1 & Hh1 & Hs1).
    + rewrite Ht, <-elem_of_elements, <-Hperm. apply elem_of_app. right. left.
    + rewrite Ht. intros Hin. apply NoDup_app in Hnd as (_ & Hd & _). apply (Hd t Hin). left.
    + intros u Hu. rewrite <-elem_of_elements, <-Hperm. apply elem_of_app. by left.
    + rewrite bind_Some_eq, Ht in *. replace (ts ++ t :: rem) with ((ts ++ [t]) ++ rem) in * by by rewrite <-app_assoc.
      apply (IH rem (ts ++ [t]) h1 si' x1); [done..|]. simpl in Hf. lia.
Qed.

Lemma foreach_run h x :
  heap_is h H → h !! s = Some o → Inv [] x →
  ∃ ts h' x', set_foreach addr key_object s f h x = Some (h', x') ∧ Inv ts x' ∧ ts ≡ₚ elements X ∧ heap_is h' H ∧ h' !! s = Some o.
Proof.
  intros Hh Hs HI. unfold set_foreach. rewrite Hs, bind_Some_eq, (size_is seed _ o X Ho), bind_Some_eq, Nat2Z.id.
  destruct (init_at seed addr _ o X Ho) as (ts & Hat & Hperm).
  destruct (foreach_loop ts [] h (setTypeInitIterator o) x (S (size X)) Hat) as (h' & si' & x' & -> & HI' & Hh' & Hs' & Hrel); [done..| |].
  - apply Permutation_length in Hperm. unfold size, set_size. cbn. lia.
  - rewrite bind_Some_eq, Hs', bind_Some_eq, Hrel, bind_Some_eq, insert_id by done. by exists ts, h', x'.
Qed.
End foreach.

Lemma member_at_run h H s X v :
  heap_is h H → H !! s = Some X → robj_ok v →
  ∃ h', member_at seed g h s v = Some (bool_decide (robj_text v ∈ X), h') ∧ heap_is h' H ∧ ∀ p, p ≠ s → h' !! p = h !! p.
Proof.
  intros Hh HX Hv. destruct (heap_is_lookup h H s X Hh HX) as (o & Hs & Ho). unfold member_at. rewrite Hs, bind_Some_eq.
  destruct (IsMember_is seed g _ o X v Ho Hv) as (o' & -> & Ho' & _). rewrite bind_Some_eq. exists (<[s := o']> h).
  split; [done|]. split; [by eapply heap_is_update|]. intros p Hp. by rewrite lookup_insert_ne.
Qed.

Lemma ele_object_run e : ele_ok e → ∃ o, ele_object e = Some o ∧ robj_text o = ele_text e ∧ robj_ok o.
Proof. intros He. destruct e as [o|n]; [by exists o|]. exists (IntObj n). by rewrite <-(ll_object n He). Qed.

Lemma ele_bulk_run e : ele_ok e → ele_bulk e = Some (ele_text e).
Proof.
  intros He. destruct e as [o|n]; cbn [ele_bulk ele_text]; [by apply getDecodedObject_run|]. apply bulk_of_value_run. by intros m [= <-].
Qed.

(** The keys name sets in the heap. *)
Definition known (H : gmap loc (gset bytes)) (s : option loc) : Prop := match s with Some p => is_Some (H !! p) | None => True end.

Lemma known_members H p : known H (Some p) → H !! p = Some (members H (Some p)).
Proof. intros [X HX]. unfold members. cbn. by rewrite HX. Qed.

(** ** Intersections *)

Lemma intset_member iset X n :
  is_set (SIntset iset) X → in_s 64 n → intsetFind iset n = Some (bool_decide (dec_signed n ∈ X)).
Proof.
  intros [_ (w & l & R & -> & _)] Hn. rewrite (intsetFind_spec w iset l n R Hn). f_equal. apply bool_decide_ext. by rewrite in_int_texts.
Qed.

Lemma inter_test_run h H s X e :
  heap_is h H → H !! s = Some X → ele_ok e →
  ∃ o h', h !! s = Some o ∧ heap_is h' H ∧ (∀ p, p ≠ s → h' !! p = h !! p) ∧
    match e, o with
    | EleInt intobj, SIntset iset => b ← intsetFind iset intobj; Some (b, h)
    | EleInt intobj, STable _ => eleobj ← createStringObjectFromLongLong intobj; member_at seed g h s eleobj
    | EleObj eleobj, _ =>
      fast ← match eleobj, o with
        | IntObj n, SIntset iset => b ← intsetFind iset n; Some (negb b)
        | _, _ => Some false
        end;
      if fast : bool then Some (false, h) else member_at seed g h s eleobj
    end = Some (bool_decide (ele_text e ∈ X), h').
Proof.
  intros Hh HX He. destruct (heap_is_lookup h H s X Hh HX) as (o & Hs & Ho). exists o. destruct e as [v|n].
  - destruct (member_at_run h H s X v Hh HX He) as (h' & Hm & Hh' & Hp). destruct v as [t|n]; [by exists h'|].
    destruct o as [iset|d]; [|by exists h']. rewrite (intset_member iset X n Ho He), !bind_Some_eq. cbn [ele_text robj_text] in *.
    case_bool_decide; cbn [negb]; [by exists h'|by exists h].
  - destruct o as [iset|d]; [exists h; by rewrite (intset_member iset X n Ho He)|]. rewrite (ll_object n He), bind_Some_eq.
    destruct (member_at_run h H s X (IntObj n) Hh HX He) as (h' & Hm & Hh' & Hp). by exists h'.
Qed.

Lemma inter_others_run H first sets e h :
  heap_is h H → Forall (λ s, s ≠ None ∧ known H s) sets → ele_ok e →
  ∃ h', inter_others seed g (Some first) sets e h =
      Some (bool_decide (Forall (λ s, s ≠ Some first → ele_text e ∈ members H s) sets), h') ∧
    heap_is h' H ∧ h' !! first = h !! first.
Proof.
  intros Hh Hsets He. revert h Hh. induction Hsets as [|s sets [Hs Hkn] Hsets IH]; intros h Hh.
  - exists h. by rewrite bool_decide_true.
  - cbn [inter_others]. case_decide as Heq.
    + destruct (IH h Hh) as (h' & -> & Hh' & Hf). exists h'. split; [|done]. do 2 f_equal. apply bool_decide_ext. rewrite Forall_cons. tauto.
    + destruct s as [p|]; [|done]. rewrite bind_Some_eq. pose proof (known_members H p Hkn) as HX.
      destruct (inter_test_run h H p _ e Hh HX He) as (o & h1 & -> & Hh1 & Hp & Htest). rewrite bind_Some_eq, Htest, bind_Some_eq.
      assert (h1 !! first = h !! first) as Hf1 by (apply Hp; congruence). case_bool_decide as Hin.
      * destruct (IH h1 Hh1) as (h' & -> & Hh' & Hf). exists h'. split; [|by rewrite <-Hf1]. do 2 f_equal. apply bool_decide_ext.
        rewrite Forall_cons. tauto.
      * exists h1. split; [|done]. rewrite bool_decide_false; [done|]. rewrite Forall_cons. intros [Hm _]. by apply Hin, Hm.
Qed.

(** What is answered for the set [R]: its members once each, or the destination, absent when empty. *)
Definition result_is (store : bool) (r : set_result) (R : gset bytes) : Prop :=
  match r with
  | SetReply ts => store = false ∧ ts ≡ₚ elements R
  | SetStored dst n => store = true ∧ n = Z.of_nat (size R) ∧ match dst with None => R = ∅ | Some o => R ≠ ∅ ∧ is_set o R end
  end.

Lemma store_set_run o R : is_set o R → ∃ r, store_set o = Some r ∧ result_is true r R.
Proof.
  intros Ho. unfold store_set. rewrite (size_is seed _ o R Ho), bind_Some_eq. eexists. split; [done|].
  destruct (_ >? 0) eqn:E; cbn.
  - split; [done|]. split; [done|]. split; [|done]. intros ->. rewrite size_empty in E. done.
  - assert (size R = 0%nat) as Hz by lia. rewrite Hz. apply size_empty_inv in Hz. split; [done|]. split; [done|]. by apply leibniz_equiv.
Qed.

Lemma add_new_is dst D e :
  is_set dst D → robj_ok e → robj_text e ∉ D → Z.of_nat (size D) < 2 ^ 30 →
  ∃ dst', setTypeAdd seed addr g set_max_intset_entries key_object dst e = Some (true, dst') ∧ is_set dst' ({[robj_text e]} ∪ D).
Proof.
  intros Hd He Hnew Hsz. destruct (Add_is seed addr g _ key_object Hmax Hkey dst D e Hd He Hsz) as (dst' & -> & Hd' & _).
  exists dst'. by rewrite bool_decide_true.
Qed.

Section inter.
Context (H : gmap loc (gset bytes)) (first : loc) (others : list (option loc)) (store : bool).

(** The element is in all the sets. *)
Definition in_others (t : bytes) : Prop := Forall (λ s, s ≠ Some first → t ∈ members H s) others.
#[local] Instance in_others_dec t : Decision (in_others t).
Proof. unfold in_others. apply _. Defined.

Definition inter_inv (ts : list bytes) (x : list bytes * option set_robj) : Prop :=
  if store then x.1 = [] ∧ ∃ dst, x.2 = Some dst ∧ is_set dst (list_to_set (filter in_others ts)) else x.1 = reverse (filter in_others ts).

Lemma inter_ele_run (X : gset bytes) ts e h x :
  inter_inv ts x → heap_is h H → ele_ok e → Forall (λ s, s ≠ None ∧ known H s) others →
  ele_text e ∈ X → ele_text e ∉ ts → (∀ t, t ∈ ts → t ∈ X) → Z.of_nat (size X) ≤ 2 ^ 30 →
  ∃ h' x', inter_ele seed addr g set_max_intset_entries key_object store (Some first) others e (h, x) = Some (h', x') ∧
    inter_inv (ts ++ [ele_text e]) x' ∧ heap_is h' H ∧ h' !! first = h !! first.
Proof.
  intros HI Hh He Hothers Hin Hnew Hsub Hsz. destruct x as [out dst]. cbn [inter_ele].
  destruct (inter_others_run H first others e h Hh Hothers He) as (h' & -> & Hh' & Hf). rewrite bind_Some_eq.
  fold (in_others (ele_text e)). unfold inter_inv in *. rewrite filter_app. cbn [fst snd] in *.
  case_bool_decide as Hall; cbn [negb].
  2:{ exists h', (out, dst). rewrite filter_cons_False, filter_nil, app_nil_r by done. by destruct store. }
  rewrite filter_cons_True, filter_nil by done. destruct store.
  - destruct HI as (-> & o1 & -> & Hd). rewrite bind_Some_eq. destruct (ele_object_run e He) as (o & -> & Ht & Hok). rewrite bind_Some_eq.
    destruct (add_new_is o1 _ o Hd Hok) as (dst' & -> & Hd').
    + rewrite Ht, elem_of_list_to_set, list_elem_of_filter. tauto.
    + assert (size (list_to_set (filter in_others ts) : gset bytes) < size X)%nat; [|lia]. eapply subset_size_lt; [|exact Hin|].
      * intros u [_ Hu]%list_elem_of_filter. by apply Hsub.
      * rewrite list_elem_of_filter. tauto.
    + rewrite bind_Some_eq. exists h', ([], Some dst'). split; [done|]. split; [|done]. split; [done|]. exists dst'. split; [done|].
      rewrite Ht in Hd'. replace (list_to_set _) with ({[ele_text e]} ∪ list_to_set (filter in_others ts) : gset bytes); [done|]. set_solver.
  - rewrite (ele_bulk_run e He), bind_Some_eq. exists h', (ele_text e :: out, dst). split; [done|]. split; [|done].
    cbn [fst]. by rewrite HI, reverse_app.
Qed.
End inter.
#[local] Existing Instance in_others_dec.

(** The texts that are in each of the sets. *)
Definition inter_of (H : gmap loc (gset bytes)) (sets : list (option loc)) : gset bytes :=
  match sets with [] => ∅ | s :: sets => filter (λ t, Forall (λ s, t ∈ members H s) sets) (members H s) end.

Lemma in_inter_of H sets t : sets ≠ [] → t ∈ inter_of H sets ↔ Forall (λ s, t ∈ members H s) sets.
Proof using Type. intros Hne. destruct sets as [|s sets]; [done|]. cbn. rewrite elem_of_filter, Forall_cons. apply and_comm. Qed.

Lemma inter_of_perm H sets sets' : sets ≡ₚ sets' → inter_of H sets = inter_of H sets'.
Proof.
  intros Hp. destruct (decide (sets = [])) as [->|Hne]; [by apply Permutation_nil_l in Hp as ->|].
  assert (sets' ≠ []) by (intros ->; by apply Permutation_nil_r in Hp). apply set_eq. intros t. rewrite !in_inter_of by done. by rewrite Hp.
Qed.

Lemma size_at_run h H s : heap_is h H → known H s → is_Some (size_at h s).
Proof.
  intros Hh Hs. destruct s as [p|]; [|done]. destruct Hs as [X HX]. destruct (heap_is_lookup h H p X Hh HX) as (o & Ho & Hset). cbn. rewrite Ho, bind_Some_eq.
  rewrite (size_is seed _ o X Hset). by eexists.
Qed.

Lemma sinter_run h H setobjs store :
  heap_is h H → Forall (known H) setobjs → setobjs ≠ [] →
  ∃ r h', sinterGeneric seed addr g set_max_intset_entries key_object h setobjs store = Some (r, h') ∧
    result_is store r (inter_of H setobjs) ∧ heap_is h' H.
Proof.
  intros Hh Hkn Hne. unfold sinterGeneric. destruct (existsb _ setobjs) eqn:E.
  { exists (if store then SetStored None 0 else SetReply []), h. split; [done|]. split; [|done].
    assert (inter_of H setobjs = ∅) as ->.
    { apply set_eq. intros t. rewrite in_inter_of by done. split; [|set_solver]. intros Hall. apply existsb_exists in E as (s & Hs & Hn).
      apply bool_decide_eq_true in Hn as ->. rewrite Forall_forall in Hall. apply list_elem_of_In in Hs. by apply Hall in Hs. }
    destruct store; [done|]. split; [done|]. by rewrite elements_empty. }
  assert (Forall (λ s, s ≠ None ∧ known H s) setobjs) as Hall.
  { apply Forall_forall. intros s Hs. rewrite Forall_forall in Hkn. split; [|by apply Hkn]. intros ->.
    assert (existsb (λ s, bool_decide (s = None)) setobjs = true); [|congruence]. apply existsb_exists. exists None.
    split; [by apply list_elem_of_In|done]. }
  destruct (qsort_perm (qsortCompareSetsByCardinality h) setobjs) as (sets & -> & Hperm).
  { intros x y Hx Hy. rewrite Forall_forall in Hall. destruct (Hall x Hx) as [Hx1 Hx2], (Hall y Hy) as [Hy1 Hy2].
    destruct x as [p|], y as [q|]; try done. unfold qsortCompareSetsByCardinality. rewrite !bind_Some_eq.
    destruct (size_at_run h H _ Hh Hx2) as [a ->], (size_at_run h H _ Hh Hy2) as [b ->]. by eexists. }
  rewrite bind_Some_eq. destruct (create_intset_is seed set_max_intset_entries key_object Hmax Hkey) as (o0 & Hnew0 & Hdst & _).
  assert (∃ dst, (if store then dst ← createIntsetObject; Some (Some dst) else Some None) = Some dst ∧ (store = true → dst = Some o0)) as (dst & -> & Hdst').
  { destruct store; [exists (Some o0); by rewrite Hnew0|by exists None]. }
  rewrite bind_Some_eq.
  rewrite <-(inter_of_perm H sets setobjs Hperm). rewrite <-Hperm in Hall. destruct sets as [|s others].
  { by apply Permutation_nil_l in Hperm. }
  apply Forall_cons in Hall as [[Hs Hks] Hall]. destruct s as [first|]; [|done].
  pose proof (known_members H first Hks) as HX. destruct (heap_is_lookup h H first _ Hh HX) as (o & Ho & Hset).
  assert (Forall (λ s, s ≠ None ∧ known H s) others) as Hothers by exact Hall.
  destruct (foreach_run first (inter_ele seed addr g set_max_intset_entries key_object store (Some first) others) H
    (members H (Some first)) o (inter_inv H first others store) Hset) with (h := h) (x := (@nil bytes, dst))
    as (ts & h' & [out dst'] & -> & HI & Hts & Hh' & _); [|done|done| |].
  { intros ts e h1 x HI Hh1 Ho1 He Hin Hnew Hsub.
    destruct (inter_ele_run H first others store _ ts e h1 x HI Hh1 He Hothers Hin Hnew Hsub) as (h2 & x2 & Hrun & HI2 & Hh2 & Hf2);
      [by eapply set_size_bound|]. exists h2, x2. by rewrite Hf2. }
  { unfold inter_inv. destruct store; [|done]. split; [done|]. exists o0. by rewrite Hdst'. }
  rewrite bind_Some_eq.
  assert (filter (in_others H first others) ts ≡ₚ elements (inter_of H (Some first :: others))) as Hres.
  { rewrite (elements_filter (in_others H first others) _ ts Hts). apply NoDup_Permutation; [apply NoDup_elements..|]. intros t.
    rewrite !elem_of_elements, elem_of_filter, in_inter_of, Forall_cons by done. unfold in_others. rewrite !Forall_forall. split.
    - intros [Hf Ht]. split; [done|]. intros s Hs'. destruct (decide (s = Some first)) as [->|]; [done|]. by apply Hf.
    - intros [Ht Hf]. split; [|done]. intros s Hs' _. by apply Hf. }
  destruct store; cbn [inter_inv] in HI.
  - destruct HI as (_ & o1 & Heq & Hd). cbn [snd] in Heq. subst dst'. rewrite bind_Some_eq. destruct (store_set_run o1 _ Hd) as (r & -> & Hr). rewrite bind_Some_eq. exists r, h'. split; [done|].
    split; [|done]. replace (inter_of H (Some first :: others)) with (list_to_set (filter (in_others H first others) ts) : gset bytes); [done|].
    apply set_eq. intros t. rewrite elem_of_list_to_set, Hres. apply elem_of_elements.
  - exists (SetReply (reverse out)), h'. split; [done|]. split; [|done]. split; [done|]. cbn [fst] in HI. by rewrite HI, reverse_involutive.
Qed.

(** ** Unions *)

Definition union_of (H : gmap loc (gset bytes)) (sets : list (option loc)) : gset bytes := ⋃ (members H <$> sets).

Lemma union_of_nil H : union_of H [] = ∅.
Proof. done. Qed.

Lemma union_of_none H sets : union_of H (None :: sets) = union_of H sets.
Proof. change (∅ ∪ union_of H sets = union_of H sets). by rewrite (left_id_L ∅ (∪)). Qed.

Lemma union_of_cons H s sets : union_of H (s :: sets) = members H s ∪ union_of H sets.
Proof. done. Qed.

(** The temporary set stands for [D], and the counter is its size. *)
Definition tmp_is (D : gset bytes) (x : set_robj * Z) : Prop := is_set x.1 D ∧ x.2 = Z.of_nat (size D).

Lemma union_ele_run D e h x :
  tmp_is D x → ele_ok e → Z.of_nat (size D) < 2 ^ 30 →
  ∃ x', union_ele seed addr g set_max_intset_entries key_object e (h, x) = Some (h, x') ∧ tmp_is ({[ele_text e]} ∪ D) x'.
Proof.
  intros [Hd Hc] He Hsz. destruct x as [dst c]. cbn [fst snd] in *. cbn [union_ele].
  destruct (ele_object_run e He) as (o & -> & Ht & Hok). rewrite bind_Some_eq.
  destruct (Add_is seed addr g _ key_object Hmax Hkey dst D o Hd Hok Hsz) as (dst' & -> & Hd' & _). rewrite bind_Some_eq, Ht in *.
  eexists. split; [done|]. split; [done|]. cbn [snd]. rewrite size_add. destruct (decide (ele_text e ∈ D)).
  - by rewrite bool_decide_false by tauto.
  - rewrite bool_decide_true by done. rewrite swrap_small; [lia..|]. split; simpl; lia.
Qed.

(** All of one set goes into the temporary set. *)
Lemma union_one_run H s D h x :
  heap_is h H → known H (Some s) → tmp_is D x → Z.of_nat (size (D ∪ members H (Some s))) < 2 ^ 30 →
  ∃ h' x', set_foreach addr key_object s (union_ele seed addr g set_max_intset_entries key_object) h x = Some (h', x') ∧
    tmp_is (D ∪ members H (Some s)) x' ∧ heap_is h' H.
Proof.
  intros Hh Hkn Hx Hsz. pose proof (known_members H s Hkn) as HX. destruct (heap_is_lookup h H s _ Hh HX) as (o & Ho & Hset).
  destruct (foreach_run s (union_ele seed addr g set_max_intset_entries key_object) H (members H (Some s)) o
    (λ ts, tmp_is (D ∪ list_to_set ts)) Hset) with (h := h) (x := x) as (ts & h' & x' & Hrun & HI & Hts & Hh' & _); [|done|done| |].
  - intros ts e h1 x1 HI Hh1 Ho1 He Hin Hnew Hsub.
    assert (D ∪ list_to_set ts ⊆ D ∪ members H (Some s)) as Hss.
    { apply union_mono; [done|]. intros t. rewrite elem_of_list_to_set. apply Hsub. }
    apply subseteq_size in Hss. destruct (union_ele_run _ e h1 x1 HI He) as (x2 & Hrun & HI2); [lia|]. exists h1, x2.
    split; [done|]. split; [|done]. rewrite list_to_set_snoc. by replace (D ∪ ({[ele_text e]} ∪ list_to_set ts)) with ({[ele_text e]} ∪ (D ∪ list_to_set ts)) by set_solver.
  - by replace (D ∪ list_to_set []) with D by set_solver.
  - exists h', x'. rewrite (elements_set ts _ Hts) in HI. done.
Qed.

Lemma union_sets_run H sets D h x :
  heap_is h H → Forall (known H) sets → tmp_is D x → Z.of_nat (size (D ∪ union_of H sets)) < 2 ^ 30 →
  ∃ h' x', union_sets seed addr g set_max_intset_entries key_object sets h x = Some (h', x') ∧ tmp_is (D ∪ union_of H sets) x' ∧ heap_is h' H.
Proof.
  intros Hh Hkn. revert D h x Hh. induction Hkn as [|s sets Hs Hkn IH]; intros D h x Hh Hx Hsz.
  - exists h, x. by rewrite union_of_nil, (right_id_L ∅ (∪)).
  - destruct s as [s|]; cbn [union_sets]; [rewrite union_of_cons in *|rewrite union_of_none in *; by apply IH].
    destruct (union_one_run H s D h x Hh Hs Hx) as (h1 & x1 & -> & Hx1 & Hh1).
    { assert (D ∪ members H (Some s) ⊆ D ∪ (members H (Some s) ∪ union_of H sets)) as Hss by set_solver. apply subseteq_size in Hss. lia. }
    rewrite bind_Some_eq. rewrite (assoc_L (∪)) in *. by apply IH.
Qed.

(** ** Differences *)

Lemma diff_others_run H first sets o h :
  heap_is h H → Forall (known H) sets → robj_ok o → robj_text o ∈ members H (Some first) →
  ∃ h', diff_others seed g (Some first) sets o h = Some (bool_decide (robj_text o ∉ union_of H sets), h') ∧ heap_is h' H ∧ h' !! first = h !! first.
Proof.
  intros Hh Hkn Ho Hin. revert h Hh. induction Hkn as [|s sets Hs Hkn IH]; intros h Hh.
  - exists h. rewrite bool_decide_true; [done|]. rewrite union_of_nil. apply not_elem_of_empty.
  - destruct s as [s|]; cbn [diff_others]; [rewrite union_of_cons|rewrite union_of_none; by apply IH].
    destruct (decide (Some s = Some first)) as [Heq|Heq].
    { exists h. rewrite Heq, bool_decide_false; [done|]. set_solver. }
    destruct (member_at_run h H s _ o Hh (known_members H s Hs) Ho) as (h1 & -> & Hh1 & Hp). rewrite bind_Some_eq.
    assert (h1 !! first = h !! first) as Hf by (apply Hp; congruence). destruct (decide (robj_text o ∈ members H (Some s))) as [Hm|Hm].
    + rewrite (bool_decide_true (_ ∈ _)) by done. exists h1. rewrite bool_decide_false by set_solver. done.
    + rewrite (bool_decide_false (_ ∈ _)) by done. destruct (IH h1 Hh1) as (h' & -> & Hh' & Hf'). exists h'. split; [|by rewrite <-Hf].
      do 2 f_equal. apply bool_decide_ext. set_solver.
Qed.

Lemma diff_ele_run H first others ts e h x :
  tmp_is (list_to_set ts ∖ union_of H others) x → heap_is h H → Forall (known H) others → ele_ok e →
  ele_text e ∈ members H (Some first) → ele_text e ∉ ts → (∀ t, t ∈ ts → t ∈ members H (Some first)) →
  Z.of_nat (size (members H (Some first))) ≤ 2 ^ 30 →
  ∃ h' x', diff_ele seed addr g set_max_intset_entries key_object (Some first) others e (h, x) = Some (h', x') ∧
    tmp_is (list_to_set (ts ++ [ele_text e]) ∖ union_of H others) x' ∧ heap_is h' H ∧ h' !! first = h !! first.
Proof.
  destruct x as [dst c]. intros [Hd Hc] Hh Hothers He Hin Hnew Hsub Hbound. cbn [fst snd] in *. cbn [diff_ele].
  destruct (ele_object_run e He) as (eo & -> & Ht & Hok). rewrite bind_Some_eq.
  destruct (diff_others_run H first others eo h Hh Hothers Hok) as (h2 & -> & Hh2 & Hf2); [by rewrite Ht|]. rewrite bind_Some_eq, Ht.
  rewrite list_to_set_snoc. destruct (decide (ele_text e ∈ union_of H others)) as [Hout|Hout];
    [rewrite bool_decide_false by tauto|rewrite bool_decide_true by done].
  - exists h2, (dst, c). split; [done|]. split; [|done].
    replace (({[ele_text e]} ∪ list_to_set ts) ∖ union_of H others) with (list_to_set ts ∖ union_of H others : gset bytes); [done|].
    apply set_eq. intros t. rewrite !elem_of_difference, elem_of_union, elem_of_singleton. split; [tauto|].
    intros [[->|Hts] Hn]; [done|tauto].
  - assert (size (list_to_set ts ∖ union_of H others : gset bytes) < size (members H (Some first)))%nat as Hlt.
    { eapply Nat.le_lt_trans; [apply size_diff_le|]. by eapply subset_size_lt. }
    assert (ele_text e ∉ (list_to_set ts ∖ union_of H others : gset bytes)) as Hn by (rewrite elem_of_difference, elem_of_list_to_set; tauto).
    destruct (add_new_is dst _ eo Hd Hok) as (dst' & -> & Hd'); [by rewrite Ht|lia|]. rewrite bind_Some_eq, Ht in *.
    eexists h2, _. split; [done|]. split; [|done].
    replace (({[ele_text e]} ∪ list_to_set ts) ∖ union_of H others) with ({[ele_text e]} ∪ list_to_set ts ∖ union_of H others : gset bytes) by set_solver.
    split; [done|]. cbn [snd]. rewrite size_add, decide_False by done. rewrite swrap_small; [lia..|]. split; simpl; lia.
Qed.

Lemma diff_one_run H first others h x :
  heap_is h H → known H (Some first) → Forall (known H) others → tmp_is ∅ x →
  ∃ h' x', set_foreach addr key_object first (diff_ele seed addr g set_max_intset_entries key_object (Some first) others) h x = Some (h', x') ∧
    tmp_is (members H (Some first) ∖ union_of H others) x' ∧ heap_is h' H.
Proof.
  intros Hh Hkn Hothers Hx. pose proof (known_members H first Hkn) as HX. destruct (heap_is_lookup h H first _ Hh HX) as (o & Ho & Hset).
  destruct (foreach_run first (diff_ele seed addr g set_max_intset_entries key_object (Some first) others) H (members H (Some first)) o
    (λ ts, tmp_is (list_to_set ts ∖ union_of H others)) Hset) with (h := h) (x := x) as (ts & h' & x' & Hrun & HI & Hts & Hh' & _); [|done|done| |].
  - intros ts e h1 x1 HI Hh1 Ho1 He Hin Hnew Hsub. rewrite <-Ho1. apply diff_ele_run; try done. by eapply set_size_bound.
  - by replace (list_to_set [] ∖ union_of H others) with (∅ : gset bytes) by set_solver.
  - exists h', x'. rewrite (elements_set ts _ Hts) in HI. done.
Qed.

Lemma remove_ele_run D e h x :
  tmp_is D x → ele_ok e → Z.of_nat (size D) < 2 ^ 30 →
  ∃ x', remove_ele seed g e (h, x) = Some (h, x') ∧ tmp_is (D ∖ {[ele_text e]}) x'.
Proof.
  intros [Hd Hc] He Hsz. destruct x as [dst c]. cbn [fst snd] in *. cbn [remove_ele].
  destruct (ele_object_run e He) as (o & -> & Ht & Hok). rewrite bind_Some_eq.
  destruct (Remove_is seed addr g _ key_object Hmax Hkey dst D o Hd Hok Hsz) as (dst' & -> & Hd' & _). rewrite bind_Some_eq, Ht in *.
  eexists. split; [done|]. split; [done|]. cbn [snd]. destruct (decide (ele_text e ∈ D)) as [Hin|Hin]; [rewrite bool_decide_true by done|rewrite bool_decide_false by done].
  - rewrite (size_without D _ Hin) in Hc, Hsz.
    rewrite swrap_small; [lia..|]. split; simpl; lia.
  - by replace (D ∖ {[ele_text e]}) with D by set_solver.
Qed.

Lemma remove_one_run H s D h x :
  heap_is h H → known H (Some s) → tmp_is D x → Z.of_nat (size D) < 2 ^ 30 →
  ∃ h' x', set_foreach addr key_object s (remove_ele seed g) h x = Some (h', x') ∧ tmp_is (D ∖ members H (Some s)) x' ∧ heap_is h' H.
Proof.
  intros Hh Hkn Hx Hsz. pose proof (known_members H s Hkn) as HX. destruct (heap_is_lookup h H s _ Hh HX) as (o & Ho & Hset).
  destruct (foreach_run s (remove_ele seed g) H (members H (Some s)) o
    (λ ts, tmp_is (D ∖ list_to_set ts)) Hset) with (h := h) (x := x) as (ts & h' & x' & Hrun & HI & Hts & Hh' & _); [|done|done| |].
  - intros ts e h1 x1 HI Hh1 Ho1 He Hin Hnew Hsub. assert (size (D ∖ list_to_set ts) ≤ size D)%nat by apply size_diff_le.
    destruct (remove_ele_run _ e h1 x1 HI He) as (x2 & Hrun & HI2); [lia|]. exists h1, x2. split; [done|]. split; [|done].
    rewrite list_to_set_snoc. by replace (D ∖ ({[ele_text e]} ∪ list_to_set ts)) with (D ∖ list_to_set ts ∖ {[ele_text e]}) by set_solver.
  - by replace (D ∖ list_to_set []) with D by set_solver.
  - exists h', x'. rewrite (elements_set ts _ Hts) in HI. done.
Qed.

Lemma diff_sets_run H sets D h x :
  heap_is h H → Forall (known H) sets → tmp_is D x → Z.of_nat (size D) < 2 ^ 30 →
  ∃ h' x', diff_sets seed addr g set_max_intset_entries key_object false sets h x = Some (h', x') ∧ tmp_is (D ∖ union_of H sets) x' ∧ heap_is h' H.
Proof.
  intros Hh Hkn. revert D h x Hh. induction Hkn as [|s sets Hs Hkn IH]; intros D h x Hh Hx Hsz.
  - exists h, x. by rewrite union_of_nil, difference_empty_L.
  - destruct s as [s|]; cbn [diff_sets]; [rewrite union_of_cons|rewrite union_of_none; by apply IH].
    destruct (remove_one_run H s D h x Hh Hs Hx Hsz) as (h1 & x1 & -> & Hx1 & Hh1). rewrite bind_Some_eq.
    replace (D ∖ (members H (Some s) ∪ union_of H sets)) with (D ∖ members H (Some s) ∖ union_of H sets) by set_solver.
    assert (size (D ∖ members H (Some s)) ≤ size D)%nat by apply size_diff_le.
    destruct (Z.eqb_spec x1.2 0) as [Hz|Hz]; [|apply IH; try done; lia]. exists h1, x1. split; [done|]. split; [|done].
    destruct Hx1 as [Hd1 Hc1]. assert (D ∖ members H (Some s) = ∅) as He by (apply leibniz_equiv, size_empty_inv; lia).
    rewrite He in *. by replace (∅ ∖ union_of H sets) with (∅ : gset bytes) by set_solver.
Qed.
End algebra.
