(* ===== verification/SetCommands.v ===== *)
(** * The set commands

    Unions and differences with what is sent or stored, and the commands on one
    set, as operations on sets of texts. *)

From S2P Require Import Prelude Endian Intset Util Object Dict DictSpec DictMap DictScan Sds SdsText Rdb RdbFormat.
From S2P Require Import ZiplistRefine HashType HashTypeSpec SetType SetKeys SetTypeSpec SetAlgebra.

#[local] Open Scope Z_scope.

(** ** The commands on finite sets

    A key that does not exist is an empty set, and no set stored is empty. *)

Definition arg_texts (argv : list robj) : gset bytes := list_to_set (robj_text <$> argv).
Definition at_key (H : gmap loc (gset bytes)) (key : loc) : gset bytes := default ∅ (H !! key).
Definition set_key (H : gmap loc (gset bytes)) (key : loc) (X : gset bytes) : gmap loc (gset bytes) :=
  if decide (X = ∅) then delete key H else <[key := X]> H.

Definition sinter_set (H : gmap loc (gset bytes)) (keys : list loc) : gset bytes :=
  match keys with [] => ∅ | k :: keys => foldr (λ k X, X ∩ at_key H k) (at_key H k) keys end.
Definition sunion_set (H : gmap loc (gset bytes)) (keys : list loc) : gset bytes := ⋃ (at_key H <$> keys).
Definition sdiff_set (H : gmap loc (gset bytes)) (keys : list loc) : gset bytes :=
  match keys with [] => ∅ | k :: keys => at_key H k ∖ sunion_set H keys end.

(** The members of [X], once each, in any order. *)
Definition items_of (r : set_reply) (X : gset bytes) : Prop := ∃ ts, r = SItems ts ∧ ts ≡ₚ elements X.

Definition spec_set_op (H : gmap loc (gset bytes)) (op : set_op) (r : set_reply) (H' : gmap loc (gset bytes)) : Prop :=
  match op with
  | SADD key argv => r = SNumber (Z.of_nat (size (arg_texts argv ∖ at_key H key))) ∧ H' = set_key H key (arg_texts argv ∪ at_key H key)
  | SREM key argv => r = SNumber (Z.of_nat (size (at_key H key ∩ arg_texts argv))) ∧ H' = set_key H key (at_key H key ∖ arg_texts argv)
  | SMOVE src dst ele =>
    if decide (robj_text ele ∈ at_key H src) then
      r = SNumber 1 ∧
      H' = if decide (src = dst) then H
        else set_key (set_key H src (at_key H src ∖ {[robj_text ele]})) dst ({[robj_text ele]} ∪ at_key H dst)
    else r = SNumber 0 ∧ H' = H
  | SISMEMBER key ele => r = SNumber (Z.b2z (bool_decide (robj_text ele ∈ at_key H key))) ∧ H' = H
  | SCARD key => r = SNumber (Z.of_nat (size (at_key H key))) ∧ H' = H
  | SINTER keys => items_of r (sinter_set H keys) ∧ H' = H
  | SINTERSTORE dst keys => r = SNumber (Z.of_nat (size (sinter_set H keys))) ∧ H' = set_key H dst (sinter_set H keys)
  | SUNION keys => items_of r (sunion_set H keys) ∧ H' = H
  | SUNIONSTORE dst keys => r = SNumber (Z.of_nat (size (sunion_set H keys))) ∧ H' = set_key H dst (sunion_set H keys)
  | SDIFF keys => items_of r (sdiff_set H keys) ∧ H' = H
  | SDIFFSTORE dst keys => r = SNumber (Z.of_nat (size (sdiff_set H keys))) ∧ H' = set_key H dst (sdiff_set H keys)
  end.

Fixpoint spec_set_ops (H : gmap loc (gset bytes)) (ops : list set_op) (rs : list set_reply) (H' : gmap loc (gset bytes)) : Prop :=
  match ops, rs with
  | [], [] => H' = H
  | op :: ops, r :: rs => ∃ H1, spec_set_op H op r H1 ∧ spec_set_ops H1 ops rs H'
  | _, _ => False
  end.

(** What the arity checks and the protocol guarantee of the arguments. *)
Definition set_op_ok (op : set_op) : Prop :=
  match op with
  | SADD _ argv | SREM _ argv => argv ≠ [] ∧ Forall robj_ok argv
  | SMOVE _ _ ele | SISMEMBER _ ele => robj_ok ele
  | SCARD _ => True
  | SINTER keys | SINTERSTORE _ keys | SUNION keys | SUNIONSTORE _ keys | SDIFF keys | SDIFFSTORE _ keys => keys ≠ []
  end.

(** The texts a command may bring in. *)
Definition new_texts (op : set_op) : list bytes := match op with SADD _ argv => robj_text <$> argv | _ => [] end.

Section commands.
Context {host : Host} {alloc : Allocator} {locs : EntryAllocator} {sorting : Qsort}.
Context (seed : Z) (addr : Z → Z) (g : dictGlobals) (set_max_intset_entries : Z) (key_object : bytes → robj).
Context (Hmax : 0 ≤ set_max_intset_entries < 2 ^ 28 - 1).
Context (Hkey : ∀ t, zlen t < 2 ^ 31 → robj_text (key_object t) = t ∧ robj_ok (key_object t)).

Notation is_set := (set_is seed set_max_intset_entries).
Notation heap_of := (heap_is seed set_max_intset_entries).
Notation answer := (result_is seed set_max_intset_entries).

(** ** Unions and differences *)

Lemma next_object_none o si : set_at seed addr o si [] →
  ∃ si', setTypeNextObject addr key_object o si = Some (None, o, si') ∧ setTypeReleaseIterator addr o si' = Some o.
Proof.
  intros Hat. destruct (next_none seed addr key_object o si Hat) as (si' & Hn & Hrel). exists si'. unfold setTypeNextObject. by rewrite Hn.
Qed.

Lemma next_object_some o X si t rem : is_set o X → set_at seed addr o si (t :: rem) →
  ∃ v si', setTypeNextObject addr key_object o si = Some (Some v, o, si') ∧ robj_text v = t ∧ robj_ok v ∧ set_at seed addr o si' rem.
Proof.
  intros Ho Hat. destruct (next_some seed addr _ key_object Hkey o X si t rem Ho Hat) as (e & si' & Hn & Ht & He & Hat').
  destruct (ele_object_run e He) as (v & Hv & Htv & Hok). exists v, si'. unfold setTypeNextObject. rewrite Hn, bind_Some_eq.
  destruct e as [w|n]; cbn [ele_object] in Hv; [injection Hv as ->|rewrite Hv, bind_Some_eq]; by rewrite <-Ht.
Qed.

Lemma send_set_run o X si rem fuel :
  is_set o X → set_at seed addr o si rem → (length rem < fuel)%nat → send_set addr key_object fuel o si = Some rem.
Proof.
  intros Ho. revert si rem. induction fuel as [|fuel IH]; intros si rem Hat Hf; [lia|]. cbn [send_set]. destruct rem as [|t rem].
  - destruct (next_object_none o si Hat) as (si' & -> & Hrel). by rewrite bind_Some_eq, Hrel.
  - destruct (next_object_some o X si t rem Ho Hat) as (v & si' & -> & Ht & Hok & Hat').
    rewrite bind_Some_eq, (getDecodedObject_run v Hok), bind_Some_eq, (IH si' rem Hat'), bind_Some_eq, Ht; [done|]. cbn in Hf. lia.
Qed.

Lemma size_at_is h H s : heap_of h H → known H s → size_at h s = Some (Z.of_nat (size (members H s))).
Proof.
  intros Hh Hkn. destruct s as [p|]; [|done]. pose proof (known_members H p Hkn) as HX. destruct (heap_is_lookup seed _ h H p _ Hh HX) as (o & Ho & Hset).
  unfold size_at. rewrite Ho, bind_Some_eq. by eapply size_is.
Qed.

Lemma diff_work_run h H n sets w : heap_of h H → Forall (known H) sets → is_Some (diff_work h n sets w).
Proof.
  intros Hh Hkn. revert w. induction Hkn as [|s sets Hs Hkn IH]; intros w; [by eexists|]. destruct s as [p|]; cbn [diff_work]; [|apply IH].
  rewrite (size_at_is h H (Some p) Hh Hs), bind_Some_eq. apply IH.
Qed.

Lemma union_of_perm H sets sets' : sets ≡ₚ sets' → union_of H sets = union_of H sets'.
Proof. intros Hp. unfold union_of. by rewrite Hp. Qed.

(** The first set without the members of the others. *)
Definition diff_of (H : gmap loc (gset bytes)) (sets : list (option loc)) : gset bytes :=
  match sets with [] => ∅ | s :: others => members H s ∖ union_of H others end.

(** Which algorithm a difference takes, and in which order: the difference stays the same. *)
Lemma order_run h H first others op :
  heap_of h H → known H first → Forall (known H) others →
  ∃ algo others', (match first with
    | Some _ =>
      if op =? REDIS_OP_DIFF then
        n ← size_at h first;
        '(algo_one_work, algo_two_work) ← diff_work h n (first :: others) (0, 0);
        let diff_algo := if Z.quot algo_one_work 2 <=? algo_two_work then 1 else 2 in
        if (diff_algo =? 1) && (zlen (first :: others) >? 1) then
          others ← qsort (qsortCompareSetsByRevCardinality h) (tail (first :: others));
          Some (diff_algo, first :: others)
        else Some (diff_algo, first :: others)
      else Some (1, first :: others)
    | None => Some (1, first :: others)
    end) = Some (algo, first :: others') ∧ others' ≡ₚ others.
Proof.
  intros Hh Hf Hkn. destruct first as [p|]; [|by exists 1, others]. destruct (op =? REDIS_OP_DIFF); [|by exists 1, others].
  rewrite (size_at_is h H _ Hh Hf), bind_Some_eq. edestruct (diff_work_run h H) as [[w1 w2] ->]; [done|by constructor|]. rewrite bind_Some_eq.
  cbn zeta. destruct (_ && _); [|by eexists _, others]. cbn [tail].
  destruct (qsort_perm (qsortCompareSetsByRevCardinality h) others) as (others' & -> & Hperm).
  - intros x y Hx Hy. rewrite Forall_forall in Hkn. unfold qsortCompareSetsByRevCardinality.
    rewrite (size_at_is h H y Hh) by by apply Hkn. rewrite (size_at_is h H x Hh) by by apply Hkn. by eexists.
  - rewrite bind_Some_eq. by eexists _, others'.
Qed.

Lemma empty_tmp : ∃ dst, createIntsetObject = Some dst ∧ tmp_is seed set_max_intset_entries ∅ (dst, 0).
Proof.
  destruct (create_intset_is seed set_max_intset_entries key_object Hmax Hkey) as (dst & -> & Hd & _). exists dst. split; [done|].
  split; [done|]. cbn [snd]. by rewrite size_empty.
Qed.

Lemma diff_two_run h H s others x :
  heap_of h H → Forall (known H) (Some s :: others) → tmp_is seed set_max_intset_entries ∅ x →
  Z.of_nat (size (members H (Some s))) < 2 ^ 30 →
  ∃ h' x', diff_sets seed addr g set_max_intset_entries key_object true (Some s :: others) h x = Some (h', x') ∧
    tmp_is seed set_max_intset_entries (diff_of H (Some s :: others)) x' ∧ heap_of h' H.
Proof.
  intros Hh [Hs Hkn]%Forall_cons Hx Hsz. cbn [diff_sets diff_of].
  destruct (union_one_run seed addr g _ key_object Hmax Hkey H s ∅ h x Hh Hs Hx) as (h1 & x1 & -> & Hx1 & Hh1); [by rewrite (left_id_L ∅ (∪))|].
  rewrite bind_Some_eq. rewrite (left_id_L ∅ (∪)) in Hx1. destruct (Z.eqb_spec x1.2 0) as [Hz|Hz].
  - exists h1, x1. split; [done|]. split; [|done]. destruct Hx1 as [Hd1 Hc1].
    assert (members H (Some s) = ∅) as He by (apply leibniz_equiv, size_empty_inv; lia).
    rewrite He in *. by replace (∅ ∖ union_of H others) with (∅ : gset bytes) by set_solver.
  - by apply (diff_sets_run seed addr g _ key_object Hmax Hkey).
Qed.

Lemma finish_run (store : bool) D dst c h H :
  tmp_is seed set_max_intset_entries D (dst, c) → heap_of h H →
  ∃ r, (if store then r ← store_set dst; Some (r, h)
    else
      n ← setTypeSize dst;
      out ← send_set addr key_object (S (Z.to_nat n)) dst (setTypeInitIterator dst);
      check zlen out =? c ;;
      Some (SetReply out, h)) = Some (r, h) ∧ answer store r D.
Proof.
  intros [Hd Hc] Hh. cbn [fst snd] in *. destruct store.
  - destruct (store_set_run seed _ dst D Hd) as (r & -> & Hr). by exists r.
  - rewrite (size_is seed _ dst D Hd), bind_Some_eq, Nat2Z.id. destruct (init_at seed addr _ dst D Hd) as (ts & Hat & Hperm).
    assert (length ts = size D) as Hlen by (rewrite Hperm; done).
    rewrite (send_set_run dst D _ ts), bind_Some_eq by (try done; lia). exists (SetReply ts). split; [|done].
    assert (zlen ts = c) as -> by (rewrite Hc, <-Hlen; done). by rewrite Z.eqb_refl.
Qed.

Lemma sunionDiff_run h H sets store op :
  heap_of h H → sets ≠ [] → Forall (known H) sets → op = REDIS_OP_UNION ∨ op = REDIS_OP_DIFF → Z.of_nat (size (union_of H sets)) < 2 ^ 30 →
  ∃ r h', sunionDiffGeneric seed addr g set_max_intset_entries key_object h sets store op = Some (r, h') ∧
    answer store r (if op =? REDIS_OP_UNION then union_of H sets else diff_of H sets) ∧ heap_of h' H.
Proof.
  intros Hh Hne Hkn Hop Hsz. destruct sets as [|first others]; [done|]. unfold sunionDiffGeneric.
  change (head (first :: others)) with (Some first). rewrite bind_Some_eq.
  pose proof Hkn as [Hf Ho]%Forall_cons. destruct (order_run h H first others op Hh Hf Ho) as (algo & others' & Heq & Hperm).
  cbv zeta in Heq. rewrite Heq, bind_Some_eq. clear Heq.
  destruct empty_tmp as (dst & -> & Hdst). rewrite bind_Some_eq.
  assert (union_of H others' = union_of H others) as HU by by apply union_of_perm.
  assert (Forall (known H) others') as Ho' by by rewrite Hperm.
  assert (diff_of H (first :: others) = diff_of H (first :: others')) as -> by (cbn [diff_of]; by rewrite HU).
  assert (union_of H (first :: others) = union_of H (first :: others')) as HU'.
  { by apply union_of_perm; rewrite Hperm. }
  rewrite HU' in *. clear HU HU' Hperm Ho Hkn. destruct (Z.eqb_spec op REDIS_OP_UNION) as [->|Hnu].
  - edestruct (union_sets_run seed addr g _ key_object Hmax Hkey H (first :: others') ∅ h) as (h' & [dst' c] & -> & Htmp & Hh');
      [done|by constructor|done|by rewrite (left_id_L ∅ (∪))|]. rewrite bind_Some_eq, (left_id_L ∅ (∪)) in *.
    destruct (finish_run store _ dst' c h' H Htmp Hh') as (r & -> & Hr). by exists r, h'.
  - assert (∃ h' x, match first with
      | Some s => if algo =? 1 then set_foreach addr key_object s (diff_ele seed addr g set_max_intset_entries key_object first (tail (first :: others'))) h (dst, 0)
        else diff_sets seed addr g set_max_intset_entries key_object true (first :: others') h (dst, 0)
      | None => Some (h, (dst, 0))
      end = Some (h', x) ∧ tmp_is seed set_max_intset_entries (diff_of H (first :: others')) x ∧ heap_of h' H)
      as (h' & [dst' c] & -> & Htmp & Hh').
    + destruct first as [s|]; [destruct (algo =? 1)|].
      * by apply (diff_one_run seed addr g _ key_object Hmax Hkey).
      * apply diff_two_run; [done|by constructor|done|]. rewrite union_of_cons in Hsz.
        assert (size (members H (Some s)) ≤ size (members H (Some s) ∪ union_of H others'))%nat by (apply subseteq_size; set_solver). lia.
      * exists h, (dst, 0). split; [done|]. split; [|done]. cbn [diff_of]. by replace (members H None ∖ _) with (∅ : gset bytes) by set_solver.
    + rewrite bind_Some_eq. destruct (finish_run store _ dst' c h' H Htmp Hh') as (r & -> & Hr). by exists r, h'.
Qed.

(** ** Members of one set *)

Lemma arg_texts_cons v argv : arg_texts (v :: argv) = {[robj_text v]} ∪ arg_texts argv.
Proof. done. Qed.

(** Whether the commands [argv] turn an integer set into a dictionary when the set is [X] after them. *)
Definition converts (argv : list robj) (X : gset bytes) : bool :=
  existsb (λ v, negb (int_text (robj_text v))) argv || outgrown set_max_intset_entries X.

Lemma outgrown_mono (X Y : gset bytes) : X ⊆ Y → outgrown set_max_intset_entries X = true → outgrown set_max_intset_entries Y = true.
Proof. unfold outgrown. intros Hs%subseteq_size ?. lia. Qed.

Lemma small_intset o X : is_set o X → outgrown set_max_intset_entries X = true → is_dict o = true.
Proof.
  intros [_ Ho]. destruct o as [iset|d]; [|done]. destruct Ho as (n & l & R & -> & Hlen). unfold outgrown. rewrite (int_texts_size n iset l R). lia.
Qed.

Lemma sadd_loop_run U argv o X n :
  is_set o X → Forall robj_ok argv → X ⊆ U → arg_texts argv ⊆ U → Z.of_nat (size U) < 2 ^ 30 →
  ∃ o', sadd_loop seed addr g set_max_intset_entries key_object o argv n = Some (n + Z.of_nat (size (arg_texts argv ∖ X)), o') ∧
    is_set o' (arg_texts argv ∪ X) ∧ is_dict o' = is_dict o || converts argv (arg_texts argv ∪ X).
Proof.
  intros Ho Hok HX HT HU. revert o X n Ho HX. induction Hok as [|v argv Hv Hok IH]; intros o X n Ho HX.
  - exists o. change (arg_texts []) with (∅ : gset bytes). rewrite empty_minus, (left_id_L ∅ (∪)), size_empty, Z.add_0_r.
    split; [done|]. split; [done|]. unfold converts. cbn [existsb orb]. destruct (outgrown _ X) eqn:E; [|by rewrite orb_false_r].
    by rewrite (small_intset o X Ho E).
  - cbn [sadd_loop]. destruct (tryObjectEncoding_text v Hv) as (v' & -> & Ht & Hv'). rewrite bind_Some_eq, arg_texts_cons in *.
    pose proof (subseteq_size _ _ HX). destruct (Add_is seed addr g _ key_object Hmax Hkey o X v' Ho Hv') as (o1 & -> & Ho1 & Henc); [lia|].
    rewrite bind_Some_eq, Ht in *. assert (arg_texts argv ⊆ U) as HT' by (etransitivity; [apply union_subseteq_r|done]).
    destruct (IH HT' o1 ({[robj_text v]} ∪ X) (if bool_decide (robj_text v ∉ X) then n + 1 else n) Ho1)
      as (o' & -> & Ho' & Henc').
    { apply union_subseteq in HT as [HT _]. by apply union_least. }
    exists o'. rewrite union_swap. split; [|split; [done|]].
    2:{ rewrite Henc', Henc. unfold converts. cbn [existsb]. pose proof (outgrown_mono _ _ (union_subseteq_r (arg_texts argv) ({[robj_text v]} ∪ X))) as Hm.
        destruct (outgrown _ ({[robj_text v]} ∪ X)); [rewrite Hm by done|]; by destruct (is_dict o), (int_text (robj_text v)), (existsb _ argv). }
    do 2 f_equal. destruct (decide (robj_text v ∈ X)) as [Hin|Hin].
    + rewrite bool_decide_false by tauto.
      by rewrite (minus_present _ _ _ Hin).
    + rewrite bool_decide_true by done.
      rewrite (minus_new _ _ _ Hin), size_add, decide_False; [lia|]. rewrite elem_of_difference, elem_of_union, elem_of_singleton. tauto.
Qed.

Lemma srem_loop_run argv o X n :
  is_set o X → X ≠ ∅ → Forall robj_ok argv → Z.of_nat (size X) < 2 ^ 30 →
  ∃ o', srem_loop seed g o argv n = Some (n + Z.of_nat (size (X ∩ arg_texts argv)), bool_decide (X ∖ arg_texts argv = ∅), o') ∧
    is_set o' (X ∖ arg_texts argv) ∧ is_dict o' = is_dict o.
Proof.
  intros Ho Hne Hok HX. revert o X n Ho Hne HX. induction Hok as [|v argv Hv Hok IH]; intros o X n Ho Hne HX.
  - exists o. change (arg_texts []) with (∅ : gset bytes). rewrite minus_empty, meet_empty, size_empty, Z.add_0_r.
    by rewrite bool_decide_false.
  - cbn [srem_loop]. rewrite arg_texts_cons. destruct (Remove_is seed addr g _ key_object Hmax Hkey o X v Ho Hv HX) as (o1 & -> & Ho1 & <-).
    rewrite bind_Some_eq. pose proof (size_diff_le X {[robj_text v]}). destruct (decide (robj_text v ∈ X)) as [Hin|Hin].
    + rewrite bool_decide_true by done. cbn zeta. rewrite (size_is seed _ o1 _ Ho1), bind_Some_eq.
      rewrite (meet_present _ _ _ Hin), size_add, decide_False, minus_both.
      2:{ rewrite elem_of_intersection, elem_of_difference, elem_of_singleton. tauto. }
      destruct (Z.eqb_spec (Z.of_nat (size (X ∖ {[robj_text v]}))) 0) as [Hz|Hz].
      * assert (X ∖ {[robj_text v]} = ∅) as He by (apply leibniz_equiv, size_empty_inv; lia). rewrite He in *. exists o1.
        rewrite empty_minus, empty_meet, size_empty. by rewrite bool_decide_true.
      * destruct (IH o1 _ (n + 1) Ho1) as (o' & -> & Ho' & <-); [|lia|].
        -- intros He. apply Hz. by rewrite He, size_empty.
        -- exists o'. split; [|done]. do 3 f_equal. lia.
    + rewrite bool_decide_false by done. rewrite minus_both, (meet_absent _ _ _ Hin), (minus_absent _ _ Hin) in *.
      destruct (IH o1 X n Ho1 Hne HX) as (o' & -> & Ho'). by exists o'.
Qed.
(** ** Keys *)

(** The keys of [h] are the sets [H], none of them empty. *)
Definition keys_are (h : set_space) (H : gmap loc (gset bytes)) : Prop := heap_of h H ∧ map_Forall (λ _ X, X ≠ ∅) H.

Lemma key_cases h H k :
  keys_are h H →
  match h !! k with
  | Some o => is_set o (at_key H k) ∧ at_key H k ≠ ∅ ∧ H !! k = Some (at_key H k)
  | None => at_key H k = ∅ ∧ H !! k = None
  end.
Proof.
  intros [Hh Hne]. unfold at_key. specialize (Hh k). specialize (Hne k). destruct Hh as [o X HX|]; [|done]. split; [done|]. split; [|done]. by apply Hne.
Qed.

Lemma set_key_is h H k (so : option set_robj) X :
  keys_are h H → match so with Some o => is_set o X ∧ X ≠ ∅ | None => X = ∅ end →
  keys_are (match so with Some o => <[k := o]> h | None => delete k h end) (set_key H k X).
Proof.
  intros [Hh Hne] Ho. unfold set_key. destruct so as [o|].
  - destruct Ho as [Ho HX]. rewrite decide_False by done. split; [by apply map_Forall2_insert_2|]. by apply map_Forall_insert_2.
  - rewrite decide_True by done. split; [by apply map_Forall2_delete|]. by apply map_Forall_delete.
Qed.

Lemma set_key_same h H k : keys_are h H → set_key H k (at_key H k) = H.
Proof.
  intros Hk. pose proof (key_cases h H k Hk) as Hc. unfold set_key. destruct (h !! k) as [o|].
  - destruct Hc as (_ & Hne & HX). rewrite decide_False by done. by apply insert_id.
  - destruct Hc as [-> HX]. rewrite decide_True by done. by apply delete_id.
Qed.

(** The object under a key is replaced by one that stands for the same set. *)
Lemma keys_update h H k o o' : keys_are h H → h !! k = Some o → is_set o' (at_key H k) → keys_are (<[k := o']> h) H.
Proof.
  intros Hk Ho Ho'. rewrite <-(set_key_same h H k Hk). apply (set_key_is h H k (Some o') _ Hk). split; [done|].
  pose proof (key_cases h H k Hk) as Hc. rewrite Ho in Hc. apply Hc.
Qed.

Lemma create_value_is v : robj_ok v → ∃ o, setTypeCreate v = Some o ∧ is_set o ∅.
Proof.
  intros Hv. unfold setTypeCreate. destruct (representable_run v Hv) as (r & -> & _). rewrite bind_Some_eq. destruct r as [n|].
  - destruct (create_intset_is seed set_max_intset_entries key_object Hmax Hkey) as (o & -> & Ho & _). by exists o.
  - eexists. split; [done|]. by apply (create_set_is seed set_max_intset_entries key_object Hmax Hkey).
Qed.

Section universe.
Context (U : gset bytes) (HU : Z.of_nat (size U) < 2 ^ 30).

(** Nothing but the texts [U] is in a set. *)
Definition within (H : gmap loc (gset bytes)) : Prop := map_Forall (λ _ X, X ⊆ U) H.

Lemma at_key_within H k : within H → at_key H k ⊆ U.
Proof. intros HH. unfold at_key. specialize (HH k). destruct (H !! k) as [X|]; [by apply HH|]. apply empty_subseteq. Qed.

Lemma at_key_size H k : within H → Z.of_nat (size (at_key H k)) < 2 ^ 30.
Proof. intros HH. pose proof (subseteq_size _ _ (at_key_within H k HH)). lia. Qed.

Lemma set_key_within H k X : within H → X ⊆ U → within (set_key H k X).
Proof. intros HH HX. unfold set_key. case_decide; [by apply map_Forall_delete|by apply map_Forall_insert_2]. Qed.

(** What a command does: the reply, and the sets after it. *)
Definition runs (H : gmap loc (gset bytes)) (op : set_op) (res : option (set_reply * set_space)) : Prop :=
  ∃ r h' H', res = Some (r, h') ∧ spec_set_op H op r H' ∧ keys_are h' H' ∧ within H'.

Lemma sadd_runs h H key argv :
  keys_are h H → within H → argv ≠ [] → Forall robj_ok argv → arg_texts argv ⊆ U →
  runs H (SADD key argv) ('(n, h) ← saddCommand seed addr g set_max_intset_entries key_object h key argv; Some (SNumber n, h)).
Proof.
  intros Hk Hw Hne Hok HT. pose proof (key_cases h H key Hk) as Hc. unfold saddCommand, sadd.
  assert (∃ o, match h !! key with Some set => Some set | None => v ← head argv; setTypeCreate v end = Some o ∧ is_set o (at_key H key)) as (o & -> & Ho).
  { destruct (h !! key) as [o|]; [exists o; split; [done|apply Hc]|]. destruct Hc as [-> _]. destruct argv as [|v argv]; [done|]. apply Forall_cons in Hok as [Hv _].
    by apply create_value_is. }
  rewrite bind_Some_eq. pose proof (at_key_within H key Hw).
  destruct (sadd_loop_run U argv o (at_key H key) 0 Ho Hok) as (o' & -> & Ho' & _); [done..|]. rewrite !bind_Some_eq. eexists _, _, _. split; [done|].
  split; [done|]. split; [|by apply set_key_within, union_least]. apply (set_key_is h H key (Some o')); [done|]. split; [done|].
  destruct argv as [|v argv]; [done|]. rewrite arg_texts_cons. intros He. apply (not_elem_of_empty (C := gset bytes) (robj_text v)). rewrite <-He.
  apply elem_of_union_l, elem_of_union_l, elem_of_singleton. done.
Qed.

Lemma srem_runs h H key argv :
  keys_are h H → within H → Forall robj_ok argv → runs H (SREM key argv) ('(n, h) ← sremCommand seed g h key argv; Some (SNumber n, h)).
Proof.
  intros Hk Hw Hok. pose proof (key_cases h H key Hk) as Hc. unfold sremCommand. destruct (h !! key) as [o|] eqn:E.
  - destruct Hc as (Ho & Hne & _). destruct (srem_loop_run argv o _ 0 Ho Hne Hok) as (o' & -> & Ho' & _); [by apply at_key_size|].
    rewrite !bind_Some_eq. eexists _, _, _. split; [done|]. split; [done|]. split; [|apply set_key_within; [done|]].
    + case_bool_decide as He; [by apply (set_key_is h H key None)|by apply (set_key_is h H key (Some o'))].
    + etransitivity; [apply subseteq_difference_l; reflexivity|by apply at_key_within].
  - destruct Hc as [He Hn]. rewrite bind_Some_eq. exists (SNumber 0), h, H. split; [done|]. split; [|done]. cbn [spec_set_op].
    rewrite He, empty_meet, empty_minus, size_empty. split; [done|]. by rewrite <-He, (set_key_same h H key Hk).
Qed.

Lemma sismember_runs h H key ele :
  keys_are h H → within H → robj_ok ele →
  runs H (SISMEMBER key ele) ('(b, h) ← sismemberCommand seed g h key ele; Some (SNumber (Z.b2z b), h)).
Proof.
  intros Hk Hw Hok. pose proof (key_cases h H key Hk) as Hc. unfold sismemberCommand, sismember. destruct (h !! key) as [o|] eqn:E.
  - destruct Hc as (Ho & Hne & _). destruct (tryObjectEncoding_text ele Hok) as (v & -> & Ht & Hv). rewrite bind_Some_eq.
    destruct (IsMember_is seed g _ o _ v Ho Hv) as (o' & -> & Ho' & _). rewrite !bind_Some_eq, Ht. eexists _, _, _. split; [done|]. split; [done|].
    split; [|done]. by eapply keys_update.
  - destruct Hc as [He _]. rewrite bind_Some_eq. exists (SNumber 0), h, H. split; [done|]. split; [|done]. cbn [spec_set_op]. by rewrite He.
Qed.

Lemma scard_runs h H key : keys_are h H → within H → runs H (SCARD key) (n ← scardCommand h key; Some (SNumber n, h)).
Proof.
  intros Hk Hw. pose proof (key_cases h H key Hk) as Hc. unfold scardCommand. destruct (h !! key) as [o|] eqn:E.
  - destruct Hc as (Ho & _). rewrite (size_is seed _ o _ Ho), bind_Some_eq. by eexists _, _, _.
  - destruct Hc as [He _]. rewrite bind_Some_eq. exists (SNumber 0), h, H. split; [done|]. split; [|done]. cbn [spec_set_op]. by rewrite He.
Qed.

(** The element moved goes into the destination. *)
Lemma move_in_run h H dst v :
  keys_are h H → within H → robj_ok v → robj_text v ∈ U →
  ∃ o h', (dstset ← match h !! dst with Some dstset => Some dstset | None => setTypeCreate v end;
      '(_, dstset) ← setTypeAdd seed addr g set_max_intset_entries key_object dstset v;
      Some (true, <[dst := dstset]> h)) = Some (true, h') ∧ h' = <[dst := o]> h ∧
    keys_are h' (set_key H dst ({[robj_text v]} ∪ at_key H dst)) ∧ within (set_key H dst ({[robj_text v]} ∪ at_key H dst)).
Proof.
  intros Hk Hw Hv HU'. pose proof (key_cases h H dst Hk) as Hc.
  assert (∃ o, match h !! dst with Some dstset => Some dstset | None => setTypeCreate v end = Some o ∧ is_set o (at_key H dst)) as (o & -> & Ho).
  { destruct (h !! dst) as [o|]; [exists o; split; [done|apply Hc]|]. destruct Hc as [-> _]. by apply create_value_is. }
  rewrite bind_Some_eq. destruct (Add_is seed addr g _ key_object Hmax Hkey o _ v Ho Hv) as (o' & -> & Ho' & _); [by apply at_key_size|].
  rewrite bind_Some_eq. eexists o', _. split; [done|]. split; [done|]. split.
  - apply (set_key_is h H dst (Some o') _ Hk). split; [done|]. intros He. apply (not_elem_of_empty (C := gset bytes) (robj_text v)). rewrite <-He.
    apply elem_of_union_l, elem_of_singleton. done.
  - apply set_key_within; [done|]. apply union_least; [by apply singleton_subseteq_l|by apply at_key_within].
Qed.

Lemma at_key_other H k k' X : k ≠ k' → at_key (set_key H k X) k' = at_key H k'.
Proof. intros Hne. unfold at_key, set_key. case_decide; [by rewrite lookup_delete_ne|by rewrite lookup_insert_ne]. Qed.

Lemma smove_runs h H src dst ele :
  keys_are h H → within H → robj_ok ele →
  runs H (SMOVE src dst ele)
    ('(b, h) ← smoveCommand seed addr g set_max_intset_entries key_object h src dst ele; Some (SNumber (Z.b2z b), h)).
Proof.
  intros Hk Hw Hok. pose proof (key_cases h H src Hk) as Hc. unfold smoveCommand, runs. cbn [spec_set_op].
  destruct (tryObjectEncoding_text ele Hok) as (v & -> & Ht & Hv). rewrite bind_Some_eq, <-Ht. destruct (h !! src) as [o|] eqn:E.
  2:{ destruct Hc as [He _]. rewrite bind_Some_eq. exists (SNumber 0), h, H. split; [done|]. split; [|done]. by rewrite decide_False by (rewrite He; apply not_elem_of_empty). }
  destruct Hc as (Ho & Hne & HX). destruct (decide (src = dst)) as [<-|Hsd].
  { destruct (IsMember_is seed g _ o _ v Ho Hv) as (o' & -> & Ho' & _). rewrite !bind_Some_eq. eexists _, _, H. split; [done|].
    split; [|split; [by eapply keys_update|done]]. by destruct (decide (robj_text v ∈ at_key H src)); [rewrite bool_decide_true|rewrite bool_decide_false]. }
  destruct (Remove_is seed addr g _ key_object Hmax Hkey o _ v Ho Hv) as (o' & -> & Ho' & _); [by apply at_key_size|]. rewrite bind_Some_eq.
  cbn zeta. destruct (decide (robj_text v ∈ at_key H src)) as [Hin|Hin].
  - rewrite bool_decide_true by done. cbn [negb]. rewrite (size_is seed _ o' _ Ho'), bind_Some_eq.
    set (X' := at_key H src ∖ {[robj_text v]}) in *. pose proof (at_key_within H src Hw) as HwX.
    assert (keys_are (if Z.of_nat (size X') =? 0 then delete src (<[src:=o']> h) else <[src:=o']> h) (set_key H src X')) as Hk'.
    { destruct (Z.eqb_spec (Z.of_nat (size X')) 0) as [Hz|Hz].
      - rewrite delete_insert_eq. apply (set_key_is h H src None); [done|]. apply leibniz_equiv, size_empty_inv. lia.
      - apply (set_key_is h H src (Some o')); [done|]. split; [done|]. intros He. apply Hz. by rewrite He, size_empty. }
    assert (within (set_key H src X')) as Hw'.
    { apply set_key_within; [done|]. etransitivity; [apply subseteq_difference_l; reflexivity|done]. }
    destruct (move_in_run _ _ dst v Hk' Hw' Hv) as (o2 & h2 & -> & _ & Hk2 & Hw2); [by apply HwX|]. rewrite bind_Some_eq.
    rewrite at_key_other in Hk2, Hw2 by done. by eexists _, _, _.
  - rewrite bool_decide_false by done. cbn [negb]. rewrite bind_Some_eq. eexists _, _, H. split; [done|]. split; [done|]. split; [|done].
    eapply keys_update; [done..|]. by rewrite (minus_absent _ _ Hin) in Ho'.
Qed.

(** *** Several sets *)

Lemma lookup_is h H k : keys_are h H → members H (lookup_set h k) = at_key H k ∧ known H (lookup_set h k).
Proof.
  intros Hk. pose proof (key_cases h H k Hk) as Hc. unfold lookup_set. destruct (h !! k) as [o|]; [|by destruct Hc as [-> _]].
  destruct Hc as (_ & _ & HX). split; [done|]. cbn. by rewrite HX.
Qed.

Lemma lookups_known h H keys : keys_are h H → Forall (known H) (lookup_set h <$> keys).
Proof. intros Hk. apply Forall_fmap, Forall_forall. intros k _. by apply (lookup_is h H k). Qed.

Lemma in_sinter_set H keys t : keys ≠ [] → t ∈ sinter_set H keys ↔ Forall (λ k, t ∈ at_key H k) keys.
Proof.
  intros Hne. destruct keys as [|k keys]; [done|]. cbn [sinter_set]. rewrite Forall_cons. induction keys as [|k' keys IH]; cbn [foldr]; [intuition constructor|].
  rewrite elem_of_intersection, IH, Forall_cons by done. tauto.
Qed.

Lemma inter_of_keys h H keys : keys_are h H → keys ≠ [] → inter_of H (lookup_set h <$> keys) = sinter_set H keys.
Proof.
  intros Hk Hne. apply set_eq. intros t. rewrite in_inter_of, in_sinter_set, Forall_fmap; [|done|by destruct keys]. rewrite !Forall_forall.
  split; intros Hall k Hin; specialize (Hall k Hin); cbn in *; by rewrite (proj1 (lookup_is h H k Hk)) in *.
Qed.

Lemma union_of_keys h H keys : keys_are h H → union_of H (lookup_set h <$> keys) = sunion_set H keys.
Proof.
  intros Hk. unfold union_of, sunion_set. rewrite <-list_fmap_compose. f_equal. apply list_fmap_ext. intros i k _. by apply lookup_is.
Qed.

Lemma diff_of_keys h H keys : keys_are h H → diff_of H (lookup_set h <$> keys) = sdiff_set H keys.
Proof.
  intros Hk. destruct keys as [|k keys]; [done|]. cbn [diff_of fmap list_fmap sdiff_set]. rewrite (proj1 (lookup_is h H k Hk)).
  f_equal. by apply union_of_keys.
Qed.

Lemma sunion_within H keys : within H → sunion_set H keys ⊆ U.
Proof.
  intros Hw t. unfold sunion_set. rewrite elem_of_union_list. intros (X & (k & -> & _)%list_elem_of_fmap & Ht). by apply (at_key_within H k).
Qed.

Lemma sinter_within H keys : within H → sinter_set H keys ⊆ U.
Proof.
  intros Hw t. destruct (decide (keys = [])) as [->|Hne]; [by intros ?%not_elem_of_empty|]. rewrite in_sinter_set by done.
  destruct keys as [|k keys]; [done|]. intros [Ht _]%Forall_cons. by apply (at_key_within H k).
Qed.

Lemma sdiff_within H keys : within H → sdiff_set H keys ⊆ U.
Proof.
  intros Hw t. destruct keys as [|k keys]; [by intros ?%not_elem_of_empty|]. cbn [sdiff_set]. intros [Ht _]%elem_of_difference. by apply (at_key_within H k).
Qed.

Lemma store_key_run r R h H dst :
  answer true r R → keys_are h H → ∃ h', store_key (r, h) dst = Some (Z.of_nat (size R), h') ∧ keys_are h' (set_key H dst R).
Proof.
  intros Hr Hk. destruct r as [ts|so n]; [by destruct Hr|]. destruct Hr as (_ & -> & Hso). unfold store_key. eexists. split; [done|].
  destruct so as [o|]; [|by apply (set_key_is h H dst None)]. rewrite insert_delete_eq. apply (set_key_is h H dst (Some o)); [done|]. tauto.
Qed.

(** A command that sends the set [R], and one that stores it. *)
Lemma items_runs H op r h R :
  answer false r R → keys_are h H → within H → (∀ r, items_of r R → spec_set_op H op r H) →
  runs H op ('(ts, h) ← (match r with SetReply out => Some (out, h) | SetStored _ _ => None end); Some (SItems ts, h)).
Proof.
  intros Hr Hk Hw Hspec. destruct r as [ts|so n]; [|by destruct Hr]. destruct Hr as (_ & Hp). rewrite bind_Some_eq. exists (SItems ts), h, H.
  split; [done|]. split; [|done]. apply Hspec. by exists ts.
Qed.

Lemma store_runs H op r h R dst :
  answer true r R → keys_are h H → within H → R ⊆ U → spec_set_op H op (SNumber (Z.of_nat (size R))) (set_key H dst R) →
  runs H op ('(n, h) ← store_key (r, h) dst; Some (SNumber n, h)).
Proof.
  intros Hr Hk Hw HR Hspec. destruct (store_key_run r R h H dst Hr Hk) as (h' & -> & Hk'). rewrite bind_Some_eq. eexists _, _, _.
  split; [done|]. split; [exact Hspec|]. split; [done|]. by apply set_key_within.
Qed.

Lemma sinter_keys_run h H keys store :
  keys_are h H → keys ≠ [] →
  ∃ r h', sinterGeneric seed addr g set_max_intset_entries key_object h (lookup_set h <$> keys) store = Some (r, h') ∧
    answer store r (sinter_set H keys) ∧ keys_are h' H.
Proof.
  intros Hk Hne. rewrite <-(inter_of_keys h H keys Hk Hne).
  destruct (sinter_run seed addr g _ key_object Hmax Hkey h H (lookup_set h <$> keys) store) as (r & h' & Hrun & Hr & Hh');
    [apply Hk|by apply lookups_known|by destruct keys|]. exists r, h'. split; [done|]. split; [done|]. split; [done|apply Hk].
Qed.

Lemma sunionDiff_keys_run h H keys store op :
  keys_are h H → within H → keys ≠ [] → op = REDIS_OP_UNION ∨ op = REDIS_OP_DIFF →
  ∃ r h', sunionDiffGeneric seed addr g set_max_intset_entries key_object h (lookup_set h <$> keys) store op = Some (r, h') ∧
    answer store r (if op =? REDIS_OP_UNION then sunion_set H keys else sdiff_set H keys) ∧ keys_are h' H.
Proof.
  intros Hk Hw Hne Hop. rewrite <-(union_of_keys h H keys Hk), <-(diff_of_keys h H keys Hk).
  destruct (sunionDiff_run h H (lookup_set h <$> keys) store op) as (r & h' & Hrun & Hr & Hh');
    [apply Hk|by destruct keys|by apply lookups_known|done| |].
  - rewrite (union_of_keys h H keys Hk). pose proof (subseteq_size _ _ (sunion_within H keys Hw)). lia.
  - exists r, h'. split; [done|]. split; [done|]. split; [done|apply Hk].
Qed.

Lemma run_set_op_spec op h H :
  keys_are h H → within H → set_op_ok op → list_to_set (new_texts op) ⊆ U →
  runs H op (run_set_op seed addr set_max_intset_entries key_object g op h).
Proof.
  intros Hk Hw Hok HU'. destruct op as [key argv|key argv|src dst ele|key ele|key|keys|dst keys|keys|dst keys|keys|dst keys];
    cbn [run_set_op set_op_ok] in *.
  - destruct Hok. by apply sadd_runs.
  - destruct Hok. by apply srem_runs.
  - by apply smove_runs.
  - by apply sismember_runs.
  - by apply scard_runs.
  - unfold sinterCommand. destruct (sinter_keys_run h H keys false Hk Hok) as (r & h' & -> & Hr & Hk'). rewrite bind_Some_eq.
    eapply items_runs; [done..|]. by intros r' Hr'.
  - unfold sinterstoreCommand. destruct (sinter_keys_run h H keys true Hk Hok) as (r & h' & -> & Hr & Hk'). rewrite bind_Some_eq.
    eapply store_runs; [done..|by apply sinter_within|done].
  - unfold sunionDiffCommand. destruct (sunionDiff_keys_run h H keys false REDIS_OP_UNION Hk Hw Hok) as (r & h' & -> & Hr & Hk'); [by left|].
    rewrite bind_Some_eq. eapply items_runs; [done..|]. by intros r' Hr'.
  - unfold sunionDiffStoreCommand. destruct (sunionDiff_keys_run h H keys true REDIS_OP_UNION Hk Hw Hok) as (r & h' & -> & Hr & Hk'); [by left|].
    rewrite bind_Some_eq. eapply store_runs; [done..|by apply sunion_within|done].
  - unfold sunionDiffCommand. destruct (sunionDiff_keys_run h H keys false REDIS_OP_DIFF Hk Hw Hok) as (r & h' & -> & Hr & Hk'); [by right|].
    rewrite bind_Some_eq. eapply items_runs; [done..|]. by intros r' Hr'.
  - unfold sunionDiffStoreCommand. destruct (sunionDiff_keys_run h H keys true REDIS_OP_DIFF Hk Hw Hok) as (r & h' & -> & Hr & Hk'); [by right|].
    rewrite bind_Some_eq. eapply store_runs; [done..|by apply sdiff_within|done].
Qed.
End universe.
End commands.

(** ** The properties *)

Section properties.
Context {host : Host} {alloc : Allocator} {locs : EntryAllocator} {sorting : Qsort}.
Context (seed : Z) (addr : Z → Z) (set_max_intset_entries : Z) (key_object : bytes → robj).

(** An integer set that is full still has less than 2^28 - 1 elements, and a key of
    a dictionary is an object of its text. *)
Definition set_config_ok : Prop :=
  0 ≤ set_max_intset_entries < 2 ^ 28 - 1 ∧ ∀ t, zlen t < 2 ^ 31 → robj_text (key_object t) = t ∧ robj_ok (key_object t).

Definition ops_texts (ops : list (dictGlobals * set_op)) : list bytes := ops ≫= λ x, new_texts x.2.

Lemma run_set_ops_spec U ops h H :
  set_config_ok → Z.of_nat (size U) < 2 ^ 30 → keys_are seed set_max_intset_entries h H → within U H → Forall (λ x, set_op_ok x.2) ops →
  list_to_set (ops_texts ops) ⊆ U →
  ∃ rs h' H', run_set_ops seed addr set_max_intset_entries key_object ops h = Some (rs, h') ∧ spec_set_ops H ops.*2 rs H' ∧
    keys_are seed set_max_intset_entries h' H'.
Proof.
  intros [Hmax Hkey] HU. revert h H. induction ops as [|[g op] ops IH]; intros h H Hk Hw Hok Hsub; [by exists [], h, H|].
  apply Forall_cons in Hok as [Hop Hok]. change (ops_texts ((g, op) :: ops)) with (new_texts op ++ ops_texts ops) in Hsub.
  rewrite list_to_set_app_L in Hsub. apply union_subseteq in Hsub as [Hs1 Hs2].
  destruct (run_set_op_spec seed addr g _ key_object Hmax Hkey U HU op h H Hk Hw Hop Hs1) as (r & h1 & H1 & Hrun & Hspec & Hk1 & Hw1).
  destruct (IH h1 H1 Hk1 Hw1 Hok Hs2) as (rs & h' & H' & Hruns & Hspecs & Hk'). exists (r :: rs), h', H'. cbn [run_set_ops].
  rewrite Hrun, bind_Some_eq, Hruns, bind_Some_eq. split; [done|]. split; [|done]. cbn. by exists H1.
Qed.

(** C37: any sequence of commands on set objects runs without an invalid access, a
    failed assertion or a loop that does not end, and answers as a map from keys
    to finite sets of texts that are not empty: members, counts, and the
    intersections, unions and differences, sent or stored, whatever the encodings,
    the order of [qsort] and the algorithm chosen for a difference. *)
Theorem set_refines ops :
  set_config_ok → Forall (λ x, set_op_ok x.2) ops → zlen (ops_texts ops) < 2 ^ 30 →
  ∃ rs h H, run_set_ops seed addr set_max_intset_entries key_object ops ∅ = Some (rs, h) ∧ spec_set_ops ∅ ops.*2 rs H ∧
    keys_are seed set_max_intset_entries h H.
Proof.
  intros Hcfg Hok Hsz. apply (run_set_ops_spec (list_to_set (ops_texts ops))); [done| | |apply map_Forall_empty|done|done].
  - pose proof (size_list_to_set_le (ops_texts ops)). lia.
  - split; [apply map_Forall2_empty|apply map_Forall_empty].
Qed.

(** C38: SADD turns an integer set into a dictionary exactly when a member is not
    the text of a 64 bit integer or the members become more than
    [set_max_intset_entries]; a dictionary stays one, and SREM never changes the
    encoding. *)
Theorem set_encoding_correct g o X argv :
  set_config_ok → set_is seed set_max_intset_entries o X → X ≠ ∅ → Forall robj_ok argv → Z.of_nat (size X) + zlen argv < 2 ^ 30 →
  (∃ n o', sadd seed addr g set_max_intset_entries key_object (Some o) argv = Some (n, o') ∧
    set_is seed set_max_intset_entries o' (arg_texts argv ∪ X) ∧ is_dict o' = is_dict o || converts set_max_intset_entries argv (arg_texts argv ∪ X)) ∧
  (∃ n empty o', srem_loop seed g o argv 0 = Some (n, empty, o') ∧
    set_is seed set_max_intset_entries o' (X ∖ arg_texts argv) ∧ is_dict o' = is_dict o).
Proof.
  intros [Hmax Hkey] Ho Hne Hok Hsz. split.
  - unfold sadd. rewrite bind_Some_eq.
    destruct (sadd_loop_run seed addr g _ key_object Hmax Hkey (arg_texts argv ∪ X) argv o X 0 Ho Hok) as (o' & Hrun & Ho'); [| | |by eexists _, o'].
    + apply union_subseteq_r.
    + apply union_subseteq_l.
    + pose proof (size_list_to_set_le (robj_text <$> argv)) as Hl. rewrite length_fmap in Hl. fold (arg_texts argv) in Hl.
      pose proof (size_union_le (arg_texts argv) X). lia.
  - destruct (srem_loop_run seed addr g _ key_object Hmax Hkey argv o X 0 Ho Hne Hok) as (o' & Hrun & Ho'); [lia|]. by eexists _, _, o'.
Qed.
End properties.

(** ** Concrete instances *)

(** Insertion sort, as one implementation of [qsort]. *)
Fixpoint insert_by (cmp : option loc → option loc → option Z) (x : option loc) (l : list (option loc)) : option (list (option loc)) :=
  match l with
  | [] => Some [x]
  | y :: l => c ← cmp x y; if c <=? 0 then Some (x :: y :: l) else l' ← insert_by cmp x l; Some (y :: l')
  end.

Fixpoint sort_by (cmp : option loc → option loc → option Z) (l : list (option loc)) : option (list (option loc)) :=
  match l with [] => Some [] | x :: l => l' ← sort_by cmp l; insert_by cmp x l' end.

Lemma insert_by_perm cmp x l : (∀ y, y ∈ l → is_Some (cmp x y)) → ∃ l', insert_by cmp x l = Some l' ∧ l' ≡ₚ x :: l.
Proof.
  induction l as [|y l IH]; intros Hc; [by exists [x]|]. destruct (Hc y) as [c Hy]; [by left|]. cbn [insert_by]. rewrite Hy, bind_Some_eq.
  destruct (c <=? 0); [by eexists|]. destruct IH as (l' & -> & Hp); [intros z Hz; apply Hc; by right|]. rewrite bind_Some_eq. exists (y :: l').
  split; [done|]. rewrite Hp. apply Permutation_swap.
Qed.

Lemma sort_by_perm cmp l : (∀ x y, x ∈ l → y ∈ l → is_Some (cmp x y)) → ∃ l', sort_by cmp l = Some l' ∧ l' ≡ₚ l.
Proof.
  induction l as [|x l IH]; intros Hc; [by exists []|]. cbn [sort_by].
  destruct IH as (l1 & -> & Hp1); [intros y z Hy Hz; apply Hc; by right|]. rewrite bind_Some_eq.
  destruct (insert_by_perm cmp x l1) as (l' & -> & Hp); [|exists l'; split; [done|]; by rewrite Hp, Hp1].
  intros y Hy. apply Hc; [by left|]. right. by rewrite <-Hp1.
Qed.

Definition insertion_sort : Qsort := {| qsort := sort_by; qsort_perm := sort_by_perm |}.

#[local] Existing Instances be_host poison_allocator next_entry_allocator insertion_sort.

(** At most three integers in an integer set. *)
Definition sample_set_globals : dictGlobals := DictGlobals true 5 false.
Definition sample_set_addr (n : Z) : Z := 65536 * n.

Lemma sample_set_config : set_config_ok 3 SdsObj.
Proof. split; [lia|]. by intros t Ht. Qed.

Definition sample_set_ops : list (dictGlobals * set_op) :=
  (sample_set_globals,.) <$>
  [SADD 1 [SdsObj [49; 50]; SdsObj [55]; IntObj (-3)]; SADD 2 [SdsObj [55]; SdsObj [97]]; SADD 1 [SdsObj [55]; SdsObj [49; 48; 48]];
   SADD 2 [IntObj 100]; SADD 4 [SdsObj [55]]; SISMEMBER 1 (SdsObj [49; 50]); SINTER [1; 2]%positive; SINTER [1; 3]%positive;
   SUNION [1; 2; 3]%positive; SDIFF [1; 2; 3]%positive; SDIFF [1; 4; 4; 4]%positive; SDIFF [3; 1]%positive; SINTERSTORE 3 [2; 1]%positive;
   SMOVE 1 2 (SdsObj [49; 50]); SMOVE 1 1 (SdsObj [49; 50]); SCARD 2; SREM 3 [IntObj 7; SdsObj [120]; SdsObj [49; 48; 48]; IntObj 5];
   SISMEMBER 3 (IntObj 7); SUNIONSTORE 3 [1; 9]%positive; SDIFFSTORE 1 [1; 3]%positive; SCARD 1; SUNION [3]%positive].

Lemma set_refines_witness :
  Forall (λ x, set_op_ok x.2) sample_set_ops ∧
  fst <$> run_set_ops 5381 sample_set_addr 3 SdsObj sample_set_ops ∅ =
    Some [SNumber 3; SNumber 2; SNumber 1; SNumber 1; SNumber 1; SNumber 1; SItems [[49; 48; 48]; [55]]; SItems [];
      SItems [[55]; [45; 51]; [49; 50]; [97]; [49; 48; 48]]; SItems [[45; 51]; [49; 50]]; SItems [[49; 48; 48]; [49; 50]; [45; 51]]; SItems [];
      SNumber 2; SNumber 1; SNumber 0; SNumber 4; SNumber 2; SNumber 0; SNumber 3; SNumber 0; SNumber 0; SItems [[45; 51]; [55]; [49; 48; 48]]] ∧
  ∃ rs h H, run_set_ops 5381 sample_set_addr 3 SdsObj sample_set_ops ∅ = Some (rs, h) ∧ spec_set_ops ∅ sample_set_ops.*2 rs H ∧
    keys_are 5381 3 h H.
Proof.
  assert (Forall (λ x, set_op_ok x.2) sample_set_ops) as Hok
    by (repeat constructor; first [vm_compute; done|intros H; vm_compute in H; done]).
  split; [exact Hok|]. split; [vm_compute; reflexivity|].
  exact (set_refines 5381 sample_set_addr 3 SdsObj sample_set_ops sample_set_config Hok eq_refl).
Defined.

(** The set of 5, as an integer set. *)
Definition sample_set : set_robj := SIntset (mk_intset 33554432 16777216 [5; 0]).

Lemma sample_set_is : set_is 5381 3 sample_set {[ [53] ]}.
Proof.
  split; [intros t ->%elem_of_singleton; vm_compute; done|]. exists 2%nat, [5]. split; [|split; [by vm_compute|vm_compute; done]].
  split; try (vm_compute; reflexivity); [by left| |repeat constructor]. by apply Forall_singleton.
Qed.

Definition sample_members : list robj := [SdsObj [54]; SdsObj [97]; SdsObj [53]].

Lemma set_encoding_correct_witness :
  (∃ n o', sadd 5381 sample_set_addr sample_set_globals 3 SdsObj (Some sample_set) sample_members = Some (n, o') ∧
    set_is 5381 3 o' (arg_texts sample_members ∪ {[ [53] ]}) ∧
    is_dict o' = is_dict sample_set || converts 3 sample_members (arg_texts sample_members ∪ {[ [53] ]})) ∧
  (∃ n empty o', srem_loop 5381 sample_set_globals sample_set sample_members 0 = Some (n, empty, o') ∧
    set_is 5381 3 o' ({[ [53] ]} ∖ arg_texts sample_members) ∧ is_dict o' = is_dict sample_set).
Proof.
  refine (set_encoding_correct 5381 sample_set_addr 3 SdsObj sample_set_globals sample_set {[ [53] ]} sample_members sample_set_config sample_set_is _ _ eq_refl).
  - intros H. vm_compute in H. discriminate H.
  - repeat constructor; vm_compute; done.
Defined.
