(* ===== verification/SetRandom.v ===== *)
(** * Random members of a set

    SPOP and SRANDMEMBER, for all the values [random] may return. *)

From S2P Require Import Prelude Endian Intset Util Object Dict DictSpec DictMap DictScan Sds SdsText Rdb RdbFormat.
From S2P Require Import ZiplistRefine HashType HashTypeSpec SetType SetKeys SetTypeSpec SetAlgebra SetCommands.

#[local] Open Scope Z_scope.

(** Random numbers are not negative. *)
Abbreviation numbers := (Forall (λ r : Z, 0 ≤ r)).

Section random.
Context {host : Host} {alloc : Allocator} {locs : EntryAllocator} {sorting : Qsort}.
Context (seed : Z) (addr : Z → Z) (g : dictGlobals) (set_max_intset_entries : Z) (key_object : bytes → robj).
Context (Hmax : 0 ≤ set_max_intset_entries < 2 ^ 28 - 1).
Context (Hkey : ∀ t, zlen t < 2 ^ 31 → robj_text (key_object t) = t ∧ robj_ok (key_object t)).

Notation is_set := (set_is seed set_max_intset_entries).

(** ** A random key of a dictionary *)

Lemma tab_entry d X p e : tab_rep seed d X → dict_entries d !! p = Some e → de_key e ∈ X.
Proof.
  intros Hd He. apply (in_tab seed d X _ Hd). exists (de_val e). apply (map_present (setDictType seed) d _ p); [apply Hd|]. by apply contents_Some.
Qed.

Lemma tab_find_entry d X t : tab_rep seed d X → t ∈ X → ∃ p e, dict_entries d !! p = Some e ∧ de_key e = t.
Proof.
  intros Hd [w Hw]%(in_tab seed d X t Hd). apply abs_lookup in Hw as [p Hp]; [|eapply wf_unique, Hd]. rewrite contents_lookup in Hp.
  destruct (dict_entries d !! p) as [e|] eqn:He; [|done]. injection Hp as Hk _. by exists p, e.
Qed.

Lemma same_entry (d d' : dict bytes unit) p : same d d' → is_Some (dict_entries d !! p) → ∃ e, dict_entries d' !! p = Some e.
Proof.
  intros (Hc & _) [e He]. assert (contents (dict_entries d') !! p = Some (de_key e, de_val e)) as Hp by (rewrite Hc; by apply contents_Some).
  rewrite contents_lookup in Hp. destruct (dict_entries d' !! p) as [e'|]; [by exists e'|done].
Qed.

Lemma tab_random d X rnd p d' rest :
  tab_rep seed d X → numbers rnd → dictGetRandomKey (setDictType seed) g d rnd = Some (Some p, d', rest) →
  tab_rep seed d' X ∧ numbers rest ∧ (length rest < length rnd)%nat ∧ ∃ e, dict_entries d' !! p = Some e ∧ de_key e ∈ X.
Proof.
  intros Hd Hr Hrun. destruct (dictGetRandomKey_correct (setDictType seed) g d (proj1 Hd)) as [Hempty Hnon].
  destruct (decide (dict_entries d = ∅)) as [He|He]; [by rewrite (Hempty He) in Hrun|].
  destruct (Hnon He) as (d1 & Hwf & Hs & Hall & _). destruct (Hall _ _ _ _ Hr Hrun) as (-> & Hrest & Hlen & x & [= <-] & Hx).
  assert (tab_rep seed d1 X) as Hd1 by by apply (tab_keep seed d X d1 Hd Hwf), dict_map_same. split; [done|]. split; [done|]. split; [done|].
  destruct (same_entry d d1 p Hs Hx) as [e He']. exists e. split; [done|]. by eapply tab_entry.
Qed.

Lemma tab_random_any d X t :
  tab_rep seed d X → t ∈ X →
  ∃ rnd p d' e, numbers rnd ∧ (∀ more, dictGetRandomKey (setDictType seed) g d (rnd ++ more) = Some (Some p, d', more)) ∧ tab_rep seed d' X ∧
    dict_entries d' !! p = Some e ∧ de_key e = t.
Proof.
  intros Hd Ht. destruct (tab_find_entry d X t Hd Ht) as (p & e & He & Hk).
  destruct (dictGetRandomKey_correct (setDictType seed) g d (proj1 Hd)) as [_ Hnon].
  destruct Hnon as (d' & Hwf & Hs & _ & Hany); [by intros Hem; rewrite Hem in He|].
  destruct (Hany p) as (r1 & r2 & Hr1 & Hr2 & Hrun); [by eexists|]. exists [r1; r2], p, d'.
  assert (tab_rep seed d' X) as Hd' by by apply (tab_keep seed d X d' Hd Hwf), dict_map_same. destruct Hs as (Hc & _).
  assert (contents (dict_entries d') !! p = Some (de_key e, de_val e)) as Hp by (rewrite Hc; by apply contents_Some).
  rewrite contents_lookup in Hp. destruct (dict_entries d' !! p) as [e'|] eqn:He'; [|done]. injection Hp as Hk' _. exists e'.
  split; [repeat constructor; lia|]. split; [done|]. split; [done|]. split; [done|congruence].
Qed.

(** ** A random element *)

Lemma random_element_sound o X rnd e o' rest :
  is_set o X → numbers rnd → setTypeRandomElement seed g key_object o rnd = Some (e, o', rest) →
  ele_ok e ∧ ele_text e ∈ X ∧ is_set o' X ∧ is_dict o' = is_dict o ∧ numbers rest ∧ (length rest < length rnd)%nat ∧
    match e, o' with EleInt _, SIntset _ | EleObj _, STable _ => True | _, _ => False end.
Proof.
  intros [Hshort Ho] Hr Hrun. destruct o as [iset|d]; cbn [setTypeRandomElement] in Hrun.
  - destruct Ho as (n & l & R & -> & Hlen). destruct rnd as [|r rnd]; [done|]. cbn [random] in Hrun. rewrite bind_Some_eq in Hrun.
    apply bind_Some in Hrun as (v & Hv & [= <- <- <-]). apply Forall_cons in Hr as [Hr Hrest].
    unfold intsetRandom in Hv. rewrite (rep_length _ _ _ R), bind_Some_eq in Hv. destruct (Z.eqb_spec (zlen l) 0) as [|Hz]; [done|].
    pose proof (rep_small _ _ _ R). pose proof (Z.mod_pos_bound (u32 r) (zlen l)) as Hmod.
    destruct (lookup_lt_is_Some_2 l (Z.to_nat (u32 r mod zlen l))) as [x Hx]; [lia|]. rewrite (get_spec n iset l _ x R) in Hv by (done || lia).
    injection Hv as <-. assert (x ∈ l) as Hin by by eapply list_elem_of_lookup_2. split; [by eapply rep_64|]. split; [by apply in_int_texts|].
    split; [split; [done|by exists n, l]|]. split; [done|]. split; [done|]. split; [simpl; lia|done].
  - apply bind_Some in Hrun as ([[de d1] rest1] & Hrun & Hk). destruct de as [p|]; [|done].
    destruct (tab_random d X rnd p d1 rest1 Ho Hr Hrun) as (Hd1 & Hrest & Hlen & e1 & He1 & Hin).
    rewrite bind_Some_eq, He1, bind_Some_eq in Hk. injection Hk as <- <- <-.
    destruct (Hkey (de_key e1) (Hshort _ Hin)) as [Ht Hok]. cbn [ele_text ele_ok]. rewrite Ht. done.
Qed.

Lemma random_element_any o X t :
  is_set o X → t ∈ X →
  ∃ rnd e o', numbers rnd ∧ (∀ more, setTypeRandomElement seed g key_object o (rnd ++ more) = Some (e, o', more)) ∧ ele_text e = t ∧ is_set o' X.
Proof.
  intros [Hshort Ho] Hin. destruct o as [iset|d]; cbn [setTypeRandomElement].
  - destruct Ho as (n & l & R & -> & Hlen). pose proof (rep_small _ _ _ R).
    unfold int_texts in Hin. rewrite elem_of_list_to_set, list_elem_of_fmap in Hin. destruct Hin as (v & -> & Hv).
    apply list_elem_of_lookup in Hv as [i Hi]. pose proof (lookup_lt_Some _ _ _ Hi). exists [Z.of_nat i], (EleInt v), (SIntset iset).
    split; [repeat constructor; lia|]. split; [|split; [done|]; split; [done|by exists n, l]]. intros more. cbn [app random].
    rewrite bind_Some_eq. unfold intsetRandom. rewrite (rep_length _ _ _ R), bind_Some_eq.
    destruct (Z.eqb_spec (zlen l) 0) as [Hz|Hz]; [lia|]. rewrite wrap_small, Z.mod_small by (try lia; split; simpl; lia).
    by rewrite (get_spec n iset l _ v R), bind_Some_eq by (try lia; by rewrite Nat2Z.id).
  - destruct (tab_random_any d X t Ho Hin) as (rnd & p & d' & e & Hr & Hrun & Hd' & He & Hk).
    exists rnd, (EleObj (key_object t)), (STable d'). split; [done|].
    split; [intros more; by rewrite Hrun, bind_Some_eq, bind_Some_eq, He, bind_Some_eq, Hk|]. split; [|done]. cbn. by apply Hkey, Hshort.
Qed.

(** ** SPOP *)

Lemma spop_step o X e o' :
  is_set o' X → ele_ok e → Z.of_nat (size X) < 2 ^ 30 → match e, o' with EleInt _, SIntset _ | EleObj _, STable _ => True | _, _ => False end →
  ∃ v o2, (∀ rnd rest, setTypeRandomElement seed g key_object o rnd = Some (e, o', rest) → spop seed g key_object o rnd = Some (v, o2, rest)) ∧
    robj_ok v ∧ robj_text v = ele_text e ∧ is_set o2 (X ∖ {[ele_text e]}).
Proof.
  intros Ho' He Hsz Hm. unfold spop. destruct e as [v|n], o' as [iset|d]; try done.
  - destruct (Remove_is seed addr g _ key_object Hmax Hkey (STable d) X v Ho' He Hsz) as (o2 & Hrem & Ho2 & _). exists v, o2. split; [|done].
    intros rnd rest Hrun. by rewrite Hrun, bind_Some_eq, Hrem.
  - destruct (Remove_is seed addr g _ key_object Hmax Hkey (SIntset iset) X (IntObj n) Ho' He Hsz) as (o2 & Hrem & Ho2 & _).
    cbn [setTypeRemove isObjectRepresentableAsLongLong] in Hrem. rewrite bind_Some_eq in Hrem.
    destruct (intsetRemove iset n) as [[iset' b]|] eqn:E; [|done]. rewrite bind_Some_eq in *. injection Hrem as _ <-.
    exists (IntObj n), (SIntset iset'). split; [|done]. intros rnd rest Hrun. by rewrite Hrun, bind_Some_eq, (ll_object n He), bind_Some_eq, E.
Qed.

Notation keys := (keys_are seed set_max_intset_entries).

Lemma spop_command_step h H key o e o' :
  keys h H → h !! key = Some o → is_set o' (at_key H key) → ele_ok e → Z.of_nat (size (at_key H key)) < 2 ^ 30 →
  match e, o' with EleInt _, SIntset _ | EleObj _, STable _ => True | _, _ => False end →
  ∃ h', (∀ rnd rest, setTypeRandomElement seed g key_object o rnd = Some (e, o', rest) →
      spopCommand seed g key_object h key rnd = Some (Some (ele_text e), h', rest)) ∧
    keys h' (set_key H key (at_key H key ∖ {[ele_text e]})).
Proof.
  intros Hk Ho Ho' He Hsz Hm. unfold spopCommand. rewrite Ho.
  destruct (spop_step o _ e o' Ho' He Hsz Hm) as (v & o2 & Hpop & Hv & Ht & Ho2). eexists. split.
  - intros rnd rest Hrun. by rewrite (Hpop rnd rest Hrun), bind_Some_eq, (getDecodedObject_run v Hv), bind_Some_eq, (size_is seed _ o2 _ Ho2), bind_Some_eq, Ht.
  - set (X := at_key H key ∖ {[ele_text e]}) in *. destruct (Z.eqb_spec (Z.of_nat (size X)) 0) as [Hz|Hz].
    + apply (set_key_is seed _ h H key None X Hk). apply leibniz_equiv, size_empty_inv. lia.
    + apply (set_key_is seed _ h H key (Some o2) X Hk). split; [done|]. intros HX. apply Hz. by rewrite HX, size_empty.
Qed.

(** ** SRANDMEMBER with a count *)

Lemma random_bulks_sound n o X rnd out o' rest :
  is_set o X → numbers rnd → random_bulks seed g key_object n o rnd = Some (out, o', rest) →
  length out = n ∧ (∀ t, t ∈ out → t ∈ X) ∧ is_set o' X.
Proof.
  revert o rnd out. induction n as [|n IH]; intros o rnd out Ho Hr Hrun; cbn [random_bulks] in Hrun.
  { injection Hrun as <- <- <-. split; [done|]. split; [|done]. by intros t ?%not_elem_of_nil. }
  apply bind_Some in Hrun as ([[e o1] rnd1] & Hel & Hrun).
  destruct (random_element_sound o X rnd e o1 rnd1 Ho Hr Hel) as (He & Hin & Ho1 & _ & Hr1 & _). rewrite (ele_bulk_run e He), bind_Some_eq in Hrun.
  apply bind_Some in Hrun as ([[out1 o2] rest1] & Hrun & [= <- <- <-]). destruct (IH o1 rnd1 out1 Ho1 Hr1 Hrun) as (Hlen & Hall & Ho2).
  split; [by cbn; rewrite Hlen|]. split; [|done]. intros t [->|Ht]%elem_of_cons; [done|by apply Hall].
Qed.

Lemma random_any o X t :
  is_set o X → t ∈ X →
  ∃ rnd e o', numbers rnd ∧ (∀ more, setTypeRandomElement seed g key_object o (rnd ++ more) = Some (e, o', more)) ∧ ele_text e = t ∧ is_set o' X ∧
    ele_ok e ∧ (0 < length rnd)%nat ∧ match e, o' with EleInt _, SIntset _ | EleObj _, STable _ => True | _, _ => False end.
Proof.
  intros Ho Ht. destruct (random_element_any o X t Ho Ht) as (rnd & e & o' & Hr & Hrun & Hte & Ho'). exists rnd, e, o'.
  destruct (random_element_sound o X (rnd ++ []) e o' [] Ho) as (He & _ & _ & _ & _ & Hlen & Hm); [by rewrite app_nil_r|by apply Hrun|].
  rewrite app_nil_r in Hlen. simpl in Hlen. done.
Qed.

Lemma random_bulks_any n o X :
  is_set o X → X ≠ ∅ → ∃ rnd out o', numbers rnd ∧ ∀ more, random_bulks seed g key_object n o (rnd ++ more) = Some (out, o', more).
Proof.
  intros Ho Hne. destruct (set_choose_L X Hne) as [t Ht]. revert o Ho. induction n as [|n IH]; intros o Ho; [by exists [], [], o|].
  destruct (random_any o X t Ho Ht) as (rnd1 & e & o1 & Hr1 & Hrun1 & _ & Ho1 & He & _). destruct (IH o1 Ho1) as (rnd & out & o' & Hr & Hrun).
  exists (rnd1 ++ rnd), (ele_text e :: out), o'. split; [by apply Forall_app|]. intros more. cbn [random_bulks].
  by rewrite <-app_assoc, Hrun1, bind_Some_eq, (ele_bulk_run e He), bind_Some_eq, Hrun.
Qed.

Lemma copy_run o X d ts rem si fuel :
  is_set o X → set_at seed addr o si rem → ts ++ rem ≡ₚ elements X → tab_rep seed d (list_to_set ts) → Z.of_nat (size X) < 2 ^ 30 →
  (length rem < fuel)%nat →
  ∃ si' d', loop fuel (copy_body seed addr g key_object) (o, si, d) = Some (o, si', d') ∧ tab_rep seed d' X ∧
    setTypeReleaseIterator addr o si' = Some o.
Proof.
  intros Ho. revert ts d si rem. induction fuel as [|fuel IH]; intros ts d si rem Hat Hp Hd Hsz Hf; [lia|]. rewrite loop_S. cbn [copy_body].
  destruct rem as [|t rem].
  - destruct (next_none seed addr key_object o si Hat) as (si' & -> & Hrel). rewrite bind_Some_eq. exists si', d. split; [done|]. split; [|done].
    rewrite app_nil_r in Hp. by rewrite (elements_set ts X Hp) in Hd.
  - destruct (next_some seed addr _ key_object Hkey o X si t rem Ho Hat) as (e & si' & -> & Ht & He & Hat'). rewrite bind_Some_eq.
    destruct (ele_object_run e He) as (v & -> & Hv & Hok). rewrite bind_Some_eq.
    assert (NoDup (ts ++ t :: rem)) as Hnd by (rewrite Hp; apply NoDup_elements). apply NoDup_app in Hnd as (_ & Hdis & _).
    assert (∀ u, u ∈ ts ++ t :: rem → u ∈ X) as Hall by (intros u; rewrite Hp; by apply elem_of_elements).
    assert (size (list_to_set ts : gset bytes) ≤ size X)%nat as Hle.
    { apply subseteq_size. intros u. rewrite elem_of_list_to_set. intros Hu. apply Hall, elem_of_app. by left. }
    destruct (dict_add_is seed g d _ v Hd Hok) as (d1 & -> & Hd1); [lia|]. rewrite bind_Some_eq, Hv, Ht in *.
    rewrite bool_decide_true by (rewrite elem_of_list_to_set; intros Hin; apply (Hdis t Hin); by left). rewrite <-list_to_set_snoc in Hd1.
    apply (IH (ts ++ [t]) d1 si' rem Hat'); [by rewrite <-app_assoc|done|done|]. cbn in Hf. lia.
Qed.

Lemma remove_random_sound n d X rnd d' rest :
  tab_rep seed d X → Z.of_nat (size X) < 2 ^ 30 → numbers rnd → remove_random seed g n d rnd = Some (d', rest) →
  ∃ X', tab_rep seed d' X' ∧ X' ⊆ X ∧ size X = (n + size X')%nat.
Proof.
  revert d X rnd. induction n as [|n IH]; intros d X rnd Hd Hsz Hr Hrun; cbn [remove_random] in Hrun.
  { injection Hrun as <- <-. by exists X. }
  apply bind_Some in Hrun as ([[de d1] rnd1] & Hkr & Hrun). destruct de as [p|]; [|done]. rewrite bind_Some_eq in Hrun.
  destruct (tab_random d X rnd p d1 rnd1 Hd Hr Hkr) as (Hd1 & Hr1 & _ & e & He & Hin). rewrite He, bind_Some_eq in Hrun.
  destruct (tab_delete seed g d1 X (de_key e) Hd1 Hsz) as (r & d2 & Hdel & _ & Hd2). rewrite Hdel, bind_Some_eq in Hrun.
  pose proof (size_without X _ Hin). destruct (IH d2 _ rnd1 Hd2) as (X' & Hd' & Hs & Hsize); [lia|done|done|].
  exists X'. split; [done|]. split; [|lia]. etransitivity; [done|]. apply subseteq_difference_l; reflexivity.
Qed.

Lemma remove_random_any n d X :
  tab_rep seed d X → Z.of_nat (size X) < 2 ^ 30 → (n ≤ size X)%nat →
  ∃ rnd d', numbers rnd ∧ ∀ more, remove_random seed g n d (rnd ++ more) = Some (d', more).
Proof.
  revert d X. induction n as [|n IH]; intros d X Hd Hsz Hn; [by exists [], d|].
  destruct (set_choose_L X) as [t Ht]; [intros ->; rewrite size_empty in Hn; lia|]. destruct (tab_random_any d X t Hd Ht) as (rnd1 & p & d1 & e & Hr1 & Hrun1 & Hd1 & He & Hk).
  destruct (tab_delete seed g d1 X (de_key e) Hd1 Hsz) as (r & d2 & Hdel & _ & Hd2). rewrite Hk in Hd2. pose proof (size_without X t Ht).
  destruct (IH d2 _ Hd2) as (rnd & d' & Hr & Hrun); [lia..|]. exists (rnd1 ++ rnd), d'. split; [by apply Forall_app|]. intros more.
  cbn [remove_random]. by rewrite <-app_assoc, Hrun1, bind_Some_eq, bind_Some_eq, He, bind_Some_eq, Hdel, bind_Some_eq.
Qed.

(** The dictionary of the elements picked so far. *)
Definition picked (d : dict bytes unit) (X D : gset bytes) (n : Z) : Prop := tab_rep seed d D ∧ D ⊆ X ∧ n = Z.of_nat (size D).

Lemma pick_step X d D n e :
  picked d X D n → ele_ok e → ele_text e ∈ X → Z.of_nat (size X) < 2 ^ 30 →
  ∃ v d', ele_object e = Some v ∧ set_dict_add seed g d v = Some (bool_decide (ele_text e ∉ D), d') ∧
    picked d' X ({[ele_text e]} ∪ D) (if bool_decide (ele_text e ∉ D) then n + 1 else n).
Proof.
  intros (Hd & Hs & ->) He Hin Hsz. destruct (ele_object_run e He) as (v & -> & Ht & Hok). pose proof (subseteq_size _ _ Hs).
  destruct (dict_add_is seed g d D v Hd Hok) as (d' & Hadd & Hd'); [lia|]. rewrite Ht in *. exists v, d'. split; [done|]. split; [done|].
  split; [done|]. split; [by apply union_least; [apply singleton_subseteq_l|]|]. rewrite size_add.
  destruct (decide (ele_text e ∈ D)); [rewrite bool_decide_false by tauto|rewrite bool_decide_true by done]; lia.
Qed.

Lemma pick_sound fuel count o X d D n rnd o' d' rest :
  is_set o X → picked d X D n → n ≤ count → numbers rnd → Z.of_nat (size X) < 2 ^ 30 →
  loop fuel (pick_body seed g key_object count) (o, d, n, rnd) = Some (o', d', rest) →
  is_set o' X ∧ ∃ D', picked d' X D' count.
Proof.
  revert o d D n rnd. induction fuel as [|fuel IH]; intros o d D n rnd Ho Hp Hn Hr Hsz Hrun; [done|]. rewrite loop_S in Hrun.
  cbn [pick_body] in Hrun. destruct (Z.ltb_spec n count) as [Hlt|Hge].
  - destruct (setTypeRandomElement seed g key_object o rnd) as [[[e o1] rnd1]|] eqn:E; [|done].
    destruct (random_element_sound o X rnd e o1 rnd1 Ho Hr E) as (He & Hin & Ho1 & _ & Hr1 & _).
    destruct (pick_step X d D n e Hp He Hin Hsz) as (v & d1 & Hv & Hadd & Hp1).
    rewrite bind_Some_eq, Hv, bind_Some_eq, Hadd, bind_Some_eq in Hrun. refine (IH o1 d1 _ _ rnd1 Ho1 Hp1 _ Hr1 Hsz Hrun).
    case_bool_decide; lia.
  - injection Hrun as <- <- <-. split; [done|]. exists D. by replace count with n by lia.
Qed.

Lemma pick_any k count o X d D n :
  is_set o X → picked d X D n → n + Z.of_nat k = count → count ≤ Z.of_nat (size X) → Z.of_nat (size X) < 2 ^ 30 →
  ∃ rnd o' d', numbers rnd ∧ (k ≤ length rnd)%nat ∧
    ∀ fuel more, (k < fuel)%nat → loop fuel (pick_body seed g key_object count) (o, d, n, rnd ++ more) = Some (o', d', more).
Proof.
  revert o d D n. induction k as [|k IH]; intros o d D n Ho Hp Hk Hc Hsz.
  - exists [], o, d. split; [done|]. split; [done|]. intros fuel more Hf. destruct fuel as [|fuel]; [lia|]. rewrite loop_S. cbn [pick_body].
    by replace (n <? count) with false by lia.
  - assert (∃ t, t ∈ X ∧ t ∉ D) as (t & Ht & Hnew).
    { destruct (set_choose_L (X ∖ D)) as [t Ht]; [|exists t; by apply elem_of_difference].
      intros He. destruct Hp as (_ & Hs & ->). assert (X ⊆ D) as Hs'%subseteq_size; [|lia]. by apply empty_difference_subseteq_L. }
    destruct (random_any o X t Ho Ht) as (rnd1 & e & o1 & Hr1 & Hrun1 & Hte & Ho1 & He & Hlen & _).
    destruct (pick_step X d D n e Hp He) as (v & d1 & Hv & Hadd & Hp1); [by rewrite Hte|done|]. rewrite Hte, bool_decide_true in * by done.
    destruct (IH o1 d1 _ (n + 1) Ho1 Hp1) as (rnd & o' & d' & Hr & Hl & Hrun); [lia..|]. exists (rnd1 ++ rnd), o', d'.
    split; [by apply Forall_app|]. split; [rewrite length_app; lia|]. intros fuel more Hf. destruct fuel as [|fuel]; [lia|]. rewrite loop_S.
    cbn [pick_body]. replace (n <? count) with true by lia. rewrite <-app_assoc, Hrun1, bind_Some_eq, Hv, bind_Some_eq, Hadd, bind_Some_eq.
    apply Hrun. lia.
Qed.

Lemma send_dict_run fuel d D it rem :
  is_set (STable d) D → set_at seed addr (STable d) (SIterTable it) rem → (length rem < fuel)%nat →
  send_dict addr key_object fuel d it = Some rem.
Proof.
  intros Ho. revert it rem. induction fuel as [|fuel IH]; intros it rem Hat Hf; [lia|]. cbn [send_dict]. pose proof Ho as [Hshort Hd].
  pose proof Hat as (b0 & b1 & ps & Hrep & Hrem & Hin & r & it' & Hn & Hres). destruct ps as [|p ps]; cbn [fmap list_fmap] in Hrem; subst rem.
  - destruct Hres as [-> Hpos]. by rewrite Hn, bind_Some_eq, (release_unsafe addr d b0 b1 it' Hpos).
  - destruct Hres as [-> Hpos]. rewrite Hn, bind_Some_eq. destruct (tab_present seed d D b0 b1 p Hd Hrep) as (e & He & Hel); [by apply Hin; left|].
    destruct (Hkey (de_key e)) as [Ht Hok]; [by apply Hshort|]. rewrite He, bind_Some_eq, (getDecodedObject_run _ Hok), bind_Some_eq, Ht.
    rewrite (IH it' (tab_key d <$> ps)), bind_Some_eq.
    + unfold tab_key. by rewrite He.
    + exists b0, b1, ps. split; [done|]. split; [done|]. split; [intros q Hq; apply Hin; by right|]. by apply (dictNext_run (setDictType seed)).
    + cbn in Hf. lia.
Qed.

Lemma send_all d D : is_set (STable d) D → ∃ ts, send_dict addr key_object (S (Z.to_nat (dictSize d))) d dictGetIterator = Some ts ∧ ts ≡ₚ elements D.
Proof.
  intros Ho. destruct (init_at seed addr _ (STable d) D Ho) as (ts & Hat & Hp). exists ts. split; [|done].
  rewrite (tab_size seed d D (proj2 Ho)), Nat2Z.id. apply (send_dict_run _ d D _ ts Ho); [exact Hat|].
  assert (length ts = size D) by by rewrite Hp. lia.
Qed.

(** The answer to a count [l] for the set [X]: that many members, in any order; distinct ones, all of
    them at most, unless the count is negative.  A count is cut to 32 bits. *)
Definition random_sample (X : gset bytes) (l : Z) (ts : list bytes) : Prop :=
  (∀ t, t ∈ ts → t ∈ X) ∧
  zlen ts = (if l <? 0 then if decide (X = ∅) then 0 else - l else Z.min (u32 l) (Z.of_nat (size X))) ∧
  (0 ≤ l → NoDup ts).

(** All members of a set by SUNION. *)
Lemma whole_set_run h H key :
  keys h H → Z.of_nat (size (at_key H key)) < 2 ^ 30 → is_Some (h !! key) →
  ∃ ts h', sunionDiffGeneric seed addr g set_max_intset_entries key_object h [Some key] false REDIS_OP_UNION = Some (SetReply ts, h') ∧
    ts ≡ₚ elements (at_key H key) ∧ keys h' H.
Proof.
  intros Hk Hsz [o Ho]. assert (lookup_set h key = Some key) as Hl by (unfold lookup_set; by rewrite Ho).
  pose proof (lookup_is seed _ h H key Hk) as [Hm Hkn]. rewrite Hl in *.
  assert (union_of H [Some key] = at_key H key) as HU by (rewrite union_of_cons, union_of_nil, Hm; apply (right_id_L ∅ (∪))).
  destruct (sunionDiff_run seed addr g _ key_object Hmax Hkey h H [Some key] false REDIS_OP_UNION) as (r & h' & -> & Hr & Hh');
    [apply Hk|done|by constructor|by left|by rewrite HU|]. change (REDIS_OP_UNION =? REDIS_OP_UNION) with true in Hr. cbn [negb] in Hr.
  rewrite HU in Hr. destruct r as [ts|]; [|by destruct Hr]. destruct Hr as [_ Hp]. exists ts, h'. split; [done|]. split; [done|]. split; [done|apply Hk].
Qed.

(** What is sent of the dictionary with some of the members. *)
Lemma sample_run h H key o d D l :
  keys h H → is_Some (h !! key) → is_set o (at_key H key) → tab_rep seed d D → D ⊆ at_key H key → 0 ≤ l → Z.of_nat (size D) = u32 l →
  u32 l ≤ Z.of_nat (size (at_key H key)) →
  ∃ ts, send_dict addr key_object (S (Z.to_nat (dictSize d))) d dictGetIterator = Some ts ∧ random_sample (at_key H key) l ts ∧ keys (<[key := o]> h) H.
Proof.
  intros Hk [o0 Ho0] Ho Hd Hs Hl Hn Hle. assert (is_set (STable d) D) as HD by (split; [eapply short_subset; [apply Ho|done]|done]).
  destruct (send_all d D HD) as (ts & -> & Hp). exists ts. split; [done|]. split; [|by eapply keys_update]. split; [|split].
  - intros t Ht. apply Hs, elem_of_elements. by rewrite <-Hp.
  - assert (length ts = size D) as Hlen by by rewrite Hp. destruct (Z.ltb_spec l 0); lia.
  - intros _. rewrite Hp. apply NoDup_elements.
Qed.

(** The two ways of collecting them. *)
Lemma collect_sound o X count rnd o' d rest :
  is_set o X → 0 ≤ count < Z.of_nat (size X) → Z.of_nat (size X) < 2 ^ 30 → numbers rnd →
  random_dict seed addr g key_object o (Z.of_nat (size X)) count rnd = Some (o', d, rest) →
  is_set o' X ∧ ∃ D, tab_rep seed d D ∧ D ⊆ X ∧ Z.of_nat (size D) = count.
Proof.
  intros Ho Hc Hsz Hr. unfold random_dict. destruct (_ >? _); intros Hrun.
  - destruct (init_at seed addr _ o X Ho) as (ts & Hat & Hp).
    destruct (copy_run o X dictCreate [] ts (setTypeInitIterator o) (S (Z.to_nat (Z.of_nat (size X)))) Ho Hat Hp (tab_create seed) Hsz) as (si & d1 & Hl & Hd1 & Hrel).
    { assert (length ts = size X) by by rewrite Hp. lia. }
    rewrite Hl, bind_Some_eq, Hrel, bind_Some_eq, (tab_size seed d1 X Hd1), Z.eqb_refl in Hrun.
    apply bind_Some in Hrun as ([d2 rnd2] & Hrem & [= <- <- <-]).
    destruct (remove_random_sound _ d1 X rnd d2 rnd2 Hd1 Hsz Hr Hrem) as (D & Hd2 & Hs & Hsize). split; [done|]. exists D. split; [done|]. split; [done|lia].
  - destruct (pick_sound (S (length rnd)) count o X dictCreate ∅ 0 rnd o' d rest Ho) as (Ho' & D & Hd & Hs & ->); [|lia|done|done|done|].
    + split; [apply tab_create|]. split; [apply empty_subseteq|]. by rewrite size_empty.
    + split; [done|]. by exists D.
Qed.

Lemma collect_any o X count :
  is_set o X → 0 ≤ count < Z.of_nat (size X) → Z.of_nat (size X) < 2 ^ 30 →
  ∃ rnd, numbers rnd ∧ is_Some (random_dict seed addr g key_object o (Z.of_nat (size X)) count rnd).
Proof.
  intros Ho Hc Hsz. unfold random_dict. destruct (_ >? _).
  - destruct (init_at seed addr _ o X Ho) as (ts & Hat & Hp).
    destruct (copy_run o X dictCreate [] ts (setTypeInitIterator o) (S (Z.to_nat (Z.of_nat (size X)))) Ho Hat Hp (tab_create seed) Hsz) as (si & d1 & Hl & Hd1 & Hrel).
    { assert (length ts = size X) by by rewrite Hp. lia. }
    destruct (remove_random_any (Z.to_nat (Z.of_nat (size X) - count)) d1 X Hd1 Hsz) as (rnd & d2 & Hr & Hrun); [lia|].
    exists rnd. split; [done|]. rewrite Hl, bind_Some_eq, Hrel, bind_Some_eq, (tab_size seed d1 X Hd1), Z.eqb_refl.
    specialize (Hrun []). rewrite app_nil_r in Hrun. rewrite Hrun, bind_Some_eq. by eexists.
  - destruct (pick_any (Z.to_nat count) count o X dictCreate ∅ 0 Ho) as (rnd & o' & d' & Hr & Hl & Hrun); [|lia|lia|done|].
    + split; [apply tab_create|]. split; [apply empty_subseteq|]. by rewrite size_empty.
    + exists rnd. split; [done|]. specialize (Hrun (S (length rnd)) []). rewrite app_nil_r in Hrun. rewrite Hrun by lia. by eexists.
Qed.

Lemma srandmember_sound h H key l rnd ts h' rest :
  keys h H → Z.of_nat (size (at_key H key)) < 2 ^ 30 → numbers rnd →
  srandmemberWithCount seed addr g set_max_intset_entries key_object h key l rnd = Some (ts, h', rest) →
  random_sample (at_key H key) l ts ∧ keys h' H.
Proof.
  intros Hk Hsz Hr Hrun. unfold srandmemberWithCount in Hrun. pose proof (key_cases seed _ h H key Hk) as Hc.
  apply bind_Some in Hrun as ([count uniq] & Hcount & Hrun).
  assert (if uniq then 0 ≤ l ∧ count = u32 l else l < 0 ∧ count = - l) as Hl.
  { destruct (Z.geb_spec l 0); [by injection Hcount as <- <-|]. destruct (l =? - 2 ^ 63); [done|]. by injection Hcount as <- <-. }
  assert (0 ≤ u32 l < 2 ^ 32) as Hw by by apply wrap_range. destruct (h !! key) as [o|] eqn:E.
  2:{ injection Hrun as <- <- <-. destruct Hc as [He _]. split; [|done]. split; [by intros t ?%not_elem_of_nil|]. split; [|intros; constructor].
      rewrite He, decide_True, size_empty by done. destruct (l <? 0); [done|]. simpl. lia. }
  destruct Hc as (Ho & Hne & _). rewrite (size_is seed _ o _ Ho), bind_Some_eq in Hrun.
  assert (0 < size (at_key H key))%nat as Hpos.
  { destruct (decide (size (at_key H key) = 0%nat)) as [Hz|]; [|lia]. destruct Hne. by apply leibniz_equiv, size_empty_inv. }
  destruct (Z.eqb_spec count 0) as [->|Hcz].
  { injection Hrun as <- <- <-. split; [|done]. split; [by intros t ?%not_elem_of_nil|]. split; [|intros; constructor].
    destruct uniq; destruct Hl as [Hl Hu]; [|lia]. destruct (Z.ltb_spec l 0); simpl; lia. }
  destruct uniq; cbn [negb] in Hrun.
  2:{ destruct Hl as [Hl ->]. apply bind_Some in Hrun as ([[out o'] rest'] & Hrun & [= <- <- <-]).
      destruct (random_bulks_sound _ o _ rnd out o' rest' Ho Hr Hrun) as (Hlen & Hall & Ho').
      split; [|by eapply keys_update]. split; [done|]. split; [|lia]. rewrite decide_False by done. destruct (Z.ltb_spec l 0); lia. }
  destruct Hl as [Hl ->]. destruct (Z.geb_spec (u32 l) (Z.of_nat (size (at_key H key)))) as [Hge|Hlt].
  - destruct (whole_set_run h H key Hk Hsz) as (out & h1 & Hall & Hp & Hk1); [by eexists|]. rewrite Hall, bind_Some_eq in Hrun.
    injection Hrun as <- <- <-. split; [|done]. split; [intros t; rewrite Hp; by apply elem_of_elements|].
    split; [|intros _; rewrite Hp; apply NoDup_elements]. assert (length out = size (at_key H key)) by by rewrite Hp. destruct (Z.ltb_spec l 0); lia.
  - apply bind_Some in Hrun as ([[o' d] rest'] & Hcol & Hrun).
    destruct (collect_sound o _ (u32 l) rnd o' d rest' Ho) as (Ho' & D & Hd & Hs & Hn); [lia|done|done|done|].
    destruct (sample_run h H key o' d D l Hk) as (out & Hsend & Hsample & Hk'); [by eexists|done|done|done|done|done|lia|].
    rewrite Hsend, bind_Some_eq in Hrun. by injection Hrun as <- <- <-.
Qed.

Lemma srandmember_answers h H key l :
  keys h H → Z.of_nat (size (at_key H key)) < 2 ^ 30 → - 2 ^ 63 < l →
  ∃ rnd, numbers rnd ∧ is_Some (srandmemberWithCount seed addr g set_max_intset_entries key_object h key l rnd).
Proof.
  intros Hk Hsz Hmin. unfold srandmemberWithCount. pose proof (key_cases seed _ h H key Hk) as Hc. assert (0 ≤ u32 l < 2 ^ 32) as Hw by by apply wrap_range.
  assert (∃ count uniq, (if l >=? 0 then Some (u32 l, true) else check negb (l =? - 2 ^ 63) ;; Some (- l, false)) = Some (count, uniq) ∧
    if uniq : bool then 0 ≤ l ∧ count = u32 l else l < 0 ∧ count = - l) as (count & uniq & Hcount & Hl).
  { destruct (Z.geb_spec l 0); [by eexists _, _|]. destruct (Z.eqb_spec l (- 2 ^ 63)); [lia|]. by eexists _, _. }
  setoid_rewrite Hcount. setoid_rewrite bind_Some_eq. destruct (h !! key) as [o|] eqn:E; [|exists []; split; [done|by eexists]].
  destruct Hc as (Ho & Hne & _). setoid_rewrite (size_is seed _ o _ Ho). setoid_rewrite bind_Some_eq.
  destruct (count =? 0); [exists []; split; [done|by eexists]|]. destruct uniq; cbn [negb].
  2:{ destruct (random_bulks_any (Z.to_nat count) o _ Ho Hne) as (rnd & out & o' & Hr & Hrun). exists rnd. split; [done|].
      specialize (Hrun []). rewrite app_nil_r in Hrun. rewrite Hrun, bind_Some_eq. by eexists. }
  destruct Hl as [Hl ->]. destruct (Z.geb_spec (u32 l) (Z.of_nat (size (at_key H key)))) as [Hge|Hlt].
  - destruct (whole_set_run h H key Hk Hsz) as (out & h1 & Hall & _); [by eexists|]. exists []. split; [done|]. rewrite Hall, bind_Some_eq. by eexists.
  - destruct (collect_any o _ (u32 l) Ho) as (rnd & Hr & [[[o' d] rest] Hcol]); [lia|done|]. exists rnd. split; [done|].
    destruct (collect_sound o _ (u32 l) rnd o' d rest Ho) as (Ho' & D & Hd & Hs & Hn); [lia|done|done|done|].
    destruct (sample_run h H key o' d D l Hk) as (out & Hsend & _); [by eexists|done|done|done|done|done|lia|].
    rewrite Hcol, bind_Some_eq, Hsend, bind_Some_eq. by eexists.
Qed.
End random.

(** ** The properties *)

Section properties.
Context {host : Host} {alloc : Allocator} {locs : EntryAllocator} {sorting : Qsort}.
Context (seed : Z) (addr : Z → Z) (set_max_intset_entries : Z) (key_object : bytes → robj).

(** C39: whatever [random] returns, SPOP takes a member out of the set and sends it,
    in either encoding, and deletes the key with the last one; and each member is
    the one for some values of [random]. *)
Theorem spop_correct g h H key :
  set_config_ok set_max_intset_entries key_object → keys_are seed set_max_intset_entries h H → Z.of_nat (size (at_key H key)) < 2 ^ 30 →
  (∀ rnd r h' rest, numbers rnd → spopCommand seed g key_object h key rnd = Some (r, h', rest) →
    match r with
    | None => at_key H key = ∅ ∧ h' = h
    | Some t => t ∈ at_key H key ∧ keys_are seed set_max_intset_entries h' (set_key H key (at_key H key ∖ {[t]}))
    end) ∧
  (∀ t, t ∈ at_key H key → ∃ rnd h', numbers rnd ∧ ∀ more, spopCommand seed g key_object h key (rnd ++ more) = Some (Some t, h', more)).
Proof.
  intros [Hmax Hkey] Hk Hsz. pose proof (key_cases seed _ h H key Hk) as Hc. split.
  - intros rnd r h' rest Hr Hrun. destruct (h !! key) as [o|] eqn:E.
    + destruct Hc as (Ho & _).
      destruct (setTypeRandomElement seed g key_object o rnd) as [[[e o'] rest']|] eqn:Hel;
        [|by unfold spopCommand, spop in Hrun; rewrite E, Hel in Hrun].
      destruct (random_element_sound seed g _ key_object Hkey o _ rnd e o' rest' Ho Hr Hel) as (He & Hin & Ho' & _ & _ & _ & Hm).
      destruct (spop_command_step seed addr g _ key_object Hmax Hkey h H key o e o' Hk E Ho' He Hsz Hm) as (h1 & Hpop & Hk1).
      rewrite (Hpop rnd rest' Hel) in Hrun. by injection Hrun as <- <- <-.
    + unfold spopCommand in Hrun. rewrite E in Hrun. injection Hrun as <- <- <-. by destruct Hc.
  - intros t Ht. destruct (h !! key) as [o|] eqn:E; [|destruct Hc as [Hc _]; rewrite Hc in Ht; by apply not_elem_of_empty in Ht].
    destruct Hc as (Ho & _). destruct (random_any seed g _ key_object Hmax Hkey o _ t Ho Ht) as (rnd & e & o' & Hr & Hrun & Hte & Ho' & He & _ & Hm).
    destruct (spop_command_step seed addr g _ key_object Hmax Hkey h H key o e o' Hk E Ho' He Hsz Hm) as (h' & Hpop & _).
    exists rnd, h'. split; [done|]. intros more. rewrite <-Hte. by apply Hpop.
Qed.

(** C40: whatever [random] returns, SRANDMEMBER with a count sends members of the
    set and leaves it as it is: with a negative count exactly that many, with any
    other distinct ones, that many (cut to 32 bits) or all of them; and there are
    values of [random] with which it answers. *)
Theorem srandmember_correct g h H key l :
  set_config_ok set_max_intset_entries key_object → keys_are seed set_max_intset_entries h H → Z.of_nat (size (at_key H key)) < 2 ^ 30 →
  - 2 ^ 63 < l →
  (∀ rnd ts h' rest, numbers rnd → srandmemberWithCount seed addr g set_max_intset_entries key_object h key l rnd = Some (ts, h', rest) →
    random_sample (at_key H key) l ts ∧ keys_are seed set_max_intset_entries h' H) ∧
  (∃ rnd, numbers rnd ∧ is_Some (srandmemberWithCount seed addr g set_max_intset_entries key_object h key l rnd)).
Proof.
  intros [Hmax Hkey] Hk Hsz Hl. split; [|by eapply (srandmember_answers seed addr g _ key_object Hmax Hkey)].
  intros rnd ts h' rest Hr Hrun. by eapply (srandmember_sound seed addr g _ key_object Hmax Hkey).
Qed.

(** A count that is a multiple of 2^32 is answered like 0. *)
Lemma srandmember_count_cut g h H key n rnd :
  keys_are seed set_max_intset_entries h H → 0 ≤ n →
  srandmemberWithCount seed addr g set_max_intset_entries key_object h key (2 ^ 32 * n) rnd = Some ([], h, rnd).
Proof.
  intros Hk Hn. unfold srandmemberWithCount. destruct (Z.geb_spec (2 ^ 32 * n) 0) as [_|]; [|lia]. rewrite bind_Some_eq.
  assert (u32 (2 ^ 32 * n) = 0) as -> by (unfold u32, wrap; by rewrite Z.mul_comm, Z.mod_mul).
  pose proof (key_cases seed _ h H key Hk) as Hc. destruct (h !! key) as [o|]; [|done]. destruct Hc as (Ho & _). by rewrite (size_is seed _ o _ Ho).
Qed.
End properties.

(** ** Concrete instances: the integers 5, 6 and 7 under the key 1 *)

#[local] Existing Instances be_host poison_allocator next_entry_allocator insertion_sort.

Definition three_integers : set_robj := SIntset (mk_intset 33554432 50331648 [5; 0; 6; 0; 7; 0]).
Definition three_texts : gset bytes := {[ [53]; [54]; [55] ]}.
Definition three_heap : set_space := {[1%positive := three_integers]}.
Definition three_keys : gmap loc (gset bytes) := {[1%positive := three_texts]}.

Lemma three_integers_is : set_is 5381 3 three_integers three_texts.
Proof.
  split.
  - intros t Ht. unfold three_texts in Ht. rewrite !elem_of_union, !elem_of_singleton in Ht. destruct Ht as [[->| ->]| ->]; vm_compute; done.
  - exists 2%nat, [5; 6; 7]. split; [|split; [by vm_compute|vm_compute; done]].
    split; try (vm_compute; reflexivity); [by left| |].
    + repeat constructor; vm_compute; done.
    + repeat constructor; lia.
Qed.

Lemma three_keys_are : keys_are 5381 3 three_heap three_keys.
Proof.
  split; [by apply map_Forall2_singleton, three_integers_is|]. apply map_Forall_singleton. intros H. vm_compute in H. discriminate H.
Qed.

Lemma spop_correct_witness :
  (∃ r h', spopCommand 5381 sample_set_globals SdsObj three_heap 1 [7] = Some (r, h', []) ∧ r = Some [54]) ∧
  (∀ rnd r h' rest, numbers rnd → spopCommand 5381 sample_set_globals SdsObj three_heap 1 rnd = Some (r, h', rest) →
    match r with
    | None => at_key three_keys 1 = ∅ ∧ h' = three_heap
    | Some t => t ∈ at_key three_keys 1 ∧ keys_are 5381 3 h' (set_key three_keys 1 (at_key three_keys 1 ∖ {[t]}))
    end) ∧
  (∀ t, t ∈ at_key three_keys 1 → ∃ rnd h', numbers rnd ∧
    ∀ more, spopCommand 5381 sample_set_globals SdsObj three_heap 1 (rnd ++ more) = Some (Some t, h', more)).
Proof.
  split; [eexists _, _; split; [vm_compute; reflexivity|reflexivity]|].
  exact (spop_correct 5381 sample_set_addr 3 SdsObj sample_set_globals three_heap three_keys 1 sample_set_config three_keys_are eq_refl).
Defined.

Lemma srandmember_correct_witness :
  ((λ r, r.1.1) <$> srandmemberWithCount 5381 sample_set_addr sample_set_globals 3 SdsObj three_heap 1 2 [3; 1; 4; 1; 5]) = Some [[55]; [53]] ∧
  ((λ r, r.1.1) <$> srandmemberWithCount 5381 sample_set_addr sample_set_globals 3 SdsObj three_heap 1 (-4) [3; 1; 4; 1; 5]) =
    Some [[53]; [54]; [54]; [54]] ∧
  (∀ rnd ts h' rest, numbers rnd → srandmemberWithCount 5381 sample_set_addr sample_set_globals 3 SdsObj three_heap 1 2 rnd = Some (ts, h', rest) →
    random_sample (at_key three_keys 1) 2 ts ∧ keys_are 5381 3 h' three_keys) ∧
  (∃ rnd, numbers rnd ∧ is_Some (srandmemberWithCount 5381 sample_set_addr sample_set_globals 3 SdsObj three_heap 1 2 rnd)).
Proof.
  split; [vm_compute; reflexivity|]. split; [vm_compute; reflexivity|].
  exact (srandmember_correct 5381 sample_set_addr 3 SdsObj sample_set_globals three_heap three_keys 1 2 sample_set_config three_keys_are eq_refl eq_refl).
Defined.
